(* ===== verification/_CoqProject ===== *)
-Q . S2P
Prelude.v
GoString.v
Policy.v
PolicyFacts.v
Expr.v
Eval.v
ExprFacts.v
ExprPrint.v
EvalFacts.v
Render.v
RenderFacts.v
Concurrency.v
ConcurrencyFacts.v
Trigger.v
TriggerFacts.v
PathMatch.v
Protection.v
ProtectionFacts.v
ReviewGate.v
Checks.v
ReviewGateFacts.v
ChecksFacts.v
Scrub.v
ScrubFacts.v
Lru.v
LruFacts.v
Codeowners.v
CodeownersFacts.v
CodeOwnerGate.v
CodeOwnerGateFacts.v
Worker.v
WorkerFacts.v
Webhook.v
WebhookFacts.v
WebhookSystem.v
WebhookSystemFacts.v
AdvisoryMatch.v
AdvisoryMatchFacts.v
Scheduler.v
SchedulerFacts.v
Workflow.v
WorkflowFacts.v
TriggerPolicy.v
Pipeline.v
PipelineFacts.v
IssueRefs.v
IssueRefsFacts.v
Issues.v
IssuesFacts.v
Reviews.v
ReviewsFacts.v
Pulls.v
PullsFacts.v
NetIP.v
NetIPFacts.v
Ssrf.v
SsrfFacts.v
Tokens.v
TokensFacts.v
DeviceCode.v
DeviceCodeFacts.v
Encoding.v
Credentials.v
CredentialsFacts.v
Program.v
Session.v
AuthDB.v
Signin.v
SigninInv.v
SigninSafe.v
SigninFlows.v
SigninFacts.v
RateLimit.v
RateLimitFacts.v
Notif.v
Digest.v
NotifInv.v
NotifFacts.v
NotifExact.v
