(* ===== verification/Prelude.v ===== *)
(** * shithub: a verification development

    shithub is a git forge written in Go: repositories, issues, pull requests, a CI system
    ("Actions") with its own runners, webhooks and background jobs over PostgreSQL.
    This library models the parts of it that decide something (who may do what, what may be
    merged, what runs when and with which text, what leaves the system) and proves
    what they promise.  Go code is translated function by function; a file [X.v] holds the definitions of a
    component, [XFacts.v] its theorems and, after them, the inputs they are run on.

    ** The parts and how they meet

    A request reaches a handler, which asks the authorization policy ([Policy]) and changes
    the database.  A push is checked against the protection rules ([Protection],
    with the shell patterns of [PathMatch]); the merge of a pull request passes the review gate ([ReviewGate],
    [CodeOwnerGate] with the file format of [Codeowners]) and the required checks ([Checks]): [Pulls] is the merge,
    on the tables that issues ([Issues], with the references of [IssueRefs]) and reviews ([Reviews]) keep.
    An event becomes a job of the queue, whose handler ([Pipeline]) finds the workflow files of the commit,
    parses them ([Workflow]), asks which of them listen to it ([Trigger]) and whether they may start
    ([TriggerPolicy], on top of [Policy]); such a workflow becomes a run with
    jobs and steps ([Scheduler.Enqueue]), whose concurrency group comes from an
    expression ([Expr], [Eval], [Concurrency.Resolve]); runners claim the jobs, render the steps ([Render]),
    mask the log ([Scrub]) and report back ([Scheduler]); the conclusion of a run is
    [Concurrency.DeriveWorkflowRunConclusion].  Events also become webhook deliveries
    ([Webhook]), which, like all background work, are jobs of the queue ([Worker]; both together
    are [WebhookSystem]); deliveries pass the dialer of [Ssrf].  Requests of the API carry personal access tokens
    ([Tokens], with the addresses of [NetIP]), which the settings page creates, or the device flow ([DeviceCode]) once
    a signed-in user has agreed; how one signs in, and whom the cookie of a browser stands for, is [Signin].  How often all of them may ask is counted
    by [RateLimit].  What issues and reviews announce reaches inboxes and mail through [Notif], and a summary of an inbox its owner
    through [Digest].  Caches of rendered pages and lookups are [Lru]; the
    comparison of dependency versions with advisories is [AdvisoryMatch].

    ** Files, and the code they follow (under internal/)

    - Prelude, GoString: results with errors, tactics shared by all files, invariants of step
      relations; Go strings and the functions of package strings, unicode and utf8 that are called.
    - Policy: auth/policy (policy.go, roles, cache.go, visibility.go, Maybe404).  [Can] is the decision,
      [effectiveRole] the role lookup with the request cache as explicit state, [Store] the tables
      and an oracle of failing queries.
    - Expr, ExprPrint, Eval: actions/expr (lex.go, parse.go, eval.go).
    - Render: runner/exec/render.go.  Concurrency: actions/concurrency/resolve.go, and the rollup of
      actions/runstate/cancel.go.  Trigger: actions/trigger (glob.go, match.go).
    - PathMatch: path/filepath.Match as the standard library writes it.  Protection: repos/protection.
    - ReviewGate, CodeOwnerGate: pulls/review (required.go, position_map.go, codeowners.go).
      Codeowners: repos/codeowners.  Checks: checks (required_eval.go, suite_rollup.go).
    - IssueRefs, Issues: issues (issues.go, references.go, labels.go, milestones.go, notif_emit.go) and
      pulls/linked_issues.go, as operations on [Issues.Tables] and the relation [istep].  Reviews: pulls/review
      (submit.go, request.go, comment.go).  Pulls: pulls (pulls.go, merge.go, state.go) with the
      end of repos/git/mergeops.go; requests and jobs that have still writes to make are the threads of [Pulls.Sys],
      and [pstep] is any step of any of them, of a push or of an administrator.
    - Scrub: runner/scrub.  Lru: cache/lru (lru.go, sized.go).  AdvisoryMatch: repos/advisorymatch.
    - Worker: worker (types.go, enqueue.go, pool.go, the statements on jobs) and the queue inspector of web/handlers/admin/jobs.go; workers that
      claim, run, record or leave a run unrecorded (a process that dies, a shutdown, a write that fails), and administrators who
      re-arm and discard jobs, are the relation [Worker.step].
    - Webhook: webhook (all of its Go files) and worker/jobs/webhook.go; WebhookSystem: the
      registration in cmd/shithubd/worker.go, as the relation [wstep] over queue and tables.
    - Scheduler: actions/lifecycle, actions/concurrency/concurrency.go, actions/runstate, trigger/enqueue.go,
      the runner endpoints of web/handlers/api/runners.go and the deletion of runs (actions_lifecycle_rest.go) with the statements they
      run, as the relation [sstep] over runs, jobs, steps, approvals, tokens and pending requests.
    - Workflow: actions/workflow (parse.go, types.go, aliases.go), over the tree of the YAML library.
      TriggerPolicy: actions/policy.  Pipeline: actions/trigger (discover.go, handler.go).

    - NetIP: the parts of net/netip and net that are called.  Ssrf: security/ssrf, security/openredirect.
      Tokens: auth/pat, web/middleware (pat.go, realip.go), web/handlers/auth/tokens.go, web/handlers/githttp/auth.go.
      DeviceCode: auth/devicecode and its handlers; requests that have read and not written are in [World], and
      [dstep] is any step of any of them, of the settings page, of the sweep or of a deletion.
    - Encoding: encoding/base64 and base32.  Credentials: auth/password, auth/token, auth/totp, auth/throttle, passwords.
      Session: auth/session and what web/middleware/auth.go makes of a session.  AuthDB: the tables of accounts and the statements
      of users/sqlc.  Signin: the handlers of web/handlers/auth and web/handlers/admin on accounts and sessions, with the
      middleware before them, as programs of [Program]: trees of statements and questions (clock, random bytes, mail), of which
      [sstep] runs one step of any request at a time; a statement may be refused, or executed and its answer lost.  [Program.safe]
      is the logic in which SigninInv, SigninSafe and SigninFlows show that every handler keeps one invariant.
    - RateLimit: ratelimit (bucket.go, keys.go, middleware.go, the statements) and what asks it in web/middleware and web/handlers,
      also as programs; [rstep] is any step of any stream or counted request.
    - Notif: notif (fanout.go, routing.go, email.go, emit.go, the statements), notifications/rules.go and the handlers of the inbox;
      Digest: notifications/digest.go and the settings of rules and digests.  Also programs, their system is [nstep]; the mentions
      and the reviewer are fields of an event instead of members of its JSON, and the statements of the policy are one
      statement.  The order in which a map is gone through, the HMAC and the entitlements are arguments.

    ** What the theorems show

    - PolicyFacts: the lookup returns the strongest of the owner's, the collaborator's and the teams' roles;
      the request cache never changes a decision, also after an invalidation; no write passes for a suspended actor,
      an archived repository or a missing role; more role never allows less; a
      denied reader cannot tell a private repository from none; the list filter agrees with the decision.
    - ExprFacts, ExprPrint, EvalFacts, RenderFacts: the parser always answers and reads back what the printer writes; a
      value that is neither tainted nor sensitive does not depend on the event or on
      secrets; the text of a rendered step does not either, and every reference to
      a variable in it is bound.
    - TriggerFacts, CodeownersFacts, ProtectionFacts: patterns mean what they are documented to mean, the last
      (or most specific) match decides, and a push is refused exactly when the rule chosen says so.
    - ReviewGateFacts, CodeOwnerGateFacts, ChecksFacts: when each half of the merge gate is satisfied,
      on every path, errors included.
    - IssueRefsFacts, IssuesFacts, ReviewsFacts: which references a text holds and what indexing them writes;
      transitions of issues; that numbers are unique and the state is what the timeline says; what a review does
      to the gate.  PullsFacts: when a merge succeeds and everything it changes; a pull request is
      merged only through the gates and for ever; what reopens one; when one open pull request for two branches
      is kept.
    - ConcurrencyFacts, SchedulerFacts: groups are free of untrusted text; in every reachable state no job of an
      unapproved run has started, a run that is over holds no slot, and two runs of a group do not run at a time (under
      a hypothesis on commit order that is shown to be needed); a job behind a failed one, or in a cycle of
      needs, never starts; an event never has two runs of one file at a time.
    - WorkflowFacts, PipelineFacts: the parser returns well-formed workflows only, and reads back every one of
      them (its limit on aliases only sees a hundred levels); when a workflow may start; where the runs of the handler come from, what ends
      it, and that the pull request of a stranger waits for an approval, where one is required, whatever else happens.
    - WorkerFacts, WebhookFacts, WebhookSystemFacts: exclusion under the lock window (and the runs that break it: a late
      record, an administrator who re-arms a running job), that no job is passed over for ever,
      the delay of retries with its bounds; what one delivery attempt does; a delivery that
      waits for its retry waits for ever, unless an administrator runs its job again.
    - SsrfFacts, TokensFacts, DeviceCodeFacts: which addresses are forbidden, and that the dialer connects to none of
      them; when a token authenticates and as whom, from its creation to whatever follows its revocation; that allowlists mean what was
      typed, for IPv4 clients, and that clients cannot forge their address; that a token of the device flow always has its owner's consent.
    - CredentialsFacts, SigninFacts: hashes, recovery codes, mailed tokens and cookies are read back; limits hold; in every
      reachable state of overlapping requests and failing statements, whoever a request is bound to had signed in and been current,
      ended sessions stay ended, second factors are used once, and each password was set by who could; also what an
      administrator cannot do while viewing as somebody else.
    - RateLimitFacts: how many streams can hold a lease at a time, and which addresses share a budget.
    - NotifInv, NotifFacts: who can find a row in the inbox or be sent a mail, and where to, whatever overlaps and fails; no event is passed over
      (if events commit in the order of their numbers, which is shown to be needed); links that unsubscribe; when digests are due.
      NotifExact: what one event does to every inbox, against a reference.
    - ScrubFacts, LruFacts, AdvisoryMatchFacts: streaming masks what masking the whole text masks; the caches
      refine a recency list within their bounds; precedence is a total preorder and ranges are intervals.

    ** Fuel, widths, atomicity

    [Expr.Parse] gives its recursion eight units of fuel a token, and [Parse_total] shows that it never
    runs out; the matchers of Trigger, Codeowners and PathMatch recurse on
    the text; the other loops are structural.  Go's int is 64 bits: where the code can reach the width
    ([Worker.Backoff], [AdvisoryMatch.parseSmallInt], the counters and sizes of [Lru]) the wrap-around is
    written out; identifiers and times are unbounded.  [Worker.Job] counts attempts without the 32-bit bound
    of its column.  A SQL statement or a transaction is one step; statements that could overlap on one
    snapshot (two claims that both see the last free slot of a cap) are therefore not told apart.  In [Pulls] what
    holds a lock to its commit (Merge, Create) is one step, and the other requests read first and write later,
    with anything in between.  In [Signin] every statement and every transaction is a step of its own; programs are finite
    trees, so they need no fuel.  The search for the day of a digest ([Digest.weekly_loop]) has seven rounds, enough by
    [NextSendTime_first] for a day of the week; another day, which no form and no row has, would not end, and is [NeverDue].

    ** Not modelled

    HTML and templates, markdown, git plumbing (calls of the git binary), the container engine of the
    runner, cryptography, sealed boxes, Stripe synchronisation, importers of foreign formats,
    reports, configuration and start-up: glue around libraries, or I/O.  The code sqlc generates is the same
    text in every package; only the statements the components run are modelled, with them.  Where a component
    calls such code it is an argument, with its documented behaviour as a hypothesis
    (SHA-256, JSON, [strings.ToLower], [url.Parse], DNS, citext comparison, the ancestry check).

    ** Plan

    Left for later: the tokens of runners and the rest of git over HTTPS;
    entitlements; the requests to code owners. *)

From stdpp Require Export prelude strings pretty gmap list.
From stdpp Require Import options.

(** ** Fallible computations

    Go functions that return [(T, error)] are modelled by [res E T]: the error
    path carries a value of the error type the package defines.  [Panic]-like
    outcomes (an index out of range) are constructors of the [E] of the
    component that can meet them, so a theorem can rule them out. *)

Inductive res (E A : Type) : Type :=
| Ok (a : A)
| Err (e : E).
Arguments Ok {E A} a.
Arguments Err {E A} e.

#[export] Instance res_ret {E} : MRet (res E) := fun A => Ok.
#[export] Instance res_bind {E} : MBind (res E) :=
  fun A B f m => match m with Ok a => f a | Err e => Err e end.
#[export] Instance res_fmap {E} : FMap (res E) :=
  fun A B f m => match m with Ok a => Ok (f a) | Err e => Err e end.

Definition is_ok {E A} (m : res E A) : bool :=
  match m with Ok _ => true | Err _ => false end.

#[export] Instance res_eq_dec {E A} `{EqDecision E} `{EqDecision A} :
  EqDecision (res E A).
Proof. solve_decision. Defined.

Lemma bind_Ok_inv {E A B} (f : A → res E B) (m : res E A) (b : B) :
  (m ≫= f) = Ok b → ∃ a, m = Ok a ∧ f a = Ok b.
Proof. destruct m; cbn; [eauto | discriminate]. Qed.

Lemma bind_Err_inv {E A B} (f : A → res E B) (m : res E A) (e : E) :
  (m ≫= f) = Err e → m = Err e ∨ ∃ a, m = Ok a ∧ f a = Err e.
Proof. destruct m; cbn; [eauto | intros [= ->]; eauto]. Qed.

(** ** Case analysis on the code's conditions *)

(** [ifs] splits every [if] and every bound [match] of the goal, keeping the
    equations, and closes the branches the equations contradict. *)
Ltac split_cond b :=
  lazymatch type of b with
  | sumbool _ _ => destruct b
  | _ => destruct b eqn:?
  end.

Ltac ifs_step :=
  match goal with
  | |- context [if ?b then _ else _] => split_cond b
  end.

Ltac ifs := repeat (ifs_step; simplify_eq/=; try done).

Ltac ifs_in H :=
  repeat (match type of H with
          | context [if ?b then _ else _] => split_cond b
          end; simplify_eq/=; try done).

(** [decide_goal] splits the decisions of the goal only. *)
Ltac decide_goal :=
  repeat match goal with
  | |- context [decide ?P] => destruct (decide P)
  end.

(** Boolean hypotheses into propositions. *)
Ltac bools :=
  repeat match goal with
  | H : _ && _ = true |- _ => apply andb_true_iff in H as [? ?]
  | H : _ || _ = false |- _ => apply orb_false_iff in H as [? ?]
  | H : negb _ = true |- _ => apply negb_true_iff in H
  | H : negb _ = false |- _ => apply negb_false_iff in H
  | H : bool_decide _ = true |- _ => apply bool_decide_eq_true in H
  | H : bool_decide _ = false |- _ => apply bool_decide_eq_false in H
  end.

(** ** Invariants of step relations *)

Lemma rtc_preserves {A} (R : relation A) (P : A → Prop) x y :
  rtc R x y → P x → (∀ a b, P a → R a b → P b) → P y.
Proof. intros Hr Hx Hstep. induction Hr as [|a b c Hab _ IH]; [done|]. by apply IH, (Hstep a). Qed.

Create HintDb shithub.
