(* ===== verification/GoString.v ===== *)
(** * GoString: Go strings and the standard-library functions the code uses

    A Go string is an immutable sequence of bytes, here a [string] of [ascii]
    bytes.  Slices [s[:i]] and [s[i:]] are [str_take] and [str_drop]; the
    functions of packages [strings], [unicode/utf8] and [unicode] that the
    modelled code calls are defined below, byte by byte as Go defines them. *)

From Stdlib Require Export Ascii.
From S2P Require Import Prelude.
Local Open Scope nat_scope.

(** ** Slices *)

Fixpoint str_take (n : nat) (s : string) : string :=
  match n, s with
  | S n, String c s => String c (str_take n s)
  | _, _ => ""
  end.

Fixpoint str_drop (n : nat) (s : string) : string :=
  match n, s with
  | S n, String _ s => str_drop n s
  | _, _ => s
  end.

Definition byte (c : ascii) : Z := Z.of_N (N_of_ascii c).

(** ** Package strings *)

(** [strip_prefix p s] is [Some r] when [s] is [p] followed by [r]. *)
Fixpoint strip_prefix (p s : string) : option string :=
  match p, s with
  | "", _ => Some s
  | String a p, String b s => if decide (a = b) then strip_prefix p s else None
  | String _ _, "" => None
  end.

Definition HasPrefix (s p : string) : bool := bool_decide (is_Some (strip_prefix p s)).

Definition TrimPrefix (s p : string) : string := default s (strip_prefix p s).

(** [Cut s sep]: the text before and after the first occurrence of [sep]. *)
Fixpoint Cut (s sep : string) : option (string * string) :=
  match strip_prefix sep s with
  | Some rest => Some ("", rest)
  | None =>
      match s with
      | "" => None
      | String c s => '(a, b) ← Cut s sep; Some (String c a, b)
      end
  end.

Definition Contains (s sub : string) : bool := bool_decide (is_Some (Cut s sub)).

Fixpoint str_rev_app (s acc : string) : string :=
  match s with "" => acc | String c s => str_rev_app s (String c acc) end.

Definition str_rev (s : string) : string := str_rev_app s "".

Definition HasSuffix (s p : string) : bool := HasPrefix (str_rev s) (str_rev p).

Definition TrimSuffix (s p : string) : string :=
  if HasSuffix s p then str_take (String.length s - String.length p) s else s.

Fixpoint Join (l : list string) (sep : string) : string :=
  match l with
  | [] => ""
  | [x] => x
  | x :: l => x +:+ sep +:+ Join l sep
  end.

(** [IndexByte] as the split around the first occurrence of one byte. *)
Definition is_byte (c b : ascii) : bool := bool_decide (c = b).

(** [strings.Split] on a one-byte separator. *)
Fixpoint SplitByte (s : string) (sep : ascii) : list string :=
  match s with
  | "" => [""]
  | String c s =>
      if decide (c = sep) then "" :: SplitByte s sep
      else match SplitByte s sep with
           | [] => [String c ""]
           | x :: l => String c x :: l
           end
  end.

Definition ascii_lower (c : ascii) : ascii :=
  let n := N_of_ascii c in
  if decide ((65 ≤ n)%N ∧ (n ≤ 90)%N) then ascii_of_N (n + 32) else c.

Fixpoint str_map (f : ascii → ascii) (s : string) : string :=
  match s with "" => "" | String c s => String (f c) (str_map f s) end.

Fixpoint str_forallb (p : ascii → bool) (s : string) : bool :=
  match s with "" => true | String c s => p c && str_forallb p s end.

(** ** Package unicode/utf8 *)

Definition RuneError : Z := 65533. (* U+FFFD *)

Definition cont (lo hi : Z) (c : ascii) : bool :=
  bool_decide (lo ≤ byte c)%Z && bool_decide (byte c ≤ hi)%Z.

(** [utf8.DecodeRuneInString]: the first rune and its width; [(RuneError, 1)]
    on an invalid encoding and [(RuneError, 0)] on the empty string. *)
Definition DecodeRuneInString (s : string) : Z * nat :=
  match s with
  | "" => (RuneError, 0)
  | String c0 s1 =>
      let b0 := byte c0 in
      if bool_decide (b0 < 128)%Z then (b0, 1)
      else
        let bad := (RuneError, 1) in
        let two lo hi :=
          match s1 with
          | String c1 _ =>
              if cont lo hi c1
              then (((b0 - 192) * 64 + (byte c1 - 128))%Z, 2) else bad
          | "" => bad
          end in
        let three lo hi :=
          match s1 with
          | String c1 (String c2 _) =>
              if cont lo hi c1 && cont 128 191 c2
              then (((b0 - 224) * 4096 + (byte c1 - 128) * 64 + (byte c2 - 128))%Z, 3)
              else bad
          | _ => bad
          end in
        let four lo hi :=
          match s1 with
          | String c1 (String c2 (String c3 _)) =>
              if cont lo hi c1 && cont 128 191 c2 && cont 128 191 c3
              then (((b0 - 240) * 262144 + (byte c1 - 128) * 4096 +
                    (byte c2 - 128) * 64 + (byte c3 - 128))%Z, 4)
              else bad
          | _ => bad
          end in
        if bool_decide (b0 < 194)%Z then bad
        else if bool_decide (b0 ≤ 223)%Z then two 128%Z 191%Z
        else if bool_decide (b0 = 224)%Z then three 160%Z 191%Z
        else if bool_decide (b0 = 237)%Z then three 128%Z 159%Z
        else if bool_decide (b0 ≤ 239)%Z then three 128%Z 191%Z
        else if bool_decide (b0 = 240)%Z then four 144%Z 191%Z
        else if bool_decide (b0 ≤ 243)%Z then four 128%Z 191%Z
        else if bool_decide (b0 = 244)%Z then four 128%Z 143%Z
        else bad
  end.

#[global] Arguments DecodeRuneInString : simpl never.

(** The runes of a string, an invalid byte counting as one [RuneError].  The
    counter [skip] is what is left of the rune being passed over. *)
Fixpoint runes_from (skip : nat) (s : string) : list Z :=
  match s with
  | "" => []
  | String _ s' =>
      match skip with
      | S k => runes_from k s'
      | 0 => let '(r, size) := DecodeRuneInString s in r :: runes_from (pred size) s'
      end
  end.

Definition runes (s : string) : list Z := runes_from 0 s.

Definition RuneCountInString (s : string) : nat := length (runes s).

(** ** Package unicode

    The Latin-1 part of the tables is spelled out; the tables for the runes
    above it are the parameters of this class. *)

(** [letter_table_RuneError]: U+FFFD is a symbol, not a letter. *)

Class UnicodeTables := {
  letter_table : Z → bool;
  digit_table : Z → bool;
  letter_table_RuneError : letter_table RuneError = false
}.

(** The tables cut off above Latin-1, to run the definitions on ASCII text. *)
Definition latin1_tables : UnicodeTables :=
  {| letter_table _ := false; digit_table _ := false; letter_table_RuneError := eq_refl |}.

Definition between (lo r hi : Z) : bool :=
  bool_decide (lo ≤ r)%Z && bool_decide (r ≤ hi)%Z.

Definition IsLetter `{UnicodeTables} (r : Z) : bool :=
  if bool_decide (r ≤ 255)%Z then
    between 65 r 90 || between 97 r 122 || bool_decide (r = 170)%Z ||
    bool_decide (r = 181)%Z || bool_decide (r = 186)%Z ||
    between 192 r 214 || between 216 r 246 || between 248 r 255
  else letter_table r.

Definition IsDigit `{UnicodeTables} (r : Z) : bool :=
  if bool_decide (r ≤ 255)%Z then between 48 r 57 else digit_table r.

(** [unicode.IsSpace], the White_Space property in full. *)
Definition IsSpace (r : Z) : bool :=
  between 9 r 13 || bool_decide (r ∈ [32; 133; 160; 5760; 8232; 8233; 8239; 8287; 12288]%Z)
  || between 8192 r 8202.

(** ** strings.TrimSpace

    Leading white space goes rune by rune; trailing white space is what
    [DecodeLastRuneInString] finds, that is, the longest suffix made of
    encodings of white-space runes. *)

Fixpoint space_prefix_from (skip : nat) (s : string) : nat :=
  match s with
  | "" => 0
  | String _ s' =>
      match skip with
      | S k => S (space_prefix_from k s')
      | 0 => let '(r, size) := DecodeRuneInString s in
             if IsSpace r then S (space_prefix_from (pred size) s') else 0
      end
  end.

Definition TrimLeftSpace (s : string) : string := str_drop (space_prefix_from 0 s) s.

(** [all_space s]: [s] is a sequence of encoded white-space runes. *)
Definition all_space (s : string) : bool :=
  bool_decide (space_prefix_from 0 s = String.length s).

Fixpoint TrimRightSpace (s : string) : string :=
  if all_space s then ""
  else match s with "" => "" | String c s' => String c (TrimRightSpace s') end.

Definition TrimSpace (s : string) : string := TrimRightSpace (TrimLeftSpace s).

(** ** Facts about the functions above *)

Lemma str_app_cons (c : ascii) (s t : string) : String c s +:+ t = String c (s +:+ t).
Proof. reflexivity. Qed.

Lemma str_app_empty (t : string) : "" +:+ t = t.
Proof. reflexivity. Qed.

Lemma str_append_assoc (a b c : string) : (a +:+ b) +:+ c = a +:+ (b +:+ c).
Proof.
  induction a as [|x a IH]; [done|].
  change ((String x a +:+ b) +:+ c) with (String x ((a +:+ b) +:+ c)). by rewrite IH.
Qed.

Lemma str_append_nil (a : string) : a +:+ "" = a.
Proof.
  induction a as [|x a IH]; [done|].
  change (String x a +:+ "") with (String x (a +:+ "")). by rewrite IH.
Qed.

Lemma str_take_length (n : nat) (s : string) : String.length (str_take n s) = n `min` String.length s.
Proof. revert n. induction s as [|c s IH]; intros [|n]; cbn; auto. Qed.

Lemma str_take_drop (n : nat) (s : string) : str_take n s +:+ str_drop n s = s.
Proof.
  revert n. induction s as [|c s IH]; intros [|n]; try done.
  cbn [str_take str_drop]. by rewrite str_app_cons, IH.
Qed.

Lemma str_take_app (s t : string) : str_take (String.length s) (s +:+ t) = s.
Proof. induction s as [|c s IH]; [by destruct t|]. cbn. by f_equal. Qed.

Lemma str_drop_app (s t : string) : str_drop (String.length s) (s +:+ t) = t.
Proof. by induction s. Qed.

Lemma str_length_append (a b : string) :
  String.length (a +:+ b) = String.length a + String.length b.
Proof.
  induction a as [|x a IH]; [done|]. change (String x a +:+ b) with (String x (a +:+ b)).
  simpl. by rewrite IH.
Qed.

Lemma strip_prefix_Some (p s r : string) : strip_prefix p s = Some r ↔ s = p +:+ r.
Proof.
  revert s. induction p as [|a p IH]; intros [|b s]; cbn [strip_prefix].
  - split; [by intros [= <-]|by intros ->].
  - split; [by intros [= <-]|by intros ->].
  - done.
  - change (String a p +:+ r) with (String a (p +:+ r)).
    case_decide; [|split; [done|intros [= -> _]; done]].
    subst. rewrite IH. split; [by intros ->|by intros [= ->]].
Qed.

Lemma HasPrefix_true (s p : string) : HasPrefix s p = true ↔ ∃ r, s = p +:+ r.
Proof.
  unfold HasPrefix. rewrite bool_decide_eq_true. unfold is_Some.
  split; intros [r Hr]; exists r; by apply strip_prefix_Some.
Qed.

Lemma Cut_app (s sep a b : string) : Cut s sep = Some (a, b) → s = a +:+ sep +:+ b.
Proof.
  revert a b. induction s as [|c s IH]; intros a b; cbn [Cut];
    destruct (strip_prefix sep _) eqn:E; try done.
  - intros [= <- <-]. by apply strip_prefix_Some in E.
  - intros [= <- <-]. by apply strip_prefix_Some in E.
  - destruct (Cut s sep) as [[a' b']|]; [|done]. intros [= <- <-]. by rewrite (IH a' b').
Qed.
