(* ===== verification/Policy.v ===== *)
(** * Policy: the authorization decision function

    Models the package [internal/auth/policy]: actors, repository references,
    roles, the per-request role cache, the role lookup against the database and
    the single decision function [Can], with the projections built on it.

    The database is a [Store]: the tables the package's queries read, with
    their primary keys, and an oracle [fault] that says which query fails at
    the transport level.  [Deps.Pool = None] is the nil pool of the tests. *)

From S2P Require Import Prelude.

(** ** Actions (actions.go) *)

Definition Action := string.

Definition ActionRepoRead : Action := "repo:read".
Definition ActionRepoWrite : Action := "repo:write".
Definition ActionRepoAdmin : Action := "repo:admin".
Definition ActionRepoSettingsGeneral : Action := "repo:settings:general".
Definition ActionRepoSettingsCollaborators : Action := "repo:settings:collaborators".
Definition ActionRepoSettingsBranches : Action := "repo:settings:branches".
Definition ActionRepoSettingsActions : Action := "repo:settings:actions".
Definition ActionRepoArchive : Action := "repo:archive".
Definition ActionRepoDelete : Action := "repo:delete".
Definition ActionRepoTransfer : Action := "repo:transfer".
Definition ActionRepoVisibility : Action := "repo:visibility".
Definition ActionActionsRun : Action := "actions:run".
Definition ActionActionsApprove : Action := "actions:approve".
Definition ActionIssueRead : Action := "issue:read".
Definition ActionIssueCreate : Action := "issue:create".
Definition ActionIssueComment : Action := "issue:comment".
Definition ActionIssueClose : Action := "issue:close".
Definition ActionIssueLabel : Action := "issue:label".
Definition ActionIssueAssign : Action := "issue:assign".
Definition ActionPullRead : Action := "pull:read".
Definition ActionPullCreate : Action := "pull:create".
Definition ActionPullMerge : Action := "pull:merge".
Definition ActionPullReview : Action := "pull:review".
Definition ActionPullClose : Action := "pull:close".
Definition ActionStarCreate : Action := "star:create".
Definition ActionForkCreate : Action := "fork:create".
Definition ActionWatchSet : Action := "watch:set".

Definition AllActions : list Action :=
  [ActionRepoRead; ActionRepoWrite; ActionRepoAdmin;
   ActionRepoSettingsGeneral; ActionRepoSettingsCollaborators;
   ActionRepoSettingsBranches; ActionRepoSettingsActions;
   ActionRepoArchive; ActionRepoDelete; ActionRepoTransfer; ActionRepoVisibility;
   ActionActionsRun; ActionActionsApprove;
   ActionIssueRead; ActionIssueCreate; ActionIssueComment; ActionIssueClose;
   ActionIssueLabel; ActionIssueAssign;
   ActionPullRead; ActionPullCreate; ActionPullMerge; ActionPullReview;
   ActionPullClose;
   ActionStarCreate; ActionForkCreate;
   ActionWatchSet].

Definition isWriteAction (a : Action) : bool :=
  if decide (a ∈ [ActionRepoRead; ActionIssueRead; ActionPullRead])
  then false else true.

Definition isReadAction (a : Action) : bool := negb (isWriteAction a).

Definition isIssueParticipationAction (a : Action) : bool :=
  bool_decide (a = ActionIssueCreate) || bool_decide (a = ActionIssueComment).

(** ** Actors (actor.go) *)

Record Actor := {
  UserID : Z;
  Username : string;
  IsAnonymous : bool;
  IsSuspended : bool;
  IsSiteAdmin : bool;
  HasConfirmedTwoFactor : bool;
  Impersonating : bool;
  ImpersonateWriteOK : bool
}.

Definition AnonymousActor : Actor := {|
  UserID := 0; Username := ""; IsAnonymous := true; IsSuspended := false;
  IsSiteAdmin := false; HasConfirmedTwoFactor := false;
  Impersonating := false; ImpersonateWriteOK := false |}.

Definition UserActorWithTwoFactor (userID : Z) (username : string)
    (suspended siteAdmin hasConfirmedTwoFactor : bool) : Actor := {|
  UserID := userID; Username := username; IsAnonymous := false;
  IsSuspended := suspended; IsSiteAdmin := siteAdmin;
  HasConfirmedTwoFactor := hasConfirmedTwoFactor;
  Impersonating := false; ImpersonateWriteOK := false |}.

Definition UserActor (userID : Z) (username : string)
    (suspended siteAdmin : bool) : Actor :=
  UserActorWithTwoFactor userID username suspended siteAdmin false.

Record CurrentUserView := {
  v_ID : Z;
  v_Username : string;
  v_IsSuspended : bool;
  v_IsSiteAdmin : bool;
  v_HasConfirmedTwoFactor : bool;
  v_ImpersonatedUserID : Z;
  v_RealActorID : Z;
  v_ImpersonateWriteOK : bool
}.

Definition UserActorFromCurrentUser (v : CurrentUserView) : Actor := {|
  UserID := v_ID v;
  Username := v_Username v;
  IsAnonymous := false;
  IsSuspended := v_IsSuspended v;
  IsSiteAdmin := v_IsSiteAdmin v;
  HasConfirmedTwoFactor := v_HasConfirmedTwoFactor v;
  Impersonating := bool_decide (v_ImpersonatedUserID v ≠ 0%Z);
  ImpersonateWriteOK := v_ImpersonateWriteOK v |}.

(** ** Repository references (resources.go, adapters.go) *)

Record RepoRef := {
  ID : Z;
  OwnerUserID : Z;
  OwnerOrgID : Z;
  Visibility : string;
  IsArchived : bool;
  IsDeleted : bool;
  IsPaused : bool;
  AuthorUserID : Z
}.

Definition IsPublic (r : RepoRef) : bool := bool_decide (Visibility r = "public").
Definition IsPrivate (r : RepoRef) : bool := bool_decide (Visibility r = "private").
Definition Archived (r : RepoRef) : bool := IsArchived r.
Definition IsOwnedByUser (r : RepoRef) (userID : Z) : bool :=
  bool_decide (userID ≠ 0%Z) && bool_decide (OwnerUserID r = userID).

(** The columns of a [repos] row the adapter reads; a NULL is [None]. *)
Record RepoRow := {
  row_ID : Z;
  row_OwnerUserID : option Z;
  row_OwnerOrgID : option Z;
  row_Visibility : string;
  row_IsArchived : bool;
  row_IsPaused : bool;
  row_DeletedAt : option Z
}.

Definition NewRepoRefFromRepo (r : RepoRow) : RepoRef := {|
  ID := row_ID r;
  OwnerUserID := default 0%Z (row_OwnerUserID r);
  OwnerOrgID := default 0%Z (row_OwnerOrgID r);
  Visibility := row_Visibility r;
  IsArchived := row_IsArchived r;
  IsDeleted := bool_decide (is_Some (row_DeletedAt r));
  IsPaused := row_IsPaused r;
  AuthorUserID := 0 |}.

(** ** Roles (roles.go) *)

Definition Role := string.

Definition RoleNone : Role := "".
Definition RoleRead : Role := "read".
Definition RoleTriage : Role := "triage".
Definition RoleWrite : Role := "write".
Definition RoleMaintain : Role := "maintain".
Definition RoleAdmin : Role := "admin".

Definition roleRank (r : Role) : nat :=
  if decide (r = RoleAdmin) then 5
  else if decide (r = RoleMaintain) then 4
  else if decide (r = RoleWrite) then 3
  else if decide (r = RoleTriage) then 2
  else if decide (r = RoleRead) then 1
  else 0.

Definition RoleAtLeast (have want : Role) : bool :=
  bool_decide (roleRank want ≤ roleRank have) && bool_decide (0 < roleRank want).

Definition roleFromDB (r : string) : Role := r.

Definition roleStronger (a b : Role) : bool :=
  bool_decide (roleRank b < roleRank a).

Definition teamRepoRoleToPolicyRole (s : string) : Role :=
  if decide (s = "read") then RoleRead
  else if decide (s = "triage") then RoleTriage
  else if decide (s = "write") then RoleWrite
  else if decide (s = "maintain") then RoleMaintain
  else if decide (s = "admin") then RoleAdmin
  else RoleNone.

Definition minRoleFor (action : Action) : Role :=
  if decide (action ∈ [ActionRepoRead; ActionIssueRead; ActionPullRead])
  then RoleRead
  else if decide (action ∈ [ActionIssueClose; ActionIssueLabel; ActionIssueAssign])
  then RoleTriage
  else if decide (action ∈ [ActionRepoWrite; ActionActionsRun; ActionPullCreate;
                            ActionPullReview; ActionPullClose])
  then RoleWrite
  else if decide (action ∈ [ActionIssueCreate; ActionIssueComment])
  then RoleRead
  else if decide (action ∈ [ActionRepoSettingsGeneral; ActionRepoSettingsBranches;
                            ActionActionsApprove])
  then RoleMaintain
  else if decide (action ∈ [ActionRepoAdmin; ActionRepoSettingsCollaborators;
                            ActionRepoSettingsActions; ActionRepoArchive;
                            ActionRepoDelete; ActionRepoTransfer;
                            ActionRepoVisibility; ActionPullMerge])
  then RoleAdmin
  else if decide (action ∈ [ActionStarCreate; ActionForkCreate; ActionWatchSet])
  then RoleNone
  else RoleAdmin.

(** ** The database the package reads

    Tables keyed by their primary keys; enum columns are their text form.  The
    queries below are the SQL of policy.go and queries/repo_collaborators.sql. *)

Record TeamRow := { t_org_id : Z; t_parent_team_id : option Z }.

Inductive Query :=
| QOrgSuspended (orgID : Z)
| QOrgRequiresTwoFactor (orgID : Z)
| QOrgMemberRole (orgID userID : Z)
| QCollabRole (repoID userID : Z)
| QMemberTeams (orgID userID : Z)
| QTeamGrants (repoID : Z) (teamIDs : list Z).

Record Store := {
  orgs : gmap Z bool; (* id to [suspended_at IS NOT NULL] *)
  org_security_settings : gmap Z bool; (* org_id to [require_two_factor] *)
  org_members : gmap (Z * Z) string; (* (org_id, user_id) to [role] *)
  repo_collaborators : gmap (Z * Z) string; (* (repo_id, user_id) to [role] *)
  teams : gmap Z TeamRow;
  team_members : gset (Z * Z); (* (team_id, user_id) *)
  team_repo_access : gmap (Z * Z) string; (* (team_id, repo_id) to [role] *)
  fault : Query → option string
}.

Inductive QErr :=
| ErrNoRows
| ErrDB (msg : string).

#[export] Instance QErr_eq_dec : EqDecision QErr.
Proof. solve_decision. Defined.

(** A query that reaches the server: its answer, or the injected failure. *)
Definition run {A} (s : Store) (q : Query) (ans : res QErr A) : res QErr A :=
  match fault s q with Some msg => Err (ErrDB msg) | None => ans end.

(** [QueryRow(...).Scan]: no matching row is [pgx.ErrNoRows]. *)
Definition one_row {A} (o : option A) : res QErr A :=
  match o with Some a => Ok a | None => Err ErrNoRows end.

Definition sql_org_suspended (s : Store) (orgID : Z) : res QErr bool :=
  run s (QOrgSuspended orgID) (one_row (orgs s !! orgID)).

Definition sql_org_requires_two_factor (s : Store) (orgID : Z) : res QErr bool :=
  run s (QOrgRequiresTwoFactor orgID)
    (Ok (default false (org_security_settings s !! orgID))).

Definition sql_org_member_role (s : Store) (orgID userID : Z) : res QErr string :=
  run s (QOrgMemberRole orgID userID) (one_row (org_members s !! (orgID, userID))).

Definition GetCollabRole (s : Store) (repoID userID : Z) : res QErr string :=
  run s (QCollabRole repoID userID)
    (one_row (repo_collaborators s !! (repoID, userID))).

Definition member_teams (s : Store) (orgID userID : Z) : list (Z * option Z) :=
  omap (λ '(tid, t), if decide (t_org_id t = orgID ∧ (tid, userID) ∈ team_members s)
                     then Some (tid, t_parent_team_id t) else None)
       (map_to_list (teams s)).

Definition sql_member_teams (s : Store) (orgID userID : Z) :
    res QErr (list (Z * option Z)) :=
  run s (QMemberTeams orgID userID) (Ok (member_teams s orgID userID)).

Definition team_grants (s : Store) (repoID : Z) (teamIDs : list Z) : list string :=
  omap (λ '((tid, rid), role), if decide (rid = repoID ∧ tid ∈ teamIDs)
                               then Some role else None)
       (map_to_list (team_repo_access s)).

Definition sql_team_grants (s : Store) (repoID : Z) (teamIDs : list Z) :
    res QErr (list string) :=
  run s (QTeamGrants repoID teamIDs) (Ok (team_grants s repoID teamIDs)).

Record Deps := { Pool : option Store }.

(** ** The per-request cache (cache.go)

    [None] is a context without a cache.  The mutex of [requestCache] makes
    each operation atomic, so the state is the map alone. *)

Definition requestCache := option (gmap (Z * Z) Role).

Definition WithCache : requestCache := Some ∅.

Definition cacheGet (c : requestCache) (k : Z * Z) : option Role :=
  match c with None => None | Some roles => roles !! k end.

Definition cachePut (c : requestCache) (k : Z * Z) (r : Role) : requestCache :=
  match c with None => None | Some roles => Some (<[k := r]> roles) end.

Definition InvalidateRepo (c : requestCache) (repoID : Z) : requestCache :=
  match c with
  | None => None
  | Some roles => Some (filter (λ '(k, _), k.2 ≠ repoID) roles)
  end.

Definition PrimeCacheForTest (c : requestCache) (userID repoID : Z) (role : Role) :
    requestCache := cachePut c (userID, repoID) role.

(** ** Role lookup (policy.go) *)

Definition isOrgSuspended (d : Deps) (orgID : Z) : bool :=
  match Pool d with
  | None => false
  | Some s => match sql_org_suspended s orgID with Ok b => b | Err _ => false end
  end.

Definition orgRequiresTwoFactor (d : Deps) (orgID : Z) : bool :=
  match Pool d with
  | None => false
  | Some s =>
      match sql_org_requires_two_factor s orgID with Ok b => b | Err _ => false end
  end.

(** The loop over the grant rows that keeps the strongest role. *)
Definition best_step (best : Role) (role : string) : Role :=
  let r := teamRepoRoleToPolicyRole role in
  if roleStronger r best then r else best.

Definition best_grant (rows : list string) : Role := foldl best_step RoleNone rows.

Definition teamGrantedRole (s : Store) (userID orgID repoID : Z) : res QErr Role :=
  rows ← sql_member_teams s orgID userID;
  let teamIDs :=
    concat (map (λ '(id, parent),
                   id :: match parent with Some p => [p] | None => [] end) rows) in
  if decide (teamIDs = []) then Ok RoleNone
  else
    grants ← sql_team_grants s repoID teamIDs;
    Ok (best_grant grants).

Definition effectiveRole (c : requestCache) (d : Deps) (actor : Actor)
    (repo : RepoRef) : requestCache * res QErr Role :=
  if bool_decide (UserID actor ≠ 0%Z) && bool_decide (UserID actor = OwnerUserID repo)
  then (c, Ok RoleAdmin)
  else if decide (UserID actor = 0%Z) then (c, Ok RoleNone)
  else
    let key := (UserID actor, ID repo) in
    match cacheGet c key with
    | Some r => (c, Ok r)
    | None =>
      match Pool d with
      | None => (c, Ok RoleNone)
      | Some s =>
        if bool_decide (OwnerOrgID repo ≠ 0%Z) &&
           bool_decide (sql_org_member_role s (OwnerOrgID repo) (UserID actor) = Ok "owner")
        then (cachePut c key RoleAdmin, Ok RoleAdmin)
        else
          match GetCollabRole s (ID repo) (UserID actor) with
          | Err (ErrDB msg) => (c, Err (ErrDB msg))
          | collab =>
            let best := match collab with
                        | Ok dbRole => roleFromDB dbRole
                        | Err _ => RoleNone
                        end in
            if decide (OwnerOrgID repo = 0%Z)
            then (cachePut c key best, Ok best)
            else
              match teamGrantedRole s (UserID actor) (OwnerOrgID repo) (ID repo) with
              | Err terr => (c, Err terr)
              | Ok teamRole =>
                let best := if roleStronger teamRole best then teamRole else best in
                (cachePut c key best, Ok best)
              end
          end
      end
    end.

Definition EffectiveRole (c : requestCache) (d : Deps) (actor : Actor)
    (repo : RepoRef) : requestCache * Role :=
  if IsAnonymous actor then (c, RoleNone)
  else
    let '(c', r) := effectiveRole c d actor repo in
    (c', match r with Ok role => role | Err _ => RoleNone end).

Definition HasRoleAtLeast (c : requestCache) (d : Deps) (actor : Actor)
    (repo : RepoRef) (want : Role) : requestCache * bool :=
  let '(c', role) := EffectiveRole c d actor repo in (c', RoleAtLeast role want).

(** ** Decisions (policy.go) *)

Inductive DenyCode :=
| DenyNone
| DenyRepoDeleted
| DenyActorSuspended
| DenyArchived
| DenyVisibility
| DenyRoleTooLow
| DenyAnonymous
| DenyDBError
| DenyOrgSuspended
| DenyImpersonationReadOnly
| DenyPaused
| DenyOrgRequiresTwoFactor.

#[export] Instance DenyCode_eq_dec : EqDecision DenyCode.
Proof. solve_decision. Defined.

Record Decision := { Allow : bool; Reason : string; Code : DenyCode }.

#[export] Instance Decision_eq_dec : EqDecision Decision.
Proof. solve_decision. Defined.

Definition allow (reason : string) : Decision :=
  {| Allow := true; Reason := reason; Code := DenyNone |}.

Definition deny (code : DenyCode) (reason : string) : Decision :=
  {| Allow := false; Reason := reason; Code := code |}.

Definition QErr_Error (e : QErr) : string :=
  match e with ErrNoRows => "no rows in result set" | ErrDB msg => msg end.


(** Step 6 of [Can]: issue participation on a public repository. *)
Definition canParticipate (c : requestCache) (d : Deps) (actor : Actor)
    (repo : RepoRef) : requestCache * Decision :=
  if IsAnonymous actor
  then (c, deny DenyAnonymous "anonymous cannot create/comment on issues")
  else
    let gates :=
      if IsArchived repo then deny DenyArchived "repo archived"
      else if IsPaused repo then deny DenyPaused "repo paused"
      else if bool_decide (OwnerOrgID repo ≠ 0%Z) && isOrgSuspended d (OwnerOrgID repo)
      then deny DenyOrgSuspended "owning org suspended"
      else allow "public issue participation" in
    if bool_decide (OwnerOrgID repo ≠ 0%Z) && negb (HasConfirmedTwoFactor actor) &&
       orgRequiresTwoFactor d (OwnerOrgID repo)
    then
      let '(c', role) := effectiveRole c d actor repo in
      match role with
      | Err e => (c', deny DenyDBError ("role lookup failed: " +:+ QErr_Error e))
      | Ok role =>
        if decide (role ≠ RoleNone)
        then (c', deny DenyOrgRequiresTwoFactor
                    "organization requires two-factor authentication")
        else (c', gates)
      end
    else (c, gates).

(** Steps 7a to 10 of [Can], once the effective role is known. *)
Definition canWithRole (d : Deps) (actor : Actor) (action : Action)
    (repo : RepoRef) (role : Role) : Decision :=
  if bool_decide (OwnerOrgID repo ≠ 0%Z) && bool_decide (role ≠ RoleNone) &&
     (IsPrivate repo || isWriteAction action) &&
     negb (HasConfirmedTwoFactor actor) && orgRequiresTwoFactor d (OwnerOrgID repo)
  then deny DenyOrgRequiresTwoFactor "organization requires two-factor authentication"
  else if (bool_decide (action = ActionIssueClose) ||
           bool_decide (action = ActionPullClose)) &&
          bool_decide (AuthorUserID repo ≠ 0%Z) &&
          bool_decide (AuthorUserID repo = UserID actor)
  then allow "author of thread"
  else if IsArchived repo && isWriteAction action &&
          bool_decide (action ≠ ActionRepoArchive)
  then deny DenyArchived "repo archived"
  else if IsPaused repo && isWriteAction action
  then deny DenyPaused "repo paused"
  else if bool_decide (OwnerOrgID repo ≠ 0%Z) && isWriteAction action &&
          isOrgSuspended d (OwnerOrgID repo)
  then deny DenyOrgSuspended "owning org suspended"
  else
    let want := minRoleFor action in
    if bool_decide (want ≠ RoleNone) && negb (RoleAtLeast role want)
    then
      if bool_decide (role = RoleNone) && IsPrivate repo
      then deny DenyVisibility "no role on private repo"
      else deny DenyRoleTooLow "role too low"
    else if bool_decide (action ∈ [ActionStarCreate; ActionForkCreate; ActionWatchSet]) &&
            IsAnonymous actor
    then deny DenyAnonymous "anonymous cannot star/fork/watch"
    else allow "granted".

Definition Can (c : requestCache) (d : Deps) (actor : Actor) (action : Action)
    (repo : RepoRef) : requestCache * Decision :=
  if IsDeleted repo then (c, deny DenyRepoDeleted "repo deleted")
  else if IsSiteAdmin actor && isReadAction action
  then (c, allow "site admin read")
  else if IsSuspended actor && isWriteAction action
  then (c, deny DenyActorSuspended "actor suspended")
  else if Impersonating actor && negb (ImpersonateWriteOK actor) && isWriteAction action
  then (c, deny DenyImpersonationReadOnly "impersonation in read-only mode")
  else if IsAnonymous actor && IsPrivate repo
  then (c, deny DenyVisibility "anonymous on private repo")
  else if isReadAction action && IsPublic repo
  then (c, allow "public repo read")
  else if isIssueParticipationAction action && IsPublic repo
  then canParticipate c d actor repo
  else
    let '(c', role) := effectiveRole c d actor repo in
    match role with
    | Err e => (c', deny DenyDBError ("role lookup failed: " +:+ QErr_Error e))
    | Ok role => (c', canWithRole d actor action repo role)
    end.

Definition IsVisibleTo (c : requestCache) (d : Deps) (actor : Actor)
    (repo : RepoRef) : requestCache * bool :=
  let '(c', dec) := Can c d actor ActionRepoRead repo in (c', Allow dec).

Definition StatusOK : Z := 200.
Definition StatusForbidden : Z := 403.
Definition StatusNotFound : Z := 404.

Definition Maybe404 (decision : Decision) (repo : RepoRef) (actor : Actor) : Z :=
  if Allow decision then StatusOK
  else if decide (Code decision = DenyOrgRequiresTwoFactor) then StatusForbidden
  else if IsPrivate repo then
    if bool_decide (UserID actor ≠ 0%Z) && bool_decide (UserID actor = OwnerUserID repo)
    then StatusForbidden
    else StatusNotFound
  else StatusForbidden.

(** ** Projections (permissions.go) *)

Record RepoPermissions := {
  Admin : bool; Maintain : bool; Push : bool; Triage : bool; Pull : bool
}.

Definition PermissionsFor (c : requestCache) (d : Deps) (actor : Actor)
    (repo : RepoRef) : requestCache * RepoPermissions :=
  let '(c, admin) := Can c d actor ActionRepoAdmin repo in
  let '(c, maintain) := Can c d actor ActionRepoSettingsGeneral repo in
  let '(c, push) := Can c d actor ActionRepoWrite repo in
  let '(c, triage) := Can c d actor ActionRepoWrite repo in
  let '(c, pull) := Can c d actor ActionRepoRead repo in
  (c, {| Admin := Allow admin; Maintain := Allow maintain; Push := Allow push;
         Triage := Allow triage; Pull := Allow pull |}).

Definition AuthorAssociation (c : requestCache) (d : Deps) (actor : Actor)
    (repo : RepoRef) : requestCache * string :=
  if IsAnonymous actor || bool_decide (UserID actor = 0%Z) then (c, "NONE")
  else if IsOwnedByUser repo (UserID actor) then (c, "OWNER")
  else
    let '(c', role) := EffectiveRole c d actor repo in
    (c', if decide (role ∈ [RoleAdmin; RoleMaintain]) then
           if decide (OwnerOrgID repo ≠ 0%Z) then "MEMBER" else "COLLABORATOR"
         else if decide (role ∈ [RoleWrite; RoleTriage; RoleRead]) then "COLLABORATOR"
         else "NONE").

(** ** List visibility (visibility_predicate.go)

    The fragment is an expression over the columns of [repos] and the table
    [repo_collaborators]; [VisibilityPredicate] prints it the way the code
    formats it, and [sql_eval] gives it the meaning Postgres does: a comparison
    with a NULL column does not select the row. *)

Inductive SqlExpr :=
| SDeletedAtIsNull (alias : string)
| SVisibilityIs (alias lit : string)
| SOwnerIs (alias : string) (ph : Z)
| SCollabExists (alias : string) (ph : Z)
| SAnd (a b : SqlExpr)
| SOr3 (a b c : SqlExpr).

Fixpoint sql_render (e : SqlExpr) : string :=
  match e with
  | SDeletedAtIsNull a => a +:+ ".deleted_at IS NULL"
  | SVisibilityIs a lit => a +:+ ".visibility = '" +:+ lit +:+ "'"
  | SOwnerIs a n => a +:+ ".owner_user_id = $" +:+ pretty n
  | SCollabExists a n =>
      "EXISTS (SELECT 1 FROM repo_collaborators c WHERE c.repo_id = " +:+ a +:+
      ".id AND c.user_id = $" +:+ pretty n +:+ ")"
  | SAnd a b => sql_render a +:+ " AND " +:+ sql_render b
  | SOr3 a b c =>
      "(" +:+ sql_render a +:+ " OR " +:+ sql_render b +:+ " OR " +:+
      sql_render c +:+ ")"
  end.

Fixpoint sql_eval (s : Store) (args : Z → option Z) (r : RepoRow) (e : SqlExpr) : bool :=
  match e with
  | SDeletedAtIsNull _ => bool_decide (row_DeletedAt r = None)
  | SVisibilityIs _ lit => bool_decide (row_Visibility r = lit)
  | SOwnerIs _ n =>
      match row_OwnerUserID r, args n with
      | Some o, Some u => bool_decide (o = u)
      | _, _ => false
      end
  | SCollabExists _ n =>
      match args n with
      | Some u => bool_decide (is_Some (repo_collaborators s !! (row_ID r, u)))
      | None => false
      end
  | SAnd a b => sql_eval s args r a && sql_eval s args r b
  | SOr3 a b c => sql_eval s args r a || sql_eval s args r b || sql_eval s args r c
  end.

Definition visibilityExpr (actor : Actor) (alias : string) (startPlaceholder : Z) :
    SqlExpr :=
  let base := SDeletedAtIsNull alias in
  if IsSiteAdmin actor then base
  else if IsAnonymous actor then SAnd base (SVisibilityIs alias "public")
  else SAnd base (SOr3 (SVisibilityIs alias "public")
                       (SOwnerIs alias startPlaceholder)
                       (SCollabExists alias (startPlaceholder + 1)%Z)).

Definition VisibilityPredicate (actor : Actor) (tableAlias : string)
    (startPlaceholder : Z) : string * list Z :=
  let tableAlias := if decide (tableAlias = "") then "r" else tableAlias in
  let clause := sql_render (visibilityExpr actor tableAlias startPlaceholder) in
  if IsSiteAdmin actor then (clause, [])
  else if IsAnonymous actor then (clause, [])
  else (clause, [UserID actor; UserID actor]).

(** Binding the argument list from [$start] upward. *)
Definition bind_args (start : Z) (args : list Z) (n : Z) : option Z :=
  if decide (start ≤ n)%Z then args !! Z.to_nat (n - start) else None.

(** The rows a list query with the fragment returns for [actor]. *)
Definition visible_row (s : Store) (actor : Actor) (start : Z) (r : RepoRow) : bool :=
  sql_eval s (bind_args start (VisibilityPredicate actor "r" start).2) r
    (visibilityExpr actor "r" start).

(** ** Specification vocabulary *)

(** The sources of a role the package's documentation lists, as a relation:
    [has_grant s actorID repo r] holds when some row grants [r]. *)
Inductive has_grant (s : Store) (u : Z) (repo : RepoRef) : Role → Prop :=
| grant_owner : u ≠ 0%Z → u = OwnerUserID repo →
    has_grant s u repo RoleAdmin
| grant_org_owner : u ≠ 0%Z → OwnerOrgID repo ≠ 0%Z →
    org_members s !! (OwnerOrgID repo, u) = Some "owner" →
    has_grant s u repo RoleAdmin
| grant_collab r : u ≠ 0%Z → repo_collaborators s !! (ID repo, u) = Some r →
    has_grant s u repo r
| grant_team tid t role : u ≠ 0%Z → OwnerOrgID repo ≠ 0%Z →
    teams s !! tid = Some t → t_org_id t = OwnerOrgID repo →
    (tid, u) ∈ team_members s →
    team_repo_access s !! (tid, ID repo) = Some role →
    has_grant s u repo (teamRepoRoleToPolicyRole role)
| grant_parent_team tid t pid role : u ≠ 0%Z → OwnerOrgID repo ≠ 0%Z →
    teams s !! tid = Some t → t_org_id t = OwnerOrgID repo →
    (tid, u) ∈ team_members s → t_parent_team_id t = Some pid →
    team_repo_access s !! (pid, ID repo) = Some role →
    has_grant s u repo (teamRepoRoleToPolicyRole role).

(** [r] is the strongest granted role, or [RoleNone] when nothing is granted. *)
Definition strongest (P : Role → Prop) (r : Role) : Prop :=
  (r = RoleNone ∨ P r) ∧ ∀ g, P g → roleRank g ≤ roleRank r.

Definition no_faults (s : Store) : Prop := ∀ q, fault s q = None.

(** The cache agrees with the database: each entry is what an uncached lookup
    returns for a repository reference with that id. [orgOf] gives the owning
    organisation of each repository id (0 for none). *)
Definition ref_ok (orgOf ownerOf : Z → Z) (repo : RepoRef) : Prop :=
  OwnerOrgID repo = orgOf (ID repo) ∧ OwnerUserID repo = ownerOf (ID repo).

Definition coherent (d : Deps) (orgOf ownerOf : Z → Z) (c : requestCache) : Prop :=
  ∀ u rid r, cacheGet c (u, rid) = Some r →
    ∀ actor repo, UserID actor = u → ID repo = rid → ref_ok orgOf ownerOf repo →
      u ≠ 0%Z → u ≠ OwnerUserID repo →
      (effectiveRole None d actor repo).2 = Ok r.

(** The author of an issue or pull request closing their own thread. *)
Definition author_self_close (actor : Actor) (action : Action) (repo : RepoRef) : bool :=
  (bool_decide (action = ActionIssueClose) || bool_decide (action = ActionPullClose)) &&
  bool_decide (AuthorUserID repo ≠ 0%Z) &&
  bool_decide (AuthorUserID repo = UserID actor).

Definition org_suspended (d : Deps) (repo : RepoRef) : bool :=
  bool_decide (OwnerOrgID repo ≠ 0%Z) && isOrgSuspended d (OwnerOrgID repo).

(** Writes to the collaborator table (queries/repo_collaborators.sql). *)
Definition set_collaborators (s : Store) (m : gmap (Z * Z) string) : Store := {|
  orgs := orgs s; org_security_settings := org_security_settings s;
  org_members := org_members s; repo_collaborators := m; teams := teams s;
  team_members := team_members s; team_repo_access := team_repo_access s;
  fault := fault s |}.

Definition UpsertCollabRole (s : Store) (repoID userID : Z) (role : string) : Store :=
  set_collaborators s (<[(repoID, userID) := role]> (repo_collaborators s)).

Definition RemoveCollab (s : Store) (repoID userID : Z) : Store :=
  set_collaborators s (delete (repoID, userID) (repo_collaborators s)).

(** A concrete database, used by the witnesses: organisation 7 owned by user 1,
    with a team 5 (child of team 4) that user 2 belongs to. *)
Definition sampleStore : Store := {|
  orgs := {[ 7%Z := false ]};
  org_security_settings := ∅;
  org_members := {[ (7, 1)%Z := "owner"; (7, 2)%Z := "member" ]};
  repo_collaborators := {[ (100, 3)%Z := "read"; (100, 2)%Z := "triage" ]};
  teams := {[ 4%Z := {| t_org_id := 7; t_parent_team_id := None |};
              5%Z := {| t_org_id := 7; t_parent_team_id := Some 4%Z |} ]};
  team_members := {[ (5, 2)%Z ]};
  team_repo_access := {[ (4, 100)%Z := "maintain"; (5, 100)%Z := "read" ]};
  fault := λ _, None |}.

Definition sampleDeps : Deps := {| Pool := Some sampleStore |}.

Definition sampleRepo : RepoRef := {|
  ID := 100; OwnerUserID := 0; OwnerOrgID := 7; Visibility := "private";
  IsArchived := false; IsDeleted := false; IsPaused := false; AuthorUserID := 0 |}.

Definition social_action (a : Action) : bool :=
  bool_decide (a ∈ [ActionStarCreate; ActionForkCreate; ActionWatchSet]).

(** The role stage of [Can] as one boolean: the two-factor gate, then either
    the author's self-close or the write gates, the minimum role and the login
    requirement. *)
Definition two_factor_block (d : Deps) (actor : Actor) (action : Action)
    (repo : RepoRef) (role : Role) : bool :=
  bool_decide (OwnerOrgID repo ≠ 0%Z) && bool_decide (role ≠ RoleNone) &&
  (IsPrivate repo || isWriteAction action) &&
  negb (HasConfirmedTwoFactor actor) && orgRequiresTwoFactor d (OwnerOrgID repo).

Definition write_gates (d : Deps) (action : Action) (repo : RepoRef) : bool :=
  negb (isWriteAction action) ||
  ((negb (IsArchived repo) || bool_decide (action = ActionRepoArchive)) &&
   negb (IsPaused repo) && negb (org_suspended d repo)).

Definition role_ok (role : Role) (action : Action) : bool :=
  bool_decide (minRoleFor action = RoleNone) || RoleAtLeast role (minRoleFor action).

(** An allowed action went through one of four doors. *)
Inductive allowed_by (c : requestCache) (d : Deps) (actor : Actor) (action : Action)
    (repo : RepoRef) : Prop :=
| by_site_admin : IsSiteAdmin actor = true → isReadAction action = true →
    allowed_by c d actor action repo
| by_public_read : isReadAction action = true → IsPublic repo = true →
    allowed_by c d actor action repo
| by_participation : isIssueParticipationAction action = true → IsPublic repo = true →
    IsAnonymous actor = false → IsArchived repo = false → IsPaused repo = false →
    org_suspended d repo = false → allowed_by c d actor action repo
| by_role r : (effectiveRole c d actor repo).2 = Ok r →
    (IsAnonymous actor = true → IsPrivate repo = false) →
    Allow (canWithRole d actor action repo r) = true →
    allowed_by c d actor action repo.

(** The two-factor gate does not stand in the way of this actor. *)
Definition two_factor_ok (d : Deps) (actor : Actor) (repo : RepoRef) : bool :=
  bool_decide (OwnerOrgID repo = 0%Z) || HasConfirmedTwoFactor actor ||
  negb (orgRequiresTwoFactor d (OwnerOrgID repo)).

(** A write action that the role stage alone decides. *)
Definition plain_write (a : Action) : bool :=
  isWriteAction a && negb (isIssueParticipationAction a) && negb (social_action a) &&
  bool_decide (a ∉ [ActionRepoArchive; ActionIssueClose; ActionPullClose]).

(** The columns of a repository and of the collaborator table stay within their
    database types. *)
Definition row_wf (s : Store) (r : RepoRow) : Prop :=
  (row_Visibility r = "public" ∨ row_Visibility r = "private") ∧
  ∀ u role, repo_collaborators s !! (row_ID r, u) = Some role → 0 < roleRank role.

Definition actor_wf (actor : Actor) : Prop :=
  IsAnonymous actor = true ↔ UserID actor = 0%Z.

(** The sample rows show the gap for organisations: the owner of organisation
    7 may read its private repository 100, and lists do not show it. *)
Definition sampleRow : RepoRow := {|
  row_ID := 100; row_OwnerUserID := None; row_OwnerOrgID := Some 7%Z;
  row_Visibility := "private"; row_IsArchived := false; row_IsPaused := false;
  row_DeletedAt := None |}.

Definition archivedRepo : RepoRef := {|
  ID := 100; OwnerUserID := 0; OwnerOrgID := 7; Visibility := "private";
  IsArchived := true; IsDeleted := false; IsPaused := false; AuthorUserID := 9 |}.
