(* ===== verification/PolicyFacts.v ===== *)
(** * PolicyFacts: what the authorization component guarantees

    The properties of [Policy]: the role lookup against its declarative
    specification, the transparency and invalidation of the request cache, the
    gates an allowed action has passed, monotonicity, the projections, and the
    agreement of the list filter with the decision function.  The witnesses at
    the end run the theorems on a small organisation. *)

From S2P Require Import Prelude Policy.

(** ** Lemmas: roles and the cache *)

Lemma roleRank_le (r : Role) : roleRank r ≤ 5.
Proof. unfold roleRank. ifs; lia. Qed.

Lemma roleRank_None : roleRank RoleNone = 0.
Proof. done. Qed.

Lemma RoleAtLeast_spec (have want : Role) :
  RoleAtLeast have want = true ↔ roleRank want ≤ roleRank have ∧ 0 < roleRank want.
Proof. unfold RoleAtLeast. rewrite andb_true_iff, !bool_decide_eq_true. done. Qed.

Lemma RoleAtLeast_mono (r1 r2 want : Role) :
  roleRank r1 ≤ roleRank r2 → RoleAtLeast r1 want = true → RoleAtLeast r2 want = true.
Proof. rewrite !RoleAtLeast_spec. lia. Qed.

Lemma minRoleFor_none_read (a : Action) :
  isReadAction a = true → minRoleFor a = RoleRead.
Proof.
  unfold isReadAction, isWriteAction, minRoleFor. ifs.
Qed.

Lemma best_grant_aux (rows : list string) (b : Role) :
  (foldl best_step b rows = b ∨
   ∃ s, s ∈ rows ∧ foldl best_step b rows = teamRepoRoleToPolicyRole s) ∧
  roleRank b ≤ roleRank (foldl best_step b rows) ∧
  ∀ s, s ∈ rows →
    roleRank (teamRepoRoleToPolicyRole s) ≤ roleRank (foldl best_step b rows).
Proof.
  revert b. induction rows as [|x rows IH]; intros b; simpl.
  { repeat split; [by left | done |]. intros s Hs. by apply elem_of_nil in Hs. }
  assert (roleRank b ≤ roleRank (best_step b x) ∧
          roleRank (teamRepoRoleToPolicyRole x) ≤ roleRank (best_step b x) ∧
          (best_step b x = b ∨ best_step b x = teamRepoRoleToPolicyRole x))
    as (H1 & H2 & H3).
  { unfold best_step, roleStronger. case_bool_decide; repeat split; auto; lia. }
  destruct (IH (best_step b x)) as (I1 & I2 & I3). repeat split.
  - destruct I1 as [E|(s & Hs & E)]; rewrite E.
    + destruct H3 as [->| ->]; [by left | right; exists x; set_solver].
    + right. exists s. set_solver.
  - lia.
  - intros s [->|Hs]%elem_of_cons; [lia | by apply I3].
Qed.

(** The fold over the grant rows returns the strongest grant. *)
Lemma best_grant_strongest (rows : list string) :
  strongest (λ r, ∃ s, s ∈ rows ∧ r = teamRepoRoleToPolicyRole s) (best_grant rows).
Proof.
  destruct (best_grant_aux rows RoleNone) as (H1 & _ & H3). split; [done|].
  intros g (s & Hs & ->). by apply H3.
Qed.

Lemma elem_of_member_teams s orgID u tid p :
  (tid, p) ∈ member_teams s orgID u ↔
  ∃ t, teams s !! tid = Some t ∧ t_org_id t = orgID ∧ (tid, u) ∈ team_members s ∧
       p = t_parent_team_id t.
Proof.
  unfold member_teams. rewrite list_elem_of_omap. split.
  - intros ([tid' t] & Hin & Hc). apply elem_of_map_to_list in Hin.
    case_decide; simplify_eq. naive_solver.
  - intros (t & Ht & Ho & Hm & ->). exists (tid, t).
    rewrite elem_of_map_to_list. split; [done|]. rewrite decide_True; naive_solver.
Qed.

Lemma elem_of_team_grants s rid ids role :
  role ∈ team_grants s rid ids ↔
  ∃ tid, tid ∈ ids ∧ team_repo_access s !! (tid, rid) = Some role.
Proof.
  unfold team_grants. rewrite list_elem_of_omap. split.
  - intros ([[tid rid'] role'] & Hin & Hc). apply elem_of_map_to_list in Hin.
    case_decide; simplify_eq. naive_solver.
  - intros (tid & Hi & Ha). exists ((tid, rid), role).
    rewrite elem_of_map_to_list. split; [done|]. rewrite decide_True; naive_solver.
Qed.

Lemma elem_of_teamIDs (rows : list (Z * option Z)) (x : Z) :
  x ∈ concat (map (λ '(id, parent),
        id :: match parent with Some p => [p] | None => [] end) rows) ↔
  (∃ p, (x, p) ∈ rows) ∨ (∃ id, (id, Some x) ∈ rows).
Proof.
  induction rows as [|[id [p|]] rows IH]; simpl.
  - set_solver.
  - rewrite !elem_of_cons, IH. setoid_rewrite elem_of_cons. naive_solver.
  - rewrite !elem_of_cons, IH. setoid_rewrite elem_of_cons. naive_solver.
Qed.

Lemma strongest_max (P Q : Role → Prop) (p q : Role) :
  strongest P p → strongest Q q →
  strongest (λ r, P r ∨ Q r) (if roleStronger p q then p else q).
Proof.
  intros [[->|Hp] Hp'] [[->|Hq] Hq']; unfold roleStronger; case_bool_decide as H;
    rewrite ?roleRank_None in *; (split; [naive_solver|]);
    intros g [Hg|Hg]; first [apply Hp' in Hg | apply Hq' in Hg];
    rewrite ?roleRank_None in *; lia.
Qed.

Lemma strongest_iff (P Q : Role → Prop) (r : Role) :
  (∀ g, P g ↔ Q g) → strongest P r → strongest Q r.
Proof. intros H [H1 H2]. split; naive_solver. Qed.

Lemma teamGrantedRole_spec s u orgID rid :
  no_faults s →
  ∃ r, teamGrantedRole s u orgID rid = Ok r ∧
    strongest (λ g, ∃ x role, team_repo_access s !! (x, rid) = Some role ∧
                 g = teamRepoRoleToPolicyRole role ∧
                 ((∃ p, (x, p) ∈ member_teams s orgID u) ∨
                  (∃ id, (id, Some x) ∈ member_teams s orgID u))) r.
Proof.
  intros Hf. unfold teamGrantedRole, sql_member_teams, sql_team_grants, run.
  rewrite !Hf. simpl. case_decide as Hn.
  - exists RoleNone. split; [done|]. split; [by left|].
    intros g (x & role & _ & _ & Hx). apply elem_of_teamIDs in Hx.
    rewrite Hn in Hx. by apply elem_of_nil in Hx.
  - rewrite Hf. simpl. eexists. split; [done|].
    eapply strongest_iff; [|apply best_grant_strongest].
    intros g. setoid_rewrite elem_of_team_grants. setoid_rewrite elem_of_teamIDs.
    naive_solver.
Qed.

(** The lookup only depends on the ids of the actor and of the repository. *)
Lemma effectiveRole_ext c d a1 a2 r1 r2 :
  UserID a1 = UserID a2 → ID r1 = ID r2 → OwnerUserID r1 = OwnerUserID r2 →
  OwnerOrgID r1 = OwnerOrgID r2 →
  effectiveRole c d a1 r1 = effectiveRole c d a2 r2.
Proof. intros H1 H2 H3 H4. unfold effectiveRole. by rewrite H1, H2, H3, H4. Qed.

(** A lookup returns what the uncached lookup returns when the cache has no
    entry, and at most records that answer. *)
Lemma effectiveRole_miss c d actor repo :
  cacheGet c (UserID actor, ID repo) = None →
  (effectiveRole c d actor repo).2 = (effectiveRole None d actor repo).2 ∧
  ((effectiveRole c d actor repo).1 = c ∨
   ∃ r, (effectiveRole None d actor repo).2 = Ok r ∧
        (effectiveRole c d actor repo).1 = cachePut c (UserID actor, ID repo) r).
Proof.
  intros Hg. unfold effectiveRole. rewrite Hg. simpl.
  repeat (case_match; simplify_eq/=; eauto).
Qed.

Lemma effectiveRole_own c d actor repo :
  UserID actor = 0%Z ∨ UserID actor = OwnerUserID repo →
  effectiveRole c d actor repo =
    (c, Ok (if decide (UserID actor = 0%Z) then RoleNone else RoleAdmin)).
Proof.
  intros H. unfold effectiveRole. destruct (decide (UserID actor = 0%Z)) as [E|E].
  - rewrite bool_decide_eq_false_2 by (intros E'; by apply E'). done.
  - destruct H as [H|H]; [done|].
    by rewrite (bool_decide_eq_true_2 (UserID actor ≠ 0%Z)), bool_decide_eq_true_2.
Qed.

Lemma effectiveRole_hit c d actor repo r :
  cacheGet c (UserID actor, ID repo) = Some r →
  UserID actor ≠ 0%Z → UserID actor ≠ OwnerUserID repo →
  effectiveRole c d actor repo = (c, Ok r).
Proof.
  intros Hg H0 Ho. unfold effectiveRole.
  rewrite Hg, (bool_decide_eq_false_2 (UserID actor = OwnerUserID repo)), andb_false_r
    by done.
  by rewrite decide_False.
Qed.

Lemma cacheGet_put c k k' r r' :
  cacheGet (cachePut c k r) k' = Some r' →
  (k = k' ∧ r = r') ∨ cacheGet c k' = Some r'.
Proof.
  destruct c as [m|]; simpl; [|done]. rewrite lookup_insert_Some. naive_solver.
Qed.

Lemma cacheGet_invalidate c rid k r :
  cacheGet (InvalidateRepo c rid) k = Some r → k.2 ≠ rid ∧ cacheGet c k = Some r.
Proof.
  destruct c as [m|]; simpl; [|done]. rewrite map_lookup_filter_Some. tauto.
Qed.

Lemma effectiveRole_coherent d orgOf ownerOf c actor repo :
  coherent d orgOf ownerOf c → ref_ok orgOf ownerOf repo →
  (effectiveRole c d actor repo).2 = (effectiveRole None d actor repo).2 ∧
  coherent d orgOf ownerOf (effectiveRole c d actor repo).1.
Proof.
  intros Hc Hr.
  destruct (decide (UserID actor = 0%Z ∨ UserID actor = OwnerUserID repo)) as [E|E].
  { by rewrite !effectiveRole_own. }
  apply Decidable.not_or in E as [E0 Eo].
  destruct (cacheGet c (UserID actor, ID repo)) as [r|] eqn:Hg.
  { rewrite (effectiveRole_hit c d actor repo r) by done. simpl.
    by rewrite (Hc _ _ _ Hg actor repo). }
  destruct (effectiveRole_miss c d actor repo Hg) as [H1 H2]. split; [done|].
  destruct H2 as [->|(r & Hres & ->)]; [done|].
  intros u rid r' Hput actor' repo' Hu Hid Hr' Hu0 Huo.
  apply cacheGet_put in Hput as [[Hk ->]|Hg']; [|by eapply Hc].
  injection Hk as <- <-. rewrite <- Hres. f_equal.
  destruct Hr as [Ho1 Ho2], Hr' as [Ho1' Ho2'].
  apply effectiveRole_ext; congruence.
Qed.

#[local] Ltac role_cases :=
  repeat (case_match; simplify_eq/=; try done).

Lemma canParticipate_coherent d orgOf ownerOf c actor repo :
  coherent d orgOf ownerOf c → ref_ok orgOf ownerOf repo →
  (canParticipate c d actor repo).2 = (canParticipate None d actor repo).2 ∧
  coherent d orgOf ownerOf (canParticipate c d actor repo).1.
Proof.
  intros Hc Hr. destruct (effectiveRole_coherent d _ _ c actor repo Hc Hr) as [H1 H2].
  unfold canParticipate.
  destruct (effectiveRole c d actor repo) as [c1 r1],
           (effectiveRole None d actor repo) as [c0 r0]; simpl in *; subst.
  repeat (case_match; simplify_eq/=; auto).
Qed.

Lemma Can_coherent d orgOf ownerOf c actor action repo :
  coherent d orgOf ownerOf c → ref_ok orgOf ownerOf repo →
  (Can c d actor action repo).2 = (Can None d actor action repo).2 ∧
  coherent d orgOf ownerOf (Can c d actor action repo).1.
Proof.
  intros Hc Hr. destruct (effectiveRole_coherent d _ _ c actor repo Hc Hr) as [H1 H2].
  destruct (canParticipate_coherent d _ _ c actor repo Hc Hr) as [H3 H4].
  unfold Can.
  destruct (effectiveRole c d actor repo) as [c1 r1],
           (effectiveRole None d actor repo) as [c0 r0]; simpl in *; subst.
  repeat (case_match; simplify_eq/=; auto).
Qed.

(** ** Properties of the role lookup and the cache *)

(** Cache transparency. With a request cache that agrees with the
    database, [Can] returns the decision it returns without a cache, and the
    cache it leaves still agrees with the database. *)
Theorem Can_cache_transparent d orgOf ownerOf c actor action repo :
  coherent d orgOf ownerOf c → ref_ok orgOf ownerOf repo →
  (Can c d actor action repo).2 = (Can None d actor action repo).2 ∧
  coherent d orgOf ownerOf (Can c d actor action repo).1.
Proof. apply Can_coherent. Qed.

Lemma WithCache_coherent d orgOf ownerOf : coherent d orgOf ownerOf WithCache.
Proof. intros u rid r H. done. Qed.

Lemma GetCollabRole_set s m rid u :
  (∀ v, m !! (rid, v) = repo_collaborators s !! (rid, v)) →
  GetCollabRole (set_collaborators s m) rid u = GetCollabRole s rid u.
Proof. intros H. unfold GetCollabRole, run. simpl. by rewrite H. Qed.

Lemma effectiveRole_set_collab s m actor repo :
  (∀ v, m !! (ID repo, v) = repo_collaborators s !! (ID repo, v)) →
  (effectiveRole None {| Pool := Some (set_collaborators s m) |} actor repo).2 =
  (effectiveRole None {| Pool := Some s |} actor repo).2.
Proof. intros H. unfold effectiveRole. simpl. by rewrite GetCollabRole_set. Qed.

Lemma coherent_set_collab s m orgOf ownerOf c rid :
  (∀ rid' v, rid' ≠ rid → m !! (rid', v) = repo_collaborators s !! (rid', v)) →
  coherent {| Pool := Some s |} orgOf ownerOf c →
  coherent {| Pool := Some (set_collaborators s m) |} orgOf ownerOf (InvalidateRepo c rid).
Proof.
  intros Hm Hc u rid' r Hg actor repo Hu Hid Hr H0 Ho.
  apply cacheGet_invalidate in Hg as [Hne Hg]. simpl in Hne.
  rewrite effectiveRole_set_collab; [by eapply Hc|]. intros v. apply Hm. congruence.
Qed.

(** Invalidation. After a collaborator row of a repository is written or
    removed, dropping that repository's entries with [InvalidateRepo] restores
    the agreement of the cache with the new database. *)
Theorem InvalidateRepo_restores s orgOf ownerOf c rid u role :
  coherent {| Pool := Some s |} orgOf ownerOf c →
  coherent {| Pool := Some (UpsertCollabRole s rid u role) |} orgOf ownerOf
           (InvalidateRepo c rid) ∧
  coherent {| Pool := Some (RemoveCollab s rid u) |} orgOf ownerOf
           (InvalidateRepo c rid).
Proof.
  intros Hc. split; apply coherent_set_collab; try done; intros rid' v Hne.
  - rewrite lookup_insert_ne; congruence.
  - rewrite lookup_delete_ne; congruence.
Qed.

(** The role the lookup finds, by the source of the winning grant. *)
Lemma effectiveRole_best s actor repo best :
  no_faults s → UserID actor ≠ 0%Z → UserID actor ≠ OwnerUserID repo →
  ¬ (OwnerOrgID repo ≠ 0%Z ∧
     org_members s !! (OwnerOrgID repo, UserID actor) = Some "owner") →
  best = default RoleNone (repo_collaborators s !! (ID repo, UserID actor)) →
  (effectiveRole None {| Pool := Some s |} actor repo).2 =
    if decide (OwnerOrgID repo = 0%Z) then Ok best
    else match teamGrantedRole s (UserID actor) (OwnerOrgID repo) (ID repo) with
         | Err e => Err e
         | Ok t => Ok (if roleStronger t best then t else best)
         end.
Proof.
  intros Hf H0 Ho Horg ->. unfold effectiveRole. simpl.
  rewrite (bool_decide_eq_false_2 (UserID actor = _)), andb_false_r by done.
  rewrite (decide_False (P := UserID actor = 0%Z)) by done.
  unfold sql_org_member_role, GetCollabRole, run. rewrite !Hf.
  replace (bool_decide (OwnerOrgID repo ≠ 0%Z) && _) with false.
  - destruct (repo_collaborators s !! _); simpl; repeat (case_match; simplify_eq/=; try done).
  - symmetry. apply andb_false_iff.
    destruct (decide (OwnerOrgID repo = 0%Z)) as [->|Hn]; [by left|]. right.
    apply bool_decide_eq_false_2. intros Heq. apply Horg. split; [done|].
    destruct (org_members s !! _); simpl in Heq; congruence.
Qed.

(** An organisation's owner is an implicit admin of its repositories. *)
Lemma effectiveRole_org_owner s actor repo :
  no_faults s → UserID actor ≠ 0%Z → UserID actor ≠ OwnerUserID repo →
  OwnerOrgID repo ≠ 0%Z →
  org_members s !! (OwnerOrgID repo, UserID actor) = Some "owner" →
  (effectiveRole None {| Pool := Some s |} actor repo).2 = Ok RoleAdmin.
Proof.
  intros Hf E0 Eo Ho Hm. unfold effectiveRole, sql_org_member_role, run. simpl.
  rewrite Hf, Hm. simpl.
  rewrite (bool_decide_eq_false_2 (UserID actor = _)), andb_false_r by done.
  rewrite decide_False by done. by rewrite !bool_decide_eq_true_2.
Qed.

Lemma collab_strongest s rid u :
  strongest (λ r, repo_collaborators s !! (rid, u) = Some r)
            (default RoleNone (repo_collaborators s !! (rid, u))).
Proof.
  destruct (repo_collaborators s !! _) as [r0|]; simpl.
  - split; [by right|]. intros g [= ->]. done.
  - split; [by left|]. done.
Qed.

(** The uncached lookup returns the strongest grant. *)
Lemma effectiveRole_grants s actor repo :
  no_faults s →
  ∃ r, (effectiveRole None {| Pool := Some s |} actor repo).2 = Ok r ∧
       strongest (has_grant s (UserID actor) repo) r.
Proof.
  intros Hf. destruct (decide (UserID actor = 0%Z ∨ UserID actor = OwnerUserID repo)) as [E|E].
  { rewrite effectiveRole_own by done. eexists; split; [done|].
    case_decide as H0.
    - split; [by left|]. intros g Hg. destruct Hg; congruence.
    - split; [right; apply grant_owner; naive_solver | intros; apply roleRank_le]. }
  apply Decidable.not_or in E as [E0 Eo].
  destruct (decide (OwnerOrgID repo ≠ 0%Z ∧
     org_members s !! (OwnerOrgID repo, UserID actor) = Some "owner")) as [[Ho Hm]|Horg].
  { exists RoleAdmin. rewrite effectiveRole_org_owner by done. split; [done|].
    split; [right; by apply grant_org_owner | intros; apply roleRank_le]. }
  rewrite (effectiveRole_best s actor repo _ Hf E0 Eo Horg eq_refl).
  pose proof (collab_strongest s (ID repo) (UserID actor)) as Hcol.
  case_decide as Hz.
  - eexists; split; [done|]. eapply strongest_iff; [|exact Hcol]. intros g. split.
    + by constructor.
    + intros Hg. destruct Hg; congruence.
  - destruct (teamGrantedRole_spec s (UserID actor) (OwnerOrgID repo) (ID repo) Hf)
      as (t & -> & Ht).
    eexists; split; [done|].
    eapply strongest_iff; [|exact (strongest_max _ _ _ _ Ht Hcol)].
    intros g. setoid_rewrite elem_of_member_teams. split.
    + intros [(x & role & Ha & -> & [(p & tm & ? & ? & ? & ?)|(id & tm & ? & ? & ? & ?)])|Hg].
      * by eapply grant_team.
      * by eapply grant_parent_team.
      * by apply grant_collab.
    + intros Hg. destruct Hg; naive_solver.
Qed.

(** C19: The effective role is the strongest grant. With an answering database
    and a request cache that agrees with it, the role lookup succeeds and
    returns the strongest of the sources the package documents: direct
    ownership, org ownership, the collaborator row, and the grants of the
    actor's teams and of their parents; [RoleNone] when there is none. *)
Theorem effectiveRole_strongest s orgOf ownerOf c actor repo :
  no_faults s → coherent {| Pool := Some s |} orgOf ownerOf c →
  ref_ok orgOf ownerOf repo →
  ∃ r, (effectiveRole c {| Pool := Some s |} actor repo).2 = Ok r ∧
       strongest (has_grant s (UserID actor) repo) r.
Proof.
  intros Hf Hc Hr. destruct (effectiveRole_coherent _ _ _ c actor repo Hc Hr) as [-> _].
  by apply effectiveRole_grants.
Qed.

(** ** Properties of the decision function *)





Lemma canWithRole_allow_eq d actor action repo role :
  Allow (canWithRole d actor action repo role) =
  negb (two_factor_block d actor action repo role) &&
  (author_self_close actor action repo ||
   (write_gates d action repo && role_ok role action &&
    negb (social_action action && IsAnonymous actor))).
Proof.
  unfold canWithRole. fold (two_factor_block d actor action repo role).
  destruct (two_factor_block _ _ _ _ _); [done|]. simpl.
  fold (author_self_close actor action repo).
  destruct (author_self_close _ _ _); [done|]. simpl.
  unfold write_gates, role_ok, org_suspended.
  rewrite !bool_decide_not. fold (social_action action).
  destruct (isWriteAction action); simpl; rewrite ?andb_true_r, ?andb_false_r; simpl;
    destruct (bool_decide (minRoleFor action = RoleNone)),
      (RoleAtLeast role (minRoleFor action)); simpl;
    repeat (case_match; simpl; try done);
    destruct (IsArchived repo), (bool_decide (action = ActionRepoArchive)),
      (IsPaused repo); simpl in *; try done;
    destruct (bool_decide (OwnerOrgID repo = 0%Z)),
      (isOrgSuspended d (OwnerOrgID repo)); simpl in *; try done;
    destruct (social_action action), (IsAnonymous actor); done.
Qed.

Lemma write_gates_spec d action repo :
  write_gates d action repo = true ↔
  (isWriteAction action = true →
     (IsArchived repo = false ∨ action = ActionRepoArchive) ∧
     IsPaused repo = false ∧ org_suspended d repo = false).
Proof.
  unfold write_gates. destruct (isWriteAction action); simpl; [|naive_solver].
  rewrite !andb_true_iff, orb_true_iff, !negb_true_iff, bool_decide_eq_true. tauto.
Qed.

Lemma canWithRole_allow d actor action repo role :
  Allow (canWithRole d actor action repo role) = true →
  author_self_close actor action repo = true ∨
  (write_gates d action repo = true ∧ role_ok role action = true ∧
   (social_action action = true → IsAnonymous actor = false)).
Proof.
  rewrite canWithRole_allow_eq. intros H. bools.
  destruct (author_self_close _ _ _); [by left|]. right. simpl in *. bools.
  repeat split; try done. intros E. by destruct (social_action action), (IsAnonymous actor).
Qed.

Lemma minRoleFor_None a : minRoleFor a = RoleNone → social_action a = true.
Proof. unfold minRoleFor, social_action. ifs. by case_bool_decide. Qed.

Lemma minRoleFor_unknown a : a ∉ AllActions → minRoleFor a = RoleAdmin.
Proof.
  unfold AllActions, minRoleFor. rewrite !not_elem_of_cons. intros H.
  destruct_and!. rewrite !decide_False by (rewrite !not_elem_of_cons; naive_solver).
  done.
Qed.

Lemma RoleAtLeast_Admin r : RoleAtLeast r RoleAdmin = true → r = RoleAdmin.
Proof.
  rewrite RoleAtLeast_spec. change (roleRank RoleAdmin) with 5. intros [H _].
  revert H. unfold roleRank. ifs; lia.
Qed.

Lemma social_is_write a : social_action a = true → isWriteAction a = true.
Proof.
  unfold social_action, isWriteAction. intros H. bools. ifs. set_solver.
Qed.


Lemma canParticipate_allow c d actor repo :
  Allow (canParticipate c d actor repo).2 = true →
  IsAnonymous actor = false ∧ IsArchived repo = false ∧ IsPaused repo = false ∧
  org_suspended d repo = false.
Proof.
  unfold canParticipate, org_suspended.
  destruct (effectiveRole c d actor repo) as [c' [r|e]]; repeat case_match; simpl; try done;
    by rewrite ?andb_true_r, ?andb_true_l.
Qed.

Lemma Can_allow c d actor action repo :
  Allow (Can c d actor action repo).2 = true →
  IsDeleted repo = false ∧
  (isWriteAction action = true →
     IsSuspended actor = false ∧ (Impersonating actor = true → ImpersonateWriteOK actor = true)) ∧
  allowed_by c d actor action repo.
Proof.
  unfold Can. case_match; [done|]. intros H0. split; [done|]. revert H0.
  case_match eqn:Hsa.
  { intros _. bools. split; [|by apply by_site_admin].
    unfold isReadAction in *. by destruct (isWriteAction action). }
  case_match eqn:Hsus; [done|]. case_match eqn:Himp; [done|].
  intros H0. split.
  { intros Hw. rewrite Hw, andb_true_r in Hsus, Himp. split; [done|].
    intros Hi. rewrite Hi in Himp. by destruct (ImpersonateWriteOK actor). }
  revert H0. case_match eqn:Han; [done|]. case_match eqn:Hpub.
  { intros _. bools. by apply by_public_read. }
  case_match eqn:Hpart.
  { intros Hc. bools. apply canParticipate_allow in Hc as (?&?&?&?).
    by apply by_participation. }
  destruct (effectiveRole c d actor repo) as [c' [r|e]] eqn:He; [|done].
  intros Hc. apply (by_role _ _ _ _ _ r); [by rewrite He| |done].
  intros Hanon. by rewrite Hanon in Han.
Qed.

(** What an anonymous actor may do, exactly: read public repositories
    that are not deleted, and nothing else, whatever the database, the cache
    and the action are. *)
Theorem Can_anonymous c d action repo :
  Allow (Can c d AnonymousActor action repo).2 =
  isReadAction action && IsPublic repo && negb (IsDeleted repo).
Proof.
  apply eq_bool_prop_intro. rewrite !Is_true_true, !andb_true_iff, negb_true_iff. split.
  - intros Ha. destruct (Can_allow _ _ _ _ _ Ha) as (Hd & _ & Hby).
    split; [|done]. destruct Hby as [Hs ?|? ?|? ? Han|r Hr _ Hc]; [done|done|done|].
    rewrite effectiveRole_own in Hr by (by left). injection Hr as <-.
    apply canWithRole_allow in Hc as [Hself|(_ & Hmin & Hsoc)].
    + unfold author_self_close in Hself. simpl in Hself. bools. congruence.
    + destruct (decide (minRoleFor action = RoleNone)) as [E|E].
      * apply minRoleFor_None, Hsoc in E. done.
      * unfold role_ok in Hmin. rewrite bool_decide_eq_false_2 in Hmin by done.
        apply RoleAtLeast_spec in Hmin. rewrite roleRank_None in Hmin. lia.
  - intros [[Hr Hp] Hd]. unfold Can. rewrite Hd. simpl.
    unfold isReadAction in Hr. bools. unfold isReadAction. rewrite Hp.
    replace (isWriteAction action) with false. simpl.
    unfold IsPublic, IsPrivate in *. bools. rewrite Hp. done.
Qed.

(** C18: The write gates. An allowed write implies: the repository is not
    deleted, the actor is not suspended, an impersonating admin has opted into
    writing, and either the actor closes their own thread or the repository is
    not paused, its organisation is not suspended, and it is not archived
    (except for the archive action itself). *)
Theorem Can_write_gates c d actor action repo :
  isWriteAction action = true →
  Allow (Can c d actor action repo).2 = true →
  IsDeleted repo = false ∧ IsSuspended actor = false ∧
  (Impersonating actor = true → ImpersonateWriteOK actor = true) ∧
  (author_self_close actor action repo = true ∨
   ((IsArchived repo = false ∨ action = ActionRepoArchive) ∧
    IsPaused repo = false ∧ org_suspended d repo = false)).
Proof.
  intros Hw Ha. destruct (Can_allow _ _ _ _ _ Ha) as (Hd & Hact & Hby).
  destruct (Hact Hw) as [Hs Hi]. repeat split; try done.
  assert (isReadAction action = false) as Hr by (unfold isReadAction; by rewrite Hw).
  destruct Hby as [? ?|? ?|? ? ? ? ? ?|r _ _ Hc]; [congruence|congruence|by auto|].
  apply canWithRole_allow in Hc as [?|(Hg & _)]; [by left|]. right.
  by apply write_gates_spec in Hg.
Qed.

(** Roles are necessary. An allowed action that is not the author's
    self-close, not open to everybody on a public repository, not a site
    admin's read and not one of the login-only social actions was made with an
    effective role that reaches the action's minimum; in particular an action
    outside the registry needs the admin role. *)
Theorem Can_role_required c d actor action repo :
  Allow (Can c d actor action repo).2 = true →
  author_self_close actor action repo = false →
  IsSiteAdmin actor && isReadAction action = false →
  IsPublic repo && (isReadAction action || isIssueParticipationAction action) = false →
  social_action action = false →
  ∃ r, (effectiveRole c d actor repo).2 = Ok r ∧
       RoleAtLeast r (minRoleFor action) = true ∧
       (action ∉ AllActions → r = RoleAdmin).
Proof.
  intros Ha Hself Hsa Hpub Hsoc.
  destruct (Can_allow _ _ _ _ _ Ha) as (_ & _ & [H1 H2|H1 H2|H1 H2|r Hr _ Hc]).
  - by rewrite H1, H2 in Hsa.
  - by rewrite H1, H2 in Hpub.
  - by rewrite H1, H2, orb_true_r in Hpub.
  - exists r. split; [done|].
    apply canWithRole_allow in Hc as [?|(_ & Hmin & _)]; [congruence|].
    assert (minRoleFor action ≠ RoleNone) as Hn.
    { intros E%minRoleFor_None. congruence. }
    unfold role_ok in Hmin. rewrite bool_decide_eq_false_2 in Hmin by done.
    split; [done|]. intros Hout.
    rewrite minRoleFor_unknown in Hmin by done.
    by apply RoleAtLeast_Admin.
Qed.

(** [Can] uses the cache only through the role it yields. *)
Lemma Can_role_ext c1 c2 d actor action repo :
  (effectiveRole c1 d actor repo).2 = (effectiveRole c2 d actor repo).2 →
  (Can c1 d actor action repo).2 = (Can c2 d actor action repo).2.
Proof.
  intros H. unfold Can, canParticipate.
  destruct (effectiveRole c1 d actor repo) as [c1' r1],
           (effectiveRole c2 d actor repo) as [c2' r2]; simpl in H; subst.
  repeat (case_match; simplify_eq/=; try done).
Qed.

Lemma Can_cache_state c d actor action repo :
  (Can c d actor action repo).1 = c ∨
  (Can c d actor action repo).1 = (effectiveRole c d actor repo).1.
Proof.
  unfold Can, canParticipate.
  destruct (effectiveRole c d actor repo) as [c' r]; simpl.
  repeat (case_match; simplify_eq/=; eauto).
Qed.

(** Asking again gives the same role: a lookup never changes a later one. *)
Lemma effectiveRole_stable c d actor repo :
  (effectiveRole (effectiveRole c d actor repo).1 d actor repo).2 =
  (effectiveRole c d actor repo).2.
Proof.
  destruct (decide (UserID actor = 0%Z ∨ UserID actor = OwnerUserID repo)) as [E|E].
  { by rewrite !effectiveRole_own by done. }
  apply Decidable.not_or in E as [E0 Eo].
  destruct (cacheGet c (UserID actor, ID repo)) as [r|] eqn:Hg.
  { rewrite (effectiveRole_hit c d actor repo r) by done. simpl.
    by rewrite (effectiveRole_hit c d actor repo r). }
  destruct (effectiveRole_miss c d actor repo Hg) as [H1 [H2|(r & Hr & H2)]];
    rewrite H2; [done|].
  rewrite H1, Hr. destruct c as [m|]; simpl; [|congruence].
  rewrite (effectiveRole_hit _ d actor repo r); [done| |done|done].
  apply lookup_insert_eq.
Qed.

Lemma Can_stable c d actor action action' repo :
  (Can (Can c d actor action repo).1 d actor action' repo).2 =
  (Can c d actor action' repo).2.
Proof.
  apply Can_role_ext. destruct (Can_cache_state c d actor action repo) as [-> | ->];
    [done|]. apply effectiveRole_stable.
Qed.

(** The bundle is the five decisions of the same state. *)
Lemma PermissionsFor_eq c d actor repo :
  (PermissionsFor c d actor repo).2 =
  {| Admin := Allow (Can c d actor ActionRepoAdmin repo).2;
     Maintain := Allow (Can c d actor ActionRepoSettingsGeneral repo).2;
     Push := Allow (Can c d actor ActionRepoWrite repo).2;
     Triage := Allow (Can c d actor ActionRepoWrite repo).2;
     Pull := Allow (Can c d actor ActionRepoRead repo).2 |}.
Proof.
  unfold PermissionsFor.
  pose proof (Can_stable c d actor ActionRepoAdmin ActionRepoSettingsGeneral repo) as H1.
  destruct (Can c d actor ActionRepoAdmin repo) as [c1 d1] eqn:E1; simpl in *.
  pose proof (Can_stable c1 d actor ActionRepoSettingsGeneral ActionRepoWrite repo) as H2.
  pose proof (Can_stable c d actor ActionRepoAdmin ActionRepoWrite repo) as H2'.
  pose proof (Can_stable c d actor ActionRepoAdmin ActionRepoRead repo) as H2''.
  pose proof (Can_stable c1 d actor ActionRepoSettingsGeneral ActionRepoRead repo) as H3'.
  rewrite E1 in H2', H2''; simpl in *.
  destruct (Can c1 d actor ActionRepoSettingsGeneral repo) as [c2 d2] eqn:E2; simpl in *.
  pose proof (Can_stable c2 d actor ActionRepoWrite ActionRepoWrite repo) as H3.
  pose proof (Can_stable c2 d actor ActionRepoWrite ActionRepoRead repo) as H4'.
  destruct (Can c2 d actor ActionRepoWrite repo) as [c3 d3] eqn:E3; simpl in *.
  pose proof (Can_stable c3 d actor ActionRepoWrite ActionRepoRead repo) as H4.
  destruct (Can c3 d actor ActionRepoWrite repo) as [c4 d4] eqn:E4; simpl in *.
  destruct (Can c4 d actor ActionRepoRead repo) as [c5 d5] eqn:E5; simpl in *.
  congruence.
Qed.



Lemma two_factor_block_mono d actor a1 a2 repo r1 r2 :
  two_factor_ok d actor repo = true ∨
    (r1 ≠ RoleNone ∧ (isWriteAction a2 = true → isWriteAction a1 = true)) →
  two_factor_block d actor a1 repo r1 = false →
  two_factor_block d actor a2 repo r2 = false.
Proof.
  unfold two_factor_block, two_factor_ok. rewrite !bool_decide_not.
  destruct (bool_decide (OwnerOrgID repo = 0%Z)), (HasConfirmedTwoFactor actor),
    (orgRequiresTwoFactor d (OwnerOrgID repo)); simpl;
    rewrite ?andb_false_r, ?andb_true_r; try done.
  intros [?|[Hn Hw]]; [done|]. rewrite (bool_decide_eq_false_2 (r1 = _)) by done. simpl.
  rewrite !orb_false_iff. intros [-> Hw1]. rewrite Hw1 in Hw. simpl.
  destruct (isWriteAction a2); [by discriminate Hw|]. by rewrite andb_false_r.
Qed.

Lemma role_ok_mono r1 r2 a1 a2 :
  roleRank r1 ≤ roleRank r2 → roleRank (minRoleFor a2) ≤ roleRank (minRoleFor a1) →
  minRoleFor a2 ≠ RoleNone → 0 < roleRank (minRoleFor a2) →
  role_ok r1 a1 = true → role_ok r2 a2 = true.
Proof.
  unfold role_ok. rewrite !orb_true_iff, !RoleAtLeast_spec, !bool_decide_eq_true.
  intros ???? [E|E]; [|right; lia]. rewrite E, roleRank_None in *. lia.
Qed.

Lemma role_ok_up r1 r2 a :
  roleRank r1 ≤ roleRank r2 → role_ok r1 a = true → role_ok r2 a = true.
Proof.
  unfold role_ok. rewrite !orb_true_iff. intros Hle [E|E]; [by left|right].
  by eapply RoleAtLeast_mono.
Qed.

(** Monotonicity in the role. Raising an actor's effective role never
    turns an allow into a deny, unless the actor goes from no role to some role
    in an organisation whose two-factor requirement they do not meet. *)
Theorem Can_role_monotone c1 c2 d actor action repo r1 r2 :
  (effectiveRole c1 d actor repo).2 = Ok r1 →
  (effectiveRole c2 d actor repo).2 = Ok r2 →
  roleRank r1 ≤ roleRank r2 →
  r1 ≠ RoleNone ∨ two_factor_ok d actor repo = true →
  Allow (Can c1 d actor action repo).2 = true →
  Allow (Can c2 d actor action repo).2 = true.
Proof.
  intros H1 H2 Hle H2fa. unfold Can.
  destruct (effectiveRole c1 d actor repo) as [c1' e1] eqn:E1,
           (effectiveRole c2 d actor repo) as [c2' e2] eqn:E2; simpl in *; subst.
  repeat (case_match; simpl; try done).
  - unfold canParticipate. rewrite E1, E2.
    destruct (IsAnonymous actor); [done|].
    unfold two_factor_ok in H2fa. rewrite bool_decide_not.
    destruct (bool_decide (OwnerOrgID repo = 0%Z)), (HasConfirmedTwoFactor actor),
      (orgRequiresTwoFactor d (OwnerOrgID repo)); simpl in *; try done.
    destruct H2fa as [Hn|]; [|done]. by rewrite decide_True.
  - rewrite !canWithRole_allow_eq, !andb_true_iff, !negb_true_iff, !orb_true_iff.
    intros [Hb Hx]. split.
    + eapply two_factor_block_mono; [|exact Hb]. naive_solver.
    + destruct Hx as [?|Hx]; [by left|right]. bools.
      rewrite !andb_true_iff. repeat split; try done. 2: by apply negb_true_iff.
      by eapply role_ok_up.
Qed.


Lemma author_self_close_plain actor a repo :
  a ∉ [ActionRepoArchive; ActionIssueClose; ActionPullClose] →
  author_self_close actor a repo = false.
Proof.
  intros H. unfold author_self_close.
  rewrite !bool_decide_eq_false_2 by set_solver. done.
Qed.

(** Between role-stage writes, an allow carries over to every action that
    needs no higher role, and to reading the repository. *)
Lemma Can_plain_write_down c d actor a1 a2 repo :
  plain_write a1 = true → plain_write a2 = true →
  0 < roleRank (minRoleFor a2) ≤ roleRank (minRoleFor a1) →
  Allow (Can c d actor a1 repo).2 = true → Allow (Can c d actor a2 repo).2 = true.
Proof.
  intros P1 P2 Hr. unfold plain_write in P1, P2. bools. unfold Can, isReadAction.
  repeat match goal with H : isWriteAction ?a = true |- context [isWriteAction ?a] =>
    rewrite !H end.
  repeat match goal with H : isIssueParticipationAction ?a = false |-
    context [isIssueParticipationAction ?a] => rewrite !H end.
  rewrite !andb_false_r. simpl.
  destruct (effectiveRole c d actor repo) as [c' [r|e]]; repeat (case_match; simpl; try done).
  rewrite !canWithRole_allow_eq, !author_self_close_plain by done. simpl.
  rewrite !andb_true_iff, !negb_true_iff. intros (Hb & (Hw & Hok) & _). repeat split.
  - eapply two_factor_block_mono; [|exact Hb].
    destruct (decide (r = RoleNone)) as [->|]; [|by auto].
    unfold role_ok in Hok. apply orb_true_iff in Hok as [E|E].
    + bools. rewrite E in Hr. rewrite roleRank_None in Hr. lia.
    + apply RoleAtLeast_spec in E. rewrite roleRank_None in E. lia.
  - apply write_gates_spec. intros _. apply write_gates_spec in Hw; [|done].
    destruct Hw as ([?|?] & ? & ?); [by auto|set_solver].
  - eapply role_ok_mono; [done|..|exact Hok]; try lia.
    intros E. rewrite E, roleRank_None in Hr. lia.
  - match goal with H : social_action a2 = false |- _ => by rewrite H end.
Qed.

Lemma Can_plain_write_read c d actor a repo :
  plain_write a = true → 0 < roleRank (minRoleFor a) →
  Allow (Can c d actor a repo).2 = true →
  Allow (Can c d actor ActionRepoRead repo).2 = true.
Proof.
  intros P Hr. unfold plain_write in P. bools. unfold Can, isReadAction.
  repeat match goal with H : isWriteAction ?a = true |- context [isWriteAction ?a] =>
    rewrite !H end.
  match goal with H : isIssueParticipationAction a = false |- _ => rewrite H end.
  change (isWriteAction ActionRepoRead) with false. rewrite !andb_false_r. simpl.
  destruct (effectiveRole c d actor repo) as [c' [r|e]]; repeat (case_match; simpl; try done).
  rewrite !canWithRole_allow_eq, !author_self_close_plain by (done || set_solver). simpl.
  rewrite !andb_true_iff, !negb_true_iff. intros (Hb & (_ & Hok) & _).
  assert (0 < roleRank r) as Hpos.
  { unfold role_ok in Hok. apply orb_true_iff in Hok as [E|E].
    - bools. rewrite E, roleRank_None in Hr. lia.
    - apply RoleAtLeast_spec in E. lia. }
  repeat split.
  - eapply two_factor_block_mono; [|exact Hb]. right. split; [|done].
    intros ->. rewrite roleRank_None in Hpos. lia.
  - apply orb_true_iff. right. apply RoleAtLeast_spec.
    change (roleRank (minRoleFor ActionRepoRead)) with 1. lia.
Qed.

(** The permission bundle is a chain. Whatever the state of the cache and
    of the database, admin implies maintain, maintain implies push, push and
    triage coincide, and push implies pull. *)
Theorem PermissionsFor_chain c d actor repo p :
  (PermissionsFor c d actor repo).2 = p →
  (Admin p = true → Maintain p = true) ∧ (Maintain p = true → Push p = true) ∧
  Push p = Triage p ∧ (Push p = true → Pull p = true).
Proof.
  intros <-. rewrite PermissionsFor_eq. simpl. repeat split.
  - by apply Can_plain_write_down; [done|done|vm_compute; lia].
  - by apply Can_plain_write_down; [done|done|vm_compute; lia].
  - by apply Can_plain_write_read; [done|vm_compute; lia].
Qed.

(** A two-factor deny is only issued to actors that hold some role. *)
Lemma Can_two_factor_code c d actor action repo :
  Code (Can c d actor action repo).2 = DenyOrgRequiresTwoFactor →
  ∃ r, (effectiveRole c d actor repo).2 = Ok r ∧ r ≠ RoleNone.
Proof.
  unfold Can, canParticipate, canWithRole.
  destruct (effectiveRole c d actor repo) as [c' [r|e]]; simpl;
    repeat (case_match; simpl; try done); intros _; exists r; (split; [done|]); bools; done.
Qed.

(** No existence leak. When an action on a private repository is denied,
    an actor without a role on it who is not its owner gets the status of a
    missing page. *)
Theorem Maybe404_no_leak c d actor action repo :
  IsPrivate repo = true →
  Allow (Can c d actor action repo).2 = false →
  UserID actor ≠ OwnerUserID repo →
  (∀ r, (effectiveRole c d actor repo).2 = Ok r → r = RoleNone) →
  Maybe404 (Can c d actor action repo).2 repo actor = StatusNotFound.
Proof.
  intros Hp Ha Ho Hr. unfold Maybe404. rewrite Ha, Hp. case_decide as Hc.
  - destruct (Can_two_factor_code _ _ _ _ _ Hc) as (r & Hok & Hn). by apply Hr in Hok.
  - by rewrite (bool_decide_eq_false_2 (_ = OwnerUserID repo)), andb_false_r.
Qed.

(** The login-only social actions are not gated by visibility. A logged-in
    actor with no role at all is allowed to star, fork or watch a private
    repository that is live. *)
Theorem Can_social_ignores_visibility c d actor action repo :
  social_action action = true →
  IsAnonymous actor = false → IsSuspended actor = false → Impersonating actor = false →
  IsDeleted repo = false → IsArchived repo = false → IsPaused repo = false →
  org_suspended d repo = false →
  (effectiveRole c d actor repo).2 = Ok RoleNone →
  Allow (Can c d actor action repo).2 = true.
Proof.
  intros Hs Han Hsu Him Hd Har Hpa Hos Hr. unfold Can, isReadAction.
  rewrite Hd, Hsu, Him, Han, (social_is_write _ Hs). simpl. rewrite !andb_false_r.
  replace (isIssueParticipationAction action) with false.
  2: { unfold social_action, isIssueParticipationAction in *. bools.
       rewrite !bool_decide_eq_false_2; [done|..]; intros ->; set_solver. }
  simpl. destruct (effectiveRole c d actor repo) as [c' e]; simpl in *; subst. simpl.
  rewrite canWithRole_allow_eq. unfold two_factor_block, role_ok.
  rewrite (bool_decide_eq_false_2 (RoleNone ≠ RoleNone)), andb_false_r by naive_solver.
  simpl. replace (minRoleFor action) with RoleNone.
  2: { unfold social_action in Hs. bools. unfold minRoleFor. repeat case_decide; set_solver. }
  rewrite bool_decide_eq_true_2, Hs, Han by done. simpl. rewrite andb_true_r.
  apply orb_true_iff. right. rewrite andb_true_r. apply write_gates_spec. auto.
Qed.

(** The author's self-close passes on a frozen repository. Closing one's
    own thread is allowed whether or not the repository is archived or paused
    and its organisation suspended: those gates come after the self-close. *)
Theorem Can_self_close_ignores_freeze c d actor action repo r :
  author_self_close actor action repo = true →
  IsAnonymous actor = false → IsSuspended actor = false → Impersonating actor = false →
  IsDeleted repo = false →
  (effectiveRole c d actor repo).2 = Ok r →
  two_factor_ok d actor repo = true →
  Allow (Can c d actor action repo).2 = true.
Proof.
  intros Hs Han Hsu Him Hd Hr H2. unfold Can, isReadAction.
  assert (action = ActionIssueClose ∨ action = ActionPullClose) as Hact.
  { unfold author_self_close in Hs. bools. apply orb_true_iff in H as [?|?]; bools; auto. }
  replace (isWriteAction action) with true by (destruct Hact as [-> | ->]; done).
  replace (isIssueParticipationAction action) with false
    by (destruct Hact as [-> | ->]; done).
  rewrite Hd, Hsu, Him, Han. simpl. rewrite andb_false_r. simpl.
  destruct (effectiveRole c d actor repo) as [c' e]; simpl in *; subst. simpl.
  rewrite canWithRole_allow_eq, Hs. simpl. rewrite andb_true_r. apply negb_true_iff.
  eapply two_factor_block_mono with (a1 := ActionRepoRead) (r1 := RoleNone); [by left|].
  unfold two_factor_block.
  by rewrite (bool_decide_eq_false_2 (RoleNone ≠ RoleNone)), andb_false_r by naive_solver.
Qed.

(** ** List visibility against the decision function *)

Lemma bind_args_user start u :
  bind_args start [u; u] start = Some u ∧ bind_args start [u; u] (start + 1)%Z = Some u.
Proof.
  unfold bind_args. rewrite !decide_True by lia.
  by rewrite Z.sub_diag, Z.add_simpl_l.
Qed.

(** What a list query selects, in terms of the columns. *)
Lemma visible_row_iff s actor start r :
  visible_row s actor start r = true ↔
  row_DeletedAt r = None ∧
  (IsSiteAdmin actor = true ∨ row_Visibility r = "public" ∨
   (IsAnonymous actor = false ∧
    (row_OwnerUserID r = Some (UserID actor) ∨
     is_Some (repo_collaborators s !! (row_ID r, UserID actor))))).
Proof.
  unfold visible_row, visibilityExpr, VisibilityPredicate.
  destruct (IsSiteAdmin actor) eqn:Hs; simpl.
  { rewrite bool_decide_eq_true. naive_solver. }
  destruct (IsAnonymous actor) eqn:Ha; simpl.
  { rewrite andb_true_iff, !bool_decide_eq_true. naive_solver. }
  destruct (bind_args_user start (UserID actor)) as [-> ->].
  destruct (row_OwnerUserID r) as [o|];
    rewrite andb_true_iff, !orb_true_iff, !bool_decide_eq_true; naive_solver.
Qed.



Lemma Can_read_public c d actor repo :
  IsDeleted repo = false → IsPublic repo = true →
  Allow (Can c d actor ActionRepoRead repo).2 = true.
Proof.
  intros Hd Hp. unfold Can. rewrite Hd, Hp.
  change (isReadAction ActionRepoRead) with true.
  change (isWriteAction ActionRepoRead) with false. rewrite !andb_false_r.
  replace (IsPrivate repo) with false; [rewrite andb_false_r; by case_match|].
  unfold IsPublic, IsPrivate in *. bools. by rewrite Hp.
Qed.

Lemma Can_read_role c d actor repo r :
  IsDeleted repo = false → IsAnonymous actor = false →
  (effectiveRole c d actor repo).2 = Ok r → 0 < roleRank r →
  Allow (Can c d actor ActionRepoRead repo).2 = true ∨
  Code (Can c d actor ActionRepoRead repo).2 = DenyOrgRequiresTwoFactor.
Proof.
  intros Hd Ha Hr Hpos. unfold Can. rewrite Hd, Ha.
  change (isReadAction ActionRepoRead) with true.
  change (isWriteAction ActionRepoRead) with false.
  change (isIssueParticipationAction ActionRepoRead) with false.
  rewrite !andb_false_r. simpl.
  destruct (IsSiteAdmin actor); [by left|]. destruct (IsPublic repo); [by left|]. simpl.
  destruct (effectiveRole c d actor repo) as [c' e]; simpl in *; subst. simpl.
  unfold canWithRole. case_match; [by right|]. left.
  rewrite !(bool_decide_eq_false_2 (ActionRepoRead = _)) by done. simpl.
  change (isWriteAction ActionRepoRead) with false. rewrite !andb_false_r. simpl.
  replace (RoleAtLeast r _) with true.
  - done.
  - symmetry. apply RoleAtLeast_spec.
    change (roleRank (minRoleFor ActionRepoRead)) with 1. lia.
Qed.

(** Listing agrees with deciding. A row the visibility fragment selects is
    one [Can] lets the actor read (unless the organisation's two-factor
    requirement stands in the way), and for a user-owned repository every row
    [Can] lets the actor read is selected. *)
Theorem VisibilityPredicate_agrees s actor start r :
  no_faults s → row_wf s r → actor_wf actor →
  (visible_row s actor start r = true →
   Allow (Can None {| Pool := Some s |} actor ActionRepoRead (NewRepoRefFromRepo r)).2
     = true ∨
   Code (Can None {| Pool := Some s |} actor ActionRepoRead (NewRepoRefFromRepo r)).2
     = DenyOrgRequiresTwoFactor) ∧
  (row_OwnerOrgID r = None →
   Allow (Can None {| Pool := Some s |} actor ActionRepoRead (NewRepoRefFromRepo r)).2
     = true →
   visible_row s actor start r = true).
Proof.
  intros Hf [Hvis Hcol] Hwf. rewrite visible_row_iff.
  destruct (effectiveRole_grants s actor (NewRepoRefFromRepo r) Hf)
    as (role & Hrole & Hin & Hmax).
  split.
  - intros [Hdel Hcase].
    assert (IsDeleted (NewRepoRefFromRepo r) = false) as Hd.
    { simpl. rewrite Hdel. apply bool_decide_eq_false_2. by intros [? ?]. }
    destruct Hcase as [Hsa|[Hpub|[Hna Hgrant]]].
    + left. unfold Can. by rewrite Hd, Hsa.
    + left. apply Can_read_public; [done|]. unfold IsPublic. by case_bool_decide.
    + apply (Can_read_role _ _ _ _ role); [done|done|done|].
      assert (UserID actor ≠ 0%Z) as Hu.
      { intros E. apply Hwf in E. congruence. }
      destruct Hgrant as [Ho|[g Hg]].
      * apply Nat.lt_le_trans with 5; [lia|]. apply (Hmax RoleAdmin).
        apply grant_owner; [done|]. simpl. by rewrite Ho.
      * eapply Nat.lt_le_trans; [by apply (Hcol _ _ Hg)|]. apply Hmax.
        by apply grant_collab.
  - intros Horg Ha. destruct (Can_allow _ _ _ _ _ Ha) as (Hd & _ & Hby).
    simpl in Hd. bools. assert (row_DeletedAt r = None) as Hnone.
    { destruct (row_DeletedAt r); [|done]. by destruct Hd. }
    split; [done|].
    destruct Hby as [Hs ?|? Hp|Hi ? ? ? ? ?|rr Hr Han Hc]; [by left| | |].
    + right; left. unfold IsPublic in Hp. by bools.
    + done.
    + destruct Hvis as [?|Hpriv]; [by right; left|]. right; right.
      rewrite Hrole in Hr. injection Hr as <-.
      assert (IsAnonymous actor = false) as Hna.
      { destruct (IsAnonymous actor); [|done]. unfold IsPrivate in Han. simpl in Han.
        rewrite Hpriv in Han. by discriminate Han. }
      split; [done|].
      apply canWithRole_allow in Hc as [Hself|(_ & Hok & _)].
      { unfold author_self_close in Hself. simpl in Hself. bools. done. }
      unfold role_ok in Hok. apply orb_true_iff in Hok as [Hok|Hok]; [by bools|].
      apply RoleAtLeast_spec in Hok as [Hok _].
      change (roleRank (minRoleFor ActionRepoRead)) with 1 in Hok.
      destruct Hin as [->|Hg]; [rewrite roleRank_None in Hok; lia|].
      simpl in Hg. destruct Hg as [Hu Ho|? Ho ?|g ? Hg|? ? ? ? Ho|? ? ? ? ? Ho];
        simpl in *; rewrite ?Horg in *; simpl in *; try done.
      * left. destruct (row_OwnerUserID r); simpl in *; congruence.
      * right. by exists g.
Qed.

(** The clause a logged-in actor's list query carries. *)
Example VisibilityPredicate_text :
  VisibilityPredicate (UserActor 9 "ann" false false) "" 3 =
  ("r.deleted_at IS NULL AND (r.visibility = 'public' OR r.owner_user_id = $3 OR EXISTS (SELECT 1 FROM repo_collaborators c WHERE c.repo_id = r.id AND c.user_id = $4))",
   [9; 9]%Z).
Proof. reflexivity. Qed.


Example VisibilityPredicate_org_gap :
  Allow (Can None sampleDeps (UserActor 1 "org-owner" false false) ActionRepoRead
           (NewRepoRefFromRepo sampleRow)).2 = true ∧
  visible_row sampleStore (UserActor 1 "org-owner" false false) 1 sampleRow = false.
Proof. vm_compute. done. Qed.

(** ** Witnesses *)

Lemma sampleStore_no_faults : no_faults sampleStore.
Proof. done. Qed.

Lemma Can_cache_transparent_witness :
  (Can WithCache sampleDeps (UserActor 2 "bob" false false) ActionRepoWrite sampleRepo).2 =
  allow "granted" ∧
  (Can WithCache sampleDeps (UserActor 2 "bob" false false) ActionRepoWrite sampleRepo).2 =
  (Can None sampleDeps (UserActor 2 "bob" false false) ActionRepoWrite sampleRepo).2.
Proof.
  split; [vm_compute; reflexivity|].
  exact (proj1 (Can_cache_transparent sampleDeps (λ _, 7%Z) (λ _, 0%Z) WithCache
    (UserActor 2 "bob" false false) ActionRepoWrite sampleRepo
    (WithCache_coherent _ _ _) (conj eq_refl eq_refl))).
Defined.

Lemma InvalidateRepo_restores_witness :
  InvalidateRepo (Some {[ (2, 100)%Z := RoleMaintain; (2, 8)%Z := RoleNone ]}) 100 =
    Some {[ (2, 8)%Z := RoleNone ]} ∧
  coherent {| Pool := Some (UpsertCollabRole sampleStore 100 2 "admin") |}
    (λ _, 7%Z) (λ _, 0%Z) (InvalidateRepo WithCache 100).
Proof.
  split; [vm_compute; reflexivity|].
  exact (proj1 (InvalidateRepo_restores sampleStore (λ _, 7%Z) (λ _, 0%Z) WithCache 100 2
    "admin" (WithCache_coherent _ _ _))).
Defined.

Lemma effectiveRole_strongest_witness :
  (effectiveRole WithCache sampleDeps (UserActor 2 "bob" false false) sampleRepo).2 =
    Ok RoleMaintain ∧
  ∃ r, (effectiveRole WithCache sampleDeps (UserActor 2 "bob" false false) sampleRepo).2
         = Ok r ∧
       strongest (has_grant sampleStore 2 sampleRepo) r.
Proof.
  split; [vm_compute; reflexivity|].
  exact (effectiveRole_strongest sampleStore (λ _, 7%Z) (λ _, 0%Z) WithCache
           (UserActor 2 "bob" false false) sampleRepo
           sampleStore_no_faults (WithCache_coherent _ _ _) (conj eq_refl eq_refl)).
Defined.

Lemma Can_write_gates_witness :
  IsSuspended (UserActor 2 "bob" false false) = false ∧ IsDeleted sampleRepo = false.
Proof.
  pose proof (Can_write_gates None sampleDeps (UserActor 2 "bob" false false)
    ActionRepoWrite sampleRepo eq_refl ltac:(vm_compute; reflexivity)) as H.
  split; [apply (proj1 (proj2 H)) | apply (proj1 H)].
Defined.

Lemma Can_role_required_witness :
  ∃ r, (effectiveRole None sampleDeps (UserActor 2 "bob" false false) sampleRepo).2 = Ok r ∧
       RoleAtLeast r (minRoleFor ActionRepoWrite) = true ∧
       (ActionRepoWrite ∉ AllActions → r = RoleAdmin).
Proof.
  apply (Can_role_required None sampleDeps (UserActor 2 "bob" false false)
    ActionRepoWrite sampleRepo); vm_compute; reflexivity.
Defined.

Lemma Can_role_monotone_witness :
  Allow (Can (Some {[ (2, 100)%Z := RoleAdmin ]}) sampleDeps (UserActor 2 "bob" false false)
           ActionRepoWrite sampleRepo).2 = true.
Proof.
  apply (Can_role_monotone None (Some {[ (2, 100)%Z := RoleAdmin ]}) sampleDeps
    (UserActor 2 "bob" false false) ActionRepoWrite sampleRepo RoleMaintain RoleAdmin);
    [vm_compute; reflexivity | vm_compute; reflexivity | vm_compute; lia
    | right; vm_compute; reflexivity | vm_compute; reflexivity].
Defined.

Lemma PermissionsFor_chain_witness :
  Maintain (PermissionsFor WithCache sampleDeps (UserActor 2 "bob" false false) sampleRepo).2
    = true ∧
  Pull (PermissionsFor WithCache sampleDeps (UserActor 2 "bob" false false) sampleRepo).2
    = true.
Proof.
  assert (Maintain (PermissionsFor WithCache sampleDeps (UserActor 2 "bob" false false)
    sampleRepo).2 = true) as Hm by (vm_compute; reflexivity).
  destruct (PermissionsFor_chain WithCache sampleDeps (UserActor 2 "bob" false false)
    sampleRepo _ eq_refl) as (_ & H2 & _ & H4).
  split; [exact Hm | exact (H4 (H2 Hm))].
Defined.

Lemma Maybe404_no_leak_witness :
  Maybe404 (Can None sampleDeps (UserActor 9 "eve" false false) ActionRepoRead sampleRepo).2
    sampleRepo (UserActor 9 "eve" false false) = StatusNotFound.
Proof.
  apply (Maybe404_no_leak None sampleDeps); [reflexivity | vm_compute; reflexivity | done |].
  intros r H. vm_compute in H. injection H as <-. reflexivity.
Defined.

Lemma Can_social_ignores_visibility_witness :
  Allow (Can None sampleDeps (UserActor 9 "eve" false false) ActionForkCreate sampleRepo).2
    = true.
Proof.
  apply (Can_social_ignores_visibility None sampleDeps); vm_compute; reflexivity.
Defined.


Lemma Can_self_close_ignores_freeze_witness :
  IsArchived archivedRepo = true ∧
  Allow (Can None sampleDeps (UserActor 9 "eve" false false) ActionIssueClose archivedRepo).2
    = true.
Proof.
  split; [reflexivity|].
  apply (Can_self_close_ignores_freeze None sampleDeps _ _ _ RoleNone);
    vm_compute; reflexivity.
Defined.

Lemma VisibilityPredicate_agrees_witness :
  Allow (Can None sampleDeps (UserActor 3 "cat" false false) ActionRepoRead
           (NewRepoRefFromRepo sampleRow)).2 = true ∨
  Code (Can None sampleDeps (UserActor 3 "cat" false false) ActionRepoRead
           (NewRepoRefFromRepo sampleRow)).2 = DenyOrgRequiresTwoFactor.
Proof.
  apply (VisibilityPredicate_agrees sampleStore (UserActor 3 "cat" false false) 1 sampleRow).
  - exact sampleStore_no_faults.
  - split; [right; reflexivity|]. intros u role H.
    unfold sampleStore in H. cbn [repo_collaborators] in H.
    apply lookup_insert_Some in H as [[_ <-]|[_ H]]; [vm_compute; lia|].
    apply lookup_singleton_Some in H as [_ <-]. vm_compute; lia.
  - split; [discriminate | discriminate].
  - vm_compute. reflexivity.
Defined.
