(* ===== verification/Expr.v ===== *)
(** * Expr: the [${{ … }}] expression language of workflow files

    internal/actions/expr: the lexer (lex.go) and the recursive-descent parser
    (parse.go); the evaluator is Eval.v.  The parser works on the suffix [p.tokens[p.pos:]]; reading past
    the end of it is the Go run-time panic [IndexOutOfRange].  The recursion of
    the parser carries fuel; [Parse] gives it eight units a token, and
    ExprFacts proves that it never runs out. *)

From S2P Require Import Prelude GoString.
Local Open Scope nat_scope.

(** ** Tokens *)

Inductive TokenKind :=
| TokInvalid | TokIdent | TokDot | TokLParen | TokRParen | TokComma | TokString
| TokBool | TokNull | TokAnd | TokOr | TokNot | TokEq | TokNe | TokEOF.

#[export] Instance TokenKind_eq_dec : EqDecision TokenKind.
Proof. solve_decision. Defined.

Record Token := MkToken { tkind : TokenKind; tvalue : string; tpos : nat }.

#[export] Instance Token_eq_dec : EqDecision Token.
Proof. solve_decision. Defined.

Definition TokenKind_String (k : TokenKind) : string :=
  match k with
  | TokIdent => "identifier"
  | TokDot => "."
  | TokLParen => "("
  | TokRParen => ")"
  | TokComma => ","
  | TokString => "string literal"
  | TokBool => "boolean"
  | TokNull => "null"
  | TokAnd => "&&"
  | TokOr => "||"
  | TokNot => "!"
  | TokEq => "=="
  | TokNe => "!="
  | TokEOF => "end of input"
  | TokInvalid => "invalid"
  end.

(** The errors of the package, one constructor per message, with what the
    message prints. *)
Inductive error :=
| InvalidUTF8 (i : nat)
| Stray (c : ascii) (i : nat)
| UnexpectedCharacter (r : Z) (i : nat)
| UnterminatedString (i : nat)
| UnexpectedAfterExpression (k : string) (i : nat)
| ExpectedRParen (i : nat)
| ExpectedRParenToCloseCall (i : nat)
| UnexpectedToken (k : string) (i : nat)
| ExpectedIdentifierAfterDot (i : nat)
| EmptyReference
| RequiresExactlyOneMember (namespace : string)
| SecretNotBound (name : string)
| UnknownNamespace (root : string)
| RequiresMember
| UnknownShithubField (f : string)
| UnknownFunction (name : string)
| TakesNoArguments (name : string)
| TakesTwoArguments (name : string) (got : nat)
| UnknownBinaryOperator (op : string)
| IndexOutOfRange
| OutOfFuel.

#[export] Instance error_eq_dec : EqDecision error.
Proof. solve_decision. Defined.

(** ** lex.go *)

Section Lexer.
  Context `{UnicodeTables}.

Definition isIdentStart (r : Z) : bool := IsLetter r || bool_decide (r = 95%Z).

Definition isIdentChar (r : Z) : bool :=
  IsLetter r || IsDigit r || bool_decide (r = 95%Z).

(** The loop of [lexString] on [src[i:]]: the literal's text and the number of
    bytes read, the closing quote included. *)
Fixpoint lexString_loop (src : string) (basePos : nat) : res error (string * nat) :=
  match src with
  | "" => Err (UnterminatedString basePos)
  | String c src1 =>
      if decide (c = "'"%char) then
        match src1 with
        | String d src2 =>
            if decide (d = "'"%char) then
              '(b, n) ← lexString_loop src2 basePos; Ok (String "'" b, S (S n))
            else Ok ("", 1)
        | "" => Ok ("", 1)
        end
      else '(b, n) ← lexString_loop src1 basePos; Ok (String c b, S n)
  end.

Definition lexString (src : string) (basePos : nat) : res error (Token * nat) :=
  if bool_decide (String.length src < 2) then Err (UnterminatedString basePos)
  else '(b, n) ← lexString_loop (str_drop 1 src) basePos;
       Ok (MkToken TokString b basePos, S n).

(** The index [i] at which the loop of [lexIdent] stops. *)
Fixpoint lexIdent_loop (skip : nat) (src : string) : nat :=
  match src with
  | "" => 0
  | String _ src' =>
      match skip with
      | S k => S (lexIdent_loop k src')
      | 0 =>
          let '(r, size) := DecodeRuneInString src in
          if bool_decide (r = RuneError) then 0
          else if negb (isIdentChar r) then 0
          else S (lexIdent_loop (pred size) src')
      end
  end.

Definition lexIdent (src : string) (basePos : nat) : Token * nat :=
  let i := lexIdent_loop 0 src in
  let v := str_take i src in
  if bool_decide (v = "true" ∨ v = "false") then (MkToken TokBool v basePos, i)
  else if bool_decide (v = "null") then (MkToken TokNull v basePos, i)
  else (MkToken TokIdent v basePos, i).

(** [src[i+1] == c], with the bounds check in front of it. *)
Definition next_is (src : string) (c : ascii) : bool :=
  match src with
  | String _ (String d _) => bool_decide (d = c)
  | _ => false
  end.

(** One iteration of the loop of [Lex] at [src[i:]]: the token it appends, if
    any, and how far it advances [i]. *)
Definition Lex_step (src : string) (i : nat) : res error (option Token * nat) :=
  let '(r, size) := DecodeRuneInString src in
  let tok k v n := Ok (Some (MkToken k v i), n) in
  let isb (c : ascii) := bool_decide (r = byte c) in
  if bool_decide (r = RuneError) && bool_decide (size ≤ 1) then Err (InvalidUTF8 i)
  else if isb " "%char || isb "009"%char || isb "010"%char || isb "013"%char then Ok (None, size)
  else if isb "."%char then tok TokDot "." size
  else if isb "("%char then tok TokLParen "(" size
  else if isb ")"%char then tok TokRParen ")" size
  else if isb ","%char then tok TokComma "," size
  else if isb "'"%char then '(t, n) ← lexString src i; Ok (Some t, n)
  else if isb "&"%char then
    if next_is src "&" then tok TokAnd "&&" 2 else Err (Stray "&" i)
  else if isb "|"%char then
    if next_is src "|" then tok TokOr "||" 2 else Err (Stray "|" i)
  else if isb "!"%char then
    if next_is src "=" then tok TokNe "!=" 2 else tok TokNot "!" size
  else if isb "="%char then
    if next_is src "=" then tok TokEq "==" 2 else Err (Stray "=" i)
  else if isIdentStart r then let '(t, n) := lexIdent src i in Ok (Some t, n)
  else Err (UnexpectedCharacter r i).

#[global] Arguments Lex_step : simpl never.

(** The loop of [Lex] from offset [i]; [skip] is what is left of the advance of
    the last iteration. *)
Fixpoint Lex_loop (skip : nat) (src : string) (i : nat) : res error (list Token) :=
  match src with
  | "" => Ok [MkToken TokEOF "" i]
  | String _ src' =>
      match skip with
      | S k => Lex_loop k src' (S i)
      | 0 =>
          '(t, n) ← Lex_step src i;
          out ← Lex_loop (pred n) src' (S i);
          Ok (option_list t ++ out)
      end
  end.

Definition Lex (src : string) : res error (list Token) := Lex_loop 0 src 0.

End Lexer.

(** ** parse.go *)

Inductive Expr :=
| LitString (V : string)
| LitBool (V : bool)
| LitNull
| Ref (Path : list string)
| Call (Name : string) (Args : list Expr)
| Unary (Op : string) (X : Expr)
| Binary (Op : string) (L R : Expr).

(** The tokens not consumed yet. *)
Abbreviation parser := (list Token).

Definition peek (p : parser) : res error Token :=
  match p with t :: _ => Ok t | [] => Err IndexOutOfRange end.

Definition advance (p : parser) : res error (Token * parser) :=
  match p with t :: p => Ok (t, p) | [] => Err IndexOutOfRange end.

(** [for p.peek().Kind == TokDot] of [parseRefOrCall]. *)
Fixpoint pathLoop (p : parser) : res error (list string * parser) :=
  match p with
  | [] => Err IndexOutOfRange
  | t :: p1 =>
      if decide (tkind t = TokDot) then
        match p1 with
        | [] => Err IndexOutOfRange
        | next :: p2 =>
            if decide (tkind next = TokIdent) then
              '(path, p3) ← pathLoop p2; Ok (tvalue next :: path, p3)
            else Err (ExpectedIdentifierAfterDot (tpos next))
        end
      else Ok ([], p)
  end.

Fixpoint parseOr (fuel : nat) (p : parser) : res error (Expr * parser) :=
  match fuel with
  | 0 => Err OutOfFuel
  | S fuel => '(lhs, p) ← parseAnd fuel p; orLoop fuel lhs p
  end
with orLoop (fuel : nat) (lhs : Expr) (p : parser) : res error (Expr * parser) :=
  match fuel with
  | 0 => Err OutOfFuel
  | S fuel =>
      t ← peek p;
      if decide (tkind t = TokOr) then
        '(op, p) ← advance p;
        '(rhs, p) ← parseAnd fuel p;
        orLoop fuel (Binary (tvalue op) lhs rhs) p
      else Ok (lhs, p)
  end
with parseAnd (fuel : nat) (p : parser) : res error (Expr * parser) :=
  match fuel with
  | 0 => Err OutOfFuel
  | S fuel => '(lhs, p) ← parseEquality fuel p; andLoop fuel lhs p
  end
with andLoop (fuel : nat) (lhs : Expr) (p : parser) : res error (Expr * parser) :=
  match fuel with
  | 0 => Err OutOfFuel
  | S fuel =>
      t ← peek p;
      if decide (tkind t = TokAnd) then
        '(op, p) ← advance p;
        '(rhs, p) ← parseEquality fuel p;
        andLoop fuel (Binary (tvalue op) lhs rhs) p
      else Ok (lhs, p)
  end
with parseEquality (fuel : nat) (p : parser) : res error (Expr * parser) :=
  match fuel with
  | 0 => Err OutOfFuel
  | S fuel => '(lhs, p) ← parseUnary fuel p; equalityLoop fuel lhs p
  end
with equalityLoop (fuel : nat) (lhs : Expr) (p : parser) : res error (Expr * parser) :=
  match fuel with
  | 0 => Err OutOfFuel
  | S fuel =>
      t ← peek p;
      if decide (tkind t = TokEq ∨ tkind t = TokNe) then
        '(op, p) ← advance p;
        '(rhs, p) ← parseUnary fuel p;
        equalityLoop fuel (Binary (tvalue op) lhs rhs) p
      else Ok (lhs, p)
  end
with parseUnary (fuel : nat) (p : parser) : res error (Expr * parser) :=
  match fuel with
  | 0 => Err OutOfFuel
  | S fuel =>
      t ← peek p;
      if decide (tkind t = TokNot) then
        '(_, p) ← advance p;
        '(x, p) ← parseUnary fuel p;
        Ok (Unary "!" x, p)
      else parsePrimary fuel p
  end
with parsePrimary (fuel : nat) (p : parser) : res error (Expr * parser) :=
  match fuel with
  | 0 => Err OutOfFuel
  | S fuel =>
      t ← peek p;
      match tkind t with
      | TokString => '(_, p) ← advance p; Ok (LitString (tvalue t), p)
      | TokBool => '(_, p) ← advance p; Ok (LitBool (bool_decide (tvalue t = "true")), p)
      | TokNull => '(_, p) ← advance p; Ok (LitNull, p)
      | TokLParen =>
          '(_, p) ← advance p;
          '(e, p) ← parseOr fuel p;
          c ← peek p;
          if decide (tkind c = TokRParen) then '(_, p) ← advance p; Ok (e, p)
          else Err (ExpectedRParen (tpos c))
      | TokIdent => parseRefOrCall fuel p
      | k => Err (UnexpectedToken (TokenKind_String k) (tpos t))
      end
  end
with parseRefOrCall (fuel : nat) (p : parser) : res error (Expr * parser) :=
  match fuel with
  | 0 => Err OutOfFuel
  | S fuel =>
      '(first, p) ← advance p;
      t ← peek p;
      if decide (tkind t = TokLParen) then
        '(_, p) ← advance p;
        t ← peek p;
        '(args, p) ← (if decide (tkind t = TokRParen) then Ok ([], p) else argsLoop fuel p);
        c ← peek p;
        if decide (tkind c = TokRParen) then '(_, p) ← advance p; Ok (Call (tvalue first) args, p)
        else Err (ExpectedRParenToCloseCall (tpos c))
      else '(path, p) ← pathLoop p; Ok (Ref (tvalue first :: path), p)
  end
with argsLoop (fuel : nat) (p : parser) : res error (list Expr * parser) :=
  match fuel with
  | 0 => Err OutOfFuel
  | S fuel =>
      '(a, p) ← parseOr fuel p;
      t ← peek p;
      if decide (tkind t = TokComma) then
        '(_, p) ← advance p;
        '(args, p) ← argsLoop fuel p;
        Ok (a :: args, p)
      else Ok ([a], p)
  end.

Definition parse_fuel (p : parser) : nat := 8 * length p + 8.

Definition Parse (tokens : list Token) : res error Expr :=
  '(e, p) ← parseOr (parse_fuel tokens) tokens;
  t ← peek p;
  if decide (tkind t = TokEOF) then Ok e
  else Err (UnexpectedAfterExpression (TokenKind_String (tkind t)) (tpos t)).
