(* ===== verification/Eval.v ===== *)
(** * Eval: evaluation of [${{ … }}] expressions, with taint and sensitivity

    internal/actions/expr/eval.go.  A value carries two flags: [Tainted] when
    it depends on the event payload, [Sensitive] when it depends on a secret.
    The maps of the context are finite maps; the event payload is the
    JSON-decoded tree. *)

From S2P Require Import Prelude GoString Expr.
Local Open Scope nat_scope.

Inductive Kind := KindString | KindBool | KindNull.

#[export] Instance Kind_eq_dec : EqDecision Kind.
Proof. solve_decision. Defined.

Record Value := MkValue {
  VKind : Kind; VS : string; VB : bool; Tainted : bool; Sensitive : bool
}.

#[export] Instance Value_eq_dec : EqDecision Value.
Proof. solve_decision. Defined.

Definition Value_String (v : Value) : string :=
  match VKind v with
  | KindBool => if VB v then "true" else "false"
  | KindNull => ""
  | KindString => VS v
  end.

Definition Truthy (v : Value) : bool :=
  match VKind v with
  | KindBool => VB v
  | KindString => bool_decide (VS v ≠ "")
  | KindNull => false
  end.

(** A JSON-decoded value ([any]).  A [float64] is given by the text [%v]
    prints for it, which is all the package reads of it; a [map[string]any] by
    its entries. *)
Inductive json :=
| JNull
| JString (s : string)
| JBool (b : bool)
| JNumber (shown : string)
| JArray (l : list json)
| JObject (m : list (string * json)).

(** [m[key]]: nil on a missing key. *)
Fixpoint json_get (m : list (string * json)) (key : string) : json :=
  match m with
  | [] => JNull
  | (k, v) :: m => if decide (k = key) then v else json_get m key
  end.

(** [fmt] prints maps with their keys sorted. *)
Fixpoint insert_key (k v : string) (l : list (string * string)) : list (string * string) :=
  match l with
  | [] => [(k, v)]
  | (k', v') :: l' =>
      if String.ltb k' k then (k', v') :: insert_key k v l' else (k, v) :: l
  end.

(** [fmt.Sprintf("%v", cur)]. *)
Fixpoint Sprint (j : json) : string :=
  match j with
  | JNull => "<nil>"
  | JString s => s
  | JBool b => if b then "true" else "false"
  | JNumber s => s
  | JArray l => "[" +:+ Join (map Sprint l) " " +:+ "]"
  | JObject m =>
      let entries := map (fun '(k, v) => (k, Sprint v)) m in
      let sorted := foldr (fun '(k, v) => insert_key k v) [] entries in
      "map[" +:+ Join (map (fun '(k, v) => k +:+ ":" +:+ v) sorted) " " +:+ "]"
  end.

Record ShithubContext := MkShithubContext {
  Event : list (string * json); RunID : string; SHA : string; GitRef : string; Actor : string
}.

Record JobStatus := MkJobStatus { Failed : bool; Cancelled : bool }.

Record Context := MkContext {
  Secrets : gmap string string;
  Vars : gmap string string;
  Env : gmap string string;
  EnvTaint : gmap string bool;
  EnvSensitive : gmap string bool;
  Shithub : ShithubContext;
  Untrusted : gset string;
  JobStatus_ : JobStatus
}.

Definition DefaultUntrusted : gset string := {["shithub.event"]}.

(** Values as the code writes them: [Value{Kind: …, S: …}]. *)
Definition VString (s : string) (tainted sensitive : bool) : Value :=
  MkValue KindString s false tainted sensitive.
Definition VBool (b tainted sensitive : bool) : Value :=
  MkValue KindBool "" b tainted sensitive.
Definition VNull (tainted : bool) : Value := MkValue KindNull "" false tainted false.

(** [m[k]] on a [map[string]bool]. *)
Definition flag (m : gmap string bool) (k : string) : bool := default false (m !! k).

Definition isUntrusted (path : list string) (untrusted : gset string) : bool :=
  if bool_decide (size untrusted = 0) then false
  else existsb (fun i => bool_decide (Join (take (S i) path) "." ∈ untrusted))
               (seq 0 (length path)).

Fixpoint evalEventPath_walk (path : list string) (cur : json) : option json :=
  match path with
  | [] => Some cur
  | key :: path =>
      match cur with
      | JObject m => evalEventPath_walk path (json_get m key)
      | _ => None
      end
  end.

Definition evalEventPath (path : list string) (event : list (string * json)) (tainted : bool)
  : Value :=
  match evalEventPath_walk path (JObject event) with
  | None => VNull tainted
  | Some JNull => VNull tainted
  | Some (JString s) => VString s tainted false
  | Some (JBool b) => VBool b tainted false
  | Some (JNumber s) => VString s tainted false
  | Some cur => VString (Sprint cur) tainted false
  end.

Definition evalShithub (rest : list string) (ctx : Context) (tainted : bool) : res error Value :=
  match rest with
  | [] => Err RequiresMember
  | f :: rest =>
      if decide (f = "run_id") then Ok (VString (RunID (Shithub ctx)) false false)
      else if decide (f = "sha") then Ok (VString (SHA (Shithub ctx)) false false)
      else if decide (f = "ref") then Ok (VString (GitRef (Shithub ctx)) false false)
      else if decide (f = "actor") then Ok (VString (Actor (Shithub ctx)) false false)
      else if decide (f = "event") then Ok (evalEventPath rest (Event (Shithub ctx)) tainted)
      else Err (UnknownShithubField f)
  end.

(** The [github] alias of [evalRef]. *)
Definition canonical (path : list string) : list string :=
  match path with
  | "github" :: rest => "shithub" :: rest
  | _ => path
  end.

Definition evalRef (r : list string) (ctx : Context) : res error Value :=
  match canonical r with
  | [] => Err EmptyReference
  | root :: rest =>
      let tainted := isUntrusted (root :: rest) (Untrusted ctx) in
      let member (f : string → res error Value) :=
        match rest with
        | [m] => f m
        | _ => Err (RequiresExactlyOneMember root)
        end in
      if decide (root = "secrets") then
        member (fun m => match Secrets ctx !! m with
                         | Some v => Ok (VString v false true)
                         | None => Err (SecretNotBound m)
                         end)
      else if decide (root = "vars") then
        member (fun m => match Vars ctx !! m with
                         | Some v => Ok (VString v false false)
                         | None => Ok (VString "" false false)
                         end)
      else if decide (root = "env") then
        member (fun m => match Env ctx !! m with
                         | Some v => Ok (VString v (flag (EnvTaint ctx) m) (flag (EnvSensitive ctx) m))
                         | None => Ok (VString "" false false)
                         end)
      else if decide (root = "shithub") then evalShithub rest ctx tainted
      else Err (UnknownNamespace root)
  end.

Definition valuesEqual (a b : Value) : bool :=
  if decide (VKind a = KindNull ∨ VKind b = KindNull) then bool_decide (VKind a = VKind b)
  else if decide (VKind a = KindBool ∧ VKind b = KindBool) then Bool.eqb (VB a) (VB b)
  else bool_decide (Value_String a = Value_String b).

(** The operators and functions, given an evaluator of the operands; [Eval]
    ties the knot. *)
Section Operators.
  Context (Eval : Expr → res error Value).

Definition strFnArity2 (args : list Expr) (name : string) (fn : string → string → bool)
  : res error Value :=
  match args with
  | [x; y] =>
      a ← Eval x;
      b ← Eval y;
      Ok (VBool (fn (Value_String a) (Value_String b)) (Tainted a || Tainted b)
            (Sensitive a || Sensitive b))
  | _ => Err (TakesTwoArguments name (length args))
  end.

Definition evalCall (name : string) (args : list Expr) (ctx : Context) : res error Value :=
  let status (b : bool) :=
    if decide (args = []) then Ok (VBool b false false) else Err (TakesNoArguments name) in
  let js := JobStatus_ ctx in
  if decide (name = "contains") then strFnArity2 args "contains" Contains
  else if decide (name = "startsWith") then strFnArity2 args "startsWith" HasPrefix
  else if decide (name = "endsWith") then strFnArity2 args "endsWith" HasSuffix
  else if decide (name = "success") then status (negb (Failed js) && negb (Cancelled js))
  else if decide (name = "failure") then status (Failed js && negb (Cancelled js))
  else if decide (name = "always") then status true
  else if decide (name = "cancelled") then status (Cancelled js)
  else Err (UnknownFunction name).

Definition evalBinary (op : string) (L R : Expr) : res error Value :=
  l ← Eval L;
  let join r :=
    MkValue (VKind r) (VS r) (VB r) (Tainted l || Tainted r) (Sensitive l || Sensitive r) in
  if decide (op = "&&") then
    if negb (Truthy l) then Ok l else r ← Eval R; Ok (join r)
  else if decide (op = "||") then
    if Truthy l then Ok l else r ← Eval R; Ok (join r)
  else
    r ← Eval R;
    let tainted := Tainted l || Tainted r in
    if decide (op = "==") then
      Ok (VBool (valuesEqual l r) tainted (Sensitive l || Sensitive r))
    else if decide (op = "!=") then
      Ok (VBool (negb (valuesEqual l r)) tainted (Sensitive l || Sensitive r))
    else Err (UnknownBinaryOperator op).

End Operators.

Fixpoint Eval (e : Expr) (ctx : Context) : res error Value :=
  match e with
  | LitString s => Ok (VString s false false)
  | LitBool b => Ok (VBool b false false)
  | LitNull => Ok (VNull false)
  | Ref path => evalRef path ctx
  | Call name args => evalCall (fun e => Eval e ctx) name args ctx
  | Unary _ X =>
      x ← Eval X ctx;
      Ok (VBool (negb (Truthy x)) (Tainted x) (Sensitive x))
  | Binary op L R => evalBinary (fun e => Eval e ctx) op L R
  end.
