(* ===== verification/ExprFacts.v ===== *)
(** * ExprFacts: correctness of the expression lexer, parser and evaluator *)

From stdpp Require Import sorting.
From S2P Require Import Prelude GoString Expr Eval.
Local Open Scope nat_scope.

(** ** Runes *)

Lemma decode_size (c : ascii) (s : string) :
  1 ≤ (DecodeRuneInString (String c s)).2 ≤ String.length (String c s).
Proof.
  unfold DecodeRuneInString.
  destruct s as [|c1 [|c2 [|c3 s]]]; repeat (case_match; simpl; try lia).
Qed.

Lemma decode_ascii (c : ascii) (s : string) :
  (byte c < 128)%Z → DecodeRuneInString (String c s) = (byte c, 1).
Proof. intros. unfold DecodeRuneInString. by rewrite bool_decide_eq_true_2. Qed.

Lemma byte_inj (c d : ascii) : byte c = byte d → c = d.
Proof.
  unfold byte. intros E%N2Z.inj. rewrite <-(ascii_N_embedding c), E.
  apply ascii_N_embedding.
Qed.

(** A rune below 128 is read from the byte that equals it. *)
Lemma decode_below (c d : ascii) (s : string) (n : nat) :
  DecodeRuneInString (String c s) = (byte d, n) → (byte d < 128)%Z → d = c ∧ n = 1.
Proof.
  destruct (decide (byte c < 128)%Z) as [Hc|Hc].
  - rewrite decode_ascii by done. intros [= E <-] _. apply byte_inj in E. done.
  - unfold DecodeRuneInString. rewrite bool_decide_eq_false_2 by lia.
    intros E Hd. exfalso. revert E.
    destruct s as [|c1 [|c2 [|c3 s]]]; unfold cont; repeat (case_match; bools; try discriminate);
      intros [= E <-]; revert E; unfold RuneError; bools; lia.
Qed.

(** ** The lexer *)

Section Lexer.
  Context `{UnicodeTables}.

Lemma lexIdent_loop_le (s : string) (k : nat) :
  k ≤ String.length s → k ≤ lexIdent_loop k s ≤ String.length s.
Proof.
  revert k. induction s as [|c s IH]; intros k Hk; simpl in *; [lia|].
  destruct k as [|k].
  - pose proof (decode_size c s) as Hs.
    destruct (DecodeRuneInString (String c s)) as [r sz]; simpl in *.
    repeat case_match; try lia. specialize (IH (pred sz)). lia.
  - specialize (IH k). lia.
Qed.

Lemma isIdentStart_not_error (r : Z) : isIdentStart r = true → r ≠ RuneError.
Proof.
  unfold isIdentStart, IsLetter. intros E ->. revert E.
  rewrite bool_decide_eq_false_2 by (vm_compute; congruence).
  rewrite letter_table_RuneError. vm_compute. discriminate.
Qed.

Lemma lexIdent_loop_pos (c : ascii) (s : string) :
  isIdentStart (DecodeRuneInString (String c s)).1 = true →
  1 ≤ lexIdent_loop 0 (String c s).
Proof.
  intros Hst. pose proof (isIdentStart_not_error _ Hst) as Hne.
  revert Hst Hne. cbn [lexIdent_loop].
  destruct (DecodeRuneInString (String c s)) as [r sz]; simpl. intros Hst Hne.
  rewrite bool_decide_eq_false_2 by done.
  assert (isIdentChar r = true) as ->.
  { unfold isIdentChar, isIdentStart in *. by destruct (IsLetter r), (IsDigit r). }
  simpl. lia.
Qed.

Lemma lexString_loop_le (s : string) (i : nat) (b : string) (n : nat) :
  lexString_loop s i = Ok (b, n) → 1 ≤ n ≤ String.length s.
Proof.
  revert b n.
  induction s as [s IH] using (well_founded_induction (well_founded_ltof _ String.length)).
  intros b n. destruct s as [|c s]; simpl; [done|].
  destruct (decide (c = _)) as [->|Hc].
  - destruct s as [|d s]; [intros [= <- <-]; simpl; lia|].
    destruct (decide (d = _)).
    + intros ([b' n'] & E & [= <- <-])%bind_Ok_inv.
      apply IH in E; unfold ltof in *; simpl in *; lia.
    + intros [= <- <-]; simpl; lia.
  - intros ([b' n'] & E & [= <- <-])%bind_Ok_inv.
    apply IH in E; unfold ltof in *; simpl in *; lia.
Qed.

Lemma lexString_le (s : string) (i n : nat) (t : Token) :
  lexString s i = Ok (t, n) →
  2 ≤ n ≤ String.length s ∧ tkind t = TokString ∧ tpos t = i.
Proof.
  unfold lexString. case_bool_decide; [done|].
  intros ([b k] & E & [= <- <-])%bind_Ok_inv. apply lexString_loop_le in E.
  destruct s as [|c s]; simpl in *; [lia|]. split_and!; [lia..|done|done].
Qed.

(** What one iteration of the loop of [Lex] delivers: it advances by at least
    one byte and stays inside the text; the token it appends is not [TokEOF],
    starts where the iteration does and, unless it is a quoted string, its
    value is the text read. *)
Definition step_ok (src : string) (i : nat) (t : option Token) (n : nat) : Prop :=
  1 ≤ n ≤ String.length src ∧
  from_option (fun t => tkind t ≠ TokEOF ∧ tkind t ≠ TokInvalid ∧ tpos t = i ∧
    (tkind t ≠ TokString → tvalue t = str_take n src)) True t.

Lemma lexIdent_step_ok (c : ascii) (s : string) (i : nat) (t : Token) (n : nat) :
  isIdentStart (DecodeRuneInString (String c s)).1 = true →
  lexIdent (String c s) i = (t, n) → step_ok (String c s) i (Some t) n.
Proof.
  intros Hst%lexIdent_loop_pos. pose proof (lexIdent_loop_le (String c s) 0) as Hle.
  unfold lexIdent. generalize dependent (lexIdent_loop 0 (String c s)).
  intros k Hk Hle. cbv zeta. repeat case_bool_decide; intros [= <- <-];
    (split; [lia|]); simpl; done.
Qed.

Lemma step_ok_one (c : ascii) (s : string) (i : nat) (k : TokenKind) (v : string) :
  k ≠ TokEOF → k ≠ TokInvalid → v = String c "" →
  step_ok (String c s) i (Some (MkToken k v i)) 1.
Proof. intros ?? ->. split; simpl; [lia | done]. Qed.

Lemma step_ok_two (c d : ascii) (s : string) (i : nat) (k : TokenKind) (v : string) :
  next_is (String c s) d = true → k ≠ TokEOF → k ≠ TokInvalid →
  v = String c (String d "") →
  step_ok (String c s) i (Some (MkToken k v i)) 2.
Proof.
  intros Hd ?? ->. destruct s as [|e s]; simpl in Hd; [done|]. bools. subst.
  split; simpl; [lia | done].
Qed.

Lemma Lex_step_ok (c : ascii) (s : string) (i : nat) (t : option Token) (n : nat) :
  Lex_step (String c s) i = Ok (t, n) → step_ok (String c s) i t n.
Proof.
  unfold Lex_step. pose proof (decode_size c s) as Hsz.
  pose proof (fun d n => decode_below c d s n) as Hb.
  pose proof (lexIdent_step_ok c s i) as Hid.
  destruct (DecodeRuneInString (String c s)) as [r sz]; cbn [fst snd] in *.
  assert (∀ d, (byte d < 128)%Z → r = byte d → d = c ∧ sz = 1) as Hd.
  { intros d ? ->. eapply Hb; done. }
  clear Hb.
  destruct (bool_decide (r = RuneError) && _); [done|].
  destruct (_ || _); [intros [= <- <-]; by split|].
  repeat match goal with
  | |- (if bool_decide (r = byte ?d) then _ else _) = _ → _ =>
      case_bool_decide as E;
      [apply Hd in E as [<- ->]; [clear Hd Hid Hsz | vm_compute; done]|clear E]
  | |- (if next_is _ ?d then _ else _) = _ → _ => destruct (next_is _ d) eqn:?
  | |- Err _ = Ok _ → _ => done
  | |- Ok _ = Ok _ → step_ok _ _ (Some _) 1 => idtac
  | |- Ok _ = Ok _ → _ =>
     intros [= <- <-]; first [by apply step_ok_one | by eapply step_ok_two]
  end.
  - intros ([t' n'] & E & [= <- <-])%bind_Ok_inv. apply lexString_le in E as (? & Hk & Hp).
    split; [lia|]. simpl. rewrite Hk. done.
  - destruct (isIdentStart r); [|done].
    destruct (lexIdent _ _) as [t' n'] eqn:E. intros [= <- <-]. by apply Hid.
Qed.

Lemma str_drop_S (i : nat) (c : ascii) (s src : string) :
  str_drop i src = String c s → str_drop (S i) src = s.
Proof.
  revert i. induction src as [|d src IH]; intros i; [by destruct i|].
  destruct i as [|i]; simpl; [by intros [= _ ->]|apply IH].
Qed.

(** A token other than the final one: it lies inside the text and, unless it
    is a quoted string, its value is what the text holds at its offset. *)
Definition token_at (src : string) (t : Token) : Prop :=
  tkind t ≠ TokEOF ∧ tkind t ≠ TokInvalid ∧ tpos t < String.length src ∧
  (tkind t ≠ TokString → ∃ n, 1 ≤ n ∧ tvalue t = str_take n (str_drop (tpos t) src)).

Lemma Lex_loop_structure (src s : string) (skip i : nat) (ts : list Token) :
  Lex_loop skip s i = Ok ts →
  str_drop i src = s → i + String.length s = String.length src → skip ≤ String.length s →
  ∃ l, ts = l ++ [MkToken TokEOF "" (String.length src)] ∧
    Forall (fun t => i + skip ≤ tpos t ∧ token_at src t) l ∧
    StronglySorted (fun a b => tpos a < tpos b) l.
Proof.
  revert skip i ts. induction s as [|c s IH]; intros skip i ts; simpl.
  - intros [= <-] _ <- _. exists []. rewrite Nat.add_0_r. split_and!; [done|constructor..].
  - destruct skip as [|k]; intros E Hdrop Hlen Hskip.
    + apply bind_Ok_inv in E as ([t n] & (Hn & Ht)%Lex_step_ok & (out & Hout & [= <-])%bind_Ok_inv).
      simpl in Hn. eapply IH in Hout as (l & -> & Hl & Hs); [|by eapply str_drop_S|lia|lia].
      assert (Forall (fun t => i + 1 ≤ tpos t ∧ token_at src t) l) as Hl1
        by (eapply Forall_impl; [exact Hl|naive_solver lia]).
      exists (option_list t ++ l). rewrite app_assoc. split; [done|].
      destruct t as [t|]; simpl.
      * destruct Ht as (? & ? & ? & Hv). subst i.
        assert (token_at src t) as Ht.
        { split_and!; [done..|lia|]. intros Hk. exists n. rewrite Hdrop. split; [lia|auto]. }
        split; constructor; try (eapply Forall_impl; [exact Hl1|]); naive_solver lia.
      * split; [|done]. eapply Forall_impl; [exact Hl1|naive_solver lia].
    + eapply IH in E as (l & -> & Hl & Hs); [|by eapply str_drop_S|lia|lia].
      exists l. split_and!; [done| |done]. eapply Forall_impl; [exact Hl|naive_solver lia].
Qed.

(** The lexer's output contract, which the parser relies on: the tokens are
    in strictly increasing source order, each one (quoted strings apart) carries
    exactly the text found at its offset, none of them is [TokEOF] or
    [TokInvalid], and exactly one [TokEOF], at the end of the text, closes the
    list. *)
Theorem Lex_structure (src : string) (ts : list Token) :
  Lex src = Ok ts →
  ∃ l, ts = l ++ [MkToken TokEOF "" (String.length src)] ∧
    Forall (token_at src) l ∧ StronglySorted (fun a b => tpos a < tpos b) l.
Proof.
  intros E. eapply Lex_loop_structure in E as (l & -> & Hl & Hs); [|done|done|lia].
  exists l. split_and!; [done| |done]. eapply Forall_impl; [exact Hl|naive_solver].
Qed.

(** ** The parser terminates and stays inside the token list *)

Definition ends_eof (p : parser) : Prop :=
  from_option (fun t => tkind t = TokEOF) False (last p).

Lemma Lex_ends_eof (src : string) (ts : list Token) : Lex src = Ok ts → ends_eof ts.
Proof.
  intros E. eapply Lex_loop_structure in E as (l & -> & _); [|done|done|lia].
  unfold ends_eof. by rewrite last_snoc.
Qed.

End Lexer.

Lemma Lex_structure_witness :
  ∃ l, [MkToken TokNot "!" 0; MkToken TokIdent "a" 1; MkToken TokEq "==" 2;
        MkToken TokString "it's" 5; MkToken TokEOF "" 12] =
       l ++ [MkToken TokEOF "" 12] ∧ Forall (token_at "!a== 'it''s'") l ∧
       StronglySorted (fun a b => tpos a < tpos b) l.
Proof.
  exact (@Lex_structure latin1_tables "!a== 'it''s'" _ ltac:(vm_compute; reflexivity)).
Defined.

(** [good n r]: a parser result that is not a panic and not out of fuel, and
    leaves at most [n] tokens, the last of them [TokEOF]. *)
Definition good {A} (n : nat) (r : res error (A * parser)) : Prop :=
  match r with
  | Ok (_, p) => length p ≤ n ∧ ends_eof p
  | Err e => e ≠ OutOfFuel ∧ e ≠ IndexOutOfRange
  end.

Lemma good_bind {A B} (n m : nat) (r : res error (A * parser))
    (k : A * parser → res error (B * parser)) :
  good n r → (∀ a p, length p ≤ n → ends_eof p → good m (k (a, p))) → good m (r ≫= k).
Proof. destruct r as [[a p]|e]; simpl; naive_solver. Qed.

Lemma good_weaken {A} (n m : nat) (r : res error (A * parser)) :
  good n r → n ≤ m → good m r.
Proof. destruct r as [[a p]|e]; simpl; naive_solver lia. Qed.

Lemma ends_eof_cons (t : Token) (p : parser) :
  ends_eof (t :: p) → tkind t ≠ TokEOF → ends_eof p ∧ p ≠ [].
Proof. unfold ends_eof. destruct p; [done|]. intros; split; done. Qed.

Lemma ends_eof_nil : ¬ ends_eof [].
Proof. intros H. exact H. Qed.

Lemma pathLoop_good (p : parser) : ends_eof p → good (length p) (pathLoop p).
Proof.
  revert p. fix IH 1. intros [|t p] Hp; simpl; [by destruct ends_eof_nil|].
  case_decide as Ht; [|done].
  apply ends_eof_cons in Hp as [Hp Hne]; [|congruence].
  destruct p as [|next p]; [done|]. case_decide as Hn; [|done].
  apply ends_eof_cons in Hp as [Hp _]; [|congruence].
  eapply good_bind; [by apply IH|]. simpl. intros; lia || (split; [lia|done]).
Qed.
(** The fuel each function of the parser needs on [p]: eight units for every
    token, and one for every call that consumes none. *)
Record parser_good (f : nat) : Prop := {
  or_good p : ends_eof p → 8 * length p + 7 ≤ f → good (pred (length p)) (parseOr f p);
  orLoop_good e p : ends_eof p → 8 * length p + 1 ≤ f → good (length p) (orLoop f e p);
  and_good p : ends_eof p → 8 * length p + 6 ≤ f → good (pred (length p)) (parseAnd f p);
  andLoop_good e p : ends_eof p → 8 * length p + 1 ≤ f → good (length p) (andLoop f e p);
  eq_good p : ends_eof p → 8 * length p + 5 ≤ f → good (pred (length p)) (parseEquality f p);
  eqLoop_good e p : ends_eof p → 8 * length p + 1 ≤ f → good (length p) (equalityLoop f e p);
  unary_good p : ends_eof p → 8 * length p + 4 ≤ f → good (pred (length p)) (parseUnary f p);
  primary_good p : ends_eof p → 8 * length p + 3 ≤ f → good (pred (length p)) (parsePrimary f p);
  refOrCall_good t p : tkind t = TokIdent → ends_eof (t :: p) →
    8 * length (t :: p) + 2 ≤ f → good (length p) (parseRefOrCall f (t :: p));
  args_good p : ends_eof p → 8 * length p + 8 ≤ f → good (pred (length p)) (argsLoop f p)
}.

(** Reads the next token of [p], of which [ends_eof p] is known. *)
Ltac next_token p t :=
  match goal with H : ends_eof p |- _ =>
    destruct p as [|t p]; [by destruct ends_eof_nil|]; cbn [peek advance mbind res_bind] in *
  end.

(** Steps over a token of another kind than [TokEOF]. *)
Ltac eat t :=
  match goal with H : ends_eof (t :: _) |- _ =>
    apply ends_eof_cons in H as [H ?]; [|intuition congruence]
  end.

Ltac fuel := simpl in *; lia.

Lemma refOrCall_step (f : nat) (t : Token) (p : parser) :
  parser_good f → tkind t = TokIdent → ends_eof (t :: p) →
  8 * length (t :: p) + 2 ≤ S f → good (length p) (parseRefOrCall (S f) (t :: p)).
Proof.
  intros IH Ht Hp Hf. cbn [parseRefOrCall mbind res_bind advance]. eat t.
  next_token p t'. case_decide.
  - eat t'. next_token p t''.
    assert (good (length (t'' :: p))
      (if decide (tkind t'' = TokRParen) then Ok ([], t'' :: p) else argsLoop f (t'' :: p))) as G.
    { case_decide; [by split|]. eapply good_weaken; [apply (args_good _ IH)|]; [done|fuel..]. }
    eapply good_bind; [exact G|clear G].
    intros args p' Hl Hp'. next_token p' c. case_decide; [|done]. eat c. split; [fuel|done].
  - eapply good_bind; [by apply pathLoop_good|]. intros path p' Hl Hp'. by split.
Qed.

Lemma parser_good_all (f : nat) : parser_good f.
Proof.
  induction f as [|f IH]; [split; intros; lia|]. split.
  - intros p Hp Hf. next_token p t. simpl.
    eapply good_bind; [apply (and_good _ IH); [done|fuel]|]. intros e p' Hl Hp'.
    eapply good_weaken; [apply (orLoop_good _ IH)|]; [done|fuel..].
  - intros e p Hp Hf. next_token p t. simpl. case_decide; [|simpl; auto]. eat t.
    next_token p t'. eapply good_bind; [apply (and_good _ IH); [done|fuel]|]. intros r p' Hl Hp'.
    eapply good_weaken; [apply (orLoop_good _ IH)|]; [done|fuel..].
  - intros p Hp Hf. next_token p t. simpl.
    eapply good_bind; [apply (eq_good _ IH); [done|fuel]|]. intros e p' Hl Hp'.
    eapply good_weaken; [apply (andLoop_good _ IH)|]; [done|fuel..].
  - intros e p Hp Hf. next_token p t. simpl. case_decide; [|simpl; auto]. eat t.
    next_token p t'. eapply good_bind; [apply (eq_good _ IH); [done|fuel]|]. intros r p' Hl Hp'.
    eapply good_weaken; [apply (andLoop_good _ IH)|]; [done|fuel..].
  - intros p Hp Hf. next_token p t. simpl.
    eapply good_bind; [apply (unary_good _ IH); [done|fuel]|]. intros e p' Hl Hp'.
    eapply good_weaken; [apply (eqLoop_good _ IH)|]; [done|fuel..].
  - intros e p Hp Hf. next_token p t. simpl. case_decide; [|simpl; auto]. eat t.
    next_token p t'. eapply good_bind; [apply (unary_good _ IH); [done|fuel]|]. intros r p' Hl Hp'.
    eapply good_weaken; [apply (eqLoop_good _ IH)|]; [done|fuel..].
  - intros p Hp Hf. next_token p t. simpl. case_decide.
    + eat t. next_token p t'. eapply good_bind; [apply (unary_good _ IH); [done|fuel]|].
      intros r p' Hl Hp'. split; [fuel|done].
    + apply (primary_good _ IH (t :: p)); [done|fuel].
  - intros p Hp Hf. next_token p t. simpl.
    destruct (tkind t) eqn:Ht; try done; try (eat t; split; [fuel|done]).
    + apply (refOrCall_good _ IH); [done..|fuel].
    + eat t. next_token p t'. eapply good_bind; [apply (or_good _ IH); [done|fuel]|].
      intros r p' Hl Hp'. next_token p' t''. case_decide; [|done]. eat t''. split; [fuel|done].
  - intros t p. by apply refOrCall_step.
  - intros p Hp Hf. next_token p t. simpl.
    eapply good_bind; [apply (or_good _ IH); [done|fuel]|]. intros r p' Hl Hp'.
    next_token p' t'. case_decide; [|simpl in *; split; [lia|done]].
    eat t'. next_token p' t''. eapply good_bind; [apply (args_good _ IH); [done|fuel]|].
    intros args p'' Hl' Hp''. split; [fuel|done].
Qed.

Lemma Parse_no_panic `{UnicodeTables} (src : string) (ts : list Token) :
  Lex src = Ok ts → Parse ts ≠ Err IndexOutOfRange ∧ Parse ts ≠ Err OutOfFuel.
Proof.
  intros Hts%Lex_ends_eof. unfold Parse, parse_fuel.
  pose proof (or_good _ (parser_good_all (8 * length ts + 8)) ts Hts ltac:(lia)) as G.
  destruct (parseOr _ _) as [[e p]|e]; simpl in *; [|naive_solver].
  destruct G as [_ Hp]. next_token p t. by case_decide.
Qed.

(** C40: The parser is total on the lexer's output: whatever the expression
    text, [Parse] neither indexes past the token list (the Go run-time panic) nor
    needs more than [parse_fuel] nested calls; it returns a tree or one of its
    own syntax errors. *)
Theorem Parse_total `{UnicodeTables} (src : string) (ts : list Token) :
  Lex src = Ok ts → Parse ts ≠ Err IndexOutOfRange ∧ Parse ts ≠ Err OutOfFuel.
Proof. apply Parse_no_panic. Qed.

Lemma Parse_total_witness :
  ∃ ts, @Lex latin1_tables "f(a." = Ok ts ∧
    Parse ts ≠ Err IndexOutOfRange ∧ Parse ts ≠ Err OutOfFuel.
Proof.
  eexists. split; [vm_compute; reflexivity|].
  exact (@Parse_total latin1_tables "f(a." _ ltac:(vm_compute; reflexivity)).
Defined.
