(* ===== verification/ExprPrint.v ===== *)
(** * ExprPrint: printing expressions, and reading them back

    A printer of expression trees with the fewest parentheses the grammar of
    parse.go allows (precedence [||] < [&&] < [==] [!=] < [!]; the binary operators
    associate to the left), and the proof that lexing and parsing the printed
    text gives the tree back. *)

From S2P Require Import Prelude GoString Expr ExprFacts.
Local Open Scope nat_scope.

(** ** The printer *)

Definition piece : Type := TokenKind * string.

Definition op_kind (op : string) : TokenKind :=
  if bool_decide (op = "||") then TokOr
  else if bool_decide (op = "&&") then TokAnd
  else if bool_decide (op = "==") then TokEq
  else if bool_decide (op = "!=") then TokNe
  else TokInvalid.

Definition op_level (op : string) : nat :=
  match op_kind op with TokOr => 0 | TokAnd => 1 | _ => 2 end.

Fixpoint commas (l : list (list piece)) : list piece :=
  match l with
  | [] => []
  | [x] => x
  | x :: l => x ++ (TokComma, ",") :: commas l
  end.

Definition paren (b : bool) (ps : list piece) : list piece :=
  if b then (TokLParen, "(") :: ps ++ [(TokRParen, ")")] else ps.

Definition print_path (path : list string) : list piece :=
  path ≫= (fun x => [(TokDot, "."); (TokIdent, x)]).

Fixpoint print (n : nat) (e : Expr) : list piece :=
  match e with
  | LitString v => [(TokString, v)]
  | LitBool b => [(TokBool, if b then "true" else "false")]
  | LitNull => [(TokNull, "null")]
  | Ref [] => []
  | Ref (x :: path) => (TokIdent, x) :: print_path path
  | Call f args =>
      (TokIdent, f) :: (TokLParen, "(") :: commas (map (print 0) args) ++ [(TokRParen, ")")]
  | Unary _ X => (TokNot, "!") :: print 3 X
  | Binary op L R =>
      let m := op_level op in
      paren (bool_decide (m < n)) (print m L ++ (op_kind op, op) :: print (S m) R)
  end.

(** Doubling of the quotes of a string literal. *)
Fixpoint quote (v : string) : string :=
  match v with
  | "" => "'"
  | String c v => if decide (c = "'"%char) then String "'" (String "'" (quote v)) else String c (quote v)
  end.

Definition piece_text (p : piece) : string :=
  match p.1 with TokString => String "'" (quote p.2) | _ => p.2 end.

Fixpoint text (ps : list piece) : string :=
  match ps with [] => "" | p :: ps => piece_text p +:+ String " " (text ps) end.

Definition alpha (c : ascii) : bool :=
  between 65 (byte c) 90 || between 97 (byte c) 122 || bool_decide (byte c = 95%Z).

Definition alnum (c : ascii) : bool := alpha c || between 48 (byte c) 57.

Definition ident_ok (s : string) : bool :=
  match s with "" => false | String c s => alpha c && str_forallb alnum s end &&
  bool_decide (s ∉ ["true"; "false"; "null"]).

(** The trees the grammar can express, with ASCII identifiers. *)
Fixpoint expressible (e : Expr) : bool :=
  match e with
  | LitString _ | LitBool _ | LitNull => true
  | Ref path => bool_decide (path ≠ []) && forallb ident_ok path
  | Call f args => ident_ok f && forallb expressible args
  | Unary op X => bool_decide (op = "!") && expressible X
  | Binary op L R => bool_decide (op ∈ ["||"; "&&"; "=="; "!="]) && expressible L && expressible R
  end.

Definition piece_ok (p : piece) : bool :=
  match p with
  | (TokString, _) => true
  | (TokIdent, v) => ident_ok v
  | (TokBool, v) => bool_decide (v = "true" ∨ v = "false")
  | (TokInvalid, _) | (TokEOF, _) => false
  | (k, v) => bool_decide (v = TokenKind_String k)
  end.

Lemma Expr_rect' (P : Expr → Prop)
    (Hs : ∀ v, P (LitString v)) (Hb : ∀ b, P (LitBool b)) (Hn : P LitNull)
    (Hr : ∀ path, P (Ref path)) (Hc : ∀ f args, Forall P args → P (Call f args))
    (Hu : ∀ op X, P X → P (Unary op X))
    (Hbin : ∀ op L R, P L → P R → P (Binary op L R)) (e : Expr) : P e.
Proof.
  revert e. fix IH 1. intros [v|b| |path|f args|op X|op L R].
  - apply Hs.
  - apply Hb.
  - apply Hn.
  - apply Hr.
  - apply Hc. induction args as [|a args IHa]; constructor; [apply IH|exact IHa].
  - apply Hu, IH.
  - apply Hbin; apply IH.
Qed.

(** ** Lexing the printed text *)

Section Lexing.
  Context `{UnicodeTables}.

Lemma alpha_lex (c : ascii) (s : string) (i : nat) :
  alpha c = true → Lex_step (String c s) i = (let '(t, n) := lexIdent (String c s) i in Ok (Some t, n)).
Proof.
  unfold Lex_step. intros Hc.
  assert (∃ r, DecodeRuneInString (String c s) = (r, 1)) as [r E].
  { destruct c as [[] [] [] [] [] [] [] []]; try discriminate Hc; by eexists. }
  rewrite E. revert E. generalize (lexIdent (String c s) i) as x. intros x.
  destruct c as [[] [] [] [] [] [] [] []]; try discriminate Hc; intros [= <-]; reflexivity.
Qed.

Lemma alnum_ident (c : ascii) (s : string) :
  alnum c = true →
  ∃ r, DecodeRuneInString (String c s) = (r, 1) ∧ r ≠ RuneError ∧ isIdentChar r = true.
Proof.
  intros Hc. exists (byte c).
  destruct c as [[] [] [] [] [] [] [] []]; try discriminate Hc; done.
Qed.

Lemma lexIdent_loop_app (s rest : string) :
  str_forallb alnum s = true → lexIdent_loop 0 (s +:+ String " " rest) = String.length s.
Proof.
  induction s as [|c s IH]; cbn [str_forallb String.append]; intros Hs; [done|].
  bools. destruct (alnum_ident c (s +:+ String " " rest)) as (r & E & Hr & Hc); [done|].
  change (String.append (String c s) (String " " rest)) with (String c (s +:+ String " " rest)).
  cbn [lexIdent_loop]. rewrite E, bool_decide_eq_false_2, Hc by done. simpl. by rewrite IH.
Qed.

Lemma lex_ident (s rest : string) (i : nat) :
  ident_ok s = true →
  Lex_step (s +:+ String " " rest) i = Ok (Some (MkToken TokIdent s i), String.length s).
Proof.
  unfold ident_ok. intros [Hs Hk]%andb_true_iff. bools.
  destruct s as [|c s]; [done|]. bools.
  change (String c s +:+ String " " rest) with (String c (s +:+ String " " rest)) at 1.
  rewrite alpha_lex by done.
  change (String c (s +:+ String " " rest)) with (String c s +:+ String " " rest).
  unfold lexIdent. rewrite lexIdent_loop_app, str_take_app.
  - rewrite !bool_decide_eq_false_2; [done|set_solver..].
  - simpl. unfold alnum at 1. by rewrite H0, H1.
Qed.

Lemma lexString_loop_quote (v rest : string) (i : nat) :
  lexString_loop (quote v +:+ String " " rest) i = Ok (v, String.length (quote v)).
Proof.
  induction v as [|c v IH]; [done|]. cbn [quote]. destruct (decide (c = _)) as [->|Hc].
  - change (lexString_loop _ i) with
      ('(b, n) ← lexString_loop (quote v +:+ String " " rest) i; Ok (String "'" b, S (S n))).
    by rewrite IH.
  - change (lexString_loop _ i) with
      (lexString_loop (String c (quote v +:+ String " " rest)) i).
    cbn [lexString_loop]. rewrite decide_False by done. by rewrite IH.
Qed.

Lemma lex_piece (p : piece) (rest : string) (i : nat) :
  piece_ok p = true →
  Lex_step (piece_text p +:+ String " " rest) i =
    Ok (Some (MkToken p.1 p.2 i), String.length (piece_text p)).
Proof.
  destruct p as [k v].
  destruct k; cbn [piece_ok piece_text fst snd]; intros Hp; bools; subst;
    try done; try reflexivity; try (by apply lex_ident).
  - change (String.append (String "'" (quote v)) (String " " rest))
      with (String "'" (quote v +:+ String " " rest)).
    transitivity ('(t, n) ← lexString (String "'" (quote v +:+ String " " rest)) i;
                  Ok (E := error) (Some t, n)); [reflexivity|].
    unfold lexString. rewrite bool_decide_eq_false_2.
    + cbn [str_drop]. rewrite lexString_loop_quote. done.
    + destruct v; simpl; [lia|]. case_decide; simpl; lia.
  - by destruct Hp as [-> | ->].
Qed.

Definition kv (t : Token) : piece := (tkind t, tvalue t).

Lemma Lex_loop_skip (u s : string) (i : nat) :
  Lex_loop (String.length u) (u +:+ s) i = Lex_loop 0 s (i + String.length u).
Proof.
  revert i. induction u as [|c u IH]; intros i; simpl; [by rewrite Nat.add_0_r|].
  change (String.append (String c u) s) with (String c (u +:+ s)).
  cbn [Lex_loop]. rewrite IH. f_equal. lia.
Qed.

Lemma Lex_loop_space (s : string) (i : nat) :
  Lex_loop 0 (String " " s) i = Lex_loop 0 s (S i).
Proof.
  cbn [Lex_loop]. change (Lex_step (String " " s) i) with (Ok (E := error) (@None Token, 1)).
  simpl. by destruct (Lex_loop 0 s (S i)).
Qed.

Lemma piece_text_pos (p : piece) : piece_ok p = true → 1 ≤ String.length (piece_text p).
Proof.
  destruct p as [k v]. destruct k; simpl; intros Hp; bools; subst; simpl; try lia.
  - destruct v; [done|simpl; lia].
  - destruct Hp as [-> | ->]; simpl; lia.
Qed.

Lemma Lex_loop_text (ps : list piece) (i : nat) :
  Forall (fun p => piece_ok p = true) ps →
  ∃ ts n, Lex_loop 0 (text ps) i = Ok (ts ++ [MkToken TokEOF "" n]) ∧ kv <$> ts = ps.
Proof.
  revert i. induction ps as [|p ps IH]; intros i Hps; [by exists [], i|].
  apply Forall_cons in Hps as [Hp Hps]. cbn [text].
  set (rest := String " " (text ps)). pose proof (lex_piece p (text ps) i Hp) as Hlex.
  pose proof (piece_text_pos p Hp) as Hpos. fold rest in Hlex.
  destruct (IH (S (i + String.length (piece_text p))) Hps) as (ts & n & E & Hkv).
  destruct (piece_text p) as [|c u] eqn:Ep; [simpl in *; lia|].
  change (String.append (String c u) rest) with (String c (u +:+ rest)) in *.
  cbn [Lex_loop]. rewrite Hlex. cbn [mbind res_bind String.length pred].
  rewrite Lex_loop_skip. unfold rest. rewrite Lex_loop_space.
  replace (S (S i + String.length u)) with (S (i + String.length (String c u))) by (simpl; lia).
  rewrite E. exists (MkToken p.1 p.2 i :: ts), n. split; [done|].
  rewrite fmap_cons, Hkv. by destruct p.
Qed.

End Lexing.

(** ** The parser without its fuel *)

(** [stable x y]: either [x] ran out of fuel or [y] is the same result. *)
Definition stable {A} (x y : res error A) : Prop := x = Err OutOfFuel ∨ x = y.

Lemma stable_refl {A} (x : res error A) : stable x x.
Proof. by right. Qed.

Lemma stable_bind {A B} (x y : res error A) (f g : A → res error B) :
  stable x y → (∀ a, stable (f a) (g a)) → stable (x ≫= f) (y ≫= g).
Proof.
  intros [-> | <-] Hfg; [by left|]. destruct x as [a|e]; [apply Hfg|by right].
Qed.

Record parser_stable (f g : nat) : Prop := {
  or_st p : stable (parseOr f p) (parseOr g p);
  orLoop_st e p : stable (orLoop f e p) (orLoop g e p);
  and_st p : stable (parseAnd f p) (parseAnd g p);
  andLoop_st e p : stable (andLoop f e p) (andLoop g e p);
  eq_st p : stable (parseEquality f p) (parseEquality g p);
  eqLoop_st e p : stable (equalityLoop f e p) (equalityLoop g e p);
  unary_st p : stable (parseUnary f p) (parseUnary g p);
  primary_st p : stable (parsePrimary f p) (parsePrimary g p);
  refOrCall_st p : stable (parseRefOrCall f p) (parseRefOrCall g p);
  args_st p : stable (argsLoop f p) (argsLoop g p)
}.

Create HintDb stable.
#[local] Hint Resolve or_st orLoop_st and_st andLoop_st eq_st eqLoop_st unary_st primary_st
  refOrCall_st args_st stable_refl : stable.

(** More fuel never changes a result that is not [OutOfFuel]. *)
Lemma parser_stable_le (f g : nat) : f ≤ g → parser_stable f g.
Proof.
  revert g. induction f as [|f IH]; intros g Hg; [split; by left|].
  destruct g as [|g]; [lia|]. specialize (IH g ltac:(lia)).
  split; intros *; cbn -[mbind];
    repeat first
      [ apply stable_bind; [|intros ?]
      | case_decide
      | case_match
      | solve [eauto with stable] ].
Qed.

(** [runs X p e q]: with enough fuel, [X] reads [e] off [p] and leaves [q]. *)
Definition runs {A} (X : nat → parser → res error (A * parser)) (p : parser) (e : A)
  (q : parser) : Prop :=
  ∃ n, ∀ m, n ≤ m → X m p = Ok (e, q).

(** The four grammar levels above the primaries, and the loops over the
    operators of the first three. *)
Definition parse_at (n : nat) : nat → parser → res error (Expr * parser) :=
  match n with 0 => parseOr | 1 => parseAnd | 2 => parseEquality | _ => parseUnary end.

Definition loop_at (n : nat) (e : Expr) : nat → parser → res error (Expr * parser) :=
  fun f => match n with 0 => orLoop f e | 1 => andLoop f e | _ => equalityLoop f e end.

Definition op_at (n : nat) (k : TokenKind) : bool :=
  match n with
  | 0 => bool_decide (k = TokOr)
  | 1 => bool_decide (k = TokAnd)
  | 2 => bool_decide (k = TokEq ∨ k = TokNe)
  | _ => false
  end.

Lemma runs_S {A} (X : nat → parser → res error (A * parser)) p e q :
  (∃ n, ∀ m, n ≤ m → X (S m) p = Ok (e, q)) → runs X p e q.
Proof.
  intros [n Hn]. exists (S n). intros [|m] Hm; [lia|]. apply Hn. lia.
Qed.

Lemma runs_level (n : nat) p e1 q1 e q :
  n < 3 → runs (parse_at (S n)) p e1 q1 → runs (loop_at n e1) q1 e q → runs (parse_at n) p e q.
Proof.
  intros Hn [f1 H1] [f2 H2]. apply runs_S. exists (f1 + f2). intros m Hm.
  destruct n as [|[|[|n]]]; [| | |lia]; cbn [parse_at loop_at parseOr parseAnd parseEquality] in *;
    rewrite H1 by lia; cbn [mbind res_bind]; by rewrite H2 by lia.
Qed.

Lemma runs_loop_stop (n : nat) e t p :
  n < 3 → op_at n (tkind t) = false → runs (loop_at n e) (t :: p) e (t :: p).
Proof.
  intros Hn Ht. apply runs_S. exists 0. intros m _.
  destruct n as [|[|[|n]]]; [| | |lia]; cbn in *; bools; by rewrite decide_False.
Qed.

Lemma runs_loop_go (n : nat) l t p r q e q' :
  n < 3 → op_at n (tkind t) = true → runs (parse_at (S n)) p r q →
  runs (loop_at n (Binary (tvalue t) l r)) q e q' → runs (loop_at n l) (t :: p) e q'.
Proof.
  intros Hn Ht [f1 H1] [f2 H2]. apply runs_S. exists (f1 + f2). intros m Hm.
  destruct n as [|[|[|n]]]; [| | |lia]; cbn [op_at parse_at loop_at orLoop andLoop equalityLoop
    peek advance mbind res_bind] in *; bools; rewrite decide_True by done;
    rewrite H1 by lia; cbn [mbind res_bind]; by rewrite H2 by lia.
Qed.

Lemma runs_not t p e q :
  tkind t = TokNot → runs parseUnary p e q → runs parseUnary (t :: p) (Unary "!" e) q.
Proof.
  intros Ht [f H]. apply runs_S. exists f. intros m Hm.
  cbn [parseUnary peek advance mbind res_bind]. rewrite decide_True by done. by rewrite H.
Qed.

Lemma runs_primary t p e q :
  tkind t ≠ TokNot → runs parsePrimary (t :: p) e q → runs parseUnary (t :: p) e q.
Proof.
  intros Ht [f H]. apply runs_S. exists f. intros m Hm.
  cbn [parseUnary peek mbind res_bind]. rewrite decide_False by done. by rewrite H.
Qed.

(** What may follow an operand printed at level [n]: not an operator that
    binds more tightly, and nothing that would extend a reference. *)
Definition follow (n : nat) (p : parser) : Prop :=
  match p with
  | [] => False
  | t :: _ => tkind t ≠ TokDot ∧ tkind t ≠ TokLParen ∧ ∀ m, n < m → op_at m (tkind t) = false
  end.

Definition continue (n : nat) (e : Expr) (p : parser) (e' : Expr) (q : parser) : Prop :=
  if decide (n < 3) then runs (loop_at n e) p e' q else e' = e ∧ q = p.

Lemma continue_stop (n m : nat) e p : n < m → follow n p → continue m e p e p.
Proof.
  intros Hlt Hp. unfold continue. destruct p as [|t p]; [done|].
  case_decide; [|done]. apply runs_loop_stop; [done|]. by apply Hp.
Qed.

Lemma op_at_closing (n : nat) (t : Token) :
  tkind t = TokRParen ∨ tkind t = TokComma → op_at n (tkind t) = false.
Proof. intros [-> | ->]; by destruct n as [|[|[|n]]]. Qed.

Lemma follow_closing (n : nat) (t : Token) (p : parser) :
  tkind t = TokRParen ∨ tkind t = TokComma → follow n (t :: p).
Proof.
  intros Ht. split_and!; [destruct Ht; congruence..|]. intros m _. by apply op_at_closing.
Qed.

Lemma continue_closing (n : nat) (e : Expr) (t : Token) (p : parser) :
  tkind t = TokRParen ∨ tkind t = TokComma → continue n e (t :: p) e (t :: p).
Proof.
  intros Ht. unfold continue. case_decide; [|done].
  apply runs_loop_stop; [done|]. by apply op_at_closing.
Qed.

Lemma descend_levels (k n : nat) p e q e' q' :
  n + k ≤ 3 → runs (parse_at (n + k)) p e q → follow n q →
  (0 < k → continue n e q e' q') → (k = 0 → e' = e ∧ q' = q) → runs (parse_at n) p e' q'.
Proof.
  revert n e' q'. induction k as [|k IH]; intros n e' q' Hk Hp Hq Hc H0.
  - rewrite Nat.add_0_r in Hp. by destruct (H0 eq_refl) as [-> ->].
  - specialize (Hc ltac:(lia)). unfold continue in Hc. rewrite decide_True in Hc by lia.
    eapply runs_level; [lia| |exact Hc].
    apply IH; [lia|by rewrite Nat.add_succ_comm| | |done].
    + destruct q as [|t q]; [done|]. destruct Hq as (?&?&Hm). split_and!; [done..|].
      intros m ?. apply Hm. lia.
    + intros _. eapply continue_stop; [|done]. lia.
Qed.

(** ** Reading back each form *)

Lemma kv_cons_inv ts k v ps :
  kv <$> ts = (k, v) :: ps →
  ∃ t ts', ts = t :: ts' ∧ tkind t = k ∧ tvalue t = v ∧ kv <$> ts' = ps.
Proof. destruct ts as [|t ts]; [done|]. intros [= <- <- <-]. eexists _, _. done. Qed.

Lemma kv_app_inv ts ps qs :
  kv <$> ts = ps ++ qs → ∃ ts1 ts2, ts = ts1 ++ ts2 ∧ kv <$> ts1 = ps ∧ kv <$> ts2 = qs.
Proof. intros (l1 & l2 & H1 & H2 & ->)%fmap_app_inv. by exists l1, l2. Qed.

Lemma kv_nil_inv ts : kv <$> ts = [] → ts = [].
Proof. by destruct ts. Qed.

(** Splits the equations [kv <$> ts = …] of the context. *)
Ltac split_kv :=
  repeat match goal with
  | H : kv <$> _ = _ :: _ |- _ => apply kv_cons_inv in H as (? & ? & -> & ? & ? & H)
  | H : kv <$> _ = _ ++ _ |- _ => apply kv_app_inv in H as (? & ? & -> & ? & H)
  | H : kv <$> _ = [] |- _ => apply kv_nil_inv in H as ->
  end.

Lemma follow_le (n m : nat) (p : parser) : n ≤ m → follow n p → follow m p.
Proof.
  intros Hle. destruct p as [|t p]; [done|]. intros (?&?&Hm). split_and!; [done..|].
  intros k ?. apply Hm. lia.
Qed.

Definition reads (e : Expr) : Prop :=
  ∀ n ts rest e' q, n ≤ 3 → kv <$> ts = print n e → follow n rest → continue n e rest e' q →
  runs (parse_at n) (ts ++ rest) e' q.

Lemma reads_unary (e : Expr) (n : nat) ts rest e' q :
  runs parseUnary (ts ++ rest) e rest → n ≤ 3 → follow n rest → continue n e rest e' q →
  runs (parse_at n) (ts ++ rest) e' q.
Proof.
  intros Hu Hn Hf Hc. apply (descend_levels (3 - n) n _ e rest); [lia| |done..|].
  - by replace (n + (3 - n)) with 3 by lia.
  - intros ?. unfold continue in Hc. by rewrite decide_False in Hc by lia.
Qed.

(** A primary that is one token. *)
Lemma runs_token (t : Token) (rest : parser) (e : Expr) :
  (∀ f, parsePrimary (S f) (t :: rest) = Ok (e, rest)) → tkind t ≠ TokNot →
  runs parseUnary (t :: rest) e rest.
Proof.
  intros He Ht. apply runs_primary; [done|]. apply runs_S. exists 0. intros m _. apply He.
Qed.

Lemma runs_paren (t c : Token) (p rest : parser) (e : Expr) :
  tkind t = TokLParen → tkind c = TokRParen → runs parseOr p e (c :: rest) →
  runs parseUnary (t :: p) e rest.
Proof.
  intros Ht Hc [f H]. apply runs_primary; [congruence|]. apply runs_S. exists f. intros m Hm.
  cbn [parsePrimary peek advance mbind res_bind]. rewrite Ht, H by lia.
  cbn. by rewrite decide_True.
Qed.

Lemma pathLoop_print (path : list string) (ts : list Token) (rest : parser) :
  kv <$> ts = print_path path → follow 3 rest → pathLoop (ts ++ rest) = Ok (path, rest).
Proof.
  revert ts. induction path as [|x path IH]; intros ts Hts Hf; cbn in Hts; split_kv.
  - destruct rest as [|t rest]; [done|]. simpl. by rewrite decide_False by apply Hf.
  - simpl. rewrite !decide_True by done. rewrite IH by done. by subst.
Qed.

Lemma reads_ref (x : string) (path : list string) : reads (Ref (x :: path)).
Proof.
  intros n ts rest e' q Hn Hts Hf. apply reads_unary; [|done..]. simpl in Hts. split_kv.
  assert (follow 3 rest) as Hf3 by (eapply follow_le; [|done]; lia).
  rewrite <-app_comm_cons.
  apply runs_primary; [congruence|]. apply runs_S. exists 1. intros [|m] Hm; [lia|].
  cbn [parsePrimary peek mbind res_bind]. rewrite H.
  cbn [parseRefOrCall advance mbind res_bind].
  rewrite (pathLoop_print path) by done. subst.
  destruct (x1 ++ rest) as [|t l] eqn:E; [by destruct x1, rest|]. cbn [peek mbind res_bind].
  rewrite decide_False; [done|].
  destruct x1 as [|t1 x1]; simpl in E; simplify_eq; [apply Hf|].
  destruct path; [done|]. cbn in Hts. split_kv. simplify_eq. congruence.
Qed.

(** The argument list of a call, up to its closing parenthesis. *)
Lemma runs_args (args : list Expr) (ts : list Token) (c : Token) (rest : parser) :
  Forall reads args → args ≠ [] → kv <$> ts = commas (map (print 0) args) →
  tkind c = TokRParen → runs argsLoop (ts ++ c :: rest) args (c :: rest).
Proof.
  revert ts. induction args as [|a args IH]; [done|]. intros ts Hr _ Hts Hc.
  apply Forall_cons in Hr as [Ha Hr].
  assert (∀ ts t p, kv <$> ts = print 0 a → tkind t = TokComma ∨ tkind t = TokRParen →
    runs parseOr (ts ++ t :: p) a (t :: p)) as Hone.
  { intros ts' t p Hts' Ht. eapply (Ha 0); [lia|done| |].
    - apply follow_closing; tauto.
    - apply continue_closing; tauto. }
  destruct args as [|b args]; simpl in Hts.
  - destruct (Hone ts c rest Hts (or_intror Hc)) as [f Hf]. apply runs_S. exists f. intros m Hm.
    cbn [argsLoop]. rewrite Hf by lia. cbn. rewrite decide_False by congruence. done.
  - split_kv. rewrite <-app_assoc. simpl.
    destruct (Hone x x1 (x2 ++ c :: rest)) as [f Hf]; [done|by left|].
    destruct (IH x2) as [g Hg]; [done..|]. apply runs_S. exists (f + g). intros m Hm.
    cbn [argsLoop]. rewrite Hf by lia. cbn. rewrite decide_True by done. rewrite Hg by lia. done.
Qed.

Lemma runs_args_head (t : Token) (p : parser) args q :
  runs argsLoop (t :: p) args q → tkind t ≠ TokRParen.
Proof.
  intros [f Hf] Ht. specialize (Hf (6 + f) ltac:(lia)). cbn in Hf. by rewrite Ht in Hf.
Qed.

Lemma reads_call (f : string) (args : list Expr) : Forall reads args → reads (Call f args).
Proof.
  intros Hr n ts rest e' q Hn Hts Hf. apply reads_unary; [|done..]. simpl in Hts. split_kv.
  rewrite <-app_comm_cons. apply runs_primary; [congruence|].
  rewrite <-app_comm_cons, <-app_assoc. simpl.
  rename x into ident, x1 into lp, x0 into ts, x2 into c.
  destruct args as [|a args].
  { simpl in *. split_kv. apply runs_S. exists 1. intros [|m] Hm; [lia|].
    cbn [parsePrimary peek mbind res_bind parseRefOrCall advance app]. rewrite H.
    do 3 (rewrite decide_True by done; cbn). by subst. }
  assert (runs argsLoop (ts ++ c :: rest) (a :: args) (c :: rest)) as Ha by by apply runs_args.
  destruct (ts ++ c :: rest) as [|t p] eqn:E; [by destruct ts|].
  pose proof (runs_args_head _ _ _ _ Ha). destruct Ha as [k Hk]. apply runs_S. exists (S k).
  intros [|m] Hm; [lia|].
  cbn [parsePrimary peek mbind res_bind parseRefOrCall advance]. rewrite H.
  rewrite decide_True by done. cbn [peek mbind res_bind advance]. rewrite decide_False by done.
  rewrite Hk by lia. cbn. rewrite decide_True by done. by subst.
Qed.

Lemma op_at_level (op : string) :
  op ∈ ["||"; "&&"; "=="; "!="] →
  op_level op < 3 ∧ op_at (op_level op) (op_kind op) = true ∧
  (∀ m, op_level op < m → op_at m (op_kind op) = false) ∧
  op_kind op ≠ TokDot ∧ op_kind op ≠ TokLParen.
Proof.
  intros Hop. repeat (apply elem_of_cons in Hop as [->|Hop]); [..|by apply elem_of_nil in Hop];
    vm_compute; (split; [lia|split; [done|split; [|done]]]); intros [|[|[|m]]] ?; done || lia.
Qed.

(** A binary expression without parentheses, read at its own level. *)
Lemma runs_binary (op : string) (L R : Expr) ts rest e' q :
  reads L → reads R → op ∈ ["||"; "&&"; "=="; "!="] →
  kv <$> ts = print (op_level op) L ++ (op_kind op, op) :: print (S (op_level op)) R →
  follow (op_level op) rest → continue (op_level op) (Binary op L R) rest e' q →
  runs (parse_at (op_level op)) (ts ++ rest) e' q.
Proof.
  intros HL HR Hop Hts Hf Hc. split_kv.
  destruct (op_at_level op Hop) as (Hlt & Hat & Habove & Hd & Hp).
  rewrite <-app_assoc. simpl. eapply HL; [lia|done| |].
  - split_and!; [congruence..|]. intros m ?. rewrite H0. by apply Habove.
  - unfold continue in *. rewrite decide_True in * by done.
    eapply runs_loop_go; [done|congruence| |].
    + eapply HR; [lia|done|eapply follow_le; [|done]; lia|eapply continue_stop; [|done]; lia].
    + by rewrite H1.
Qed.

Lemma reads_binary (op : string) (L R : Expr) :
  reads L → reads R → op ∈ ["||"; "&&"; "=="; "!="] → reads (Binary op L R).
Proof.
  intros HL HR Hop n ts rest e' q Hn Hts Hf Hc. destruct (op_at_level op Hop) as (Hlt & _).
  cbn [print] in Hts. set (m := op_level op) in *. unfold paren in Hts. case_bool_decide as Hlev.
  - eapply reads_unary; [|done..].
    apply kv_cons_inv in Hts as (lp & ts' & -> & Hlp & _ & Hts).
    apply kv_app_inv in Hts as (body & ts'' & -> & Hbody & Hts).
    apply kv_cons_inv in Hts as (x & ? & -> & ? & _ & ->%kv_nil_inv).
    simpl. rewrite <-app_assoc. simpl. eapply runs_paren; [done..|].
    apply (descend_levels m 0 _ (Binary op L R) (x :: rest));
      [lia| |apply follow_closing; auto| |].
    + apply (runs_binary op L R); [done..|apply follow_closing; auto|].
      apply continue_closing; auto.
    + intros _. apply continue_closing; auto.
    + intros E. split; [|done]. done.
  - destruct (decide (n = m)) as [Hnm|Hne].
    { subst n. by apply (runs_binary op L R). }
    apply (descend_levels (m - n) n _ (Binary op L R) rest); [lia| |done|done|lia].
    replace (n + (m - n)) with m by lia.
    apply (runs_binary op L R); [done..|eapply follow_le; [|done]; lia|eapply continue_stop; [|done]; lia].
Qed.

Lemma reads_all (e : Expr) : expressible e = true → reads e.
Proof.
  induction e as [v|b| |path|f args IH|op X IH|op L R IHL IHR] using Expr_rect'; intros He.
  1-3: intros n ts rest e' q Hn Hts; simpl in Hts; split_kv; intros; eapply reads_unary; [|done..];
    apply runs_token; try congruence; intros fuel; cbn; rewrite H; cbn; try by subst.
  - rewrite H0. by destruct b.
  - simpl in He. bools. destruct path as [|x path]; [done|]. apply reads_ref.
  - simpl in He. bools. apply reads_call. rewrite Forall_forall in IH |- *.
    rewrite forallb_forall in H0. intros x Hx. apply IH; [done|]. apply H0. by apply list_elem_of_In.
  - simpl in He. bools. subst op. intros n ts rest e' q Hn Hts Hf Hc. simpl in Hts.
    split_kv. eapply reads_unary; [|done..]. simpl. apply runs_not; [done|].
    apply (IH H0 3); [lia|done|eapply follow_le; [|done]; lia|done].
  - simpl in He. bools. apply reads_binary; auto.
Qed.

Lemma commas_ok (l : list (list piece)) :
  Forall (Forall (fun p => piece_ok p = true)) l →
  Forall (fun p => piece_ok p = true) (commas l).
Proof.
  intros Hl. induction Hl as [|x l Hx Hl IH]; [constructor|]. destruct l as [|y l]; [done|].
  cbn [commas]. apply Forall_app. split; [done|]. by constructor.
Qed.

Lemma print_ok (e : Expr) (n : nat) :
  expressible e = true → Forall (fun p => piece_ok p = true) (print n e).
Proof.
  revert n. induction e as [v|b| |path|f args IH|op X IH|op L R IHL IHR] using Expr_rect';
    intros n He; cbn [expressible] in He; bools; cbn [print]; repeat constructor.
  - by destruct b.
  - destruct path as [|x path]; [done|]. cbn in H0. bools. constructor; [done|].
    clear H. induction path as [|y path IH]; cbn in *; bools; repeat constructor; auto.
  - done.
  - rewrite forallb_forall in H0. apply Forall_app. split; [|by repeat constructor].
    apply commas_ok, Forall_fmap. rewrite Forall_forall in IH |- *. intros x Hx.
    apply (IH x Hx), H0. by apply list_elem_of_In.
  - by apply IH.
  - assert (piece_ok (op_kind op, op) = true) as Hop.
    { match goal with H : op ∈ _ |- _ =>
        repeat (apply elem_of_cons in H as [->|H]; [done|]); by apply elem_of_nil in H
      end. }
    unfold paren. case_bool_decide; repeat (constructor || apply Forall_app_2); auto.
Qed.

Lemma Parse_print (e : Expr) (ts : list Token) (n : nat) :
  expressible e = true → kv <$> ts = print 0 e → Parse (ts ++ [MkToken TokEOF "" n]) = Ok e.
Proof.
  intros He Hts. set (eof := MkToken TokEOF "" n).
  assert (ends_eof (ts ++ [eof])) as Heof by (unfold ends_eof; by rewrite last_snoc).
  destruct (reads_all e He 0 ts [eof] e [eof]) as [k Hk]; [lia|done| | |].
  - split_and!; [done..|]. by intros [|[|[|m]]] ?.
  - unfold continue. rewrite decide_True by lia. by apply runs_loop_stop; [lia|].
  - unfold Parse. set (p := ts ++ [eof]) in *.
    pose proof (or_good _ (parser_good_all (parse_fuel p)) p Heof) as G.
    specialize (G ltac:(unfold parse_fuel; lia)).
    destruct (or_st _ _ (parser_stable_le (parse_fuel p) (parse_fuel p + k) ltac:(lia)) p) as [E|E].
    { rewrite E in G. by destruct G. }
    cbn in Hk. rewrite E, Hk by lia. done.
Qed.

(** C36: Round trip: an expression tree printed with the fewest parentheses and
    then lexed and parsed is the same tree.  So the parser implements the
    documented precedence ([||], [&&], equality, [!]) and left associativity, and
    string literals survive the quote doubling. *)
Theorem print_parse `{UnicodeTables} (e : Expr) :
  expressible e = true → Lex (text (print 0 e)) ≫= Parse = Ok e.
Proof.
  intros He. destruct (Lex_loop_text (print 0 e) 0) as (ts & n & E & Hkv); [by apply print_ok|].
  unfold Lex. rewrite E. cbn. by apply Parse_print.
Qed.

Definition sample_expr : Expr :=
  Binary "||" (Binary "&&" (Binary "==" (Ref ["shithub"; "event"; "title"]) (LitString "it's"))
    (Binary "||" (Unary "!" (LitBool true)) LitNull)) (Call "contains" [Ref ["vars"; "A"]; LitNull]).

Lemma print_parse_witness :
  expressible sample_expr = true ∧
  @Lex latin1_tables (text (print 0 sample_expr)) ≫= Parse = Ok sample_expr.
Proof. split; [reflexivity | apply (@print_parse latin1_tables); reflexivity]. Defined.
