(* ===== verification/EvalFacts.v ===== *)
(** * EvalFacts: what the evaluator's flags guarantee *)

From S2P Require Import Prelude GoString Expr ExprPrint Eval.
Local Open Scope nat_scope.

(** The environment variables that carry a flag. *)
Definition flagged (c : Context) (m : string) : bool :=
  flag (EnvTaint c) m || flag (EnvSensitive c) m.

(** Two contexts an observer without access to secrets, to the event payload
    and to the flagged environment variables cannot tell apart. *)
Record low_eq (c1 c2 : Context) : Prop := {
  le_secrets m : is_Some (Secrets c1 !! m) ↔ is_Some (Secrets c2 !! m);
  le_vars : Vars c1 = Vars c2;
  le_env_dom m : is_Some (Env c1 !! m) ↔ is_Some (Env c2 !! m);
  le_env m : flagged c1 m = false → Env c1 !! m = Env c2 !! m;
  le_flagged m : flagged c1 m = flagged c2 m;
  le_run : RunID (Shithub c1) = RunID (Shithub c2);
  le_sha : SHA (Shithub c1) = SHA (Shithub c2);
  le_ref : GitRef (Shithub c1) = GitRef (Shithub c2);
  le_actor : Actor (Shithub c1) = Actor (Shithub c2);
  le_untrusted : Untrusted c1 = Untrusted c2;
  le_job : JobStatus_ c1 = JobStatus_ c2;
  le_event : "shithub.event" ∈ Untrusted c1
}.

Lemma isUntrusted_event (rest : list string) (u : gset string) :
  "shithub.event" ∈ u → isUntrusted ("shithub" :: "event" :: rest) u = true.
Proof.
  intros Hu. unfold isUntrusted. rewrite bool_decide_eq_false_2.
  - apply existsb_exists. exists 1. split; [simpl; tauto|]. by apply bool_decide_eq_true_2.
  - rewrite size_non_empty_iff. set_solver.
Qed.

Lemma evalEventPath_tainted path ev t : Tainted (evalEventPath path ev t) = t.
Proof. unfold evalEventPath. by repeat case_match. Qed.

Lemma low_eq_sym (c1 c2 : Context) : low_eq c1 c2 → low_eq c2 c1.
Proof.
  intros []. split; try done; try congruence.
  - intros m Hm. rewrite <-le_flagged0 in Hm. symmetry. auto.
Qed.

(** A clean value: no flag is set. *)
Definition clean (v : Value) : Prop := Tainted v = false ∧ Sensitive v = false.

Lemma evalRef_clean (c1 c2 : Context) (path : list string) (v : Value) :
  low_eq c1 c2 → evalRef path c1 = Ok v → clean v → evalRef path c2 = Ok v.
Proof.
  intros HL. unfold evalRef. rewrite <-(le_untrusted _ _ HL).
  destruct (canonical path) as [|root rest]; [done|].
  repeat case_decide; try (destruct rest as [|m [|? ?]]; try done).
  - destruct (Secrets c1 !! m); [intros [= <-] [_ [=]]|done].
  - by rewrite (le_vars _ _ HL).
  - pose proof (le_env_dom _ _ HL m) as Hd. pose proof (le_env _ _ HL m) as He.
    pose proof (le_flagged _ _ HL m) as Hfl. unfold flagged in *.
    destruct (Env c1 !! m) eqn:E; intros [= <-] [Ht Hs].
    + cbn in Ht, Hs. rewrite Ht, Hs in *. rewrite <-He by done.
      symmetry in Hfl. apply orb_false_iff in Hfl as [-> ->]. done.
    + destruct (Env c2 !! m); [|done]. destruct Hd as [_ Hd]. by destruct Hd.
  - subst root. cbn [evalShithub]. destruct HL as [].
    repeat case_decide; try congruence. subst m.
    rewrite isUntrusted_event by done. intros [= <-] [Ht _]. by rewrite evalEventPath_tainted in Ht.
  - subst root. cbn [evalShithub]. destruct HL as [].
    repeat case_decide; try congruence. subst m.
    rewrite isUntrusted_event by done. intros [= <-] [Ht _]. by rewrite evalEventPath_tainted in Ht.
Qed.

Lemma clean_join a b : a || b = false → a = false ∧ b = false.
Proof. by destruct a, b. Qed.

Section Clean.
  Context (E1 E2 : Expr → res error Value).

Definition keeps_clean (e : Expr) : Prop :=
  ∀ v, E1 e = Ok v → clean v → E2 e = Ok v.

Lemma strFnArity2_clean args name fn v :
  Forall keeps_clean args → strFnArity2 E1 args name fn = Ok v → clean v →
  strFnArity2 E2 args name fn = Ok v.
Proof.
  destruct args as [|x [|y [|? ?]]]; try done.
  intros [Hx [Hy _]%Forall_cons]%Forall_cons. cbn [strFnArity2].
  intros (a & Ha & (b & Hb & [= <-])%bind_Ok_inv)%bind_Ok_inv [Ht Hs].
  apply clean_join in Ht as [? ?], Hs as [? ?].
  rewrite (Hx a), (Hy b) by done. done.
Qed.

Lemma evalCall_clean name args c1 c2 v :
  Forall keeps_clean args → JobStatus_ c1 = JobStatus_ c2 →
  evalCall E1 name args c1 = Ok v → clean v → evalCall E2 name args c2 = Ok v.
Proof.
  intros Ha Hj. unfold evalCall. rewrite Hj.
  repeat case_decide; try done; by apply strFnArity2_clean.
Qed.

Lemma evalBinary_clean op L R v :
  keeps_clean L → keeps_clean R → evalBinary E1 op L R = Ok v → clean v →
  evalBinary E2 op L R = Ok v.
Proof.
  intros HL HR. unfold evalBinary.
  intros (l & Hl & H)%bind_Ok_inv. revert H.
  repeat case_decide; try (destruct (Truthy l) eqn:Et; cbn [negb]).
  all: try (intros [= <-] Hc; rewrite (HL l) by done; cbn; by rewrite Et).
  all: intros (r & Hr & Hrest)%bind_Ok_inv; simplify_eq; intros [Ht Hs];
    apply clean_join in Ht as [? ?], Hs as [? ?];
    rewrite (HL l) by done; cbn; rewrite ?Et; cbn; by rewrite (HR r).
Qed.

End Clean.

Lemma Eval_clean (c1 c2 : Context) (e : Expr) :
  low_eq c1 c2 → keeps_clean (fun e => Eval e c1) (fun e => Eval e c2) e.
Proof.
  intros HL. induction e as [s|b| |path|f args IH|op X IH|op L R IHL IHR] using Expr_rect';
    intros v; cbn [Eval]; try done.
  - by apply evalRef_clean.
  - by apply evalCall_clean; [|apply le_job].
  - intros (x & Hx & [= <-])%bind_Ok_inv [Ht Hs]. cbn in *. by rewrite (IH x).
  - by apply evalBinary_clean.
Qed.

(** C21: Taint and sensitivity are sound (noninterference): if an expression
    evaluates to a value with neither flag set, then it evaluates to the very same
    value whatever the secrets, the event payload and the flagged environment
    variables hold.  The value so carries no information about them, by any
    operator, function or short circuit. *)
Theorem Eval_noninterference (c1 c2 : Context) (e : Expr) (v : Value) :
  low_eq c1 c2 → Eval e c1 = Ok v → Tainted v = false → Sensitive v = false →
  Eval e c2 = Ok v.
Proof. intros HL He Ht Hs. exact (Eval_clean c1 c2 e HL v He (conj Ht Hs)). Qed.

Definition sample_ctx (secret title : string) : Context :=
  MkContext {["K" := secret]} {["A" := "x"]} {["P" := title]} {["P" := true]} ∅
    (MkShithubContext [("title", JString title)] "7" "abc" "refs/heads/trunk" "ann")
    DefaultUntrusted (MkJobStatus false false).

Lemma sample_low_eq (s1 t1 s2 t2 : string) : low_eq (sample_ctx s1 t1) (sample_ctx s2 t2).
Proof.
  split; cbn; try done; intros m.
  1-2: by rewrite !lookup_singleton_is_Some.
  destruct (decide (m = "P")) as [->|Hm]; [done|]. by rewrite !lookup_singleton_ne.
Qed.

Lemma Eval_noninterference_witness :
  low_eq (sample_ctx "s1" "t1") (sample_ctx "s2" "t2") ∧
  Eval (Binary "&&" (Binary "==" (Ref ["vars"; "A"]) (LitString "x")) (Call "success" []))
    (sample_ctx "s2" "t2") = Ok (VBool true false false).
Proof.
  split; [apply sample_low_eq|].
  apply (Eval_noninterference (sample_ctx "s1" "t1")); [apply sample_low_eq|vm_compute; done..].
Defined.

(** The comparison operators hand the taint of their operands on to their
    boolean result, and so do [!] and the string functions. *)
Theorem comparison_taints (ctx : Context) (op : string) (L R : Expr) (l r : Value) :
  op ∈ ["=="; "!="] → Eval L ctx = Ok l → Eval R ctx = Ok r →
  ∃ v, Eval (Binary op L R) ctx = Ok v ∧ VKind v = KindBool ∧
    Tainted v = Tainted l || Tainted r ∧ Sensitive v = Sensitive l || Sensitive r.
Proof.
  intros Hop Hl Hr. cbn [Eval]. unfold evalBinary. rewrite Hl, Hr. cbn [mbind res_bind].
  apply elem_of_cons in Hop as [-> | ->%list_elem_of_singleton]; by eexists.
Qed.

Lemma comparison_taints_witness :
  ∃ v, Eval (Binary "==" (Ref ["shithub"; "event"; "title"]) (LitString "hi")) (sample_ctx "s" "hi") =
    Ok v ∧ VKind v = KindBool ∧ Tainted v = true || false ∧ Sensitive v = false || false.
Proof.
  eapply (comparison_taints (sample_ctx "s" "hi") "==" _ _ (VString "hi" true false)
    (VString "hi" false false)); [left|vm_compute; done..].
Defined.
