(* ===== verification/Render.v ===== *)
(** * Render: workflow steps rendered for the shell

    internal/runner/exec/render.go.  A [run:] text is rendered by replacing each
    [${{ … }}]: clean values are written into the text, tainted or sensitive
    ones are bound to an environment variable and the text gets a reference to
    it.  Copying a map is the identity here; the loops over maps whose order Go
    leaves open go over [map_to_list]. *)

From stdpp Require Import sorting.
From S2P Require Import Prelude GoString Expr Eval.
Local Open Scope nat_scope.

Inductive render_error :=
| MissingClosing
| ExprError (e : error)
| ReservedPrefix (key : string)
| InKey (key : string) (e : render_error)
| RenderJobEnv (e : render_error)
| RenderStepEnv (e : render_error).

Definition lift {A} (m : res error A) : res render_error A :=
  match m with Ok a => Ok a | Err e => Err (ExprError e) end.

Definition wrap {A} (w : render_error → render_error) (m : res render_error A) :
  res render_error A :=
  match m with Ok a => Ok a | Err e => Err (w e) end.

Definition defaultBindingPrefix : string := "SHITHUB_INPUT_".

Record Bindings := MkBindings { prefix : string; next : nat; benv : gmap string string }.

Definition NewBindings (prefix : string) : Bindings :=
  if decide (TrimSpace prefix = "") then MkBindings defaultBindingPrefix 0 ∅
  else MkBindings prefix 0 ∅.

Definition binding_name (b : Bindings) : string := prefix b +:+ pretty (next b).

(** [Add]: the name and the bindings after it. *)
Definition Add (b : Bindings) (value : string) : string * Bindings :=
  let name := binding_name b in
  (name, MkBindings (prefix b) (S (next b)) (<[name := value]> (benv b))).

Record ResolvedText := MkResolvedText { Text : string; TTainted : bool; TSensitive : bool }.

Record RenderedStep := MkRenderedStep {
  Run : string; REnv : gmap string string;
  REnvTaint : gmap string bool; REnvSensitive : gmap string bool
}.

Record StepInput := MkStepInput {
  IRun : string; JobEnv : gmap string string; StepEnv : gmap string string; IContext : Context
}.

(** The context Go builds for a nil pointer. *)
Definition zero_context : Context :=
  MkContext ∅ ∅ ∅ ∅ ∅ (MkShithubContext [] "" "" "" "") DefaultUntrusted (MkJobStatus false false).

Definition cloneSet (u : gset string) : gset string :=
  if decide (size u = 0) then DefaultUntrusted else u.

Definition cloneContext (ctx : option Context) : Context :=
  match ctx with
  | None => zero_context
  | Some c =>
      MkContext (Secrets c) (Vars c) (Env c) (EnvTaint c) (EnvSensitive c) (Shithub c)
        (cloneSet (Untrusted c)) (JobStatus_ c)
  end.

(** The loop of [walkExpressions]; [st] is what the callback's closure writes. *)
Fixpoint walk_loop {St} (fuel : nat) (fn : string → string → St → res render_error St)
    (raw : string) (st : St) : res render_error St :=
  match fuel with
  | 0 => Err (ExprError OutOfFuel)
  | S fuel =>
      match Cut raw "${{" with
      | None => fn raw "" st
      | Some (literal, rest) =>
          match Cut rest "}}" with
          | None => Err MissingClosing
          | Some (body, rest) => st ← fn literal body st; walk_loop fuel fn rest st
          end
      end
  end.

Definition walkExpressions {St} (raw : string)
    (fn : string → string → St → res render_error St) (st : St) : res render_error St :=
  walk_loop (S (String.length raw)) fn raw st.

Section Rendering.
  Context `{UnicodeTables}.

Definition eval (body : string) (ctx : option Context) : res error Value :=
  let ctx := default zero_context ctx in
  toks ← Lex (TrimSpace body);
  ast ← Parse toks;
  Eval ast ctx.

(** The callback of [RenderShell]; its state is the output and the bindings. *)
Definition shell_step (ctx : option Context) (literal body : string)
    (st : string * Bindings) : res render_error (string * Bindings) :=
  let '(out, b) := st in
  if decide (body = "") then Ok (out +:+ literal, b)
  else
    v ← lift (eval body ctx);
    if Tainted v || Sensitive v then
      let '(name, b) := Add b (Value_String v) in
      Ok (out +:+ literal +:+ "${" +:+ name +:+ "}", b)
    else Ok (out +:+ literal +:+ Value_String v, b).

Definition RenderShell (raw : string) (ctx : option Context) (bindings : option Bindings)
  : res render_error (string * Bindings) :=
  walkExpressions raw (shell_step ctx) ("", default (NewBindings "") bindings).

(** The callback of [ResolveText]. *)
Definition text_step (ctx : option Context) (literal body : string) (st : ResolvedText)
  : res render_error ResolvedText :=
  if decide (body = "") then
    Ok (MkResolvedText (Text st +:+ literal) (TTainted st) (TSensitive st))
  else
    v ← lift (eval body ctx);
    Ok (MkResolvedText (Text st +:+ literal +:+ Value_String v)
          (if Tainted v then true else TTainted st)
          (if Sensitive v then true else TSensitive st)).

Definition ResolveText (raw : string) (ctx : option Context) : res render_error ResolvedText :=
  walkExpressions raw (text_step ctx) (MkResolvedText "" false false).

Definition string_le (s t : string) : Prop := String.leb s t = true.

#[local] Instance string_le_dec s t : Decision (string_le s t).
Proof. unfold string_le. apply _. Defined.

Definition sortedKeys (m : gmap string string) : list string :=
  merge_sort string_le ((map_to_list m).*1).

(** An environment with the flags of its variables. *)
Record env3 := MkEnv3 {
  out : gmap string string; taint : gmap string bool; sensitive : gmap string bool
}.

Definition set_flag (b : bool) (key : string) (m : gmap string bool) : gmap string bool :=
  if b then <[key := true]> m else m.

Fixpoint resolve_keys (keys : list string) (raw : gmap string string) (ctx : option Context)
    (acc : env3) : res render_error env3 :=
  match keys with
  | [] => Ok acc
  | key :: keys =>
      if HasPrefix key defaultBindingPrefix then Err (ReservedPrefix key)
      else
        v ← wrap (InKey key) (ResolveText (default "" (raw !! key)) ctx);
        resolve_keys keys raw ctx
          (MkEnv3 (<[key := Text v]> (out acc)) (set_flag (TTainted v) key (taint acc))
             (set_flag (TSensitive v) key (sensitive acc)))
  end.

Definition resolveEnv (raw : gmap string string) (ctx : option Context) : res render_error env3 :=
  resolve_keys (sortedKeys raw) raw ctx (MkEnv3 ∅ ∅ ∅).

(** [if new[k] { flags[k] = true } else { delete(flags, k) }]. *)
Definition update_flag (new : gmap string bool) (k : string) (flags : gmap string bool) :
  gmap string bool :=
  if flag new k then <[k := true]> flags else delete k flags.

(** The same for each key of [env]. *)
Definition update_flags (env : gmap string string) (new flags : gmap string bool) :
  gmap string bool :=
  foldr (fun kv => update_flag new kv.1) flags (map_to_list env).

(** [for k, v := range src { dst[k] = v }]. *)
Definition copy_into {V} (src dst : gmap string V) : gmap string V :=
  foldr (fun kv => <[kv.1 := kv.2]>) dst (map_to_list src).

Definition mergeContextEnv (ctx : Context) (e : env3) : Context :=
  MkContext (Secrets ctx) (Vars ctx) (copy_into (out e) (Env ctx))
    (update_flags (out e) (taint e) (EnvTaint ctx))
    (update_flags (out e) (sensitive e) (EnvSensitive ctx))
    (Shithub ctx) (Untrusted ctx) (JobStatus_ ctx).

Definition RenderStep (i : StepInput) : res render_error RenderedStep :=
  let ctx := cloneContext (Some (IContext i)) in
  let bindings := NewBindings "" in
  job ← wrap RenderJobEnv (resolveEnv (JobEnv i) (Some ctx));
  let ctx := mergeContextEnv ctx job in
  step ← wrap RenderStepEnv (resolveEnv (StepEnv i) (Some ctx));
  let env := copy_into (out step) (out job) in
  let tnt := update_flags (out step) (taint step) (taint job) in
  let sens := update_flags (out step) (sensitive step) (sensitive job) in
  let ctx := mergeContextEnv ctx step in
  '(run, bindings) ← RenderShell (IRun i) (Some ctx) (Some bindings);
  Ok (MkRenderedStep run (copy_into (benv bindings) env) tnt sens).

End Rendering.
