(* ===== verification/RenderFacts.v ===== *)
(** * RenderFacts: the taint boundary between workflow text and the shell *)

From stdpp Require Import sorting.
From S2P Require Import Prelude GoString Expr Eval ExprFacts ExprPrint EvalFacts Render.
Local Open Scope nat_scope.

(** ** The loop over the expressions of a text *)

(** Two runs of the loop over the same text, related step by step. *)
Lemma walk_rel {S1 S2} (R : S1 → S2 → Prop) f1 f2 :
  (∀ lit body s1 s2 s1' s2', R s1 s2 → f1 lit body s1 = Ok s1' → f2 lit body s2 = Ok s2' →
     R s1' s2') →
  ∀ raw s1 s2 s1' s2', R s1 s2 → walkExpressions raw f1 s1 = Ok s1' →
    walkExpressions raw f2 s2 = Ok s2' → R s1' s2'.
Proof.
  intros Hf raw. unfold walkExpressions. generalize (S (String.length raw)) as fuel.
  intros fuel. revert raw. induction fuel as [|fuel IH]; intros raw s1 s2 s1' s2' HR; [done|].
  cbn [walk_loop]. destruct (Cut raw "${{") as [[lit rest]|]; [|by apply Hf].
  destruct (Cut rest "}}") as [[body rest']|]; [|done].
  intros (t1 & H1 & H1')%bind_Ok_inv (t2 & H2 & H2')%bind_Ok_inv. eauto.
Qed.

(** An invariant of one run. *)
Lemma walk_inv {St} (I : St → Prop) f :
  (∀ lit body s s', I s → f lit body s = Ok s' → I s') →
  ∀ raw s s', I s → walkExpressions raw f s = Ok s' → I s'.
Proof.
  intros Hf raw s s' Hs H.
  apply (walk_rel (fun a b : St => I a) f f) with raw s s s'; [|done..].
  intros ???????; eauto.
Qed.

(** The fuel of the loop: every expression takes five bytes at least. *)
Lemma walk_total {St} (P : render_error → Prop) f :
  (∀ lit body s e, f lit body s = Err e → P e) → P MissingClosing →
  ∀ raw (s : St) e, walkExpressions raw f s = Err e → P e.
Proof.
  intros Hf Hm raw. unfold walkExpressions.
  assert (String.length raw < S (String.length raw)) as Hlt by lia. revert Hlt.
  generalize (S (String.length raw)) as fuel. intros fuel. revert raw.
  induction fuel as [|fuel IH]; intros raw Hlt s e; [lia|]. cbn [walk_loop].
  destruct (Cut raw "${{") as [[lit rest]|] eqn:E1; [|by apply Hf].
  destruct (Cut rest "}}") as [[body rest']|] eqn:E2; [|by intros [= <-]].
  apply Cut_app in E1 as ->, E2 as ->. rewrite !str_length_append in Hlt. simpl in Hlt.
  intros [H|(s' & H & H')]%bind_Err_inv; [by eapply Hf|]. eapply IH; [|done]. lia.
Qed.

(** ** Rendering never panics and never runs out of fuel *)

Lemma evalRef_errors (ctx : Context) (path : list string) (e : error) :
  evalRef path ctx = Err e → e ≠ OutOfFuel ∧ e ≠ IndexOutOfRange.
Proof.
  unfold evalRef, evalShithub. intros H. repeat (case_match; simplify_eq); try done.
Qed.

Lemma Eval_errors (ctx : Context) (e : Expr) (err : error) :
  Eval e ctx = Err err → err ≠ OutOfFuel ∧ err ≠ IndexOutOfRange.
Proof.
  revert err. induction e as [v|b| |path|f args IH|op X IH|op L R IHL IHR] using Expr_rect';
    intros err; cbn [Eval]; try done.
  - apply evalRef_errors.
  - unfold evalCall, strFnArity2.
    destruct args as [|x [|y [|z args]]]; rewrite ?Forall_cons in IH; destruct_and?;
      repeat case_decide; try (by intros [= <-]); try done;
      intros [?|(? & ? & [?|(? & ? & ?)]%bind_Err_inv)]%bind_Err_inv; eauto; done.
  - intros [?|(? & ? & ?)]%bind_Err_inv; [eauto|done].
  - unfold evalBinary. intros [?|(l & ? & H)]%bind_Err_inv; [eauto|]. revert H.
    repeat case_decide; try (destruct (Truthy l)); cbn [negb]; try done;
      intros [?|(? & ? & ?)]%bind_Err_inv; eauto; simplify_eq; try done.
Qed.

Section Render.
  Context `{UnicodeTables}.

Lemma lexString_loop_errors (s : string) (i : nat) (e : error) :
  lexString_loop s i = Err e → e = UnterminatedString i.
Proof.
  revert e. induction s as [s IH] using (well_founded_induction (well_founded_ltof _ String.length)).
  intros e. destruct s as [|c s]; simpl; [by intros [= <-]|].
  assert (∀ s', String.length s' ≤ String.length s → lexString_loop s' i = Err e →
    e = UnterminatedString i) as IH' by (intros s' ?; apply IH; unfold ltof; simpl; lia).
  case_decide.
  - destruct s as [|d s]; [done|]. case_decide; [|done].
    intros [?|([] & _ & ?)]%bind_Err_inv; [|done]. apply (IH' s); [simpl; lia|done].
  - intros [?|([] & _ & ?)]%bind_Err_inv; [|done]. by apply (IH' s).
Qed.

Lemma Lex_step_errors (s : string) (i : nat) (e : error) :
  Lex_step s i = Err e → e ≠ OutOfFuel ∧ e ≠ IndexOutOfRange.
Proof.
  unfold Lex_step. destruct (DecodeRuneInString _) as [r sz]. cbv zeta.
  destruct (lexString s i) as [[t n]|e'] eqn:El.
  - destruct (lexIdent s i). repeat case_match; intros; simplify_eq/=; done.
  - assert (e' = UnterminatedString i) as ->.
    { revert El. unfold lexString. case_bool_decide; [by intros [= <-]|].
      intros [?|([] & _ & ?)]%bind_Err_inv; [|done]. by eapply lexString_loop_errors. }
    destruct (lexIdent s i). repeat case_match; intros; simplify_eq/=; done.
Qed.

Lemma Lex_loop_errors (k i : nat) (s : string) (e : error) :
  Lex_loop k s i = Err e → e ≠ OutOfFuel ∧ e ≠ IndexOutOfRange.
Proof.
  revert k i. induction s as [|c s IH]; intros k i; cbn [Lex_loop]; [done|].
  destruct k as [|k]; [|apply IH].
  intros [Hs|([t n] & _ & [?|(? & _ & ?)]%bind_Err_inv)]%bind_Err_inv; [|by eapply IH|done].
  by eapply Lex_step_errors.
Qed.

Lemma eval_errors (ctx : option Context) (body : string) (e : error) :
  eval body ctx = Err e → e ≠ OutOfFuel ∧ e ≠ IndexOutOfRange.
Proof.
  unfold eval. intros [?|(ts & Hts & [?|(ast & ? & ?)]%bind_Err_inv)]%bind_Err_inv.
  - by eapply Lex_loop_errors.
  - destruct (Parse_no_panic _ _ Hts); split; congruence.
  - by eapply Eval_errors.
Qed.

(** Rendering a [run:] text returns for every text and context: the shell
    text, a missing [}}], or an error of the expression language; the walk over
    the text terminates and the expression parser inside it neither panics nor
    loops. *)
Theorem RenderShell_total (raw : string) (ctx : option Context) (b : option Bindings) :
  (∃ out b', RenderShell raw ctx b = Ok (out, b')) ∨
  RenderShell raw ctx b = Err MissingClosing ∨
  (∃ e, RenderShell raw ctx b = Err (ExprError e) ∧ e ≠ OutOfFuel ∧ e ≠ IndexOutOfRange).
Proof.
  destruct (RenderShell raw ctx b) as [[o b']|e] eqn:E; [by left; eauto|right].
  revert E. unfold RenderShell.
  generalize (("" : string), default (NewBindings "") b) as st. revert e.
  intros e st E.
  assert (e = MissingClosing ∨ ∃ e', e = ExprError e' ∧ e' ≠ OutOfFuel ∧ e' ≠ IndexOutOfRange)
    as [-> | (e' & -> & ?)]; [|by left|by right; eauto].
  revert E. apply (walk_total (fun e => e = MissingClosing ∨
    ∃ e', e = ExprError e' ∧ e' ≠ OutOfFuel ∧ e' ≠ IndexOutOfRange)); [|by left].
  intros lit body [o b'] e0. unfold shell_step. case_decide; [done|].
  intros [Hl|(v & _ & Hv)]%bind_Err_inv; [|by destruct (_ || _)].
  destruct (eval body ctx) eqn:Ee; [done|]. simplify_eq/=.
  right. eexists. split; [done|]. by eapply eval_errors.
Qed.

End Render.

(** ** The references in the shell text *)

(** A stretch of the rendered text: text written as it is, or a reference to
    the input variable [name], which stands for [value]. *)
Inductive seg := Plain (s : string) | InputRef (name value : string).

Definition seg_shell (g : seg) : string :=
  match g with Plain s => s | InputRef name _ => "${" +:+ name +:+ "}" end.

Definition seg_value (g : seg) : string :=
  match g with Plain s => s | InputRef _ value => value end.

Definition cat (f : seg → string) (gs : list seg) : string :=
  foldr (fun g acc => f g +:+ acc) "" gs.

Lemma cat_app f gs gs' : cat f (gs ++ gs') = cat f gs +:+ cat f gs'.
Proof. induction gs as [|g gs IH]; [done|]. cbn [app cat foldr]. rewrite str_append_assoc. by f_equal. Qed.

Lemma cat_one f g : cat f [g] = f g.
Proof. apply str_append_nil. Qed.

(** A run of the loop followed by another, step by step. *)
Lemma walk_sim {S1 S2} (R : S1 → S2 → Prop) f1 f2 :
  (∀ lit body s1 s2 s1', R s1 s2 → f1 lit body s1 = Ok s1' →
     ∃ s2', f2 lit body s2 = Ok s2' ∧ R s1' s2') →
  ∀ raw s1 s2 s1', R s1 s2 → walkExpressions raw f1 s1 = Ok s1' →
    ∃ s2', walkExpressions raw f2 s2 = Ok s2' ∧ R s1' s2'.
Proof.
  intros Hf raw. unfold walkExpressions. generalize (S (String.length raw)) as fuel.
  intros fuel. revert raw. induction fuel as [|fuel IH]; intros raw s1 s2 s1' HR; [done|].
  cbn [walk_loop]. destruct (Cut raw "${{") as [[lit rest]|]; [|by apply Hf].
  destruct (Cut rest "}}") as [[body rest']|]; [|done].
  intros (t1 & H1 & H1')%bind_Ok_inv. destruct (Hf _ _ _ _ _ HR H1) as (t2 & H2 & HR').
  rewrite H2. cbn. eauto.
Qed.

Section Refs.
  Context `{UnicodeTables}.

(** The bindings hold the values of the references made so far, under names
    numbered from zero. *)
Definition refs_ok (p : string) (gs : list seg) (b : Bindings) : Prop :=
  prefix b = p ∧ (∀ k, is_Some (benv b !! k) → ∃ i, i < next b ∧ k = p +:+ pretty i) ∧
  (∀ name value, InputRef name value ∈ gs → benv b !! name = Some value).

Lemma refs_ok_plain p gs b s : refs_ok p gs b → refs_ok p (gs ++ [Plain s]) b.
Proof. intros (Hp & Hk & Hr). split_and!; [done..|]. intros n v. set_solver. Qed.

Lemma refs_ok_Add p gs b v name b' :
  refs_ok p gs b → Add b v = (name, b') → refs_ok p (gs ++ [InputRef name v]) b'.
Proof.
  intros (Hp & Hk & Hr) [= <- <-]. unfold binding_name. rewrite Hp. split_and!; [done|..]; cbn.
  - intros k. destruct (decide (k = p +:+ pretty (next b))) as [->|Hne]; [eauto with lia|].
    rewrite lookup_insert_ne by done. intros (i & ? & ->)%Hk. eauto with lia.
  - intros n v' [Hin|Hin%list_elem_of_singleton]%elem_of_app.
    + rewrite lookup_insert_ne; [by apply Hr|]. intros <-.
      destruct (Hk (p +:+ pretty (next b))) as (i & Hi & Heq); [eexists; by apply Hr|].
      simplify_eq. lia.
    + simplify_eq. by rewrite lookup_insert_eq.
Qed.

Definition shell_text (p : string) (s1 : string * Bindings) (s2 : ResolvedText) : Prop :=
  ∃ gs, s1.1 = cat seg_shell gs ∧ Text s2 = cat seg_value gs ∧ refs_ok p gs s1.2.

Lemma shell_text_step p ctx lit body s1 s2 s1' :
  shell_text p s1 s2 → shell_step ctx lit body s1 = Ok s1' →
  ∃ s2', text_step ctx lit body s2 = Ok s2' ∧ shell_text p s1' s2'.
Proof.
  destruct s1 as [o b]. intros (gs & Ho & Ht & Hr). cbn in Ho, Hr.
  apply (refs_ok_plain p gs b lit) in Hr. unfold shell_step, text_step. case_decide.
  - intros [= <-]. eexists. split; [done|]. exists (gs ++ [Plain lit]).
    rewrite !cat_app, !cat_one. cbn. rewrite Ho, Ht. done.
  - intros (v & Hv & H1)%bind_Ok_inv. rewrite Hv. cbn [mbind res_bind].
    eexists. split; [done|]. destruct (_ || _).
    + destruct (Add b (Value_String v)) as [name b'] eqn:Ea. simplify_eq.
      exists ((gs ++ [Plain lit]) ++ [InputRef name (Value_String v)]).
      rewrite !cat_app, !cat_one, !str_append_assoc. cbn [seg_shell seg_value fst snd Text].
      rewrite Ht. split_and!; [done..|]. by eapply refs_ok_Add.
    + simplify_eq. exists ((gs ++ [Plain lit]) ++ [Plain (Value_String v)]).
      rewrite !cat_app, !cat_one, !str_append_assoc. cbn [seg_shell seg_value fst snd Text].
      rewrite Ht. split_and!; [done..|]. by apply refs_ok_plain.
Qed.

Lemma shell_text_start p :
  shell_text p ("", MkBindings p 0 ∅) (MkResolvedText "" false false).
Proof.
  exists []. split_and!; [done..|]. split_and!; [done| |].
  - intros k [v Hk]. cbn in Hk. by rewrite lookup_empty in Hk.
  - intros ??. set_solver.
Qed.

(** Rendering for the shell loses nothing: the shell text is a sequence of
    literal stretches and references [${NAME}] such that replacing every
    reference by the value its variable is bound to gives exactly the text
    [ResolveText] resolves, no later binding having overwritten an earlier one. *)
Theorem RenderShell_refs (raw p out : string) (ctx : option Context) (b' : Bindings) :
  RenderShell raw ctx (Some (MkBindings p 0 ∅)) = Ok (out, b') →
  ∃ gs t, out = cat seg_shell gs ∧ ResolveText raw ctx = Ok t ∧ Text t = cat seg_value gs ∧
    ∀ name value, InputRef name value ∈ gs → benv b' !! name = Some value.
Proof.
  intros Hr. eapply (walk_sim (shell_text p)) with (s2 := MkResolvedText "" false false)
    in Hr as (t & Ht & gs & Ho & Hv & _ & _ & Hg).
  - by exists gs, t.
  - intros. by eapply shell_text_step.
  - apply shell_text_start.
Qed.

End Refs.

(** ** Secrets and payload never reach the shell text *)

(** The outcome of evaluating the same text in two indistinguishable contexts. *)
Definition val_rel (v1 v2 : Value) : Prop :=
  (clean v1 ↔ clean v2) ∧ (clean v1 → v1 = v2).

Lemma clean_orb v : Tainted v || Sensitive v = false ↔ clean v.
Proof. unfold clean. by rewrite orb_false_iff. Qed.

Lemma val_rel_flags v1 v2 :
  val_rel v1 v2 → Tainted v1 || Sensitive v1 = Tainted v2 || Sensitive v2.
Proof.
  intros [Hc _]. rewrite <-!clean_orb in Hc.
  destruct (Tainted v1 || _), (Tainted v2 || _); naive_solver.
Qed.

Section Noninterference.
  Context `{UnicodeTables}.

Lemma eval_rel c1 c2 body v1 v2 :
  low_eq c1 c2 → eval body (Some c1) = Ok v1 → eval body (Some c2) = Ok v2 → val_rel v1 v2.
Proof.
  intros HL. unfold eval. cbn [default].
  intros (ts & Hts & (e & He & H1)%bind_Ok_inv)%bind_Ok_inv. rewrite Hts. cbn [mbind res_bind].
  rewrite He. cbn [mbind res_bind]. intros H2.
  assert (clean v1 → v1 = v2) as H12.
  { intros Hc. pose proof (Eval_clean c1 c2 e HL v1 H1 Hc). cbn in *. congruence. }
  assert (clean v2 → v2 = v1) as H21.
  { intros Hc. pose proof (Eval_clean c2 c1 e (low_eq_sym _ _ HL) v2 H2 Hc). cbn in *. congruence. }
  split; [split; intros Hc|done]; [by rewrite <-H12|by rewrite <-H21].
Qed.

(** Resolved texts: flagged alike, and equal when they are not. *)
Definition text_rel (t1 t2 : ResolvedText) : Prop :=
  TTainted t1 || TSensitive t1 = TTainted t2 || TSensitive t2 ∧
  (TTainted t1 || TSensitive t1 = false → Text t1 = Text t2).

Lemma text_step_rel c1 c2 lit body s1 s2 s1' s2' :
  low_eq c1 c2 → text_rel s1 s2 → text_step (Some c1) lit body s1 = Ok s1' →
  text_step (Some c2) lit body s2 = Ok s2' → text_rel s1' s2'.
Proof.
  intros HL [Hf Ht]. unfold text_step. case_decide.
  - intros [= <-] [= <-]. split; [done|]. cbn. intros ?. by rewrite Ht.
  - intros (v1 & H1 & [= <-])%bind_Ok_inv (v2 & H2 & [= <-])%bind_Ok_inv.
    destruct (eval body (Some c1)) eqn:E1, (eval body (Some c2)) eqn:E2; simplify_eq/=.
    pose proof (eval_rel _ _ _ _ _ HL E1 E2) as Hv. pose proof (val_rel_flags _ _ Hv) as Hvf.
    destruct Hv as [_ Heq]. rewrite <-clean_orb in Heq. unfold text_rel. cbn.
    destruct (Tainted v1), (Sensitive v1), (Tainted v2), (Sensitive v2); simplify_eq/=;
      rewrite ?orb_true_r; try done.
    split; [done|]. intros ?. rewrite Ht, Heq by done. done.
Qed.

Lemma ResolveText_rel c1 c2 raw t1 t2 :
  low_eq c1 c2 → ResolveText raw (Some c1) = Ok t1 → ResolveText raw (Some c2) = Ok t2 →
  text_rel t1 t2.
Proof.
  intros HL. unfold ResolveText. apply (walk_rel text_rel); [|done].
  intros *. by apply text_step_rel.
Qed.

(** Rendered shell texts: the same text, the same variables bound. *)
Definition shell_rel (s1 s2 : string * Bindings) : Prop :=
  s1.1 = s2.1 ∧ prefix s1.2 = prefix s2.2 ∧ next s1.2 = next s2.2 ∧
  dom (benv s1.2) = dom (benv s2.2).

Lemma shell_step_rel c1 c2 lit body s1 s2 s1' s2' :
  low_eq c1 c2 → shell_rel s1 s2 → shell_step (Some c1) lit body s1 = Ok s1' →
  shell_step (Some c2) lit body s2 = Ok s2' → shell_rel s1' s2'.
Proof.
  intros HL. destruct s1 as [o1 b1], s2 as [o2 b2]. intros (Ho & Hp & Hn & Hd).
  cbn in Ho, Hp, Hn, Hd. subst o2. unfold shell_step. case_decide.
  - intros [= <-] [= <-]. done.
  - intros (v1 & H1 & H1')%bind_Ok_inv (v2 & H2 & H2')%bind_Ok_inv.
    destruct (eval body (Some c1)) eqn:E1, (eval body (Some c2)) eqn:E2; simplify_eq/=.
    pose proof (eval_rel _ _ _ _ _ HL E1 E2) as Hv. pose proof (val_rel_flags _ _ Hv) as Hvf.
    rewrite <-Hvf in H2'. destruct (Tainted v1 || Sensitive v1) eqn:Ef; simplify_eq.
    + unfold shell_rel, binding_name. cbn. rewrite Hp, Hn, !dom_insert_L, Hd. done.
    + apply clean_orb in Ef. destruct Hv as [_ Heq]. rewrite Heq by done. done.
Qed.

Lemma RenderShell_rel c1 c2 raw b1 b2 s1 s2 :
  low_eq c1 c2 → shell_rel ("", b1) ("", b2) → RenderShell raw (Some c1) (Some b1) = Ok s1 →
  RenderShell raw (Some c2) (Some b2) = Ok s2 → shell_rel s1 s2.
Proof.
  intros HL Hb. unfold RenderShell. cbn [default]. apply (walk_rel shell_rel); [|done].
  intros *. by apply shell_step_rel.
Qed.

End Noninterference.

(** ** Environments *)

Lemma copy_into_lookup {V} (src dst : gmap string V) k :
  copy_into src dst !! k = (src ∪ dst) !! k.
Proof.
  unfold copy_into. rewrite <-(list_to_map_to_list src) at 2.
  generalize (map_to_list src) as l. intros l. f_equal. clear k.
  induction l as [|[k v] l IH]; cbn; [by rewrite (left_id_L _ _)|].
  rewrite IH. by rewrite insert_union_l.
Qed.

Lemma copy_into_union {V} (src dst : gmap string V) : copy_into src dst = src ∪ dst.
Proof. apply map_eq. intros k. apply copy_into_lookup. Qed.

Lemma update_flag_lookup new k flags k' :
  flag (update_flag new k flags) k' = if decide (k = k') then flag new k' else flag flags k'.
Proof.
  unfold update_flag, flag. destruct (default false (new !! k)) eqn:E; case_decide; subst.
  - by rewrite lookup_insert_eq, E.
  - by rewrite lookup_insert_ne.
  - by rewrite lookup_delete_eq, E.
  - by rewrite lookup_delete_ne.
Qed.

Lemma update_flags_lookup env new flags k :
  flag (update_flags env new flags) k =
  if decide (k ∈ dom env) then flag new k else flag flags k.
Proof.
  unfold update_flags. transitivity
    (if decide (k ∈ (map_to_list env).*1) then flag new k else flag flags k).
  - generalize (map_to_list env) as l. intros l. induction l as [|[k' v] l IH]; [done|].
    cbn [foldr fst]. rewrite update_flag_lookup, IH, fmap_cons. cbn [fst].
    repeat case_decide; set_solver.
  - f_equal. apply decide_ext. rewrite elem_of_dom, list_elem_of_fmap. split.
    + intros ([k' v] & -> & Hin%elem_of_map_to_list). by eexists.
    + intros [v Hv]. exists (k, v). by rewrite elem_of_map_to_list.
Qed.

Definition env_flagged (e : env3) (k : string) : bool := flag (taint e) k || flag (sensitive e) k.

(** Environments resolved in indistinguishable contexts. *)
Definition env_rel (e1 e2 : env3) : Prop :=
  dom (out e1) = dom (out e2) ∧ (∀ k, env_flagged e1 k = env_flagged e2 k) ∧
  ∀ k, env_flagged e1 k = false → out e1 !! k = out e2 !! k.

Lemma set_flag_lookup b k m k' :
  flag (set_flag b k m) k' = (bool_decide (k = k') && b) || flag m k'.
Proof.
  unfold set_flag, flag. destruct b; [|by rewrite andb_false_r].
  case_bool_decide as E; [subst; by rewrite lookup_insert_eq|by rewrite lookup_insert_ne].
Qed.

Lemma orb_shuffle (a b c d : bool) : (a || b) || (c || d) = (a || c) || (b || d).
Proof. by destruct a, b, c, d. Qed.

Section Env.
  Context `{UnicodeTables}.

Lemma env_rel_step e1 e2 k t1 t2 :
  env_rel e1 e2 → text_rel t1 t2 →
  env_rel (MkEnv3 (<[k := Text t1]> (out e1)) (set_flag (TTainted t1) k (taint e1))
             (set_flag (TSensitive t1) k (sensitive e1)))
          (MkEnv3 (<[k := Text t2]> (out e2)) (set_flag (TTainted t2) k (taint e2))
             (set_flag (TSensitive t2) k (sensitive e2))).
Proof.
  intros (Hd & Hf & Ho) [Htf Ht]. unfold env_rel, env_flagged in *. cbn.
  split_and!; [by rewrite !dom_insert_L, Hd|..]; intros k'; rewrite !set_flag_lookup;
    specialize (Hf k'); specialize (Ho k').
  - case_bool_decide; [|done]. cbn [andb]. by rewrite (orb_shuffle (TTainted t1)), (orb_shuffle (TTainted t2)), Hf, Htf.
  - case_bool_decide as E; cbn [andb]; intros Hfl.
    + subst k'. rewrite (orb_shuffle (TTainted t1)) in Hfl. apply orb_false_iff in Hfl as [? _].
      by rewrite !lookup_insert_eq, Ht.
    + rewrite !lookup_insert_ne by done. auto.
Qed.

Lemma resolve_keys_rel c1 c2 keys raw e1 e2 e1' e2' :
  low_eq c1 c2 → env_rel e1 e2 → resolve_keys keys raw (Some c1) e1 = Ok e1' →
  resolve_keys keys raw (Some c2) e2 = Ok e2' → env_rel e1' e2'.
Proof.
  intros HL. revert e1 e2. induction keys as [|k keys IH]; intros e1 e2 He; cbn [resolve_keys].
  - by intros [= <-] [= <-].
  - destruct (HasPrefix k _); [done|].
    intros (t1 & H1 & H1')%bind_Ok_inv (t2 & H2 & H2')%bind_Ok_inv.
    destruct (ResolveText _ (Some c1)) eqn:E1, (ResolveText _ (Some c2)) eqn:E2; simplify_eq/=.
    eapply IH; [|exact H1'|exact H2'].
    apply env_rel_step; [done|]. by eapply ResolveText_rel.
Qed.

Lemma resolveEnv_rel c1 c2 raw e1 e2 :
  low_eq c1 c2 → resolveEnv raw (Some c1) = Ok e1 → resolveEnv raw (Some c2) = Ok e2 →
  env_rel e1 e2.
Proof.
  unfold resolveEnv. intros HL H1 H2.
  eapply resolve_keys_rel; [exact HL| |exact H1|exact H2]. by split_and!.
Qed.

(** Overlaying [e2] on [e1]: the common core of [mergeContextEnv] and of the
    loop of [RenderStep]. *)
Definition overlay (e2 e1 : env3) : env3 :=
  MkEnv3 (copy_into (out e2) (out e1)) (update_flags (out e2) (taint e2) (taint e1))
    (update_flags (out e2) (sensitive e2) (sensitive e1)).

Lemma overlay_flagged e2 e1 k :
  env_flagged (overlay e2 e1) k =
  if decide (k ∈ dom (out e2)) then env_flagged e2 k else env_flagged e1 k.
Proof.
  unfold env_flagged, overlay. cbn. rewrite !update_flags_lookup. by case_decide.
Qed.

Lemma overlay_rel e1 e2 f1 f2 :
  env_rel e1 e2 → env_rel f1 f2 → env_rel (overlay f1 e1) (overlay f2 e2).
Proof.
  intros (Hd & Hf & Ho) (Hd' & Hf' & Ho'). unfold env_rel. cbn [out overlay].
  split_and!.
  - by rewrite !copy_into_union, !dom_union_L, Hd, Hd'.
  - intros k. rewrite !overlay_flagged, Hf, Hf', Hd'. done.
  - intros k. rewrite overlay_flagged, !copy_into_union. case_decide as Hk; intros Hfl.
    + destruct (out f1 !! k) as [v|] eqn:E1; [|by apply not_elem_of_dom in E1].
      rewrite (lookup_union_Some_l _ _ _ v E1). symmetry. apply lookup_union_Some_l.
      by rewrite <-Ho'.
    + assert (k ∉ dom (out f2)) as Hk2 by by rewrite <-Hd'.
      apply not_elem_of_dom in Hk, Hk2. rewrite !lookup_union_r by done. auto.
Qed.

Definition ctx_env (c : Context) : env3 := MkEnv3 (Env c) (EnvTaint c) (EnvSensitive c).

Lemma mergeContextEnv_low_eq c1 c2 e1 e2 :
  low_eq c1 c2 → env_rel e1 e2 → low_eq (mergeContextEnv c1 e1) (mergeContextEnv c2 e2).
Proof.
  intros HL He. assert (env_rel (ctx_env c1) (ctx_env c2)) as Hc.
  { destruct HL. split_and!; [|done..].
    apply set_eq. intros k. rewrite !elem_of_dom. apply le_env_dom. }
  destruct (overlay_rel _ _ _ _ Hc He) as (Hd & Hf & Ho). destruct HL. split; try done.
  intros m. rewrite <-!elem_of_dom. cbn in *. by rewrite Hd.
Qed.

Lemma cloneContext_low_eq c1 c2 :
  low_eq c1 c2 → low_eq (cloneContext (Some c1)) (cloneContext (Some c2)).
Proof.
  intros []. split; cbn; try done; [by rewrite le_untrusted|].
  unfold cloneSet. case_decide; [set_solver|done].
Qed.

Lemma wrap_Ok {A} w (m : res render_error A) a : wrap w m = Ok a → m = Ok a.
Proof. by destruct m; cbn; [intros [= ->]|]. Qed.

Lemma NewBindings_empty : NewBindings "" = MkBindings defaultBindingPrefix 0 ∅.
Proof. reflexivity. Qed.

(** The bindings of a step use the reserved prefix only. *)
Lemma RenderShell_names raw ctx o b k :
  RenderShell raw ctx (Some (NewBindings "")) = Ok (o, b) →
  HasPrefix k defaultBindingPrefix = false → benv b !! k = None.
Proof.
  rewrite NewBindings_empty. intros Hr Hk.
  eapply (walk_sim (shell_text defaultBindingPrefix)) with (s2 := MkResolvedText "" false false)
    in Hr as (t & _ & gs & _ & _ & _ & Hdom & _).
  - destruct (benv b !! k) eqn:E; [|done].
    destruct (Hdom k) as (i & _ & ->); [by eexists|].
    assert (HasPrefix (defaultBindingPrefix +:+ pretty i) defaultBindingPrefix = true)
      by (apply HasPrefix_true; eauto). congruence.
  - intros. by eapply shell_text_step.
  - apply shell_text_start.
Qed.

(** C20: The taint boundary of a step (noninterference): take two runs of the
    same step in contexts that differ only in the values of the secrets, in the
    event payload and in environment variables flagged as tainted or sensitive.
    If both render, the shell command lines are the same text, the same variables
    are set, the same ones are flagged, and every variable that is neither flagged
    nor an input binding holds the same value. *)
Theorem RenderStep_noninterference (run : string) (jobEnv stepEnv : gmap string string)
    (c1 c2 : Context) (r1 r2 : RenderedStep) :
  low_eq c1 c2 →
  RenderStep (MkStepInput run jobEnv stepEnv c1) = Ok r1 →
  RenderStep (MkStepInput run jobEnv stepEnv c2) = Ok r2 →
  let fl r k := flag (REnvTaint r) k || flag (REnvSensitive r) k in
  Run r1 = Run r2 ∧ dom (REnv r1) = dom (REnv r2) ∧ (∀ k, fl r1 k = fl r2 k) ∧
  ∀ k, fl r1 k = false → HasPrefix k defaultBindingPrefix = false →
    REnv r1 !! k = REnv r2 !! k.
Proof.
  intros HL%cloneContext_low_eq.
  unfold RenderStep. cbn -[mergeContextEnv cloneContext resolveEnv RenderShell NewBindings].
  intros (j1 & Hj1 & (s1 & Hs1 & ([o1 b1] & Ho1 & [= <-])%bind_Ok_inv)%bind_Ok_inv)%bind_Ok_inv.
  intros (j2 & Hj2 & (s2 & Hs2 & ([o2 b2] & Ho2 & [= <-])%bind_Ok_inv)%bind_Ok_inv)%bind_Ok_inv.
  apply wrap_Ok in Hj1, Hj2, Hs1, Hs2.
  pose proof (resolveEnv_rel _ _ _ _ _ HL Hj1 Hj2) as Hj.
  pose proof (mergeContextEnv_low_eq _ _ _ _ HL Hj) as HL1.
  pose proof (resolveEnv_rel _ _ _ _ _ HL1 Hs1 Hs2) as Hs.
  pose proof (mergeContextEnv_low_eq _ _ _ _ HL1 Hs) as HL2.
  destruct (overlay_rel _ _ _ _ Hj Hs) as (Hd & Hf & He).
  destruct (RenderShell_rel _ _ _ _ _ _ _ HL2 ltac:(done) Ho1 Ho2) as (Heq & Hp & Hn & Hb).
  cbn [Run REnv REnvTaint REnvSensitive fst snd] in *. split_and!; [done| |done|].
  - rewrite !(copy_into_union (benv _)), !dom_union_L, Hb. cbn in Hd. by rewrite Hd.
  - intros k Hfl Hk. rewrite !(copy_into_union (benv _)).
    rewrite !lookup_union_r by (eapply RenderShell_names; eauto). by apply He.
Qed.

End Env.

(** ** Instances *)

Definition sample_run : string :=
  "echo ${{ github.event.title }} ${{ vars.A }} '${{ secrets.K }}'".

Definition sample_shell : res render_error (string * Bindings) :=
  @RenderShell latin1_tables sample_run (Some (sample_ctx "s3cret" "$(id)"))
    (Some (MkBindings "IN_" 0 ∅)).

Lemma RenderShell_refs_witness :
  match sample_shell with
  | Ok (out, _) => out = "echo ${IN_0} x '${IN_1}'" ∧ ∃ gs t, out = cat seg_shell gs ∧
      @ResolveText latin1_tables sample_run (Some (sample_ctx "s3cret" "$(id)")) = Ok t ∧
      Text t = cat seg_value gs
  | Err _ => False
  end.
Proof.
  assert (∃ out b, sample_shell = Ok (out, b) ∧ out = "echo ${IN_0} x '${IN_1}'")
    as (out & b & E & Ho) by (vm_compute; eauto).
  rewrite E. split; [exact Ho|].
  unfold sample_shell in E. destruct (RenderShell_refs _ _ _ _ _ E) as (gs & t & H1 & H2 & H3 & _).
  exists gs, t. split_and!; assumption.
Defined.

Definition sample_step (s t : string) : res render_error RenderedStep :=
  @RenderStep latin1_tables
    (MkStepInput sample_run {["T" := "${{ secrets.K }}"]} {["U" := "${{ env.T }}"]} (sample_ctx s t)).

Lemma two_ok {E A} (P : A → A → Prop) (x y : res E A) :
  is_ok x = true → is_ok y = true → (∀ a b, x = Ok a → y = Ok b → P a b) →
  match x, y with Ok a, Ok b => P a b | _, _ => False end.
Proof. destruct x, y; naive_solver. Qed.

Lemma RenderStep_noninterference_witness :
  match sample_step "s1" "t1", sample_step "s2" "t2" with
  | Ok r1, Ok r2 => Run r1 = Run r2
  | _, _ => False
  end.
Proof.
  apply two_ok; [vm_compute; reflexivity..|]. intros r1 r2 E1 E2.
  unfold sample_step in E1, E2.
  exact (proj1 (RenderStep_noninterference _ _ _ _ _ _ _ (sample_low_eq _ _ _ _) E1 E2)).
Defined.
