(* ===== verification/Concurrency.v ===== *)
(** * Concurrency: workflow concurrency groups and the run conclusion

    internal/actions/concurrency (resolve.go, the pure part of concurrency.go)
    and internal/actions/runstate/cancel.go.  [walkExpressions] and [eval] of
    resolve.go are the same code as in render.go and shared with Render.v. *)

From S2P Require Import Prelude GoString Expr Eval Render.
Local Open Scope nat_scope.

(** ** resolve.go *)

Record EvalContext := MkEvalContext {
  EventPayload : list (string * json); HeadSHA : string; HeadRef : string
}.

Definition MaxGroupChars : nat := 256.

Inductive group_error :=
| NilWorkflow
| ResolveGroupError (e : render_error)
| GroupTooLong.

Definition group_context (i : EvalContext) : Context :=
  MkContext ∅ ∅ ∅ ∅ ∅ (MkShithubContext (EventPayload i) "" (HeadSHA i) (HeadRef i) "")
    DefaultUntrusted (MkJobStatus false false).

Definition validateGroup (group : string) : res group_error string :=
  let group := TrimSpace group in
  if decide (group = "") then Ok ""
  else if bool_decide (MaxGroupChars < RuneCountInString group) then Err GroupTooLong
  else Ok group.

Section Resolve.
  Context `{UnicodeTables}.

Definition group_step (ctx : Context) (literal body : string) (out : string)
  : res render_error string :=
  if decide (body = "") then Ok (out +:+ literal)
  else v ← lift (eval body (Some ctx)); Ok (out +:+ literal +:+ Value_String v).

Definition ResolveGroup (raw : string) (i : EvalContext) : res group_error string :=
  match walkExpressions raw (group_step (group_context i)) "" with
  | Err e => Err (ResolveGroupError e)
  | Ok out => validateGroup out
  end.

(** The [concurrency:] block of a workflow. *)
Record ConcurrencySpec := MkConcurrencySpec { Group : string; CancelInProgress : bool }.

Record ResolveInput := MkResolveInput {
  Workflow : option ConcurrencySpec; RPayload : list (string * json);
  RSHA : string; RRef : string
}.

Record Resolution := MkResolution { RGroup : string; RCancel : bool }.

Definition Resolve (i : ResolveInput) : res group_error Resolution :=
  match Workflow i with
  | None => Err NilWorkflow
  | Some c =>
      let raw := TrimSpace (Group c) in
      if decide (raw = "") then Ok (MkResolution "" false)
      else
        group ← ResolveGroup raw (MkEvalContext (RPayload i) (RSHA i) (RRef i));
        if decide (group = "") then Ok (MkResolution "" false)
        else Ok (MkResolution group (CancelInProgress c))
  end.

End Resolve.

(** ** runstate/cancel.go *)

Inductive CheckConclusion :=
| Success | Failure | Neutral | ConclusionCancelled | ConclusionSkipped | TimedOut
| ActionRequired | Stale.

Inductive WorkflowJobStatus := JobQueued | JobRunning | JobCompleted | JobCancelled | JobSkipped.

#[export] Instance CheckConclusion_eq_dec : EqDecision CheckConclusion.
Proof. solve_decision. Defined.
#[export] Instance WorkflowJobStatus_eq_dec : EqDecision WorkflowJobStatus.
Proof. solve_decision. Defined.

Record Job := MkJob { JStatus : WorkflowJobStatus; JConclusion : option CheckConclusion }.

Definition terminal (j : Job) : bool :=
  match JStatus j with JobCompleted | JobCancelled | JobSkipped => true | _ => false end.

Definition failing (c : CheckConclusion) : bool :=
  match c with Failure | TimedOut | ActionRequired => true | _ => false end.

(** The loop of [DeriveWorkflowRunConclusion]; the result [None] stands for
    [("", false)], a run that is not complete. *)
Fixpoint derive_loop (jobs : list Job) (worst : CheckConclusion)
    (firstFailure : option CheckConclusion) : option CheckConclusion :=
  match jobs with
  | [] => Some (default worst firstFailure)
  | job :: jobs =>
      if negb (terminal job) then None
      else if decide (JStatus job = JobCancelled) then
        derive_loop jobs ConclusionCancelled firstFailure
      else
        match JConclusion job with
        | None => Some Failure
        | Some c =>
            if failing c then
              derive_loop jobs worst (match firstFailure with None => Some c | f => f end)
            else if decide (c = ConclusionCancelled) then
              derive_loop jobs ConclusionCancelled firstFailure
            else derive_loop jobs worst firstFailure
        end
  end.

Definition DeriveWorkflowRunConclusion (jobs : list Job) : option CheckConclusion :=
  if decide (jobs = []) then Some Failure else derive_loop jobs Success None.
