(* ===== verification/ConcurrencyFacts.v ===== *)
(** * ConcurrencyFacts: concurrency groups and run conclusions *)

From S2P Require Import Prelude GoString Expr Eval ExprFacts ExprPrint EvalFacts.
From S2P Require Import Render RenderFacts Concurrency.
Local Open Scope nat_scope.

(** The conclusion a job contributes. *)
Definition contributes (j : Job) : option CheckConclusion :=
  if decide (JStatus j = JobCancelled) then Some ConclusionCancelled else JConclusion j.

(** A job whose outcome is known: terminal, and with a conclusion unless it
    was cancelled. *)
Definition settled (j : Job) : bool :=
  terminal j && bool_decide (is_Some (contributes j)).

(** The abstract rollup: the first failing conclusion in job order; else
    cancelled if some job is; else success. *)
Definition worst_conclusion (cs : list CheckConclusion) : CheckConclusion :=
  match filter (fun c => failing c = true) cs with
  | c :: _ => c
  | [] => if decide (ConclusionCancelled ∈ cs) then ConclusionCancelled else Success
  end.

Lemma derive_loop_settled (jobs : list Job) (w : CheckConclusion) (ff : option CheckConclusion) :
  forallb settled jobs = true → failing w = false →
  derive_loop jobs w ff =
    Some (match ff, filter (fun c => failing c = true) (omap contributes jobs) with
          | Some f, _ => f
          | None, c :: _ => c
          | None, [] => if decide (ConclusionCancelled ∈ omap contributes jobs)
                        then ConclusionCancelled else w
          end).
Proof.
  revert w ff. induction jobs as [|j jobs IH]; intros w ff Hs Hw; cbn in *.
  - destruct ff; [done|]. by rewrite decide_False by set_solver.
  - bools. unfold settled, contributes in *. bools. rewrite H. cbn [negb].
    destruct (decide (JStatus j = JobCancelled)).
    + rewrite IH by done. cbn. destruct ff; [done|].
      destruct (filter _ _); [|done]. f_equal. decide_goal; set_solver.
    + destruct (JConclusion j) as [c|]; [|by destruct H1].
      cbn. destruct (failing c) eqn:Ef; cbn.
      * rewrite IH by done. by destruct ff.
      * destruct (decide (c = ConclusionCancelled)).
        -- subst. rewrite IH by done. destruct ff; [done|]. destruct (filter _ _); [|done].
           f_equal. decide_goal; set_solver.
        -- rewrite IH by done. destruct ff; [done|]. destruct (filter _ _); [|done].
           f_equal. decide_goal; set_solver.
Qed.

(** Worst job wins: on a nonempty run all of whose jobs are settled, the
    derived conclusion is the first failure, time-out or required action in job
    order, else cancelled if any job was, else success. *)
Theorem Derive_worst (jobs : list Job) :
  jobs ≠ [] → forallb settled jobs = true →
  DeriveWorkflowRunConclusion jobs = Some (worst_conclusion (omap contributes jobs)).
Proof.
  intros Hne Hs. unfold DeriveWorkflowRunConclusion. rewrite decide_False by done.
  rewrite derive_loop_settled by done. unfold worst_conclusion. by destruct (filter _ _).
Qed.

Lemma Derive_worst_witness :
  let jobs := [MkJob JobCompleted (Some Success); MkJob JobCancelled None;
               MkJob JobCompleted (Some TimedOut); MkJob JobCompleted (Some Failure)] in
  DeriveWorkflowRunConclusion jobs = Some TimedOut.
Proof. intros jobs. exact (Derive_worst jobs ltac:(discriminate) eq_refl). Defined.

(** A completed job without a conclusion ends the rollup at once: the run
    is reported complete with [failure] although a later job is still running.
    (With the two jobs in the other order the run is not complete.) *)
Theorem Derive_null_conclusion_order (j1 j2 : Job) :
  terminal j1 = true → contributes j1 = None → terminal j2 = false →
  DeriveWorkflowRunConclusion [j1; j2] = Some Failure ∧
  DeriveWorkflowRunConclusion [j2; j1] = None.
Proof.
  intros H1 Hc H2. unfold DeriveWorkflowRunConclusion, contributes in *. cbn.
  rewrite H1, H2. cbn. case_decide; [done|]. by rewrite Hc.
Qed.

Lemma Derive_null_conclusion_order_witness :
  DeriveWorkflowRunConclusion [MkJob JobCompleted None; MkJob JobRunning None] = Some Failure ∧
  DeriveWorkflowRunConclusion [MkJob JobRunning None; MkJob JobCompleted None] = None.
Proof. by apply Derive_null_conclusion_order. Defined.

(** ** Concurrency groups *)

Lemma group_ref_not_sensitive (i : EvalContext) (path : list string) (v : Value) :
  evalRef path (group_context i) = Ok v → Sensitive v = false.
Proof.
  unfold evalRef, evalShithub, evalEventPath. intros E.
  repeat (case_match; simplify_eq/=); done.
Qed.

(** With no secrets in the context no value is sensitive. *)
Lemma group_not_sensitive (i : EvalContext) (e : Expr) (v : Value) :
  Eval e (group_context i) = Ok v → Sensitive v = false.
Proof.
  revert v. induction e as [s|b| |path|f args IH|op X IH|op L R IHL IHR] using Expr_rect';
    intros v; cbn [Eval]; try by intros [= <-].
  - apply group_ref_not_sensitive.
  - unfold evalCall, strFnArity2.
    rewrite Forall_forall in IH.
    destruct args as [|x [|y [|z args]]]; repeat case_decide; try done; try (by intros [= <-]);
      intros (a & Ha & (b & Hb & [= <-])%bind_Ok_inv)%bind_Ok_inv; cbn;
      rewrite (IH x ltac:(set_solver) a), (IH y ltac:(set_solver) b) by done; done.
  - intros (x & Hx & [= <-])%bind_Ok_inv. cbn. auto.
  - unfold evalBinary. intros (l & Hl & H)%bind_Ok_inv. revert H.
    repeat case_decide; try (destruct (Truthy l)); cbn [negb]; try (by intros [= <-]; auto);
      intros (r & Hr & Hv)%bind_Ok_inv; simplify_eq; cbn; rewrite (IHL l), (IHR r) by done; done.
Qed.

Definition group_rel (o : string) (t : ResolvedText) : Prop := o = Text t ∧ TSensitive t = false.

(** A resolved concurrency group holds no secret and fits its database
    column: it is the trimmed text the runner's [ResolveText] gives in the same
    context, nothing sensitive went into it, and it has at most 256 characters. *)
Theorem ResolveGroup_safe `{UnicodeTables} (raw g : string) (i : EvalContext) :
  ResolveGroup raw i = Ok g →
  RuneCountInString g ≤ 256 ∧
  ∃ t, ResolveText raw (Some (group_context i)) = Ok t ∧ TSensitive t = false ∧
       g = TrimSpace (Text t).
Proof.
  unfold ResolveGroup. destruct (walkExpressions _ _ _) as [o|] eqn:E; [|done].
  intros Hg. split.
  - revert Hg. unfold validateGroup. case_decide; [by intros [= <-]; cbn; lia|].
    case_bool_decide; [done|]. intros [= <-]. unfold MaxGroupChars in *. lia.
  - eapply (walk_sim group_rel) with (s2 := MkResolvedText "" false false) in E
      as (t & Ht & -> & Hs); [|clear|by split].
    + exists t. split_and!; [exact Ht|done|]. revert Hg. unfold validateGroup.
      case_decide; [by intros [= <-]|]. case_bool_decide; [done|]. by intros [= <-].
    + intros lit body s1 s2 s1' [-> Hs]. unfold group_step, text_step. case_decide.
      * intros [= <-]. eexists. split; [done|]. by split.
      * destruct (eval body _) as [v|] eqn:Ev; [|done]. intros [= <-]. eexists. split; [done|].
        split; [done|]. cbn. unfold eval in Ev.
        apply bind_Ok_inv in Ev as (ts & _ & (e & _ & He)%bind_Ok_inv).
        by rewrite (group_not_sensitive i e v He).
Qed.

Lemma ResolveGroup_safe_witness :
  RuneCountInString "ci-refs/heads/trunk" ≤ 256 ∧
  ∃ t, @ResolveText latin1_tables "ci-${{ github.ref }} " (Some (group_context
         (MkEvalContext [] "abc" "refs/heads/trunk"))) = Ok t ∧ TSensitive t = false ∧
       "ci-refs/heads/trunk" = TrimSpace (Text t).
Proof.
  apply (@ResolveGroup_safe latin1_tables "ci-${{ github.ref }} " "ci-refs/heads/trunk"
    (MkEvalContext [] "abc" "refs/heads/trunk")).
  vm_compute. reflexivity.
Defined.
