(* ===== verification/Trigger.v ===== *)
(** * Trigger: which events start a workflow

    internal/actions/trigger: glob.go (filter patterns) and match.go (the [on:]
    predicates).  A pattern is compiled to the regular expression patternToRegex
    writes; the expression is kept both as the text handed to [regexp.MustCompile]
    and as the list of its parts, which [match_items] runs with the semantics of
    package regexp (no flags: [.] does not match a newline, [^/] does).  Matching
    is on bytes, which is matching on runes for UTF-8 text.  The memo table
    [globCache] does not change the result and is left out. *)

From S2P Require Import Prelude GoString.
Local Open Scope nat_scope.

(** ** glob.go *)

(** What patternToRegex writes for a piece of the pattern. *)
Inductive item :=
| OptSlashAny   (* a slash and any text, or nothing *)
| OptAnySlash   (* any text and a slash, or nothing *)
| AnySeq        (* any text *)
| NoSlashSeq    (* text without a slash *)
| Literal (c : ascii).

#[export] Instance item_eq_dec : EqDecision item.
Proof. solve_decision. Defined.

Definition isRegexMeta (c : ascii) : bool :=
  bool_decide (c ∈ ["."; "+"; "?"; "("; ")"; "["; "]"; "{"; "}"; "|"; "^"; "$"; "\"]%char).

Definition item_source (i : item) : string :=
  match i with
  | OptSlashAny => "(?:/.*)?"
  | OptAnySlash => "(?:.*/)?"
  | AnySeq => ".*"
  | NoSlashSeq => "[^/]*"
  | Literal c => if isRegexMeta c then String "\" (String c "") else String c ""
  end.

(** The loop of patternToRegex. *)
Fixpoint pattern_items (p : string) : list item :=
  match p with
  | "" => []
  | String a p1 =>
      match p1 with
      | String b p2 =>
          match p2 with
          | String c p3 =>
              if decide (a = "/" ∧ b = "*" ∧ c = "*")%char then OptSlashAny :: pattern_items p3
              else if decide (a = "*" ∧ b = "*" ∧ c = "/")%char then OptAnySlash :: pattern_items p3
              else if decide (a = "*" ∧ b = "*")%char then AnySeq :: pattern_items p2
              else if decide (a = "*"%char) then NoSlashSeq :: pattern_items p1
              else Literal a :: pattern_items p1
          | "" =>
              if decide (a = "*" ∧ b = "*")%char then AnySeq :: pattern_items p2
              else if decide (a = "*"%char) then NoSlashSeq :: pattern_items p1
              else Literal a :: pattern_items p1
          end
      | "" => if decide (a = "*"%char) then [NoSlashSeq] else [Literal a]
      end
  end.

Fixpoint items_source (l : list item) : string :=
  match l with [] => "" | i :: l => item_source i +:+ items_source l end.

Definition patternToRegex (p : string) : string :=
  String "^" (items_source (pattern_items p) +:+ "$").

(** [.] and [[^/]]. *)
Definition dot (c : ascii) : bool := bool_decide (c ≠ "010"%char).
Definition not_slash (c : ascii) : bool := bool_decide (c ≠ "/"%char).

(** [x*] followed by what [k] accepts. *)
Fixpoint star (x : ascii → bool) (k : string → bool) (s : string) : bool :=
  k s || match s with String c s => x c && star x k s | "" => false end.

(** [.*/] followed by what [k] accepts. *)
Fixpoint upto_slash (k : string → bool) (s : string) : bool :=
  match s with
  | String c s => (bool_decide (c = "/"%char) && k s) || (dot c && upto_slash k s)
  | "" => false
  end.

Fixpoint match_items (l : list item) (s : string) : bool :=
  match l with
  | [] => bool_decide (s = "")
  | Literal c :: l =>
      match s with String d s => bool_decide (c = d) && match_items l s | "" => false end
  | AnySeq :: l => star dot (match_items l) s
  | NoSlashSeq :: l => star not_slash (match_items l) s
  | OptSlashAny :: l =>
      match_items l s ||
      match s with
      | String c s => bool_decide (c = "/"%char) && star dot (match_items l) s
      | "" => false
      end
  | OptAnySlash :: l => match_items l s || upto_slash (match_items l) s
  end.

Definition globMatch (pattern s : string) : bool := match_items (pattern_items pattern) s.

(** The text of an exclusion [!pattern]. *)
Definition exclusion (p : string) : option string := strip_prefix "!" p.

Fixpoint matchAny_loop (patterns : list string) (s : string) (matched hasInclude : bool)
  : bool * bool :=
  match patterns with
  | [] => (matched, hasInclude)
  | p :: patterns =>
      match exclusion p with
      | Some q => matchAny_loop patterns s (if globMatch q s then false else matched) hasInclude
      | None => matchAny_loop patterns s (if globMatch p s then true else matched) true
      end
  end.

Fixpoint exclude_loop (patterns : list string) (s : string) (matched : bool) : bool :=
  match patterns with
  | [] => matched
  | p :: patterns =>
      exclude_loop patterns s
        (match exclusion p with
         | Some q => if globMatch q s then false else matched
         | None => matched
         end)
  end.

Definition matchAny (patterns : list string) (s : string) : bool :=
  if decide (patterns = []) then true
  else
    let '(matched, hasInclude) := matchAny_loop patterns s false false in
    if negb hasInclude then exclude_loop patterns s true else matched.

(** ** event.go, match.go *)

Inductive EventKind := EventPush | EventPullRequest | EventSchedule | EventWorkflowDispatch
| EventOther (kind : string).

Record Event := MkEvent {
  EKind : EventKind; ERef : string; Branch : string; Tag : string; Action : string;
  BaseRef : string; EHeadRef : string; ChangedPaths : list string; Cron : string
}.

Record PushTrigger := MkPush { Branches : list string; Tags : list string; Paths : list string }.

Record PullRequestTrigger := MkPullRequest {
  Types : list string; PRBranches : list string; PRPaths : list string
}.

Record DispatchInput := MkDispatchInput {
  InputName : string; Description : string; InputType : string; Default : string; Required : bool;
  Options : list string
}.

(** A schedule entry is its cron expression, a dispatch trigger its inputs. *)
Record TriggerSet := MkTriggerSet {
  Push : option PushTrigger; PullRequest : option PullRequestTrigger;
  Schedule : list string; WorkflowDispatch : option (list DispatchInput)
}.

Definition defaultPRTypes : list string := ["opened"; "synchronize"; "reopened"].

Definition containsString (haystack : list string) (needle : string) : bool :=
  existsb (fun s => bool_decide (s = needle)) haystack.

Definition matchPaths (filter changed : list string) : bool :=
  if decide (filter = []) then true else existsb (matchAny filter) changed.

Definition matchPush (pt : option PushTrigger) (ev : Event) : bool :=
  match pt with
  | None => false
  | Some pt =>
      if decide (Branch ev ≠ "") then
        if decide (Branches pt = [] ∧ Tags pt = []) then matchPaths (Paths pt) (ChangedPaths ev)
        else if decide (Branches pt = []) then false
        else if negb (matchAny (Branches pt) (Branch ev)) then false
        else matchPaths (Paths pt) (ChangedPaths ev)
      else if decide (Tag ev ≠ "") then
        if decide (Branches pt = [] ∧ Tags pt = []) then matchPaths (Paths pt) (ChangedPaths ev)
        else if decide (Tags pt = []) then false
        else if negb (matchAny (Tags pt) (Tag ev)) then false
        else matchPaths (Paths pt) (ChangedPaths ev)
      else false
  end.

Definition matchPullRequest (prt : option PullRequestTrigger) (ev : Event) : bool :=
  match prt with
  | None => false
  | Some prt =>
      let types := if decide (Types prt = []) then defaultPRTypes else Types prt in
      if negb (containsString types (Action ev)) then false
      else if bool_decide (PRBranches prt ≠ []) && negb (matchAny (PRBranches prt) (BaseRef ev))
      then false
      else matchPaths (PRPaths prt) (ChangedPaths ev)
  end.

Definition matchSchedule (entries : list string) (ev : Event) : bool :=
  if decide (entries = []) then false else containsString entries (Cron ev).

Definition Match (w : option TriggerSet) (ev : Event) : bool :=
  match w with
  | None => false
  | Some on =>
      match EKind ev with
      | EventPush => matchPush (Push on) ev
      | EventPullRequest => matchPullRequest (PullRequest on) ev
      | EventSchedule => matchSchedule (Schedule on) ev
      | EventWorkflowDispatch => bool_decide (is_Some (WorkflowDispatch on))
      | EventOther _ => false
      end
  end.
