(* ===== verification/TriggerFacts.v ===== *)
(** * TriggerFacts: filter patterns mean what the documentation says *)

From S2P Require Import Prelude GoString Trigger.
Local Open Scope nat_scope.

(** ** The matcher and the languages of the items *)

Definition dots (s : string) : bool := str_forallb dot s.
Definition no_slash (s : string) : bool := str_forallb not_slash s.

(** The texts an item matches. *)
Definition item_lang (i : item) (s : string) : Prop :=
  match i with
  | Literal c => s = String c ""
  | AnySeq => dots s = true
  | NoSlashSeq => no_slash s = true
  | OptSlashAny => s = "" ∨ ∃ t, s = String "/" t ∧ dots t = true
  | OptAnySlash => s = "" ∨ ∃ t, s = t +:+ "/" ∧ dots t = true
  end.

Inductive items_lang : list item → string → Prop :=
| lang_nil : items_lang [] ""
| lang_cons i l s t : item_lang i s → items_lang l t → items_lang (i :: l) (s +:+ t).

Lemma str_forallb_app p s t : str_forallb p (s +:+ t) = str_forallb p s && str_forallb p t.
Proof.
  induction s as [|c s IH]; [done|]. rewrite str_app_cons.
  cbn. by rewrite IH, andb_assoc.
Qed.

Lemma star_true x k s :
  star x k s = true ↔ ∃ a b, s = a +:+ b ∧ str_forallb x a = true ∧ k b = true.
Proof.
  induction s as [|c s IH]; cbn [star]; rewrite orb_true_iff.
  - split.
    + intros [Hk|]; [|done]. by exists "", "".
    + intros (a & b & E & _ & Hk). left. destruct a; [by rewrite str_app_empty in E; subst|done].
  - rewrite andb_true_iff, IH. split.
    + intros [Hk|[Hc (a & b & -> & Ha & Hk)]]; [by exists "", (String c s)|].
      exists (String c a), b. split_and!; [done| |done]. cbn. by rewrite Hc.
    + intros ([|d a] & b & E & Ha & Hk); [left; rewrite str_app_empty in E; by subst|right].
      rewrite str_app_cons in E. simplify_eq. cbn in Ha. bools.
      eauto 10.
Qed.

Lemma upto_slash_true k s :
  upto_slash k s = true ↔ ∃ a b, s = a +:+ String "/" b ∧ dots a = true ∧ k b = true.
Proof.
  induction s as [|c s IH]; cbn [upto_slash].
  - split; [done|]. intros ([|] & b & E & _); done.
  - rewrite orb_true_iff, !andb_true_iff, bool_decide_eq_true, IH. split.
    + intros [[-> Hk]|[Hc (a & b & -> & Ha & Hk)]]; [by exists "", s|].
      exists (String c a), b. split_and!; [done| |done]. unfold dots in *. cbn. by rewrite Hc.
    + intros ([|d a] & b & E & Ha & Hk).
      * rewrite str_app_empty in E. simplify_eq. by left.
      * rewrite str_app_cons in E.
        simplify_eq. unfold dots in *. cbn in Ha. bools. right. eauto 10.
Qed.

Lemma items_lang_cons i l s :
  items_lang (i :: l) s ↔ ∃ a b, s = a +:+ b ∧ item_lang i a ∧ items_lang l b.
Proof.
  split.
  - inversion 1; subst. eauto.
  - intros (a & b & -> & Ha & Hb). by constructor.
Qed.

Lemma match_items_lang (l : list item) (s : string) :
  match_items l s = true ↔ items_lang l s.
Proof.
  revert s. induction l as [|i l IH]; intros s.
  - cbn. rewrite bool_decide_eq_true. split; [intros ->; constructor|by inversion 1].
  - rewrite items_lang_cons. destruct i; cbn [match_items item_lang].
    + rewrite orb_true_iff, IH. split.
      * intros [Hl|Hs]; [by exists "", s; eauto|]. destruct s as [|c s]; [done|]. bools. subst.
        apply star_true in H0 as (a & b & -> & Ha & Hb). rewrite IH in Hb.
        exists (String "/" a), b. eauto 10.
      * intros (a & b & -> & [->|(t & -> & Ht)] & Hb); [by left|right].
        rewrite str_app_cons. cbn.
        apply star_true. exists t, b. rewrite IH. eauto.
    + rewrite orb_true_iff, IH, upto_slash_true. split.
      * intros [Hl|(a & b & -> & Ha & Hb)]; [by exists "", s; eauto|]. rewrite IH in Hb.
        exists (a +:+ "/"), b. rewrite str_append_assoc. eauto 10.
      * intros (a & b & -> & [->|(t & -> & Ht)] & Hb); [by left|right].
        exists t, b. rewrite str_append_assoc, IH. eauto.
    + rewrite star_true. by setoid_rewrite IH.
    + rewrite star_true. by setoid_rewrite IH.
    + split.
      * destruct s as [|d s]; [done|]. intros ?. bools. subst. exists (String d ""), s.
        by rewrite <-IH.
      * intros (a & b & -> & -> & Hb). rewrite str_app_cons, str_app_empty. cbn. rewrite bool_decide_eq_true_2 by done. by apply IH.
Qed.

(** ** The documented pattern forms *)

(** A pattern without stars. *)
Definition plain (p : string) : bool := str_forallb (fun c => bool_decide (c ≠ "*"%char)) p.

Fixpoint literals (p : string) : list item :=
  match p with "" => [] | String c p => Literal c :: literals p end.

Definition starts_star (q : string) : bool :=
  match q with String c _ => bool_decide (c = "*"%char) | "" => false end.

Lemma pattern_items_literal (c : ascii) (q : string) :
  c ≠ "*"%char → starts_star q = false → pattern_items (String c q) = Literal c :: pattern_items q.
Proof.
  intros Hc Hq. destruct q as [|b q]; cbn [pattern_items]; [by rewrite decide_False|].
  cbn in Hq. bools. destruct q as [|d q]; rewrite !decide_False by naive_solver; done.
Qed.

Lemma pattern_items_plain (l q : string) :
  plain l = true → starts_star q = false → pattern_items (l +:+ q) = literals l ++ pattern_items q.
Proof.
  intros Hl Hq. induction l as [|c l IH]; [done|]. cbn in Hl. bools.
  rewrite str_app_cons.
  rewrite pattern_items_literal; [by rewrite IH|done|].
  destruct l as [|d l]; [done|]. cbn in *. bools. by apply bool_decide_eq_false_2.
Qed.

Lemma literals_lang (l : string) (re : list item) (s : string) :
  items_lang (literals l ++ re) s ↔ ∃ t, s = l +:+ t ∧ items_lang re t.
Proof.
  revert s. induction l as [|c l IH]; intros s; cbn [literals app].
  - split; [by exists s|by intros (t & -> & ?)].
  - rewrite items_lang_cons. setoid_rewrite IH. split.
    + intros (a & b & -> & -> & t & -> & Ht). by exists t.
    + intros (t & -> & Ht). exists (String c ""), (l +:+ t). split_and!; [done..|eauto].
Qed.

(** The last, starred, part of a pattern after a plain prefix. *)
Lemma globMatch_suffix (l q : string) (i : item) (s : string) :
  plain l = true → starts_star q = false → pattern_items q = [i] →
  globMatch (l +:+ q) s = true ↔ ∃ t, s = l +:+ t ∧ item_lang i t.
Proof.
  intros Hl Hq Hi. unfold globMatch.
  rewrite match_items_lang, pattern_items_plain, Hi, literals_lang by done.
  setoid_rewrite items_lang_cons. split.
  - intros (t & -> & a & b & -> & Ha & Hb). inversion Hb; subst. rewrite str_append_nil. eauto.
  - intros (t & -> & Ht). exists t. split; [done|]. exists t, "". rewrite str_append_nil.
    split_and!; [done..|constructor].
Qed.

(** The documented pattern forms, for a star-free prefix [l]: [l] alone
    matches exactly itself; [l/**] matches [l] and everything below it; [l/*]
    matches the entries directly below [l] and never crosses a slash. *)
Theorem globMatch_forms (l s : string) :
  plain l = true →
  (globMatch l s = true ↔ s = l) ∧
  (globMatch (l +:+ "/**") s = true ↔
     s = l ∨ ∃ t, s = l +:+ String "/" t ∧ dots t = true) ∧
  (globMatch (l +:+ "/*") s = true ↔ ∃ t, s = l +:+ String "/" t ∧ no_slash t = true).
Proof.
  intros Hl. split_and!.
  - unfold globMatch. rewrite <-(str_append_nil l) at 1.
    rewrite match_items_lang, pattern_items_plain, literals_lang by done. split.
    + intros (t & -> & Ht). inversion Ht. by rewrite str_append_nil.
    + intros ->. exists "". rewrite str_append_nil. split; [done|constructor].
  - rewrite (globMatch_suffix l "/**" OptSlashAny) by done. cbn [item_lang]. split.
    + intros (t & -> & [->|(u & -> & Hu)]); [left; by rewrite str_append_nil|right; eauto].
    + intros [->|(t & -> & Ht)]; [exists ""; rewrite str_append_nil; eauto|].
      exists (String "/" t). eauto 10.
  - unfold globMatch. rewrite match_items_lang, pattern_items_plain, literals_lang by done.
    change (pattern_items "/*") with [Literal "/"; NoSlashSeq].
    setoid_rewrite items_lang_cons. setoid_rewrite items_lang_cons. split.
    + intros (t & -> & a & b & -> & -> & u & v & -> & Hu & Hv). inversion Hv; subst.
      exists u. rewrite str_append_nil. eauto.
    + intros (t & -> & Ht). exists (String "/" t). split; [done|]. exists "/", t.
      split_and!; [done..|]. exists t, "". rewrite str_append_nil.
      split_and!; [done..|constructor].
Qed.

Lemma globMatch_forms_witness :
  plain "feature" = true ∧
  (globMatch "feature/**" "feature/a/b" = true ↔
     "feature/a/b" = "feature" ∨ ∃ t, "feature/a/b" = "feature" +:+ String "/" t ∧ dots t = true).
Proof. split; [reflexivity|]. apply (globMatch_forms "feature" "feature/a/b"). reflexivity. Defined.

(** ** Lists of patterns: the last match wins *)

(** What a pattern says about [s], if it matches. *)
Definition verdict (s p : string) : option bool :=
  match exclusion p with
  | Some q => if globMatch q s then Some false else None
  | None => if globMatch p s then Some true else None
  end.

Definition is_exclusion (p : string) : bool := bool_decide (is_Some (exclusion p)).

Definition last_verdict (ps : list string) (s : string) (d : bool) : bool :=
  default d (last (omap (verdict s) ps)).

Lemma last_verdict_cons p ps s d :
  last_verdict (p :: ps) s d = last_verdict ps s (default d (verdict s p)).
Proof.
  unfold last_verdict. cbn. destruct (verdict s p) as [b|]; [|done].
  rewrite last_cons. by destruct (last _).
Qed.

Lemma matchAny_loop_spec ps s m h :
  matchAny_loop ps s m h = (last_verdict ps s m, h || negb (forallb is_exclusion ps)).
Proof.
  revert m h. induction ps as [|p ps IH]; intros m h; [by rewrite orb_false_r|].
  cbn [matchAny_loop forallb]. rewrite last_verdict_cons. unfold verdict.
  assert (is_exclusion p = bool_decide (is_Some (exclusion p))) as -> by done.
  destruct (exclusion p) as [q|]; rewrite IH; f_equal.
  - by destruct (globMatch q s).
  - by destruct (globMatch p s).
  - cbn. by rewrite orb_true_r.
Qed.

Lemma exclude_loop_spec ps s m :
  forallb is_exclusion ps = true → exclude_loop ps s m = last_verdict ps s m.
Proof.
  revert m. induction ps as [|p ps IH]; intros m Hp; [done|]. cbn in Hp. bools.
  cbn [exclude_loop]. rewrite last_verdict_cons, IH by done. unfold verdict.
  unfold is_exclusion in H. bools. destruct (exclusion p) as [q|]; [|by destruct H].
  by destruct (globMatch q s).
Qed.

(** A filter list is decided by the last pattern that matches the
    candidate, in declaration order: in if it is an inclusion, out if it is an
    exclusion [!p].  When none matches, the candidate is in exactly when the list
    holds no inclusion (the empty list and lists of exclusions only). *)
Theorem matchAny_last_match (patterns : list string) (s : string) :
  matchAny patterns s =
  match last (omap (verdict s) patterns) with
  | Some b => b
  | None => forallb is_exclusion patterns
  end.
Proof.
  unfold matchAny. case_decide as Hp; [by subst|].
  rewrite matchAny_loop_spec. cbn [orb]. rewrite negb_involutive.
  destruct (forallb is_exclusion patterns) eqn:E; [rewrite exclude_loop_spec by done|];
    unfold last_verdict; by destruct (last _).
Qed.

(** ** The regular expression's text *)

(** The texts [read_items] accepts, read the way package regexp reads them:
    groups and repetitions, escaped metacharacters, and plain characters. *)
Fixpoint read_items (fuel : nat) (s : string) : option (list item) :=
  match fuel with
  | 0 => None
  | S fuel =>
      match strip_prefix "(?:/.*)?" s, strip_prefix "(?:.*/)?" s, strip_prefix ".*" s,
            strip_prefix "[^/]*" s with
      | Some r, _, _, _ => cons OptSlashAny <$> read_items fuel r
      | _, Some r, _, _ => cons OptAnySlash <$> read_items fuel r
      | _, _, Some r, _ => cons AnySeq <$> read_items fuel r
      | _, _, _, Some r => cons NoSlashSeq <$> read_items fuel r
      | _, _, _, _ =>
          match s with
          | "$" => Some []
          | String "\" (String c r) =>
              if isRegexMeta c || bool_decide (c = "*"%char)
              then cons (Literal c) <$> read_items fuel r else None
          | String c r =>
              if isRegexMeta c || bool_decide (c = "*"%char) then None
              else cons (Literal c) <$> read_items fuel r
          | "" => None
          end
      end
  end.

Definition read_regex (s : string) : option (list item) :=
  r ← strip_prefix "^" s; read_items (String.length r) r.

Definition no_star_literal (i : item) : Prop := i ≠ Literal "*".

(** One iteration of the loop of patternToRegex: the item written, and how
    many bytes of the pattern it takes. *)
Lemma pattern_items_step (a : ascii) (p : string) :
  ∃ i q, pattern_items (String a p) = i :: pattern_items q ∧
    String.length q ≤ String.length p ∧ no_star_literal i.
Proof.
  unfold no_star_literal.
  destruct p as [|b p]; [by cbn; case_decide; eexists _, ""; (split; [done|split; [cbn; lia|congruence]])|].
  destruct p as [|c p].
  - set (p1 := String b "").
    assert (pattern_items (String a p1) =
      if decide (a = "*" ∧ b = "*")%char then AnySeq :: pattern_items ""
      else if decide (a = "*"%char) then NoSlashSeq :: pattern_items p1
      else Literal a :: pattern_items p1) as -> by reflexivity.
    repeat case_decide; [exists AnySeq, ""|exists NoSlashSeq, p1|exists (Literal a), p1];
      (split; [done|split; [cbn; lia|congruence]]).
  - set (p2 := String c p). set (p1 := String b p2).
    assert (pattern_items (String a p1) =
      if decide (a = "/" ∧ b = "*" ∧ c = "*")%char then OptSlashAny :: pattern_items p
      else if decide (a = "*" ∧ b = "*" ∧ c = "/")%char then OptAnySlash :: pattern_items p
      else if decide (a = "*" ∧ b = "*")%char then AnySeq :: pattern_items p2
      else if decide (a = "*"%char) then NoSlashSeq :: pattern_items p1
      else Literal a :: pattern_items p1) as -> by reflexivity.
    repeat case_decide;
      [exists OptSlashAny, p|exists OptAnySlash, p|exists AnySeq, p2|exists NoSlashSeq, p1
      |exists (Literal a), p1];
      (split; [done|split; [cbn; lia|congruence]]).
Qed.

Lemma pattern_items_no_star (p : string) : Forall no_star_literal (pattern_items p).
Proof.
  induction p as [p IH] using (well_founded_induction (well_founded_ltof _ String.length)).
  destruct p as [|a p]; [constructor|].
  destruct (pattern_items_step a p) as (i & q & -> & Hq & Hi). constructor; [done|].
  apply IH. unfold ltof. cbn. lia.
Qed.

Lemma read_items_source (l : list item) (n : nat) :
  Forall no_star_literal l → String.length (items_source l) < n →
  read_items n (items_source l +:+ "$") = Some l.
Proof.
  intros Hl. revert n. induction Hl as [|i l Hi Hl IH]; intros [|n] Hn; try (cbn in Hn; lia).
  - done.
  - cbn [items_source]. rewrite str_append_assoc.
    cbn [items_source] in Hn. rewrite str_length_append in Hn.
    specialize (IH n).
    destruct i as [| | | |c]; cbn [item_source String.length] in *;
      [match goal with |- _ = Some (?i :: _) =>
         transitivity (cons i <$> read_items n (items_source l +:+ "$"));
           [reflexivity|by rewrite IH by lia]
       end ..|].
    assert (String.length (items_source l) < n) as Hn'.
    { revert Hn. destruct (isRegexMeta c); cbn; lia. }
    apply IH in Hn'. clear IH Hn. revert Hn'. generalize (items_source l +:+ "$") as rest.
    intros rest Hrest.
    match goal with |- _ = Some (?i :: _) =>
      transitivity (cons i <$> read_items n rest); [|by rewrite Hrest] end.
    destruct c as [[] [] [] [] [] [] [] []]; first [reflexivity|by destruct Hi].
Qed.

(** Escaping is right: reading the text handed to [regexp.MustCompile] back
    by the syntax of regular expressions gives exactly the intended parts; no byte
    of a pattern is taken for an operator. *)
Theorem patternToRegex_escapes (p : string) :
  read_regex (patternToRegex p) = Some (pattern_items p).
Proof.
  unfold read_regex, patternToRegex.
  rewrite (proj2 (strip_prefix_Some "^" _ (items_source (pattern_items p) +:+ "$"))) by done.
  cbn. apply read_items_source; [apply pattern_items_no_star|].
  rewrite str_length_append. cbn. lia.
Qed.

(** ** match.go *)

(** The fields event.go documents as relevant for the event's kind; the others
    are zero. *)
Definition relevant (ev : Event) : Event :=
  match EKind ev with
  | EventPush => MkEvent EventPush (ERef ev) (Branch ev) (Tag ev) "" "" "" (ChangedPaths ev) ""
  | EventPullRequest =>
      MkEvent EventPullRequest "" "" "" (Action ev) (BaseRef ev) (EHeadRef ev) (ChangedPaths ev) ""
  | EventSchedule => MkEvent EventSchedule "" "" "" "" "" "" [] (Cron ev)
  | k => MkEvent k "" "" "" "" "" "" [] ""
  end.

(** The acceptance predicate as event.go and match.go document it. *)
Definition accepts (on : TriggerSet) (ev : Event) : Prop :=
  let paths_ok ps := ps = [] ∨ ∃ c, c ∈ ChangedPaths ev ∧ matchAny ps c = true in
  match EKind ev with
  | EventPush =>
      ∃ pt, Push on = Some pt ∧ paths_ok (Paths pt) ∧
        ((Branch ev ≠ "" ∧ (Branches pt ≠ [] ∧ matchAny (Branches pt) (Branch ev) = true ∨
                            Branches pt = [] ∧ Tags pt = [])) ∨
         (Branch ev = "" ∧ Tag ev ≠ "" ∧
           (Tags pt ≠ [] ∧ matchAny (Tags pt) (Tag ev) = true ∨ Branches pt = [] ∧ Tags pt = [])))
  | EventPullRequest =>
      ∃ pt, PullRequest on = Some pt ∧ paths_ok (PRPaths pt) ∧
        (Action ev ∈ Types pt ∨ Types pt = [] ∧ Action ev ∈ defaultPRTypes) ∧
        (PRBranches pt = [] ∨ matchAny (PRBranches pt) (BaseRef ev) = true)
  | EventSchedule => Cron ev ∈ Schedule on
  | EventWorkflowDispatch => is_Some (WorkflowDispatch on)
  | EventOther _ => False
  end.

Lemma containsString_true l s : containsString l s = true ↔ s ∈ l.
Proof.
  unfold containsString. rewrite existsb_exists. setoid_rewrite bool_decide_eq_true.
  setoid_rewrite <-list_elem_of_In. naive_solver.
Qed.

Lemma matchPaths_true l cs :
  matchPaths l cs = true ↔ l = [] ∨ ∃ c, c ∈ cs ∧ matchAny l c = true.
Proof.
  unfold matchPaths. case_decide; [tauto|]. rewrite existsb_exists.
  setoid_rewrite <-list_elem_of_In. tauto.
Qed.

(** A workflow runs for an event exactly when its [on:] block accepts it by
    the documented rules, and fields irrelevant for the event's kind are not read. *)
Theorem Match_accepts (on : TriggerSet) (ev : Event) :
  (Match (Some on) ev = true ↔ accepts on ev) ∧ Match (Some on) ev = Match (Some on) (relevant ev).
Proof.
  split; [|unfold Match, relevant; by destruct (EKind ev)].
  unfold Match, accepts. destruct (EKind ev).
  - unfold matchPush. destruct (Push on) as [pt|]; [|naive_solver].
    repeat case_decide; rewrite ?matchPaths_true; try destruct (matchAny _ _) eqn:?; cbn [negb];
      rewrite ?matchPaths_true; naive_solver.
  - unfold matchPullRequest. destruct (PullRequest on) as [pt|]; [|naive_solver].
    set (types := if decide (Types pt = []) then defaultPRTypes else Types pt).
    assert (containsString types (Action ev) = true ↔
      Action ev ∈ Types pt ∨ Types pt = [] ∧ Action ev ∈ defaultPRTypes) as Ht.
    { rewrite containsString_true. unfold types. case_decide as E; [rewrite E|]; set_solver. }
    destruct (containsString types (Action ev)); cbn [negb]; [|naive_solver].
    destruct (bool_decide (PRBranches pt ≠ []) && _) eqn:E; [|rewrite matchPaths_true]; bools.
    + naive_solver congruence.
    + apply andb_false_iff in E. rewrite bool_decide_eq_false, negb_false_iff in E.
      destruct (decide (PRBranches pt = [])); naive_solver.
  - unfold matchSchedule. case_decide as E; [rewrite E; set_solver|apply containsString_true].
  - apply bool_decide_eq_true.
  - done.
Qed.

(** [**] does not match every text: a path with a newline in it is matched
    by no [**], although the documentation has it match any sequence.  ([*] does
    match a newline.) *)
Theorem double_star_newline (s : string) :
  (globMatch "**" s = true ↔ dots s = true) ∧ globMatch "*" (String "010" "") = true.
Proof.
  split; [|reflexivity]. unfold globMatch. rewrite match_items_lang.
  change (pattern_items "**") with [AnySeq]. rewrite items_lang_cons. split.
  - intros (a & b & -> & Ha & Hb). inversion Hb; subst. by rewrite str_append_nil.
  - intros Hs. exists s, "". rewrite str_append_nil. split_and!; [done..|constructor].
Qed.
