(* ===== verification/PathMatch.v ===== *)
(** * PathMatch: [filepath.Match] of the Go standard library (Unix)

    The shell pattern matcher the branch-protection rules use, chunk by chunk as
    package path/filepath writes it.  A pattern is a sequence of chunks separated
    by stars; a chunk has literals, [?], character classes and backslash escapes.
    [None] is ErrBadPattern. *)

From S2P Require Import Prelude GoString.
Local Open Scope nat_scope.

(** [scanChunk] after its leading stars: the chunk and the rest. *)
Fixpoint scan_loop (inrange : bool) (pattern : string) : string * string :=
  match pattern with
  | "" => ("", "")
  | String c p =>
      if decide (c = "*"%char ∧ inrange = false) then ("", pattern)
      else if decide (c = "\"%char) then
        match p with
        | String d p' => let '(a, b) := scan_loop inrange p' in (String c (String d a), b)
        | "" => (String c "", "")
        end
      else
        let inrange :=
          if decide (c = "["%char) then true
          else if decide (c = "]"%char) then false else inrange in
        let '(a, b) := scan_loop inrange p in (String c a, b)
  end.

Fixpoint skip_stars (pattern : string) : bool * string :=
  match pattern with
  | String c p => if decide (c = "*"%char) then (true, (skip_stars p).2) else (false, pattern)
  | "" => (false, "")
  end.

Definition scanChunk (pattern : string) : bool * string * string :=
  let '(star, pattern) := skip_stars pattern in
  let '(chunk, rest) := scan_loop false pattern in (star, chunk, rest).

(** [getEsc]: one rune of a character class. *)
Definition getEsc (chunk : string) : option (Z * string) :=
  let take (chunk : string) :=
    let '(r, n) := DecodeRuneInString chunk in
    let nchunk := str_drop n chunk in
    if bool_decide (r = RuneError) && bool_decide (n = 1) then None
    else if decide (nchunk = "") then None else Some (r, nchunk) in
  match chunk with
  | "" => None
  | String c chunk' =>
      if decide (c = "-"%char ∨ c = "]"%char) then None
      else if decide (c = "\"%char) then if decide (chunk' = "") then None else take chunk'
      else take chunk
  end.

(** One range of a class, and the end of the class (not before one range). *)
Definition class_range (chunk : string) : option (Z * Z * string) :=
  '(lo, chunk) ← getEsc chunk;
  match chunk with
  | String c chunk' =>
      if decide (c = "-"%char) then '(hi, chunk) ← getEsc chunk'; Some (lo, hi, chunk)
      else Some (lo, lo, chunk)
  | "" => Some (lo, lo, "")
  end.

Definition class_end (chunk : string) (nrange : nat) : option string :=
  match chunk with
  | String c chunk' => if decide (c = "]"%char ∧ nrange ≠ 0) then Some chunk' else None
  | "" => None
  end.

(** The loop over the ranges of a class: whether [r] is in one of them. *)
Fixpoint class_ranges (fuel : nat) (chunk : string) (r : Z) (matched : bool) (nrange : nat)
  : option (bool * string) :=
  match fuel with
  | 0 => None
  | S fuel =>
      match class_end chunk nrange with
      | Some chunk' => Some (matched, chunk')
      | None =>
          '(lo, hi, chunk) ← class_range chunk;
          class_ranges fuel chunk r
            (if bool_decide (lo ≤ r)%Z && bool_decide (r ≤ hi)%Z then true else matched) (S nrange)
      end
  end.

(** [matchChunk]: [Some None] is no match, [Some (Some rest)] what is left of [s]. *)
Fixpoint match_chunk (fuel : nat) (chunk s : string) (failed : bool) : option (option string) :=
  match fuel with
  | 0 => None
  | S fuel =>
      match chunk with
      | "" => Some (if failed then None else Some s)
      | String c chunk1 =>
          let failed := failed || bool_decide (s = "") in
          let lit (d : ascii) (chunk : string) :=
            if failed then match_chunk fuel chunk s true
            else match_chunk fuel chunk (str_drop 1 s) (negb (HasPrefix s (String d ""))) in
          if decide (c = "["%char) then
            let '(r, n) := if failed then (0%Z, 0) else DecodeRuneInString s in
            let negated := HasPrefix chunk1 "^" in
            let chunk2 := if negated then str_drop 1 chunk1 else chunk1 in
            '(matched, chunk3) ← class_ranges (S (String.length chunk2)) chunk2 r false 0;
            match_chunk fuel chunk3 (str_drop n s) (failed || Bool.eqb matched negated)
          else if decide (c = "?"%char) then
            if failed then match_chunk fuel chunk1 s true
            else match_chunk fuel chunk1 (str_drop (DecodeRuneInString s).2 s) (HasPrefix s "/")
          else if decide (c = "\"%char) then
            match chunk1 with "" => None | String d chunk2 => lit d chunk2 end
          else lit c chunk1
      end
  end.

Definition matchChunk (chunk s : string) : option (option string) :=
  match_chunk (S (String.length chunk)) chunk s false.

(** The loop behind a star: [matchChunk] at every later position before the
    next slash. *)
Fixpoint skip_match (chunk name : string) (last : bool) : option (option string) :=
  match name with
  | "" => Some None
  | String c name' =>
      if decide (c = "/"%char) then Some None
      else
        r ← matchChunk chunk name';
        match r with
        | Some t => if last && bool_decide (t ≠ "") then skip_match chunk name' last else Some (Some t)
        | None => skip_match chunk name' last
        end
  end.

(** The well-formedness check of the rest of the pattern. *)
Fixpoint check_rest (fuel : nat) (pattern : string) : option bool :=
  match fuel with
  | 0 => None
  | S fuel =>
      if decide (pattern = "") then Some false
      else let '(_, chunk, rest) := scanChunk pattern in
           _ ← matchChunk chunk ""; check_rest fuel rest
  end.

Fixpoint match_loop (fuel : nat) (pattern name : string) : option bool :=
  match fuel with
  | 0 => None
  | S fuel =>
      if decide (pattern = "") then Some (bool_decide (name = ""))
      else
        let '(star, chunk, rest) := scanChunk pattern in
        if star && bool_decide (chunk = "") then Some (negb (Contains name "/"))
        else
          r ← matchChunk chunk name;
          let go t := match_loop fuel rest t in
          let skip :=
            if star then
              r ← skip_match chunk name (bool_decide (rest = ""));
              match r with Some t => go t | None => check_rest fuel rest end
            else check_rest fuel rest in
          match r with
          | Some t => if bool_decide (t = "") || bool_decide (rest ≠ "") then go t else skip
          | None => skip
          end
  end.

Definition filepath_Match (pattern name : string) : option bool :=
  match_loop (S (String.length pattern)) pattern name.

Example match_release : filepath_Match "release/*" "release/v1.0" = Some true.
Proof. reflexivity. Qed.
Example match_release_sub : filepath_Match "release/*" "release/v1.0/sub" = Some false.
Proof. reflexivity. Qed.
Example match_class : filepath_Match "v[0-9].?*" "v3.14" = Some true.
Proof. reflexivity. Qed.
Example match_bad : filepath_Match "v[0-9" "v3" = None.
Proof. reflexivity. Qed.
Example match_mid : filepath_Match "*-fix-*b" "a-fix-b-fix-bb" = Some true.
Proof. reflexivity. Qed.
