(* ===== verification/Protection.v ===== *)
(** * Protection: branch and tag protection rules

    internal/repos/protection/protection.go.  The rule list is what
    ListBranchProtectionRules returns; the ancestry check of the repository is a
    parameter ([IsAncestor]), with its error. *)

From S2P Require Import Prelude GoString PathMatch.
Local Open Scope nat_scope.

Record BranchProtectionRule := MkRule {
  RuleID : Z; Pattern : string; RTarget : string;
  PreventForcePush : bool; PreventDeletion : bool; RequirePrForPush : bool;
  AllowedPusherUserIds : list Z; RequiredReviewCount : Z; RequireCodeOwnerReview : bool;
  StatusChecksRequired : list string
}.

Record Decision := MkDecision { Allow : bool; Reason : string; DRuleID : Z; DPattern : string }.

Record Update := MkUpdate { OldSHA : string; NewSHA : string; Ref : string; Pusher : Z }.

Definition deny (r : BranchProtectionRule) (reason : string) : Decision :=
  MkDecision false reason (RuleID r) (Pattern r).

Definition allowedPusherDecision (rule : BranchProtectionRule) (pusher : Z) (label : string)
  : Decision :=
  if decide (AllowedPusherUserIds rule = []) then
    MkDecision true "no allowed-pushers restriction" (RuleID rule) (Pattern rule)
  else if existsb (fun id => bool_decide (id = pusher)) (AllowedPusherUserIds rule) then
    MkDecision true "pusher is allowed" (RuleID rule) (Pattern rule)
  else deny rule ("pusher is not on the allowed list for this " +:+ label).

Definition protectionRuleTarget (r : BranchProtectionRule) : string :=
  if decide (RTarget r = "tag") then "tag" else "branch".

(** The order of [sort.Slice]: longer patterns first, then by the text. *)
Definition rule_less (a b : BranchProtectionRule) : bool :=
  let la := String.length (Pattern a) in
  let lb := String.length (Pattern b) in
  if decide (la ≠ lb) then bool_decide (lb < la) else String.ltb (Pattern a) (Pattern b).

Definition rule_matches (target name : string) (r : BranchProtectionRule) : bool :=
  if decide (protectionRuleTarget r ≠ target) then false
  else match filepath_Match (Pattern r) name with Some b => b | None => false end.

(** The head of the sorted candidates; the first one in list order among
    equals (the order of equals is open in Go, patterns are unique per target). *)
Fixpoint first_rule (matches : list BranchProtectionRule) : option BranchProtectionRule :=
  match matches with
  | [] => None
  | r :: rs =>
      match first_rule rs with
      | Some r' => if rule_less r' r then Some r' else Some r
      | None => Some r
      end
  end.

Definition matchRuleForTarget (rules : list BranchProtectionRule) (target name : string)
  : option BranchProtectionRule :=
  first_rule (filter (fun r => rule_matches target name r = true) rules).

Definition MatchLongestRule (rules : list BranchProtectionRule) (branch : string)
  : option BranchProtectionRule := matchRuleForTarget rules "branch" branch.

Definition targetAndNameForRef (ref : string) : option (string * string) :=
  if HasPrefix ref "refs/heads/" then Some ("branch", TrimPrefix ref "refs/heads/")
  else if HasPrefix ref "refs/tags/" then Some ("tag", TrimPrefix ref "refs/tags/")
  else None.

Definition isAllZeros (sha : string) : bool :=
  if decide (String.length sha ≠ 40) then false
  else forallb (fun r => bool_decide (r = 48%Z)) (runes sha).

Section Enforce.
  (** [repogit.IsAncestor gitDir old new]. *)
  Context {E : Type} (IsAncestor : string → string → res E bool).

(** The gates of [Enforce] once a rule is found. *)
Definition EnforceRule (target : string) (rule : BranchProtectionRule) (u : Update)
  : res E Decision :=
  let isCreate := isAllZeros (OldSHA u) in
  let isDelete := isAllZeros (NewSHA u) in
  if isDelete && PreventDeletion rule then
    if decide (target = "tag") then
      Ok (deny rule "deletion of this tag is blocked by protection rule")
    else Ok (deny rule "deletion of this branch is blocked by protection rule")
  else if decide (target = "tag") then
    if negb isCreate && negb isDelete && PreventForcePush rule then
      Ok (deny rule "moving this tag is blocked by protection rule")
    else Ok (allowedPusherDecision rule (Pusher u) "tag")
  else if negb isDelete && RequirePrForPush rule then
    Ok (deny rule "direct pushes to this branch must go through a pull request")
  else
    ff ← (if negb isCreate && negb isDelete && PreventForcePush rule
          then IsAncestor (OldSHA u) (NewSHA u) else Ok true);
    if negb ff then Ok (deny rule "force-push to this branch is blocked by protection rule")
    else
      let decision := allowedPusherDecision rule (Pusher u) "branch" in
      if negb (Allow decision) then Ok decision
      else Ok (MkDecision true "passed all rules" (RuleID rule) (Pattern rule)).

(** [Enforce] on the loaded rules. *)
Definition Enforce (rules : list BranchProtectionRule) (u : Update) : res E Decision :=
  match targetAndNameForRef (Ref u) with
  | None => Ok (MkDecision true "non-protected ref" 0 "")
  | Some (target, refName) =>
      match matchRuleForTarget rules target refName with
      | None => Ok (MkDecision true "no rule matched" 0 "")
      | Some rule => EnforceRule target rule u
      end
  end.

End Enforce.

(** [%q] of a pattern of printable characters without quotes or backslashes is
    the pattern between quotes; the general [%q] is the argument [quoted]. *)
Definition FriendlyMessage (quoted : string → string) (d : Decision) : string :=
  if Allow d then ""
  else "shithub: " +:+ Reason d +:+ " (rule pattern " +:+ quoted (DPattern d) +:+ ").".
