(* ===== verification/ProtectionFacts.v ===== *)
(** * ProtectionFacts: the rule chosen and the decision taken *)

From Stdlib Require Import OrdersEx.
From S2P Require Import Prelude GoString ExprFacts PathMatch Protection.
Local Open Scope nat_scope.

(** ** The pattern matcher does not depend on its fuel *)

Lemma str_drop_length (n : nat) (s : string) :
  String.length (str_drop n s) = String.length s - n.
Proof. revert n. induction s as [|c s IH]; intros [|n]; cbn; auto. Qed.

Lemma getEsc_shorter (chunk rest : string) (r : Z) :
  getEsc chunk = Some (r, rest) → String.length rest < String.length chunk.
Proof.
  unfold getEsc. destruct chunk as [|c chunk]; [done|]. intros H.
  repeat case_decide; try done.
  - destruct (DecodeRuneInString chunk) as [r' n]. repeat case_match; simplify_eq.
    rewrite str_drop_length. cbn. lia.
  - destruct (DecodeRuneInString (String c chunk)) as [r' n] eqn:E.
    pose proof (ExprFacts.decode_size c chunk) as Hs. rewrite E in Hs. cbn [snd] in Hs.
    repeat case_match; simplify_eq. rewrite str_drop_length. cbn in *. lia.
Qed.

Lemma class_range_shorter (chunk rest : string) (lo hi : Z) :
  class_range chunk = Some (lo, hi, rest) → String.length rest < String.length chunk.
Proof.
  unfold class_range. destruct (getEsc chunk) as [[r c1]|] eqn:E1; [|done]. cbn.
  apply getEsc_shorter in E1. destruct c1 as [|d c1]; [by intros [= _ _ <-]|].
  case_decide; [|by intros [= _ _ <-]].
  destruct (getEsc c1) as [[r2 c2]|] eqn:E2; [|done]. cbn. intros [= _ _ <-].
  apply getEsc_shorter in E2. cbn in *. lia.
Qed.

Lemma class_end_shorter (chunk rest : string) (n : nat) :
  class_end chunk n = Some rest → String.length rest < String.length chunk.
Proof. destruct chunk; cbn; [done|]. case_decide; [|done]. intros [= ->]. lia. Qed.

Lemma class_ranges_fuel (f g : nat) chunk r b n :
  String.length chunk < f → f ≤ g → class_ranges f chunk r b n = class_ranges g chunk r b n.
Proof.
  revert g chunk b n. induction f as [|f IH]; intros [|g] chunk b n Hf Hg; try lia.
  cbn [class_ranges]. destruct (class_end chunk n); [done|].
  destruct (class_range chunk) as [[[lo hi] c1]|] eqn:E; [|done]. cbn.
  apply class_range_shorter in E. apply IH; lia.
Qed.

Lemma class_ranges_shorter (f : nat) chunk r b n b' rest :
  class_ranges f chunk r b n = Some (b', rest) → String.length rest < String.length chunk.
Proof.
  revert chunk b n. induction f as [|f IH]; intros chunk b n; [done|]. cbn [class_ranges].
  destruct (class_end chunk n) as [c|] eqn:Ee; [intros [= _ <-]; by eapply class_end_shorter|].
  destruct (class_range chunk) as [[[lo hi] c1]|] eqn:E; [|done]. cbn. intros ?%IH.
  apply class_range_shorter in E. lia.
Qed.

Lemma match_chunk_fuel (f g : nat) chunk s b :
  String.length chunk < f → f ≤ g → match_chunk f chunk s b = match_chunk g chunk s b.
Proof.
  revert g chunk s b. induction f as [|f IH]; intros [|g] chunk s b Hf Hg; try lia.
  cbn [match_chunk]. destruct chunk as [|c chunk]; [done|]. cbn [String.length] in Hf.
  cbv zeta. set (failed := b || bool_decide (s = "")).
  case_decide; [|case_decide; [|case_decide]].
  - destruct (if failed then _ else _) as [r n].
    set (c2 := if HasPrefix chunk "^" then str_drop 1 chunk else chunk).
    assert (String.length c2 ≤ String.length chunk) as Hc2.
    { unfold c2. case_match; [rewrite str_drop_length|]; lia. }
    destruct (class_ranges _ c2 r false 0) as [[m c3]|] eqn:E; [|done]. cbn.
    apply class_ranges_shorter in E. apply IH; lia.
  - destruct failed; apply IH; lia.
  - destruct chunk as [|d chunk]; [done|]. cbn [String.length] in Hf.
    destruct failed; apply IH; lia.
  - destruct failed; apply IH; lia.
Qed.

Lemma scan_loop_length (b : bool) (p chunk rest : string) :
  scan_loop b p = (chunk, rest) → String.length p = String.length chunk + String.length rest.
Proof.
  revert b chunk rest.
  induction p as [p IH] using (well_founded_induction (well_founded_ltof _ String.length)).
  unfold ltof in IH. intros b chunk rest. destruct p as [|c p]; [by intros [= <- <-]|].
  cbn [scan_loop]. case_decide; [by intros [= <- <-]|]. case_decide.
  - destruct p as [|d p]; [by intros [= <- <-]|].
    destruct (scan_loop b p) as [a e] eqn:E. intros [= <- <-].
    apply IH in E; cbn in *; lia.
  - match goal with |- context [scan_loop ?b p] => destruct (scan_loop b p) as [a e] eqn:E end.
    intros [= <- <-]. apply IH in E; cbn in *; lia.
Qed.

Lemma scanChunk_shorter (p chunk rest : string) (star : bool) :
  p ≠ "" → scanChunk p = (star, chunk, rest) → String.length rest < String.length p.
Proof.
  unfold scanChunk. destruct (skip_stars p) as [st q] eqn:E.
  destruct (scan_loop false q) as [a e] eqn:El. intros Hp [= <- <- <-].
  assert (∀ p, String.length (skip_stars p).2 ≤ String.length p) as Hs.
  { intros p'. induction p' as [|c p' IH]; cbn; [lia|]. case_decide; cbn; lia. }
  destruct p as [|c p]; [done|]. cbn in E. case_decide as Hc; simplify_eq/=.
  - apply scan_loop_length in El. specialize (Hs p). lia.
  - revert El. cbn [scan_loop]. rewrite decide_False by naive_solver.
    case_decide.
    + destruct p as [|d p]; [by intros [= <- <-]; cbn; lia|].
      destruct (scan_loop false p) as [a' e'] eqn:E. intros [= <- <-].
      apply scan_loop_length in E. cbn. lia.
    + match goal with |- context [scan_loop ?b p] => destruct (scan_loop b p) as [a' e'] eqn:E end.
      intros [= <- <-]. apply scan_loop_length in E. lia.
Qed.

Lemma check_rest_fuel (f g : nat) p :
  String.length p < f → f ≤ g → check_rest f p = check_rest g p.
Proof.
  revert g p. induction f as [|f IH]; intros [|g] p Hf Hg; try lia. cbn [check_rest].
  case_decide as Hp; [done|]. destruct (scanChunk p) as [[st c] rest] eqn:E.
  apply scanChunk_shorter in E; [|done]. destruct (matchChunk c ""); [|done]. cbn. apply IH; lia.
Qed.

(** The fuel [filepath_Match] gives its loops is enough: more of it changes
    nothing, so a [None] is always a malformed pattern. *)
Lemma match_loop_fuel (f g : nat) p name :
  String.length p < f → f ≤ g → match_loop f p name = match_loop g p name.
Proof.
  revert g p name. induction f as [|f IH]; intros [|g] p name Hf Hg; try lia. cbn [match_loop].
  case_decide as Hp; [done|]. destruct (scanChunk p) as [[st c] rest] eqn:E.
  apply scanChunk_shorter in E; [|done]. destruct (st && _); [done|].
  assert (∀ t, match_loop f rest t = match_loop g rest t) as Hgo by (intros; apply IH; lia).
  assert (check_rest f rest = check_rest g rest) as Hc by (apply check_rest_fuel; lia).
  destruct (matchChunk c name) as [[t|]|]; cbn; [|rewrite Hc|done].
  - rewrite Hgo, Hc. case_match; [done|]. destruct st; [|done].
    destruct (skip_match _ _ _) as [[t'|]|]; cbn; [apply Hgo|done..].
  - destruct st; [|done]. destruct (skip_match _ _ _) as [[t'|]|]; cbn; [apply Hgo|done..].
Qed.

(** ** The most specific rule *)

Definition rule_ge (a b : BranchProtectionRule) : Prop := rule_less b a = false.

Lemma ltb_lt (a b : string) : String.ltb a b = true ↔ String_as_OT.lt a b.
Proof.
  unfold String.ltb, String_as_OT.lt. change String_as_OT.compare with String.compare.
  by destruct (String.compare a b).
Qed.

Lemma ltb_irrefl (a : string) : String.ltb a a = false.
Proof.
  apply not_true_iff_false. rewrite ltb_lt. apply (StrictOrder_Irreflexive (R := String_as_OT.lt)).
Qed.

Lemma ltb_trans (a b c : string) :
  String.ltb a b = true → String.ltb b c = true → String.ltb a c = true.
Proof. rewrite !ltb_lt. apply (StrictOrder_Transitive (R := String_as_OT.lt)). Qed.

Lemma ltb_total (a b : string) : String.ltb a b = false → String.ltb b a = false → a = b.
Proof.
  rewrite <-!not_true_iff_false, !ltb_lt. intros Hab Hba.
  destruct (String_as_OT.compare_spec a b); naive_solver.
Qed.

Lemma rule_less_spec (a b : BranchProtectionRule) :
  rule_less a b = true ↔
  String.length (Pattern b) < String.length (Pattern a) ∨
  String.length (Pattern a) = String.length (Pattern b) ∧ String.ltb (Pattern a) (Pattern b) = true.
Proof.
  unfold rule_less. case_decide as E; [rewrite bool_decide_eq_true|]; intuition lia.
Qed.

Lemma rule_less_asym (a b : BranchProtectionRule) : rule_less a b = true → rule_less b a = false.
Proof.
  intros H. apply not_true_iff_false. rewrite rule_less_spec in *. intros [?|[? Hb]]; [lia|].
  destruct H as [?|[_ Ha]]; [lia|]. pose proof (ltb_trans _ _ _ Ha Hb) as Hc.
  by rewrite ltb_irrefl in Hc.
Qed.

(** Negative transitivity: [rule_less] is a strict weak order. *)
Lemma rule_less_cut (a b c : BranchProtectionRule) :
  rule_less a c = true → rule_less a b = true ∨ rule_less b c = true.
Proof.
  rewrite !rule_less_spec. intros [?|[Hl Hlt]].
  - destruct (lt_dec (String.length (Pattern b)) (String.length (Pattern a))); [tauto|].
    right. left. lia.
  - destruct (lt_eq_lt_dec (String.length (Pattern a)) (String.length (Pattern b))) as [[?|E]|?];
      [right; left; lia| |tauto].
    destruct (String.ltb (Pattern a) (Pattern b)) eqn:Eab; [tauto|]. right. right. split; [lia|].
    destruct (String.ltb (Pattern b) (Pattern a)) eqn:Eba; [by apply (ltb_trans _ (Pattern a))|].
    by rewrite <-(ltb_total _ _ Eab Eba).
Qed.

Lemma first_rule_spec (l : list BranchProtectionRule) :
  match first_rule l with
  | Some r => r ∈ l ∧ ∀ r', r' ∈ l → rule_less r' r = false
  | None => l = []
  end.
Proof.
  induction l as [|r l IH]; [done|]. cbn [first_rule].
  destruct (first_rule l) as [r0|].
  - destruct IH as [Hin Hle]. destruct (rule_less r0 r) eqn:E.
    + split; [by right|]. intros r' [->|Hr']%elem_of_cons; [by apply rule_less_asym|auto].
    + split; [by left|]. intros r' [->|Hr']%elem_of_cons; apply not_true_iff_false; intros H.
      * pose proof (rule_less_asym _ _ H). congruence.
      * apply (rule_less_cut _ r0) in H as [H|H]; [|congruence]. rewrite Hle in H by done. done.
  - subst. split; [by left|]. intros r' ->%list_elem_of_singleton.
    apply not_true_iff_false. intros H. pose proof (rule_less_asym _ _ H). congruence.
Qed.

(** What the chosen rule is: it applies to the ref, and no rule that applies is
    more specific. *)
Definition chosen (rules : list BranchProtectionRule) (target name : string)
    (r : BranchProtectionRule) : Prop :=
  r ∈ rules ∧ rule_matches target name r = true ∧
  ∀ r', r' ∈ rules → rule_matches target name r' = true → rule_less r' r = false.

Lemma matchRuleForTarget_chosen rules target name :
  match matchRuleForTarget rules target name with
  | Some r => chosen rules target name r
  | None => ∀ r, r ∈ rules → rule_matches target name r = false
  end.
Proof.
  unfold matchRuleForTarget.
  pose proof (first_rule_spec (filter (fun r => rule_matches target name r = true) rules)) as H.
  destruct (first_rule _) as [r|].
  - destruct H as [[Hm Hin]%list_elem_of_filter Hle]. split_and!; [done..|].
    intros r' Hr' Hm'. apply Hle. by apply list_elem_of_filter.
  - intros r Hr. destruct (rule_matches target name r) eqn:E; [|done].
    assert (r ∈ filter (fun r => rule_matches target name r = true) rules) as Hin
      by by apply list_elem_of_filter.
    rewrite H in Hin. by apply elem_of_nil in Hin.
Qed.

(** The rule that governs a ref is the most specific one: it matches the
    ref's name and target, no other matching rule has a longer pattern, or an equally
    long one that sorts earlier; without a match no rule governs.  The pattern
    chosen does not depend on the order in which the rules are listed. *)
Theorem MatchLongestRule_most_specific (rules rules' : list BranchProtectionRule)
    (target name : string) :
  (match matchRuleForTarget rules target name with
   | Some r => chosen rules target name r
   | None => ∀ r, r ∈ rules → rule_matches target name r = false
   end) ∧
  (rules ≡ₚ rules' →
   Pattern <$> matchRuleForTarget rules target name =
   Pattern <$> matchRuleForTarget rules' target name).
Proof.
  split; [apply matchRuleForTarget_chosen|]. intros Hp.
  pose proof (matchRuleForTarget_chosen rules target name) as H1.
  pose proof (matchRuleForTarget_chosen rules' target name) as H2.
  destruct (matchRuleForTarget rules _ _) as [r1|], (matchRuleForTarget rules' _ _) as [r2|]; try done.
  - destruct H1 as (Hi1 & Hm1 & Hl1), H2 as (Hi2 & Hm2 & Hl2).
    rewrite <-Hp in Hi2. specialize (Hl1 _ Hi2 Hm2). rewrite Hp in Hi1. specialize (Hl2 _ Hi1 Hm1).
    cbn. f_equal. unfold rule_less in *.
    repeat case_decide; try (rewrite bool_decide_eq_false in *; lia). by apply ltb_total.
  - destruct H1 as (Hi1 & Hm1 & _). rewrite Hp in Hi1. rewrite H2 in Hm1 by done. done.
  - destruct H2 as (Hi2 & Hm2 & _). rewrite <-Hp in Hi2. rewrite H1 in Hm2 by done. done.
Qed.

Lemma MatchLongestRule_most_specific_witness :
  let r p := MkRule 1 p "branch" false false false [] 0 false [] in
  Pattern <$> matchRuleForTarget [r "*"; r "release/*"; r "release/v*"] "branch" "release/v1" =
  Pattern <$> matchRuleForTarget [r "release/v*"; r "*"; r "release/*"] "branch" "release/v1".
Proof.
  intros r. apply (MatchLongestRule_most_specific [r "*"; r "release/*"; r "release/v*"]).
  solve_Permutation.
Defined.

(** ** The decision *)

Definition creates (u : Update) : bool := isAllZeros (OldSHA u).
Definition deletes (u : Update) : bool := isAllZeros (NewSHA u).

(** The reasons for which a rule turns an update down. *)
Definition blocked (anc : string → string → bool) (rule : BranchProtectionRule) (target : string)
    (u : Update) : Prop :=
  (deletes u = true ∧ PreventDeletion rule = true) ∨
  (creates u = false ∧ deletes u = false ∧ PreventForcePush rule = true ∧
     (target = "tag" ∨ anc (OldSHA u) (NewSHA u) = false)) ∨
  (target ≠ "tag" ∧ deletes u = false ∧ RequirePrForPush rule = true) ∨
  (AllowedPusherUserIds rule ≠ [] ∧ Pusher u ∉ AllowedPusherUserIds rule).

Lemma allowedPusher_denies rule p label :
  Allow (allowedPusherDecision rule p label) = false ↔
  AllowedPusherUserIds rule ≠ [] ∧ p ∉ AllowedPusherUserIds rule.
Proof.
  unfold allowedPusherDecision. case_decide as E; [naive_solver|].
  destruct (existsb _ _) eqn:Ex; cbn.
  - apply existsb_exists in Ex as (x & Hx%list_elem_of_In & ->%bool_decide_eq_true). naive_solver.
  - split; [intros _; split; [done|]|done]. intros Hin. apply not_true_iff_false in Ex.
    apply Ex, existsb_exists. exists p. by rewrite <-list_elem_of_In, bool_decide_eq_true.
Qed.

Lemma allowedPusher_names rule p label :
  DRuleID (allowedPusherDecision rule p label) = RuleID rule ∧
  DPattern (allowedPusherDecision rule p label) = Pattern rule.
Proof. unfold allowedPusherDecision. by repeat case_match. Qed.

Lemma EnforceRule_decides {E} (IsAncestor : string → string → res E bool)
    (anc : string → string → bool) target (rule : BranchProtectionRule) (u : Update) :
  (∀ a b, IsAncestor a b = Ok (anc a b)) →
  ∃ d, EnforceRule IsAncestor target rule u = Ok d ∧
    (Allow d = false ↔ blocked anc rule target u) ∧ DRuleID d = RuleID rule ∧ DPattern d = Pattern rule.
Proof.
  intros Hanc. unfold EnforceRule. rewrite Hanc. fold (creates u) (deletes u). cbv zeta.
  pose proof (allowedPusher_denies rule (Pusher u)) as Hp.
  pose proof (allowedPusher_names rule (Pusher u)) as Hn.
  unfold blocked. destruct (deletes u && PreventDeletion rule) eqn:E1.
  { bools. case_decide; (eexists; split; [done|]; split; [|done]); cbn; tauto. }
  apply andb_false_iff in E1. case_decide as Et.
  { destruct (negb (creates u) && _ && _) eqn:E2; eexists; (split; [done|]).
    - bools. split; [cbn; tauto|done].
    - split; [|done]. rewrite Hp. rewrite !andb_false_iff, !negb_false_iff in E2.
      intuition congruence. }
  destruct (negb (deletes u) && RequirePrForPush rule) eqn:E2.
  { bools. eexists; split; [done|]; split; [|done]; cbn; tauto. }
  apply andb_false_iff in E2. rewrite negb_false_iff in E2.
  destruct (negb (creates u) && _ && _) eqn:E3; cbn.
  - bools. destruct (anc _ _) eqn:Ea; cbn.
    + destruct (Allow _) eqn:Eal; cbn; (eexists; split; [done|]; split; [|try done]);
        rewrite <-(Hp "branch"), Eal; intuition congruence.
    + eexists; split; [done|]; split; [|done]; cbn; tauto.
  - rewrite !andb_false_iff, !negb_false_iff in E3.
    destruct (Allow _) eqn:Eal; cbn; (eexists; split; [done|]; split; [|try done]);
      rewrite <-(Hp "branch"), Eal; intuition congruence.
Qed.

(** C22: Enforcement in full: when the ancestry check answers, [Enforce] returns
    a decision, and it turns the update down exactly when a rule governs the ref
    and one of that rule's gates applies (deletion, force push or tag move, pull
    request only, allowed pushers); a refusal names that rule. *)
Theorem Enforce_decides {E} (IsAncestor : string → string → res E bool)
    (anc : string → string → bool) (rules : list BranchProtectionRule) (u : Update) :
  (∀ a b, IsAncestor a b = Ok (anc a b)) →
  ∃ d, Enforce IsAncestor rules u = Ok d ∧
    (Allow d = false ↔ ∃ target name rule, targetAndNameForRef (Ref u) = Some (target, name) ∧
       matchRuleForTarget rules target name = Some rule ∧ blocked anc rule target u) ∧
    (Allow d = false → ∃ target name rule, targetAndNameForRef (Ref u) = Some (target, name) ∧
       matchRuleForTarget rules target name = Some rule ∧
       DRuleID d = RuleID rule ∧ DPattern d = Pattern rule).
Proof.
  intros Hanc. unfold Enforce.
  destruct (targetAndNameForRef (Ref u)) as [[target name]|];
    [|eexists; split; [done|]; split; [split; [done|naive_solver]|done]].
  destruct (matchRuleForTarget rules target name) as [rule|] eqn:Em;
    [|eexists; split; [done|]; split; [split; [done|naive_solver]|done]].
  destruct (EnforceRule_decides IsAncestor anc target rule u Hanc) as (d & Hd & Hb & Hn).
  exists d. split; [done|]. rewrite Hb. split; [|naive_solver].
  split; [by exists target, name, rule|]. intros (t & n & r & [= <- <-] & Hm & ?). congruence.
Qed.

Definition sample_rule : BranchProtectionRule :=
  MkRule 7 "trunk" "branch" true true false [1%Z; 2%Z] 0 false [].

Lemma Enforce_decides_witness :
  ∃ d, Enforce (E := unit) (fun _ _ => Ok false) [sample_rule]
         (MkUpdate "aa" "bb" "refs/heads/trunk" 1) = Ok d ∧ Allow d = false.
Proof.
  destruct (Enforce_decides (E := unit) (fun _ _ => Ok false) (fun _ _ => false) [sample_rule]
    (MkUpdate "aa" "bb" "refs/heads/trunk" 1) ltac:(done)) as (d & Hd & Hb & _).
  exists d. split; [exact Hd|]. apply Hb. exists "branch", "trunk", sample_rule.
  split_and!; [reflexivity..|]. right. left. split_and!; [reflexivity..|by right].
Defined.
