(* ===== verification/ReviewGate.v ===== *)
(** * ReviewGate: the review-side merge gate and the re-anchoring of comments

    internal/pulls/review: required.go (Evaluate) and position_map.go
    (RemapAllForPR).  What the SQL queries and git return are arguments; the
    CODEOWNERS check is an argument too ([codeOwnerReviewSatisfied]). *)

From S2P Require Import Prelude GoString PathMatch Protection.
Local Open Scope nat_scope.

(** ** required.go *)

Inductive PrReviewState := ReviewComment | Approve | RequestChanges.

#[export] Instance PrReviewState_eq_dec : EqDecision PrReviewState.
Proof. solve_decision. Defined.

(** A row of ListUndismissedReviewsForGate; the author column is nullable. *)
Record ReviewRow := MkReview { AuthorUserID : option Z; State : PrReviewState }.

Definition int64FromPg (p : option Z) : Z := default 0%Z p.

(** The variables of the loop of latestPerAuthor. *)
Record latest_st := MkLatest {
  out : gmap Z PrReviewState; curAuthor : Z; curState : PrReviewState; curValid : bool
}.

Definition is_decision (s : PrReviewState) : bool :=
  match s with Approve | RequestChanges => true | ReviewComment => false end.

Definition flush (prAuthorUserID : Z) (st : latest_st) : gmap Z PrReviewState :=
  if negb (curValid st) || bool_decide (curAuthor st = prAuthorUserID) ||
     bool_decide (curAuthor st = 0%Z)
  then out st
  else if is_decision (curState st) then <[curAuthor st := curState st]> (out st) else out st.

Definition latest_step (prAuthorUserID : Z) (st : latest_st) (r : ReviewRow) : latest_st :=
  let auth := int64FromPg (AuthorUserID r) in
  if decide (auth ≠ curAuthor st) then
    MkLatest (flush prAuthorUserID st) auth (State r) true
  else if is_decision (State r) then
    MkLatest (out st) (curAuthor st) (State r) (curValid st)
  else st.

Definition latestPerAuthor (reviews : list ReviewRow) (prAuthorUserID : Z)
  : gmap Z PrReviewState :=
  flush prAuthorUserID
    (foldl (latest_step prAuthorUserID) (MkLatest ∅ 0 ReviewComment false) reviews).

Definition countLatestDecisions (latest : gmap Z PrReviewState) : nat * bool :=
  foldr (fun kv '(approves, requestChanges) =>
           match kv.2 with
           | Approve => (S approves, requestChanges)
           | RequestChanges => (approves, true)
           | ReviewComment => (approves, requestChanges)
           end) (0, false) (map_to_list latest).

Definition latestApprovers (latest : gmap Z PrReviewState) : gset Z :=
  foldr (fun kv acc => if decide (kv.2 = Approve) then {[kv.1]} ∪ acc else acc) ∅
    (map_to_list latest).

Record GateResult := MkGateResult {
  Satisfied : bool; GReason : string; RequiredCount : Z; CurrentApprovals : nat;
  HasRequestChanges : bool; RequiresCodeOwnerReview : bool; CodeOwnerReviewSatisfied : bool;
  MissingCodeOwnerPaths : list string
}.

(** [Evaluate] on the loaded rules and reviews. *)
Definition Evaluate {E} (codeOwnerReviewSatisfied : gset Z → res E (bool * list string))
    (rules : list BranchProtectionRule) (baseRef : string) (reviews : list ReviewRow)
    (prAuthorUserID : Z) : res E GateResult :=
  let rule := MatchLongestRule rules baseRef in
  let latest := latestPerAuthor reviews prAuthorUserID in
  let '(approves, requestChanges) := countLatestDecisions latest in
  let required := match rule with Some r => RequiredReviewCount r | None => 0%Z end in
  let requires := match rule with Some r => RequireCodeOwnerReview r | None => false end in
  '(ok, missing) ← (if requires then codeOwnerReviewSatisfied (latestApprovers latest)
                    else Ok (false, []));
  let result sat reason :=
    MkGateResult sat reason required approves requestChanges requires ok missing in
  Ok (if requestChanges then result false "Changes requested by a reviewer."
      else if bool_decide (Z.of_nat approves < required)%Z then result false "Approval required."
      else if requires && negb ok then result false "Code owner review required."
      else result true "").

(** ** position_map.go *)

(** The loop of lineAt from the byte after [start]: [acc] is [blob[start:i]]. *)
Fixpoint lineAt_loop (rest acc : string) (line n : nat) : option string :=
  match rest with
  | "" => if decide (line = n ∧ acc ≠ "") then Some acc else None
  | String c rest =>
      if decide (c = "010"%char) then
        if decide (line = n) then Some acc else lineAt_loop rest "" (S line) n
      else lineAt_loop rest (acc +:+ String c "") line n
  end.

Definition lineAt (blob : option string) (n : Z) : option string :=
  match blob with
  | None => None
  | Some b => if decide (n < 1)%Z then None else lineAt_loop b "" 1 (Z.to_nat n)
  end.

Inductive Side := SideLeft | SideRight.

#[export] Instance Side_eq_dec : EqDecision Side.
Proof. solve_decision. Defined.

Record ReviewCommentRow := MkComment {
  CID : Z; FilePath : string; CSide : Side; OriginalCommitSha : string; OriginalLine : Z;
  CurrentPosition : option Z
}.

(** The blob cache: a missing or unreadable blob is cached as [None]. *)
Abbreviation blob_cache := (gmap (string * string) (option string)).

(** [readBlob ref path]: ReadBlobBytes with the 1 MiB cap, [None] on an error. *)
Definition loadBlob (readBlob : string → string → option string) (cache : blob_cache)
    (ref path : string) : option string * blob_cache :=
  match cache !! (ref, path) with
  | Some b => (b, cache)
  | None => let b := readBlob ref path in (b, <[(ref, path) := b]> cache)
  end.

Definition remap_one (readBlob : string → string → option string) (newBaseOID newHeadOID : string)
    (cache : blob_cache) (c : ReviewCommentRow) : ReviewCommentRow * blob_cache :=
  let newRef := if decide (CSide c = SideLeft) then newBaseOID else newHeadOID in
  let '(original, cache) := loadBlob readBlob cache (OriginalCommitSha c) (FilePath c) in
  let '(current, cache) := loadBlob readBlob cache newRef (FilePath c) in
  let newPos :=
    match lineAt original (OriginalLine c), lineAt current (OriginalLine c) with
    | Some line, Some cur => if decide (line = cur) then Some (OriginalLine c) else None
    | _, _ => None
    end in
  (MkComment (CID c) (FilePath c) (CSide c) (OriginalCommitSha c) (OriginalLine c) newPos, cache).

Fixpoint remap_loop (readBlob : string → string → option string) (newBaseOID newHeadOID : string)
    (cache : blob_cache) (rows : list ReviewCommentRow) : list ReviewCommentRow :=
  match rows with
  | [] => []
  | c :: rows =>
      let '(c, cache) := remap_one readBlob newBaseOID newHeadOID cache c in
      c :: remap_loop readBlob newBaseOID newHeadOID cache rows
  end.

(** [RemapAllForPR] on the table of the pull request's comments. *)
Definition RemapAllForPR (readBlob : string → string → option string)
    (newBaseOID newHeadOID : string) (rows : list ReviewCommentRow) : list ReviewCommentRow :=
  if decide (newBaseOID = "" ∨ newHeadOID = "") then rows
  else remap_loop readBlob newBaseOID newHeadOID ∅ rows.
