(* ===== verification/Checks.v ===== *)
(** * Checks: required checks and the suite rollup

    internal/checks: required_eval.go, suite_rollup.go and the enum validation of
    checks.go.  The latest run of a name is what GetLatestCheckRunByName returns. *)

From S2P Require Import Prelude GoString.
Local Open Scope nat_scope.

Inductive CheckStatus := Queued | InProgress | Completed | Pending.

Inductive CheckConclusion :=
| Success | Failure | Neutral | Cancelled | Skipped | TimedOut | ActionRequired | Stale.

#[export] Instance CheckStatus_eq_dec : EqDecision CheckStatus.
Proof. solve_decision. Defined.
#[export] Instance CheckConclusion_eq_dec : EqDecision CheckConclusion.
Proof. solve_decision. Defined.

Record CheckRun := MkRun { Status : CheckStatus; Conclusion : option CheckConclusion }.

Definition validStatus (s : string) : bool :=
  bool_decide (s ∈ ["queued"; "in_progress"; "completed"; "pending"]).

Definition validConclusion (s : string) : bool :=
  bool_decide (s ∈ ["success"; "failure"; "neutral"; "cancelled"; "skipped"; "timed_out";
                    "action_required"; "stale"]).

(** ** required_eval.go *)

Record GateResult := MkGate { Satisfied : bool; Reason : string; Missing : list string }.

Definition runSatisfies (r : CheckRun) : bool :=
  if decide (Status r ≠ Completed) then false
  else match Conclusion r with
       | Some Success | Some Neutral => true
       | _ => false
       end.

(** [%v] of a string slice. *)
Definition show_names (l : list string) : string := "[" +:+ Join l " " +:+ "]".

Section Required.
  Context {E : Type} (GetLatestCheckRunByName : string → res E (option CheckRun)).

Fixpoint missing_loop (names : list string) : res E (list string) :=
  match names with
  | [] => Ok []
  | name :: names =>
      run ← GetLatestCheckRunByName name;
      missing ← missing_loop names;
      match run with
      | None => Ok (name :: missing)
      | Some r => if negb (runSatisfies r) then Ok (name :: missing) else Ok missing
      end
  end.

Definition EvaluateRequiredChecks (headSHA : string) (requiredNames : list string)
  : res E GateResult :=
  if decide (requiredNames = []) then Ok (MkGate true "" [])
  else if decide (headSHA = "") then
    Ok (MkGate false "head SHA not yet recorded for this PR" requiredNames)
  else
    missing ← missing_loop requiredNames;
    match missing with
    | [] => Ok (MkGate true "" [])
    | [m] => Ok (MkGate false ("Required check missing: " +:+ m) missing)
    | _ => Ok (MkGate false ("Required checks missing: " +:+ show_names missing) missing)
    end.

End Required.

(** ** suite_rollup.go *)

Definition priority : list CheckConclusion :=
  [Failure; TimedOut; Cancelled; ActionRequired; Success; Neutral; Skipped; Stale].

(** [rank[c]]: the index of [c] in [priority]. *)
Definition rank (c : CheckConclusion) : nat :=
  match c with
  | Failure => 0 | TimedOut => 1 | Cancelled => 2 | ActionRequired => 3
  | Success => 4 | Neutral => 5 | Skipped => 6 | Stale => 7
  end.

Definition best_step (bestIdx : option nat) (r : CheckRun) : option nat :=
  match Conclusion r with
  | None => bestIdx
  | Some c =>
      match bestIdx with
      | None => Some (rank c)
      | Some b => if decide (rank c < b) then Some (rank c) else bestIdx
      end
  end.

Definition DeriveSuiteRollup (runs : list CheckRun) : CheckStatus * option CheckConclusion :=
  if decide (runs = []) then (Queued, None)
  else
    let allCompleted := forallb (fun r => bool_decide (Status r = Completed)) runs in
    let anyMoved := existsb (fun r => bool_decide (Status r ≠ Queued)) runs in
    if negb allCompleted then if anyMoved then (InProgress, None) else (Queued, None)
    else
      match foldl best_step None runs with
      | None => (Completed, Some Neutral)
      | Some i => (Completed, priority !! i)
      end.
