(* ===== verification/ReviewGateFacts.v ===== *)
(** * ReviewGateFacts: approvals, the merge gate, re-anchored comments *)

From S2P Require Import Prelude GoString PathMatch Protection ReviewGate.
Local Open Scope nat_scope.

(** ** The decision of each reviewer *)

(** The states of an author's reviews that are decisions, in order. *)
Definition decisions (a : Z) (reviews : list ReviewRow) : list PrReviewState :=
  omap (fun r => if decide (int64FromPg (AuthorUserID r) = a ∧ is_decision (State r) = true)
                 then Some (State r) else None) reviews.

(** The decision that counts for [a]: the last one; none for the author of the
    pull request and for reviews without an author. *)
Definition counting (pr a : Z) (reviews : list ReviewRow) : option PrReviewState :=
  if decide (a = pr ∨ a = 0%Z) then None else last (decisions a reviews).

Definition author (r : ReviewRow) : Z := int64FromPg (AuthorUserID r).

Lemma counting_snoc pr a l r :
  counting pr a (l ++ [r]) =
  if decide (author r = a ∧ is_decision (State r) = true ∧ a ≠ pr ∧ a ≠ 0%Z)
  then Some (State r) else counting pr a l.
Proof.
  unfold counting, decisions, author. rewrite omap_app. cbn.
  destruct (decide (a = pr ∨ a = 0%Z)); [rewrite decide_False by tauto; done|].
  destruct (decide (_ = a ∧ _)) as [[H1 H2]|H].
  - rewrite decide_True by tauto. cbn. by rewrite last_snoc.
  - rewrite decide_False by tauto. cbn. by rewrite app_nil_r.
Qed.

(** The invariant of the loop of latestPerAuthor. *)
Definition latest_inv (pr : Z) (l : list ReviewRow) (st : latest_st) : Prop :=
  (curValid st = false → curAuthor st = 0%Z) ∧ ∀ a, flush pr st !! a = counting pr a l.

Lemma flush_lookup pr st a :
  flush pr st !! a =
  if decide (curValid st = true ∧ curAuthor st = a ∧ a ≠ pr ∧ a ≠ 0%Z ∧
             is_decision (curState st) = true)
  then Some (curState st) else out st !! a.
Proof.
  unfold flush. destruct (negb _ || _ || _) eqn:E.
  - rewrite decide_False; [done|]. rewrite !orb_true_iff, !bool_decide_eq_true, negb_true_iff in E.
    intros (H1 & <- & H2 & H3 & _). naive_solver congruence.
  - bools. destruct (is_decision (curState st)) eqn:Ed.
    + destruct (decide (curAuthor st = a)) as [<-|Hne].
      * rewrite decide_True by done. by rewrite lookup_insert_eq.
      * rewrite decide_False by tauto. by rewrite lookup_insert_ne.
    + by rewrite decide_False by naive_solver.
Qed.

Lemma latest_step_inv pr l st r :
  latest_inv pr l st → latest_inv pr (l ++ [r]) (latest_step pr st r).
Proof.
  intros [Hv Hf]. unfold latest_step. fold (author r). case_decide as Ha.
  - split; [done|]. intros a. rewrite flush_lookup. cbn [curValid curAuthor curState out].
    rewrite counting_snoc, Hf. decide_goal; naive_solver.
  - destruct (is_decision (State r)) eqn:Ed.
    + split; [exact Hv|]. intros a. rewrite flush_lookup. cbn [curValid curAuthor curState out].
      rewrite counting_snoc, <-Hf, flush_lookup. rewrite Ha, Ed.
      destruct (curValid st); [|specialize (Hv eq_refl)]; decide_goal; naive_solver congruence.
    + split; [exact Hv|]. intros a. rewrite counting_snoc, Hf.
      rewrite decide_False; [done|]. naive_solver congruence.
Qed.

Lemma latestPerAuthor_counting reviews pr a :
  latestPerAuthor reviews pr !! a = counting pr a reviews.
Proof.
  unfold latestPerAuthor.
  assert (∀ l st l0, latest_inv pr l0 st →
    latest_inv pr (l0 ++ l) (foldl (latest_step pr) st l)) as Hloop.
  { intros l. induction l as [|r l IH]; intros st l0 Hi; cbn; [by rewrite app_nil_r|].
    rewrite (cons_middle r l0 l), app_assoc. apply IH. by apply latest_step_inv. }
  apply (Hloop reviews (MkLatest ∅ 0 ReviewComment false) []).
  split; [done|]. intros b. unfold counting. by case_decide.
Qed.

(** ** Counting *)

Lemma latestApprovers_elem m a : a ∈ latestApprovers m ↔ m !! a = Some Approve.
Proof.
  unfold latestApprovers. rewrite <-elem_of_map_to_list.
  induction (map_to_list m) as [|[k v] l IH]; [set_solver|]. cbn [foldr fst snd].
  rewrite elem_of_cons. case_decide; [rewrite elem_of_union, elem_of_singleton|]; rewrite IH;
    naive_solver.
Qed.

Lemma count_approves m : (countLatestDecisions m).1 = size (latestApprovers m).
Proof.
  unfold countLatestDecisions, latestApprovers.
  pose proof (NoDup_fst_map_to_list m) as Hnd. revert Hnd.
  induction (map_to_list m) as [|[k v] l IH]; intros Hnd; [done|]. cbn [foldr fst snd].
  rewrite fmap_cons in Hnd. apply NoDup_cons in Hnd as [Hk Hnd]. specialize (IH Hnd).
  destruct (foldr _ (0, false) l) as [n b]. cbn in IH. subst n.
  destruct v; rewrite ?decide_False, ?decide_True by done; cbn [fst]; try done.
  rewrite size_union, size_singleton; [done|]. intros x Hx%elem_of_singleton Hin. subst x. apply Hk.
  cbn. clear -Hin. induction l as [|[k' v'] l IH]; [set_solver|]. cbn [foldr fst snd] in Hin.
  rewrite fmap_cons. case_decide; set_solver.
Qed.

Lemma count_requests m : (countLatestDecisions m).2 = true ↔ ∃ a, m !! a = Some RequestChanges.
Proof.
  unfold countLatestDecisions. setoid_rewrite <-elem_of_map_to_list.
  induction (map_to_list m) as [|[k v] l IH]; [set_solver|]. cbn [foldr fst snd].
  destruct (foldr _ (0, false) l) as [n b]. cbn in *. setoid_rewrite elem_of_cons.
  destruct v; cbn; rewrite ?IH; naive_solver.
Qed.

(** C23: The review gate: [Evaluate] is satisfied exactly when no reviewer's
    last decision requests changes, at least the required number of reviewers have
    approval as their last decision, and the code owners' review, where the governing
    rule requires it, is in.  The last decision of a reviewer ignores comments; the
    author of the pull request never counts; the order in which different
    reviewers' rows come does not matter.  So a comment does not lift a request for changes, and the approval of
    a reader counts: docs/public/user/branch-protection.md says the opposite of both. *)
Theorem Evaluate_satisfied {E} (co : gset Z → res E (bool * list string))
    (cof : gset Z → bool * list string) (rules : list BranchProtectionRule) (base : string)
    (reviews : list ReviewRow) (pr : Z) :
  (∀ s, co s = Ok (cof s)) →
  let rule := MatchLongestRule rules base in
  ∃ g (approvers : gset Z), Evaluate co rules base reviews pr = Ok g ∧
    (∀ a, a ∈ approvers ↔ counting pr a reviews = Some Approve) ∧
    CurrentApprovals g = size approvers ∧
    (Satisfied g = true ↔
       (∀ a, counting pr a reviews ≠ Some RequestChanges) ∧
       (from_option RequiredReviewCount 0%Z rule ≤ Z.of_nat (size approvers))%Z ∧
       (from_option RequireCodeOwnerReview false rule = true → (cof approvers).1 = true)).
Proof.
  intros Hco rule. unfold Evaluate. fold rule.
  set (latest := latestPerAuthor reviews pr).
  pose proof (count_approves latest) as Ha. pose proof (count_requests latest) as Hr.
  destruct (countLatestDecisions latest) as [n rc]. cbn in Ha, Hr. subst n.
  assert (rc = false ↔ ∀ a, counting pr a reviews ≠ Some RequestChanges) as Hrc.
  { rewrite <-not_true_iff_false, Hr. setoid_rewrite <-latestPerAuthor_counting. naive_solver. }
  clear Hr.
  assert (∀ a, a ∈ latestApprovers latest ↔ counting pr a reviews = Some Approve) as Hap
    by (intros a; by rewrite latestApprovers_elem, <-latestPerAuthor_counting).
  rewrite Hco. destruct (cof (latestApprovers latest)) as [ok missing] eqn:Ec.
  destruct rule as [r|]; cbn [from_option].
  - destruct (RequireCodeOwnerReview r) eqn:Eo; cbn; eexists _, (latestApprovers latest);
      (split; [done|]); (split; [exact Hap|]); rewrite ?Ec; cbn;
      destruct rc; cbn; try case_bool_decide; cbn; try destruct ok; cbn;
      (split; [done|]); rewrite <-Hrc; intuition (lia || congruence).
  - cbn. eexists _, (latestApprovers latest). split; [done|]. split; [exact Hap|].
    destruct rc; cbn; try case_bool_decide; cbn; (split; [done|]); rewrite <-Hrc;
      intuition (lia || congruence).
Qed.

Lemma Evaluate_satisfied_witness :
  ∃ g, Evaluate (E := unit) (fun _ => Ok (true, []))
      [MkRule 1 "trunk" "branch" false false false [] 1 false []] "trunk"
      [MkReview (Some 2%Z) RequestChanges; MkReview (Some 2%Z) Approve;
       MkReview (Some 2%Z) ReviewComment; MkReview (Some 9%Z) RequestChanges] 9 = Ok g ∧
    CurrentApprovals g = 1 ∧ Satisfied g = true.
Proof.
  destruct (Evaluate_satisfied (E := unit) (fun _ => Ok (true, [])) (fun _ => (true, []))
    [MkRule 1 "trunk" "branch" false false false [] 1 false []] "trunk"
    [MkReview (Some 2%Z) RequestChanges; MkReview (Some 2%Z) Approve;
     MkReview (Some 2%Z) ReviewComment; MkReview (Some 9%Z) RequestChanges] 9 ltac:(done))
    as (g & ap & Hg & Hap & Hn & _).
  exists g. split; [exact Hg|]. vm_compute in Hg. injection Hg as <-. done.
Defined.

(** ** Lines and re-anchoring *)

(** The lines of a text: what newlines end, and an unterminated rest. *)
Fixpoint lines_acc (acc s : string) : list string :=
  match s with
  | "" => if decide (acc = "") then [] else [acc]
  | String c s =>
      if decide (c = "010"%char) then acc :: lines_acc "" s else lines_acc (acc +:+ String c "") s
  end.

Definition lines (s : string) : list string := lines_acc "" s.

Lemma lineAt_loop_lines s acc line n :
  line ≤ n → lineAt_loop s acc line n = lines_acc acc s !! (n - line).
Proof.
  revert acc line. induction s as [|c s IH]; intros acc line Hle; cbn [lineAt_loop lines_acc].
  - destruct (decide (acc = "")) as [->|Ha]; [rewrite decide_False by tauto; done|].
    case_decide as Hn.
    + destruct Hn as [-> _]. by rewrite Nat.sub_diag.
    + destruct (n - line) eqn:E; [|done]. exfalso. apply Hn. split; [lia|done].
  - case_decide; [|by apply IH]. case_decide as Hn; [subst; by rewrite Nat.sub_diag|].
    rewrite IH by lia. destruct (n - line) eqn:E; [lia|]. cbn. f_equal. lia.
Qed.

Lemma lineAt_lines b n :
  lineAt (Some b) n = if decide (n < 1)%Z then None else lines b !! Z.to_nat (n - 1).
Proof.
  unfold lineAt. case_decide; [done|]. rewrite lineAt_loop_lines by lia.
  unfold lines. f_equal. lia.
Qed.

(** The anchor a comment gets, without the blob cache. *)
Definition anchor (readBlob : string → string → option string) (base head : string)
    (c : ReviewCommentRow) : option Z :=
  let ref := if decide (CSide c = SideLeft) then base else head in
  match readBlob (OriginalCommitSha c) (FilePath c), readBlob ref (FilePath c) with
  | Some b1, Some b2 =>
      let n := Z.to_nat (OriginalLine c - 1) in
      if decide ((1 ≤ OriginalLine c)%Z ∧ is_Some (lines b1 !! n) ∧ lines b1 !! n = lines b2 !! n)
      then Some (OriginalLine c) else None
  | _, _ => None
  end.

Definition reanchored rb base head (c : ReviewCommentRow) : ReviewCommentRow :=
  MkComment (CID c) (FilePath c) (CSide c) (OriginalCommitSha c) (OriginalLine c)
    (anchor rb base head c).

(** The cache holds what reading would give. *)
Definition cache_ok (rb : string → string → option string) (m : blob_cache) : Prop :=
  ∀ r p b, m !! (r, p) = Some b → b = rb r p.

Lemma loadBlob_ok rb m r p :
  cache_ok rb m → ∃ m', loadBlob rb m r p = (rb r p, m') ∧ cache_ok rb m'.
Proof.
  intros Hm. unfold loadBlob. destruct (m !! (r, p)) as [b|] eqn:E.
  - exists m. by rewrite (Hm _ _ _ E).
  - eexists. split; [done|]. intros r' p' b Hb.
    destruct (decide ((r, p) = (r', p'))) as [[= <- <-]|Hne].
    + rewrite lookup_insert_eq in Hb. congruence.
    + rewrite lookup_insert_ne in Hb by done. eauto.
Qed.

Lemma remap_one_ok rb base head m c :
  cache_ok rb m → ∃ m', remap_one rb base head m c = (reanchored rb base head c, m') ∧ cache_ok rb m'.
Proof.
  intros Hm. unfold remap_one, reanchored, anchor.
  destruct (loadBlob_ok rb m (OriginalCommitSha c) (FilePath c) Hm) as (m1 & -> & Hm1).
  set (ref := if decide _ then base else head).
  destruct (loadBlob_ok rb m1 ref (FilePath c) Hm1) as (m2 & -> & Hm2).
  exists m2. split; [|done]. f_equal. f_equal.
  destruct (rb (OriginalCommitSha c) _) as [b1|], (rb ref _) as [b2|]; rewrite ?lineAt_lines.
  all: try (cbn [lineAt]; repeat case_match; done).
  destruct (decide (OriginalLine c < 1)%Z); [rewrite decide_False by (intros [? _]; lia); done|].
  destruct (lines b1 !! _) as [l1|]; [|by rewrite decide_False by naive_solver].
  destruct (lines b2 !! _) as [l2|]; [|by rewrite decide_False by naive_solver].
  case_decide; [subst; rewrite decide_True; [done|]; split_and!; [lia|done..]|].
  rewrite decide_False; [done|]. naive_solver.
Qed.

Lemma remap_loop_ok rb base head m rows :
  cache_ok rb m → remap_loop rb base head m rows = map (reanchored rb base head) rows.
Proof.
  revert m. induction rows as [|c rows IH]; intros m Hm; [done|]. cbn [remap_loop map].
  destruct (remap_one_ok rb base head m c Hm) as (m' & -> & Hm'). by rewrite IH.
Qed.

(** Re-anchoring of review comments: the blob cache is transparent, every
    comment is anchored at its original line exactly when that line exists in the
    original and the new file and is the same text, and outdated otherwise; running
    it again changes nothing. *)
Theorem RemapAllForPR_spec (rb : string → string → option string) (base head : string)
    (rows : list ReviewCommentRow) :
  base ≠ "" → head ≠ "" →
  RemapAllForPR rb base head rows = map (reanchored rb base head) rows ∧
  RemapAllForPR rb base head (RemapAllForPR rb base head rows) = RemapAllForPR rb base head rows.
Proof.
  intros Hb Hh. unfold RemapAllForPR. rewrite !decide_False by tauto.
  assert (cache_ok rb ∅) as He by (intros r p b Hm; by rewrite lookup_empty in Hm).
  rewrite !remap_loop_ok by done. split; [done|]. rewrite map_map. by apply map_ext.
Qed.

Lemma RemapAllForPR_spec_witness :
  let nl := String "010" "" in
  let rb r _ := if decide (r = "old") then Some ("a" +:+ nl +:+ "b" +:+ nl)
                else Some ("a" +:+ nl +:+ "c") in
  let c n := MkComment 1 "f" SideRight "old" n None in
  RemapAllForPR rb "base" "head" [c 1%Z; c 2%Z] = map (reanchored rb "base" "head") [c 1%Z; c 2%Z].
Proof. intros nl rb c. apply (RemapAllForPR_spec rb); discriminate. Defined.
