(* ===== verification/ChecksFacts.v ===== *)
(** * ChecksFacts: the required-check gate and the suite rollup *)

From S2P Require Import Prelude GoString Checks.
Local Open Scope nat_scope.

(** ** Required checks *)

(** A required name passes when its latest run on the head completed with
    success or neutral. *)
Definition passes {E} (look : string → res E (option CheckRun)) (name : string) : Prop :=
  ∃ r, look name = Ok (Some r) ∧ Status r = Completed ∧
    (Conclusion r = Some Success ∨ Conclusion r = Some Neutral).

Lemma runSatisfies_true r :
  runSatisfies r = true ↔
  Status r = Completed ∧ (Conclusion r = Some Success ∨ Conclusion r = Some Neutral).
Proof. unfold runSatisfies. case_decide; repeat case_match; naive_solver. Qed.

Definition passes_b {E} (look : string → res E (option CheckRun)) (name : string) : bool :=
  match look name with Ok (Some r) => runSatisfies r | _ => false end.

Lemma passes_b_true {E} (look : string → res E (option CheckRun)) name :
  passes_b look name = true ↔ passes look name.
Proof.
  unfold passes_b, passes. setoid_rewrite <-runSatisfies_true.
  destruct (look name) as [[r|]|]; naive_solver.
Qed.

Lemma missing_loop_filter {E} (look : string → res E (option CheckRun)) names missing :
  missing_loop look names = Ok missing →
  missing = filter (fun n => passes_b look n = false) names.
Proof.
  revert missing. induction names as [|n names IH]; intros missing; cbn [missing_loop].
  - by intros [= <-].
  - intros (run & Hrun & (ms & Hms & H)%bind_Ok_inv)%bind_Ok_inv.
    apply IH in Hms as ->. cbn.
    assert (passes_b look n = from_option runSatisfies false run) as Hb
      by (unfold passes_b; rewrite Hrun; by destruct run).
    destruct run as [r|]; cbn in Hb; [destruct (runSatisfies r)|]; cbn in H; simplify_eq;
      [by rewrite decide_False by congruence|by rewrite decide_True..].
Qed.

(** C24: The required-check gate: when the lookups answer, the gate is satisfied
    exactly when no check is required, or the head commit is known and every
    required name's latest run on it completed with success or neutral; [Missing]
    lists exactly the names that did not, in order, and is empty when satisfied.
    (docs/internal/checks.md says the same of neutral; the public documentation has it not count.) *)
Theorem EvaluateRequiredChecks_satisfied {E} (look : string → res E (option CheckRun))
    (head : string) (names : list string) (g : GateResult) :
  EvaluateRequiredChecks look head names = Ok g →
  (Satisfied g = true ↔ names = [] ∨ head ≠ "" ∧ ∀ n, n ∈ names → passes look n) ∧
  (head ≠ "" → Missing g = filter (fun n => passes_b look n = false) names) ∧
  (Satisfied g = true ↔ Missing g = []).
Proof.
  unfold EvaluateRequiredChecks. case_decide as Hn; [subst; intros [= <-]; naive_solver|].
  case_decide as Hh; [subst; intros [= <-]; cbn; naive_solver|].
  intros (ms & Hms & H)%bind_Ok_inv. apply missing_loop_filter in Hms.
  assert (ms = [] ↔ ∀ n, n ∈ names → passes look n) as Hall.
  { assert (∀ n, n ∈ ms ↔ passes_b look n = false ∧ n ∈ names) as Hin
      by (intros n; rewrite Hms, list_elem_of_filter; done).
    setoid_rewrite <-passes_b_true. split.
    - intros -> n Hn'. destruct (passes_b look n) eqn:Ep; [done|].
      exfalso. apply (elem_of_nil n). by apply Hin.
    - intros Hp. destruct ms as [|m ms']; [done|].
      destruct (proj1 (Hin m)) as [Hm Hn']; [by left|]. rewrite Hp in Hm by done. done. }
  destruct ms as [|m [|m' ms]]; simplify_eq/=; rewrite <-Hall; split_and!; naive_solver.
Qed.

Lemma EvaluateRequiredChecks_satisfied_witness :
  let look n := Ok (E := unit) (if decide (n = "ci") then Some (MkRun Completed (Some Success))
                     else if decide (n = "lint") then Some (MkRun InProgress None) else None) in
  let g := MkGate false "Required checks missing: [lint docs]" ["lint"; "docs"] in
  EvaluateRequiredChecks look "abc" ["ci"; "lint"; "docs"] = Ok g ∧
  (Satisfied g = true ↔ Missing g = []).
Proof.
  intros look g. split; [reflexivity|].
  apply (EvaluateRequiredChecks_satisfied look "abc" ["ci"; "lint"; "docs"] g). reflexivity.
Defined.

(** ** Suite rollup *)

Definition min_opt (a b : option nat) : option nat :=
  match a, b with
  | Some x, Some y => Some (x `min` y)
  | Some x, None => Some x
  | None, b => b
  end.

Lemma best_step_min b r : best_step b r = min_opt b (rank <$> Conclusion r).
Proof.
  unfold best_step, min_opt. destruct b, (Conclusion r); cbn; try done.
  case_decide; f_equal; lia.
Qed.

Lemma min_opt_assoc a b c : min_opt (min_opt a b) c = min_opt a (min_opt b c).
Proof. destruct a, b, c; cbn; try done. by rewrite Nat.min_assoc. Qed.

Lemma min_opt_comm a b : min_opt a b = min_opt b a.
Proof. destruct a, b; cbn; try done. by rewrite Nat.min_comm. Qed.

Lemma best_foldl_perm runs runs' b :
  runs ≡ₚ runs' → foldl best_step b runs = foldl best_step b runs'.
Proof.
  intros Hp. revert b. induction Hp as [|r l l' _ IH|r1 r2 l|l1 l2 l3 _ IH1 _ IH2]; intros b; cbn.
  - done.
  - apply IH.
  - rewrite !best_step_min, !min_opt_assoc. by rewrite (min_opt_comm (rank <$> Conclusion r1)).
  - by rewrite IH1.
Qed.

Lemma rank_priority c : priority !! rank c = Some c.
Proof. by destruct c. Qed.

Lemma rank_inj c d : rank c = rank d → c = d.
Proof. by destruct c, d. Qed.

(** The worst conclusion among the runs: present, and ranked before all others. *)
Lemma best_foldl_spec runs b :
  match foldl best_step b runs with
  | Some i => (b = Some i ∨ ∃ r c, r ∈ runs ∧ Conclusion r = Some c ∧ rank c = i) ∧
      (∀ j, b = Some j → i ≤ j) ∧ ∀ r c, r ∈ runs → Conclusion r = Some c → i ≤ rank c
  | None => b = None ∧ ∀ r, r ∈ runs → Conclusion r = None
  end.
Proof.
  revert b. induction runs as [|r runs IH]; intros b; cbn.
  - destruct b; [|set_solver]. split_and!; [by left|naive_solver lia|set_solver].
  - specialize (IH (best_step b r)). rewrite best_step_min in *.
    destruct (foldl best_step _ runs) as [i|].
    + destruct IH as (Hex & Hb & Hall). split_and!.
      * destruct Hex as [Hex|(r' & c & ? & ? & ?)]; [|right; exists r', c; set_solver].
        destruct b as [j|], (Conclusion r) as [c|] eqn:Ec; cbn in Hex; simplify_eq; [|by left|].
        -- destruct (Nat.min_spec j (rank c)) as [[_ ->]|[_ ->]]; [by left|].
           right. exists r, c. set_solver.
        -- right. exists r, c. set_solver.
      * intros j ->. destruct (Conclusion r); cbn in Hb; [|auto].
        specialize (Hb _ eq_refl). lia.
      * intros r' c' [->|Hr']%elem_of_cons Hc; [|eauto]. rewrite Hc in Hb. cbn in Hb.
        destruct b; specialize (Hb _ eq_refl); lia.
    + destruct IH as [Hb Hall]. destruct b, (Conclusion r) eqn:Ec; try done.
      split; [done|]. intros r' [->|]%elem_of_cons; auto.
Qed.

(** The suite rollup: the derived status is completed exactly when every
    run is (and there is one), queued exactly when none has moved; a completed
    suite's conclusion is the worst of its runs' by the documented priority
    (neutral if none has one).  It does not depend on the order of the runs. *)
Theorem DeriveSuiteRollup_spec (runs runs' : list CheckRun) :
  runs ≡ₚ runs' → runs ≠ [] →
  DeriveSuiteRollup runs = DeriveSuiteRollup runs' ∧
  let '(st, c) := DeriveSuiteRollup runs in
  (st = Completed ↔ ∀ r, r ∈ runs → Status r = Completed) ∧
  (st = Queued ↔ ∀ r, r ∈ runs → Status r = Queued) ∧
  (st = Completed → ∀ r d, r ∈ runs → Conclusion r = Some d →
     ∃ c0, c = Some c0 ∧ rank c0 ≤ rank d ∧ ∃ r0, r0 ∈ runs ∧ Conclusion r0 = Some c0).
Proof.
  intros Hp Hne. assert (runs' ≠ []) as Hne' by (intros ->; by apply Permutation_nil_r in Hp).
  unfold DeriveSuiteRollup. rewrite !decide_False by done.
  rewrite <-(best_foldl_perm _ _ None Hp).
  assert (∀ l, forallb (fun r => bool_decide (Status r = Completed)) l = true ↔
    ∀ r, r ∈ l → Status r = Completed) as Hall.
  { intros l. rewrite forallb_forall. setoid_rewrite <-list_elem_of_In.
    by setoid_rewrite bool_decide_eq_true. }
  assert (∀ l, existsb (fun r => bool_decide (Status r ≠ Queued)) l = false ↔
    ∀ r, r ∈ l → Status r = Queued) as Hany.
  { intros l. rewrite <-not_true_iff_false, existsb_exists. setoid_rewrite <-list_elem_of_In.
    setoid_rewrite bool_decide_eq_true. split; [|naive_solver].
    intros H r Hr. destruct (decide (Status r = Queued)); naive_solver. }
  assert (forallb (fun r => bool_decide (Status r = Completed)) runs =
          forallb (fun r => bool_decide (Status r = Completed)) runs') as <-
    by (apply eq_true_iff_eq; rewrite !Hall; by setoid_rewrite Hp).
  assert (existsb (fun r => bool_decide (Status r ≠ Queued)) runs =
          existsb (fun r => bool_decide (Status r ≠ Queued)) runs') as <-
    by (apply eq_true_iff_eq; rewrite <-!not_false_iff_true, !Hany; by setoid_rewrite Hp).
  specialize (Hall runs). specialize (Hany runs). split; [done|].
  destruct (forallb _ runs) eqn:Ea; cbn [negb].
  - pose proof (proj1 Hall eq_refl) as Hc.
    pose proof (best_foldl_spec runs None) as Hb.
    assert (¬ ∀ r, r ∈ runs → Status r = Queued) as Hq.
    { intros Hq. destruct runs as [|r runs]; [done|]. specialize (Hq r ltac:(by left)).
      specialize (Hc r ltac:(by left)). congruence. }
    destruct (foldl best_step None runs) as [i|].
    + destruct Hb as ([|(r0 & c0 & Hr0 & Hc0 & <-)] & _ & Hmin); [done|].
      split_and!; [naive_solver|naive_solver|]. intros _ r d Hr Hd. exists c0.
      rewrite rank_priority. eauto 10.
    + destruct Hb as [_ Hb]. split_and!; [naive_solver|naive_solver|].
      intros _ r d Hr Hd. rewrite Hb in Hd by done. done.
  - assert (¬ ∀ r, r ∈ runs → Status r = Completed) as Hc by (rewrite <-Hall; done).
    destruct (existsb _ runs) eqn:Ee; split_and!; try naive_solver.
Qed.

Lemma DeriveSuiteRollup_spec_witness :
  let runs := [MkRun Completed (Some Success); MkRun Completed (Some TimedOut)] in
  DeriveSuiteRollup runs = DeriveSuiteRollup (rev runs) ∧
  DeriveSuiteRollup runs = (Completed, Some TimedOut).
Proof.
  intros runs. split; [|reflexivity].
  apply (DeriveSuiteRollup_spec runs (rev runs)); [apply Permutation_rev|done].
Defined.
