(* ===== verification/Scrub.v ===== *)
(** * Scrub: masking secrets in streamed runner logs

    internal/runner/scrub/scrub.go.  The log comes in chunks; the scrubber holds
    back the end of the text while it may be the beginning of a secret.
    [strings.Replacer] replaces, from left to right, the first of its patterns that
    matches at each position. *)

From stdpp Require Import sorting.
From S2P Require Import Prelude GoString.
Local Open Scope nat_scope.

Definition Mask : string := "***".

(** [replacer] is nil exactly when there are no values. *)
Record Scrubber := MkScrubber { values : list string; tail : string; replacements : Z }.

Definition longer_first (a b : string) : Prop := String.length b ≤ String.length a.

#[local] Instance longer_first_dec a b : Decision (longer_first a b).
Proof. unfold longer_first. apply _. Defined.

(** The loop of normalize; [seen] is the part of [out] already there. *)
Fixpoint dedup (vs seen : list string) : list string :=
  match vs with
  | [] => []
  | v :: vs =>
      if decide (v = "") then dedup vs seen
      else if decide (v ∈ seen) then dedup vs seen
      else v :: dedup vs (v :: seen)
  end.

Definition normalize (vs : list string) : list string := merge_sort longer_first (dedup vs []).

Definition New (vs : list string) : Scrubber := MkScrubber (normalize vs) "" 0.

(** The first pattern that matches at the start of [s]. *)
Fixpoint find_prefix (vs : list string) (s : string) : option string :=
  match vs with
  | [] => None
  | v :: vs => if HasPrefix s v then Some v else find_prefix vs s
  end.

(** [replacer.Replace]; [skip] is what is left of the last match. *)
Fixpoint Replace_from (vs : list string) (skip : nat) (s : string) : string :=
  match s with
  | "" => ""
  | String c s' =>
      match skip with
      | S k => Replace_from vs k s'
      | 0 =>
          match find_prefix vs s with
          | Some v => Mask +:+ Replace_from vs (pred (String.length v)) s'
          | None => String c (Replace_from vs 0 s')
          end
      end
  end.

Definition Replace (vs : list string) (s : string) : string := Replace_from vs 0 s.

(** [strings.Index]. *)
Definition Index (s sub : string) : option nat := (fun p => String.length p.1) <$> Cut s sub.

(** The inner loop of countReplacements: the leftmost, then longest, match. *)
Fixpoint best_match (vs : list string) (rest : string) (best : option (nat * string))
  : option (nat * string) :=
  match vs with
  | [] => best
  | v :: vs =>
      match Index rest v with
      | None => best_match vs rest best
      | Some at_ =>
          best_match vs rest
            (match best with
             | None => Some (at_, v)
             | Some (b, w) =>
                 if decide (at_ < b ∨ at_ = b ∧ String.length w < String.length v)
                 then Some (at_, v) else best
             end)
      end
  end.

Fixpoint count_loop (fuel : nat) (vs : list string) (rest : string) : Z :=
  match fuel with
  | 0 => 0
  | S fuel =>
      if decide (rest = "") then 0
      else match best_match vs rest None with
           | None => 0
           | Some (at_, v) => 1 + count_loop fuel vs (str_drop (at_ + String.length v) rest)
           end
  end.

Definition countReplacements (s : string) (vs : list string) : Z :=
  count_loop (S (String.length s)) vs s.

(** The inner loop of pendingSuffixLen, for [n] downwards. *)
Fixpoint pending_one (combined secret : string) (n keep : nat) : nat :=
  match n with
  | 0 => keep
  | S m =>
      if decide (n ≤ keep) then keep
      else if HasSuffix combined (str_take n secret) then n
      else pending_one combined secret m keep
  end.

Fixpoint pending_loop (combined : string) (vs : list string) (keep : nat) : nat :=
  match vs with
  | [] => keep
  | secret :: vs =>
      let max := (String.length secret - 1) `min` String.length combined in
      pending_loop combined vs (pending_one combined secret max keep)
  end.

Definition pendingSuffixLen (s : Scrubber) (combined : string) : nat :=
  pending_loop combined (values s) 0.

(** Counters are [uint64]. *)
Definition uint64 (n : Z) : Z := (n mod 2 ^ 64)%Z.

(** [Scrub]: the bytes emitted, and the scrubber after the call. *)
Definition Scrub (s : Scrubber) (chunk : string) : string * Scrubber :=
  if decide (values s = []) then (chunk, s)
  else
    let combined := tail s +:+ chunk in
    let keep := pendingSuffixLen s combined in
    if decide (keep = String.length combined) then
      ("", MkScrubber (values s) combined (replacements s))
    else
      let emit := str_take (String.length combined - keep) combined in
      let tail' := str_drop (String.length combined - keep) combined in
      (Replace (values s) emit,
       MkScrubber (values s) tail'
         (uint64 (replacements s + countReplacements emit (values s)))).

Definition Flush (s : Scrubber) : string * Scrubber :=
  if decide (tail s = "") then ("", s)
  else if decide (values s = []) then (tail s, MkScrubber (values s) "" (replacements s))
  else
    (Replace (values s) (tail s),
     MkScrubber (values s) ""
       (uint64 (replacements s + countReplacements (tail s) (values s)))).

Definition Replacements (s : Scrubber) : Z := replacements s.

(** A whole log: every chunk scrubbed in turn, then flushed. *)
Fixpoint Scrub_all (s : Scrubber) (chunks : list string) : string * Scrubber :=
  match chunks with
  | [] => Flush s
  | c :: chunks =>
      let '(o, s) := Scrub s c in
      let '(o', s) := Scrub_all s chunks in (o +:+ o', s)
  end.
