(* ===== verification/ScrubFacts.v ===== *)
(** * ScrubFacts: what streaming does to the masking *)

From stdpp Require Import sorting.
From S2P Require Import Prelude GoString Scrub.
Local Open Scope nat_scope.

(** ** Prefixes and suffixes *)

Lemma str_drop_len (n : nat) (s : string) : String.length (str_drop n s) = String.length s - n.
Proof. revert n. induction s as [|c s IH]; intros [|n]; cbn; auto. Qed.

Lemma str_rev_app_spec s acc : str_rev_app s acc = str_rev s +:+ acc.
Proof.
  unfold str_rev. revert acc. induction s as [|c s IH]; intros acc; [done|]. cbn.
  rewrite IH, (IH (String c "")), str_append_assoc. done.
Qed.

Lemma str_rev_cons c s : str_rev (String c s) = str_rev s +:+ String c "".
Proof. apply (str_rev_app_spec s (String c "")). Qed.

Lemma str_rev_append s t : str_rev (s +:+ t) = str_rev t +:+ str_rev s.
Proof.
  induction s as [|c s IH]; [by rewrite str_app_empty, str_append_nil|].
  rewrite str_app_cons, !str_rev_cons, IH. by rewrite str_append_assoc.
Qed.

Lemma str_rev_rev s : str_rev (str_rev s) = s.
Proof. induction s as [|c s IH]; [done|]. by rewrite str_rev_cons, str_rev_append, IH. Qed.

Lemma HasSuffix_true (s p : string) : HasSuffix s p = true ↔ ∃ r, s = r +:+ p.
Proof.
  unfold HasSuffix. rewrite HasPrefix_true. split.
  - intros [r Hr]. exists (str_rev r). rewrite <-(str_rev_rev s), Hr, str_rev_append.
    by rewrite str_rev_rev.
  - intros [r ->]. exists (str_rev r). apply str_rev_append.
Qed.

(** Two splits of the same text. *)
Lemma str_app_split (a b c d : string) :
  a +:+ b = c +:+ d → String.length a ≤ String.length c → ∃ e, c = a +:+ e ∧ b = e +:+ d.
Proof.
  revert c. induction a as [|x a IH]; intros c E Hl; [by exists c|].
  destruct c as [|y c]; [cbn in Hl; lia|]. rewrite !str_app_cons in E. injection E as <- E.
  destruct (IH c E) as (e & -> & ->); [cbn in Hl; lia|]. by exists e.
Qed.

(** [p] is a nonempty proper prefix of [v]. *)
Definition proper_prefix (p v : string) : Prop := p ≠ "" ∧ ∃ q, q ≠ "" ∧ v = p +:+ q.

Definition suffix_of (p s : string) : Prop := ∃ r, s = r +:+ p.

(** ** pendingSuffixLen *)

Lemma pending_one_spec combined secret n keep :
  let k := pending_one combined secret n keep in
  n ≤ String.length secret →
  keep ≤ k ∧ (k = keep ∨ k ≤ n ∧ suffix_of (str_take k secret) combined) ∧
  ∀ j, k < j → j ≤ n → ¬ suffix_of (str_take j secret) combined.
Proof.
  induction n as [|n IH]; cbn [pending_one]; intros Hn; [split_and!; [lia|by left|lia]|].
  case_decide; [split_and!; [lia|by left|lia]|].
  destruct (HasSuffix _ _) eqn:E.
  - apply HasSuffix_true in E. split_and!; [lia|right; split; [lia|done]|lia].
  - destruct IH as (H1 & H2 & H3); [lia|]. split_and!; [done| |].
    + destruct H2 as [|[]]; [by left|right; split; [lia|done]].
    + intros j Hj Hjn. destruct (decide (j = S n)) as [->|]; [|apply H3; lia].
      unfold suffix_of. rewrite <-HasSuffix_true. congruence.
Qed.

(** Nothing longer than what is kept can be the beginning of a secret. *)
Definition no_longer (combined : string) (k : nat) (v : string) : Prop :=
  ∀ p, proper_prefix p v → suffix_of p combined → String.length p ≤ k.

Lemma proper_prefix_take p v :
  proper_prefix p v → p = str_take (String.length p) v ∧ String.length p < String.length v.
Proof.
  intros (_ & q & Hq & ->). rewrite str_length_append. split.
  - induction p as [|c p IH]; [done|]. rewrite str_app_cons. cbn. by f_equal.
  - destruct q; [done|]. cbn. lia.
Qed.

Lemma pending_loop_spec combined vs keep :
  let k := pending_loop combined vs keep in
  keep ≤ k ∧
  (k = keep ∨ ∃ v, v ∈ vs ∧ k < String.length v ∧ suffix_of (str_take k v) combined) ∧
  ∀ v, v ∈ vs → no_longer combined k v.
Proof.
  revert keep. induction vs as [|v vs IH]; intros keep; cbn [pending_loop];
    [split_and!; [lia|by left|set_solver]|].
  set (n := (String.length v - 1) `min` String.length combined).
  destruct (pending_one_spec combined v n keep) as (H1 & H2 & H3); [lia|].
  destruct (IH (pending_one combined v n keep)) as (I1 & I2 & I3). split_and!; [lia| |].
  - destruct I2 as [->|(w & ? & ?)]; [|right; exists w; set_solver].
    destruct H2 as [?|[Hle Hs]]; [by left|].
    destruct (decide (pending_one combined v n keep = keep)); [by left|].
    right. exists v. split_and!; [by left|lia|done].
  - intros w [->|Hw]%elem_of_cons; [|by apply I3].
    intros p Hp Hsuf. destruct (proper_prefix_take p v Hp) as [Hpt Hpl].
    destruct (decide (String.length p ≤ pending_loop combined vs (pending_one combined v n keep)));
      [done|]. exfalso. apply (H3 (String.length p)); [lia| |by rewrite <-Hpt].
    destruct Hsuf as [r ->]. unfold n. rewrite str_length_append. lia.
Qed.

(** ** Replacing around a cut *)

Lemma find_prefix_Some vs s v : find_prefix vs s = Some v → v ∈ vs ∧ ∃ r, s = v +:+ r.
Proof.
  induction vs as [|w vs IH]; cbn; [done|]. destruct (HasPrefix s w) eqn:E.
  - intros [= ->]. split; [by left|]. by apply HasPrefix_true.
  - intros ?. destruct IH; [done|]. split; [by right|done].
Qed.

Lemma find_prefix_ext vs s t :
  (∀ v, v ∈ vs → HasPrefix s v = HasPrefix t v) → find_prefix vs s = find_prefix vs t.
Proof.
  induction vs as [|v vs IH]; intros H; [done|]. cbn. rewrite (H v) by by left.
  destruct (HasPrefix t v); [done|]. apply IH. intros w Hw. apply H. by right.
Qed.

Lemma Replace_skip vs u s : Replace_from vs (String.length u) (u +:+ s) = Replace vs s.
Proof. induction u as [|c u IH]; [by destruct s|]. by rewrite str_app_cons. Qed.

(** No secret starts in [a] and ends in [b]. *)
Definition no_straddle (vs : list string) (a b : string) : Prop :=
  ∀ u x v r, v ∈ vs → a = u +:+ x → x ≠ "" → x +:+ b = v +:+ r →
  String.length v ≤ String.length x.

Lemma Replace_app vs a b :
  "" ∉ vs → no_straddle vs a b → Replace vs (a +:+ b) = Replace vs a +:+ Replace vs b.
Proof.
  intros Hne. induction a as [a IH] using (well_founded_induction (well_founded_ltof _ String.length)).
  unfold ltof in IH. intros Hst. destruct a as [|c a]; [done|].
  assert (find_prefix vs (String c a +:+ b) = find_prefix vs (String c a)) as Hf.
  { apply find_prefix_ext. intros v Hv. apply eq_true_iff_eq. rewrite !HasPrefix_true. split.
    - intros [r Hr]. pose proof (Hst "" (String c a) v r Hv eq_refl ltac:(done) Hr) as Hl.
      symmetry in Hr. destruct (str_app_split _ _ _ _ Hr Hl) as (e & -> & _). by exists e.
    - intros [r Hr]. exists (r +:+ b). by rewrite Hr, str_append_assoc. }
  unfold Replace in *. rewrite str_app_cons in *. cbn [Replace_from]. rewrite Hf.
  destruct (find_prefix vs (String c a)) as [v|] eqn:E.
  - apply find_prefix_Some in E as (Hv & r & Hr). destruct v as [|d v]; [done|].
    rewrite str_app_cons in Hr. injection Hr as <- ->. cbn [String.length pred].
    rewrite (str_append_assoc v r b), !Replace_skip, str_append_assoc. f_equal. unfold Replace.
    apply IH; [cbn; rewrite str_length_append; lia|].
    intros u x w r' Hw -> Hx. apply (Hst (String c v +:+ u) x w r' Hw); [|done].
    by rewrite !str_app_cons, str_append_assoc.
  - rewrite str_app_cons. f_equal. apply IH; [cbn; lia|].
    intros u x w r' Hw -> Hx. by apply (Hst (String c u) x w r' Hw).
Qed.

(** Secrets that do not overlap: no nonempty proper prefix of one is the end of
    another or of itself. *)
Definition overlap_free (vs : list string) : Prop :=
  ∀ p v w, v ∈ vs → w ∈ vs → proper_prefix p v → ¬ suffix_of p w.

Lemma kept_no_straddle vs emit held rest :
  overlap_free vs → (∀ v, v ∈ vs → no_longer (emit +:+ held) (String.length held) v) →
  (held = "" ∨ ∃ w, w ∈ vs ∧ proper_prefix held w) →
  no_straddle vs emit (held +:+ rest).
Proof.
  intros Hof Hmax Hheld u x v r Hv -> Hx E.
  destruct (decide (String.length v ≤ String.length x)) as [|Hlt]; [done|]. exfalso.
  destruct (str_app_split x _ v r E ltac:(lia)) as (y & -> & Ey).
  assert (y ≠ "") as Hy by (intros ->; rewrite str_append_nil in Hlt; lia).
  destruct (decide (String.length held < String.length y)) as [Hl|Hl].
  - destruct (str_app_split held rest y r Ey ltac:(lia)) as (z & -> & _).
    assert (z ≠ "") as Hz by (intros ->; rewrite str_append_nil in Hl; lia).
    pose proof (Hmax _ Hv (x +:+ held)) as Hk. rewrite str_length_append in Hk.
    assert (String.length x > 0) by (destruct x; [done|cbn; lia]).
    enough (String.length x + String.length held ≤ String.length held) by lia. apply Hk.
    + split; [by destruct x|]. exists z. by rewrite str_append_assoc.
    + exists u. by rewrite str_append_assoc.
  - symmetry in Ey. destruct (str_app_split y r held rest Ey ltac:(lia)) as (z & -> & _).
    destruct Hheld as [Hnil|(w & Hw & _ & q & Hq & ->)]; [by destruct y|].
    apply (Hof y _ (x +:+ y) Hw Hv); [|by exists x].
    split; [done|]. exists (z +:+ q). split; [by destruct z|by rewrite str_append_assoc].
Qed.

(** ** The stream *)

Lemma dedup_elem vs seen v : v ∈ dedup vs seen ↔ v ∈ vs ∧ v ≠ "" ∧ v ∉ seen.
Proof.
  revert seen. induction vs as [|w vs IH]; intros seen; cbn; [set_solver|].
  repeat case_decide; rewrite ?elem_of_cons, IH; destruct (decide (v = w)); set_solver.
Qed.

Lemma normalize_elem vs v : v ∈ normalize vs ↔ v ∈ vs ∧ v ≠ "".
Proof. unfold normalize. rewrite merge_sort_Permutation, dedup_elem. set_solver. Qed.

(** What the scrubber holds back is empty or the beginning of a secret. *)
Definition held_ok (s : Scrubber) : Prop :=
  tail s = "" ∨ ∃ w, w ∈ values s ∧ proper_prefix (tail s) w.

Lemma suffix_take k s u v :
  suffix_of (str_take k v) s → k ≤ String.length v → str_drop (String.length s - k) s = u →
  u = str_take k v.
Proof.
  intros [r ->] Hk <-. rewrite str_length_append, str_take_length, (Nat.min_l k) by done.
  replace (_ + k - k) with (String.length r) by lia.
  clear. induction r as [|c r IH]; [by destruct (str_take k v)|]. by rewrite str_app_cons.
Qed.

Lemma Scrub_step (s : Scrubber) (chunk rest : string) :
  values s ≠ [] → "" ∉ values s → overlap_free (values s) →
  let '(o, s') := Scrub s chunk in
  values s' = values s ∧ held_ok s' ∧
  o +:+ Replace (values s) (tail s' +:+ rest) = Replace (values s) (tail s +:+ chunk +:+ rest).
Proof.
  intros Hvs Hne Hof. unfold Scrub. rewrite decide_False by done. cbv zeta.
  rewrite <-(str_append_assoc (tail s)). set (combined := tail s +:+ chunk).
  destruct (pending_loop_spec combined (values s) 0) as (_ & Hk & Hmax).
  fold (pendingSuffixLen s combined) in *. set (k := pendingSuffixLen s combined) in *.
  assert (∀ emit held, emit +:+ held = combined → String.length held = k →
    (held = "" ∨ ∃ w, w ∈ values s ∧ proper_prefix held w) ∧
    Replace (values s) emit +:+ Replace (values s) (held +:+ rest) =
    Replace (values s) (combined +:+ rest)) as Hcut.
  { intros emit held E El.
    assert (held = "" ∨ ∃ w, w ∈ values s ∧ proper_prefix held w) as Hheld.
    { destruct Hk as [Hk|(v & Hv & Hlt & Hs)]; [left; rewrite Hk in El; by destruct held|].
      destruct (decide (held = "")); [by left|]. right. exists v. split; [done|].
      assert (held = str_take k v) as ->.
      { eapply suffix_take; [exact Hs|lia|]. rewrite <-E, str_length_append, El.
        replace (_ + k - k) with (String.length emit) by lia.
        clear. induction emit as [|c e IH]; [by destruct held|]. by rewrite str_app_cons. }
      split; [done|]. exists (str_drop k v). split; [|by rewrite str_take_drop].
      intros Hd. pose proof (str_drop_len k v). rewrite Hd in *. cbn in *. lia. }
    split; [done|]. rewrite <-E, str_append_assoc, (Replace_app _ emit); [done..|].
    apply kept_no_straddle; [done| |done]. intros v Hv. rewrite E, El. by apply Hmax. }
  case_decide as Hall; cbn [values tail fst snd].
  - destruct (Hcut "" combined) as [Hh Hr]; [done..|]. by split_and!.
  - destruct (Hcut (str_take (String.length combined - k) combined)
      (str_drop (String.length combined - k) combined)) as [Hh Hr].
    + apply str_take_drop.
    + rewrite str_drop_len. enough (k ≤ String.length combined) by lia.
      destruct Hk as [->|(v & _ & Hlt & [r E])]; [lia|].
      rewrite E, str_length_append, str_take_length. lia.
    + by split_and!.
Qed.

Lemma Replace_nil (s : string) : Replace [] s = s.
Proof.
  unfold Replace. induction s as [|c s IH]; [done|]. cbn [Replace_from find_prefix]. by rewrite IH.
Qed.

Lemma Scrub_all_Replace (s : Scrubber) (chunks : list string) :
  "" ∉ values s → overlap_free (values s) → (values s = [] → tail s = "") →
  (Scrub_all s chunks).1 = Replace (values s) (tail s +:+ foldr String.append "" chunks).
Proof.
  revert s. induction chunks as [|c chunks IH]; intros s Hne Hof Ht0; cbn.
  - rewrite str_append_nil. unfold Flush. case_decide as Ht; [by rewrite Ht|].
    case_decide as Hv; [by rewrite Hv, Replace_nil|done].
  - destruct (decide (values s = [])) as [Hv|Hv].
    + unfold Scrub. rewrite decide_True by done.
      destruct (Scrub_all s chunks) as [o' s'] eqn:E.
      specialize (IH s Hne Hof Ht0). rewrite E in IH. cbn in *.
      by rewrite IH, Hv, !Replace_nil, (Ht0 Hv), !str_app_empty.
    + pose proof (Scrub_step s c (foldr String.append "" chunks) Hv Hne Hof) as H.
      destruct (Scrub s c) as [o s1]. destruct H as (Hvs & _ & Hr).
      specialize (IH s1). rewrite Hvs in IH. specialize (IH Hne Hof ltac:(done)).
      destruct (Scrub_all s1 chunks) as [o' s']. cbn in *. by rewrite IH.
Qed.

(** C39: Streaming does not weaken the masking of secrets that do not overlap:
    however the log is cut into chunks, the bytes emitted are those of replacing
    every secret in the whole log at once.  No secret is emitted because it came in
    two pieces, and no byte is lost, doubled or held back for good. *)
Theorem Scrub_stream (secrets chunks : list string) :
  overlap_free (normalize secrets) →
  (Scrub_all (New secrets) chunks).1 =
    Replace (normalize secrets) (foldr String.append "" chunks).
Proof.
  intros Hof. apply (Scrub_all_Replace (New secrets)); [|done..].
  intros H. by apply normalize_elem in H as [_ ?].
Qed.

Definition overlap_free_b (vs : list string) : bool :=
  forallb (fun v => forallb (fun w =>
    forallb (fun n => negb (HasSuffix w (str_take n v))) (seq 1 (String.length v - 1))) vs) vs.

Lemma overlap_free_b_true vs : overlap_free_b vs = true → overlap_free vs.
Proof.
  unfold overlap_free_b. rewrite forallb_forall. setoid_rewrite forallb_forall.
  setoid_rewrite forallb_forall. setoid_rewrite <-list_elem_of_In. setoid_rewrite negb_true_iff.
  intros H p v w Hv Hw Hp Hs. destruct (proper_prefix_take _ _ Hp) as [Ep Hl].
  specialize (H v Hv w Hw (String.length p)). rewrite <-Ep in H.
  rewrite (proj2 (HasSuffix_true w p)) in H; [|exact Hs]. apply diff_true_false, H.
  rewrite elem_of_seq. destruct Hp as [Hp _]. destruct p; [done|]. cbn in *. lia.
Qed.

Lemma Scrub_stream_witness :
  (Scrub_all (New ["hunter2"; ""]) ["pass=hun"; "ter2 "; "ok"]).1 = "pass=*** ok".
Proof.
  refine (eq_trans (Scrub_stream ["hunter2"; ""] ["pass=hun"; "ter2 "; "ok"] _) _);
    [|vm_compute; reflexivity].
  apply overlap_free_b_true. vm_compute. reflexivity.
Defined.

(** ** Overlapping secrets *)

Lemma Replace_short (v s : string) :
  String.length s < String.length v → Replace [v] s = s.
Proof.
  unfold Replace. induction s as [|c s IH]; intros Hl; [done|]. cbn [Replace_from find_prefix].
  destruct (HasPrefix (String c s) v) eqn:E.
  - apply HasPrefix_true in E as [r E]. apply (f_equal String.length) in E.
    rewrite str_length_append in E. cbn in *. lia.
  - rewrite IH; [done|]. cbn in Hl. lia.
Qed.

(** A secret that begins and ends with the same text (a border, one
    character is enough: [aba]) is not masked when a chunk ends with it: the scrubber
    takes its last characters for the beginning of another occurrence, emits the
    rest, and then the held-back characters, so that the log shows the secret in
    full. *)
Theorem bordered_secret_leaks (v p q r : string) :
  p ≠ "" → q ≠ "" → v = p +:+ q → v = r +:+ p →
  (Scrub_all (New [v]) [v]).1 = v.
Proof.
  intros Hp Hq Epq Erp.
  assert (v ≠ "") as Hv by (rewrite Epq; by destruct p).
  assert (normalize [v] = [v]) as Hn.
  { unfold normalize. cbn [dedup]. by rewrite !decide_False by set_solver. }
  unfold New. rewrite Hn. cbn [Scrub_all]. unfold Scrub. rewrite decide_False by done.
  cbn [tail values]. rewrite str_app_empty. cbv zeta.
  set (s := MkScrubber [v] "" 0). set (k := pendingSuffixLen s v).
  destruct (pending_loop_spec v [v] 0) as (_ & Hk & Hmax).
  fold k in Hk, Hmax. change (pending_loop v [v] 0) with k in *.
  assert (String.length p ≤ k) as Hpk.
  { apply (Hmax v); [by left| |by exists r]. split; [done|]. by exists q. }
  assert (0 < String.length p) by (destruct p; [done|cbn; lia]).
  assert (k < String.length v) as Hkv.
  { destruct Hk as [->|(w & Hw%list_elem_of_singleton & ? & _)]; [lia|by subst]. }
  rewrite decide_False by lia. unfold Flush. cbn [tail values].
  pose proof (str_take_drop (String.length v - k) v) as Hcut.
  pose proof (str_take_length (String.length v - k) v) as Hl1.
  pose proof (str_drop_len (String.length v - k) v) as Hl2.
  clearbody k s. case_decide as Hd; [rewrite Hd in Hl2; cbn in Hl2; lia|].
  rewrite decide_False by done. cbn [fst]. by rewrite !Replace_short by lia.
Qed.

Lemma bordered_secret_leaks_witness :
  (Scrub_all (New ["passw0rd-p"]) ["passw0rd-p"]).1 = "passw0rd-p".
Proof. by apply (bordered_secret_leaks "passw0rd-p" "p" "assw0rd-p" "passw0rd-"). Defined.
