(* ===== verification/Lru.v ===== *)
(** * Lru: the in-process least-recently-used caches

    internal/cache/lru: Cache (lru.go) and SizedCache (sized.go).  A
    [container/list] element is an identifier; [ll] holds the identifiers from
    front to back, [store] the entries they point to (Go mutates an entry through
    its pointer), and [items] the map from keys to elements.  The clock is an
    argument of the operations; the mutex makes each of them one step.  The
    counters are [uint64]. *)

From S2P Require Import Prelude.
Local Open Scope nat_scope.

Definition u64_succ (n : Z) : Z := ((n + 1) mod 2 ^ 64)%Z.

Record Stats := MkStats { Hits : Z; Misses : Z; Evictions : Z }.

Definition hit (s : Stats) : Stats := MkStats (u64_succ (Hits s)) (Misses s) (Evictions s).
Definition miss (s : Stats) : Stats := MkStats (Hits s) (u64_succ (Misses s)) (Evictions s).
Definition evicted (s : Stats) : Stats := MkStats (Hits s) (Misses s) (u64_succ (Evictions s)).

(** [list.MoveToFront] and [list.Remove]. *)
Definition remove_id (i : nat) (ll : list nat) : list nat := filter (fun j => j ≠ i) ll.
Definition move_to_front (i : nat) (ll : list nat) : list nat := i :: remove_id i ll.

Section Cache.
  Context {K V : Type} `{Countable K}.

(** ** lru.go *)

Record entry := MkEntry { key : K; val : V; expiresAt : Z }.

Record Cache := MkCache {
  capacity : nat; ttl : Z; ll : list nat; store : gmap nat entry; items : gmap K nat;
  fresh_id : nat; stats : Stats
}.

(** [New] panics on a capacity that is not positive. *)
Definition New (cap : Z) : option Cache :=
  if bool_decide (cap ≤ 0)%Z then None
  else Some (MkCache (Z.to_nat cap) 0 [] ∅ ∅ 0 (MkStats 0 0 0)).

Definition NewWithTTL (cap : Z) (t : Z) : option Cache :=
  option_map (fun c => MkCache (capacity c) t (ll c) (store c) (items c) (fresh_id c) (stats c))
    (New cap).

Definition with_stats (s : Stats) (c : Cache) : Cache :=
  MkCache (capacity c) (ttl c) (ll c) (store c) (items c) (fresh_id c) s.

Definition removeElement (i : nat) (c : Cache) : Cache :=
  match store c !! i with
  | None => c
  | Some e =>
      MkCache (capacity c) (ttl c) (remove_id i (ll c)) (delete i (store c))
        (delete (key e) (items c)) (fresh_id c) (stats c)
  end.

Definition touch (i : nat) (c : Cache) : Cache :=
  MkCache (capacity c) (ttl c) (move_to_front i (ll c)) (store c) (items c) (fresh_id c) (stats c).

Definition Get (now : Z) (k : K) (c : Cache) : option V * Cache :=
  match items c !! k with
  | None => (None, with_stats (miss (stats c)) c)
  | Some i =>
      match store c !! i with
      | None => (None, c)
      | Some e =>
          if bool_decide (0 < ttl c)%Z && bool_decide (expiresAt e < now)%Z then
            let c := removeElement i c in (None, with_stats (miss (stats c)) c)
          else
            let c := touch i c in (Some (val e), with_stats (hit (stats c)) c)
      end
  end.

Definition Set_ (now : Z) (k : K) (v : V) (c : Cache) : Cache :=
  let expiry (old : Z) := if bool_decide (0 < ttl c)%Z then (now + ttl c)%Z else old in
  match items c !! k with
  | Some i =>
      match store c !! i with
      | None => c
      | Some e =>
          touch i (MkCache (capacity c) (ttl c) (ll c)
                     (<[i := MkEntry (key e) v (expiry (expiresAt e))]> (store c)) (items c)
                     (fresh_id c) (stats c))
      end
  | None =>
      let i := fresh_id c in
      let c := MkCache (capacity c) (ttl c) (i :: ll c)
                 (<[i := MkEntry k v (expiry 0%Z)]> (store c)) (<[k := i]> (items c))
                 (S i) (stats c) in
      if bool_decide (capacity c < length (ll c)) then
        match last (ll c) with
        | Some b => let c := removeElement b c in with_stats (evicted (stats c)) c
        | None => c
        end
      else c
  end.

Definition Delete (k : K) (c : Cache) : Cache :=
  match items c !! k with Some i => removeElement i c | None => c end.

Definition Len (c : Cache) : nat := length (ll c).

(** ** sized.go *)

Record sizedEntry := MkSized { skey : K; sval : V; size_ : Z }.

Record SizedCache := MkSizedCache {
  maxBytes : Z; cur : Z; sll : list nat; sstore : gmap nat sizedEntry; sitems : gmap K nat;
  sfresh : nat; sstats : Stats
}.

Definition NewSized (max : Z) : option SizedCache :=
  if bool_decide (max ≤ 0)%Z then None
  else Some (MkSizedCache max 0 [] ∅ ∅ 0 (MkStats 0 0 0)).

Definition sremoveElement (i : nat) (c : SizedCache) : SizedCache :=
  match sstore c !! i with
  | None => c
  | Some e =>
      MkSizedCache (maxBytes c) (cur c - size_ e) (remove_id i (sll c)) (delete i (sstore c))
        (delete (skey e) (sitems c)) (sfresh c) (sstats c)
  end.

Definition swith_stats (s : Stats) (c : SizedCache) : SizedCache :=
  MkSizedCache (maxBytes c) (cur c) (sll c) (sstore c) (sitems c) (sfresh c) s.

Definition stouch (i : nat) (c : SizedCache) : SizedCache :=
  MkSizedCache (maxBytes c) (cur c) (move_to_front i (sll c)) (sstore c) (sitems c) (sfresh c)
    (sstats c).

Definition SGet (k : K) (c : SizedCache) : option V * SizedCache :=
  match sitems c !! k with
  | None => (None, swith_stats (miss (sstats c)) c)
  | Some i =>
      match sstore c !! i with
      | None => (None, c)
      | Some e => let c := stouch i c in (Some (sval e), swith_stats (hit (sstats c)) c)
      end
  end.

(** The eviction loop; one element goes at every turn, so [fuel] is the number
    of elements. *)
Fixpoint evict_loop (fuel : nat) (c : SizedCache) : SizedCache :=
  match fuel with
  | 0 => c
  | S fuel =>
      if bool_decide (maxBytes c < cur c)%Z && bool_decide (1 < length (sll c)) then
        match last (sll c) with
        | Some b =>
            let c := sremoveElement b c in
            evict_loop fuel (swith_stats (evicted (sstats c)) c)
        | None => c
        end
      else c
  end.

(** [size] is [len(val)]. *)
Definition SSet (size : V → Z) (k : K) (v : V) (c : SizedCache) : SizedCache :=
  let n := size v in
  let c :=
    match sitems c !! k with
    | Some i =>
        match sstore c !! i with
        | None => c
        | Some e =>
            stouch i (MkSizedCache (maxBytes c) (cur c + (n - size_ e)) (sll c)
                        (<[i := MkSized (skey e) v n]> (sstore c)) (sitems c) (sfresh c) (sstats c))
        end
    | None =>
        let i := sfresh c in
        MkSizedCache (maxBytes c) (cur c + n) (i :: sll c) (<[i := MkSized k v n]> (sstore c))
          (<[k := i]> (sitems c)) (S i) (sstats c)
    end in
  evict_loop (length (sll c)) c.

Definition SDelete (k : K) (c : SizedCache) : SizedCache :=
  match sitems c !! k with Some i => sremoveElement i c | None => c end.

Definition Bytes (c : SizedCache) : Z := cur c.

End Cache.

Arguments entry : clear implicits.
Arguments Cache K V {_ _}.
Arguments sizedEntry : clear implicits.
Arguments SizedCache K V {_ _}.
