(* ===== verification/LruFacts.v ===== *)
(** * LruFacts: the caches refine a recency list *)

From S2P Require Import Prelude Lru.
Local Open Scope nat_scope.

(** ** The list of elements, the entries and the key index

    Common to both caches: [E] is the type of entries. *)

Section Index.
  Context {K E : Type} `{Countable K} (key : E → K).

Record index_ok (ll : list nat) (store : gmap nat E) (items : gmap K nat) (fresh : nat) : Prop := {
  ix_nodup : NoDup ll;
  ix_store i : i ∈ ll ↔ is_Some (store !! i);
  ix_items k i : items !! k = Some i ↔ ∃ e, store !! i = Some e ∧ key e = k;
  ix_fresh i : i ∈ ll → i < fresh
}.

(** The entries from front to back. *)
Definition entries (ll : list nat) (store : gmap nat E) : list E := omap (fun i => store !! i) ll.

Definition without (k : K) (l : list E) : list E := filter (fun e => key e ≠ k) l.

Definition lookup_key (k : K) (l : list E) : option E := head (filter (fun e => key e = k) l).

Lemma entries_ext ll s1 s2 : (∀ i, i ∈ ll → s1 !! i = s2 !! i) → entries ll s1 = entries ll s2.
Proof.
  unfold entries. intros Hs. induction ll as [|i ll IH]; [done|]. cbn. rewrite Hs by by left.
  rewrite IH; [done|]. intros j Hj. apply Hs. by right.
Qed.

Lemma entries_length ll store items fresh :
  index_ok ll store items fresh → length (entries ll store) = length ll.
Proof.
  intros [_ Hs _ _]. assert (∀ i, i ∈ ll → is_Some (store !! i)) as Hl by (intros; by apply Hs).
  clear Hs. induction ll as [|i ll IH]; [done|]. cbn.
  destruct (Hl i) as [e ->]; [by left|]. cbn. f_equal. apply IH. intros. apply Hl. by right.
Qed.

Lemma index_key_inj ll store items fresh i j e f :
  index_ok ll store items fresh → store !! i = Some e → store !! j = Some f → key e = key f → i = j.
Proof.
  intros [_ _ Hi _] He Hf Hk.
  assert (items !! key e = Some i) as H1 by (apply Hi; eauto).
  assert (items !! key e = Some j) as H2 by (apply Hi; eauto). congruence.
Qed.

(** Dropping an element drops its key's entry. *)
Lemma entries_remove ll store items fresh i e :
  index_ok ll store items fresh → store !! i = Some e →
  entries (remove_id i ll) store = without (key e) (entries ll store).
Proof.
  intros Hix He. assert (∀ j f, store !! j = Some f → key f = key e ↔ j = i) as Hk.
  { intros j f Hf. split; [by apply (index_key_inj _ _ _ _ _ _ _ _ Hix)|].
    intros ->. congruence. }
  unfold remove_id, without, entries. clear Hix. induction ll as [|j ll IH]; [done|].
  destruct (decide (j = i)) as [->|Hji].
  - rewrite filter_cons_False by tauto. rewrite IH. cbn. rewrite He.
    by rewrite filter_cons_False by tauto.
  - rewrite filter_cons_True by done. cbn. destruct (store !! j) as [f|] eqn:Ef; [|exact IH].
    rewrite filter_cons_True by (rewrite (Hk j f Ef); done). by rewrite IH.
Qed.

Lemma lookup_key_Some ll store items fresh k i e :
  index_ok ll store items fresh → items !! k = Some i → store !! i = Some e →
  lookup_key k (entries ll store) = Some e.
Proof.
  intros Hix Hi He. assert (key e = k) as Hke.
  { apply (ix_items _ _ _ _ Hix) in Hi as (e' & ? & ?). congruence. }
  assert (i ∈ ll) as Hin by (apply (ix_store _ _ _ _ Hix); eauto).
  assert (∀ j f, store !! j = Some f → key f = k → f = e) as Huniq.
  { intros j f Hf Hk. assert (j = i) as -> by
      (eapply (index_key_inj _ _ _ _ _ _ _ _ Hix); [done..|congruence]). congruence. }
  clear Hix Hi. unfold lookup_key, entries. induction ll as [|j ll IH]; [by apply elem_of_nil in Hin|].
  cbn. destruct (store !! j) as [f|] eqn:Ef.
  - cbn. case_decide as Hk; [cbn; f_equal; eauto|]. apply IH.
    apply elem_of_cons in Hin as [->|]; [congruence|done].
  - apply IH. apply elem_of_cons in Hin as [->|]; [congruence|done].
Qed.

Lemma lookup_key_None ll store items fresh k :
  index_ok ll store items fresh → items !! k = None → lookup_key k (entries ll store) = None.
Proof.
  intros Hix Hi. assert (∀ j f, store !! j = Some f → key f ≠ k) as Hk.
  { intros j f Hf Hkf. assert (items !! k = Some j) by (apply (ix_items _ _ _ _ Hix); eauto).
    congruence. }
  clear Hix Hi. unfold lookup_key, entries. induction ll as [|j ll IH]; [done|]. cbn.
  destruct (store !! j) as [f|] eqn:Ef; [|done]. cbn. rewrite decide_False by eauto. done.
Qed.

Lemma without_absent k l : lookup_key k l = None → without k l = l.
Proof.
  unfold lookup_key, without. induction l as [|e l IH]; [done|].
  destruct (decide (key e = k)) as [Hk|Hk]; [by rewrite filter_cons_True|].
  rewrite filter_cons_False, filter_cons_True by done. intros Hl. by rewrite IH.
Qed.

Lemma index_remove ll store items fresh i e :
  index_ok ll store items fresh → store !! i = Some e →
  index_ok (remove_id i ll) (delete i store) (delete (key e) items) fresh.
Proof.
  intros Hix He. pose proof Hix as [Hnd Hs Hi Hf]. split.
  - by apply NoDup_filter.
  - intros j. unfold remove_id. rewrite list_elem_of_filter, Hs.
    destruct (decide (i = j)) as [->|]; [rewrite lookup_delete_eq|rewrite lookup_delete_ne by done];
      [|naive_solver]. split; [naive_solver|by intros []].
  - intros k j. destruct (decide (key e = k)) as [<-|Hk].
    + rewrite lookup_delete_eq. split; [done|]. intros (f & Hfs & Hkf).
      destruct (decide (i = j)) as [->|]; [by rewrite lookup_delete_eq in Hfs|].
      rewrite lookup_delete_ne in Hfs by done.
      pose proof (index_key_inj _ _ _ _ _ _ _ _ Hix Hfs He Hkf). congruence.
    + rewrite lookup_delete_ne by done. rewrite Hi.
      destruct (decide (i = j)) as [->|]; [rewrite lookup_delete_eq|rewrite lookup_delete_ne by done];
        naive_solver congruence.
  - intros j. unfold remove_id. rewrite list_elem_of_filter. naive_solver.
Qed.

Lemma index_touch ll store items fresh i e :
  index_ok ll store items fresh → store !! i = Some e →
  index_ok (move_to_front i ll) store items fresh.
Proof.
  intros [Hnd Hs Hi Hf] He. assert (i ∈ ll) as Hin by (apply Hs; eauto). split; try done.
  - unfold move_to_front, remove_id. constructor; [|by apply NoDup_filter].
    rewrite list_elem_of_filter. tauto.
  - intros j. unfold move_to_front, remove_id. rewrite elem_of_cons, list_elem_of_filter, <-Hs.
    destruct (decide (j = i)); naive_solver.
  - intros j. unfold move_to_front, remove_id. rewrite elem_of_cons, list_elem_of_filter.
    naive_solver.
Qed.

Lemma index_update ll store items fresh i e e' :
  index_ok ll store items fresh → store !! i = Some e → key e' = key e →
  index_ok ll (<[i := e']> store) items fresh.
Proof.
  intros [Hnd Hs Hi Hf] He Hk. split; try done.
  - intros j. rewrite Hs. destruct (decide (i = j)) as [->|]; [|by rewrite lookup_insert_ne].
    rewrite lookup_insert_eq, He. split; eauto.
  - intros k j. rewrite Hi. destruct (decide (i = j)) as [->|]; [|by rewrite lookup_insert_ne].
    rewrite lookup_insert_eq. naive_solver congruence.
Qed.

Lemma index_push ll store items fresh k e :
  index_ok ll store items fresh → items !! k = None → key e = k →
  index_ok (fresh :: ll) (<[fresh := e]> store) (<[k := fresh]> items) (S fresh) ∧
  entries (fresh :: ll) (<[fresh := e]> store) = e :: entries ll store.
Proof.
  intros [Hnd Hs Hi Hf] Hk <-.
  assert (fresh ∉ ll) as Hfr by (intros Hin%Hf; lia).
  assert (store !! fresh = None) as Hno by (apply eq_None_not_Some; by rewrite <-Hs).
  split; [split|].
  - by constructor.
  - intros j. rewrite elem_of_cons. destruct (decide (fresh = j)) as [->|].
    + rewrite lookup_insert_eq. naive_solver.
    + rewrite lookup_insert_ne, <-Hs by done. naive_solver.
  - intros k' j. destruct (decide (key e = k')) as [<-|Hne].
    + rewrite lookup_insert_eq. split.
      * intros [= <-]. exists e. by rewrite lookup_insert_eq.
      * intros (f & Hfs & Hkf). destruct (decide (fresh = j)) as [->|]; [done|].
        rewrite lookup_insert_ne in Hfs by done. exfalso.
        assert (items !! key e = Some j) by (apply Hi; eauto). congruence.
    + rewrite lookup_insert_ne by done. rewrite Hi. destruct (decide (fresh = j)) as [->|].
      * rewrite lookup_insert_eq. naive_solver congruence.
      * by rewrite lookup_insert_ne.
  - intros j [->|Hj%Hf]%elem_of_cons; lia.
  - unfold entries. cbn. rewrite lookup_insert_eq. f_equal. apply entries_ext.
    intros j Hj. apply lookup_insert_ne. by intros ->.
Qed.

End Index.

#[local] Arguments move_to_front : simpl never.
#[local] Arguments remove_id : simpl never.

Lemma remove_id_last (l : list nat) (b : nat) : NoDup (l ++ [b]) → remove_id b (l ++ [b]) = l.
Proof.
  intros (Hl & Hb & _)%NoDup_app. unfold remove_id. rewrite filter_app, filter_cons_False by tauto.
  cbn. rewrite app_nil_r. clear Hl. induction l as [|j l IH]; [done|].
  rewrite filter_cons_True; [rewrite IH; [done|]|].
  - intros k Hk. apply Hb. by right.
  - intros ->. apply (Hb b); [by left|by left].
Qed.

(** ** The count-bounded cache *)

Section Cache.
  Context {K V : Type} `{Countable K}.

Definition expired (t now : Z) (e : entry K V) : bool :=
  bool_decide (0 < t)%Z && bool_decide (expiresAt e < now)%Z.

Definition expiry (t now old : Z) : Z := if bool_decide (0 < t)%Z then (now + t)%Z else old.

(** The specification: a list of entries, the most recently used first. *)
Definition spec_get (t now : Z) (k : K) (l : list (entry K V)) : option V * list (entry K V) :=
  match lookup_key key k l with
  | None => (None, l)
  | Some e =>
      if expired t now e then (None, without key k l) else (Some (val e), e :: without key k l)
  end.

Definition spec_set (cap : nat) (t now : Z) (k : K) (v : V) (l : list (entry K V))
  : list (entry K V) :=
  match lookup_key key k l with
  | Some e => MkEntry k v (expiry t now (expiresAt e)) :: without key k l
  | None => take cap (MkEntry k v (expiry t now 0) :: l)
  end.

Definition cache_inv (c : Cache K V) : Prop :=
  index_ok key (ll c) (store c) (items c) (fresh_id c) ∧ 0 < capacity c ∧
  length (ll c) ≤ capacity c.

Definition abs (c : Cache K V) : list (entry K V) := entries (ll c) (store c).

Lemma remove_id_length (i : nat) (l : list nat) : length (remove_id i l) ≤ length l.
Proof. apply length_filter. Qed.

Lemma removeElement_refines (c : Cache K V) (i : nat) (e : entry K V) :
  index_ok key (ll c) (store c) (items c) (fresh_id c) → store c !! i = Some e →
  let c' := removeElement i c in
  index_ok key (ll c') (store c') (items c') (fresh_id c') ∧ abs c' = without key (key e) (abs c) ∧
  capacity c' = capacity c ∧ ttl c' = ttl c ∧ ll c' = remove_id i (ll c).
Proof.
  intros Hix He. unfold removeElement. rewrite He. cbn. split_and!; try done.
  - by apply index_remove.
  - unfold abs. cbn. rewrite <-(entries_remove key _ _ _ _ _ _ Hix He). apply entries_ext.
    intros j Hj. unfold remove_id in Hj. apply list_elem_of_filter in Hj as [? _].
    by apply lookup_delete_ne.
Qed.

Lemma key_of_item (c : Cache K V) (k : K) (i : nat) :
  index_ok key (ll c) (store c) (items c) (fresh_id c) → items c !! k = Some i →
  ∃ e, store c !! i = Some e ∧ key e = k ∧ lookup_key key k (abs c) = Some e.
Proof.
  intros Hix Hi. pose proof (proj1 (ix_items _ _ _ _ _ Hix k i) Hi) as (e & He & Hk).
  exists e. split_and!; [done..|]. by eapply lookup_key_Some.
Qed.

Lemma move_to_front_length (c : Cache K V) (i : nat) (e : entry K V) :
  index_ok key (ll c) (store c) (items c) (fresh_id c) → store c !! i = Some e →
  length (move_to_front i (ll c)) = length (ll c).
Proof.
  intros Hix He. pose proof (index_touch key _ _ _ _ _ _ Hix He) as Hix'.
  apply Permutation_length, NoDup_Permutation; [apply Hix'|apply Hix|].
  intros j. by rewrite (ix_store _ _ _ _ _ Hix'), (ix_store _ _ _ _ _ Hix).
Qed.

Lemma Get_refines (c : Cache K V) (now : Z) (k : K) :
  cache_inv c →
  let '(o, c') := Get now k c in
  cache_inv c' ∧ (o, abs c') = spec_get (ttl c) now k (abs c) ∧
  capacity c' = capacity c ∧ ttl c' = ttl c.
Proof.
  intros (Hix & Hcap & Hlen). unfold Get, spec_get.
  destruct (items c !! k) as [i|] eqn:Hi.
  - destruct (key_of_item c k i Hix Hi) as (e & He & Hk & ->). rewrite He. unfold expired.
    destruct (bool_decide _ && _).
    + destruct (removeElement_refines c i e Hix He) as (Hix' & Ha & Hc & Ht & Hl).
      split_and!; [split_and!|by rewrite <-Hk, <-Ha|exact Hc|exact Ht];
        cbn [with_stats ll store items fresh_id capacity]; [exact Hix'|by rewrite Hc|].
      rewrite Hl, Hc. pose proof (remove_id_length i (ll c)). lia.
    + split_and!; cbn; [split_and!; cbn; [by eapply index_touch|done|]| |done..].
      * by rewrite (move_to_front_length c i e).
      * unfold abs. cbn. unfold move_to_front, entries. cbn. rewrite He. f_equal. f_equal.
        rewrite <-Hk. by apply (entries_remove key _ _ _ _ _ _ Hix).
  - assert (lookup_key key k (abs c) = None) as -> by (by eapply lookup_key_None). by split_and!.
Qed.

Lemma Delete_refines (c : Cache K V) (k : K) :
  cache_inv c →
  let c' := Delete k c in
  cache_inv c' ∧ abs c' = without key k (abs c) ∧ capacity c' = capacity c ∧ ttl c' = ttl c.
Proof.
  intros (Hix & Hcap & Hlen). unfold Delete. destruct (items c !! k) as [i|] eqn:Hi.
  - destruct (key_of_item c k i Hix Hi) as (e & He & Hk & _).
    destruct (removeElement_refines c i e Hix He) as (Hix' & Ha & Hc & Ht & Hl).
    cbn. rewrite <-Hk. split_and!; [split_and!; [done|by rewrite Hc|rewrite Hl, Hc]|done..].
    pose proof (remove_id_length i (ll c)). lia.
  - cbn. rewrite without_absent by (by eapply lookup_key_None). by split_and!.
Qed.

(** Dropping the entry of the back element keeps the entries before it. *)
Lemma without_last (c : Cache K V) (b : nat) (eb : entry K V) (l : list nat) :
  index_ok key (ll c) (store c) (items c) (fresh_id c) → store c !! b = Some eb →
  ll c = l ++ [b] → without key (key eb) (abs c) = take (length l) (abs c).
Proof.
  intros Hix Heb El. pose proof (entries_length key _ _ _ _ Hix) as Hlen.
  unfold abs. rewrite <-(entries_remove key _ _ _ _ _ _ Hix Heb).
  pose proof (ix_nodup _ _ _ _ _ Hix) as Hnd. rewrite El in *.
  rewrite remove_id_last by done. unfold entries in *. rewrite omap_app in *. cbn in *.
  rewrite Heb in *. rewrite !length_app in Hlen. cbn in Hlen.
  rewrite take_app_le, take_ge by lia. done.
Qed.

Lemma Set_refines (c : Cache K V) (now : Z) (k : K) (v : V) :
  cache_inv c →
  let c' := Set_ now k v c in
  cache_inv c' ∧ abs c' = spec_set (capacity c) (ttl c) now k v (abs c) ∧
  capacity c' = capacity c ∧ ttl c' = ttl c.
Proof.
  intros (Hix & Hcap & Hlen). unfold Set_, spec_set. cbv zeta.
  destruct (items c !! k) as [i|] eqn:Hi.
  - destruct (key_of_item c k i Hix Hi) as (e & He & Hk & ->). rewrite He, Hk.
    fold (expiry (ttl c) now (expiresAt e)). set (e' := MkEntry k v _).
    pose proof (index_update key _ _ _ _ _ _ e' Hix He ltac:(done)) as Hix'.
    split_and!; [split_and!; cbn; [|done|]| |done..].
    + eapply index_touch; [done|]. by rewrite lookup_insert_eq.
    + by rewrite (move_to_front_length c i e).
    + unfold abs. cbn. unfold move_to_front, entries. cbn. rewrite lookup_insert_eq. f_equal.
      rewrite <-Hk.
      transitivity (entries (remove_id i (ll c)) (store c)); [|by eapply entries_remove].
      apply entries_ext. intros j Hj.
      unfold remove_id in Hj. apply list_elem_of_filter in Hj as [? _]. by apply lookup_insert_ne.
  - assert (lookup_key key k (abs c) = None) as -> by (by eapply lookup_key_None).
    fold (expiry (ttl c) now 0).
    set (e := MkEntry k v _).
    destruct (index_push key _ _ _ _ _ e Hix Hi eq_refl) as [Hix' Ha].
    set (c1 := MkCache _ _ (_ :: _) _ _ _ _).
    assert (abs c1 = e :: abs c) as Ha1 by exact Ha.
    pose proof (entries_length key _ _ _ _ Hix) as Hl. fold (abs c) in Hl.
    case_bool_decide as Hfull; cbn in Hfull.
    + destruct (last (ll c1)) as [b|] eqn:Eb; [|by apply last_None in Eb].
      assert (b ∈ ll c1) as Hb by by apply last_Some_elem_of.
      destruct (proj1 (ix_store _ _ _ _ _ Hix' b) Hb) as [eb Heb].
      destruct (removeElement_refines c1 b eb Hix' Heb) as (Hix2 & Ha2 & Hc2 & Ht2 & Hl2).
      apply last_Some in Eb as [l Eb]. pose proof (ix_nodup _ _ _ _ _ Hix') as Hnd.
      change (fresh_id c :: ll c) with (ll c1) in Hnd. rewrite Eb in Hnd, Hl2.
      rewrite remove_id_last in Hl2 by done.
      assert (length l = capacity c) as Hlen'.
      { apply (f_equal length) in Eb. rewrite length_app in Eb. cbn in Eb. lia. }
      split_and!; [split_and!| |exact Hc2|exact Ht2].
      * exact Hix2.
      * change (capacity (with_stats _ _)) with (capacity (removeElement b c1)). by rewrite Hc2.
      * change (length (ll (removeElement b c1)) ≤ capacity (removeElement b c1)).
        rewrite Hl2, Hc2. cbn. lia.
      * change (abs (removeElement b c1) = take (capacity c) (e :: abs c)).
        rewrite <-Ha1, Ha2, <-Hlen'. by apply (without_last c1 b eb l).
    + split_and!; [split_and!; cbn; [done|done|lia]| |done..].
      rewrite Ha1, take_ge; [done|cbn; lia].
Qed.

(** A sequence of calls, with the clock each reads. *)
Inductive op := OGet (now : Z) (k : K) | OSet (now : Z) (k : K) (v : V) | ODelete (k : K).

Definition step (c : Cache K V) (o : op) : option V * Cache K V :=
  match o with
  | OGet now k => Get now k c
  | OSet now k v => (None, Set_ now k v c)
  | ODelete k => (None, Delete k c)
  end.

Definition spec_step (cap : nat) (t : Z) (l : list (entry K V)) (o : op)
  : option V * list (entry K V) :=
  match o with
  | OGet now k => spec_get t now k l
  | OSet now k v => (None, spec_set cap t now k v l)
  | ODelete k => (None, without key k l)
  end.

Definition run (c : Cache K V) (ops : list op) : list (option V) * Cache K V :=
  foldl (fun '(outs, c) o => let '(r, c) := step c o in (outs ++ [r], c)) ([], c) ops.

Definition spec_run (cap : nat) (t : Z) (ops : list op) : list (option V) * list (entry K V) :=
  foldl (fun '(outs, l) o => let '(r, l) := spec_step cap t l o in (outs ++ [r], l)) ([], []) ops.

Lemma step_refines (c : Cache K V) (o : op) :
  cache_inv c →
  let '(r, c') := step c o in
  cache_inv c' ∧ (r, abs c') = spec_step (capacity c) (ttl c) (abs c) o ∧
  capacity c' = capacity c ∧ ttl c' = ttl c.
Proof.
  intros Hc. destruct o as [now k|now k v|k]; cbn [step spec_step].
  - by apply Get_refines.
  - destruct (Set_refines c now k v Hc) as (? & -> & ? & ?). done.
  - destruct (Delete_refines c k Hc) as (? & -> & ? & ?). done.
Qed.

(** C38: The cache refines its specification: from an empty cache, every sequence
    of [Get], [Set] and [Delete] calls returns the values, and leaves the entries,
    that a plain list kept in recency order does: a hit moves to the front, an
    expired entry is dropped and missed, a replaced key keeps one entry, and an
    insertion over the capacity drops exactly the least recently used one.  The
    element list, the entries and the key index stay consistent, and [Len] is at
    most the capacity. *)
Theorem Cache_refines (capz : Z) (t : Z) (c0 : Cache K V) (ops : list op) :
  NewWithTTL capz t = Some c0 →
  let '(outs, c) := run c0 ops in
  (outs, abs c) = spec_run (Z.to_nat capz) t ops ∧
  index_ok key (ll c) (store c) (items c) (fresh_id c) ∧
  Len c = length (abs c) ∧ Len c ≤ Z.to_nat capz.
Proof.
  unfold NewWithTTL, New. case_bool_decide as Hcap; [done|]. cbn [option_map]. intros [= <-].
  set (cap := Z.to_nat capz). assert (0 < cap) by (unfold cap; lia).
  assert (∀ outs0 c, cache_inv c → capacity c = cap → ttl c = t → ∀ ops,
    let '(outs, c') := foldl (fun '(outs, c) o => let '(r, c) := step c o in (outs ++ [r], c))
                         (outs0, c) ops in
    cache_inv c' ∧ capacity c' = cap ∧ (outs, abs c') =
      foldl (fun '(outs, l) o => let '(r, l) := spec_step cap t l o in (outs ++ [r], l))
        (outs0, abs c) ops) as Hrun.
  { clear ops. intros outs0 c Hc Hcc Htc ops. revert outs0 c Hc Hcc Htc.
    induction ops as [|o ops IH]; intros outs0 c Hc Hcc Htc; [by cbn|]. cbn [foldl].
    pose proof (step_refines c o Hc) as Hs. destruct (step c o) as [r c'].
    destruct Hs as (Hc' & Hr & Hcap' & Ht'). rewrite <-Hcc, <-Htc, <-Hr.
    pose proof (IH (outs0 ++ [r]) c' Hc' ltac:(congruence) ltac:(congruence)) as IH'.
    by rewrite Hcc, Htc. }
  specialize (Hrun [] (MkCache cap t [] ∅ ∅ 0 (MkStats 0 0 0))). unfold run, spec_run.
  assert (cache_inv (MkCache (K := K) (V := V) cap t [] ∅ ∅ 0 (MkStats 0 0 0))) as Hinit.
  { split_and!; cbn; [|lia..]. split; [constructor|..].
    - intros i. rewrite lookup_empty. split; [by intros ?%elem_of_nil|by intros []].
    - intros k i. rewrite lookup_empty. split; [done|]. intros (e & He & _).
      by rewrite lookup_empty in He.
    - by intros i ?%elem_of_nil. }
  specialize (Hrun Hinit eq_refl eq_refl ops). destruct (foldl _ ([], _) ops) as [outs c].
  destruct Hrun as ((Hix & _ & Hlen) & Hcc & Heq). split_and!; [exact Heq|done| |].
  - symmetry. by eapply entries_length.
  - unfold Len. by rewrite <-Hcc.
Qed.

End Cache.

Lemma Cache_refines_witness :
  let ops := [OSet 0 "a" 1; OSet 0 "b" 2; OGet 1 "a"; OSet 2 "c" 3; OGet 3 "b"; OGet 9 "a"]%Z in
  match NewWithTTL 2 5 with
  | Some c0 => (run (K := string) (V := Z) c0 ops).1 = (spec_run 2 5 ops).1 ∧
      (spec_run 2 5 ops).1 = [None; None; Some 1%Z; None; None; None]
  | None => False
  end.
Proof.
  intros ops. cbn [NewWithTTL]. destruct (NewWithTTL (K := string) (V := Z) 2 5) as [c0|] eqn:E;
    [|discriminate E].
  split; [|reflexivity]. pose proof (Cache_refines 2 5 c0 ops E) as Hr.
  destruct (run c0 ops) as [outs c]. destruct Hr as [Hr _].
  change (Z.to_nat 2) with 2 in Hr. by rewrite <-Hr.
Defined.

(** ** The byte-bounded cache *)

Section Sized.
  Context {K V : Type} `{Countable K} (size : V → Z).

Definition total (l : list (sizedEntry K V)) : Z := foldr (fun e n => (size_ e + n)%Z) 0%Z l.

#[local] Arguments total : simpl never.

Lemma total_cons e l : total (e :: l) = (size_ e + total l)%Z.
Proof. reflexivity. Qed.

Definition sabs (c : SizedCache K V) : list (sizedEntry K V) := entries (sll c) (sstore c).

(** The byte count is the sum of the sizes of the live entries. *)
Definition sized_inv (c : SizedCache K V) : Prop :=
  index_ok skey (sll c) (sstore c) (sitems c) (sfresh c) ∧ cur c = total (sabs c) ∧
  ∀ i e, sstore c !! i = Some e → (0 ≤ size_ e)%Z.

Lemma total_nonneg (ll : list nat) (store : gmap nat (sizedEntry K V)) :
  (∀ i e, store !! i = Some e → (0 ≤ size_ e)%Z) → (0 ≤ total (entries ll store))%Z.
Proof.
  intros Hs. unfold entries. induction ll as [|i ll IH]; cbn; [done|].
  destruct (store !! i) as [e|] eqn:E; [|done]. rewrite total_cons. specialize (Hs i e E). lia.
Qed.

Lemma total_remove (ll : list nat) (store : gmap nat (sizedEntry K V)) (i : nat) e :
  NoDup ll → i ∈ ll → store !! i = Some e →
  total (entries ll store) = (size_ e + total (entries (remove_id i ll) store))%Z.
Proof.
  intros Hnd Hin He. unfold entries, remove_id. induction Hnd as [|j ll Hj Hnd IH];
    [by apply elem_of_nil in Hin|].
  destruct (decide (j = i)) as [->|Hji].
  - rewrite filter_cons_False by tauto. cbn. rewrite He, total_cons.
    enough (filter (fun k => k ≠ i) ll = ll) as -> by done. clear -Hj.
    induction ll as [|k ll IH]; [done|]. rewrite filter_cons_True by set_solver.
    rewrite IH by set_solver. done.
  - rewrite filter_cons_True by done. cbn. apply elem_of_cons in Hin as [->|Hin]; [done|].
    destruct (store !! j) as [f|]; [|by apply IH]. rewrite !total_cons, IH by done. lia.
Qed.

Lemma sremove_inv (c : SizedCache K V) (i : nat) (e : sizedEntry K V) :
  sized_inv c → sstore c !! i = Some e →
  let c' := sremoveElement i c in
  sized_inv c' ∧ sll c' = remove_id i (sll c) ∧ maxBytes c' = maxBytes c ∧
  sabs c' = entries (remove_id i (sll c)) (sstore c).
Proof.
  intros (Hix & Hcur & Hnn) He. unfold sremoveElement. rewrite He. cbn.
  assert (sabs (MkSizedCache (maxBytes c) (cur c - size_ e) (remove_id i (sll c))
    (delete i (sstore c)) (delete (skey e) (sitems c)) (sfresh c) (sstats c)) =
    entries (remove_id i (sll c)) (sstore c)) as Ha.
  { apply entries_ext. intros j Hj. unfold remove_id in Hj.
    apply list_elem_of_filter in Hj as [? _]. by apply lookup_delete_ne. }
  split_and!; [split_and!|done..].
  - by apply index_remove.
  - rewrite Ha. cbn. rewrite Hcur. unfold sabs.
    rewrite (total_remove (sll c) (sstore c) i e); [lia|apply Hix| |done].
    apply (ix_store _ _ _ _ _ Hix). eauto.
  - cbn. intros j f Hf. apply lookup_delete_Some in Hf as [_ Hf]. eauto.
Qed.

(** The eviction loop drops entries from the back only, and stops within the
    budget or with one entry. *)
Lemma evict_loop_spec (n : nat) (c : SizedCache K V) :
  sized_inv c → length (sll c) ≤ n →
  let c' := evict_loop n c in
  sized_inv c' ∧ maxBytes c' = maxBytes c ∧ ((cur c' ≤ maxBytes c)%Z ∨ length (sll c') ≤ 1) ∧
  ∃ m, sll c' = take m (sll c) ∧ (0 < length (sll c) → 0 < m) ∧ sstore c' ⊆ sstore c.
Proof.
  revert c. induction n as [|n IH]; intros c Hc Hn; cbn [evict_loop].
  - split_and!; [done..|right; lia|]. exists 1.
    destruct (sll c) as [|? ?]; [|cbn in Hn; lia]. by split_and!; [|lia|].
  - destruct (bool_decide _ && bool_decide _) eqn:Eg.
    + bools. destruct (last (sll c)) as [b|] eqn:Eb.
      2: { apply last_None in Eb. rewrite Eb in *. cbn in *. lia. }
      assert (b ∈ sll c) as Hb by by apply last_Some_elem_of.
      destruct (proj1 (ix_store _ _ _ _ _ (proj1 Hc) b) Hb) as [e He].
      destruct (sremove_inv c b e Hc He) as (Hc' & Hl & Hm & _).
      apply last_Some in Eb as [l El]. pose proof (ix_nodup _ _ _ _ _ (proj1 Hc)) as Hnd.
      rewrite El in Hl, Hnd. rewrite remove_id_last in Hl by done.
      specialize (IH (swith_stats (evicted (sstats (sremoveElement b c))) (sremoveElement b c))).
      cbn in IH. destruct IH as (I1 & I2 & I3 & m & I4 & I5 & I6).
      * exact Hc'.
      * rewrite Hl. rewrite El, length_app in Hn. cbn in Hn. lia.
      * split_and!; [done|by rewrite I2|by rewrite <-Hm|].
        rewrite El, length_app in H1. cbn in H1. rewrite Hl in *.
        exists (m `min` length l). rewrite I4, El. split_and!.
        -- rewrite take_app_le by lia. rewrite <-take_take, (take_ge l (length l)) by lia. done.
        -- intros _. specialize (I5 ltac:(lia)). lia.
        -- etrans; [exact I6|]. unfold sremoveElement. rewrite He. apply delete_subseteq.
    + apply andb_false_iff in Eg. rewrite !bool_decide_eq_false in Eg.
      split_and!; [done..|destruct Eg; [left|right]; lia|]. exists (length (sll c)).
      rewrite take_ge by done. done.
Qed.

(** [SSet] before the eviction loop. *)
Lemma SSet_inv (c : SizedCache K V) (k : K) (v : V) :
  (∀ v, 0 ≤ size v)%Z → sized_inv c →
  ∃ c1 i, SSet size k v c = evict_loop (length (sll c1)) c1 ∧ sized_inv c1 ∧
    maxBytes c1 = maxBytes c ∧ head (sll c1) = Some i ∧ sstore c1 !! i = Some (MkSized k v (size v)).
Proof.
  intros Hsize (Hix & Hcur & Hnn). unfold SSet. cbv zeta.
  destruct (sitems c !! k) as [i|] eqn:Hi.
  - pose proof (proj1 (ix_items _ _ _ _ _ Hix k i) Hi) as (e & He & Hk). rewrite He, Hk.
    set (e' := MkSized k v (size v)). eexists _, i. split; [done|].
    pose proof (index_update skey _ _ _ _ _ _ e' Hix He ltac:(done)) as Hix'.
    assert (index_ok skey (move_to_front i (sll c)) (<[i := e']> (sstore c)) (sitems c) (sfresh c))
      as Hix2 by (eapply index_touch; [done|by rewrite lookup_insert_eq]).
    split_and!; [split_and!; [exact Hix2| |]|done|done|cbn; by rewrite lookup_insert_eq].
    + cbn. unfold sabs. cbn. unfold move_to_front, entries. cbn. rewrite lookup_insert_eq, total_cons. cbn.
      rewrite Hcur. unfold sabs. rewrite (total_remove (sll c) (sstore c) i e);
        [|apply Hix|apply (ix_store _ _ _ _ _ Hix); eauto|done].
      assert (entries (remove_id i (sll c)) (<[i := e']> (sstore c)) =
              entries (remove_id i (sll c)) (sstore c)) as Hext.
      { apply entries_ext. intros j Hj. unfold remove_id in Hj.
        apply list_elem_of_filter in Hj as [? _]. by apply lookup_insert_ne. }
      unfold entries in Hext. rewrite Hext. unfold entries. lia.
    + cbn. intros j f Hf. apply lookup_insert_Some in Hf as [[_ <-]|[_ Hf]]; [apply Hsize|eauto].
  - set (e' := MkSized k v (size v)). eexists _, (sfresh c). split; [done|].
    destruct (index_push skey _ _ _ _ _ e' Hix Hi eq_refl) as [Hix' Ha].
    split_and!; [split_and!; [exact Hix'| |]|done|done|cbn; by rewrite lookup_insert_eq].
    + unfold sabs. cbn [sll sstore cur]. rewrite Ha, Hcur, total_cons. cbn [size_]. unfold sabs, e'.
      cbn [size_]. lia.
    + cbn. intros j f Hf. apply lookup_insert_Some in Hf as [[_ <-]|[_ Hf]]; [apply Hsize|eauto].
Qed.

Inductive sop := SOGet (k : K) | SOSet (k : K) (v : V) | SODelete (k : K).

Definition sstep (c : SizedCache K V) (o : sop) : SizedCache K V :=
  match o with
  | SOGet k => (SGet k c).2
  | SOSet k v => SSet size k v c
  | SODelete k => SDelete k c
  end.

(** Within the budget, or a single entry. *)
Definition bounded (c : SizedCache K V) : Prop := (cur c ≤ maxBytes c)%Z ∨ length (sll c) ≤ 1.

Lemma sstep_inv (c : SizedCache K V) (o : sop) :
  (∀ v, 0 ≤ size v)%Z → sized_inv c → bounded c →
  sized_inv (sstep c o) ∧ bounded (sstep c o) ∧ maxBytes (sstep c o) = maxBytes c.
Proof.
  intros Hsize Hc Hb. pose proof Hc as (Hix & Hcur & Hnn). destruct o as [k|k v|k]; cbn [sstep].
  - unfold SGet. destruct (sitems c !! k) as [i|] eqn:Hi; [|done].
    pose proof (proj1 (ix_items _ _ _ _ _ Hix k i) Hi) as (e & He & _). rewrite He. cbn [snd].
    assert (i ∈ sll c) as Hin by (apply (ix_store _ _ _ _ _ Hix); eauto).
    assert (Permutation (move_to_front i (sll c)) (sll c)) as Hp.
    { pose proof (index_touch skey _ _ _ _ _ _ Hix He) as Hix'.
      apply NoDup_Permutation; [apply Hix'|apply Hix|]. intros j.
      by rewrite (ix_store _ _ _ _ _ Hix'), (ix_store _ _ _ _ _ Hix). }
    split_and!; [split_and!; [by eapply index_touch| |exact Hnn]| |done].
    + cbn [cur swith_stats stouch]. rewrite Hcur. unfold sabs. cbn [sll sstore swith_stats stouch].
      rewrite (total_remove (sll c) (sstore c) i e) by (done || apply Hix).
      unfold move_to_front, entries. cbn [omap list_omap]. by rewrite He, total_cons.
    + destruct Hb as [Hb|Hb]; [by left|right]. cbn. by rewrite Hp.
  - destruct (SSet_inv c k v Hsize Hc) as (c1 & i & -> & Hc1 & Hm & _).
    destruct (evict_loop_spec (length (sll c1)) c1 Hc1 ltac:(done)) as (H1 & H2 & H3 & _).
    split_and!; [done| |congruence]. unfold bounded. by rewrite H2.
  - unfold SDelete. destruct (sitems c !! k) as [i|] eqn:Hi; [|done].
    pose proof (proj1 (ix_items _ _ _ _ _ Hix k i) Hi) as (e & He & _).
    destruct (sremove_inv c i e Hc He) as (Hc' & Hl & Hm & Ha). split_and!; [done| |done].
    unfold bounded. rewrite Hm, Hl. destruct Hb as [Hb|Hb].
    + left. unfold sremoveElement. rewrite He. cbn. specialize (Hnn i e He). lia.
    + right. pose proof (remove_id_length i (sll c)). lia.
Qed.

(** Setting an entry over the budget leaves it alone in the cache. *)
Lemma SSet_oversize (c : SizedCache K V) (k : K) (v : V) :
  (∀ v, 0 ≤ size v)%Z → sized_inv c → (maxBytes c < size v)%Z →
  cur (SSet size k v c) = size v.
Proof.
  intros Hsize Hc Hv. destruct (SSet_inv c k v Hsize Hc) as (c1 & i & -> & Hc1 & Hm & Hh & Hi).
  destruct (evict_loop_spec (length (sll c1)) c1 Hc1 ltac:(done))
    as ((Hix & Hcur & Hnn) & H2 & H3 & m & H4 & H5 & H6).
  set (c2 := evict_loop (length (sll c1)) c1) in *.
  destruct (sll c1) as [|j l] eqn:El; [done|]. injection Hh as ->.
  destruct m as [|m]; [specialize (H5 ltac:(cbn; lia)); lia|]. cbn [take] in H4.
  assert (sstore c2 !! i = Some (MkSized k v (size v))) as Hi2.
  { destruct (proj1 (ix_store _ _ _ _ _ Hix i)) as [e He]; [rewrite H4; by left|].
    pose proof (lookup_weaken _ _ _ _ He H6). congruence. }
  rewrite Hcur. unfold sabs. rewrite H4. unfold entries. cbn [omap list_omap]. rewrite Hi2.
  rewrite total_cons. cbn [size_].
  pose proof (total_nonneg (take m l) (sstore c2) Hnn) as Hpos. unfold entries in Hpos.
  rewrite H4 in H3. destruct (take m l) as [|j' l'] eqn:Et; [cbn; unfold total; cbn; lia|].
  exfalso. destruct H3 as [H3|H3]; [|cbn in H3; lia].
  rewrite Hcur in H3. unfold sabs in H3. rewrite H4 in H3. unfold entries in H3.
  cbn [omap list_omap] in H3. rewrite Hi2, total_cons in H3. cbn [size_] in H3.
  cbn [omap list_omap] in Hpos. lia.
Qed.

(** The byte-bounded cache: after any sequence of calls the byte count is
    the sum of the sizes of the live entries, and it is within the budget unless a
    single entry is left.  An entry larger than the budget is not turned away: a
    [Set] of one evicts everything else and keeps it, so the count exceeds the
    budget. *)
Theorem SizedCache_bounded (max : Z) (c0 : SizedCache K V) (ops : list sop) :
  (∀ v, 0 ≤ size v)%Z → NewSized max = Some c0 →
  let c := foldl sstep c0 ops in
  Bytes c = total (sabs c) ∧ ((Bytes c ≤ max)%Z ∨ length (sabs c) = 1) ∧
  ∀ k v, (max < size v)%Z → Bytes (SSet size k v c) = size v ∧ (max < Bytes (SSet size k v c))%Z.
Proof.
  intros Hsize. unfold NewSized. case_bool_decide as Hmax; [done|]. intros [= <-].
  set (c0 := MkSizedCache max 0 [] ∅ ∅ 0 (MkStats 0 0 0)).
  assert (∀ ops c, sized_inv c → bounded c → maxBytes c = max →
    let c' := foldl sstep c ops in sized_inv c' ∧ bounded c' ∧ maxBytes c' = max) as Hrun.
  { clear ops. intros ops. induction ops as [|o ops IH]; intros c Hc Hb Hm; [done|]. cbn [foldl].
    destruct (sstep_inv c o Hsize Hc Hb) as (? & ? & ?). apply IH; [done..|congruence]. }
  assert (sized_inv c0) as Hinit.
  { split_and!; cbn; [|done|intros i e He; by rewrite lookup_empty in He]. split; [constructor|..].
    - intros i. rewrite lookup_empty. split; [by intros ?%elem_of_nil|by intros []].
    - intros k i. rewrite lookup_empty. split; [done|]. intros (e & He & _).
      by rewrite lookup_empty in He.
    - by intros i ?%elem_of_nil. }
  destruct (Hrun ops c0 Hinit ltac:(left; cbn; lia) eq_refl) as (Hc & Hb & Hm).
  cbv zeta. generalize dependent (foldl sstep c0 ops). intros c Hc Hb Hm.
  pose proof Hc as (Hix & Hcur & Hnn). unfold Bytes. split_and!; [done| |].
  - pose proof (entries_length skey _ _ _ _ Hix) as Hl. fold (sabs c) in Hl.
    destruct Hb as [Hb|Hb]; [left; lia|]. destruct (sabs c) as [|e [|? ?]] eqn:Ea; [left| |].
    + rewrite Hcur. unfold total. cbn. lia.
    + by right.
    + cbn in Hl. lia.
  - intros k v Hv. enough (cur (SSet size k v c) = size v) by lia.
    apply (SSet_oversize c k v Hsize Hc). by rewrite Hm.
Qed.

End Sized.

Lemma SizedCache_bounded_witness :
  let size (v : string) := Z.of_nat (String.length v) in
  match NewSized 5 with
  | Some c0 =>
      let c := foldl (sstep size) c0 [SOSet "a" "xxx"; SOSet "b" "yyy"; SOGet "a"] in
      Bytes (K := string) c = 3%Z ∧ Bytes (SSet size "c" "too long" c) = 8%Z
  | None => False
  end.
Proof.
  intros size. destruct (NewSized (K := string) (V := string) 5) as [c0|] eqn:E; [|discriminate E].
  assert (∀ v, 0 ≤ size v)%Z as Hs by (intros v; unfold size; lia).
  destruct (SizedCache_bounded size 5 c0 [SOSet "a" "xxx"; SOSet "b" "yyy"; SOGet "a"] Hs E)
    as (_ & _ & Hover).
  split; [injection E as <-; vm_compute; reflexivity|].
  apply (Hover "c" "too long"). vm_compute. reflexivity.
Defined.
