(* ===== verification/Codeowners.v ===== *)
(** * Codeowners: parsing and matching CODEOWNERS files

    internal/repos/codeowners/codeowners.go.  A pattern is compiled to a regular
    expression; the model keeps the parts compilePattern concatenates, can print the
    text it hands to [regexp.Compile] ([regexp_source]) and runs the parts with the
    semantics of package regexp: an unanchored search over the runes of the path, no
    flags.  [regexp.Compile] accepts every such text, so its error branch is never
    taken.  [strings.ToLower] is a parameter (its tables go beyond ASCII), and so
    are the two git calls of Load. *)

From S2P Require Import Prelude GoString.
Local Open Scope nat_scope.

(** ** The standard library calls *)

(** [utf8.AppendRune]. *)
Definition EncodeRune (r : Z) : string :=
  let b (n : Z) : ascii := ascii_of_N (Z.to_N n) in
  if bool_decide (0 ≤ r < 128)%Z then String (b r) ""
  else if bool_decide (128 ≤ r < 2048)%Z then
    String (b (192 + r / 64)%Z) (String (b (128 + r mod 64)%Z) "")
  else if bool_decide (r < 0)%Z || bool_decide (1114111 < r)%Z || between 55296 r 57343 then
    String (b 239%Z) (String (b 191%Z) (String (b 189%Z) ""))
  else if bool_decide (r < 65536)%Z then
    String (b (224 + r / 4096)%Z)
      (String (b (128 + r / 64 mod 64)%Z) (String (b (128 + r mod 64)%Z) ""))
  else
    String (b (240 + r / 262144)%Z)
      (String (b (128 + r / 4096 mod 64)%Z)
         (String (b (128 + r / 64 mod 64)%Z) (String (b (128 + r mod 64)%Z) ""))).

(** [strings.TrimLeft] and [strings.TrimRight] with an ASCII cutset. *)
Fixpoint TrimLeft (cut : list ascii) (s : string) : string :=
  match s with
  | String c s' => if decide (c ∈ cut) then TrimLeft cut s' else s
  | "" => ""
  end.

Definition TrimRight (cut : list ascii) (s : string) : string :=
  str_rev (TrimLeft cut (str_rev s)).

Definition TrimSlashes (s : string) : string := TrimRight ["/"%char] (TrimLeft ["/"%char] s).

Definition CR : ascii := "013".
Definition LF : ascii := "010".
Definition TAB : ascii := "009".

(** [strings.ReplaceAll(s, CR LF, LF)]. *)
Fixpoint unCRLF (s : string) : string :=
  match s with
  | "" => ""
  | String c s' =>
      match s' with
      | String d s'' =>
          if decide (c = CR ∧ d = LF) then String LF (unCRLF s'') else String c (unCRLF s')
      | "" => String c ""
      end
  end.

(** [path.Clean] on the elements of a path, [stack] being the result so far in
    reverse. *)
Fixpoint clean_segs (rooted : bool) (stack segs : list string) : list string :=
  match segs with
  | [] => stack
  | x :: segs =>
      if decide (x = "" ∨ x = ".") then clean_segs rooted stack segs
      else if decide (x = "..") then
        match stack with
        | y :: stack' =>
            if decide (y = "..") then clean_segs rooted (x :: stack) segs
            else clean_segs rooted stack' segs
        | [] => clean_segs rooted (if rooted then [] else [x]) segs
        end
      else clean_segs rooted (x :: stack) segs
  end.

Definition Clean (p : string) : string :=
  let rooted := HasPrefix p "/" in
  let q := (if rooted then "/" else "") +:+
           Join (rev (clean_segs rooted [] (SplitByte p "/"))) "/" in
  if decide (q = "") then "." else q.

Definition backslash : ascii := "\".

(** [strings.ReplaceAll] of a backslash by a slash. *)
Definition to_slashes (s : string) : string :=
  str_map (fun c => if decide (c = backslash) then "/"%char else c) s.

(** ** Data *)

Definition Locations : list string := [".github/CODEOWNERS"; "CODEOWNERS"; "docs/CODEOWNERS"].

Definition MaxFileBytes : Z := 3 * 1024 * 1024.

Inductive OwnerKind := OwnerUser | OwnerTeam | OwnerEmail.

Record Owner := MkOwner {
  Kind : OwnerKind; Raw : string; OUsername : string; Org : string; Team : string; Email : string
}.

(** The pieces of a compiled pattern. *)
Inductive tok :=
| AnySeq               (* any text without a newline *)
| SegSeq               (* text without a slash *)
| SegOne               (* one rune that is not a slash *)
| Quoted (ch : ascii). (* [regexp.QuoteMeta(string(ch))] *)

Inductive prefix :=
| PfxStart      (* the start of the path *)
| PfxSegment    (* the start of the path, or just after a slash *)
| PfxOptional.  (* the same, or nothing *)

Record Regexp := MkRegexp { re_prefix : prefix; re_body : list tok; re_dirOnly : bool }.

Record Entry := MkEntry {
  Line : nat; Pattern : string; Owners : list Owner; re : option Regexp
}.

Record ParseError := MkParseError { ELine : nat; Message : string }.

Record File := MkFile { Path : string; Entries : list Entry; Errors : list ParseError }.

(** ** Patterns *)

Definition isMeta (c : ascii) : bool :=
  bool_decide (c ∈ ["\"; "."; "+"; "*"; "?"; "("; ")"; "|"; "["; "]"; "{"; "}"; "^"; "$"]%char).

(** [string(ch)] of a byte is the encoding of the rune with that number. *)
Definition tok_source (t : tok) : string :=
  match t with
  | AnySeq => ".*"
  | SegSeq => "[^/]*"
  | SegOne => "[^/]"
  | Quoted ch => if isMeta ch then String "\" (String ch "") else EncodeRune (byte ch)
  end.

(** The loop of globRegex, on the bytes of the pattern. *)
Fixpoint glob_toks (p : string) : list tok :=
  match p with
  | "" => []
  | String c p1 =>
      if decide (c = "*"%char) then
        match p1 with
        | String d p2 => if decide (d = "*"%char) then AnySeq :: glob_toks p2
                         else SegSeq :: glob_toks p1
        | "" => [SegSeq]
        end
      else if decide (c = "?"%char) then SegOne :: glob_toks p1
      else Quoted c :: glob_toks p1
  end.

Fixpoint toks_source (l : list tok) : string :=
  match l with [] => "" | t :: l => tok_source t +:+ toks_source l end.

Definition globRegex (p : string) : string := toks_source (glob_toks p).

Definition prefix_source (p : prefix) : string :=
  match p with
  | PfxStart => "^"
  | PfxSegment => "(?:^|.*/)"
  | PfxOptional => "(?:^|.*/)?"
  end.

Definition regexp_source (r : Regexp) : string :=
  prefix_source (re_prefix r) +:+ toks_source (re_body r) +:+
  (if re_dirOnly r then "(?:/.*)?$" else "$").

Definition suffixSlash (s : string) : string := if HasSuffix s "/" then "/" else "".

Definition normalizePattern (pattern : string) : string :=
  let p := to_slashes pattern in
  if HasPrefix p "/" then
    String "/" (TrimSlashes (Clean (TrimPrefix p "/")) +:+ suffixSlash p)
  else TrimSlashes (Clean p) +:+ suffixSlash p.

Definition normalizePath (filePath : string) : string := TrimSlashes (Clean (to_slashes filePath)).

Definition compilePattern (pattern : string) : res string Regexp :=
  let p := normalizePattern pattern in
  let dirOnly := HasSuffix p "/" in
  let p := TrimSuffix p "/" in
  let anchored := HasPrefix p "/" in
  let p := TrimPrefix p "/" in
  if decide (p = "") then Err "empty pattern"
  else
    let pfx := if negb anchored then if negb (Contains p "/") then PfxSegment else PfxOptional
               else PfxStart in
    Ok (MkRegexp pfx (glob_toks p) dirOnly).

(** ** [MatchString] *)

Definition SLASH : Z := 47.

Definition dot (r : Z) : bool := bool_decide (r ≠ 10%Z).
Definition not_slash (r : Z) : bool := bool_decide (r ≠ SLASH).

(** [x*], then what [k] accepts. *)
Fixpoint star (x : Z → bool) (k : list Z → bool) (s : list Z) : bool :=
  k s || match s with r :: s => x r && star x k s | [] => false end.

Fixpoint match_toks (l : list tok) (k : list Z → bool) (s : list Z) : bool :=
  match l with
  | [] => k s
  | Quoted ch :: l =>
      match s with r :: s => bool_decide (r = byte ch) && match_toks l k s | [] => false end
  | SegOne :: l => match s with r :: s => not_slash r && match_toks l k s | [] => false end
  | SegSeq :: l => star not_slash (match_toks l k) s
  | AnySeq :: l => star dot (match_toks l k) s
  end.

(** [$], or a slash and text without a newline before it. *)
Definition match_end (dirOnly : bool) (s : list Z) : bool :=
  match s with
  | [] => true
  | r :: s => dirOnly && bool_decide (r = SLASH) && forallb dot s
  end.

Definition match_rest (r : Regexp) : list Z → bool :=
  match_toks (re_body r) (match_end (re_dirOnly r)).

Definition slash_then (k : list Z → bool) (s : list Z) : bool :=
  match s with r :: s => bool_decide (r = SLASH) && k s | [] => false end.

(** A match that starts here; [start] says whether here is the start of the path. *)
Definition match_here (r : Regexp) (start : bool) (s : list Z) : bool :=
  let group := (start && match_rest r s) || star dot (slash_then (match_rest r)) s in
  match re_prefix r with
  | PfxStart => start && match_rest r s
  | PfxSegment => group
  | PfxOptional => group || match_rest r s
  end.

Fixpoint search (r : Regexp) (start : bool) (s : list Z) : bool :=
  match_here r start s || match s with _ :: s => search r false s | [] => false end.

Definition MatchString (r : Regexp) (s : string) : bool := search r true (runes s).

Definition entry_matches (target : string) (e : Entry) : bool :=
  match re e with None => false | Some r => MatchString r target end.

(** The loop of OwnersFor. *)
Definition OwnersFor (f : File) (filePath : string) : option Entry :=
  let target := normalizePath filePath in
  foldl (fun last e => if entry_matches target e then Some e else last) None (Entries f).

(** ** Lines *)

(** The variables of tokenize; [b] is the builder, [fields] is in order. *)
Record tokenizer := MkTokenizer {
  fields : list string; b : string; inField : bool; escaped : bool
}.

Fixpoint tokenize_loop (line : list Z) (st : tokenizer) : list string :=
  match line with
  | [] =>
      let b := if escaped st then b st +:+ String backslash "" else b st in
      if inField st then fields st ++ [b] else fields st
  | r :: line =>
      if escaped st then
        tokenize_loop line (MkTokenizer (fields st) (b st +:+ EncodeRune r) true false)
      else if decide (r = byte backslash) then
        tokenize_loop line (MkTokenizer (fields st) (b st) true true)
      else if decide (r = byte " " ∨ r = byte TAB) then
        tokenize_loop line
          (if inField st then MkTokenizer (fields st ++ [b st]) "" false (escaped st) else st)
      else if decide (r = byte "#" ∧ inField st = false) then fields st
      else tokenize_loop line (MkTokenizer (fields st) (b st +:+ EncodeRune r) true (escaped st))
  end.

Definition tokenize (line : string) : list string :=
  tokenize_loop (runes line) (MkTokenizer [] "" false false).

Definition validatePattern (pattern : string) : option string :=
  if decide (pattern = "") then Some "empty pattern"
  else if HasPrefix pattern "!" then Some "negation patterns are not supported"
  else if HasPrefix pattern "#" then Some "comment patterns are not supported"
  else if negb (str_forallb (fun c => bool_decide (c ∉ ["["; "]"]%char)) pattern)
  then Some "character ranges are not supported"
  else None.

Section Codeowners.
  Variable ToLower : string → string.

Definition parseOwner (raw : string) : option Owner :=
  if decide (raw = "") then None
  else if HasPrefix raw "@" then
    let body := TrimPrefix raw "@" in
    if decide (body = "") then None
    else if Contains body "/" then
      match Cut body "/" with
      | None => None
      | Some (org, team) =>
          if decide (org = "" ∨ team = "") then None
          else if Contains team "/" then None
          else Some (MkOwner OwnerTeam raw "" (ToLower org) (ToLower team) "")
      end
    else Some (MkOwner OwnerUser raw (ToLower body) "" "" "")
  else if Contains raw "@" then Some (MkOwner OwnerEmail raw "" "" "" (ToLower raw))
  else None.

(** The inner loop of Parse: the owners and the errors of a line. *)
Fixpoint parse_owners (lineNo : nat) (toks : list string) : list Owner * list ParseError :=
  match toks with
  | [] => ([], [])
  | t :: toks =>
      let '(owners, errs) := parse_owners lineNo toks in
      match parseOwner t with
      | None => (owners, MkParseError lineNo ("invalid owner " +:+ t) :: errs)
      | Some o => (o :: owners, errs)
      end
  end.

(** One turn of the outer loop: what the line adds to Entries and to Errors. *)
Definition parse_line (lineNo : nat) (raw : string) : option Entry * list ParseError :=
  let line := TrimRight [CR] raw in
  if decide (TrimSpace line = "") then (None, [])
  else if HasPrefix (TrimLeft [" "%char; TAB] line) "#" then (None, [])
  else
    match tokenize line with
    | [] => (None, [])
    | pattern :: ownerTokens =>
        match validatePattern pattern with
        | Some msg => (None, [MkParseError lineNo msg])
        | None =>
            let '(owners, errs) := parse_owners lineNo ownerTokens in
            if decide (ownerTokens ≠ [] ∧ owners = []) then (None, errs)
            else
              match compilePattern pattern with
              | Err msg => (None, errs ++ [MkParseError lineNo msg])
              | Ok r => (Some (MkEntry lineNo pattern owners (Some r)), errs)
              end
        end
    end.

Fixpoint parse_lines (lineNo : nat) (raws : list string) : list Entry * list ParseError :=
  match raws with
  | [] => ([], [])
  | raw :: raws =>
      let '(e, errs) := parse_line lineNo raw in
      let '(es, errs') := parse_lines (S lineNo) raws in
      (option_list e ++ es, errs ++ errs')
  end.

Definition Parse (filePath body : string) : File :=
  let '(es, errs) := parse_lines 1 (SplitByte (unCRLF body) LF) in MkFile filePath es errs.

(** ** Load *)

Inductive EntryKind := EntryBlob | EntryTree | EntryOther.

#[export] Instance EntryKind_eq_dec : EqDecision EntryKind.
Proof. solve_decision. Defined.

Inductive GitErr := ErrPathNotFound | ErrNotATree | ErrGit (msg : string).

Section Load.
  Variable StatPath : string → string → string → res GitErr EntryKind.
  Variable ReadBlobBytes : string → string → string → Z → res GitErr string.

Fixpoint load_loop (gitDir ref : string) (locs : list string) : res GitErr (option File) :=
  match locs with
  | [] => Ok None
  | loc :: locs =>
      match StatPath gitDir ref loc with
      | Err ErrPathNotFound | Err ErrNotATree => load_loop gitDir ref locs
      | Err e => Err e
      | Ok EntryBlob =>
          match ReadBlobBytes gitDir ref loc MaxFileBytes with
          | Err e => Err e
          | Ok body => Ok (Some (Parse loc body))
          end
      | Ok _ => load_loop gitDir ref locs
      end
  end.

(** [Ok None] is the [false] of Go's [(File, bool, error)]. *)
Definition Load (gitDir ref : string) : res GitErr (option File) := load_loop gitDir ref Locations.

End Load.

End Codeowners.
