(* ===== verification/CodeownersFacts.v ===== *)
(** * CodeownersFacts: what a CODEOWNERS line covers, and which line decides *)

From stdpp Require Import sorting.
From S2P Require Import Prelude GoString Codeowners.
Local Open Scope nat_scope.

(** ** What a compiled pattern covers *)

(** The texts a sequence of pieces stands for. *)
Inductive denotes : list tok → list Z → Prop :=
| den_nil : denotes [] []
| den_quoted ch l u : denotes l u → denotes (Quoted ch :: l) (byte ch :: u)
| den_one r l u : r ≠ SLASH → denotes l u → denotes (SegOne :: l) (r :: u)
| den_seg s l u : SLASH ∉ s → denotes l u → denotes (SegSeq :: l) (s ++ u)
| den_any s l u : 10%Z ∉ s → denotes l u → denotes (AnySeq :: l) (s ++ u).

(** The places where a match may start. *)
Definition prefix_ok (p : prefix) (pre : list Z) : Prop :=
  match p with
  | PfxStart => pre = []
  | PfxSegment => pre = [] ∨ last pre = Some SLASH
  | PfxOptional => True
  end.

(** What may follow the pattern: nothing or, for a directory, a path below it. *)
Definition end_ok (dirOnly : bool) (post : list Z) : Prop :=
  post = [] ∨ (dirOnly = true ∧ ∃ q, post = SLASH :: q ∧ 10%Z ∉ q).

Definition covers (r : Regexp) (t : list Z) : Prop :=
  ∃ pre mid post, t = pre ++ mid ++ post ∧ prefix_ok (re_prefix r) pre ∧
    denotes (re_body r) mid ∧ end_ok (re_dirOnly r) post.

Lemma star_spec (x : Z → bool) (bad : Z) (k : list Z → bool) (s : list Z) :
  (∀ r, x r = bool_decide (r ≠ bad)) →
  (star x k s = true) ↔
  ∃ u v, s = u ++ v ∧ (bad ∉ u) ∧ k v = true.
Proof.
  intros Hx. induction s as [|r s IH]; cbn [star]; rewrite orb_true_iff.
  - split.
    + intros [Hk|Hk]; [|done]. exists [], []. split_and!; [done|apply not_elem_of_nil|done].
    + intros (u & v & Hs & _ & Hk). symmetry in Hs. apply app_eq_nil in Hs as [-> ->]. by left.
  - rewrite andb_true_iff, Hx, bool_decide_eq_true, IH. split.
    + intros [Hk|[Hr (u & v & -> & Hu & Hk)]].
      * exists [], (r :: s). split_and!; [done|apply not_elem_of_nil|done].
      * exists (r :: u), v. split_and!; [done|by apply not_elem_of_cons|done].
    + intros ([|a u] & v & Hs & Hu & Hk); cbn in Hs; [left; by subst v|].
      injection Hs as -> ->. apply not_elem_of_cons in Hu as [? ?]. right. split; [congruence|eauto].
Qed.

Lemma match_toks_spec (l : list tok) (k : list Z → bool) (s : list Z) :
  (match_toks l k s = true) ↔
  ∃ u v, s = u ++ v ∧ denotes l u ∧ k v = true.
Proof.
  revert s. induction l as [|[| | |ch] l IH]; intros s; cbn [match_toks].
  - split; [intros Hk; exists [], s; by repeat constructor|].
    intros (u & v & -> & Hu & Hk). by inversion Hu; subst.
  - rewrite (star_spec dot 10) by done. setoid_rewrite IH. split.
    + intros (u & v & -> & Hu & u' & v' & -> & Hd & Hk). exists (u ++ u'), v'.
      split_and!; [by rewrite app_assoc|by constructor|done].
    + intros (u & v & -> & Hd & Hk). inversion Hd as [| | | |x l' u' Hx Hd']; subst.
      eexists x, _. split_and!; [by rewrite <-app_assoc|done|eauto].
  - rewrite (star_spec not_slash SLASH) by done. setoid_rewrite IH. split.
    + intros (u & v & -> & Hu & u' & v' & -> & Hd & Hk). exists (u ++ u'), v'.
      split_and!; [by rewrite app_assoc|by constructor|done].
    + intros (u & v & -> & Hd & Hk). inversion Hd as [| | |x l' u' Hx Hd'|]; subst.
      eexists x, _. split_and!; [by rewrite <-app_assoc|done|eauto].
  - destruct s as [|r s].
    + split; [done|]. intros (u & v & Hs & Hd & _). inversion Hd; subst. discriminate Hs.
    + unfold not_slash. rewrite andb_true_iff, bool_decide_eq_true, IH. split.
      * intros [Hr (u & v & -> & Hd & Hk)]. exists (r :: u), v. by repeat constructor.
      * intros (u & v & Hs & Hd & Hk). inversion Hd; subst. injection Hs as -> ->. eauto 7.
  - destruct s as [|r s].
    + split; [done|]. intros (u & v & Hs & Hd & _). inversion Hd; subst. discriminate Hs.
    + rewrite andb_true_iff, bool_decide_eq_true, IH. split.
      * intros [-> (u & v & -> & Hd & Hk)]. exists (byte ch :: u), v. by repeat constructor.
      * intros (u & v & Hs & Hd & Hk). inversion Hd; subst. injection Hs as -> ->. eauto 7.
Qed.

Lemma match_end_spec (d : bool) (s : list Z) : (match_end d s = true) ↔ end_ok d s.
Proof.
  unfold end_ok. destruct s as [|r s]; cbn [match_end]; [naive_solver|].
  rewrite !andb_true_iff, bool_decide_eq_true, forallb_forall. split.
  - intros [[-> ->] Hf]. right. split; [done|]. exists s. split; [done|].
    intros Hin%list_elem_of_In. specialize (Hf _ Hin). done.
  - intros [?|[-> (q & [= -> ->] & Hq)]]; [done|]. split_and!; [done..|].
    intros x Hx%list_elem_of_In. apply bool_decide_eq_true. congruence.
Qed.

Lemma match_rest_spec (r : Regexp) (s : list Z) :
  (match_rest r s = true) ↔
  ∃ mid post, s = mid ++ post ∧ denotes (re_body r) mid ∧ end_ok (re_dirOnly r) post.
Proof. unfold match_rest. rewrite match_toks_spec. by setoid_rewrite match_end_spec. Qed.

Lemma slash_then_spec (k : list Z → bool) (s : list Z) :
  (slash_then k s = true) ↔
  ∃ v, s = SLASH :: v ∧ k v = true.
Proof.
  destruct s as [|r s]; cbn; [naive_solver|]. rewrite andb_true_iff, bool_decide_eq_true. naive_solver.
Qed.

(** The search tries every start. *)
Lemma search_spec (r : Regexp) (start : bool) (s : list Z) :
  (search r start s = true) ↔
  ∃ u v, s = u ++ v ∧ match_here r (start && bool_decide (u = [])) v = true.
Proof.
  revert start. induction s as [|a s IH]; intros start; cbn [search]; rewrite orb_true_iff.
  - split.
    + intros [Hm|?]; [|done]. exists [], []. by rewrite andb_true_r.
    + intros (u & v & Hs & Hm). symmetry in Hs. apply app_eq_nil in Hs as [-> ->].
      rewrite bool_decide_true, andb_true_r in Hm by done. by left.
  - rewrite IH. split.
    + intros [Hm|(u & v & -> & Hm)].
      * exists [], (a :: s). by rewrite andb_true_r.
      * exists (a :: u), v. split; [done|]. by rewrite bool_decide_false, andb_false_r by done.
    + intros ([|c u] & v & Hs & Hm); cbn in Hs.
      * subst v. rewrite bool_decide_true, andb_true_r in Hm by done. by left.
      * injection Hs as -> ->. rewrite bool_decide_false, andb_false_r in Hm by done. right. eauto.
Qed.

Definition rest_ok (r : Regexp) (s : list Z) : Prop :=
  ∃ mid post, s = mid ++ post ∧ denotes (re_body r) mid ∧ end_ok (re_dirOnly r) post.

(** The group of the two unanchored prefixes. *)
Definition group_ok (r : Regexp) (start : Prop) (s : list Z) : Prop :=
  (start ∧ rest_ok r s) ∨ ∃ u w, s = u ++ SLASH :: w ∧ (10%Z ∉ u) ∧ rest_ok r w.

Lemma match_here_spec (r : Regexp) (start : bool) (s : list Z) :
  match_here r start s = true ↔
  match re_prefix r with
  | PfxStart => start = true ∧ rest_ok r s
  | PfxSegment => group_ok r (start = true) s
  | PfxOptional => group_ok r (start = true) s ∨ rest_ok r s
  end.
Proof.
  assert ((start && match_rest r s) || star dot (slash_then (match_rest r)) s = true ↔
          group_ok r (start = true) s) as Hg.
  { unfold group_ok, rest_ok. rewrite orb_true_iff, andb_true_iff, match_rest_spec.
    rewrite (star_spec dot 10) by done. setoid_rewrite slash_then_spec.
    setoid_rewrite match_rest_spec. naive_solver. }
  unfold match_here. cbv zeta. destruct (re_prefix r).
  - by rewrite andb_true_iff, match_rest_spec.
  - done.
  - by rewrite orb_true_iff, Hg, match_rest_spec.
Qed.

Lemma covers_rest (r : Regexp) (t : list Z) :
  covers r t ↔ ∃ pre s, t = pre ++ s ∧ prefix_ok (re_prefix r) pre ∧ rest_ok r s.
Proof. unfold covers, rest_ok. naive_solver. Qed.

Lemma MatchString_covers (r : Regexp) (s : string) : (MatchString r s = true) ↔ covers r (runes s).
Proof.
  unfold MatchString. rewrite covers_rest. generalize (runes s). clear s. intros t.
  pose proof (match_here_spec r) as Hm. rewrite search_spec. unfold group_ok in Hm.
  unfold prefix_ok. destruct (re_prefix r); setoid_rewrite Hm; cbn [andb];
    setoid_rewrite bool_decide_eq_true.
  - done.
  - split.
    + intros (u & v & -> & [[-> ?]|(u' & w & -> & _ & ?)]); [eexists [], v; naive_solver|].
      exists (u ++ u' ++ [SLASH]), w. rewrite <-!app_assoc. split_and!; [done| |done].
      right. by rewrite app_assoc, last_snoc.
    + intros (pre & s & -> & [->|Hl] & ?); [exists [], s; naive_solver|].
      apply last_Some in Hl as [pre' ->]. exists pre', (SLASH :: s).
      rewrite <-app_assoc. split; [done|]. right. exists [], s.
      split_and!; [done|apply not_elem_of_nil|done].
  - split.
    + intros (u & v & -> & [[[_ ?]|(u' & w & -> & _ & ?)]|?]); [by exists u, v| |by exists u, v].
      exists (u ++ u' ++ [SLASH]), w. by rewrite <-!app_assoc.
    + intros (pre & s & -> & _ & ?). exists pre, s. naive_solver.
Qed.

(** A pattern with a slash inside but not in front gets the optional prefix, which
    says nothing: what it covers it covers after any text, in the middle of a name
    too. *)
Lemma optional_prefix_floats (r : Regexp) (x t : list Z) :
  re_prefix r = PfxOptional → covers r t → covers r (x ++ t).
Proof.
  rewrite !covers_rest. intros Hp (pre & s & -> & _ & Hs). exists (x ++ pre), s.
  rewrite Hp, <-app_assoc. done.
Qed.

Lemma unanchored_pattern_matches_inside_name :
  ∃ r, compilePattern "docs/*.md" = Ok r ∧ re_prefix r = PfxOptional ∧
    MatchString r "docs/a.md" = true ∧ MatchString r "mydocs/a.md" = true.
Proof. eexists. split_and!; by vm_compute. Qed.

(** A byte above 127 is quoted as the rune of that number, so a pattern with a
    two-byte letter does not match its own text. *)
Lemma non_ascii_pattern_misses_itself :
  let p := String "195" (String "169" "") in
  ∃ r, compilePattern p = Ok r ∧ MatchString r p = false.
Proof. eexists. split; by vm_compute. Qed.

(** ** The entries of a file *)

Section Codeowners.
  Variable ToLower : string → string.

Lemma parse_lines_spec (n : nat) (raws : list string) (e : Entry) :
  e ∈ (parse_lines ToLower n raws).1 ↔
  ∃ i raw errs, raws !! i = Some raw ∧ parse_line ToLower (n + i) raw = (Some e, errs).
Proof.
  revert n. induction raws as [|raw raws IH]; intros n; cbn [parse_lines].
  - split; [by intros ?%elem_of_nil|]. intros (i & raw & errs & Hi & _). by rewrite lookup_nil in Hi.
  - destruct (parse_line ToLower n raw) as [oe errs] eqn:El. specialize (IH (S n)).
    destruct (parse_lines ToLower (S n) raws) as [es errs']. cbn [fst] in IH |- *.
    rewrite elem_of_app, IH. split.
    + intros [He|(i & raw' & errs'' & Hi & He)].
      * destruct oe; cbn in He; [|by apply elem_of_nil in He].
        apply list_elem_of_singleton in He as ->. exists 0, raw, errs. by rewrite Nat.add_0_r.
      * exists (S i), raw', errs''. by rewrite Nat.add_succ_r.
    + intros ([|i] & raw' & errs'' & Hi & He).
      * injection Hi as <-. rewrite Nat.add_0_r, El in He. injection He as -> ->. left.
        by apply list_elem_of_singleton.
      * right. exists i, raw', errs''. by rewrite Nat.add_succ_r in He.
Qed.

Lemma parse_line_entry (n : nat) (raw : string) (e : Entry) (errs : list ParseError) :
  parse_line ToLower n raw = (Some e, errs) →
  Line e = n ∧ ∃ r toks, tokenize (TrimRight [CR] raw) = Pattern e :: toks ∧
    validatePattern (Pattern e) = None ∧ compilePattern (Pattern e) = Ok r ∧ re e = Some r ∧
    Owners e = omap (parseOwner ToLower) toks ∧ (toks = [] ∨ Owners e ≠ []).
Proof.
  assert (∀ toks, (parse_owners ToLower n toks).1 = omap (parseOwner ToLower) toks) as Ho.
  { induction toks as [|t toks IH]; [done|]. cbn [parse_owners omap list_omap].
    destruct (parse_owners ToLower n toks) as [os es]. cbn [fst] in IH. rewrite <-IH.
    by destruct (parseOwner ToLower t). }
  unfold parse_line. cbv zeta. repeat case_decide; try done.
  destruct (HasPrefix _ "#"); [done|]. destruct (tokenize _) as [|p toks]; [done|].
  destruct (validatePattern p) eqn:Ev; [done|]. specialize (Ho toks).
  destruct (parse_owners ToLower n toks) as [os es]. cbn [fst] in Ho.
  destruct (decide (toks ≠ [] ∧ os = [])) as [|Hne]; [done|].
  destruct (compilePattern p) as [r|] eqn:Ec; [|done]. intros [= <- _]. cbn. split; [done|].
  exists r, toks. split_and!; [done..|].
  destruct toks; [by left|right]. intros Hos. by apply Hne.
Qed.

Lemma parse_lines_sorted (n : nat) (raws : list string) :
  StronglySorted lt (Line <$> (parse_lines ToLower n raws).1) ∧
  ∀ e, e ∈ (parse_lines ToLower n raws).1 → n ≤ Line e.
Proof.
  revert n. induction raws as [|raw raws IH]; intros n; cbn [parse_lines].
  - split; [constructor|by intros e ?%elem_of_nil].
  - destruct (IH (S n)) as [Hs Hle]. destruct (parse_line ToLower n raw) as [oe errs] eqn:El.
    destruct (parse_lines ToLower (S n) raws) as [es errs']. cbn [fst] in *.
    destruct oe as [e|]; cbn [option_list app]; [|split; [done|]; intros e He; specialize (Hle e He); lia].
    apply parse_line_entry in El as [Hl _]. cbn [fmap list_fmap]. split.
    + constructor; [done|]. apply Forall_fmap, Forall_forall. intros e' He'. cbn.
      specialize (Hle e' He'). lia.
    + intros e' [->|He']%elem_of_cons; [lia|]. specialize (Hle e' He'). lia.
Qed.

(** The loop of OwnersFor keeps the last match. *)
Lemma last_match (m : Entry → bool) (l : list Entry) (acc : option Entry) :
  StronglySorted lt (Line <$> l) →
  match foldl (fun last e => if m e then Some e else last) acc l with
  | Some e => (e ∈ l ∧ m e = true ∧ ∀ e', e' ∈ l → Line e < Line e' → m e' = false) ∨
              (acc = Some e ∧ ∀ e', e' ∈ l → m e' = false)
  | None => acc = None ∧ ∀ e', e' ∈ l → m e' = false
  end.
Proof.
  revert acc. induction l as [|x l IH]; intros acc Hs; cbn [foldl].
  - destruct acc as [e|]; [right|]; (split; [done|]); by intros e' ?%elem_of_nil.
  - cbn [fmap list_fmap] in Hs. inversion Hs as [|? ? Hs' Hx]; subst.
    rewrite Forall_fmap, Forall_forall in Hx. specialize (IH (if m x then Some x else acc) Hs').
    destruct (foldl _ _ l) as [e|].
    + destruct IH as [(He & Hm & Hlast)|[Hacc Hl]].
      * left. split_and!; [by right|done|]. intros e' [->|He']%elem_of_cons Hlt; [|eauto].
        specialize (Hx _ He). cbn in Hx. lia.
      * destruct (m x) eqn:Em.
        -- injection Hacc as ->. left. split_and!; [by left|done|].
           intros e' [->|He']%elem_of_cons Hlt; [lia|eauto].
        -- right. split; [done|]. by intros e' [->|He']%elem_of_cons; [|eauto].
    + destruct IH as [Hacc Hl]. destruct (m x) eqn:Em; [done|]. split; [done|].
      by intros e' [->|He']%elem_of_cons; [|eauto].
Qed.

Definition file_lines (body : string) : list string := SplitByte (unCRLF body) LF.

(** The entry covers the path. *)
Definition entry_covers (e : Entry) (file : string) : Prop :=
  ∃ r, compilePattern (Pattern e) = Ok r ∧ covers r (runes (normalizePath file)).

(** The owners of a path: the entries of a parsed file are exactly what its
    lines give, each with a pattern of the supported syntax and with owners unless
    the line names none; and [OwnersFor] returns the last entry whose pattern covers
    the cleaned path, and nothing exactly when none does.  A pattern covers a path
    when a part of it that starts where the prefix allows (the root for [/a], the
    start of a name for [a], anywhere at all for [a/b]) is a text the pattern
    denotes, followed by nothing or, for a directory, by a path below it. *)
Theorem OwnersFor_last_match (path body file : string) :
  let f := Parse ToLower path body in
  (∀ e, e ∈ Entries f ↔
     ∃ i raw errs, file_lines body !! i = Some raw ∧
       parse_line ToLower (S i) raw = (Some e, errs)) ∧
  (∀ e, e ∈ Entries f → ∃ raw toks, file_lines body !! pred (Line e) = Some raw ∧
     tokenize (TrimRight [CR] raw) = Pattern e :: toks ∧ validatePattern (Pattern e) = None ∧
     Owners e = omap (parseOwner ToLower) toks ∧ (toks = [] ∨ Owners e ≠ [])) ∧
  match OwnersFor f file with
  | Some e => e ∈ Entries f ∧ entry_covers e file ∧
      ∀ e', e' ∈ Entries f → Line e < Line e' → ¬ entry_covers e' file
  | None => ∀ e, e ∈ Entries f → ¬ entry_covers e file
  end.
Proof.
  intros f.
  assert (Entries f = (parse_lines ToLower 1 (file_lines body)).1) as Hf.
  { unfold f, Parse, file_lines. by destruct (parse_lines ToLower 1 _). }
  assert (∀ e, e ∈ Entries f ↔ ∃ i raw errs, file_lines body !! i = Some raw ∧
    parse_line ToLower (S i) raw = (Some e, errs)) as Hin by (intros e; by rewrite Hf, parse_lines_spec).
  assert (∀ e, e ∈ Entries f → entry_matches (normalizePath file) e = true ↔ entry_covers e file)
    as Hm.
  { intros e (i & raw & errs & _ & El)%Hin.
    apply parse_line_entry in El as (_ & r & toks & _ & _ & Hc & Hre & _).
    unfold entry_matches, entry_covers. rewrite Hre, MatchString_covers, Hc. naive_solver. }
  assert (∀ e, e ∈ Entries f → entry_matches (normalizePath file) e = false → ¬ entry_covers e file)
    as Hn by (intros e He Hff Hc%(Hm e He); congruence).
  split_and!; [done| |].
  - intros e (i & raw & errs & Hi & El)%Hin.
    apply parse_line_entry in El as (Hl & r & toks & Ht & Hv & _ & _ & Ho). exists raw, toks.
    rewrite Hl. tauto.
  - destruct (parse_lines_sorted 1 (file_lines body)) as [Hs _]. rewrite <-Hf in Hs.
    pose proof (last_match (entry_matches (normalizePath file)) _ None Hs) as Hl.
    unfold OwnersFor. cbv zeta. destruct (foldl _ None (Entries f)) as [e|].
    + destruct Hl as [(He & Hme & Hlast)|[? _]]; [|done]. split_and!; [done|by apply Hm|]. eauto.
    + destruct Hl as [_ Hl]. eauto.
Qed.

End Codeowners.
