(* ===== verification/CodeOwnerGate.v ===== *)
(** * CodeOwnerGate: the code-owner half of the review gate

    internal/pulls/review/codeowners.go, on top of the CODEOWNERS matcher
    (Codeowners.v), the authorization decision (Policy.v) and the gate of
    required.go (ReviewGate.v).  The SQL queries are the fields of [GateQueries];
    the request cache that policy.Can finds in the context is passed along.  A Go
    map is iterated in an unspecified order: [iter] lists a set in some order. *)

From S2P Require Import Prelude GoString Policy Codeowners PathMatch Protection ReviewGate.
Local Open Scope nat_scope.

Record OrgRow := MkOrg { o_ID : Z; Slug : string }.

(** The columns of a [users] row userCanReview reads. *)
Record UserRow := MkUser { u_ID : Z; u_Username : string; SuspendedAt : bool; u_SiteAdmin : bool }.

Record GateQueries := MkQueries {
  GetOrgByID : Z → res QErr OrgRow;
  GetUserByUsername : string → res QErr UserRow;
  HasConfirmedUserTOTP : Z → res QErr bool;
  GetTeamByOrgAndSlug : Z → string → res QErr Z;
  GetTeamRepoAccess : Z → Z → res QErr string;
  ListPullRequestFiles : Z → res QErr (list string);
  ListTeamMembers : Z → res QErr (list Z)
}.

Record GateInputs := MkInputs {
  RepoID : Z; BaseRef : string; BaseOID : string; GitDir : string; PRIssueID : Z
}.

Record CodeOwnerTargets := MkTargets { UserIDs : gset Z; TeamIDs : gset Z }.

Definition Empty (t : CodeOwnerTargets) : bool :=
  bool_decide (size (UserIDs t) = 0) && bool_decide (size (TeamIDs t) = 0).

Inductive GateErr := GateDB (e : QErr) | GateGit (e : GitErr).

Definition teamRepoRoleCanReview (role : string) : bool :=
  bool_decide (role ∈ ["write"; "maintain"; "admin"]).

Section Gate.
  Variable q : GateQueries.
  Variable deps : Deps.
  Variable iter : gset Z → list Z.
  Variable ToLower : string → string.
  Variable EqualFold : string → string → bool.
  Variable StatPath : string → string → string → res GitErr EntryKind.
  Variable ReadBlobBytes : string → string → string → Z → res GitErr string.

Definition reviewActor (u : UserRow) (has2FA : bool) : Actor :=
  UserActorWithTwoFactor (u_ID u) (u_Username u) (SuspendedAt u) (u_SiteAdmin u) has2FA.

Definition userCanReview (c : requestCache) (repo : RepoRow) (u : UserRow)
  : requestCache * bool :=
  match HasConfirmedUserTOTP q (u_ID u) with
  | Err _ => (c, false)
  | Ok has2FA =>
      let '(c, d) := Can c deps (reviewActor u has2FA) ActionPullReview (NewRepoRefFromRepo repo) in
      (c, Policy.Allow d)
  end.

(** The loop of ResolveCodeOwnerTargets. *)
Fixpoint resolve_loop (c : requestCache) (repo : RepoRow) (org : option OrgRow)
    (owners : list Owner) (t : CodeOwnerTargets) : requestCache * res QErr CodeOwnerTargets :=
  match owners with
  | [] => (c, Ok t)
  | o :: owners =>
      match Kind o with
      | OwnerUser =>
          match GetUserByUsername q (ToLower (OUsername o)) with
          | Err ErrNoRows => resolve_loop c repo org owners t
          | Err e => (c, Err e)
          | Ok u =>
              let '(c, can) := userCanReview c repo u in
              resolve_loop c repo org owners
                (if can then MkTargets ({[u_ID u]} ∪ UserIDs t) (TeamIDs t) else t)
          end
      | OwnerTeam =>
          match org with
          | None => resolve_loop c repo org owners t
          | Some g =>
              if negb (EqualFold (Org o) (Slug g)) then resolve_loop c repo org owners t
              else
                match GetTeamByOrgAndSlug q (o_ID g) (ToLower (Team o)) with
                | Err ErrNoRows => resolve_loop c repo org owners t
                | Err e => (c, Err e)
                | Ok team =>
                    match GetTeamRepoAccess q team (row_ID repo) with
                    | Err ErrNoRows => resolve_loop c repo org owners t
                    | Err e => (c, Err e)
                    | Ok role =>
                        resolve_loop c repo org owners
                          (if teamRepoRoleCanReview role
                           then MkTargets (UserIDs t) ({[team]} ∪ TeamIDs t) else t)
                    end
                end
          end
      | OwnerEmail => resolve_loop c repo org owners t
      end
  end.

Definition ResolveCodeOwnerTargets (c : requestCache) (repo : RepoRow) (owners : list Owner)
  : requestCache * res QErr CodeOwnerTargets :=
  match row_OwnerOrgID repo with
  | Some id =>
      match GetOrgByID q id with
      | Err e => (c, Err e)
      | Ok g => resolve_loop c repo (Some g) owners (MkTargets ∅ ∅)
      end
  | None => resolve_loop c repo None owners (MkTargets ∅ ∅)
  end.

(** The loop over the teams. *)
Fixpoint teams_loop (approved : gset Z) (teams : list Z) : res QErr bool :=
  match teams with
  | [] => Ok false
  | team :: teams =>
      match ListTeamMembers q team with
      | Err e => Err e
      | Ok members =>
          if existsb (fun m => bool_decide (m ∈ approved)) members then Ok true
          else teams_loop approved teams
      end
  end.

Definition targetsHaveApproval (t : CodeOwnerTargets) (approved : gset Z) : res QErr bool :=
  if existsb (fun id => bool_decide (id ∈ approved)) (iter (UserIDs t)) then Ok true
  else if bool_decide (size (TeamIDs t) = 0) || bool_decide (size approved = 0) then Ok false
  else teams_loop approved (iter (TeamIDs t)).

(** The loop of codeOwnerReviewSatisfied: the missing paths. *)
Fixpoint files_loop (c : requestCache) (f : File) (repo : RepoRow) (approved : gset Z)
    (files : list string) : requestCache * res QErr (list string) :=
  match files with
  | [] => (c, Ok [])
  | file :: files =>
      match OwnersFor f file with
      | None => files_loop c f repo approved files
      | Some e =>
          if decide (Owners e = []) then files_loop c f repo approved files
          else
            let '(c, r) := ResolveCodeOwnerTargets c repo (Owners e) in
            match r with
            | Err err => (c, Err err)
            | Ok t =>
                if Empty t then
                  let '(c, r) := files_loop c f repo approved files in (c, (file ::.) <$> r)
                else
                  match targetsHaveApproval t approved with
                  | Err err => (c, Err err)
                  | Ok ok =>
                      let '(c, r) := files_loop c f repo approved files in
                      (c, if ok then r else (file ::.) <$> r)
                  end
            end
      end
  end.

Definition codeOwnerReviewSatisfied (c : requestCache) (inp : GateInputs) (repo : RepoRow)
    (approved : gset Z) : requestCache * res GateErr (bool * list string) :=
  if decide (GitDir inp = "" ∨ BaseOID inp = "") then (c, Ok (false, ["CODEOWNERS"]))
  else
    match Load ToLower StatPath ReadBlobBytes (GitDir inp) (BaseOID inp) with
    | Err e => (c, Err (GateGit e))
    | Ok None => (c, Ok (true, []))
    | Ok (Some f) =>
        match ListPullRequestFiles q (PRIssueID inp) with
        | Err e => (c, Err (GateDB e))
        | Ok files =>
            let '(c, r) := files_loop c f repo approved files in
            (c, match r with
                | Err e => Err (GateDB e)
                | Ok missing => Ok (bool_decide (length missing = 0), missing)
                end)
        end
    end.

(** [Evaluate] with this check plugged in. *)
Definition EvaluateWithOwners (c : requestCache) (inp : GateInputs) (repo : res QErr RepoRow)
    (rules : list BranchProtectionRule) (reviews : list ReviewRow) (prAuthorUserID : Z)
  : res GateErr GateResult :=
  Evaluate
    (fun approved =>
       match repo with
       | Err e => Err (GateDB e)
       | Ok repo => (codeOwnerReviewSatisfied c inp repo approved).2
       end)
    rules (BaseRef inp) reviews prAuthorUserID.

End Gate.
