(* ===== verification/CodeOwnerGateFacts.v ===== *)
(** * CodeOwnerGateFacts: when the code owners' review is in *)

From S2P Require Import Prelude GoString Policy PolicyFacts Codeowners CodeOwnerGate.
Local Open Scope nat_scope.

Section Gate.
  Variable q : GateQueries.
  Variable deps : Deps.
  Variable iter : gset Z → list Z.
  Variable ToLower : string → string.
  Variable EqualFold : string → string → bool.
  Variable StatPath : string → string → string → res GitErr EntryKind.
  Variable ReadBlobBytes : string → string → string → Z → res GitErr string.
  Variables orgOf ownerOf : Z → Z.
  Variable repo : RepoRow.
  Variable approved : gset Z.

  Hypothesis iter_perm : ∀ X, iter X ≡ₚ elements X.
  Hypothesis repo_ok : ref_ok orgOf ownerOf (NewRepoRefFromRepo repo).

(** The user may review, by the database alone. *)
Definition can_review (u : UserRow) : bool :=
  match HasConfirmedUserTOTP q (u_ID u) with
  | Err _ => false
  | Ok has2FA =>
      Policy.Allow
        (Can None deps (reviewActor u has2FA) ActionPullReview (NewRepoRefFromRepo repo)).2
  end.

Definition user_target (o : Owner) (a : Z) : Prop :=
  Kind o = OwnerUser ∧
  ∃ u, GetUserByUsername q (ToLower (OUsername o)) = Ok u ∧ can_review u = true ∧ u_ID u = a.

Definition team_target (org : option OrgRow) (o : Owner) (team : Z) : Prop :=
  Kind o = OwnerTeam ∧ ∃ g role, org = Some g ∧ EqualFold (Org o) (Slug g) = true ∧
    GetTeamByOrgAndSlug q (o_ID g) (ToLower (Team o)) = Ok team ∧
    GetTeamRepoAccess q team (row_ID repo) = Ok role ∧ teamRepoRoleCanReview role = true.

(** The organization that owns the repository. *)
Definition repo_org (org : option OrgRow) : Prop :=
  match row_OwnerOrgID repo with
  | Some id => ∃ g, GetOrgByID q id = Ok g ∧ org = Some g
  | None => org = None
  end.

(** [a]'s approval counts for the owner: the named user, if they may review, or a
    member of the named team of the owning organization, if the team can write. *)
Definition eligible (o : Owner) (a : Z) : Prop :=
  user_target o a ∨
  ∃ org team ms, repo_org org ∧ team_target org o team ∧ ListTeamMembers q team = Ok ms ∧ a ∈ ms.

(** An owner of the file has approved, or the file has no owner. *)
Definition file_ok (f : File) (file : string) : Prop :=
  ∀ e, OwnersFor f file = Some e → Owners e = [] ∨
    ∃ o a, o ∈ Owners e ∧ a ∈ approved ∧ eligible o a.

(** No query fails, apart from finding no row. *)
Definition quiet : Prop :=
  (∀ id e, row_OwnerOrgID repo = Some id → GetOrgByID q id ≠ Err e) ∧
  (∀ n e, GetUserByUsername q n = Err e → e = ErrNoRows) ∧
  (∀ g n e, GetTeamByOrgAndSlug q g n = Err e → e = ErrNoRows) ∧
  (∀ t r e, GetTeamRepoAccess q t r = Err e → e = ErrNoRows) ∧
  (∀ t e, ListTeamMembers q t ≠ Err e).

Lemma userCanReview_spec (c : requestCache) (u : UserRow) :
  coherent deps orgOf ownerOf c →
  (userCanReview q deps c repo u).2 = can_review u ∧
  coherent deps orgOf ownerOf (userCanReview q deps c repo u).1.
Proof.
  intros Hc. unfold userCanReview, can_review. destruct (HasConfirmedUserTOTP _ _) as [b|]; [|done].
  destruct (Can_coherent deps orgOf ownerOf c (reviewActor u b) ActionPullReview _ Hc repo_ok)
    as [H1 H2].
  destruct (Can c deps _ _ _) as [c' d]. cbn in *. by rewrite <-H1.
Qed.

(** ** Resolving the owners *)

Definition targets_of (org : option OrgRow) (owners : list Owner) (t t' : CodeOwnerTargets) : Prop :=
  (∀ a, a ∈ UserIDs t' ↔ a ∈ UserIDs t ∨ ∃ o, o ∈ owners ∧ user_target o a) ∧
  (∀ k, k ∈ TeamIDs t' ↔ k ∈ TeamIDs t ∨ ∃ o, o ∈ owners ∧ team_target org o k).

Lemma ex_cons {A} (P : Owner → A → Prop) o owners (x : A) :
  (∃ o', o' ∈ o :: owners ∧ P o' x) ↔ P o x ∨ ∃ o', o' ∈ owners ∧ P o' x.
Proof.
  split.
  - intros (o' & [->|Ho]%elem_of_cons & Hp); eauto.
  - intros [Hp|(o' & Ho & Hp)]; [exists o|exists o']; (split; [|done]); apply elem_of_cons; auto.
Qed.

Lemma targets_of_skip org o owners t t' :
  (∀ a, ¬ user_target o a) → (∀ k, ¬ team_target org o k) →
  targets_of org owners t t' → targets_of org (o :: owners) t t'.
Proof.
  intros Hu Hk [H1 H2]. split; intros x; rewrite ex_cons.
  - rewrite H1. specialize (Hu x). tauto.
  - rewrite H2. specialize (Hk x). tauto.
Qed.

Lemma targets_of_user org o owners a t t' :
  (∀ b, user_target o b ↔ b = a) → (∀ k, ¬ team_target org o k) →
  targets_of org owners (MkTargets ({[a]} ∪ UserIDs t) (TeamIDs t)) t' →
  targets_of org (o :: owners) t t'.
Proof.
  intros Hu Hk [H1 H2]. cbn in *. split; intros x; rewrite ex_cons.
  - rewrite H1, elem_of_union, elem_of_singleton, Hu. tauto.
  - rewrite H2. specialize (Hk x). tauto.
Qed.

Lemma targets_of_team org o owners k t t' :
  (∀ a, ¬ user_target o a) → (∀ j, team_target org o j ↔ j = k) →
  targets_of org owners (MkTargets (UserIDs t) ({[k]} ∪ TeamIDs t)) t' →
  targets_of org (o :: owners) t t'.
Proof.
  intros Hu Hk [H1 H2]. cbn in *. split; intros x; rewrite ex_cons.
  - rewrite H1. specialize (Hu x). tauto.
  - rewrite H2, elem_of_union, elem_of_singleton, Hk. tauto.
Qed.

(** A fallible result: what it says when it is one, and when it is one. *)
Definition outcome {E A} (r : res E A) (P : A → Prop) : Prop :=
  (∀ x, r = Ok x → P x) ∧ (quiet → is_ok r = true).

Lemma outcome_Ok {E A} (x : A) (P : A → Prop) : P x → outcome (E := E) (Ok x) P.
Proof. intros Hp. split; [by intros ? [= <-]|done]. Qed.

Lemma outcome_impl {E A} (r : res E A) (P Q : A → Prop) :
  (∀ x, P x → Q x) → outcome r P → outcome r Q.
Proof. intros Hpq [H1 H2]. split; [eauto|done]. Qed.

Lemma outcome_Err {E A} (e : E) (P : A → Prop) : ¬ quiet → outcome (Err e) P.
Proof. intros Hn. split; [done|]. by intros ?%Hn. Qed.

Lemma resolve_loop_spec org owners c t :
  coherent deps orgOf ownerOf c →
  coherent deps orgOf ownerOf (resolve_loop q deps ToLower EqualFold c repo org owners t).1 ∧
  outcome (resolve_loop q deps ToLower EqualFold c repo org owners t).2 (targets_of org owners t).
Proof.
  revert c t. induction owners as [|o owners IH]; intros c t Hc; cbn [resolve_loop].
  { split; [done|]. apply outcome_Ok.
    split; intros x; (split; [by left|]); by intros [?|(o & ?%elem_of_nil & _)]. }
  destruct (Kind o) eqn:Ek.
  - assert (∀ k, ¬ team_target org o k) as Hnt by (intros k [? _]; congruence).
    destruct (GetUserByUsername q _) as [u|[|msg]] eqn:Eu.
    + destruct (userCanReview_spec c u Hc) as [Hu Hc'].
      destruct (userCanReview q deps c repo u) as [c' can]. cbn in Hu, Hc'. subst can.
      destruct (IH c' (if can_review u then MkTargets ({[u_ID u]} ∪ UserIDs t) (TeamIDs t) else t) Hc')
        as [H1 H2]. split; [done|]. eapply outcome_impl; [|exact H2]. intros t'.
      destruct (can_review u) eqn:Er.
      * apply targets_of_user; [|done]. unfold user_target. rewrite Eu. naive_solver.
      * apply targets_of_skip; [|done]. unfold user_target. rewrite Eu. naive_solver congruence.
    + destruct (IH c t Hc) as [H1 H2]. split; [done|]. eapply outcome_impl; [|exact H2]. intros t'.
      apply targets_of_skip; [|done]. unfold user_target. rewrite Eu. naive_solver.
    + split; [done|]. apply outcome_Err. intros (_ & Hq & _). by apply Hq in Eu.
  - assert (∀ a, ¬ user_target o a) as Hnu by (intros k [? _]; congruence).
    assert ((∀ k, ¬ team_target org o k) →
      coherent deps orgOf ownerOf (resolve_loop q deps ToLower EqualFold c repo org owners t).1 ∧
      outcome (resolve_loop q deps ToLower EqualFold c repo org owners t).2
        (targets_of org (o :: owners) t)) as Hskip.
    { intros Hn. destruct (IH c t Hc) as [H1 H2]. split; [done|]. eapply outcome_impl; [|exact H2].
      intros t'. by apply targets_of_skip. }
    destruct org as [g|]; [|apply Hskip; unfold team_target; naive_solver].
    destruct (EqualFold _ _) eqn:Ef; cbn [negb];
      [|apply Hskip; unfold team_target; naive_solver congruence].
    destruct (GetTeamByOrgAndSlug q _ _) as [team|[|msg]] eqn:Et.
    + destruct (GetTeamRepoAccess q team _) as [role|[|msg]] eqn:Ea.
      * destruct (teamRepoRoleCanReview role) eqn:Er;
          [|apply Hskip; unfold team_target; naive_solver congruence].
        destruct (IH c (MkTargets (UserIDs t) ({[team]} ∪ TeamIDs t)) Hc) as [H1 H2].
        split; [done|]. eapply outcome_impl; [|exact H2]. intros t'. apply targets_of_team; [done|].
        intros k. unfold team_target. split; [naive_solver congruence|]. intros ->. naive_solver.
      * apply Hskip. unfold team_target. naive_solver congruence.
      * split; [done|]. apply outcome_Err. intros (_ & _ & _ & Hq & _). by apply Hq in Ea.
    + apply Hskip. unfold team_target. naive_solver congruence.
    + split; [done|]. apply outcome_Err. intros (_ & _ & Hq & _). by apply Hq in Et.
  - destruct (IH c t Hc) as [H1 H2]. split; [done|]. eapply outcome_impl; [|exact H2]. intros t'.
    apply targets_of_skip; intros ? [? _]; congruence.
Qed.

Lemma ResolveCodeOwnerTargets_spec owners c :
  coherent deps orgOf ownerOf c →
  let r := ResolveCodeOwnerTargets q deps ToLower EqualFold c repo owners in
  coherent deps orgOf ownerOf r.1 ∧
  outcome r.2 (fun t => ∃ org, repo_org org ∧ targets_of org owners (MkTargets ∅ ∅) t).
Proof.
  intros Hc. unfold ResolveCodeOwnerTargets, repo_org. cbv zeta.
  destruct (row_OwnerOrgID repo) as [id|] eqn:Eo.
  - destruct (GetOrgByID q id) as [g|e] eqn:Eg.
    + destruct (resolve_loop_spec (Some g) owners c (MkTargets ∅ ∅) Hc) as [H1 H2].
      split; [done|]. eapply outcome_impl; [|exact H2]. eauto.
    + split; [done|]. apply outcome_Err. intros [Hq _]. by apply (Hq id e).
  - destruct (resolve_loop_spec None owners c (MkTargets ∅ ∅) Hc) as [H1 H2].
    split; [done|]. eapply outcome_impl; [|exact H2]. eauto.
Qed.

(** ** Approval *)

Lemma existsb_approved (l : list Z) :
  existsb (fun m => bool_decide (m ∈ approved)) l = true ↔ ∃ a, a ∈ l ∧ a ∈ approved.
Proof.
  rewrite existsb_exists. setoid_rewrite bool_decide_eq_true. by setoid_rewrite list_elem_of_In.
Qed.

Definition team_approved (team : Z) : Prop :=
  ∃ ms a, ListTeamMembers q team = Ok ms ∧ a ∈ ms ∧ a ∈ approved.

Lemma teams_loop_spec (teams : list Z) :
  outcome (teams_loop q approved teams)
    (fun b => b = true ↔ ∃ k, k ∈ teams ∧ team_approved k).
Proof.
  induction teams as [|k teams IH]; cbn [teams_loop].
  { apply outcome_Ok. split; [done|]. by intros (k & ?%elem_of_nil & _). }
  destruct (ListTeamMembers q k) as [ms|e] eqn:El.
  2: { apply outcome_Err. intros (_ & _ & _ & _ & Hq). by apply Hq in El. }
  pose proof (existsb_approved ms) as Hx. destruct (existsb _ ms).
  - apply outcome_Ok. split; [intros _|done]. destruct (proj1 Hx eq_refl) as (a & ? & ?).
    exists k. split; [by left|]. by exists ms, a.
  - eapply outcome_impl; [|exact IH]. intros b ->. split.
    + intros (k' & ? & ?). exists k'. split; [by right|done].
    + intros (k' & [->|Hk]%elem_of_cons & Ht); [|eauto].
      destruct Ht as (ms' & a & Hms & Ha & Hap). rewrite El in Hms. injection Hms as <-.
      by discriminate (proj2 Hx (ex_intro _ a (conj Ha Hap))).
Qed.

Lemma elem_of_iter (X : gset Z) (a : Z) : a ∈ iter X ↔ a ∈ X.
Proof. by rewrite (iter_perm X), elem_of_elements. Qed.

Lemma targetsHaveApproval_spec (t : CodeOwnerTargets) :
  outcome (targetsHaveApproval q iter t approved)
    (fun b => b = true ↔ (∃ a, a ∈ UserIDs t ∧ a ∈ approved) ∨
       ∃ k, k ∈ TeamIDs t ∧ team_approved k).
Proof.
  unfold targetsHaveApproval. pose proof (existsb_approved (iter (UserIDs t))) as Hu.
  setoid_rewrite elem_of_iter in Hu.
  destruct (existsb _ (iter _)).
  { apply outcome_Ok. split; [|done]. intros _. left. by apply Hu. }
  destruct (bool_decide _ || bool_decide _) eqn:Ee.
  - apply outcome_Ok. split; [done|]. intros [He|(k & Hk & ms & a & _ & _ & Ha)].
    + by discriminate (proj2 Hu He).
    + apply orb_true_iff in Ee. rewrite !bool_decide_eq_true in Ee.
      destruct Ee as [E|E]; apply size_empty_inv in E; set_solver.
  - eapply outcome_impl; [|apply teams_loop_spec]. intros b ->.
    setoid_rewrite elem_of_iter. split; [by right|].
    intros [He|He]; [by discriminate (proj2 Hu He)|done].
Qed.

(** The answer for one owned file. *)
Lemma targets_eligible org owners t :
  repo_org org → targets_of org owners (MkTargets ∅ ∅) t →
  ((∃ a, a ∈ UserIDs t ∧ a ∈ approved) ∨ ∃ k, k ∈ TeamIDs t ∧ team_approved k) ↔
  ∃ o a, o ∈ owners ∧ a ∈ approved ∧ eligible o a.
Proof.
  intros Hr [Hu Hk]. cbn in *. split.
  - intros [(a & [?%elem_of_empty|(o & ? & ?)]%Hu & ?)|
            (k & [?%elem_of_empty|(o & ? & ?)]%Hk & ms & a & ? & ? & ?)]; try done;
      exists o, a; (split_and!; [done..|]); [by left|right]. by exists org, k, ms.
  - intros (o & a & Ho & Ha & [Hut|(org' & k & ms & Hr' & Ht & Hms & Hin)]).
    + left. exists a. split; [|done]. apply Hu. eauto.
    + right. exists k. split; [|by exists ms, a]. apply Hk. right. exists o. split; [done|].
      assert (org' = org) as ->; [|done]. unfold repo_org in Hr, Hr'.
      destruct (row_OwnerOrgID repo); [|congruence].
      destruct Hr as (? & ? & ?), Hr' as (? & ? & ?). congruence.
Qed.

Lemma Empty_spec (t : CodeOwnerTargets) :
  Empty t = true → ∀ a, (a ∉ UserIDs t) ∧ (a ∉ TeamIDs t).
Proof.
  unfold Empty. intros [E1 E2]%andb_true_iff a. apply bool_decide_eq_true in E1, E2.
  apply size_empty_inv in E1, E2. set_solver.
Qed.

Definition missing_ok (f : File) (files missing : list string) : Prop :=
  missing `sublist_of` files ∧
  ∀ file, file ∈ files → (file ∈ missing → ¬ file_ok f file) ∧ (file ∈ missing ∨ file_ok f file).

Lemma missing_ok_skip f file files missing :
  file_ok f file → missing_ok f files missing → missing_ok f (file :: files) missing.
Proof.
  intros Hf [Hs Hm]. split; [by apply sublist_cons|]. intros x Hx. split.
  - intros Hin. apply Hm; [|done]. by eapply elem_of_submseteq, sublist_submseteq.
  - apply elem_of_cons in Hx as [->|Hx]; [by right|]. by apply Hm.
Qed.

Lemma missing_ok_keep f file files missing :
  ¬ file_ok f file → missing_ok f files missing → missing_ok f (file :: files) (file :: missing).
Proof.
  intros Hf [Hs Hm]. split; [by apply sublist_skip|]. intros x Hx. split.
  - intros [->|Hin]%elem_of_cons; [done|]. apply Hm; [|done].
    by eapply elem_of_submseteq, sublist_submseteq.
  - apply elem_of_cons in Hx as [->|Hx]; [left; by left|]. destruct (Hm x Hx) as [_ [?|?]]; [|by right].
    left. by right.
Qed.

Lemma outcome_fmap {E A B} (g : A → B) (r : res E A) (P : B → Prop) :
  outcome r (fun x => P (g x)) → outcome (g <$> r) P.
Proof. intros [H1 H2]. split; destruct r; cbn in *; [|done..]. intros x [= <-]. eauto. Qed.

Lemma files_loop_spec (f : File) (files : list string) (c : requestCache) :
  coherent deps orgOf ownerOf c →
  let r := files_loop q deps iter ToLower EqualFold c f repo approved files in
  coherent deps orgOf ownerOf r.1 ∧ outcome r.2 (missing_ok f files).
Proof.
  revert c. induction files as [|file files IH]; intros c Hc; cbv zeta; cbn [files_loop].
  { split; [done|]. apply outcome_Ok. split; [constructor|]. by intros x ?%elem_of_nil. }
  assert (file_ok f file → let r := files_loop q deps iter ToLower EqualFold c f repo approved files in
    coherent deps orgOf ownerOf r.1 ∧ outcome r.2 (missing_ok f (file :: files))) as Hskip.
  { intros Hf. destruct (IH c Hc) as [H1 H2]. split; [done|]. eapply outcome_impl; [|exact H2].
    intros m. by apply missing_ok_skip. }
  destruct (OwnersFor f file) as [e|] eqn:Eo; [|apply Hskip; unfold file_ok; congruence].
  destruct (decide (Owners e = [])) as [En|En];
    [apply Hskip; intros e' He'; left; congruence|]. clear Hskip.
  destruct (ResolveCodeOwnerTargets_spec (Owners e) c Hc) as [Hc' Ho].
  destruct (ResolveCodeOwnerTargets _ _ _ _ c repo _) as [c' r]. cbn [fst snd] in *.
  destruct r as [t|err].
  2: { split; [done|]. apply outcome_Err. intros Hq. by discriminate (proj2 Ho Hq). }
  destruct Ho as [Ho _]. destruct (Ho t eq_refl) as (org & Hr & Ht).
  assert (file_ok f file ↔ ∃ o a, o ∈ Owners e ∧ a ∈ approved ∧ eligible o a) as Hok.
  { unfold file_ok. rewrite Eo. split; [intros H; by destruct (H e eq_refl)|].
    intros He e' [= <-]. by right. }
  rewrite <-(targets_eligible org (Owners e) t Hr Ht) in Hok.
  destruct (IH c' Hc') as [Hcf Hof].
  destruct (files_loop q deps iter ToLower EqualFold c' f repo approved files) as [c'' rest].
  cbn [fst snd] in *. destruct (Empty t) eqn:Ee.
  - split; [done|]. apply outcome_fmap. eapply outcome_impl; [|exact Hof]. intros m.
    apply missing_ok_keep. pose proof (Empty_spec t Ee) as Hemp. rewrite Hok.
    intros [(a & Ha & _)|(k & Hk & _)]; [exact (proj1 (Hemp a) Ha)|exact (proj2 (Hemp k) Hk)].
  - destruct (targetsHaveApproval_spec t) as [Ha Haq].
    destruct (targetsHaveApproval q iter t approved) as [ok|err].
    2: { split; [done|]. apply outcome_Err. intros Hq. by specialize (Haq Hq). }
    specialize (Ha ok eq_refl). rewrite <-Ha in Hok. split; [done|]. destruct ok.
    + eapply outcome_impl; [|exact Hof]. intros m. apply missing_ok_skip. by apply Hok.
    + apply outcome_fmap. eapply outcome_impl; [|exact Hof]. intros m. apply missing_ok_keep.
      rewrite Hok. done.
Qed.

(** C25: The code owners' review: when a CODEOWNERS file is found, the check says
    yes exactly when every changed file that has owners (by the last line that
    covers it) was approved by an eligible one, and the paths it reports are, in
    order, exactly the files that were not.  An owner is eligible as a named user
    whom the authorization decision lets review, whatever the request cache holds,
    or as a member of a named team of the owning organization with a writing role;
    an owner that resolves to nobody leaves its files missing, and so does a user
    whose second factor or whose role cannot be looked up.  The check answers unless
    one of the other queries fails (quiet). *)
Theorem codeOwnerReviewSatisfied_spec (c : requestCache) (inp : GateInputs) (f : File)
    (files : list string) :
  coherent deps orgOf ownerOf c →
  GitDir inp ≠ "" → BaseOID inp ≠ "" →
  Load ToLower StatPath ReadBlobBytes (GitDir inp) (BaseOID inp) = Ok (Some f) →
  ListPullRequestFiles q (PRIssueID inp) = Ok files →
  let r := (codeOwnerReviewSatisfied q deps iter ToLower EqualFold StatPath ReadBlobBytes
              c inp repo approved).2 in
  (∀ ok missing, r = Ok (ok, missing) →
     (ok = true ↔ ∀ file, file ∈ files → file_ok f file) ∧
     missing `sublist_of` files ∧ ∀ file, file ∈ missing ↔ file ∈ files ∧ ¬ file_ok f file) ∧
  (quiet → is_ok r = true).
Proof.
  intros Hc Hg Hb Hl Hf r. subst r. unfold codeOwnerReviewSatisfied.
  destruct (decide _) as [[?|?]|_]; [done..|]. rewrite Hl, Hf.
  destruct (files_loop_spec f files c Hc) as [_ [Ho Hq]].
  destruct (files_loop _ _ _ _ _ c f repo approved files) as [c' r]. cbn [fst snd] in *. split.
  - destruct r as [m|]; [|done]. intros ok missing [= <- <-]. destruct (Ho m eq_refl) as [Hs Hm].
    assert (∀ file, file ∈ m ↔ file ∈ files ∧ ¬ file_ok f file) as Hiff.
    { intros file. split.
      - intros Hin. assert (file ∈ files) by by eapply elem_of_submseteq, sublist_submseteq.
        split; [done|]. by apply Hm.
      - intros [Hin Hn]. by destruct (Hm file Hin) as [_ [?|?]]. }
    split_and!; [|done..]. rewrite bool_decide_eq_true, length_zero_iff_nil. split.
    + intros -> file Hin. by destruct (Hm file Hin) as [_ [?%elem_of_nil|?]].
    + intros Hall. destruct m as [|x m]; [done|]. destruct (proj1 (Hiff x)) as [Hin Hn]; [by left|].
      destruct Hn. by apply Hall.
  - intros Hqq. specialize (Hq Hqq). by destruct r.
Qed.
End Gate.

(** Bo owns everything, the team [acme/core], whose role is only to read, the Go
    files: Bo's approval covers [b.md] and leaves [a.go] missing. *)
Definition sampleQueries : GateQueries := {|
  GetOrgByID _ := Ok (MkOrg 7 "acme");
  GetUserByUsername n := if decide (n = "bo") then Ok (MkUser 2 "bo" false false) else Err ErrNoRows;
  HasConfirmedUserTOTP _ := Ok true;
  GetTeamByOrgAndSlug _ n := if decide (n = "core") then Ok 5%Z else Err ErrNoRows;
  GetTeamRepoAccess _ _ := Ok "read";
  ListPullRequestFiles _ := Ok ["a.go"; "b.md"];
  ListTeamMembers _ := Ok [2%Z] |}.

Definition sampleCodeowners : string :=
  "* @Bo" +:+ String LF ("*.go @acme/core" +:+ String LF "").

Lemma codeOwnerReviewSatisfied_spec_witness :
  let low := str_map ascii_lower in
  let eqf a b := bool_decide (low a = low b) in
  let stat (_ _ loc : string) : res GitErr EntryKind :=
    if decide (loc = "CODEOWNERS") then Ok EntryBlob else Err ErrPathNotFound in
  let blob (_ _ _ : string) (_ : Z) : res GitErr string := Ok sampleCodeowners in
  let inp := MkInputs 100 "trunk" "abc" "/srv/100.git" 1 in
  let r := (codeOwnerReviewSatisfied sampleQueries sampleDeps elements low eqf stat blob
              WithCache inp sampleRow {[2%Z]}).2 in
  let f := Parse low "CODEOWNERS" sampleCodeowners in
  r = Ok (false, ["a.go"]) ∧
  ¬ file_ok sampleQueries sampleDeps low eqf sampleRow {[2%Z]} f "a.go".
Proof.
  intros low eqf stat blob inp r f.
  assert (r = Ok (false, ["a.go"])) as Hr by (vm_compute; reflexivity).
  assert (Load low stat blob (GitDir inp) (BaseOID inp) = Ok (Some f)) as Hl
    by (vm_compute; reflexivity).
  split; [exact Hr|]. clearbody f.
  destruct (codeOwnerReviewSatisfied_spec sampleQueries sampleDeps elements low eqf stat blob
    (fun _ => 7%Z) (fun _ => 0%Z) sampleRow {[2%Z]} (fun X => Permutation_refl _)
    (conj eq_refl eq_refl) WithCache inp f ["a.go"; "b.md"] (WithCache_coherent _ _ _)
    (fun H => ltac:(discriminate H)) (fun H => ltac:(discriminate H)) Hl eq_refl) as [H _].
  fold r in H. destruct (H false ["a.go"] Hr) as (_ & _ & Hm).
  apply (Hm "a.go"). apply elem_of_cons. by left.
Defined.
