(* ===== verification/Worker.v ===== *)
(** * Worker: the job queue and its workers

    internal/worker: types.go (Backoff), enqueue.go (Enqueue), pool.go (runOne,
    tryClaimAndRun) and the statements of queries/jobs.sql they run.  A statement
    is atomic; time is in nanoseconds and [now] is an argument.  A handler may
    change the queue and a state [St] of its own.  Logging and metrics are left
    out.  [attempts] is an [int4]; it grows by one a claim. *)

From S2P Require Import Prelude.
Local Open Scope Z_scope.

Definition second : Z := 10 ^ 9.
Definition minute : Z := 60 * second.
Definition hour : Z := 60 * minute.

(** ** types.go *)

Definition base : Z := 30 * second.
Definition maxDelay : Z := hour.

(** The doubling loop of Backoff, [n] turns left. *)
Fixpoint backoff_loop (n : nat) (d : Z) : Z :=
  match n with
  | O => d
  | S n => let d := d * 2 in if bool_decide (maxDelay ≤ d) then maxDelay else backoff_loop n d
  end.

(** [jitter] is the product with the random factor, rounded: it is the
    floating-point [time.Duration(float64(d) * (0.8 + 0.4*jitter()))]. *)
Definition Backoff (attempts : Z) (jitter : option (Z → Z)) : Z :=
  let attempts := if bool_decide (attempts < 1) then 1 else attempts in
  let d := backoff_loop (Z.to_nat (attempts - 1)) base in
  let d := if bool_decide (maxDelay < d) then maxDelay else d in
  match jitter with Some f => f d | None => d end.

(** What a handler comes back with; [Poison] wraps ErrPoison, and a panic is
    turned into an error by safeRun. *)
Inductive Outcome := Done | Poison (msg : string) | Failed (msg : string) | Panicked (msg : string).

Inductive RunErr := RunPoison (msg : string) | RunError (msg : string).

Definition safeRun (o : Outcome) : option RunErr :=
  match o with
  | Done => None
  | Poison m => Some (RunPoison m)
  | Failed m => Some (RunError m)
  | Panicked m => Some (RunError ("worker: handler panic: " +:+ m))
  end.

(** ** The jobs table (queries/jobs.sql) *)

Record Job := MkJob {
  ID : Z; Kind : string; Payload : string; RunAt : Z; Attempts : Z; MaxAttempts : Z;
  LockedBy : option string; LockedAt : option Z; LastError : option string;
  CompletedAt : option Z; FailedAt : option Z
}.

Record Queue := MkQueue { jobs : gmap Z Job; next_id : Z }.

Definition emptyQueue : Queue := MkQueue ∅ 1.

Definition EnqueueJob (kind payload : string) (run_at : option Z) (max : option Z) (now : Z)
    (q : Queue) : Job * Queue :=
  let j := MkJob (next_id q) kind payload (default now run_at) 0 (default 5 max) None None None
             None None in
  (j, MkQueue (<[next_id q := j]> (jobs q)) (next_id q + 1)).

Definition update_job (id : Z) (f : Job → Job) (q : Queue) : Queue :=
  MkQueue (alter f id (jobs q)) (next_id q).

Definition lockWindow : Z := 5 * minute.

(** The WHERE clause of ClaimJob; a comparison with NULL is not true. *)
Definition claimable (kind : string) (now : Z) (j : Job) : bool :=
  bool_decide (Kind j = kind) && bool_decide (CompletedAt j = None) &&
  bool_decide (FailedAt j = None) && bool_decide (RunAt j ≤ now) &&
  (bool_decide (LockedBy j = None) ||
   match LockedAt j with Some t => bool_decide (t < now - lockWindow) | None => false end).

(** ORDER BY run_at, id. *)
Definition older (a b : Job) : bool :=
  bool_decide (RunAt a < RunAt b) ||
  (bool_decide (RunAt a = RunAt b) && bool_decide (ID a < ID b)).

Definition oldest (l : list Job) : option Job :=
  foldr (fun j best => match best with
                       | Some b => if older b j then Some b else Some j
                       | None => Some j
                       end) None l.

Definition candidates (kind : string) (now : Z) (q : Queue) : list Job :=
  filter (fun j => claimable kind now j = true) (map_to_list (jobs q)).*2.

Definition lock (by_ : string) (now : Z) (j : Job) : Job :=
  MkJob (ID j) (Kind j) (Payload j) (RunAt j) (Attempts j + 1) (MaxAttempts j) (Some by_)
    (Some now) (LastError j) (CompletedAt j) (FailedAt j).

Definition ClaimJob (kind by_ : string) (now : Z) (q : Queue) : option (Job * Queue) :=
  match oldest (candidates kind now q) with
  | None => None
  | Some j => let j' := lock by_ now j in Some (j', update_job (ID j) (fun _ => j') q)
  end.

Definition MarkJobCompleted (id now : Z) : Queue → Queue :=
  update_job id (fun j =>
    MkJob (ID j) (Kind j) (Payload j) (RunAt j) (Attempts j) (MaxAttempts j) None None
      (LastError j) (Some now) (FailedAt j)).

Definition RescheduleJob (id : Z) (err : string) (run_at : Z) : Queue → Queue :=
  update_job id (fun j =>
    MkJob (ID j) (Kind j) (Payload j) run_at (Attempts j) (MaxAttempts j) None None
      (Some err) (CompletedAt j) (FailedAt j)).

Definition MarkJobFailed (id : Z) (err : string) (now : Z) : Queue → Queue :=
  update_job id (fun j =>
    MkJob (ID j) (Kind j) (Payload j) (RunAt j) (Attempts j) (MaxAttempts j) None None
      (Some err) (CompletedAt j) (Some now)).

Definition purge (f : Job → option Z) (cutoff : Z) (q : Queue) : Queue :=
  MkQueue (filter (fun kv => bool_decide (default cutoff (f kv.2) < cutoff) = false) (jobs q))
    (next_id q).

Definition PurgeCompletedJobs : Z → Queue → Queue := purge CompletedAt.
Definition PurgeFailedJobs : Z → Queue → Queue := purge FailedAt.

(** ** The queue inspector of site administrators (web/handlers/admin/jobs.go)

    Neither statement asks for the state of the job. *)

Definition AdminRetryJob (id now : Z) : Queue → Queue :=
  update_job id (fun j =>
    MkJob (ID j) (Kind j) (Payload j) now 0 (MaxAttempts j) None None None None None).

Definition AdminDiscardJob (id now : Z) : Queue → Queue :=
  update_job id (fun j =>
    MkJob (ID j) (Kind j) (Payload j) (RunAt j) (Attempts j) (MaxAttempts j) (LockedBy j) (LockedAt j)
      (Some "discarded by site admin") (CompletedAt j) (Some now)).

(** [loadJob] of an id already parsed. *)
Definition loadJob (id : Z) (q : Queue) : option Job := if bool_decide (id ≤ 0) then None else jobs q !! id.

Definition jobRetry (id now : Z) (q : Queue) : Queue :=
  match loadJob id q with Some j => AdminRetryJob (ID j) now q | None => q end.

Definition jobDiscard (id now : Z) (q : Queue) : Queue :=
  match loadJob id q with Some j => AdminDiscardJob (ID j) now q | None => q end.

(** ** enqueue.go *)

Record EnqueueOptions := MkEnqueueOptions { OptRunAt : option Z; OptMaxAttempts : Z }.

(** [Enqueue] of a payload already marshalled. *)
Definition Enqueue (kind payload : string) (opts : EnqueueOptions) (now : Z) (q : Queue)
  : Z * Queue :=
  let '(j, q) := EnqueueJob kind payload (OptRunAt opts)
                   (if bool_decide (0 < OptMaxAttempts opts) then Some (OptMaxAttempts opts)
                    else None) now q in
  (ID j, q).

(** ** pool.go *)

(** The last part of runOne: the outcome of the claimed [job] is recorded at
    [now], when the writing statement succeeds; its error is dropped by the code. *)
Definition record (job : Job) (runErr : option RunErr) (now : Z) (jitter : Z → Z) (q : Queue)
  : Queue :=
  match runErr with
  | None => MarkJobCompleted (ID job) now q
  | Some (RunPoison m) => MarkJobFailed (ID job) m now q
  | Some (RunError m) =>
      if bool_decide (MaxAttempts job ≤ Attempts job) then MarkJobFailed (ID job) m now q
      else RescheduleJob (ID job) m (now + Backoff (Attempts job) (Some jitter)) q
  end.

Section Pool.
  Context {St : Type}.

Definition Handler : Type := string → Z → Queue * St → (Queue * St) * Outcome.

(** The registered handlers. *)
Definition handlers : Type := gmap string Handler.

Definition Register (kind : string) (h : Handler) (hs : handlers) : handlers := <[kind := h]> hs.

(** [runOne]: claims at [t0], runs the handler and records at [t1]. *)
Definition runOne (hs : handlers) (instance kind : string) (t0 t1 : Z) (jitter : Z → Z)
    (s : Queue * St) : bool * (Queue * St) :=
  match ClaimJob kind instance t0 s.1 with
  | None => (false, s)
  | Some (job, q) =>
      match hs !! Kind job with
      | None => (true, (MarkJobFailed (ID job) "no handler registered" t1 q, s.2))
      | Some h =>
          let '(s, o) := h (Payload job) t0 (q, s.2) in
          (true, (record job (safeRun o) t1 jitter s.1, s.2))
      end
  end.

(** [tryClaimAndRun] over the kinds in the order the map gives them. *)
Fixpoint tryClaimAndRun (hs : handlers) (instance : string) (kinds : list string) (t0 t1 : Z)
    (jitter : Z → Z) (s : Queue * St) : bool * (Queue * St) :=
  match kinds with
  | [] => (false, s)
  | kind :: kinds =>
      let '(ran, s) := runOne hs instance kind t0 t1 jitter s in
      let '(any, s) := tryClaimAndRun hs instance kinds t0 t1 jitter s in
      (ran || any, s)
  end.

End Pool.

(** ** Several workers

    What one worker does between the claim and the record takes time; [inflight]
    has the row each busy worker claimed.  A run goes unrecorded when the process dies or when the
    write of the record fails, as it does for every job that runs while the pool is stopped: the
    record is written under the context that was cancelled.  An administrator may re-arm or discard any job at any time. *)
Record System := MkSystem { queue : Queue; clock : Z; inflight : gmap Z Job }.

(** What the rounded random factor keeps to: a factor in [[0.8, 1.2]], off by at
    most one nanosecond. *)
Definition jitter_ok (f : Z → Z) : Prop := ∀ d, 0 ≤ d → 4 * d - 5 ≤ 5 * f d ≤ 6 * d + 5.

Inductive step : System → System → Prop :=
| step_tick s d : 0 ≤ d → step s (MkSystem (queue s) (clock s + d) (inflight s))
| step_enqueue s kind payload opts :
    step s (MkSystem (Enqueue kind payload opts (clock s) (queue s)).2 (clock s) (inflight s))
| step_claim s w kind by_ j q :
    inflight s !! w = None →
    ClaimJob kind by_ (clock s) (queue s) = Some (j, q) →
    step s (MkSystem q (clock s) (<[w := j]> (inflight s)))
| step_record s w j o jitter :
    inflight s !! w = Some j → jitter_ok jitter →
    step s (MkSystem (record j (safeRun o) (clock s) jitter (queue s)) (clock s)
              (delete w (inflight s)))
| step_unrecorded s w : step s (MkSystem (queue s) (clock s) (delete w (inflight s)))
| step_retry s id : step s (MkSystem (jobRetry id (clock s) (queue s)) (clock s) (inflight s))
| step_discard s id : step s (MkSystem (jobDiscard id (clock s) (queue s)) (clock s) (inflight s))
| step_purge s cutoff :
    step s (MkSystem (PurgeFailedJobs cutoff (PurgeCompletedJobs cutoff (queue s))) (clock s)
              (inflight s)).

Definition start : System := MkSystem emptyQueue 0 ∅.

Definition reachable : System → Prop := rtc step start.
