(* ===== verification/WorkerFacts.v ===== *)
(** * WorkerFacts: retries, exclusion and progress of the job queue *)

From S2P Require Import Prelude Worker.
Local Open Scope Z_scope.

(** ** The retry delay *)

Lemma backoff_loop_spec (n : nat) (d : Z) :
  0 < d ≤ maxDelay → backoff_loop n d = Z.min maxDelay (d * 2 ^ Z.of_nat n).
Proof.
  revert d. induction n as [|n IH]; intros d Hd; cbn [backoff_loop].
  - rewrite Z.pow_0_r. lia.
  - rewrite Nat2Z.inj_succ, Z.pow_succ_r by lia.
    assert (0 < 2 ^ Z.of_nat n) by (apply Z.pow_pos_nonneg; lia).
    case_bool_decide as Hc; [nia|]. rewrite IH by lia. f_equal. lia.
Qed.

Lemma Backoff_closed (n : Z) :
  Backoff n None = Z.min maxDelay (base * 2 ^ (Z.max 1 n - 1)).
Proof.
  assert (0 < base ≤ maxDelay) as Hb by (split; vm_compute; congruence).
  unfold Backoff. cbv zeta. rewrite backoff_loop_spec by done.
  case_bool_decide; case_bool_decide; rewrite ?Z2Nat.id in * by lia;
    rewrite ?Z.max_l, ?Z.max_r in * by lia; lia.
Qed.

Lemma durations : second = 1000000000 ∧ minute = 60000000000 ∧ hour = 3600000000000.
Proof. by vm_compute. Qed.

(** The delay before a retry, without the random factor, is 30 s doubled at
    every further attempt and cut at one hour: at the [n]-th failed attempt
    [30 s * 2^(n-1)], so it never decreases from one attempt to the next, and
    neither it nor the arithmetic on the way overflows.  With the factor it stays
    between 24 s and 72 minutes: the cap comes first, and one hour is exceeded. *)
Theorem Backoff_bounds (n m : Z) (f : Z → Z) :
  jitter_ok f →
  Backoff n None = Z.min hour (30 * second * 2 ^ (Z.max 1 n - 1)) ∧
  (n ≤ m → Backoff n None ≤ Backoff m None) ∧
  30 * second ≤ Backoff n None ≤ hour ∧ Backoff n None * 2 < 2 ^ 63 ∧
  24 * second - 1 ≤ Backoff n (Some f) ≤ 72 * minute + 1.
Proof.
  intros Hf. assert (∀ k, 0 < 2 ^ (Z.max 1 k - 1)) as Hp by (intros k; apply Z.pow_pos_nonneg; lia).
  destruct durations as (Hs & Hm & Hh). assert (2 ^ 63 = 9223372036854775808) as H63 by done.
  assert (30 * second ≤ Backoff n None ≤ hour) as Hb.
  { rewrite Backoff_closed. specialize (Hp n). unfold maxDelay, base. nia. }
  split_and!; [by rewrite Backoff_closed| |lia..| |].
  - intros Hnm. rewrite !Backoff_closed.
    assert (2 ^ (Z.max 1 n - 1) ≤ 2 ^ (Z.max 1 m - 1)) by (apply Z.pow_le_mono_r; lia).
    unfold base. nia.
  - change (Backoff n (Some f)) with (f (Backoff n None)).
    destruct (Hf (Backoff n None)) as [H1 H2]; lia.
  - change (Backoff n (Some f)) with (f (Backoff n None)).
    destruct (Hf (Backoff n None)) as [H1 H2]; lia.
Qed.

Lemma Backoff_bounds_witness :
  let f d := d * 119 / 100 in
  Backoff 8 (Some f) = 4284 * second ∧ hour < Backoff 8 (Some f) ≤ 72 * minute + 1.
Proof.
  intros f. assert (jitter_ok f) as Hf.
  { intros d Hd. unfold f. pose proof (Z.div_mod (d * 119) 100 ltac:(lia)).
    pose proof (Z.mod_pos_bound (d * 119) 100 ltac:(lia)). lia. }
  destruct (Backoff_bounds 8 8 f Hf) as (_ & _ & _ & _ & _ & H).
  split; [vm_compute; reflexivity|split; [vm_compute; reflexivity|exact H]].
Defined.

Lemma Backoff_pos (n : Z) (f : Z → Z) : jitter_ok f → 0 < Backoff n (Some f).
Proof.
  intros Hf. change (Backoff n (Some f)) with (f (Backoff n None)).
  destruct durations as (Hs & Hm & Hh). rewrite Backoff_closed.
  assert (0 < 2 ^ (Z.max 1 n - 1)) by (apply Z.pow_pos_nonneg; lia).
  destruct (Hf (Z.min maxDelay (base * 2 ^ (Z.max 1 n - 1)))); unfold maxDelay, base in *; nia.
Qed.

(** ** Claiming *)

Lemma older_spec (a b : Job) :
  older a b = true ↔ RunAt a < RunAt b ∨ (RunAt a = RunAt b ∧ ID a < ID b).
Proof. unfold older. rewrite orb_true_iff, andb_true_iff, !bool_decide_eq_true. done. Qed.

Lemma oldest_spec (l : list Job) :
  match oldest l with
  | Some j => j ∈ l ∧ ∀ i, i ∈ l → older i j = false
  | None => l = []
  end.
Proof.
  unfold oldest. induction l as [|x l IH]; [done|]. cbn [foldr].
  destruct (foldr _ None l) as [b|].
  - destruct IH as [Hb Hmin]. destruct (older b x) eqn:E.
    + split; [by right|]. intros i [->|Hi]%elem_of_cons; [|auto].
      rewrite <-not_true_iff_false. rewrite older_spec in *. lia.
    + split; [by left|]. intros i [->|Hi]%elem_of_cons.
      * rewrite <-not_true_iff_false, older_spec. lia.
      * specialize (Hmin i Hi). rewrite <-not_true_iff_false in *. rewrite !older_spec in *. lia.
  - subst l. split; [by left|]. intros i [->|?%elem_of_nil]%elem_of_cons; [|done].
    rewrite <-not_true_iff_false, older_spec. lia.
Qed.

(** Every row is filed under its id. *)
Definition keyed (q : Queue) : Prop := ∀ i j, jobs q !! i = Some j → ID j = i ∧ i < next_id q.

Lemma elem_of_candidates (kind : string) (now : Z) (q : Queue) (j : Job) :
  keyed q → j ∈ candidates kind now q ↔ jobs q !! ID j = Some j ∧ claimable kind now j = true.
Proof.
  intros Hk. unfold candidates. rewrite list_elem_of_filter, list_elem_of_fmap. split.
  - intros [Hc ([i j'] & -> & Hi%elem_of_map_to_list)]. cbn in *. by destruct (Hk _ _ Hi) as [-> _].
  - intros [Hj Hc]. split; [done|]. exists (ID j, j). split; [done|]. by apply elem_of_map_to_list.
Qed.

Lemma claimable_spec (kind : string) (now : Z) (j : Job) :
  claimable kind now j = true ↔
  Kind j = kind ∧ CompletedAt j = None ∧ FailedAt j = None ∧ RunAt j ≤ now ∧
  (LockedBy j = None ∨ ∃ t, LockedAt j = Some t ∧ t < now - lockWindow).
Proof.
  unfold claimable. rewrite !andb_true_iff, orb_true_iff, !bool_decide_eq_true.
  destruct (LockedAt j); rewrite ?bool_decide_eq_true; naive_solver.
Qed.

Lemma update_job_insert (id : Z) (f : Job → Job) (q : Queue) (j : Job) :
  jobs q !! id = Some j → update_job id f q = MkQueue (<[id := f j]> (jobs q)) (next_id q).
Proof.
  intros Hj. unfold update_job. f_equal. apply map_eq. intros k.
  destruct (decide (id = k)) as [<-|Hk].
  - by rewrite lookup_alter_eq, lookup_insert_eq, Hj.
  - by rewrite lookup_alter_ne, lookup_insert_ne.
Qed.

(** [ClaimJob] takes the oldest runnable job, locks it, and leaves the others. *)
Lemma ClaimJob_spec (kind by_ : string) (now : Z) (q : Queue) :
  keyed q →
  match ClaimJob kind by_ now q with
  | Some (j, q') => ∃ j0, j = lock by_ now j0 ∧ jobs q !! ID j0 = Some j0 ∧
      claimable kind now j0 = true ∧
      (∀ i, jobs q !! ID i = Some i → claimable kind now i = true → older i j0 = false) ∧
      q' = MkQueue (<[ID j0 := j]> (jobs q)) (next_id q)
  | None => ∀ i, jobs q !! ID i = Some i → claimable kind now i = false
  end.
Proof.
  intros Hk. unfold ClaimJob. pose proof (oldest_spec (candidates kind now q)) as Ho.
  destruct (oldest _) as [j0|].
  - destruct Ho as [Hj%elem_of_candidates Hmin]; [|done]. destruct Hj as [Hj Hc]. exists j0.
    split_and!; [done..| |].
    + intros i Hi Hci. apply Hmin. by apply elem_of_candidates.
    + by rewrite (update_job_insert _ _ _ j0).
  - intros i Hi. apply not_true_iff_false. intros Hc.
    assert (i ∈ candidates kind now q) as Hin by by apply elem_of_candidates.
    rewrite Ho in Hin. by apply elem_of_nil in Hin.
Qed.

(** ** What a record does to its row *)

Definition settled (j : Job) : bool :=
  bool_decide (is_Some (CompletedAt j)) || bool_decide (is_Some (FailedAt j)).

Lemma settled_not_claimable (kind : string) (now : Z) (j : Job) :
  settled j = true → claimable kind now j = false.
Proof.
  intros Hs. apply not_true_iff_false. rewrite claimable_spec. intros (_ & Hc & Hf & _).
  unfold settled in Hs. rewrite Hc, Hf in Hs. done.
Qed.

Definition is_poison (e : RunErr) : bool := match e with RunPoison _ => true | _ => false end.

(** The row after the record of [job] at [now]. *)
Definition recorded (job : Job) (e : option RunErr) (now : Z) (jitter : Z → Z) (j : Job) : Job :=
  match e with
  | None => MkJob (ID j) (Kind j) (Payload j) (RunAt j) (Attempts j) (MaxAttempts j) None None
              (LastError j) (Some now) (FailedAt j)
  | Some e =>
      let m := match e with RunPoison m => m | RunError m => m end in
      if is_poison e || bool_decide (MaxAttempts job ≤ Attempts job) then
        MkJob (ID j) (Kind j) (Payload j) (RunAt j) (Attempts j) (MaxAttempts j) None None
          (Some m) (CompletedAt j) (Some now)
      else
        MkJob (ID j) (Kind j) (Payload j) (now + Backoff (Attempts job) (Some jitter)) (Attempts j)
          (MaxAttempts j) None None (Some m) (CompletedAt j) (FailedAt j)
  end.

Lemma record_eq (job : Job) (e : option RunErr) (now : Z) (jitter : Z → Z) (q : Queue) (j : Job) :
  jobs q !! ID job = Some j →
  record job e now jitter q =
    MkQueue (<[ID job := recorded job e now jitter j]> (jobs q)) (next_id q).
Proof.
  intros Hj. unfold record, recorded, MarkJobCompleted, MarkJobFailed, RescheduleJob.
  destruct e as [[m|m]|]; cbn [is_poison orb]; try case_bool_decide;
    by rewrite (update_job_insert _ _ _ j).
Qed.

Lemma recorded_fields job e now jitter j :
  let j' := recorded job e now jitter j in
  ID j' = ID j ∧ Kind j' = Kind j ∧ Attempts j' = Attempts j ∧ MaxAttempts j' = MaxAttempts j ∧
  LockedBy j' = None.
Proof. unfold recorded. destruct e as [[m|m]|]; cbn; try case_bool_decide; try done; by destruct (_ || _). Qed.

(** It is settled, or due strictly after the record. *)
Lemma recorded_later job e now jitter j :
  jitter_ok jitter → settled (recorded job e now jitter j) = true ∨ now < RunAt (recorded job e now jitter j).
Proof.
  intros Hj. unfold recorded, settled. destruct e as [e|]; [|left; by rewrite bool_decide_true by eauto].
  cbv zeta. destruct (is_poison e || _).
  - left. cbn [CompletedAt FailedAt]. rewrite (bool_decide_true (is_Some (Some now))) by eauto.
    apply orb_true_r.
  - right. cbn [RunAt]. pose proof (Backoff_pos (Attempts job) jitter Hj). lia.
Qed.

(** ** Waiting *)

Lemma claimable_waiting (kind : string) (now : Z) (j : Job) :
  Kind j = kind → settled j = false → LockedBy j = None → RunAt j ≤ now →
  claimable kind now j = true.
Proof.
  unfold settled. rewrite orb_false_iff, !bool_decide_eq_false, <-!eq_None_not_Some.
  intros ? [? ?] ? ?. apply claimable_spec. split_and!; auto.
Qed.

Lemma claimable_settled (kind : string) (now : Z) (j : Job) :
  claimable kind now j = true → Kind j = kind ∧ settled j = false.
Proof.
  rewrite claimable_spec. intros (? & Hc & Hf & _). split; [done|]. unfold settled.
  by rewrite Hc, Hf.
Qed.

(** ** Exclusion *)

(** No claim is older than the lock window. *)
Definition timely (s : System) : Prop :=
  ∀ w j t, inflight s !! w = Some j → LockedAt j = Some t → clock s ≤ t + lockWindow.

Definition timely_step (s s' : System) : Prop := step s s' ∧ timely s'.

(** An administrator re-arms or discards a job that a worker runs. *)
Definition meddles (s s' : System) : Prop :=
  ∃ w j, inflight s !! w = Some j ∧
    (s' = MkSystem (jobRetry (ID j) (clock s) (queue s)) (clock s) (inflight s) ∨
     s' = MkSystem (jobDiscard (ID j) (clock s) (queue s)) (clock s) (inflight s)).

Definition undisturbed_step (s s' : System) : Prop := timely_step s s' ∧ ¬ meddles s s'.

Record exclusive (s : System) : Prop := {
  ex_keyed : keyed (queue s);
  ex_row w j : inflight s !! w = Some j → jobs (queue s) !! ID j = Some j ∧ settled j = false ∧
    LockedBy j ≠ None ∧ is_Some (LockedAt j);
  ex_distinct w1 w2 j1 j2 : inflight s !! w1 = Some j1 → inflight s !! w2 = Some j2 →
    ID j1 = ID j2 → w1 = w2
}.

(** A row that is in flight in good time cannot be claimed. *)
Lemma inflight_not_claimable (s : System) (w : Z) (j : Job) (kind : string) :
  timely s → exclusive s → inflight s !! w = Some j → claimable kind (clock s) j = false.
Proof.
  intros Ht Hx Hw. destruct (ex_row _ Hx _ _ Hw) as (_ & _ & Hl & [t Hlt]).
  apply not_true_iff_false. rewrite claimable_spec. intros (_ & _ & _ & _ & [?|(t' & Ht' & Hold)]); [done|].
  specialize (Ht _ _ _ Hw Hlt). assert (t' = t) by congruence. lia.
Qed.

Lemma Enqueue_queue kind payload opts now q :
  ∃ j, (Enqueue kind payload opts now q).2 =
    MkQueue (<[next_id q := j]> (jobs q)) (next_id q + 1) ∧
    ID j = next_id q ∧ settled j = false ∧ LockedBy j = None ∧ Attempts j = 0 ∧ 0 < MaxAttempts j.
Proof.
  unfold Enqueue, EnqueueJob. cbn [snd]. eexists. split; [done|]. cbn. split_and!; [done..|].
  case_bool_decide; cbn; lia.
Qed.

Lemma keyed_insert q j i :
  keyed q → (ID j = i ∧ i < next_id q) → keyed (MkQueue (<[i := j]> (jobs q)) (next_id q)).
Proof.
  intros Hk [Hid Hi] i' j' Hj. cbn in Hj |- *.
  apply lookup_insert_Some in Hj as [[<- <-]|[_ Hj]]; [done|by apply Hk].
Qed.

Lemma purge_lookup f cutoff q i j :
  jobs (purge f cutoff q) !! i = Some j ↔ jobs q !! i = Some j ∧ (default cutoff (f j) < cutoff → False).
Proof.
  unfold purge. cbn [jobs]. rewrite map_lookup_filter_Some. cbn [snd]. rewrite bool_decide_eq_false.
  done.
Qed.

Lemma purge_unsettled f cutoff q i j :
  f j = None → jobs q !! i = Some j → jobs (purge f cutoff q) !! i = Some j.
Proof. intros Hf Hj. apply purge_lookup. rewrite Hf. cbn. split; [done|lia]. Qed.

Lemma exclusive_start : exclusive start.
Proof.
  split; cbn; [intros i j H|intros w j H|intros w1 w2 j1 j2 H]; cbn in H;
    by rewrite lookup_empty in H.
Qed.

Lemma exclusive_claim s w kind by_ j q :
  timely s → exclusive s → inflight s !! w = None →
  ClaimJob kind by_ (clock s) (queue s) = Some (j, q) →
  exclusive (MkSystem q (clock s) (<[w := j]> (inflight s))).
Proof.
  intros Ht Hx Hw Hc. pose proof (ClaimJob_spec kind by_ (clock s) _ (ex_keyed _ Hx)) as Hs.
  rewrite Hc in Hs. destruct Hs as (j0 & -> & Hj0 & Hcl & _ & ->).
  assert (∀ w' j', inflight s !! w' = Some j' → ID j' ≠ ID j0) as Hne.
  { intros w' j' Hw' Hid. destruct (ex_row _ Hx _ _ Hw') as (Hrow & _).
    rewrite Hid, Hj0 in Hrow. injection Hrow as ->.
    by rewrite (inflight_not_claimable s w' j' kind Ht Hx Hw') in Hcl. }
  destruct (ex_keyed _ Hx _ _ Hj0) as [_ Hlt]. split.
  - apply keyed_insert; [apply Hx|done].
  - cbn [inflight queue jobs]. intros w' j' Hw'.
    apply lookup_insert_Some in Hw' as [[<- <-]|[_ Hw']].
    + change (ID (lock by_ (clock s) j0)) with (ID j0). rewrite lookup_insert_eq. split_and!; [done| |done|by eexists].
      by apply (claimable_settled kind (clock s) j0).
    + rewrite lookup_insert_ne by (intros E; by apply (Hne _ _ Hw')). by apply (ex_row _ Hx w').
  - cbn [inflight]. intros w1 w2 j1 j2 H1 H2 Hid.
    apply lookup_insert_Some in H1 as [[<- <-]|[? H1]];
      apply lookup_insert_Some in H2 as [[<- <-]|[? H2]]; [done|..].
    + by destruct (Hne _ _ H2).
    + by destruct (Hne _ _ H1).
    + by apply (ex_distinct _ Hx w1 w2 j1 j2).
Qed.

Lemma exclusive_record s w j e jitter :
  exclusive s → inflight s !! w = Some j →
  exclusive (MkSystem (record j e (clock s) jitter (queue s)) (clock s) (delete w (inflight s))).
Proof.
  intros Hx Hw. destruct (ex_row _ Hx _ _ Hw) as (Hrow & _).
  rewrite (record_eq _ _ _ _ _ j) by done. destruct (ex_keyed _ Hx _ _ Hrow) as [_ Hlt]. split.
  - apply keyed_insert; [apply Hx|]. split; [|done]. by destruct (recorded_fields j e (clock s) jitter j).
  - cbn [inflight queue jobs]. intros w' j' [Hne Hw']%lookup_delete_Some.
    rewrite lookup_insert_ne; [by apply (ex_row _ Hx w')|].
    intros Hid. by apply Hne, (ex_distinct _ Hx w w' j j').
  - cbn [inflight]. intros w1 w2 j1 j2 [_ H1]%lookup_delete_Some [_ H2]%lookup_delete_Some.
    by apply (ex_distinct _ Hx).
Qed.

Lemma exclusive_shrink s q fl :
  exclusive s → keyed q → fl ⊆ inflight s →
  (∀ i j, jobs (queue s) !! i = Some j → settled j = false → jobs q !! i = Some j) →
  exclusive (MkSystem q (clock s) fl).
Proof.
  intros Hx Hk Hsub Hq. split; cbn [inflight queue]; [done| |].
  - intros w j Hw. destruct (ex_row _ Hx w j (lookup_weaken _ _ _ _ Hw Hsub)) as (? & ? & ?).
    split; [|done]. by apply Hq.
  - intros w1 w2 j1 j2 H1 H2.
    by apply (ex_distinct _ Hx w1 w2 j1 j2); eapply lookup_weaken.
Qed.

Lemma settled_false (j : Job) : settled j = false → CompletedAt j = None ∧ FailedAt j = None.
Proof. unfold settled. by rewrite orb_false_iff, !bool_decide_eq_false, <-!eq_None_not_Some. Qed.

(** A row that no worker runs is replaced. *)
Lemma exclusive_touch s id x x' :
  exclusive s → jobs (queue s) !! id = Some x → ID x' = id → (∀ w j, inflight s !! w = Some j → ID j ≠ id) →
  exclusive (MkSystem (MkQueue (<[id := x']> (jobs (queue s))) (next_id (queue s))) (clock s) (inflight s)).
Proof.
  intros Hx Hid Hid' Hfree. destruct (ex_keyed _ Hx _ _ Hid) as [_ Hlt]. split.
  - by apply keyed_insert; [apply Hx|].
  - cbn [inflight queue jobs]. intros w j Hw. rewrite lookup_insert_ne by (intros E; by apply (Hfree w j)). by apply (ex_row _ Hx w).
  - apply (ex_distinct _ Hx).
Qed.

(** What an administrator makes of a row. *)
Definition rearmed (now : Z) (j : Job) : Job := MkJob (ID j) (Kind j) (Payload j) now 0 (MaxAttempts j) None None None None None.
Definition discarded (now : Z) (j : Job) : Job :=
  MkJob (ID j) (Kind j) (Payload j) (RunAt j) (Attempts j) (MaxAttempts j) (LockedBy j) (LockedAt j)
    (Some "discarded by site admin") (CompletedAt j) (Some now).

Lemma discarded_settled now j : settled (discarded now j) = true.
Proof. unfold settled, discarded. cbn. by rewrite orb_true_r. Qed.

Lemma jobRetry_queue id now q :
  keyed q → jobRetry id now q = q ∨ ∃ x, jobs q !! id = Some x ∧ jobRetry id now q = MkQueue (<[id := rearmed now x]> (jobs q)) (next_id q).
Proof.
  intros Hk. unfold jobRetry, loadJob. case_bool_decide; [by left|]. destruct (jobs q !! id) as [x|] eqn:E; [right|by left].
  exists x. split; [done|]. destruct (Hk _ _ E) as [Hid _]. unfold AdminRetryJob. by rewrite Hid, (update_job_insert _ _ _ x).
Qed.

Lemma jobDiscard_queue id now q :
  keyed q → jobDiscard id now q = q ∨
    ∃ x, jobs q !! id = Some x ∧ jobDiscard id now q = MkQueue (<[id := discarded now x]> (jobs q)) (next_id q).
Proof.
  intros Hk. unfold jobDiscard, loadJob. case_bool_decide; [by left|]. destruct (jobs q !! id) as [x|] eqn:E; [right|by left].
  exists x. split; [done|]. destruct (Hk _ _ E) as [Hid _]. unfold AdminDiscardJob. by rewrite Hid, (update_job_insert _ _ _ x).
Qed.

(** Either way: nothing, or a row that no worker runs is re-armed or settled. *)
Lemma admin_step s s' id :
  exclusive s → ¬ meddles s s' →
  s' = MkSystem (jobRetry id (clock s) (queue s)) (clock s) (inflight s) ∨
  s' = MkSystem (jobDiscard id (clock s) (queue s)) (clock s) (inflight s) →
  s' = s ∨ ∃ x x', jobs (queue s) !! id = Some x ∧ (x' = rearmed (clock s) x ∨ x' = discarded (clock s) x) ∧
    (∀ w j, inflight s !! w = Some j → ID j ≠ id) ∧
    s' = MkSystem (MkQueue (<[id := x']> (jobs (queue s))) (next_id (queue s))) (clock s) (inflight s).
Proof.
  intros Hx Hm Hs. pose proof (ex_keyed _ Hx) as Hk.
  assert (∀ w j, inflight s !! w = Some j → ID j ≠ id) as Hfree.
  { intros w j Hw <-. destruct Hm. by exists w, j. }
  destruct s as [q c fl]. cbn [queue clock inflight] in *. destruct Hs as [->| ->].
  - destruct (jobRetry_queue id c q Hk) as [->|(x & Hid & ->)]; [by left|]. right. exists x, (rearmed c x). eauto.
  - destruct (jobDiscard_queue id c q Hk) as [->|(x & Hid & ->)]; [by left|]. right. exists x, (discarded c x). eauto.
Qed.

Lemma exclusive_admin s s' id :
  exclusive s → ¬ meddles s s' →
  s' = MkSystem (jobRetry id (clock s) (queue s)) (clock s) (inflight s) ∨
  s' = MkSystem (jobDiscard id (clock s) (queue s)) (clock s) (inflight s) → exclusive s'.
Proof.
  intros Hx Hm Hs. destruct (admin_step s s' id Hx Hm Hs) as [->|(x & x' & Hid & Hx' & Hfree & ->)]; [done|].
  apply (exclusive_touch s id x x'); [done..| |done]. destruct (ex_keyed _ Hx _ _ Hid) as [<- _]. by destruct Hx' as [->| ->].
Qed.

Lemma exclusive_step s s' : timely s → exclusive s → step s s' → ¬ meddles s s' → exclusive s'.
Proof.
  intros Ht Hx Hs Hm. inversion Hs; subst.
  - split; apply Hx.
  - destruct (Enqueue_queue kind payload opts (clock s) (queue s)) as (j & -> & Hid & _).
    apply exclusive_shrink; [done| |done|].
    + intros i x Hx'. cbn in *. apply lookup_insert_Some in Hx' as [[<- <-]|[_ Hx']]; [lia|].
      destruct (ex_keyed _ Hx _ _ Hx'). lia.
    + intros i x Hi _. cbn. rewrite lookup_insert_ne; [done|].
      destruct (ex_keyed _ Hx _ _ Hi). lia.
  - by eapply exclusive_claim.
  - by apply exclusive_record.
  - apply exclusive_shrink; [done|apply Hx|apply delete_subseteq|done].
  - eapply exclusive_admin; eauto.
  - eapply exclusive_admin; eauto.
  - apply exclusive_shrink; [done| |done|].
    + intros i x [[Hi _]%purge_lookup _]%purge_lookup. by apply (ex_keyed _ Hx).
    + intros i x Hi [Hc Hf]%settled_false. apply purge_unsettled; [done|].
      by apply purge_unsettled.
Qed.

Lemma timely_run_exclusive s :
  rtc undisturbed_step start s → exclusive s ∧ timely s.
Proof.
  intros Hr. apply (rtc_preserves _ (fun s => exclusive s ∧ timely s) _ _ Hr).
  - split; [apply exclusive_start|]. intros w j t Hw. cbn in Hw. by rewrite lookup_empty in Hw.
  - intros s1 s2 [Hx Ht1] [[Hs Ht] Hm]. split; [|done]. by apply (exclusive_step s1).
Qed.

(** A run goes unrecorded. *)
Definition unrecorded (s s' : System) : Prop :=
  ∃ w, is_Some (inflight s !! w) ∧ s' = MkSystem (queue s) (clock s) (delete w (inflight s)).

Definition orderly_step (s s' : System) : Prop := undisturbed_step s s' ∧ ¬ unrecorded s s'.

Definition bounded_row (s : System) (j : Job) : Prop :=
  0 < MaxAttempts j ∧ Attempts j ≤ MaxAttempts j ∧
  (settled j = false → LockedBy j = None → Attempts j < MaxAttempts j) ∧
  (LockedBy j ≠ None → ∃ w, inflight s !! w = Some j).

Definition bounded (s : System) : Prop := ∀ i j, jobs (queue s) !! i = Some j → bounded_row s j.

Lemma bounded_claim s w kind by_ j q :
  timely s → exclusive s → bounded s → inflight s !! w = None →
  ClaimJob kind by_ (clock s) (queue s) = Some (j, q) →
  bounded (MkSystem q (clock s) (<[w := j]> (inflight s))).
Proof.
  intros Ht Hx Hb Hw Hc. pose proof (ClaimJob_spec kind by_ (clock s) _ (ex_keyed _ Hx)) as Hs.
  rewrite Hc in Hs. destruct Hs as (j0 & -> & Hj0 & Hcl & _ & ->).
  intros i j Hj. cbn in Hj. apply lookup_insert_Some in Hj as [[<- <-]|[Hne Hj]].
  - destruct (Hb _ _ Hj0) as (H1 & H2 & H3 & H4). unfold bounded_row. cbn.
    split_and!; [done| |done|intros _; exists w; by rewrite lookup_insert_eq].
    destruct (claimable_settled _ _ _ Hcl) as [_ Hset].
    destruct (decide (LockedBy j0 = None)) as [Hl|Hl]; [specialize (H3 Hset Hl); lia|].
    destruct (H4 Hl) as [w' Hw']. by rewrite (inflight_not_claimable s w' j0 kind Ht Hx Hw') in Hcl.
  - destruct (Hb _ _ Hj) as (H1 & H2 & H3 & H4). split_and!; [done..|]. intros Hl.
    destruct (H4 Hl) as [w' Hw']. exists w'. cbn. rewrite lookup_insert_ne; [done|congruence].
Qed.

Lemma bounded_record s w j o jitter :
  exclusive s → bounded s → inflight s !! w = Some j →
  bounded (MkSystem (record j (safeRun o) (clock s) jitter (queue s)) (clock s)
             (delete w (inflight s))).
Proof.
  intros Hx Hb Hw. destruct (ex_row _ Hx _ _ Hw) as (Hrow & Hset & _).
  rewrite (record_eq _ _ _ _ _ j) by done. intros i x Hi. cbn in Hi.
  destruct (Hb _ _ Hrow) as (H1 & H2 & _).
  apply lookup_insert_Some in Hi as [[<- <-]|[Hne Hi]].
  - destruct (recorded_fields j (safeRun o) (clock s) jitter j) as (_ & _ & Ha & Hm & Hl).
    unfold bounded_row. rewrite Ha, Hm, Hl. split_and!; [done..| |done].
    unfold recorded, settled. destruct (safeRun o) as [e|]; [|done].
    cbv zeta. destruct (is_poison e || bool_decide (MaxAttempts j ≤ Attempts j)) eqn:E.
    + cbn [CompletedAt FailedAt]. by rewrite (bool_decide_true (is_Some (Some (clock s)))),
        orb_true_r by eauto.
    + apply orb_false_iff in E as [_ E%bool_decide_eq_false]. lia.
  - destruct (Hb _ _ Hi) as (G1 & G2 & G3 & G4). split_and!; [done..|]. intros Hl.
    destruct (G4 Hl) as [w' Hw']. exists w'. cbn. apply lookup_delete_Some. split; [|done].
    intros <-. apply Hne. destruct (ex_keyed _ Hx _ _ Hi) as [Hid _]. congruence.
Qed.

Lemma bounded_admin s s' id :
  exclusive s → bounded s → ¬ meddles s s' →
  s' = MkSystem (jobRetry id (clock s) (queue s)) (clock s) (inflight s) ∨
  s' = MkSystem (jobDiscard id (clock s) (queue s)) (clock s) (inflight s) → bounded s'.
Proof.
  intros Hx Hb Hm Hs. destruct (admin_step s s' id Hx Hm Hs) as [->|(x & x' & Hid & Hx' & Hfree & ->)]; [done|].
  intros i y Hy. cbn in Hy. apply lookup_insert_Some in Hy as [[<- <-]|[_ Hy]]; [|by apply (Hb i)].
  destruct (Hb _ _ Hid) as (H1 & H2 & _ & H4). destruct Hx' as [->| ->]; unfold bounded_row.
  - cbn. split_and!; [done|lia|by intros|done].
  - rewrite discarded_settled. cbn. split_and!; [done..|]. intros Hl. destruct (H4 Hl) as [w Hw].
    destruct (Hfree _ _ Hw). by destruct (ex_keyed _ Hx _ _ Hid).
Qed.

Lemma bounded_step s s' :
  timely s → exclusive s → bounded s → step s s' → ¬ meddles s s' → ¬ unrecorded s s' → bounded s'.
Proof.
  intros Ht Hx Hb Hs Hmd Hnc. inversion Hs; subst.
  - done.
  - destruct (Enqueue_queue kind payload opts (clock s) (queue s)) as (j & -> & Hid & Hset & Hl & Ha & Hm).
    intros i x Hi. cbn in Hi. apply lookup_insert_Some in Hi as [[<- <-]|[_ Hi]]; [|by apply (Hb i)].
    unfold bounded_row. rewrite Ha, Hl. split_and!; [done|lia|intros _ _; lia|done].
  - by eapply bounded_claim.
  - by apply bounded_record.
  - destruct (inflight s !! w) as [j|] eqn:Hw.
    + destruct Hnc. exists w. by rewrite Hw.
    + by rewrite delete_id.
  - eapply bounded_admin; eauto.
  - eapply bounded_admin; eauto.
  - intros i x [[Hi _]%purge_lookup _]%purge_lookup. by apply (Hb i).
Qed.

Lemma orderly_bounded a s :
  rtc orderly_step a s → exclusive a → timely a → bounded a → bounded s.
Proof.
  intros Ha. induction Ha as [|s1 s2 s3 [[[Hs Hts] Hm] Hnc] _ IH]; [done|]. intros Hx1 Ht1 Hb1.
  apply IH; [by apply (exclusive_step s1)|done|by apply (bounded_step s1)].
Qed.

(** What a run from the start keeps to when every run is recorded in good time. *)
Lemma orderly_run s : rtc orderly_step start s → exclusive s ∧ timely s ∧ bounded s.
Proof.
  intros Hr. assert (rtc undisturbed_step start s) as Hu by (by eapply rtc_subrel; [|exact Hr]; intros ? ? [? _]).
  destruct (timely_run_exclusive s Hu) as [Hx Ht]. split_and!; [done..|].
  destruct (timely_run_exclusive start (rtc_refl _ _)) as [Hx0 Ht0].
  apply (orderly_bounded start s Hr Hx0 Ht0). intros i j Hj. cbn in Hj. by rewrite lookup_empty in Hj.
Qed.


(** ** Progress *)

(** A job that waits: its time has come, it is neither settled nor locked. *)
Definition waits (j : Job) (s : System) : Prop :=
  jobs (queue s) !! ID j = Some j ∧ settled j = false ∧ LockedBy j = None ∧ RunAt j < clock s.

(** A job of its kind is enqueued for a time that was over when [j]'s came. *)
Definition backdated (j : Job) (s s' : System) : Prop :=
  ∃ payload opts t, OptRunAt opts = Some t ∧ t < RunAt j ∧
    s' = MkSystem (Enqueue (Kind j) payload opts (clock s) (queue s)).2 (clock s) (inflight s).

(** Any step of the system while [j] waits. *)
Definition waiting_step (j : Job) (s s' : System) : Prop := orderly_step s s' ∧ ¬ backdated j s s' ∧ waits j s'.

(** Some worker claims a job of this kind. *)
Definition claim_of (kind : string) (s s' : System) : Prop :=
  ∃ w by_ i q, inflight s !! w = None ∧ ClaimJob kind by_ (clock s) (queue s) = Some (i, q) ∧
    s' = MkSystem q (clock s) (<[w := i]> (inflight s)).

(** A run of the system in which [n] jobs of [j]'s kind are claimed while [j] waits. *)
Inductive passed_over (j : Job) : nat → System → System → Prop :=
| passed_none s : passed_over j 0 s s
| passed_by n s s1 s2 : passed_over j n s s1 → waiting_step j s1 s2 → claim_of (Kind j) s1 s2 → passed_over j (S n) s s2
| passed_other n s s1 s2 : passed_over j n s s1 → waiting_step j s1 s2 → ¬ claim_of (Kind j) s1 s2 → passed_over j n s s2.

(** What stands before [j] and is free to be claimed. *)
Definition in_front (j i : Job) : Prop := Kind i = Kind j ∧ settled i = false ∧ LockedBy i = None ∧ older i j = true.

#[export] Instance in_front_dec j i : Decision (in_front j i).
Proof. unfold in_front. apply _. Defined.

Definition before (j : Job) (q : Queue) : gmap Z Job := filter (fun kv => in_front j kv.2) (jobs q).

Lemma before_sub j q q' :
  (∀ i x, jobs q' !! i = Some x → in_front j x → jobs q !! i = Some x) → (size (before j q') ≤ size (before j q))%nat.
Proof.
  intros H. apply map_subseteq_size, map_subseteq_spec. intros i x [Hi Hf]%map_lookup_filter_Some.
  apply map_lookup_filter_Some. cbn in *. eauto.
Qed.

(** A row that is not in front takes no place; if it did before, there is one place less. *)
Lemma before_insert j q i x n :
  ¬ in_front j x → (size (before j (MkQueue (<[i := x]> (jobs q)) n)) ≤ size (before j q))%nat.
Proof. intros Hx. apply before_sub. intros k y Hy Hf. cbn in Hy. by apply lookup_insert_Some in Hy as [[<- <-]|[_ Hy]]. Qed.

Lemma before_taken j q i x x' n :
  jobs q !! i = Some x → in_front j x → ¬ in_front j x' → (size (before j (MkQueue (<[i := x']> (jobs q)) n)) < size (before j q))%nat.
Proof.
  intros Hi Hx Hx'. unfold before. cbn [jobs]. rewrite map_filter_insert_False by done.
  assert (filter (fun kv : Z * Job => in_front j kv.2) (delete i (jobs q)) = delete i (before j q)) as ->.
  { unfold before. by rewrite map_filter_delete. }
  assert (before j q !! i = Some x) as Hb by by apply map_lookup_filter_Some.
  fold (before j q). rewrite <- (insert_delete_id (before j q) i x Hb) at 2. rewrite map_size_insert_None by apply lookup_delete_eq. lia.
Qed.

Lemma settled_not_in_front j i : settled i = true → ¬ in_front j i.
Proof. intros Hs (_ & ? & _). congruence. Qed.

Lemma later_not_in_front j i : RunAt j < RunAt i → ¬ in_front j i.
Proof. intros Hl (_ & _ & _ & Ho%older_spec). lia. Qed.

(** While every claim is in good time, what is claimed instead of [j] is in front of it. *)
Lemma claimed_in_front j s by_ i q :
  exclusive s → timely s → bounded s → waits j s → ClaimJob (Kind j) by_ (clock s) (queue s) = Some (i, q) →
  i = lock by_ (clock s) j ∨ ∃ x, in_front j x ∧ jobs (queue s) !! ID x = Some x ∧ i = lock by_ (clock s) x ∧
    q = MkQueue (<[ID x := i]> (jobs (queue s))) (next_id (queue s)).
Proof.
  intros Hx Ht Hb (Hj & Hset & Hl & Hrun) Hc. pose proof (ClaimJob_spec (Kind j) by_ (clock s) _ (ex_keyed _ Hx)) as Hs.
  rewrite Hc in Hs. destruct Hs as (x & -> & Hrow & Hcl & Hmin & ->).
  assert (claimable (Kind j) (clock s) j = true) as Hcj by (apply claimable_waiting; [done..|lia]).
  specialize (Hmin j Hj Hcj). destruct (decide (ID x = ID j)) as [Hid|Hid]; [left; congruence|right]. exists x.
  destruct (claimable_settled _ _ _ Hcl) as [Hk Hs]. split_and!; [|done..]. split_and!; [done..| |].
  - destruct (decide (LockedBy x = None)) as [|Hlx]; [done|]. destruct (Hb _ _ Hrow) as (_ & _ & _ & H4).
    destruct (H4 Hlx) as [w Hw]. by rewrite (inflight_not_claimable s w x (Kind j) Ht Hx Hw) in Hcl.
  - rewrite <- not_true_iff_false, older_spec in Hmin. apply older_spec. lia.
Qed.

(** No other step brings a job in front of [j]. *)
Lemma before_step j s s' :
  exclusive s → waits j s → waiting_step j s s' → ¬ claim_of (Kind j) s s' → (size (before j (queue s')) ≤ size (before j (queue s)))%nat.
Proof.
  intros Hx (Hj & Hset & Hl & Hrun) ([[[Hs _] Hm] Hu] & Hbd & _) Hnc. inversion Hs; subst; cbn [queue].
  - done.
  - apply before_sub. intros i x Hi Hf. unfold Enqueue, EnqueueJob in Hi. cbn in Hi.
    apply lookup_insert_Some in Hi as [[<- <-]|[_ Hi]]; [exfalso|done]. destruct Hf as (Hk & _ & _ & Ho%older_spec). cbn in Hk, Ho. subst kind.
    destruct (ex_keyed _ Hx _ _ Hj) as [_ Hlt]. destruct (OptRunAt opts) as [t|] eqn:Et; cbn in Ho; [|lia].
    destruct Hbd. exists payload, opts, t. split_and!; [done|lia|done].
  - pose proof (ClaimJob_spec kind by_ (clock s) _ (ex_keyed _ Hx)) as Hc.
    match goal with H : ClaimJob _ _ _ _ = _ |- _ => rewrite H in Hc; rename H into Hcj end.
    destruct Hc as (x & -> & Hrow & Hcl & _ & ->). apply before_insert. intros (_ & _ & Hlk & _). done.
  - match goal with H : inflight s !! w = Some ?x |- _ => destruct (ex_row _ Hx _ _ H) as (Hrow & _); rewrite (record_eq _ _ _ _ _ x) by done end.
    apply before_insert. match goal with |- ¬ in_front _ (recorded ?a ?b ?c ?d ?x) => destruct (recorded_later a b c d x) as [?|?]; [done|..] end.
    + by apply settled_not_in_front.
    + apply later_not_in_front. lia.
  - done.
  - destruct (admin_step s _ id Hx Hm (or_introl eq_refl)) as [E|(x & x' & Hid & Hx' & _ & E)]; apply (f_equal queue) in E; cbn in E; rewrite E; [done|].
    apply before_insert. destruct Hx' as [->| ->]; [by apply later_not_in_front|apply settled_not_in_front, discarded_settled].
  - destruct (admin_step s _ id Hx Hm (or_intror eq_refl)) as [E|(x & x' & Hid & Hx' & _ & E)]; apply (f_equal queue) in E; cbn in E; rewrite E; [done|].
    apply before_insert. destruct Hx' as [->| ->]; [by apply later_not_in_front|apply settled_not_in_front, discarded_settled].
  - apply before_sub. intros i x [[Hi _]%purge_lookup _]%purge_lookup _. done.
Qed.

Lemma before_claim j s s' :
  exclusive s → timely s → bounded s → waits j s → waits j s' → claim_of (Kind j) s s' →
  (size (before j (queue s')) < size (before j (queue s)))%nat.
Proof.
  intros Hx Ht Hb Hw (Hj' & _ & Hl' & _) (w & by_ & i & q & _ & Hc & ->). cbn [queue] in *.
  destruct (claimed_in_front j s by_ i q Hx Ht Hb Hw Hc) as [->|(x & Hf & Hrow & -> & ->)].
  - exfalso. pose proof (ClaimJob_spec (Kind j) by_ (clock s) _ (ex_keyed _ Hx)) as Hs. rewrite Hc in Hs.
    destruct Hs as (x & E & _ & _ & _ & ->). apply (f_equal ID) in E as Hid. cbn in Hid, Hj'. rewrite <- Hid, lookup_insert_eq in Hj'.
    injection Hj' as Hj'. by rewrite <- Hj' in Hl'.
  - apply before_taken with x; [done..|]. intros (_ & _ & Hlk & _). done.
Qed.

(** C35: No job starves, however workers, enqueues, administrators and the purge interleave: while a job waits, every attempt to
    claim a job of its kind, by whichever worker, claims one, and at most as many others are claimed as stood before it, free to be claimed, in the
    order of the queue; after that many the attempt claims the waiting job, whatever the outcomes of the runs meanwhile. As
    long as every run is recorded in good time, no running job is re-armed or discarded, and nothing of its kind is
    enqueued for an earlier time. *)
Theorem no_starvation (j : Job) (s0 s : System) (n : nat) :
  rtc orderly_step start s0 → waits j s0 → passed_over j n s0 s →
  (n ≤ size (before j (queue s0)))%nat ∧
  ∀ by_, ∃ i q, ClaimJob (Kind j) by_ (clock s) (queue s) = Some (i, q) ∧
    (n = size (before j (queue s0)) → i = lock by_ (clock s) j).
Proof.
  intros Hr Hw0 Hp.
  assert (rtc orderly_step start s ∧ waits j s ∧ (n + size (before j (queue s)) ≤ size (before j (queue s0)))%nat) as (Hr' & Hw & Hn).
  { induction Hp as [s|n s s1 s2 _ IH Hst Hcl|n s s1 s2 _ IH Hst Hcl]; [by split_and!|..]; destruct (IH Hr Hw0) as (Hr1 & Hw1 & Hn1);
      (split; [eapply rtc_r; [exact Hr1|apply Hst]|split; [apply Hst|]]); destruct (orderly_run s1 Hr1) as (Hx & Ht & Hb).
    - pose proof (before_claim j s1 s2 Hx Ht Hb Hw1 (proj2 (proj2 Hst)) Hcl). lia.
    - pose proof (before_step j s1 s2 Hx Hw1 Hst Hcl). lia. }
  split; [lia|]. intros by_. destruct (orderly_run s Hr') as (Hx & Ht & Hb). pose proof Hw as (Hj & Hset & Hl & Hrun).
  destruct (ClaimJob (Kind j) by_ (clock s) (queue s)) as [[i q]|] eqn:Hc.
  - exists i, q. split; [done|]. intros ->. destruct (claimed_in_front j s by_ i q Hx Ht Hb Hw Hc) as [?|(x & Hf & Hrow & _)]; [done|].
    exfalso. assert (before j (queue s) !! ID x = Some x) as Hb' by by apply map_lookup_filter_Some.
    assert (size (before j (queue s)) ≠ 0%nat) by (apply (map_size_ne_0_lookup_2 _ (ID x)); by eexists). lia.
  - exfalso. pose proof (ClaimJob_spec (Kind j) by_ (clock s) _ (ex_keyed _ Hx)) as Hs. rewrite Hc in Hs.
    assert (claimable (Kind j) (clock s) j = true) as Hcj by (apply claimable_waiting; [done..|lia]). by rewrite (Hs j Hj) in Hcj.
Qed.

(** *** What happens when a record comes late *)

Definition job_opts : EnqueueOptions := MkEnqueueOptions None 0.
Definition same_factor (d : Z) : Z := d.

Definition stale : Z := lockWindow + 1.

Definition late_0 : System :=
  MkSystem (Enqueue "k" "p" job_opts 0 emptyQueue).2 0 ∅.

Definition claim_or (by_ : string) (w : Z) (s : System) : System :=
  match ClaimJob "k" by_ (clock s) (queue s) with
  | Some (j, q) => MkSystem q (clock s) (<[w := j]> (inflight s))
  | None => s
  end.

Definition tick (d : Z) (s : System) : System := MkSystem (queue s) (clock s + d) (inflight s).

Definition late_2 : System := claim_or "b" 2 (tick stale (claim_or "a" 1 late_0)).

Definition record_w (w : Z) (s : System) : System :=
  match inflight s !! w with
  | Some j => MkSystem (record j (safeRun (Failed "timeout")) (clock s) same_factor (queue s))
                (clock s) (delete w (inflight s))
  | None => s
  end.

Definition late_4 : System := claim_or "c" 3 (tick base (record_w 1 late_2)).

Lemma claim_or_step by_ w s :
  inflight s !! w = None → is_Some (ClaimJob "k" by_ (clock s) (queue s)) →
  step s (claim_or by_ w s).
Proof.
  intros Hw [[j q] Hc]. unfold claim_or. rewrite Hc. by eapply step_claim.
Qed.

Lemma same_factor_ok : jitter_ok same_factor.
Proof. intros d Hd. unfold same_factor. lia. Qed.

Lemma record_w_step w s : is_Some (inflight s !! w) → step s (record_w w s).
Proof. intros [j Hw]. unfold record_w. rewrite Hw. apply step_record; [done|apply same_factor_ok]. Qed.

Lemma not_meddles s s' : inflight s = ∅ ∨ inflight s' ≠ inflight s → ¬ meddles s s'.
Proof. intros Hs (w & j & Hw & [->| ->]); destruct Hs as [Hs|Hs]; try done; by rewrite Hs, lookup_empty in Hw. Qed.

Lemma tick_step d s : 0 ≤ d → step s (tick d s).
Proof. intros Hd. by apply step_tick. Qed.

Definition two_jobs : System :=
  MkSystem (Enqueue "k" "q" job_opts 0 (Enqueue "k" "p" job_opts 0 emptyQueue).2).2 0 ∅.

Definition timelyb (s : System) : Prop :=
  map_Forall (fun _ j => from_option (fun t => clock s ≤ t + lockWindow) True (LockedAt j)) (inflight s).

Lemma timelyb_ok s : timelyb s → timely s.
Proof. intros Hs w j t Hw Hl. specialize (Hs w j Hw). cbv beta in Hs. by rewrite Hl in Hs. Qed.


(** Two jobs wait; a worker takes the first, the next claim is the second. *)
Definition second_job : Job := MkJob 2 "k" "q" 0 0 5 None None None None None.
Definition both_wait : System := tick 1 two_jobs.
Definition first_taken : System := claim_or "a" 1 both_wait.

Lemma orderly_empty s s' : step s s' → timely s' → inflight s = ∅ → orderly_step s s'.
Proof.
  intros Hs Ht Hi. split; [split; [done|by apply not_meddles; left]|]. intros (w & [j Hw] & _). by rewrite Hi, lookup_empty in Hw.
Qed.

Lemma timely_empty s : inflight s = ∅ → timely s.
Proof. intros Hi w j t Hw. by rewrite Hi, lookup_empty in Hw. Qed.

Lemma both_wait_orderly : rtc orderly_step start both_wait.
Proof.
  eapply rtc_l; [apply orderly_empty; [apply (step_enqueue start "k" "p" job_opts)|by apply timely_empty|done]|].
  eapply rtc_l; [apply orderly_empty; [apply (step_enqueue late_0 "k" "q" job_opts)|by apply timely_empty|done]|].
  apply rtc_once, orderly_empty; [by apply tick_step|by apply timely_empty|done].
Qed.

Lemma first_taken_step : waiting_step second_job both_wait first_taken.
Proof.
  split_and!.
  - apply orderly_empty; [apply claim_or_step; [vm_compute; reflexivity|eexists; vm_compute; reflexivity]| |done].
    apply timelyb_ok, (map_Forall_singleton _ 1). vm_compute. discriminate.
  - intros (payload & opts & t & _ & _ & E). apply (f_equal (fun s => inflight s !! 1)) in E. vm_compute in E. discriminate.
  - split_and!; vm_compute; reflexivity.
Qed.

Lemma no_starvation_witness :
  waits second_job both_wait ∧ size (before second_job (queue both_wait)) = 1%nat ∧
  passed_over second_job 1 both_wait first_taken ∧
  ∃ i q, ClaimJob "k" "b" (clock first_taken) (queue first_taken) = Some (i, q) ∧ i = lock "b" (clock first_taken) second_job.
Proof.
  assert (waits second_job both_wait) as Hw by (split_and!; vm_compute; reflexivity).
  assert (size (before second_job (queue both_wait)) = 1%nat) as Hb by (vm_compute; reflexivity).
  assert (passed_over second_job 1 both_wait first_taken) as Hp.
  { eapply passed_by; [apply passed_none|apply first_taken_step|]. exists 1, "a".
    eexists _, _. split_and!; [vm_compute; reflexivity|vm_compute; reflexivity|vm_compute; reflexivity]. }
  split_and!; [exact Hw|exact Hb|exact Hp|].
  destruct (no_starvation second_job both_wait first_taken 1 both_wait_orderly Hw Hp) as [_ H].
  destruct (H "b") as (i & q & Hc & Hi). exists i, q. split; [exact Hc|]. apply Hi. by rewrite Hb.
Defined.

(** A retry asked for while the job runs: a second worker runs it too, both within the window. *)
Definition rearm_w (id : Z) (s : System) : System := MkSystem (jobRetry id (clock s) (queue s)) (clock s) (inflight s).

Definition rearmed_2 : System := claim_or "b" 2 (rearm_w 1 (claim_or "a" 1 late_0)).

Example retried_while_running :
  reachable rearmed_2 ∧ timely rearmed_2 ∧ ID <$> inflight rearmed_2 !! 1 = Some 1 ∧ ID <$> inflight rearmed_2 !! 2 = Some 1.
Proof.
  split_and!; [|apply timelyb_ok|vm_compute; reflexivity..].
  - eapply rtc_r; [|apply claim_or_step; [vm_compute; reflexivity|eexists; vm_compute; reflexivity]].
    eapply rtc_r; [|apply (step_retry (claim_or "a" 1 late_0) 1)].
    eapply rtc_r; [|apply claim_or_step; [vm_compute; reflexivity|eexists; vm_compute; reflexivity]].
    apply rtc_once. apply (step_enqueue start "k" "p" job_opts).
  - apply map_Forall_insert_2; [vm_compute; discriminate|]. apply (map_Forall_singleton _ 1). vm_compute. discriminate.
Qed.

Lemma late_4_reachable : reachable late_4.
Proof.
  unfold reachable, late_4, late_2.
  eapply rtc_r; [|apply claim_or_step; [vm_compute; reflexivity|eexists; vm_compute; reflexivity]].
  eapply rtc_r; [|apply tick_step; vm_compute; congruence].
  eapply rtc_r; [|apply record_w_step; eexists; vm_compute; reflexivity].
  eapply rtc_r; [|apply claim_or_step; [vm_compute; reflexivity|eexists; vm_compute; reflexivity]].
  eapply rtc_r; [|apply tick_step; vm_compute; congruence].
  eapply rtc_r; [|apply claim_or_step; [vm_compute; reflexivity|eexists; vm_compute; reflexivity]].
  apply rtc_once. apply (step_enqueue start "k" "p" job_opts).
Qed.

(** A late record breaks exclusion: the record of an outcome does not ask who
    holds the lock.  A worker that overruns the lock window by a nanosecond (a job
    that runs into its own time limit does) loses the job to a second worker, and its
    late record then unlocks the row of the second one: 30 s later a third worker
    claims the job while the second one, well within the window, still runs it. *)
Theorem late_record_double_run :
  ∃ s j2 j3, reachable s ∧ timely s ∧ inflight s !! 2 = Some j2 ∧ inflight s !! 3 = Some j3 ∧
    ID j2 = ID j3.
Proof.
  exists late_4. eexists _, _.
  split; [apply late_4_reachable|]. split; [|split; [vm_compute; reflexivity|split; [vm_compute; reflexivity|reflexivity]]].
  assert (map_Forall (fun _ j => 
      from_option (fun t => bool_decide (clock late_4 ≤ t + lockWindow)) true (LockedAt j) = true)
    (inflight late_4)) as Hall by (apply (bool_decide_unpack _); vm_compute; exact I).
  intros w j t Hw Hl. specialize (Hall w j Hw). cbv beta in Hall. rewrite Hl in Hall.
  by apply bool_decide_eq_true in Hall.
Qed.

(** A job whose handler kills the process is claimed again and again: nothing
    compares [attempts] with [max_attempts] before the run. *)
Lemma crash_loop (n : nat) :
  ∃ s j, rtc timely_step start s ∧ inflight s = ∅ ∧ queue s = MkQueue {[1 := j]} 2 ∧ ID j = 1 ∧
    Kind j = "k" ∧ Attempts j = Z.of_nat n ∧ MaxAttempts j = 5 ∧ settled j = false ∧
    RunAt j ≤ clock s ∧ (LockedBy j = None ∨ ∃ t, LockedAt j = Some t ∧ t ≤ clock s).
Proof.
  induction n as [|n (s & j & Hr & Hfl & Hq & Hid & Hk & Ha & Hm & Hset & Hrun & Hl)].
  - eexists _, _. split.
    { apply rtc_once. split; [apply (step_enqueue start "k" "p" job_opts)|].
      intros w j t Hw. cbn in Hw. by rewrite lookup_empty in Hw. }
    cbn. split_and!; try done; [by left].
  - assert (ClaimJob "k" "w" (clock s + stale) (queue s) =
      Some (lock "w" (clock s + stale) j, MkQueue {[1 := lock "w" (clock s + stale) j]} 2)) as Hc.
    { assert (claimable "k" (clock s + stale) j = true) as Hcl.
      { apply settled_false in Hset as [? ?]. apply claimable_spec.
        assert (0 < stale) by (vm_compute; reflexivity).
        split_and!; [done..|lia|]. destruct Hl as [?|(t & ? & ?)]; [by left|right].
        exists t. split; [done|]. unfold stale. lia. }
      unfold ClaimJob, candidates. rewrite Hq. cbn [jobs]. rewrite map_to_list_singleton. cbn [fmap list_fmap snd].
      rewrite filter_cons_True, filter_nil by done. cbn [oldest foldr].
      rewrite (update_job_insert _ _ _ j) by (cbn; by rewrite Hid, lookup_singleton_eq). cbn [jobs next_id].
      by rewrite Hid, insert_singleton_eq. }
    set (j' := lock "w" (clock s + stale) j) in *.
    set (s1 := MkSystem (queue s) (clock s + stale) (inflight s)).
    set (s2 := MkSystem (MkQueue {[1 := j']} 2) (clock s + stale) (<[1 := j']> (inflight s))).
    exists (MkSystem (queue s2) (clock s2) (delete 1 (inflight s2))), j'.
    assert (∀ w x t, inflight s1 !! w = Some x → LockedAt x = Some t → clock s1 ≤ t + lockWindow) as T1
      by (intros w x t Hw; cbn in Hw; rewrite Hfl, lookup_empty in Hw; done).
    split.
    { eapply rtc_r; [eapply rtc_r; [eapply rtc_r; [exact Hr|]|]|].
      - split; [|exact T1]. apply step_tick. vm_compute. congruence.
      - split; [by apply (step_claim s1 1 "k" "w" j'); [cbn; rewrite Hfl; apply lookup_empty|]|].
        intros w x t Hw Hlx. cbn in Hw |- *. rewrite Hfl in Hw.
        apply lookup_insert_Some in Hw as [[<- <-]|[_ Hw]]; [|by rewrite lookup_empty in Hw].
        cbn in Hlx. injection Hlx as <-. assert (0 < lockWindow) by (vm_compute; reflexivity). lia.
      - split; [apply step_unrecorded|]. intros w x t Hw. cbn in Hw. rewrite Hfl in Hw.
        apply lookup_delete_Some in Hw as [? Hw].
        apply lookup_insert_Some in Hw as [[? _]|[_ Hw]]; [done|by rewrite lookup_empty in Hw]. }
    assert (0 < stale) by (vm_compute; reflexivity).
    cbn. rewrite Hfl, delete_insert_id by apply lookup_empty. split_and!; [done..|lia|done| |lia|].
    + exact Hset.
    + right. exists (clock s + stale). split; [done|lia].
Qed.
