(* ===== verification/Webhook.v ===== *)
(** * Webhook: fan-out, delivery and retry of outgoing webhooks

    internal/webhook: backoff.go, deliver.go, fanout.go, manage.go, jobs.go and
    sign.go, the statements of queries/webhooks.sql they run, and the handler of
    internal/worker/jobs/webhook.go.  JSON, HMAC, SHA-256, the secret box, the URL
    parser, the SSRF check (internal/security/ssrf) and the HTTP exchange are
    parameters.  The errors of the writing statements, which the code drops, are
    left out; [fault] injects the errors of the statements it looks at. *)

From S2P Require Import Prelude GoString Worker.
Local Open Scope Z_scope.

(** ** backoff.go *)

Definition BackoffBase : Z := 30 * second.
Definition BackoffMax : Z := 24 * hour.

Fixpoint wbackoff_loop (n : nat) (d : Z) : Z :=
  match n with
  | O => d
  | S n => let d := d * 2 in if bool_decide (BackoffMax ≤ d) then BackoffMax else wbackoff_loop n d
  end.

Definition WBackoff (attempt : Z) (jitter : option (Z → Z)) : Z :=
  let attempt := if bool_decide (attempt < 1) then 1 else attempt in
  let d := wbackoff_loop (Z.to_nat (attempt - 1)) BackoffBase in
  let d := if bool_decide (BackoffMax < d) then BackoffMax else d in
  match jitter with Some f => f d | None => d end.

(** ** The tables *)

Inductive OwnerKind := RepoOwner | OrgOwner.
Inductive ContentType := ContentJson | ContentForm.
Inductive Status := Pending | Succeeded | FailedRetry | FailedPermanent.

#[export] Instance OwnerKind_eq_dec : EqDecision OwnerKind.
Proof. solve_decision. Defined.
#[export] Instance Status_eq_dec : EqDecision Status.
Proof. solve_decision. Defined.

Record Hook := MkHook {
  HID : Z; HOwnerKind : OwnerKind; HOwnerID : Z; Url : string; HContentType : ContentType;
  Events : list string; SecretCiphertext : string; SecretNonce : string; Active : bool;
  DisabledAt : option Z; DisabledReason : option string; ConsecutiveFailures : Z;
  AutoDisableThreshold : Z
}.

(** What came back from the receiver. *)
Record Response := MkResponse {
  ResponseStatus : option Z; ResponseHeaders : option string; ResponseBody : option string;
  ResponseTruncated : bool
}.

Definition noResponse : Response := MkResponse None None None false.

Record Delivery := MkDelivery {
  DID : Z; WebhookID : Z; EventKind : string; EventID : option Z; DPayload : string;
  RequestHeaders : string; RequestBody : string; Attempt : Z; DMaxAttempts : Z;
  NextRetryAt : option Z; DStatus : Status; IdempotencyKey : string; RedeliverOf : option Z;
  Resp : Response; DCompletedAt : option Z; ErrorSummary : option string
}.

Record DomainEvent := MkEvent {
  EvID : Z; ActorUserID : option Z; EvKind : string; EvRepoID : option Z; EvPayload : string;
  EvCreatedAt : Z
}.

Record Tables := MkTables {
  hooks : gmap Z Hook; deliveries : gmap Z Delivery; next_delivery : Z;
  domain_events : list DomainEvent; (* in the order of their ids *)
  cursor : option Z; repo_org : gmap Z (option Z); (* repos.owner_org_id *)
  next_hook : Z
}.

Definition on_hooks (f : gmap Z Hook → gmap Z Hook) (t : Tables) : Tables :=
  MkTables (f (hooks t)) (deliveries t) (next_delivery t) (domain_events t) (cursor t) (repo_org t)
    (next_hook t).

Definition on_deliveries (f : gmap Z Delivery → gmap Z Delivery) (t : Tables) : Tables :=
  MkTables (hooks t) (f (deliveries t)) (next_delivery t) (domain_events t) (cursor t) (repo_org t)
    (next_hook t).

(** ** queries/webhooks.sql *)

Definition RecordWebhookSuccess (id : Z) : Tables → Tables :=
  on_hooks (alter (fun h =>
    MkHook (HID h) (HOwnerKind h) (HOwnerID h) (Url h) (HContentType h) (Events h)
      (SecretCiphertext h) (SecretNonce h) (Active h) (DisabledAt h) (DisabledReason h) 0
      (AutoDisableThreshold h)) id).

Definition bump (h : Hook) : Hook :=
  MkHook (HID h) (HOwnerKind h) (HOwnerID h) (Url h) (HContentType h) (Events h)
    (SecretCiphertext h) (SecretNonce h) (Active h) (DisabledAt h) (DisabledReason h)
    (ConsecutiveFailures h + 1) (AutoDisableThreshold h).

(** RETURNING the row; no row is an error. *)
Definition RecordWebhookFailure (id : Z) (t : Tables) : option Hook * Tables :=
  match hooks t !! id with
  | None => (None, t)
  | Some h => (Some (bump h), on_hooks <[id := bump h]> t)
  end.

Definition AutoDisableWebhook (id : Z) (reason : string) (now : Z) : Tables → Tables :=
  on_hooks (alter (fun h =>
    MkHook (HID h) (HOwnerKind h) (HOwnerID h) (Url h) (HContentType h) (Events h)
      (SecretCiphertext h) (SecretNonce h) (Active h) (Some now) (Some reason)
      (ConsecutiveFailures h) (AutoDisableThreshold h)) id).

Definition SetWebhookActive (id : Z) (active : bool) : Tables → Tables :=
  on_hooks (alter (fun h =>
    MkHook (HID h) (HOwnerKind h) (HOwnerID h) (Url h) (HContentType h) (Events h)
      (SecretCiphertext h) (SecretNonce h) active None None 0 (AutoDisableThreshold h)) id).

Definition MarkDeliverySucceeded (id : Z) (r : Response) (now : Z) : Tables → Tables :=
  on_deliveries (alter (fun d =>
    MkDelivery (DID d) (WebhookID d) (EventKind d) (EventID d) (DPayload d) (RequestHeaders d)
      (RequestBody d) (Attempt d) (DMaxAttempts d) (NextRetryAt d) Succeeded (IdempotencyKey d)
      (RedeliverOf d) r (Some now) None) id).

Definition MarkDeliveryRetry (id : Z) (r : Response) (next_retry_at : Z) (summary : string)
  : Tables → Tables :=
  on_deliveries (alter (fun d =>
    MkDelivery (DID d) (WebhookID d) (EventKind d) (EventID d) (DPayload d) (RequestHeaders d)
      (RequestBody d) (Attempt d + 1) (DMaxAttempts d) (Some next_retry_at) FailedRetry
      (IdempotencyKey d) (RedeliverOf d) r (DCompletedAt d) (Some summary)) id).

Definition MarkDeliveryPermanentFailure (id : Z) (r : Response) (now : Z) (summary : string)
  : Tables → Tables :=
  on_deliveries (alter (fun d =>
    MkDelivery (DID d) (WebhookID d) (EventKind d) (EventID d) (DPayload d) (RequestHeaders d)
      (RequestBody d) (Attempt d) (DMaxAttempts d) (NextRetryAt d) FailedPermanent
      (IdempotencyKey d) (RedeliverOf d) r (Some now) (Some summary)) id).

(** The columns Create and Update give; the threshold is 50. *)
Record HookParams := MkHookParams {
  pUrl : string; pContentType : ContentType; pEvents : list string; pActive : bool
}.

Definition CreateWebhook (k : OwnerKind) (owner : Z) (p : HookParams) (cipher nonce : string)
    (t : Tables) : Hook * Tables :=
  let h := MkHook (next_hook t) k owner (pUrl p) (pContentType p) (pEvents p) cipher nonce
             (pActive p) None None 0 50 in
  (h, MkTables (<[next_hook t := h]> (hooks t)) (deliveries t) (next_delivery t)
        (domain_events t) (cursor t) (repo_org t) (next_hook t + 1)).

Definition UpdateWebhook (id : Z) (p : HookParams) : Tables → Tables :=
  on_hooks (alter (fun h =>
    MkHook (HID h) (HOwnerKind h) (HOwnerID h) (pUrl p) (pContentType p) (pEvents p)
      (SecretCiphertext h) (SecretNonce h) (pActive p) (DisabledAt h) (DisabledReason h)
      (ConsecutiveFailures h) 50) id).

Definition UpdateWebhookSecret (id : Z) (cipher nonce : string) : Tables → Tables :=
  on_hooks (alter (fun h =>
    MkHook (HID h) (HOwnerKind h) (HOwnerID h) (Url h) (HContentType h) (Events h) cipher nonce
      (Active h) (DisabledAt h) (DisabledReason h) (ConsecutiveFailures h)
      (AutoDisableThreshold h)) id).

(** ON DELETE CASCADE takes the deliveries along. *)
Definition DeleteWebhook (id : Z) (t : Tables) : Tables :=
  on_deliveries (filter (fun kv => WebhookID kv.2 ≠ id)) (on_hooks (delete id) t).

(** A new delivery row; [mk] gets the id. *)
Definition CreateDelivery (mk : Z → Delivery) (t : Tables) : Delivery * Tables :=
  let d := mk (next_delivery t) in
  (d, MkTables (hooks t) (<[next_delivery t := d]> (deliveries t)) (next_delivery t + 1)
        (domain_events t) (cursor t) (repo_org t)
    (next_hook t)).

Definition terminal (s : Status) : bool :=
  match s with Succeeded | FailedPermanent => true | _ => false end.

Definition PurgeOldDeliveries (retention now : Z) : Tables → Tables :=
  on_deliveries (filter (fun kv =>
    terminal (DStatus kv.2) &&
    match DCompletedAt kv.2 with Some t => bool_decide (t < now - retention) | None => false end
    = false)).

Definition owner_eqb (k : OwnerKind) (id : Z) (h : Hook) : bool :=
  bool_decide (HOwnerKind h = k) && bool_decide (HOwnerID h = id).

Definition ListActiveWebhooksForOwner (k : OwnerKind) (id : Z) (t : Tables) : list Hook :=
  filter (fun h => owner_eqb k id h && Active h && bool_decide (DisabledAt h = None) = true)
    (map_to_list (hooks t)).*2.

Definition SetWebhookCursor (id : Z) (t : Tables) : Tables :=
  MkTables (hooks t) (deliveries t) (next_delivery t) (domain_events t) (Some id) (repo_org t)
    (next_hook t).

Definition FanoutBatch : nat := 200.

Definition ListUnprocessedDomainEvents (last : Z) (t : Tables) : list DomainEvent :=
  take FanoutBatch (filter (fun e => last < EvID e) (domain_events t)).

(** ** deliver.go *)

Definition ResponseBodyCap : nat := 32 * 1024.
Definition MaxBodySize : Z := 25 * 1024 * 1024.

Definition isRetryableStatus (status : Z) : bool :=
  if bool_decide (status = 408) || bool_decide (status = 429) then true
  else bool_decide (500 ≤ status) && bool_decide (status < 600).

(** [readCappedBody] of a body that may break off with an error: the bytes kept
    and the truncation mark. *)
Definition readCappedBody (body : string) (broken : bool) (cap : nat) : string * bool :=
  let limited := str_take (cap + 1) body in
  if broken && bool_decide (String.length body ≤ cap)%nat then (limited, false)
  else if bool_decide (cap < String.length limited)%nat then (str_take cap limited, true)
  else (limited, false).

Record Request := MkRequest { QUrl : string; QHeaders : gmap string string; QBody : string }.

Record HTTPResponse := MkHTTP {
  StatusCode : Z; Header : gmap string string; (* first values *) Body : string; Broken : bool
}.

(** An argument of [json.Marshal]. *)
Inductive json := JNum (n : Z) | JStr (s : string) | JRaw (s : string) | JObj (l : list (string * json)).

(** The errors of the statements whose error the code looks at. *)
Inductive DbOp :=
| OpLoadCursor | OpListEvents | OpListHooks (k : OwnerKind) (id : Z) | OpRepoOwner (repo : Z)
| OpCreateDelivery (hook : Z) (event : option Z) | OpEnqueueDeliver (delivery : Z) | OpEnqueueFanout
| OpSetCursor.

Section Webhook.
  (** [SecretBox.Open], the URL checks and the HTTP client. *)
  Variable Open : string → string → option string.
  Variable Seal : string → option (string * string).
  Variable SSRF_Validate : string → option string.
  Variable SSRF_ValidateWithResolve : string → option string.
  Variable NewRequest : string → option string.
  Variable Do : Request → res string HTTPResponse.
  (** Package json, [http.CanonicalHeaderKey], HMAC-SHA256 and SHA-256 in hex. *)
  Variable Marshal : json → option string.
  Variable UnmarshalHeaders : string → option (gmap string string).
  Variable CanonicalHeaderKey : string → string.
  Variable hmac_sha256_hex sha256_hex : string → string.
  (** [url.Parse]: the scheme and the host. *)
  Variable ParseURL : string → option (string * string).
  Variable deliveryUUID : Z → string.
  Variable fault : DbOp → option string.

Definition SignSHA256 (secret body : string) : string :=
  "sha256=" +:+ hmac_sha256_hex (secret +:+ body).

Definition VerifySHA256 (secret body sig : string) : bool :=
  let want := SignSHA256 secret body in
  if bool_decide (String.length want ≠ String.length sig) then false else bool_decide (want = sig).

Definition OpenSecret (ciphertext nonce : string) : res string string :=
  match Open ciphertext nonce with Some s => Ok s | None => Err "webhook: decrypt failed" end.

Definition SetHeader (k v : string) (h : gmap string string) : gmap string string :=
  <[CanonicalHeaderKey k := v]> h.

Definition applyHeaders (req : Request) (headersJSON uuid secret : string) : Request :=
  let h :=
    match UnmarshalHeaders headersJSON with
    | Some m => if decide (headersJSON = "") then QHeaders req
                else foldr (fun kv => SetHeader kv.1 kv.2) (QHeaders req) (map_to_list m)
    | None => QHeaders req
    end in
  MkRequest (QUrl req)
    (SetHeader "X-Shithub-Signature-256" (SignSHA256 secret (QBody req))
       (SetHeader "X-Shithub-Delivery" uuid h))
    (QBody req).

Definition recordFailure (hook : Hook) (now : Z) (t : Tables) : Tables :=
  let '(row, t) := RecordWebhookFailure (HID hook) t in
  match row with
  | None => t
  | Some row =>
      if bool_decide (AutoDisableThreshold row ≤ ConsecutiveFailures row) then
        AutoDisableWebhook (HID hook)
          ("auto-disabled after " +:+ pretty (ConsecutiveFailures row) +:+ " consecutive failures")
          now t
      else t
  end.

Definition statusVal (status : Z) : option Z := if bool_decide (0 < status) then Some status else None.

Definition scheduleRetryOrPermanentWithResp (row : Delivery) (hook : Hook) (status : Z)
    (respHeaders body : option string) (truncated : bool) (summary : string) (now : Z)
    (jitter : Z → Z) (t : Tables) : Tables :=
  let nextAttempt := Attempt row + 1 in
  let r := MkResponse (statusVal status) respHeaders body truncated in
  if bool_decide (DMaxAttempts row < nextAttempt) then
    recordFailure hook now
      (MarkDeliveryPermanentFailure (DID row) r now (summary +:+ " (max_attempts exhausted)") t)
  else
    MarkDeliveryRetry (DID row) r (now + WBackoff nextAttempt (Some jitter)) summary t.

Definition scheduleRetryOrPermanent (row : Delivery) (hook : Hook) (respHeaders : option string)
    (summary : string) : Z → (Z → Z) → Tables → Tables :=
  scheduleRetryOrPermanentWithResp row hook 0 respHeaders None false summary.

Definition headerJSON (h : gmap string string) : option string :=
  Marshal (JObj (map (fun kv => (kv.1, JStr kv.2)) (map_to_list h))).

(** [Deliver]; a loading error leaves the tables as they are. *)
Definition Deliver (now : Z) (jitter : Z → Z) (deliveryID : Z) (t : Tables)
  : Tables * option string :=
  match deliveries t !! deliveryID with
  | None => (t, Some "load delivery: no rows in result set")
  | Some row =>
    if terminal (DStatus row) then (t, None)
    else
      match hooks t !! WebhookID row with
      | None => (t, Some "load webhook: no rows in result set")
      | Some hook =>
        if negb (Active hook) || bool_decide (is_Some (DisabledAt hook)) then
          (MarkDeliveryPermanentFailure deliveryID noResponse now
             "webhook disabled before delivery" t, None)
        else
          match OpenSecret (SecretCiphertext hook) (SecretNonce hook) with
          | Err e =>
              (AutoDisableWebhook (HID hook) "secret decryption failure" now
                 (MarkDeliveryPermanentFailure deliveryID noResponse now ("decrypt secret: " +:+ e) t),
               None)
          | Ok secret =>
            match SSRF_Validate (Url hook) with
            | Some e =>
                (recordFailure hook now
                   (MarkDeliveryPermanentFailure deliveryID noResponse now ("ssrf: " +:+ e) t), None)
            | None =>
              if bool_decide (MaxBodySize < Z.of_nat (String.length (RequestBody row))) then
                (MarkDeliveryPermanentFailure deliveryID noResponse now
                   ("payload exceeds " +:+ pretty MaxBodySize +:+ " bytes") t, None)
              else
                match NewRequest (Url hook) with
                | Some e =>
                    (scheduleRetryOrPermanent row hook None ("build request: " +:+ e) now jitter t,
                     None)
                | None =>
                  let req := applyHeaders (MkRequest (Url hook) ∅ (RequestBody row))
                               (RequestHeaders row) (deliveryUUID deliveryID) secret in
                  match Do req with
                  | Err e =>
                      (scheduleRetryOrPermanent row hook None ("transport: " +:+ e) now jitter t,
                       None)
                  | Ok resp =>
                      let '(body, truncated) :=
                        readCappedBody (Body resp) (Broken resp) ResponseBodyCap in
                      let r := MkResponse (Some (StatusCode resp)) (headerJSON (Header resp))
                                 (Some body) truncated in
                      if bool_decide (200 ≤ StatusCode resp) && bool_decide (StatusCode resp < 400)
                      then
                        (RecordWebhookSuccess (HID hook) (MarkDeliverySucceeded deliveryID r now t),
                         None)
                      else if isRetryableStatus (StatusCode resp) then
                        (scheduleRetryOrPermanentWithResp row hook (StatusCode resp)
                           (headerJSON (Header resp)) (Some body) truncated
                           ("HTTP " +:+ pretty (StatusCode resp) +:+ " (retryable)") now jitter t,
                         None)
                      else
                        (recordFailure hook now
                           (MarkDeliveryPermanentFailure deliveryID r now
                              ("HTTP " +:+ pretty (StatusCode resp) +:+ " (non-retryable)") t), None)
                  end
                end
            end
          end
      end
  end.

(** ** jobs.go *)

Definition KindWebhookFanout : string := "webhook:fanout".
Definition KindWebhookDeliver : string := "webhook:deliver".
Definition KindWebhookPurgeOld : string := "webhook:purge_old".

(** The JSON of [deliverPayload]. *)
Definition MarshalDeliverPayload (id : Z) : string :=
  "{" +:+ String "034" ("delivery_id" +:+ String "034" (":" +:+ pretty id +:+ "}")).

Definition workerEnqueueDeliver (id now : Z) (q : Queue) : res string Z * Queue :=
  match fault (OpEnqueueDeliver id) with
  | Some e => (Err e, q)
  | None =>
      let '(job, q) :=
        Enqueue KindWebhookDeliver (MarshalDeliverPayload id) (MkEnqueueOptions None 0) now q in
      (Ok job, q)
  end.

(** ** fanout.go *)

Definition subscribesToKind (events : list string) (kind : string) : bool :=
  if bool_decide (events = []) then true
  else existsb (fun e => bool_decide (e = kind) || bool_decide (e = "*")) events.

Definition contentTypeHeader (ct : ContentType) : string :=
  match ct with
  | ContentForm => "application/x-www-form-urlencoded"
  | ContentJson => "application/json"
  end.

Definition idempotencyKey (webhookID eventID : Z) (body : string) : string :=
  sha256_hex (body +:+ pretty webhookID +:+ pretty eventID).

Definition owner_kind_text (k : OwnerKind) : string :=
  match k with RepoOwner => "repo" | OrgOwner => "org" end.

(** [rfc3339] is the formatting of the timestamp. *)
Definition buildPayload (rfc3339 : Z → string) (ev : DomainEvent) (w : Hook)
  : option (string * string) :=
  let opt (k : string) (o : option Z) := match o with Some n => [(k, JNum n)] | None => [] end in
  body ← Marshal (JObj ([("event_id", JNum (EvID ev)); ("event_kind", JStr (EvKind ev));
                         ("created_at", JStr (rfc3339 (EvCreatedAt ev)));
                         ("webhook_id", JNum (HID w)); ("payload", JRaw (EvPayload ev))] ++
                        opt "repo_id" (EvRepoID ev) ++ opt "actor_user_id" (ActorUserID ev)));
  headers ← Marshal (JObj [("User-Agent", JStr "shithub-Hookshot");
                           ("Content-Type", JStr (contentTypeHeader (HContentType w)));
                           ("X-Shithub-Event", JStr (EvKind ev));
                           ("X-Shithub-Hook-Installation-Target-Type",
                             JStr (owner_kind_text (HOwnerKind w)));
                           ("X-Shithub-Hook-Installation-Target-Id", JStr (pretty (HOwnerID w)))]);
  Some (body, headers).

Definition fresh_delivery (w : Z) (kind : string) (ev : option Z) (body headers key : string)
    (max : Z) (redeliver : option Z) (now : Z) (id : Z) : Delivery :=
  MkDelivery id w kind ev body headers body 1 max (Some now) Pending key redeliver noResponse None
    None.

(** The subscribers of an event. *)
Definition subscribers (ev : DomainEvent) (t : Tables) : res string (list Hook) :=
  match EvRepoID ev with
  | None => Ok []
  | Some repo =>
      match fault (OpListHooks RepoOwner repo) with
      | Some e => Err ("list repo webhooks: " +:+ e)
      | None =>
          let repoSubs := ListActiveWebhooksForOwner RepoOwner repo t in
          match fault (OpRepoOwner repo), mjoin (repo_org t !! repo) with
          | None, Some org =>
              match fault (OpListHooks OrgOwner org) with
              | Some e => Err ("list org webhooks: " +:+ e)
              | None => Ok (repoSubs ++ ListActiveWebhooksForOwner OrgOwner org t)
              end
          | _, _ => Ok repoSubs
          end
      end
  end.

(** The loop of dispatchEvent over the subscribers. *)
Fixpoint dispatch_loop (rfc3339 : Z → string) (ev : DomainEvent) (now : Z) (subs : list Hook)
    (s : Queue * Tables) : (Queue * Tables) * option string :=
  match subs with
  | [] => (s, None)
  | w :: subs =>
      if negb (subscribesToKind (Events w) (EvKind ev)) then dispatch_loop rfc3339 ev now subs s
      else
        match buildPayload rfc3339 ev w with
        | None => dispatch_loop rfc3339 ev now subs s
        | Some (body, headers) =>
            match fault (OpCreateDelivery (HID w) (Some (EvID ev))) with
            | Some e => (s, Some ("create delivery: " +:+ e))
            | None =>
                let '(d, t) :=
                  CreateDelivery
                    (fresh_delivery (HID w) (EvKind ev) (Some (EvID ev)) body headers
                       (idempotencyKey (HID w) (EvID ev) body) 8 None now) s.2 in
                let '(_, q) := workerEnqueueDeliver (DID d) now s.1 in
                dispatch_loop rfc3339 ev now subs (q, t)
            end
        end
  end.

Definition dispatchEvent (rfc3339 : Z → string) (ev : DomainEvent) (now : Z) (s : Queue * Tables)
  : (Queue * Tables) * option string :=
  match subscribers ev s.2 with
  | Err e => (s, Some e)
  | Ok subs => dispatch_loop rfc3339 ev now subs s
  end.

(** The loop of FanoutOnce: the last event done and how many. *)
Fixpoint fanout_loop (rfc3339 : Z → string) (now : Z) (rows : list DomainEvent) (last : Z)
    (processed : nat) (s : Queue * Tables) : (Queue * Tables) * (Z * nat) :=
  match rows with
  | [] => (s, (last, processed))
  | ev :: rows =>
      let '(s, err) := dispatchEvent rfc3339 ev now s in
      match err with
      | Some _ => (s, (last, processed))
      | None => fanout_loop rfc3339 now rows (EvID ev) (S processed) s
      end
  end.

Definition FanoutOnce (rfc3339 : Z → string) (now : Z) (s : Queue * Tables)
  : (Queue * Tables) * res string nat :=
  match fault OpLoadCursor with
  | Some e => (s, Err ("webhook fanout: load cursor: " +:+ e))
  | None =>
      let last := default 0 (cursor s.2) in
      match fault OpListEvents with
      | Some e => (s, Err ("webhook fanout: list events: " +:+ e))
      | None =>
          let '(s, (last, processed)) :=
            fanout_loop rfc3339 now (ListUnprocessedDomainEvents last s.2) last 0 s in
          if bool_decide (0 < processed)%nat then
            match fault OpSetCursor with
            | Some e => (s, Err ("webhook fanout: persist cursor: " +:+ e))
            | None => ((s.1, SetWebhookCursor last s.2), Ok processed)
            end
          else (s, Ok processed)
      end
  end.

Definition EnqueuePing (hookID now : Z) (s : Queue * Tables) : (Queue * Tables) * option string :=
  match hooks s.2 !! hookID with
  | None => (s, Some "load webhook: no rows in result set")
  | Some hook =>
      let body := default "" (Marshal (JObj [("zen", JStr "Approachable is better than simple.");
                    ("hook", JObj [("id", JNum (HID hook)); ("url", JStr (Url hook))])])) in
      let hdrs := default "" (Marshal (JObj [("User-Agent", JStr "shithub-Hookshot");
                    ("Content-Type", JStr (contentTypeHeader (HContentType hook)));
                    ("X-Shithub-Event", JStr "ping")])) in
      match fault (OpCreateDelivery hookID None) with
      | Some e => (s, Some ("create ping delivery: " +:+ e))
      | None =>
          let '(d, t) := CreateDelivery (fresh_delivery hookID "ping" None body hdrs
                           (idempotencyKey hookID 0 body) 3 None now) s.2 in
          let '(job, q) := workerEnqueueDeliver (DID d) now s.1 in
          ((q, t), match job with Ok _ => None | Err e => Some ("enqueue ping: " +:+ e) end)
      end
  end.

Definition Redeliver (originalID now : Z) (s : Queue * Tables)
  : (Queue * Tables) * (Z * option string) :=
  match deliveries s.2 !! originalID with
  | None => (s, (0, Some "load original: no rows in result set"))
  | Some o =>
      match fault (OpCreateDelivery (WebhookID o) (EventID o)) with
      | Some e => (s, (0, Some ("create redelivery: " +:+ e)))
      | None =>
          let '(d, t) :=
            CreateDelivery (fun id =>
              MkDelivery id (WebhookID o) (EventKind o) (EventID o) (DPayload o) (RequestHeaders o)
                (RequestBody o) 1 (DMaxAttempts o) (Some now) Pending (IdempotencyKey o)
                (Some (DID o)) noResponse None None) s.2 in
          let '(job, q) := workerEnqueueDeliver (DID d) now s.1 in
          ((q, t),
           (DID d, match job with Ok _ => None | Err e => Some ("enqueue redelivery: " +:+ e) end))
      end
  end.

(** ** manage.go *)

Record CreateParams := MkCreate {
  cOwnerKind : string; cOwnerID : Z; cURL : string; cContentType : string; cEvents : list string;
  cSecret : string; cActive : bool
}.

Record UpdateParams := MkUpdate {
  upURL : string; upContentType : string; upEvents : list string; upActive : bool;
  upNewSecret : string
}.

Inductive ManageErr := ErrBadURL (detail : string) | ErrBadContentType | ErrBadOwnerKind | ErrBadEvent
| ErrSeal.

Definition parseOwnerKind (s : string) : res ManageErr OwnerKind :=
  if decide (s = "repo") then Ok RepoOwner
  else if decide (s = "org") then Ok OrgOwner else Err ErrBadOwnerKind.

Definition parseContentType (s : string) : res ManageErr ContentType :=
  if decide (s = "" ∨ s = "json") then Ok ContentJson
  else if decide (s = "form") then Ok ContentForm else Err ErrBadContentType.

Definition blank (c : ascii) : bool := bool_decide (c ∈ [" "; "009"; "010"; "013"]%char).

Fixpoint drop_blank (s : string) : string :=
  match s with String c s' => if blank c then drop_blank s' else s | "" => "" end.

Definition trim (s : string) : string := str_rev (drop_blank (str_rev (drop_blank s))).

Definition lower (s : string) : string := str_map ascii_lower s.

(** The loop of normalizeEvents. *)
Fixpoint normalize_loop (events seen : list string) : res ManageErr (list string) :=
  match events with
  | [] => Ok []
  | e :: events =>
      let e := lower (trim e) in
      if decide (e = "") then normalize_loop events seen
      else if bool_decide (64 < String.length e)%nat then Err ErrBadEvent
      else if decide (e ∈ seen) then normalize_loop events seen
      else out ← normalize_loop events (e :: seen); Ok (e :: out)
  end.

Definition normalizeEvents (events : list string) : res ManageErr (list string) :=
  normalize_loop events [].

Definition validateURL (raw : string) : res ManageErr unit :=
  match ParseURL raw with
  | None => Err (ErrBadURL "")
  | Some (scheme, host) =>
      if decide ((scheme ≠ "http" ∧ scheme ≠ "https") ∨ host = "") then Err (ErrBadURL "") else Ok tt
  end.

Definition checkURL (raw : string) : res ManageErr unit :=
  validateURL raw ≫= fun _ =>
  match SSRF_ValidateWithResolve raw with Some e => Err (ErrBadURL e) | None => Ok tt end.

Definition SealSecret (secret : string) : res ManageErr (string * string) :=
  if decide (secret = "") then Err ErrSeal
  else match Seal secret with Some cn => Ok cn | None => Err ErrSeal end.

(** [random] is the hex text GenerateSecret mints. *)
Definition Create (random : string) (p : CreateParams) (now : Z) (s : Queue * Tables)
  : (Queue * Tables) * res ManageErr Hook :=
  let r :=
    _ ← checkURL (cURL p);
    k ← parseOwnerKind (cOwnerKind p);
    ct ← parseContentType (cContentType p);
    events ← normalizeEvents (cEvents p);
    cn ← SealSecret (if decide (cSecret p = "") then random else cSecret p);
    Ok (k, MkHookParams (cURL p) ct events (cActive p), cn) in
  match r with
  | Err e => (s, Err e)
  | Ok (k, hp, (cipher, nonce)) =>
      let '(h, t) := CreateWebhook k (cOwnerID p) hp cipher nonce s.2 in
      ((EnqueuePing (HID h) now (s.1, t)).1, Ok h)
  end.

Definition Update (hookID : Z) (p : UpdateParams) (t : Tables) : Tables * option ManageErr :=
  let r :=
    _ ← checkURL (upURL p);
    ct ← parseContentType (upContentType p);
    events ← normalizeEvents (upEvents p);
    Ok (MkHookParams (upURL p) ct events (upActive p)) in
  match r with
  | Err e => (t, Some e)
  | Ok hp =>
      let t := UpdateWebhook hookID hp t in
      if decide (upNewSecret p = "") then (t, None)
      else match SealSecret (upNewSecret p) with
           | Err e => (t, Some e)
           | Ok (cipher, nonce) => (UpdateWebhookSecret hookID cipher nonce t, None)
           end
  end.

Definition DeleteHook (hookID : Z) (t : Tables) : Tables := DeleteWebhook hookID t.

Definition SetActive (hookID : Z) (active : bool) (t : Tables) : Tables :=
  SetWebhookActive hookID active t.

(** ** The handlers of internal/worker/jobs/webhook.go *)

(** [UnmarshalDeliverPayload] is [json.Unmarshal] into [deliverPayload]. *)
Definition WebhookDeliver (UnmarshalDeliverPayload : string → option Z) (jitter : Z → Z)
  : Handler (St := Tables) :=
  fun raw now s =>
    match UnmarshalDeliverPayload raw with
    | None => (s, Poison "bad payload")
    | Some id =>
        if bool_decide (id ≤ 0) then (s, Poison "delivery_id must be positive")
        else
          let '(t, err) := Deliver now jitter id s.2 in
          ((s.1, t), match err with None => Done | Some e => Failed e end)
    end.

Definition WebhookFanout (rfc3339 : Z → string) : Handler (St := Tables) :=
  fun _ now s =>
    let '(s, r) := FanoutOnce rfc3339 now s in
    match r with
    | Err e => (s, Failed e)
    | Ok processed =>
        if bool_decide (FanoutBatch ≤ processed)%nat then
          match fault OpEnqueueFanout with
        | Some _ => (s, Done)
        | None =>
            (((Enqueue KindWebhookFanout "{}" (MkEnqueueOptions None 0) now s.1).2, s.2), Done)
        end
        else (s, Done)
    end.

Definition WebhookPurgeOld (retention : Z) : Handler (St := Tables) :=
  fun _ now s =>
    let retention := if bool_decide (retention ≤ 0) then 30 * 24 * hour else retention in
    ((s.1, PurgeOldDeliveries retention now s.2), Done).

End Webhook.
