(* ===== verification/WebhookFacts.v ===== *)
(** * WebhookFacts: what becomes of a webhook delivery *)

From S2P Require Import Prelude GoString Worker WorkerFacts Webhook.
Local Open Scope Z_scope.

(** ** The retry delay *)

Lemma wbackoff_loop_spec (n : nat) (d : Z) :
  0 < d ≤ BackoffMax → wbackoff_loop n d = Z.min BackoffMax (d * 2 ^ Z.of_nat n).
Proof.
  revert d. induction n as [|n IH]; intros d Hd; cbn [wbackoff_loop].
  - rewrite Z.pow_0_r. lia.
  - rewrite Nat2Z.inj_succ, Z.pow_succ_r by lia.
    assert (0 < 2 ^ Z.of_nat n) by (apply Z.pow_pos_nonneg; lia).
    case_bool_decide as Hc; [nia|]. rewrite IH by lia. f_equal. lia.
Qed.

Lemma WBackoff_closed (n : Z) :
  WBackoff n None = Z.min BackoffMax (BackoffBase * 2 ^ (Z.max 1 n - 1)).
Proof.
  assert (0 < BackoffBase ≤ BackoffMax) as Hb by (split; vm_compute; congruence).
  unfold WBackoff. cbv zeta. rewrite wbackoff_loop_spec by done.
  case_bool_decide; case_bool_decide; rewrite ?Z2Nat.id in * by lia;
    rewrite ?Z.max_l, ?Z.max_r in * by lia; lia.
Qed.

(** ** Strings kept *)

Lemma readCappedBody_bound (body : string) (broken : bool) (cap : nat) :
  (String.length (readCappedBody body broken cap).1 ≤ cap)%nat.
Proof.
  unfold readCappedBody. destruct (broken && _) eqn:E.
  - apply andb_true_iff in E as [_ E%bool_decide_eq_true]. cbn. rewrite str_take_length. lia.
  - clear E. case_bool_decide as H; cbn [fst]; [rewrite str_take_length|]; lia.
Qed.

Section Webhook.
  Variable Open : string → string → option string.
  Variable SSRF_Validate : string → option string.
  Variable NewRequest : string → option string.
  Variable Do : Request → res string HTTPResponse.
  Variable Marshal : json → option string.
  Variable UnmarshalHeaders : string → option (gmap string string).
  Variable CanonicalHeaderKey : string → string.
  Variable hmac_sha256_hex sha256_hex : string → string.
  Variable deliveryUUID : Z → string.
  Variable fault : DbOp → option string.
  Variable rfc3339 : Z → string.
  Variable jitter : Z → Z.

Abbreviation deliver := (Deliver Open SSRF_Validate NewRequest Do Marshal UnmarshalHeaders
  CanonicalHeaderKey hmac_sha256_hex deliveryUUID).

(** The request of a delivery. *)
Definition request (d : Delivery) (h : Hook) (secret : string) : Request :=
  applyHeaders UnmarshalHeaders CanonicalHeaderKey hmac_sha256_hex (MkRequest (Url h) ∅ (RequestBody d))
    (RequestHeaders d) (deliveryUUID (DID d)) secret.

(** ** One attempt *)

Inductive verdict := Accepted | Again | Rejected.

Definition judge (r : res string HTTPResponse) : verdict :=
  match r with
  | Err _ => Again
  | Ok resp =>
      let c := StatusCode resp in
      if decide (200 ≤ c < 400) then Accepted
      else if decide (c = 408 ∨ c = 429 ∨ 500 ≤ c < 600) then Again else Rejected
  end.

(** The hook after a failure that counts. *)
Definition counted (h h' : Hook) : Prop :=
  ConsecutiveFailures h' = ConsecutiveFailures h + 1 ∧
  (DisabledAt h' = None ↔ ConsecutiveFailures h + 1 < AutoDisableThreshold h).

Lemma recordFailure_spec (h : Hook) (now : Z) (t : Tables) :
  hooks t !! HID h = Some h → DisabledAt h = None →
  let t' := recordFailure h now t in
  deliveries t' = deliveries t ∧ ∃ h', hooks t' !! HID h = Some h' ∧ counted h h'.
Proof.
  intros Hh Hd. unfold recordFailure, RecordWebhookFailure. rewrite Hh. cbv zeta.
  case_bool_decide as Hc; (split; [done|]).
  - unfold AutoDisableWebhook. cbn. rewrite lookup_alter_eq, lookup_insert_eq. cbn.
    eexists. split; [done|]. split; [done|]. cbn in *. split; [done|lia].
  - cbn. rewrite lookup_insert_eq. eexists. split; [done|]. split; [done|]. cbn in *.
    rewrite Hd. split; [lia|done].
Qed.

Definition same_key (d d' : Delivery) : Prop :=
  DID d' = DID d ∧ WebhookID d' = WebhookID d ∧ RequestBody d' = RequestBody d ∧
  IdempotencyKey d' = IdempotencyKey d ∧ DMaxAttempts d' = DMaxAttempts d.

Definition kept_body (d : Delivery) : Prop :=
  ∀ b, ResponseBody (Resp d) = Some b → (String.length b ≤ ResponseBodyCap)%nat.

(** The row and the hook after an attempt with the given verdict. *)
Definition after (v : verdict) (now : Z) (d : Delivery) (h : Hook) (d' : Delivery) (h' : Hook)
  : Prop :=
  same_key d d' ∧ kept_body d' ∧ Attempt d' ≤ DMaxAttempts d' ∧
  match v with
  | Accepted => DStatus d' = Succeeded ∧ Attempt d' = Attempt d ∧ ConsecutiveFailures h' = 0
  | Again =>
      if decide (Attempt d < DMaxAttempts d) then
        DStatus d' = FailedRetry ∧ Attempt d' = Attempt d + 1 ∧ h' = h ∧
        NextRetryAt d' = Some (now + WBackoff (Attempt d + 1) (Some jitter))
      else DStatus d' = FailedPermanent ∧ Attempt d' = Attempt d ∧ counted h h'
  | Rejected => DStatus d' = FailedPermanent ∧ Attempt d' = Attempt d ∧ counted h h'
  end.

Lemma retry_spec d h status hdrs body tr summary now t :
  deliveries t !! DID d = Some d → hooks t !! HID h = Some h → DisabledAt h = None →
  Attempt d ≤ DMaxAttempts d →
  (∀ b, body = Some b → String.length b ≤ ResponseBodyCap)%nat →
  let t' := scheduleRetryOrPermanentWithResp d h status hdrs body tr summary now jitter t in
  ∃ d' h', deliveries t' !! DID d = Some d' ∧ hooks t' !! HID h = Some h' ∧ after Again now d h d' h'.
Proof.
  intros Hd Hh Hdis Hatt Hb. unfold scheduleRetryOrPermanentWithResp. cbv zeta. unfold after.
  case_bool_decide as Hc.
  - destruct (recordFailure_spec h now
      (MarkDeliveryPermanentFailure (DID d) (MkResponse (statusVal status) hdrs body tr) now
         (summary +:+ " (max_attempts exhausted)") t) Hh Hdis) as (Hdel & h' & Hh' & Hcnt).
    eexists _, h'. split.
    { rewrite Hdel. cbn. by rewrite lookup_alter_eq, Hd. }
    split; [done|]. split; [done|]. split; [exact Hb|]. split; [done|].
    by rewrite decide_False by lia.
  - eexists _, h. split.
    { cbn. by rewrite lookup_alter_eq, Hd. }
    split; [done|]. split; [done|]. split; [exact Hb|]. split; [cbn; lia|].
    by rewrite decide_True by lia.
Qed.

(** One attempt to deliver: for a delivery that is still open, with an
    active hook whose secret opens and whose URL passes the checks, the exchange
    decides.  A 2xx or 3xx answer makes it [Succeeded] and clears the failure count of
    the hook.  A broken exchange, 408, 429 and 5xx make it [FailedRetry], with one
    attempt more and the time of the next one set, as long as attempts are left;
    when none are, and for every other answer, it is [FailedPermanent], the failure
    is counted, and the hook is disabled exactly when the count reaches its
    threshold.  The attempts never exceed the maximum, at most 32 KiB of the answer
    are kept, the receiver gets the stored body signed under the secret of the hook,
    and a delivery that is settled is left alone. *)
Theorem Deliver_verdict (now id : Z) (d : Delivery) (h : Hook) (secret : string) (t : Tables) :
  deliveries t !! id = Some d → DID d = id → hooks t !! WebhookID d = Some h →
  HID h = WebhookID d → Attempt d ≤ DMaxAttempts d →
  Active h = true → DisabledAt h = None → Open (SecretCiphertext h) (SecretNonce h) = Some secret →
  SSRF_Validate (Url h) = None → Z.of_nat (String.length (RequestBody d)) ≤ MaxBodySize →
  NewRequest (Url h) = None →
  if terminal (DStatus d) then deliver now jitter id t = (t, None)
  else
    let r := request d h secret in
    QBody r = RequestBody d ∧
    QHeaders r !! CanonicalHeaderKey "X-Shithub-Signature-256" =
      Some (SignSHA256 hmac_sha256_hex secret (RequestBody d)) ∧
    ∃ t' d' h', deliver now jitter id t = (t', None) ∧ deliveries t' !! id = Some d' ∧
      hooks t' !! WebhookID d = Some h' ∧
      after (judge (Do r)) now d h d' h'.
Proof.
  intros Hd Hid Hh Hhid Hatt Hact Hdis Hopen Hssrf Hsize Hnew.
  unfold Deliver. rewrite Hd. destruct (terminal (DStatus d)) eqn:Et; [done|].
  rewrite Hh, Hact, Hdis. cbn [negb orb]. rewrite (bool_decide_false (is_Some None)) by by intros [].
  unfold OpenSecret. rewrite Hopen, Hssrf, bool_decide_false, Hnew by lia.
  cbv zeta. fold (request d h secret) in *. rewrite <-Hid. fold (request d h secret).
  split; [done|]. split; [unfold request, applyHeaders, SetHeader; cbn; by rewrite lookup_insert_eq|].
  rewrite <-Hhid in Hh |- *. rewrite <-Hid in Hd.
  destruct (Do (request d h secret)) as [resp|e].
  - pose proof (readCappedBody_bound (Body resp) (Broken resp) ResponseBodyCap) as Hb.
    destruct (readCappedBody _ _ _) as [body tr]. cbn [fst] in Hb. cbn [judge].
    assert (∀ b, Some body = Some b → (String.length b ≤ ResponseBodyCap)%nat) as Hbody
      by by intros ? [= <-].
    destruct (decide (200 ≤ StatusCode resp < 400)) as [Hok|Hok].
    { rewrite !bool_decide_true by lia. cbn [andb]. eexists _, _, _. split; [done|].
      split; [cbn; by rewrite lookup_alter_eq, Hd|]. split; [cbn; by rewrite lookup_alter_eq, Hh|].
      split_and!; [done|exact Hbody|done..]. }
    destruct (bool_decide _ && bool_decide _) eqn:Eb; [bools; lia|]. clear Eb.
    unfold isRetryableStatus.
    destruct (decide (StatusCode resp = 408 ∨ StatusCode resp = 429 ∨ 500 ≤ StatusCode resp < 600)) as [Hre|Hre].
    + assert ((if bool_decide (StatusCode resp = 408) || bool_decide (StatusCode resp = 429) then true
        else bool_decide (500 ≤ StatusCode resp) && bool_decide (StatusCode resp < 600)) = true) as ->.
      { repeat case_bool_decide; cbn; try done; lia. }
      destruct (retry_spec d h (StatusCode resp) (headerJSON Marshal (Header resp)) (Some body) tr
        ("HTTP " +:+ pretty (StatusCode resp) +:+ " (retryable)") now t Hd Hh Hdis Hatt Hbody)
        as (d' & h' & H1 & H2 & H3). by eexists _, d', h'.
    + assert ((if bool_decide (StatusCode resp = 408) || bool_decide (StatusCode resp = 429) then true
        else bool_decide (500 ≤ StatusCode resp) && bool_decide (StatusCode resp < 600)) = false) as ->.
      { repeat case_bool_decide; cbn; try done; lia. }
      set (t1 := MarkDeliveryPermanentFailure _ _ _ _ _).
      destruct (recordFailure_spec h now t1 Hh Hdis) as (Hdel & h' & Hh' & Hcnt).
      eexists _, _, h'. split; [done|]. rewrite Hdel. unfold t1.
      split; [cbn; by rewrite lookup_alter_eq, Hd|]. split; [done|].
      split; [done|]. split; [exact Hbody|]. split; [done|]. split; [done|]. by split.
  - destruct (retry_spec d h 0 None None false ("transport: " +:+ e) now t Hd Hh Hdis Hatt ltac:(done))
      as (d' & h' & H1 & H2 & H3). by eexists _, d', h'.
Qed.

(** ** What a run changes *)

Lemma recordFailure_frame (h : Hook) (now : Z) (t : Tables) :
  deliveries (recordFailure h now t) = deliveries t ∧
  next_delivery (recordFailure h now t) = next_delivery t.
Proof.
  unfold recordFailure, RecordWebhookFailure. destruct (hooks t !! HID h); [|done]. cbv zeta.
  by case_bool_decide.
Qed.

(** The tables differ in hooks, and in the row [id] up to its key. *)
Definition touches (id : Z) (t t' : Tables) : Prop :=
  next_delivery t' = next_delivery t ∧
  ∃ f, (∀ d, DID (f d) = DID d) ∧ deliveries t' = alter f id (deliveries t).

Lemma touches_refl id t : touches id t t.
Proof. split; [done|]. exists (fun d => d). split; [done|]. symmetry. by apply alter_id. Qed.

Lemma touches_hooks id g t t' : touches id t t' → touches id t (on_hooks g t').
Proof. done. Qed.

Lemma touches_alter id f t : (∀ d, DID (f d) = DID d) → touches id t (on_deliveries (alter f id) t).
Proof. intros Hf. split; [done|]. by exists f. Qed.

Lemma touches_failure id h now t t' : touches id t t' → touches id t (recordFailure h now t').
Proof. unfold touches. destruct (recordFailure_frame h now t') as [-> ->]. done. Qed.

Lemma touches_retry id d h status hdrs body tr summary now t :
  DID d = id → touches id t (scheduleRetryOrPermanentWithResp d h status hdrs body tr summary now jitter t).
Proof.
  intros <-. unfold scheduleRetryOrPermanentWithResp. cbv zeta. case_bool_decide.
  - apply touches_failure. by apply touches_alter.
  - by apply touches_alter.
Qed.

Create HintDb webhook.
Hint Resolve touches_refl touches_hooks touches_failure touches_retry : webhook.
Hint Extern 1 (touches _ _ (MarkDeliveryPermanentFailure _ _ _ _ _)) => by apply touches_alter : webhook.
Hint Extern 1 (touches _ _ (MarkDeliverySucceeded _ _ _ _)) => by apply touches_alter : webhook.
Hint Extern 1 (touches _ _ (AutoDisableWebhook _ _ _ _)) => apply touches_hooks : webhook.
Hint Extern 1 (touches _ _ (RecordWebhookSuccess _ _)) => apply touches_hooks : webhook.

(** [Deliver] changes hooks and the one row, and nothing when it fails. *)
Lemma Deliver_frame now id t :
  (∀ d, deliveries t !! id = Some d → DID d = id) →
  touches id t (deliver now jitter id t).1 ∧
  ((deliver now jitter id t).2 ≠ None → (deliver now jitter id t).1 = t).
Proof.
  intros Hid. unfold Deliver. destruct (deliveries t !! id) as [row|]; [|auto with webhook].
  specialize (Hid row eq_refl). unfold scheduleRetryOrPermanent.
  repeat case_match; cbn; split; auto with webhook; try done.
Qed.
End Webhook.

Definition sample_hook : Hook :=
  MkHook 1 RepoOwner 7 "https://example.test" ContentJson [] "c" "n" true None None 0 50.

Definition sample_delivery : Delivery :=
  MkDelivery 1 1 "push" (Some 3) "{}" "h" "{}" 1 8 None Pending "key" None noResponse None None.

Definition sample_tables : Tables :=
  MkTables {[1 := sample_hook]} {[1 := sample_delivery]} 2 [] None ∅ 2.

Lemma Deliver_verdict_witness :
  let Do (_ : Request) := Ok (MkHTTP 503 ∅ "busy" false) in
  let run := Deliver (fun _ _ => Some "secret") (fun _ => None) (fun _ => None) Do (fun _ => None)
    (fun _ => None) (fun k => k) (fun b => b) (fun _ => "uuid") 100 (fun d => d) 1 sample_tables in
  ∃ t' d' h', run = (t', None) ∧ deliveries t' !! 1 = Some d' ∧ hooks t' !! 1 = Some h' ∧
    after (fun d => d) Again 100 sample_delivery sample_hook d' h'.
Proof.
  intros Do run.
  apply (Deliver_verdict (fun _ _ => Some "secret") (fun _ => None) (fun _ => None) Do (fun _ => None)
    (fun _ => None) (fun k => k) (fun b => b) (fun _ => "uuid") (fun d => d) 100 1 sample_delivery
    sample_hook "secret" sample_tables); try reflexivity; vm_compute; discriminate.
Defined.
