(* ===== verification/WebhookSystem.v ===== *)
(** * WebhookSystem: the hooks, their deliveries and the job queue together

    The handlers cmd/shithubd/worker.go registers for webhooks, run by a worker
    ([Worker.runOne]), next to what the web handlers do with hooks and deliveries
    and to the jobs of other kinds.  One step is one run from its claim to its
    record, or one call: no process dies half way, and no administrator
    re-arms a job (web/handlers/admin/jobs.go). *)

From S2P Require Import Prelude GoString Worker Webhook.
Local Open Scope Z_scope.

(** What is outside of the repository or not modelled: see [Webhook]. *)
Record Env := MkEnv {
  eOpen : string → string → option string;
  eSeal : string → option (string * string);
  eSSRF : string → option string;
  eSSRFResolve : string → option string;
  eNewRequest : string → option string;
  eMarshal : json → option string;
  eUnmarshalHeaders : string → option (gmap string string);
  eCanonical : string → string;
  eHmac : string → string;
  eSha : string → string;
  eParseURL : string → option (string * string);
  eUUID : Z → string;
  eRfc3339 : Z → string;
  eUnmarshalPayload : string → option Z
}.

(** The part of worker.go that registers the handlers; [Do] is the exchange with
    the receivers and [fault] the fate of the statements, in this run. *)
Definition webhook_handlers (e : Env) (Do : Request → res string HTTPResponse)
    (fault : DbOp → option string) (jitter : Z → Z) (retention : Z) : handlers (St := Tables) :=
  Register KindWebhookPurgeOld (WebhookPurgeOld retention)
    (Register KindWebhookDeliver
       (WebhookDeliver (eOpen e) (eSSRF e) (eNewRequest e) Do (eMarshal e) (eUnmarshalHeaders e)
          (eCanonical e) (eHmac e) (eUUID e) (eUnmarshalPayload e) jitter)
       (Register KindWebhookFanout (WebhookFanout (eMarshal e) (eSha e) fault (eRfc3339 e)) ∅)).

Inductive wstep (e : Env) : Queue * Tables → Queue * Tables → Prop :=
| w_run s Do fault jitter retention by_ kind t0 t1 delay :
    wstep e s (runOne (webhook_handlers e Do fault jitter retention) by_ kind t0 t1 delay s).2
| w_enqueue q t kind payload opts now :
    kind ≠ KindWebhookDeliver → wstep e (q, t) ((Enqueue kind payload opts now q).2, t)
| w_purge q t cutoff : wstep e (q, t) (PurgeFailedJobs cutoff (PurgeCompletedJobs cutoff q), t)
| w_event q t ev :
    wstep e (q, t) (q, MkTables (hooks t) (deliveries t) (next_delivery t)
                         (domain_events t ++ [ev]) (cursor t) (repo_org t) (next_hook t))
| w_ping s fault id now : wstep e s (EnqueuePing (eMarshal e) (eSha e) fault id now s).1
| w_redeliver s fault id now : wstep e s (Redeliver fault id now s).1
| w_create s fault random p now :
    wstep e s (Create (eSeal e) (eSSRFResolve e) (eMarshal e) (eSha e) (eParseURL e) fault random p
                 now s).1
| w_update q t id p :
    wstep e (q, t) (q, (Update (eSeal e) (eSSRFResolve e) (eParseURL e) id p t).1)
| w_delete q t id : wstep e (q, t) (q, DeleteHook id t)
| w_set_active q t id active : wstep e (q, t) (q, SetActive id active t).

(** Hooks and events may be there at the start; deliveries and jobs are not. *)
Definition wstart (t : Tables) : Prop := deliveries t = ∅ ∧ 0 < next_delivery t.
