(* ===== verification/WebhookSystemFacts.v ===== *)
(** * WebhookSystemFacts: a delivery waiting for its retry waits forever, unless its job is re-armed by hand *)

From S2P Require Import Prelude GoString Worker WorkerFacts Webhook WebhookFacts WebhookSystem.
Local Open Scope Z_scope.

(** The job is a delivery still to be made. *)
Definition open_deliver (j : Job) : Prop := Kind j = KindWebhookDeliver ∧ settled j = false.

(** Every open job is for one delivery of its own, which is not waiting for a
    retry. *)
Record linked (s : Queue * Tables) : Prop := {
  lk_queue : keyed s.1;
  lk_rows : ∀ n d, deliveries s.2 !! n = Some d → DID d = n ∧ n < next_delivery s.2;
  lk_next : 0 < next_delivery s.2;
  lk_job : ∀ i j, jobs s.1 !! i = Some j → open_deliver j →
    ∃ n, Payload j = MarshalDeliverPayload n ∧ 0 < n < next_delivery s.2 ∧
      ∀ d, deliveries s.2 !! n = Some d → DStatus d ≠ FailedRetry;
  lk_one : ∀ i i' j j', jobs s.1 !! i = Some j → jobs s.1 !! i' = Some j' →
    open_deliver j → open_deliver j' → Payload j = Payload j' → i = i'
}.

(** From [s] to [s'] only deliveries that do not wait for a retry change; others
    can go. *)
Definition quiet (s s' : Queue * Tables) : Prop :=
  linked s' ∧ next_delivery s.2 ≤ next_delivery s'.2 ∧
  ∀ n, n < next_delivery s.2 →
    deliveries s'.2 !! n = deliveries s.2 !! n ∨ deliveries s'.2 !! n = None ∨
    ∃ d, deliveries s.2 !! n = Some d ∧ DStatus d ≠ FailedRetry.

Lemma quiet_refl s : linked s → quiet s s.
Proof. intros Hl. split; [done|]. split; [lia|]. by left. Qed.

Lemma quiet_trans s1 s2 s3 : quiet s1 s2 → quiet s2 s3 → quiet s1 s3.
Proof.
  intros (_ & Hn1 & H1) (Hl & Hn2 & H2). split; [done|]. split; [lia|]. intros n Hn.
  destruct (H1 n Hn) as [He|[He|?]]; [..|by auto];
    destruct (H2 n ltac:(lia)) as [He'|[He'|(d & Hd & ?)]]; rewrite ?He', ?He; auto.
  - right. right. exists d. by rewrite <-He.
  - by rewrite He in Hd.
Qed.

(** ** The queue alone *)

Lemma quiet_queue q t q' :
  linked (q, t) → keyed q' →
  (∀ i j', jobs q' !! i = Some j' → open_deliver j' →
     ∃ j, jobs q !! i = Some j ∧ open_deliver j ∧ Payload j = Payload j') →
  quiet (q, t) (q', t).
Proof.
  intros Hl Hk Hq. split; [|split; [cbn; lia|by left]]. split; cbn [fst snd].
  - done.
  - apply (lk_rows _ Hl).
  - apply (lk_next _ Hl).
  - intros i j' Hj' Ho. destruct (Hq i j' Hj' Ho) as (j & Hj & Hoj & <-). by apply (lk_job _ Hl i).
  - intros i i' j j' Hj Hj' Ho Ho' Hp.
    destruct (Hq i j Hj Ho) as (j0 & Hj0 & Ho0 & Hp0).
    destruct (Hq i' j' Hj' Ho') as (j1 & Hj1 & Ho1 & Hp1).
    apply (lk_one _ Hl i i' j0 j1); [done..|congruence].
Qed.

(** A change of a row that keeps its key, kind and payload and does not open it. *)
Definition calm (f : Job → Job) : Prop :=
  ∀ j, ID (f j) = ID j ∧ Kind (f j) = Kind j ∧ Payload (f j) = Payload j ∧
       (settled (f j) = false → settled j = false).

Lemma calm_open f j : calm f → open_deliver (f j) → open_deliver j.
Proof. intros Hf [Hk Hs]. destruct (Hf j) as (_ & Hk' & _ & Hs'). split; [congruence|auto]. Qed.

Lemma update_lookup i f q k j' :
  jobs (update_job i f q) !! k = Some j' →
  (i ≠ k ∧ jobs q !! k = Some j') ∨ ∃ j, k = i ∧ jobs q !! i = Some j ∧ j' = f j.
Proof.
  unfold update_job. cbn. intros [(-> & j & Hj & ->)|?]%lookup_alter_Some; [right|by left].
  by exists j.
Qed.

Lemma keyed_update q i f : calm f → keyed q → keyed (update_job i f q).
Proof.
  intros Hf Hk k j' [[_ Hj]|(j & -> & Hj & ->)]%update_lookup; [by apply Hk|].
  destruct (Hf j) as (-> & _). by apply Hk.
Qed.

Lemma quiet_update q t i f : calm f → linked (q, t) → quiet (q, t) (update_job i f q, t).
Proof.
  intros Hf Hl. apply quiet_queue; [done|apply keyed_update; [done|apply (lk_queue _ Hl)]|].
  intros k j' [[_ Hj]|(j & -> & Hj & ->)]%update_lookup Ho; [by exists j'|].
  exists j. split; [done|]. split; [by apply (calm_open f)|]. symmetry. apply Hf.
Qed.

Lemma settled_now (j : Job) (t : Z) :
  CompletedAt j = Some t ∨ FailedAt j = Some t → settled j = true.
Proof.
  unfold settled. intros [-> | ->]; rewrite (bool_decide_true (is_Some (Some t))) by eauto; [done|].
  apply orb_true_r.
Qed.

Lemma calm_completed id now q : ∃ f, calm f ∧ MarkJobCompleted id now q = update_job id f q ∧
  ∀ j, settled (f j) = true.
Proof.
  eexists. split; [|split; [done|]]; intros j.
  - split_and!; [done..|]. rewrite (settled_now _ now); [done|by left].
  - apply (settled_now _ now). by left.
Qed.

Lemma record_calm job e now jitter q : ∃ f, calm f ∧ record job e now jitter q = update_job (ID job) f q.
Proof.
  unfold record. destruct e as [[m|m]|].
  - eexists. split; [|done]. intros j. split_and!; [done..|]. rewrite (settled_now _ now); [done|by right].
  - case_bool_decide; (eexists; split; [|done]); intros j; (split_and!; [done..|]).
    + rewrite (settled_now _ now); [done|by right].
    + done.
  - destruct (calm_completed (ID job) now q) as (f & ? & ? & _). by exists f.
Qed.

Lemma quiet_record job e now jitter q t :
  linked (q, t) → quiet (q, t) (record job e now jitter q, t).
Proof. intros Hl. destruct (record_calm job e now jitter q) as (f & Hf & ->). by apply quiet_update. Qed.

Lemma quiet_claim kind by_ now q t j q' :
  linked (q, t) → ClaimJob kind by_ now q = Some (j, q') →
  quiet (q, t) (q', t) ∧ jobs q' !! ID j = Some j ∧ Kind j = kind ∧ settled j = false.
Proof.
  intros Hl Hc. pose proof (ClaimJob_spec kind by_ now q (lk_queue _ Hl)) as Hs. rewrite Hc in Hs.
  destruct Hs as (j0 & -> & Hj0 & Hcl & _ & ->). apply claimable_settled in Hcl as [Hk Hs0].
  split; [|split; [cbn; apply lookup_insert_eq|done]].
  rewrite <-(update_job_insert _ (lock by_ now) q j0) by done. by apply quiet_update.
Qed.

Lemma quiet_enqueue q t kind payload opts now :
  kind ≠ KindWebhookDeliver → linked (q, t) → quiet (q, t) ((Enqueue kind payload opts now q).2, t).
Proof.
  intros Hkind Hl. pose proof (lk_queue _ Hl) as Hk. cbn in Hk.
  apply quiet_queue; [done|..]; unfold Enqueue, EnqueueJob; cbn [snd].
  - intros i j. cbn. intros [[<- <-]|[_ Hj]]%lookup_insert_Some; cbn; [lia|].
    destruct (Hk _ _ Hj). lia.
  - intros i j. cbn. intros [[<- <-]|[_ Hj]]%lookup_insert_Some; [by intros [? _]|eauto].
Qed.

(** ** The tables alone *)

Lemma quiet_tables q t t' :
  linked (q, t) → next_delivery t' = next_delivery t → deliveries t' ⊆ deliveries t →
  quiet (q, t) (q, t').
Proof.
  intros Hl Hn Hsub. pose proof (lookup_weaken (deliveries t') (deliveries t)) as Hw. split; cbn.
  - split; cbn; rewrite ?Hn; try apply Hl.
    + intros n d Hd. apply (lk_rows _ Hl). cbn. by apply Hw.
    + intros i j Hj Ho. destruct (lk_job _ Hl i j Hj Ho) as (n & Hp & Hb & Hd). exists n.
      split; [exact Hp|]. split; [exact Hb|]. cbn in Hd. intros d Hd'. apply Hd. by apply Hw.
  - split; [lia|]. intros n _. destruct (deliveries t' !! n) as [d|] eqn:E; [left|by right; left].
    symmetry. by apply Hw.
Qed.

Lemma append_inj_l (a b t : string) : a +:+ t = b +:+ t → a = b.
Proof.
  revert b. induction a as [|c a IH]; intros b Hs.
  - apply (f_equal String.length) in Hs. rewrite !str_length_append in Hs. by destruct b; cbn in Hs; [|lia].
  - destruct b as [|c' b].
    + apply (f_equal String.length) in Hs. rewrite !str_length_append in Hs. cbn in Hs. lia.
    + rewrite !str_app_cons in Hs. injection Hs as -> Hs. by rewrite (IH b).
Qed.

Lemma MarshalDeliverPayload_inj n m : MarshalDeliverPayload n = MarshalDeliverPayload m → n = m.
Proof.
  unfold MarshalDeliverPayload. intros Hs. cbn in Hs. repeat (injection Hs as Hs).
  change (pretty n +:+ "}" = pretty m +:+ "}") in Hs. apply append_inj_l in Hs. by apply (inj pretty).
Qed.

(** A new delivery and its job. *)
Lemma quiet_create_row q t mk :
  linked (q, t) → DID (mk (next_delivery t)) = next_delivery t →
  quiet (q, t) (q, (CreateDelivery mk t).2).
Proof.
  intros Hl Hid. pose proof (lk_next _ Hl) as Hpos. cbn in Hpos. unfold CreateDelivery. cbn [snd].
  split; [split; cbn|split; cbn].
  - apply (lk_queue _ Hl).
  - intros n d [[<- <-]|[_ Hd]]%lookup_insert_Some; [lia|]. destruct (lk_rows _ Hl _ _ Hd). cbn in *. lia.
  - lia.
  - intros i j Hj Ho. destruct (lk_job _ Hl i j Hj Ho) as (n & Hp & Hn & Hd). cbn in Hn, Hd. exists n.
    split; [done|]. split; [lia|]. rewrite lookup_insert_ne by lia. done.
  - apply (lk_one _ Hl).
  - lia.
  - intros n Hn. left. by rewrite lookup_insert_ne by lia.
Qed.

Lemma quiet_open fault q t mk now :
  linked (q, t) → DID (mk (next_delivery t)) = next_delivery t →
  DStatus (mk (next_delivery t)) = Pending →
  quiet (q, t) ((workerEnqueueDeliver fault (next_delivery t) now q).2, (CreateDelivery mk t).2).
Proof.
  unfold workerEnqueueDeliver. destruct (fault _).
  { intros Hl Hid _. by apply quiet_create_row. }
  intros Hl Hid Hst. pose proof (lk_queue _ Hl) as Hk. pose proof (lk_next _ Hl) as Hpos. cbn in Hk, Hpos.
  unfold Enqueue, EnqueueJob, CreateDelivery. cbn [snd].
  assert (∀ i j n, jobs q !! i = Some j → open_deliver j → Payload j = MarshalDeliverPayload n →
    n < next_delivery t) as Hold.
  { intros i j n Hj Ho Hp. destruct (lk_job _ Hl i j Hj Ho) as (n' & Hp' & Hn' & _).
    rewrite Hp in Hp'. apply MarshalDeliverPayload_inj in Hp'. cbn in Hn'. lia. }
  split; [split; cbn|split; cbn].
  - intros i j. cbn. intros [[<- <-]|[_ Hj]]%lookup_insert_Some; cbn; [lia|]. destruct (Hk _ _ Hj). lia.
  - intros n d [[<- <-]|[_ Hd]]%lookup_insert_Some; [lia|]. destruct (lk_rows _ Hl _ _ Hd). cbn in *. lia.
  - lia.
  - intros i j [[<- <-]|[_ Hj]]%lookup_insert_Some Ho.
    + exists (next_delivery t). split; [done|]. split; [lia|]. intros d. rewrite lookup_insert_eq.
      intros [= <-]. by rewrite Hst.
    + destruct (lk_job _ Hl i j Hj Ho) as (n & Hp & Hn & Hd). cbn in Hn, Hd. exists n.
      split; [done|]. split; [lia|]. rewrite lookup_insert_ne by lia. done.
  - intros i i' j j' [[<- <-]|[_ Hj]]%lookup_insert_Some [[<- <-]|[_ Hj']]%lookup_insert_Some Ho Ho' Hp.
    + done.
    + symmetry in Hp. pose proof (Hold _ _ _ Hj' Ho' Hp). lia.
    + pose proof (Hold _ _ _ Hj Ho Hp). lia.
    + by apply (lk_one _ Hl i i' j j').
  - lia.
  - intros n Hn. left. by rewrite lookup_insert_ne by lia.
Qed.

(** ** The calls *)

(** Opens a delivery in the goal. *)
Ltac open_delivery fault q t now Hl :=
  match goal with |- context [CreateDelivery ?mk t] =>
    pose proof (quiet_open fault q t mk now Hl eq_refl eq_refl) as Ho;
    change (CreateDelivery mk t) with (mk (next_delivery t), (CreateDelivery mk t).2)
  end;
  cbn [DID fresh_delivery];
  destruct (workerEnqueueDeliver fault (next_delivery t) now q) as [job q'].

Lemma subseteq_on_hooks f t : deliveries (on_hooks f t) ⊆ deliveries t.
Proof. done. Qed.

Lemma quiet_ping e fault id now s :
  linked s → quiet s (EnqueuePing (eMarshal e) (eSha e) fault id now s).1.
Proof.
  destruct s as [q t]. intros Hl. unfold EnqueuePing. cbn [snd fst].
  destruct (hooks t !! id); [|by apply quiet_refl].
  destruct (fault (OpCreateDelivery id None)); [by apply quiet_refl|].
  by open_delivery fault q t now Hl.
Qed.

Lemma quiet_redeliver fault id now s : linked s → quiet s (Redeliver fault id now s).1.
Proof.
  destruct s as [q t]. intros Hl. unfold Redeliver. cbn [snd fst].
  destruct (deliveries t !! id); [|by apply quiet_refl].
  destruct (fault _); [by apply quiet_refl|].
  by open_delivery fault q t now Hl.
Qed.

Lemma quiet_create e fault random p now s :
  linked s →
  quiet s (Create (eSeal e) (eSSRFResolve e) (eMarshal e) (eSha e) (eParseURL e) fault random p now s).1.
Proof.
  destruct s as [q t]. intros Hl. unfold Create. cbv zeta.
  destruct (_ ≫= _) as [[[k hp] [cipher nonce]]|err]; [|by apply quiet_refl].
  unfold CreateWebhook. cbn [snd fst].
  match goal with |- quiet _ (EnqueuePing _ _ _ _ _ (_, ?t')).1 =>
    assert (quiet (q, t) (q, t')) as Ht by by apply quiet_tables end.
  eapply quiet_trans; [exact Ht|]. apply quiet_ping, Ht.
Qed.

Lemma quiet_update_hook e id p q t :
  linked (q, t) → quiet (q, t) (q, (Update (eSeal e) (eSSRFResolve e) (eParseURL e) id p t).1).
Proof.
  intros Hl. unfold Update. cbv zeta. destruct (_ ≫= _) as [hp|err]; [|by apply quiet_refl].
  case_decide; [by apply quiet_tables|].
  destruct (SealSecret _ _) as [[cipher nonce]|err]; by apply quiet_tables.
Qed.

Lemma quiet_dispatch e fault ev now subs s :
  linked s →
  quiet s (dispatch_loop (eMarshal e) (eSha e) fault (eRfc3339 e) ev now subs s).1.
Proof.
  revert s. induction subs as [|w subs IH]; intros s Hl; cbn [dispatch_loop]; [by apply quiet_refl|].
  destruct (negb _); [by apply IH|]. destruct (buildPayload _ _ _ _) as [[body headers]|]; [|by apply IH].
  destruct (fault _); [by apply quiet_refl|]. destruct s as [q t]. cbn [fst snd] in *.
  open_delivery fault q t now Hl.
  eapply quiet_trans; [exact Ho|]. apply IH, Ho.
Qed.

Lemma quiet_fanout_loop e fault now rows last n s :
  linked s →
  quiet s (fanout_loop (eMarshal e) (eSha e) fault (eRfc3339 e) now rows last n s).1.
Proof.
  revert last n s. induction rows as [|ev rows IH]; intros last n s Hl; cbn [fanout_loop]; [by apply quiet_refl|].
  assert (quiet s (dispatchEvent (eMarshal e) (eSha e) fault (eRfc3339 e) ev now s).1) as Hd.
  { unfold dispatchEvent. destruct (subscribers _ _ _); [by apply quiet_dispatch|by apply quiet_refl]. }
  destruct (dispatchEvent _ _ _ _ _ _ _) as [s' err]. cbn [fst] in Hd.
  destruct err; [done|]. eapply quiet_trans; [exact Hd|]. apply IH, Hd.
Qed.

Lemma quiet_fanout e fault now s :
  linked s → quiet s (FanoutOnce (eMarshal e) (eSha e) fault (eRfc3339 e) now s).1.
Proof.
  intros Hl. unfold FanoutOnce. destruct (fault OpLoadCursor); [by apply quiet_refl|].
  destruct (fault OpListEvents); [by apply quiet_refl|].
  match goal with |- context [fanout_loop _ _ _ _ _ ?r ?l ?n _] =>
    pose proof (quiet_fanout_loop e fault now r l n s Hl) as Hf end.
  destruct (fanout_loop _ _ _ _ _ _ _ _ _) as [[q t] [last n]]. cbn [fst snd] in *.
  case_bool_decide; [|done]. destruct (fault OpSetCursor); [done|].
  eapply quiet_trans; [exact Hf|]. by apply quiet_tables; [apply Hf|..].
Qed.

Section System.
  Variable e : Env.
  (** What the queue keeps of a payload is read back. *)
  Hypothesis payload_roundtrip :
    ∀ n, 0 < n → eUnmarshalPayload e (MarshalDeliverPayload n) = Some n.

(** The job done and its delivery changed in any way. *)
Lemma quiet_done q t t' i j n now :
  linked (q, t) → jobs q !! i = Some j → open_deliver j → Payload j = MarshalDeliverPayload n →
  touches n t t' → quiet (q, t) (MarkJobCompleted i now q, t').
Proof.
  intros Hl Hj Ho Hp (Hn & f & Hf & Hd). destruct (lk_job _ Hl i j Hj Ho) as (n' & Hp' & Hb & Hst).
  rewrite Hp in Hp'. apply MarshalDeliverPayload_inj in Hp' as <-. cbn in Hb, Hst.
  destruct (calm_completed i now q) as (g & Hg & Hq & Hset).
  destruct (quiet_update q t i g Hg Hl) as (Hl' & _). rewrite <-Hq in Hl'.
  assert (∀ m, m ≠ n → deliveries t' !! m = deliveries t !! m) as Hother.
  { intros m Hm. rewrite Hd. by apply lookup_alter_ne. }
  split; [split; cbn|split; cbn].
  - apply (lk_queue _ Hl').
  - intros m d. rewrite Hn, Hd. intros [(<- & d0 & Hd0 & ->)|[_ Hm]]%lookup_alter_Some.
    + rewrite Hf. by apply (lk_rows _ Hl).
    + by apply (lk_rows _ Hl).
  - rewrite Hn. apply (lk_next _ Hl).
  - intros i' j' Hj' Ho'. rewrite Hn.
    destruct (lk_job _ Hl' i' j' Hj' Ho') as (m & Hpm & Hbm & Hdm). exists m.
    split; [done|]. split; [done|]. rewrite Hother; [done|]. intros ->.
    change (jobs (MarkJobCompleted i now q) !! i' = Some j') in Hj'. rewrite Hq in Hj'.
    apply update_lookup in Hj' as [[Hne Hj']|(j0 & -> & _ & ->)].
    + apply Hne, (lk_one _ Hl i i' j j'); [done..|congruence].
    + destruct Ho' as [_ Ho']. by rewrite Hset in Ho'.
  - apply (lk_one _ Hl').
  - lia.
  - intros m _. destruct (decide (m = n)) as [->|Hm]; [|by left; apply Hother].
    right. rewrite Hd, lookup_alter_eq. destruct (deliveries t !! n) as [d|]; [|by left].
    right. exists d. split; [done|]. by apply Hst.
Qed.

Lemma quiet_poison job m now jitter q t :
  linked (q, t) → quiet (q, t) (record job (safeRun (Poison m)) now jitter q, t).
Proof. apply quiet_record. Qed.

(** The handler of a delivery and the record of what came of it. *)
Lemma quiet_deliver q t Do jitter job t0 t1 delay :
  linked (q, t) → jobs q !! ID job = Some job → open_deliver job →
  let r := WebhookDeliver (eOpen e) (eSSRF e) (eNewRequest e) Do (eMarshal e) (eUnmarshalHeaders e)
             (eCanonical e) (eHmac e) (eUUID e) (eUnmarshalPayload e) jitter (Payload job) t0 (q, t) in
  quiet (q, t) (record job (safeRun r.2) t1 delay r.1.1, r.1.2).
Proof.
  intros Hl Hj Ho. destruct (lk_job _ Hl _ _ Hj Ho) as (n & Hp & Hb & _). cbn in Hb.
  unfold WebhookDeliver. rewrite Hp, payload_roundtrip by lia. rewrite bool_decide_false by lia.
  cbn [snd fst].
  pose proof (Deliver_frame (eOpen e) (eSSRF e) (eNewRequest e) Do (eMarshal e) (eUnmarshalHeaders e)
    (eCanonical e) (eHmac e) (eUUID e) jitter t0 n t) as Hf.
  destruct (Deliver _ _ _ _ _ _ _ _ _ _ _ _ _) as [t' err]. cbn [fst snd] in *.
  destruct Hf as [Ht Herr]; [intros d Hd; by apply (lk_rows _ Hl)|].
  destruct err as [m|]; cbn [fst snd].
  - rewrite Herr by done. by apply quiet_record.
  - by eapply (quiet_done _ _ _ _ job n).
Qed.

(** Which handler a kind has. *)
Lemma webhook_handlers_lookup Do fault jitter retention kind :
  webhook_handlers e Do fault jitter retention !! kind =
    if decide (kind = KindWebhookPurgeOld) then Some (WebhookPurgeOld retention)
    else if decide (kind = KindWebhookDeliver) then
      Some (WebhookDeliver (eOpen e) (eSSRF e) (eNewRequest e) Do (eMarshal e) (eUnmarshalHeaders e)
              (eCanonical e) (eHmac e) (eUUID e) (eUnmarshalPayload e) jitter)
    else if decide (kind = KindWebhookFanout) then
      Some (WebhookFanout (eMarshal e) (eSha e) fault (eRfc3339 e))
    else None.
Proof.
  unfold webhook_handlers, Register, handlers.
  case_decide as H1; [subst; apply (lookup_insert_eq (M:=gmap string))|].
  etransitivity; [by apply (lookup_insert_ne (M:=gmap string))|].
  case_decide as H2; [subst; apply (lookup_insert_eq (M:=gmap string))|].
  etransitivity; [by apply (lookup_insert_ne (M:=gmap string))|].
  case_decide as H3; [subst; apply (lookup_insert_eq (M:=gmap string))|].
  etransitivity; [by apply (lookup_insert_ne (M:=gmap string))|].
  apply (lookup_empty (M:=gmap string)).
Qed.

Lemma quiet_runOne s Do fault jitter retention by_ kind t0 t1 delay :
  linked s →
  quiet s (runOne (webhook_handlers e Do fault jitter retention) by_ kind t0 t1 delay s).2.
Proof.
  destruct s as [q t]. intros Hl. unfold runOne. cbn [fst snd].
  destruct (ClaimJob kind by_ t0 q) as [[job q1]|] eqn:Hc; [|by apply quiet_refl].
  destruct (quiet_claim _ _ _ _ _ _ _ Hl Hc) as (Hq1 & Hj & Hk & Hs).
  eapply quiet_trans; [exact Hq1|]. destruct Hq1 as [Hl1 _].
  rewrite webhook_handlers_lookup, Hk.
  case_decide as H1; [|case_decide as H2; [|case_decide as H3]].
  - cbn [WebhookPurgeOld fst snd]. set (t' := PurgeOldDeliveries _ _ _).
    assert (quiet (q1, t) (q1, t')) as Hp by (apply quiet_tables; [done..|apply map_filter_subseteq]).
    eapply quiet_trans; [exact Hp|]. apply quiet_record, Hp.
  - subst kind. pose proof (quiet_deliver q1 t Do jitter job t0 t1 delay Hl1 Hj (conj H2 Hs)) as Hd.
    cbv zeta in Hd. destruct (WebhookDeliver _ _ _ _ _ _ _ _ _ _ _ _ _ _) as [[q2 t2] o]. exact Hd.
  - unfold WebhookFanout. pose proof (quiet_fanout e fault t0 (q1, t) Hl1) as Hf.
    destruct (FanoutOnce _ _ _ _ _ _) as [[q2 t2] r]. cbn [fst snd] in *.
    eapply quiet_trans; [exact Hf|]. destruct Hf as [Hl2 _].
    destruct r as [n|m]; [|by apply quiet_record].
    case_bool_decide; [|by apply quiet_record].
    destruct (fault OpEnqueueFanout); [by apply quiet_record|]. cbn [fst snd].
    assert (quiet (q2, t2) ((Enqueue KindWebhookFanout "{}" (MkEnqueueOptions None 0) t0 q2).2, t2)) as Hq
      by by apply quiet_enqueue.
    eapply quiet_trans; [exact Hq|]. apply quiet_record, Hq.
  - cbn [fst snd]. by apply (quiet_poison job "no handler registered" t1 delay q1 t).
Qed.

Lemma quiet_step s s' : linked s → wstep e s s' → quiet s s'.
Proof.
  intros Hl Hs. inversion Hs; subst.
  - by apply quiet_runOne.
  - by apply quiet_enqueue.
  - apply quiet_queue; [done|..].
    + intros i j [[Hi _]%purge_lookup _]%purge_lookup. by apply (lk_queue _ Hl).
    + intros i j [[Hi _]%purge_lookup _]%purge_lookup Ho. by exists j.
  - by apply quiet_tables.
  - by apply quiet_ping.
  - by apply quiet_redeliver.
  - by apply quiet_create.
  - by apply quiet_update_hook.
  - apply quiet_tables; [done..|]. apply map_filter_subseteq.
  - by apply quiet_tables.
Qed.

Lemma quiet_steps s s' : linked s → rtc (wstep e) s s' → quiet s s'.
Proof.
  intros Hl Hr. induction Hr as [|s1 s2 s3 H12 _ IH]; [by apply quiet_refl|].
  pose proof (quiet_step _ _ Hl H12) as Hq. eapply quiet_trans; [exact Hq|]. apply IH, Hq.
Qed.

Lemma linked_start t : wstart t → linked (emptyQueue, t).
Proof.
  intros [Hd Hn]. split; cbn; [intros i j H|rewrite Hd; intros i j H|done|intros i j H|intros i i' j j' H];
    cbn in H; by rewrite lookup_empty in H.
Qed.

(** A delivery that waits for its retry waits forever: as long as no process
    dies half way and no administrator re-arms its completed job, once a delivery is [FailedRetry], with its next attempt due and
    attempts left, no sequence of runs of the queue, fan-outs, pings, redeliveries and
    changes of hooks changes it any more (it can only go with its hook), and no
    job to deliver it is ever open again: the sweep that was to put it back
    is nowhere. *)
Theorem retry_never_runs (t : Tables) (s s' : Queue * Tables) (n : Z) (d : Delivery) :
  wstart t → rtc (wstep e) (emptyQueue, t) s → deliveries s.2 !! n = Some d →
  DStatus d = FailedRetry → rtc (wstep e) s s' →
  (deliveries s'.2 !! n = Some d ∨ deliveries s'.2 !! n = None) ∧
  ∀ i j, jobs s'.1 !! i = Some j → open_deliver j → deliveries s'.2 !! n = Some d →
    Payload j ≠ MarshalDeliverPayload n.
Proof.
  intros Ht Hr Hd Hst Hr'. destruct (quiet_steps _ _ (linked_start t Ht) Hr) as [Hl _].
  destruct (quiet_steps _ _ Hl Hr') as (Hl' & _ & Hq). destruct (lk_rows _ Hl _ _ Hd) as [_ Hn]. split.
  - destruct (Hq n Hn) as [->|[->|(d' & Hd' & ?)]]; [by left|by right|]. congruence.
  - intros i j Hj Ho Hd' Hp. destruct (lk_job _ Hl' i j Hj Ho) as (m & Hp' & _ & Hm).
    rewrite Hp in Hp'. apply MarshalDeliverPayload_inj in Hp' as <-. by apply (Hm d Hd').
Qed.
End System.

(** ** A run *)

(** Reading a number back. *)
Fixpoint digits (acc : N) (s : string) : N :=
  match s with "" => acc | String c s => digits (acc * 10 + (N_of_ascii c - 48)) s end.

Lemma digits_pretty (x : N) (s : string) : digits 0 (pretty_N_go x s) = digits x s.
Proof.
  revert s. induction (N.lt_wf_0 x) as [x _ IH]; intros s.
  destruct (decide (0 < x)%N) as [Hx|Hx]; [|by assert (x = 0%N) as -> by lia].
  rewrite pretty_N_go_step, IH by (try apply N.div_lt; lia). cbn [digits]. f_equal.
  assert (N_of_ascii (pretty_N_char (x `mod` 10)) - 48 = x `mod` 10)%N as ->.
  { pose proof (N.mod_lt x 10 ltac:(lia)) as Hm. destruct (x `mod` 10)%N as [|p]; [done|].
    do 4 (destruct p as [p|p|]; try done); exfalso; lia. }
  pose proof (N.div_mod x 10 ltac:(lia)). lia.
Qed.

(** The number of the one field. *)
Definition sample_unmarshal (raw : string) : option Z :=
  Some (Z.of_N (digits 0 (str_take (String.length raw - 16) (str_drop 15 raw)))).

Lemma sample_roundtrip (n : Z) : 0 < n → sample_unmarshal (MarshalDeliverPayload n) = Some n.
Proof.
  intros Hn. unfold sample_unmarshal, MarshalDeliverPayload. f_equal.
  destruct n as [|p|p]; [lia| |lia]. rewrite <-(Z2N.id (Z.pos p)) at 3 by lia. f_equal.
  transitivity (digits 0 (pretty (N.pos p))).
  - f_equal. change (str_drop 15 _) with (pretty (N.pos p) +:+ "}").
    change (String.length ("{" +:+ _)) with (15 + String.length (pretty (N.pos p) +:+ "}"))%nat.
    rewrite str_length_append. cbn [String.length].
    replace (15 + (String.length (pretty (N.pos p)) + 1) - 16)%nat
      with (String.length (pretty (N.pos p))) by lia.
    generalize (pretty (N.pos p)). intros s. induction s as [|c s IH]; [done|].
    rewrite str_app_cons. cbn [String.length str_take]. by rewrite IH.
  - unfold pretty, pretty_N. rewrite decide_False by done. apply digits_pretty.
Qed.

Definition sample_env : Env :=
  MkEnv (fun _ _ => Some "secret") (fun _ => None) (fun _ => None) (fun _ => None) (fun _ => None)
    (fun _ => None) (fun _ => None) (fun k => k) (fun b => b) (fun b => b) (fun _ => None)
    (fun _ => "uuid") (fun _ => "now") sample_unmarshal.

Definition hook_tables : Tables := MkTables {[1 := sample_hook]} ∅ 1 [] None ∅ 2.

(** A ping is enqueued and its delivery meets a dead receiver. *)
Definition pinged : Queue * Tables :=
  (EnqueuePing (eMarshal sample_env) (eSha sample_env) (fun _ => None) 1 0 (emptyQueue, hook_tables)).1.

Definition tried : Queue * Tables :=
  (runOne (webhook_handlers sample_env (fun _ => Err "refused") (fun _ => None) (fun d => d) 0) "w"
     KindWebhookDeliver 1 2 (fun d => d) pinged).2.

Lemma retry_never_runs_witness :
  ∃ d, deliveries tried.2 !! 1 = Some d ∧ DStatus d = FailedRetry ∧ Attempt d = 2 ∧
    DMaxAttempts d = 3 ∧ NextRetryAt d = Some (1 + minute) ∧
    ∀ s', rtc (wstep sample_env) tried s' →
      deliveries s'.2 !! 1 = Some d ∨ deliveries s'.2 !! 1 = None.
Proof.
  eexists. split; [vm_compute; reflexivity|]. split; [reflexivity|]. split; [reflexivity|].
  split; [reflexivity|]. split; [reflexivity|]. intros s' Hs'.
  apply (retry_never_runs sample_env sample_roundtrip hook_tables tried s' 1); [| | | |exact Hs'].
  - by split.
  - eapply rtc_l; [apply (w_ping sample_env (emptyQueue, hook_tables) (fun _ => None) 1 0)|].
    apply rtc_once. apply w_run.
  - vm_compute. reflexivity.
  - reflexivity.
Defined.
