(* ===== verification/AdvisoryMatch.v ===== *)
(** * AdvisoryMatch: is a version affected by an advisory

    internal/repos/advisorymatch/match.go.  [int] is 64 bits wide and wraps.  The
    matchers the code builds as closures are functions; the pair of a value and
    [ok] is an option.  [versionRe] is written out as the scan it stands for: at
    every point of the expression the next byte decides.  The Unicode functions
    [strings.ToLower] and [strings.EqualFold] are parameters where they are applied
    to text that need not be ASCII. *)

From S2P Require Import Prelude GoString.
Local Open Scope Z_scope.

Definition wrap64 (n : Z) : Z := (n + 2 ^ 63) mod 2 ^ 64 - 2 ^ 63.

(** ** Strings *)

Definition cons_head (c : ascii) (l : list string) : list string :=
  match l with [] => [String c ""] | x :: l => String c x :: l end.

(** [strings.Split] on a separator of one byte or more. *)
Fixpoint split_from (sep : string) (skip : nat) (s : string) : list string :=
  match s with
  | "" => [""]
  | String c s' =>
      match skip with
      | S k => split_from sep k s'
      | O => if HasPrefix s sep then "" :: split_from sep (pred (String.length sep)) s'
             else cons_head c (split_from sep 0 s')
      end
  end.

Definition Split (s sep : string) : list string := split_from sep 0 s.

(** The text around the white-space runes; [left] bytes of a rune that is white
    space or not are still to come. *)
Fixpoint split_space (left : nat) (space : bool) (s : string) : list string :=
  match s with
  | "" => [""]
  | String c s' =>
      match left with
      | S k => if space then split_space k space s' else cons_head c (split_space k space s')
      | O =>
          let '(r, size) := DecodeRuneInString s in
          if IsSpace r then "" :: split_space (pred size) true s'
          else cons_head c (split_space (pred size) false s')
      end
  end.

Definition Fields (s : string) : list string := filter (fun f => f ≠ "") (split_space 0 false s).

Definition replace_byte (a b : ascii) : string → string :=
  str_map (fun c => if decide (c = a) then b else c).

(** [strings.EqualFold] with the one-letter string x. *)
Definition is_x (s : string) : bool := bool_decide (s = "x" ∨ s = "X").

Definition digit (c : ascii) : bool := bool_decide (48 ≤ byte c) && bool_decide (byte c ≤ 57).

Definition sign (n : Z) : Z := Z.sgn n.

(** [<] on strings. *)
Definition str_compare (a b : string) : Z :=
  match String.compare a b with Lt => -1 | Eq => 0 | Gt => 1 end.

(** ** Versions *)

Record semanticVersion := MkVersion {
  major : Z; minor : Z; patch : Z; pre : list string; parts : Z
}.

Fixpoint small_int (s : string) (n : Z) : option Z :=
  match s with
  | "" => Some n
  | String c s => if digit c then small_int s (wrap64 (n * 10 + (byte c - 48))) else None
  end.

Definition parseSmallInt (value : string) : option Z :=
  if decide (value = "") then None else small_int value 0.

(** [[0-9A-Za-z.-]] *)
Definition id_char (c : ascii) : bool :=
  digit c || (bool_decide (65 ≤ byte c) && bool_decide (byte c ≤ 90)) ||
  (bool_decide (97 ≤ byte c) && bool_decide (byte c ≤ 122)) || bool_decide (c = "."%char ∨ c = "-"%char).

Fixpoint span (p : ascii → bool) (s : string) : string * string :=
  match s with
  | "" => ("", "")
  | String c s' => if p c then let '(a, b) := span p s' in (String c a, b) else ("", s)
  end.

(** An optional group: a byte and then one byte or more of a class. *)
Definition group (c : ascii) (p : ascii → bool) (s : string) : string * string :=
  match s with
  | String c' s' =>
      if decide (c' = c) then
        let '(a, b) := span p s' in if decide (a = "") then ("", s) else (a, b)
      else ("", s)
  | "" => ("", "")
  end.

(** [versionRe.FindStringSubmatch], the groups 1 to 4. *)
Definition versionRe (s : string) : option (string * string * string * string) :=
  let '(m1, s) := span digit (TrimPrefix s "v") in
  if decide (m1 = "") then None
  else
    let '(m2, s) := group "."%char digit s in
    let '(m3, s) := group "."%char digit s in
    let '(m4, s) := group "-"%char id_char s in
    let '(_, s) := group "+"%char id_char s in
    if decide (s = "") then Some (m1, m2, m3, m4) else None.

Definition parsePartialVersion (value : string) : option semanticVersion :=
  '(m1, m2, m3, m4) ← versionRe (TrimSpace value);
  major ← parseSmallInt m1;
  '(minor, n) ← (if decide (m2 = "") then Some (0, 1) else n ← parseSmallInt m2; Some (n, 2));
  '(patch, n) ← (if decide (m3 = "") then Some (0, n) else p ← parseSmallInt m3; Some (p, 3));
  Some (MkVersion major minor patch (if decide (m4 = "") then [] else SplitByte m4 "."%char) n).

Definition parseConcreteVersion (value : string) : option semanticVersion :=
  v ← parsePartialVersion value;
  if bool_decide (parts v < 3) then None else Some v.

(** ** Order *)

Definition isNumericIdentifier (value : string) : bool :=
  if decide (value = "") then false else str_forallb digit value.

(** [strings.TrimLeft] with the cutset 0. *)
Fixpoint trim_zeros (s : string) : string :=
  match s with String c s' => if decide (c = "0"%char) then trim_zeros s' else s | "" => "" end.

Definition compareNumericString (a b : string) : Z :=
  let a := trim_zeros a in
  let b := trim_zeros b in
  let a := if decide (a = "") then "0" else a in
  let b := if decide (b = "") then "0" else b in
  if decide (String.length a ≠ String.length b) then
    sign (Z.of_nat (String.length a) - Z.of_nat (String.length b))
  else str_compare a b.

Definition compareIdentifier (a b : string) : Z :=
  let aNum := isNumericIdentifier a in
  let bNum := isNumericIdentifier b in
  if aNum && bNum then compareNumericString a b
  else if aNum then -1
  else if bNum then 1
  else str_compare a b.

(** The loop; what is left has the lengths' difference. *)
Fixpoint comparePrerelease (a b : list string) : Z :=
  match a, b with
  | x :: a, y :: b =>
      let cmp := compareIdentifier x y in
      if decide (cmp ≠ 0) then cmp else comparePrerelease a b
  | _, _ => sign (Z.of_nat (length a) - Z.of_nat (length b))
  end.

Definition compareVersions (a b : semanticVersion) : Z :=
  if decide (major a ≠ major b) then sign (wrap64 (major a - major b))
  else if decide (minor a ≠ minor b) then sign (wrap64 (minor a - minor b))
  else if decide (patch a ≠ patch b) then sign (wrap64 (patch a - patch b))
  else match pre a, pre b with
       | [], [] => 0
       | [], _ => 1
       | _, [] => -1
       | _, _ => comparePrerelease (pre a) (pre b)
       end.

(** ** Matchers *)

Definition versionMatcher : Type := semanticVersion → bool.

Definition comparatorMatcher (op : string) (want : semanticVersion) : versionMatcher :=
  fun v =>
    let cmp := compareVersions v want in
    if decide (op = ">=") then bool_decide (0 ≤ cmp)
    else if decide (op = "<=") then bool_decide (cmp ≤ 0)
    else if decide (op = ">") then bool_decide (0 < cmp)
    else if decide (op = "<") then bool_decide (cmp < 0)
    else if decide (op = "=" ∨ op = "==") then bool_decide (cmp = 0)
    else false.

(** From the lower bound up to, but without, the upper one. *)
Definition half_open (lower upper : semanticVersion) : versionMatcher :=
  fun v => bool_decide (0 ≤ compareVersions v lower) && bool_decide (compareVersions v upper < 0).

Definition caretMatcher (value : string) : option versionMatcher :=
  base ← parsePartialVersion value;
  let upper :=
    if bool_decide (0 < major base) then MkVersion (wrap64 (major base + 1)) 0 0 [] (parts base)
    else if bool_decide (0 < minor base) then
      MkVersion (major base) (wrap64 (minor base + 1)) 0 [] (parts base)
    else MkVersion (major base) (minor base) (wrap64 (patch base + 1)) [] (parts base) in
  Some (half_open base upper).

Definition tildeMatcher (value : string) : option versionMatcher :=
  base ← parsePartialVersion value;
  let upper :=
    if bool_decide (2 ≤ parts base) then
      MkVersion (major base) (wrap64 (minor base + 1)) 0 [] (parts base)
    else MkVersion (wrap64 (major base + 1)) 0 0 [] (parts base) in
  Some (half_open base upper).

(** The loop of wildcardMatcher: the numbers before the wildcard; [None] when a
    part is neither or when there is no wildcard. *)
Fixpoint wildcard_loop (ps : list string) : option (list Z) :=
  match ps with
  | [] => None
  | p :: ps => if is_x p then Some [] else n ← parseSmallInt p; ns ← wildcard_loop ps; Some (n :: ns)
  end.

Definition wildcardMatcher (expr : string) : option (semanticVersion * semanticVersion) :=
  let raw := TrimPrefix (TrimSpace expr) "v" in
  let raw := replace_byte "*"%char "x"%char raw in
  let ps := SplitByte raw "."%char in
  if bool_decide (length ps = 0 ∨ 3 < length ps)%nat then None
  else
    ns ← wildcard_loop ps;
    let lower := MkVersion (default 0 (ns !! 0%nat)) (default 0 (ns !! 1%nat)) (default 0 (ns !! 2%nat)) [] 3 in
    let upper :=
      if bool_decide (length ns ≤ 1)%nat then MkVersion (wrap64 (major lower + 1)) 0 0 [] 3
      else MkVersion (major lower) (wrap64 (minor lower + 1)) 0 [] 3 in
    Some (lower, upper).

(** The loop over the operators in the order of the code. *)
Fixpoint operator_loop (ops : list string) (expr : string) : option (option versionMatcher) :=
  match ops with
  | [] => None
  | op :: ops =>
      if HasPrefix expr op then
        Some (want ← parsePartialVersion (TrimSpace (TrimPrefix expr op)); Some (comparatorMatcher op want))
      else operator_loop ops expr
  end.

Definition operators : list string := [">="; "<="; ">"; "<"; "=="; "="].

Definition parseComparator (expr : string) : option versionMatcher :=
  let expr := TrimSpace expr in
  if decide (expr = "" ∨ expr = "*") then Some (fun _ => true)
  else if is_x expr then Some (fun _ => true)
  else if HasPrefix expr "^" then caretMatcher (TrimSpace (TrimPrefix expr "^"))
  else if HasPrefix expr "~" then tildeMatcher (TrimSpace (TrimPrefix expr "~"))
  else
    match wildcardMatcher expr with
    | Some (lower, upper) => Some (half_open lower upper)
    | None =>
        match operator_loop operators expr with
        | Some m => m
        | None => want ← parseConcreteVersion expr; Some (comparatorMatcher "=" want)
        end
    end.

Definition parseHyphenRange (expr : string) : option (semanticVersion * semanticVersion) :=
  match Split expr " - " with
  | [l; u] => lower ← parsePartialVersion l; upper ← parsePartialVersion u; Some (lower, upper)
  | _ => None
  end.

Definition isComparatorOperator (token : string) : bool :=
  bool_decide (token ∈ ["<"; "<="; ">"; ">="; "="; "=="]).

(** The loop of splitRangeParts. *)
Fixpoint join_operators (fields : list string) : list string :=
  match fields with
  | token :: (next :: rest) as tail =>
      if isComparatorOperator token then (token +:+ next) :: join_operators rest
      else token :: join_operators tail
  | _ => fields
  end.

Definition splitRangeParts (expr : string) : list string :=
  join_operators (Fields (replace_byte ","%char " "%char expr)).

Definition matchConjunction (v : semanticVersion) (expr : string) : bool :=
  if decide (expr = "" ∨ expr = "*") then true
  else
    match parseHyphenRange expr with
    | Some (lower, upper) =>
        bool_decide (0 ≤ compareVersions v lower) && bool_decide (compareVersions v upper ≤ 0)
    | None =>
        match splitRangeParts expr with
        | [] => false
        | ps => forallb (fun part => match parseComparator part with Some m => m v | None => false end) ps
        end
    end.

Section Match.
  Variable ToLower : string → string.
  Variable EqualFold : string → string → bool.

Definition exactVersionEqual (a b : string) : bool :=
  match parseConcreteVersion a, parseConcreteVersion b with
  | Some av, Some bv => bool_decide (compareVersions av bv = 0)
  | _, _ => EqualFold (TrimSpace a) (TrimSpace b)
  end.

Definition supportedEcosystem (ecosystem : string) : bool :=
  bool_decide (ToLower (TrimSpace ecosystem) ∈ ["go"; "gomod"; "npm"; "rust"; "cargo"; "crates.io"]).

Definition MatchVersion (ecosystem version rangeExpr : string) : bool :=
  let version := TrimSpace version in
  let rangeExpr := TrimSpace rangeExpr in
  if decide (version = "") then false
  else if decide (rangeExpr = "" ∨ rangeExpr = "*") then true
  else if exactVersionEqual version rangeExpr then true
  else if negb (supportedEcosystem ecosystem) then false
  else
    match parseConcreteVersion version with
    | None => false
    | Some v => existsb (fun alternative => matchConjunction v (TrimSpace alternative)) (Split rangeExpr "||")
    end.

End Match.
