(* ===== verification/AdvisoryMatchFacts.v ===== *)
(** * AdvisoryMatchFacts: the order of versions and the shape of ranges *)

From S2P Require Import Prelude GoString AdvisoryMatch.
Local Open Scope Z_scope.

(** ** Comparisons that are total preorders *)

Class TotalOn {A} (P : A → Prop) (cmp : A → A → Z) : Prop := {
  cmp_opp a b : P a → P b → cmp b a = - cmp a b;
  cmp_trans a b c : P a → P b → P c → cmp a b ≤ 0 → cmp b c ≤ 0 → cmp a c ≤ 0
}.

Section Total.
  Context {A} {P : A → Prop} {cmp : A → A → Z} `{!TotalOn P cmp}.
  Implicit Types a b c : A.

Lemma cmp_refl a : P a → cmp a a = 0.
Proof. intros Ha. pose proof (cmp_opp a a Ha Ha). lia. Qed.

Lemma cmp_ge_trans a b c : P a → P b → P c → 0 ≤ cmp a b → 0 ≤ cmp b c → 0 ≤ cmp a c.
Proof.
  intros Ha Hb Hc H1 H2. pose proof (cmp_opp a b Ha Hb). pose proof (cmp_opp b c Hb Hc).
  pose proof (cmp_opp a c Ha Hc). pose proof (cmp_trans c b a Hc Hb Ha). lia.
Qed.

Lemma cmp_lt_trans a b c : P a → P b → P c → cmp a b ≤ 0 → cmp b c < 0 → cmp a c < 0.
Proof.
  intros Ha Hb Hc H1 H2. pose proof (cmp_opp a b Ha Hb). pose proof (cmp_opp b c Hb Hc).
  pose proof (cmp_opp a c Ha Hc). pose proof (cmp_trans c a b Hc Ha Hb). lia.
Qed.

Lemma cmp_gt_trans a b c : P a → P b → P c → 0 ≤ cmp a b → 0 < cmp b c → 0 < cmp a c.
Proof.
  intros Ha Hb Hc H1 H2. pose proof (cmp_opp a b Ha Hb). pose proof (cmp_opp b c Hb Hc).
  pose proof (cmp_opp a c Ha Hc). pose proof (cmp_trans a c b Ha Hc Hb).
  pose proof (cmp_trans b a c Hb Ha Hc). lia.
Qed.

Lemma cmp_zero_trans a b c : P a → P b → P c → cmp a b = 0 → cmp b c = 0 → cmp a c = 0.
Proof.
  intros Ha Hb Hc H1 H2. pose proof (cmp_ge_trans a b c Ha Hb Hc). pose proof (cmp_trans a b c Ha Hb Hc).
  lia.
Qed.

(** Between two elements that compare equal all do. *)
Lemma cmp_squeeze a b c : P a → P b → P c → cmp a b ≤ 0 → cmp b c ≤ 0 → cmp a c = 0 →
  cmp a b = 0 ∧ cmp b c = 0.
Proof.
  intros Ha Hb Hc H1 H2 H3. pose proof (cmp_opp a c Ha Hc). pose proof (cmp_opp a b Ha Hb).
  pose proof (cmp_opp b c Hb Hc).
  pose proof (cmp_trans b c a Hb Hc Ha). pose proof (cmp_trans c a b Hc Ha Hb). lia.
Qed.
End Total.

Definition lex {A} (c1 c2 : A → A → Z) (a b : A) : Z :=
  if decide (c1 a b ≠ 0) then c1 a b else c2 a b.

#[export] Instance total_lex {A} (P : A → Prop) c1 c2 :
  TotalOn P c1 → TotalOn P c2 → TotalOn P (lex c1 c2).
Proof.
  intros H1 H2. unfold lex. split.
  - intros a b Ha Hb. rewrite (cmp_opp (cmp := c1) a b), (cmp_opp (cmp := c2) a b) by done.
    repeat case_decide; lia.
  - intros a b c Ha Hb Hc Hab Hbc. pose proof (cmp_trans (cmp := c1) a b c Ha Hb Hc) as Ht.
    pose proof (cmp_squeeze (cmp := c1) a b c Ha Hb Hc) as Hs.
    pose proof (cmp_trans (cmp := c2) a b c Ha Hb Hc).
    repeat case_decide; lia.
Qed.

#[export] Instance total_sign {A} (P : A → Prop) (key : A → Z) : TotalOn P (fun a b => sign (key a - key b)).
Proof. unfold sign. split; intros; [rewrite <-Z.sgn_opp; f_equal; lia|lia]. Qed.

Lemma total_map {A B} (P : A → Prop) (Q : B → Prop) (f : A → B) cmp :
  (∀ a, P a → Q (f a)) → TotalOn Q cmp → TotalOn P (fun a b => cmp (f a) (f b)).
Proof. intros Hf Hq. split; intros; [apply cmp_opp|eapply (cmp_trans (cmp := cmp) _ (f b))]; auto. Qed.

Lemma total_ext {A} (P : A → Prop) (c c' : A → A → Z) :
  (∀ a b, P a → P b → c' a b = c a b) → TotalOn P c → TotalOn P c'.
Proof.
  intros He Hc. split.
  - intros a b Ha Hb. rewrite !He by done. by apply cmp_opp.
  - intros a b d Ha Hb Hd. rewrite !He by done. by apply cmp_trans.
Qed.

Definition all {A} (_ : A) : Prop := True.

(** ** Strings and identifiers *)

Lemma str_compare_cons c d s t :
  str_compare (String c s) (String d t) =
    if decide (sign (byte c - byte d) ≠ 0) then sign (byte c - byte d) else str_compare s t.
Proof.
  unfold str_compare, sign, byte. cbn [String.compare]. unfold Ascii.compare.
  destruct (N.compare_spec (N_of_ascii c) (N_of_ascii d)) as [H|H|H]; case_decide; try lia; done.
Qed.

#[export] Instance str_total : TotalOn all str_compare.
Proof.
  split.
  - intros a b _ _. revert b. induction a as [|c a IH]; intros [|d b]; try done.
    rewrite !str_compare_cons, (IH b).
    pose proof (cmp_opp (P := all) (cmp := fun a b => sign (byte a - byte b)) c d I I) as Ho. cbn in Ho.
    repeat case_decide; lia.
  - intros a b c _ _ _. revert b c.
    induction a as [|x a IH]; intros [|y b] [|z c]; rewrite ?str_compare_cons; try done.
    specialize (IH b c). unfold sign in *. repeat case_decide; lia.
Qed.

Lemma str_compare_zero a b : str_compare a b = 0 ↔ a = b.
Proof.
  split; [|intros ->; by apply (cmp_refl (P := all))].
  revert b. induction a as [|c a IH]; intros [|d b]; try done. rewrite str_compare_cons.
  case_decide as H; [done|]. intros Hab%IH. subst. f_equal.
  rewrite <-(ascii_N_embedding c), <-(ascii_N_embedding d). f_equal. unfold byte, sign in *. lia.
Qed.

(** A numeric identifier without its leading zeros. *)
Definition numeral (a : string) : string :=
  let a := trim_zeros a in if decide (a = "") then "0" else a.

Lemma compareNumericString_lex a b :
  compareNumericString a b =
    lex (fun a b => sign (Z.of_nat (String.length a) - Z.of_nat (String.length b))) str_compare
      (numeral a) (numeral b).
Proof.
  unfold compareNumericString, lex, sign. cbv zeta. fold (numeral a) (numeral b).
  repeat case_decide; lia.
Qed.

#[export] Instance numeric_total : TotalOn all compareNumericString.
Proof.
  eapply total_ext; [intros; apply compareNumericString_lex|].
  apply (total_map _ all); [done|]. apply total_lex; [apply total_sign|apply _].
Qed.

Lemma compareNumericString_zero a b : compareNumericString a b = 0 ↔ numeral a = numeral b.
Proof.
  rewrite compareNumericString_lex. unfold lex, sign. case_decide as H.
  - split; [lia|]. intros ->. lia.
  - apply str_compare_zero.
Qed.

#[export] Instance identifier_total : TotalOn all compareIdentifier.
Proof.
  unfold compareIdentifier. split.
  - intros a b _ _.
    destruct (isNumericIdentifier a), (isNumericIdentifier b); cbn; try done; by apply (cmp_opp (P := all)).
  - intros a b c _ _ _. pose proof (cmp_trans (P := all) (cmp := compareNumericString) a b c I I I).
    pose proof (cmp_trans (P := all) (cmp := str_compare) a b c I I I).
    destruct (isNumericIdentifier a), (isNumericIdentifier b), (isNumericIdentifier c); cbn; lia.
Qed.

(** The identifier that stands for all that compare equal to it. *)
Definition canonical (a : string) : string := if isNumericIdentifier a then numeral a else a.

Lemma str_forallb_trim s : str_forallb digit s = true → str_forallb digit (trim_zeros s) = true.
Proof.
  induction s as [|c s IH]; [done|]. cbn. intros H. case_decide; [|done]. apply IH.
  by apply andb_true_iff in H as [_ ?].
Qed.

Lemma numeral_numeric a : isNumericIdentifier a = true → isNumericIdentifier (numeral a) = true.
Proof.
  unfold isNumericIdentifier. case_decide; [done|]. intros Ha.
  assert (str_forallb digit (numeral a) = true) as Hn.
  { unfold numeral. cbv zeta. case_decide; [done|]. by apply str_forallb_trim. }
  case_decide as He; [|done]. revert He. unfold numeral. cbv zeta. by case_decide.
Qed.

Lemma compareIdentifier_zero a b : compareIdentifier a b = 0 ↔ canonical a = canonical b.
Proof.
  unfold compareIdentifier, canonical. cbv zeta.
  destruct (isNumericIdentifier a) eqn:Ea, (isNumericIdentifier b) eqn:Eb; cbn [andb].
  - apply compareNumericString_zero.
  - split; [done|]. intros <-. by rewrite numeral_numeric in Eb.
  - split; [done|]. intros ->. by rewrite numeral_numeric in Ea.
  - apply str_compare_zero.
Qed.

(** ** Versions *)

#[export] Instance prerelease_total : TotalOn all comparePrerelease.
Proof.
  split.
  - intros a b _ _. revert b. induction a as [|x a IH]; intros [|y b]; cbn [comparePrerelease length];
      [done|unfold sign; lia..|].
    rewrite (IH b), (cmp_opp (P := all) (cmp := compareIdentifier) x y I I). repeat case_decide; lia.
  - intros a b c _ _ _. revert b c.
    induction a as [|x a IH]; intros [|y b] [|z c]; cbn [comparePrerelease length]; unfold sign; try lia.
    specialize (IH b c). pose proof (cmp_trans (P := all) (cmp := compareIdentifier) x y z I I I).
    pose proof (cmp_squeeze (P := all) (cmp := compareIdentifier) x y z I I I).
    repeat case_decide; lia.
Qed.

Lemma comparePrerelease_zero a b : comparePrerelease a b = 0 ↔ canonical <$> a = canonical <$> b.
Proof.
  revert b. induction a as [|x a IH]; intros [|y b]; cbn [comparePrerelease fmap list_fmap length];
    [done|split; [unfold sign; lia|done]..|].
  case_decide as H.
  - split; [done|]. intros [= Hx _]. by apply compareIdentifier_zero in Hx.
  - assert (compareIdentifier x y = 0) as Hxy%compareIdentifier_zero by lia. rewrite IH, Hxy.
    split; [by intros ->|by intros [=]].
Qed.

(** The numbers stay clear of the ends of the machine word. *)
Definition sane (v : semanticVersion) : Prop :=
  0 ≤ major v < 2 ^ 62 ∧ 0 ≤ minor v < 2 ^ 62 ∧ 0 ≤ patch v < 2 ^ 62.

Lemma wrap64_small n : - 2 ^ 63 ≤ n < 2 ^ 63 → wrap64 n = n.
Proof. intros Hn. unfold wrap64. rewrite Z.mod_small; lia. Qed.

(** No prerelease comes last. *)
Definition final (v : semanticVersion) : Z := match pre v with [] => 1 | _ => 0 end.

Definition version_lex : semanticVersion → semanticVersion → Z :=
  lex (fun a b => sign (major a - major b)) (lex (fun a b => sign (minor a - minor b))
    (lex (fun a b => sign (patch a - patch b)) (lex (fun a b => sign (final a - final b))
      (fun a b => comparePrerelease (pre a) (pre b))))).

Lemma sign_sane a b : 0 ≤ a < 2 ^ 62 → 0 ≤ b < 2 ^ 62 → sign (wrap64 (a - b)) = sign (a - b).
Proof. intros Ha Hb. rewrite wrap64_small by lia. done. Qed.

Lemma compareVersions_lex a b : sane a → sane b → compareVersions a b = version_lex a b.
Proof.
  intros (Ha1 & Ha2 & Ha3) (Hb1 & Hb2 & Hb3). unfold compareVersions, version_lex, lex.
  rewrite !sign_sane by done. unfold sign, final.
  repeat (case_decide; [try lia|try lia]); destruct (pre a), (pre b); cbn; try done; lia.
Qed.

#[export] Instance versions_total : TotalOn sane compareVersions.
Proof.
  eapply total_ext; [apply compareVersions_lex|]. unfold version_lex.
  do 4 notypeclasses refine (total_lex _ _ _ (total_sign _ _) _).
  apply (total_map sane all pre); [done|apply _].
Qed.

(** What two versions of the same precedence share. *)
Definition same_precedence (a b : semanticVersion) : Prop :=
  major a = major b ∧ minor a = minor b ∧ patch a = patch b ∧ canonical <$> pre a = canonical <$> pre b.

Lemma compareVersions_zero a b : sane a → sane b → compareVersions a b = 0 ↔ same_precedence a b.
Proof.
  intros Ha Hb. rewrite compareVersions_lex by done. unfold version_lex, same_precedence, lex, sign.
  assert (canonical <$> pre a = canonical <$> pre b → final a = final b) as Hf.
  { unfold final. by destruct (pre a), (pre b). }
  rewrite <-comparePrerelease_zero in *. repeat case_decide; lia.
Qed.

(** Precedence of versions is a total preorder: on versions whose numbers
    stay below 2^62 the comparison is antisymmetric, transitive and total, two
    versions compare equal exactly when their numbers agree and their
    prerelease identifiers agree up to leading zeros of the numeric ones (build metadata
    and the letter v do not count), and a prerelease comes before its release. *)
Theorem compareVersions_order (a b c : semanticVersion) :
  sane a → sane b → sane c →
  compareVersions b a = - compareVersions a b ∧
  (compareVersions a b ≤ 0 → compareVersions b c ≤ 0 → compareVersions a c ≤ 0) ∧
  (compareVersions a b ≤ 0 → compareVersions b c < 0 → compareVersions a c < 0) ∧
  (compareVersions a b = 0 ↔ same_precedence a b) ∧
  (major a = major b → minor a = minor b → patch a = patch b → pre a ≠ [] → pre b = [] →
     compareVersions a b = -1).
Proof.
  intros Ha Hb Hc. split; [by apply cmp_opp|]. split; [by apply cmp_trans|].
  split; [by apply cmp_lt_trans|]. split; [by apply compareVersions_zero|].
  intros H1 H2 H3 Hp Hq. unfold compareVersions. rewrite H1, H2, H3, Hq.
  rewrite !decide_False by (intros H; by apply H). by destruct (pre a).
Qed.

Lemma compareVersions_order_witness :
  let v p := MkVersion 1 2 3 p 3 in
  compareVersions (v ["rc"; "2"]) (v ["rc"; "010"]) < 0 ∧ compareVersions (v ["rc"; "010"]) (v []) < 0 ∧
  compareVersions (v ["rc"; "2"]) (v []) < 0.
Proof.
  intros v. assert (∀ p, sane (v p)) as Hv by (intros p; unfold sane; cbn; lia).
  split; [vm_compute; reflexivity|]. split; [vm_compute; reflexivity|].
  apply (compareVersions_order (v ["rc"; "2"]) (v ["rc"; "010"]) (v []) (Hv _) (Hv _) (Hv _));
    vm_compute; [discriminate|reflexivity].
Defined.

(** ** Numbers in the text *)

(** No number has more than 18 digits; [left] digits may follow here. *)
Fixpoint run_fits (left : nat) (s : string) : bool :=
  match s with
  | "" => true
  | String c s =>
      if digit c then match left with O => false | S k => run_fits k s end else run_fits 18 s
  end.

Definition fits (s : string) : Prop := run_fits 18 s = true.

Lemma run_fits_mono k l s : (k ≤ l)%nat → run_fits k s = true → run_fits l s = true.
Proof.
  revert k l. induction s as [|c s IH]; intros k l Hkl; cbn; [done|]. destruct (digit c); [|done].
  destruct k as [|k]; [done|]. destruct l as [|l]; [lia|]. apply IH. lia.
Qed.

Lemma run_fits_suffix k a b : (k ≤ 18)%nat → run_fits k (a +:+ b) = true → run_fits 18 b = true.
Proof.
  revert k. induction a as [|c a IH]; intros k Hk.
  - rewrite str_app_empty. by apply run_fits_mono.
  - rewrite str_app_cons. cbn. destruct (digit c); [destruct k as [|k]; [done|]|]; apply IH; lia.
Qed.

Lemma run_fits_prefix k a b : run_fits k (a +:+ b) = true → run_fits k a = true.
Proof.
  revert k. induction a as [|c a IH]; intros k; [done|]. rewrite str_app_cons. cbn.
  destruct (digit c); [destruct k as [|k]; [done|]|]; apply IH.
Qed.

Lemma fits_suffix a b : fits (a +:+ b) → fits b.
Proof. by apply run_fits_suffix. Qed.

Lemma fits_prefix a b : fits (a +:+ b) → fits a.
Proof. apply run_fits_prefix. Qed.

Lemma TrimRightSpace_prefix s : ∃ t, s = TrimRightSpace s +:+ t.
Proof.
  induction s as [|c s [t IH]]; cbn [TrimRightSpace]; (case_match; [by eexists|]).
  - by exists "".
  - exists t. by rewrite str_app_cons, <-IH.
Qed.

Lemma fits_TrimSpace s : fits s → fits (TrimSpace s).
Proof.
  intros Hs. unfold TrimSpace, TrimLeftSpace. destruct (TrimRightSpace_prefix (str_drop (space_prefix_from 0 s) s))
    as [t Ht]. apply (fits_prefix _ t). rewrite <-Ht.
  apply (fits_suffix (str_take (space_prefix_from 0 s) s)). by rewrite str_take_drop.
Qed.

Lemma fits_TrimPrefix s p : fits s → fits (TrimPrefix s p).
Proof.
  unfold TrimPrefix. destruct (strip_prefix p s) as [t|] eqn:E; [|done].
  apply strip_prefix_Some in E as ->. apply fits_suffix.
Qed.

Lemma span_app p s : (span p s).1 +:+ (span p s).2 = s.
Proof.
  induction s as [|c s IH]; [done|]. cbn [span]. destruct (p c); [|done].
  destruct (span p s) as [a b]. cbn [fst snd] in *. by rewrite str_app_cons, IH.
Qed.

Lemma fits_span p s a b : span p s = (a, b) → fits s → fits a ∧ fits b.
Proof.
  intros E Hs. pose proof (span_app p s) as H. rewrite E in H. cbn in H. rewrite <-H in Hs.
  eauto using fits_prefix, fits_suffix.
Qed.

Lemma fits_tail c s : fits (String c s) → fits s.
Proof. apply (fits_suffix (String c "") s). Qed.

Lemma fits_group c p s a b : group c p s = (a, b) → fits s → fits a ∧ fits b.
Proof.
  unfold group. destruct s as [|c' s]; [by intros [= <- <-]|]. case_decide; [|by intros [= <- <-]].
  destruct (span p s) as [x y] eqn:E. case_decide; [by intros [= <- <-]|]. intros [= <- <-] Hs%fits_tail.
  by eapply fits_span.
Qed.

Lemma small_int_bound s n k m :
  run_fits k s = true → (k ≤ 18)%nat → 0 ≤ n < 10 ^ (18 - Z.of_nat k) → small_int s n = Some m →
  0 ≤ m < 10 ^ 18.
Proof.
  revert n k. induction s as [|c s IH]; intros n k Hf Hk Hn.
  - intros [= <-]. split; [lia|]. eapply Z.lt_le_trans; [apply Hn|]. apply Z.pow_le_mono_r; lia.
  - cbn in Hf |- *. destruct (digit c) eqn:Ed; [|done]. destruct k as [|k]; [done|].
    assert (0 ≤ byte c - 48 ≤ 9) as Hd by (unfold digit in Ed; bools; lia).
    assert (10 ^ (18 - Z.of_nat k) = 10 * 10 ^ (18 - Z.of_nat (S k))) as Hp.
    { rewrite <-Z.pow_succ_r by lia. f_equal. lia. }
    assert (10 ^ (18 - Z.of_nat k) ≤ 10 ^ 18) by (apply Z.pow_le_mono_r; lia).
    assert (10 ^ 18 < 2 ^ 63) by done.
    rewrite wrap64_small by lia. apply (IH _ k); [done|lia|]. lia.
Qed.

Lemma parseSmallInt_bound s n : fits s → parseSmallInt s = Some n → 0 ≤ n < 10 ^ 18.
Proof.
  unfold parseSmallInt. case_decide; [done|]. intros Hf. apply (small_int_bound s 0 18); [done|lia|].
  cbn. lia.
Qed.

(** Room for one more. *)
Definition small (v : semanticVersion) : Prop :=
  0 ≤ major v < 10 ^ 18 ∧ 0 ≤ minor v < 10 ^ 18 ∧ 0 ≤ patch v < 10 ^ 18.

Lemma small_sane v : small v → sane v.
Proof. unfold small, sane. lia. Qed.

(** An optional number. *)
Lemma optional_small m (n r x k : Z) :
  fits m → (if decide (m = "") then Some (0, n) else y ← parseSmallInt m; Some (y, r)) = Some (x, k) →
  0 ≤ x < 10 ^ 18.
Proof.
  intros Hm. case_decide; [intros [= <- _]; lia|]. destruct (parseSmallInt m) as [y|] eqn:E; [|done].
  intros [= <- _]. by apply parseSmallInt_bound in E.
Qed.

Lemma parsePartialVersion_small s v : fits s → parsePartialVersion s = Some v → small v.
Proof.
  intros Hs%fits_TrimSpace. unfold parsePartialVersion, versionRe.
  pose proof (fits_TrimPrefix _ "v" Hs) as Hv.
  destruct (span digit _) as [m1 s1] eqn:E1. destruct (fits_span _ _ _ _ E1 Hv) as [F1 G1].
  case_decide; [done|].
  destruct (group _ digit s1) as [m2 s2] eqn:E2. destruct (fits_group _ _ _ _ _ E2 G1) as [F2 G2].
  destruct (group _ digit s2) as [m3 s3] eqn:E3. destruct (fits_group _ _ _ _ _ E3 G2) as [F3 G3].
  destruct (group _ id_char s3) as [m4 s4]. destruct (group _ id_char s4) as [m5 s5].
  case_decide; [|done]. cbn [mbind option_bind].
  destruct (parseSmallInt m1) as [n1|] eqn:P1; [|done]. apply parseSmallInt_bound in P1; [|done].
  cbn [mbind option_bind].
  destruct (if decide (m2 = "") then _ else _) as [[n2 k2]|] eqn:P2; [|done]. cbn.
  apply optional_small in P2; [|done].
  destruct (if decide (m3 = "") then _ else _) as [[n3 k3]|] eqn:P3; [|done].
  apply optional_small in P3; [|done]. intros [= <-]. by split.
Qed.

Lemma SplitByte_fits sep s k :
  (k ≤ 18)%nat → run_fits k s = true →
  match SplitByte s sep with [] => False | x :: l => run_fits k x = true ∧ Forall fits l end.
Proof.
  revert k. induction s as [|c s IH]; intros k Hk Hs; [by split|]. cbn [SplitByte].
  assert (∃ j, (j ≤ 18)%nat ∧ run_fits j s = true ∧ ∀ x, run_fits j x = true → run_fits k (String c x) = true)
    as (j & Hj & Hjs & Hc).
  { cbn in Hs |- *. destruct (digit c); [destruct k as [|k]; [done|]; exists k|exists 18%nat]; auto with lia. }
  specialize (IH j Hj Hjs). case_decide.
  - split; [done|]. destruct (SplitByte s sep) as [|x l]; [done|]. destruct IH as [Hx Hl].
    constructor; [by apply (run_fits_mono j)|done].
  - destruct (SplitByte s sep) as [|x l]; [done|]. destruct IH as [Hx Hl]. split; [by apply Hc|done].
Qed.

Lemma replace_fits k s : run_fits k (replace_byte "*"%char "x"%char s) = run_fits k s.
Proof.
  revert k. induction s as [|c s IH]; intros k; [done|]. cbn. case_decide as Hc.
  - subst. cbn. apply IH.
  - destruct (digit c); [destruct k; [done|]|]; apply IH.
Qed.

Lemma wildcard_loop_bound ps ns :
  Forall fits ps → wildcard_loop ps = Some ns → Forall (fun n => 0 ≤ n < 10 ^ 18) ns.
Proof.
  revert ns. induction ps as [|p ps IH]; intros ns Hf; [done|]. apply Forall_cons in Hf as [Hp Hf].
  cbn [wildcard_loop]. destruct (is_x p); [by intros [= <-]|].
  destruct (parseSmallInt p) as [n|] eqn:E; [|done]. cbn. apply parseSmallInt_bound in E; [|done].
  destruct (wildcard_loop ps) as [l|]; [|done]. cbn. intros [= <-]. constructor; auto.
Qed.

Lemma nth_bound ns i : Forall (fun n => 0 ≤ n < 10 ^ 18) ns → 0 ≤ default 0 (ns !! i) < 10 ^ 18.
Proof.
  intros Hf. destruct (ns !! i) as [n|] eqn:E; cbn; [|lia]. by eapply (Forall_lookup_1 _ _ _ _ Hf).
Qed.

Lemma wrap_succ n : 0 ≤ n < 10 ^ 18 → 0 ≤ wrap64 (n + 1) < 2 ^ 62.
Proof. intros Hn. rewrite wrap64_small by lia. lia. Qed.

Lemma wildcard_sane expr l u : fits expr → wildcardMatcher expr = Some (l, u) → sane l ∧ sane u.
Proof.
  intros Hf. unfold wildcardMatcher. cbv zeta. set (raw := replace_byte _ _ _).
  assert (fits raw) as Hraw.
  { unfold fits, raw. rewrite replace_fits. by apply fits_TrimPrefix, fits_TrimSpace. }
  pose proof (SplitByte_fits "."%char raw 18 (Nat.le_refl _) Hraw) as Hs.
  case_bool_decide; [done|]. destruct (wildcard_loop _) as [ns|] eqn:E; [|done]. cbn.
  apply wildcard_loop_bound in E.
  - pose proof (nth_bound ns 0 E). pose proof (nth_bound ns 1 E). pose proof (nth_bound ns 2 E).
    pose proof (wrap_succ _ (nth_bound ns 0 E)). pose proof (wrap_succ _ (nth_bound ns 1 E)).
    intros [= <- <-]. case_bool_decide; unfold sane; cbn; lia.
  - destruct (SplitByte raw _) as [|x p]; [done|]. destruct Hs. by constructor.
Qed.

(** ** Ranges have no holes *)

Definition convex (m : versionMatcher) : Prop :=
  ∀ a b c, sane a → sane b → sane c → compareVersions a b ≤ 0 → compareVersions b c ≤ 0 →
    m a = true → m c = true → m b = true.

Lemma convex_comparator op want : sane want → convex (comparatorMatcher op want).
Proof.
  intros Hw a b c Ha Hb Hc Hab Hbc. unfold comparatorMatcher. cbv zeta.
  pose proof (cmp_trans b c want Hb Hc Hw Hbc). pose proof (cmp_lt_trans b c want Hb Hc Hw Hbc).
  pose proof (cmp_opp a b Ha Hb). pose proof (cmp_ge_trans b a want Hb Ha Hw).
  pose proof (cmp_gt_trans b a want Hb Ha Hw).
  repeat case_decide; rewrite ?bool_decide_eq_true; try done; lia.
Qed.

Lemma convex_half_open l u : sane l → sane u → convex (half_open l u).
Proof.
  intros Hl Hu a b c Ha Hb Hc Hab Hbc. unfold half_open. rewrite !andb_true_iff, !bool_decide_eq_true.
  pose proof (cmp_opp a b Ha Hb). pose proof (cmp_ge_trans b a l Hb Ha Hl).
  pose proof (cmp_lt_trans b c u Hb Hc Hu Hbc). lia.
Qed.

Lemma convex_caret value m : fits value → caretMatcher value = Some m → convex m.
Proof.
  intros Hf. unfold caretMatcher. destruct (parsePartialVersion value) as [v|] eqn:E; [|done].
  apply parsePartialVersion_small in E; [|done]. intros [= <-].
  pose proof E as (H1 & H2 & H3). pose proof (wrap_succ _ H1). pose proof (wrap_succ _ H2). pose proof (wrap_succ _ H3).
  apply convex_half_open; [by apply small_sane|]. repeat case_bool_decide; unfold sane; cbn; lia.
Qed.

Lemma convex_tilde value m : fits value → tildeMatcher value = Some m → convex m.
Proof.
  intros Hf. unfold tildeMatcher. destruct (parsePartialVersion value) as [v|] eqn:E; [|done].
  apply parsePartialVersion_small in E; [|done]. intros [= <-].
  pose proof E as (H1 & H2 & H3). pose proof (wrap_succ _ H1). pose proof (wrap_succ _ H2).
  apply convex_half_open; [by apply small_sane|]. case_bool_decide; unfold sane; cbn; lia.
Qed.

Lemma convex_operator ops expr m : fits expr → operator_loop ops expr = Some (Some m) → convex m.
Proof.
  intros Hf. induction ops as [|op ops IH]; cbn [operator_loop]; [done|].
  destruct (HasPrefix expr op); [|done].
  destruct (parsePartialVersion _) as [v|] eqn:E; [|done]. intros [= <-].
  apply convex_comparator, small_sane. eapply parsePartialVersion_small; [|done].
  by apply fits_TrimSpace, fits_TrimPrefix.
Qed.

Lemma convex_parse part m : fits part → parseComparator part = Some m → convex m.
Proof.
  intros Hf%fits_TrimSpace. unfold parseComparator. cbv zeta.
  case_decide; [by intros [= <-] ?|]. destruct (is_x _); [by intros [= <-] ?|].
  destruct (HasPrefix _ "^"); [by apply convex_caret, fits_TrimSpace, fits_TrimPrefix|].
  destruct (HasPrefix _ "~"); [by apply convex_tilde, fits_TrimSpace, fits_TrimPrefix|].
  destruct (wildcardMatcher _) as [[l u]|] eqn:E.
  { intros [= <-]. destruct (wildcard_sane _ _ _ Hf E). by apply convex_half_open. }
  destruct (operator_loop _ _) as [o|] eqn:Eo; [intros ->; by eapply convex_operator|].
  unfold parseConcreteVersion. destruct (parsePartialVersion _) as [v|] eqn:Ev; [|done]. cbn.
  case_bool_decide; [done|]. intros [= <-]. apply convex_comparator, small_sane.
  by eapply parsePartialVersion_small.
Qed.

Lemma convex_parts ps :
  Forall fits ps →
  convex (fun v => forallb (fun p => match parseComparator p with Some m => m v | None => false end) ps).
Proof.
  intros Hf a b c Ha Hb Hc Hab Hbc. induction Hf as [|p ps Hp _ IH]; [done|]. cbn.
  destruct (parseComparator p) as [m|] eqn:E; [|done]. rewrite !andb_true_iff.
  pose proof (convex_parse p m Hp E a b c Ha Hb Hc Hab Hbc). tauto.
Qed.

(** What is written without a hyphen range. *)
Lemma convex_comparators ps :
  Forall fits ps →
  convex (fun v =>
    match ps with
    | [] => false
    | p :: l => forallb (fun p => match parseComparator p with Some m => m v | None => false end) (p :: l)
    end).
Proof. intros Hf. destruct ps; [by intros ? ? ?|]. by apply convex_parts. Qed.

(** The numbers of an alternative have at most 18 digits each. *)
Definition alternative_fits (expr : string) : Prop :=
  Forall fits (splitRangeParts expr) ∧ Forall fits (Split expr " - ").

(** An alternative of a range has no holes: whatever is written in it,
    hyphens, comparators, carets, tildes and wildcards, with numbers of at most 18
    digits, a version between two versions it covers is covered; in
    particular versions of the same precedence are covered together. *)
Theorem alternative_convex (expr : string) (a b c : semanticVersion) :
  alternative_fits expr → sane a → sane b → sane c →
  compareVersions a b ≤ 0 → compareVersions b c ≤ 0 →
  matchConjunction a expr = true → matchConjunction c expr = true → matchConjunction b expr = true.
Proof.
  intros [Hp Hh] Ha Hb Hc Hab Hbc. unfold matchConjunction. case_decide; [done|].
  pose proof (convex_comparators _ Hp a b c Ha Hb Hc Hab Hbc) as Hno. cbv beta in Hno.
  unfold parseHyphenRange.
  destruct (Split expr " - ") as [|l [|u [|? ?]]]; [exact Hno|exact Hno| |exact Hno].
  apply Forall_cons in Hh as [Hl Hh]. apply Forall_cons in Hh as [Hu _].
  destruct (parsePartialVersion l) as [lv|] eqn:El; cbn [mbind option_bind]; [|exact Hno].
  destruct (parsePartialVersion u) as [uv|] eqn:Eu; cbn [mbind option_bind]; [|exact Hno].
  apply parsePartialVersion_small, small_sane in El, Eu; [|done..].
  rewrite !andb_true_iff, !bool_decide_eq_true.
  pose proof (cmp_opp a b Ha Hb). pose proof (cmp_ge_trans b a lv Hb Ha El).
  pose proof (cmp_trans b c uv Hb Hc Eu Hbc). lia.
Qed.

Lemma alternative_convex_witness :
  let v p pr := MkVersion 1 2 p pr 3 in
  matchConjunction (v 3 ["rc"]) "^1.2.0, <1.2.9" = true ∧ matchConjunction (v 8 []) "^1.2.0, <1.2.9" = true ∧
  matchConjunction (v 7 []) "^1.2.0, <1.2.9" = true.
Proof.
  intros v. split; [vm_compute; reflexivity|]. split; [vm_compute; reflexivity|].
  assert (∀ p pr, 0 ≤ p < 100 → sane (v p pr)) as Hv by (intros p pr Hp; unfold sane; cbn; lia).
  apply (alternative_convex "^1.2.0, <1.2.9" (v 3 ["rc"]) (v 7 []) (v 8 []));
    [|apply Hv; lia..|vm_compute; discriminate|vm_compute; discriminate|vm_compute; reflexivity|vm_compute; reflexivity].
  split; apply (bool_decide_unpack _); vm_compute; exact I.
Defined.

(** ** Beyond 64 bits and other surprises *)

Lemma wrap64_mod n : wrap64 (n mod 2 ^ 64) = wrap64 n.
Proof. unfold wrap64. by rewrite Zplus_mod_idemp_l. Qed.

Lemma wrap64_congr n m : n mod 2 ^ 64 = m mod 2 ^ 64 → wrap64 n = wrap64 m.
Proof. intros H. by rewrite <-(wrap64_mod n), H, wrap64_mod. Qed.

Lemma wrap64_eqm n : wrap64 n mod 2 ^ 64 = n mod 2 ^ 64.
Proof. unfold wrap64. rewrite Zminus_mod, Zmod_mod, <-Zminus_mod. f_equal. lia. Qed.

Lemma digit_pretty x : (x < 10)%N → digit (pretty_N_char x) = true ∧ byte (pretty_N_char x) - 48 = Z.of_N x.
Proof.
  intros Hx. destruct x as [|p]; [done|]. do 4 (destruct p as [p|p|]; try done); exfalso; lia.
Qed.

(** A numeral read on from [n]. *)
Lemma small_int_wrap s n m : n mod 2 ^ 64 = m mod 2 ^ 64 → small_int s (wrap64 n) = small_int s (wrap64 m).
Proof. intros H. by rewrite (wrap64_congr n m). Qed.

Lemma small_int_pretty x s : small_int (pretty_N_go x s) 0 = small_int s (wrap64 (Z.of_N x)).
Proof.
  revert s. induction (N.lt_wf_0 x) as [x _ IH]; intros s.
  destruct (decide (0 < x)%N) as [Hx|Hx]; [|by assert (x = 0%N) as -> by lia].
  rewrite pretty_N_go_step, IH by (try apply N.div_lt; lia). cbn [small_int].
  destruct (digit_pretty (x `mod` 10)%N) as [-> ->]; [by apply N.mod_lt|].
  apply small_int_wrap. rewrite Zplus_mod, Zmult_mod, wrap64_eqm, <-Zmult_mod, <-Zplus_mod. f_equal.
  pose proof (N.div_mod x 10 ltac:(lia)). lia.
Qed.

(** Numbers wrap: the numeral of any number is read as the number modulo 2^64,
    so that versions 2^64 apart are taken for one another. *)
Theorem parseSmallInt_wraps (n : N) : parseSmallInt (pretty n) = Some (wrap64 (Z.of_N n)).
Proof.
  unfold parseSmallInt. case_decide as He.
  { exfalso. assert (∀ x s, s ≠ "" → pretty_N_go x s ≠ "") as Hne.
    { intros x. induction (N.lt_wf_0 x) as [x _ IH]; intros s Hs.
      destruct (decide (0 < x)%N); [|by assert (x = 0%N) as -> by lia].
      rewrite pretty_N_go_step by done. apply IH; [apply N.div_lt; lia|done]. }
    unfold pretty, pretty_N in He. case_decide; [done|]. rewrite pretty_N_go_step in He by lia.
    revert He. by apply Hne. }
  unfold pretty, pretty_N. case_decide; [by subst|]. by rewrite small_int_pretty.
Qed.

(** A version 2^64 majors above 1.0.0 is taken for 1.0.0. *)
Lemma wrapped_version_matches f g :
  MatchVersion g f "npm" "18446744073709551617.0.0" "1.0.0" = true.
Proof. vm_compute. reflexivity. Qed.

(** Caret and wildcard ranges miss versions: [^0] and [*.*] do not cover 0.5.0
    and 1.0.0. *)
Lemma ranges_miss :
  (∀ v, parseConcreteVersion "0.5.0" = Some v → matchConjunction v "^0" = false) ∧
  (∀ v, parseConcreteVersion "1.0.0" = Some v → matchConjunction v "*.*" = false).
Proof. split; intros v [= <-]; vm_compute; reflexivity. Qed.

(** The prereleases of the excluded upper bound are covered. *)
Lemma caret_covers_next_prerelease v :
  parseConcreteVersion "2.0.0-alpha" = Some v → matchConjunction v "^1.2.3" = true.
Proof. intros [= <-]. vm_compute. reflexivity. Qed.
