(* ===== verification/Scheduler.v ===== *)
(** * Scheduler: workflow runs, their jobs and the runners

    The tables of runs, jobs, steps and approvals with every statement that changes
    them and the code around the statements: internal/actions/trigger/enqueue.go
    (Enqueue and the quota-blocked run), concurrency/concurrency.go (Enforce),
    runstate/cancel.go, lifecycle/*.go, and the runner endpoints of
    internal/web/handlers/api/runners.go (claim, job and step status).  A transaction
    is one step; a failing statement rolls it back.  Timestamps other than
    [created_at] and the completion of a run, versions, names, payloads, emitted
    events, check runs and metrics are left out.  [citext_eq] is the comparison of
    the citext column of environment names, [pattern_matches] the function
    shithub_deployment_pattern_matches of migration 0110. *)

From stdpp Require Import sorting.
From S2P Require Import Prelude GoString Expr Concurrency.
Local Open Scope Z_scope.

(** ** The rows (sqlc/models.go) *)

Inductive RunStatus := RunQueued | RunRunning | RunCompleted | RunCancelled.
#[export] Instance RunStatus_eq_dec : EqDecision RunStatus.
Proof. solve_decision. Defined.

Record WorkflowRun := MkRun {
  RunID : Z; RunRepoID : Z; RunIndex : Z; WorkflowFile : string; HeadRef : string;
  ActorUserID : option Z; ParentRunID : option Z; ConcurrencyGroup : string; RStatus : RunStatus;
  RConclusion : option CheckConclusion; Pinned : bool; NeedApproval : bool;
  ApprovedBy : option Z; RCompletedAt : option Z; RCreatedAt : Z; TriggerEventID : string
}.

Record WorkflowJob := MkWJob {
  JobID : Z; JRunID : Z; JobIndex : Z; JobKey : string; RunsOn : string; RunnerID : option Z;
  NeedsJobs : list string; EnvironmentName : string; Status : WorkflowJobStatus;
  Conclusion : option CheckConclusion; CancelRequested : bool; JCreatedAt : Z
}.

Record WorkflowStep := MkStep {
  StepID : Z; SJobID : Z; SStatus : WorkflowJobStatus; SConclusion : option CheckConclusion
}.

Record Approval := MkApproval { Approved : option Z; Rejected : option Z }.

Record DB := MkDB {
  runs : gmap Z WorkflowRun; wjobs : gmap Z WorkflowJob; steps : gmap Z WorkflowStep;
  approvals : gmap Z Approval; next_run : Z; next_job : Z; next_step : Z
}.

Definition emptyDB : DB := MkDB ∅ ∅ ∅ ∅ 1 1 1.

Definition on_runs (f : gmap Z WorkflowRun → gmap Z WorkflowRun) (d : DB) : DB :=
  MkDB (f (runs d)) (wjobs d) (steps d) (approvals d) (next_run d) (next_job d) (next_step d).

Definition on_jobs (f : gmap Z WorkflowJob → gmap Z WorkflowJob) (d : DB) : DB :=
  MkDB (runs d) (f (wjobs d)) (steps d) (approvals d) (next_run d) (next_job d) (next_step d).

Definition on_steps (f : gmap Z WorkflowStep → gmap Z WorkflowStep) (d : DB) : DB :=
  MkDB (runs d) (wjobs d) (f (steps d)) (approvals d) (next_run d) (next_job d) (next_step d).

Definition on_approvals (f : gmap Z Approval → gmap Z Approval) (d : DB) : DB :=
  MkDB (runs d) (wjobs d) (steps d) (f (approvals d)) (next_run d) (next_job d) (next_step d).

Definition set_run_status (s : RunStatus) (c : option CheckConclusion) (done : option Z)
    (r : WorkflowRun) : WorkflowRun :=
  MkRun (RunID r) (RunRepoID r) (RunIndex r) (WorkflowFile r) (HeadRef r) (ActorUserID r)
    (ParentRunID r) (ConcurrencyGroup r) s c (Pinned r) (NeedApproval r) (ApprovedBy r) done
    (RCreatedAt r) (TriggerEventID r).

Definition set_approved (by_ : Z) (r : WorkflowRun) : WorkflowRun :=
  MkRun (RunID r) (RunRepoID r) (RunIndex r) (WorkflowFile r) (HeadRef r) (ActorUserID r)
    (ParentRunID r) (ConcurrencyGroup r) (RStatus r) (RConclusion r) (Pinned r) (NeedApproval r)
    (Some by_) (RCompletedAt r) (RCreatedAt r) (TriggerEventID r).

Definition set_job_status (s : WorkflowJobStatus) (c : option CheckConclusion) (cancel : bool)
    (j : WorkflowJob) : WorkflowJob :=
  MkWJob (JobID j) (JRunID j) (JobIndex j) (JobKey j) (RunsOn j) (RunnerID j) (NeedsJobs j)
    (EnvironmentName j) s c cancel (JCreatedAt j).

Definition set_runner (runner : Z) (j : WorkflowJob) : WorkflowJob :=
  MkWJob (JobID j) (JRunID j) (JobIndex j) (JobKey j) (RunsOn j) (Some runner) (NeedsJobs j)
    (EnvironmentName j) JobRunning (Conclusion j) (CancelRequested j) (JCreatedAt j).

Definition set_step_status (s : WorkflowJobStatus) (c : option CheckConclusion) (st : WorkflowStep)
    : WorkflowStep :=
  MkStep (StepID st) (SJobID st) s c.

(** ** workflow_runs.sql *)

Definition CompleteWorkflowRun (id : Z) (c : CheckConclusion) (now : Z) : DB → DB :=
  on_runs (alter (fun r =>
    set_run_status RunCompleted (Some c) (Some (default now (RCompletedAt r))) r) id).

Definition start_if (ok : WorkflowRun → bool) (r : WorkflowRun) : WorkflowRun :=
  if bool_decide (RStatus r = RunQueued) && ok r
  then set_run_status RunRunning (RConclusion r) (RCompletedAt r) r else r.

Definition MarkWorkflowRunRunning (id : Z) : DB → DB := on_runs (alter (start_if (fun _ => true)) id).

Definition dispatchable (r : WorkflowRun) : bool :=
  negb (NeedApproval r) || bool_decide (is_Some (ApprovedBy r)).

Definition StartWorkflowRun (id : Z) : DB → DB := on_runs (alter (start_if dispatchable) id).

Definition run_terminal (s : RunStatus) : bool :=
  match s with RunCompleted | RunCancelled => true | _ => false end.

Definition active (s : RunStatus) : bool := negb (run_terminal s).

(** ON DELETE CASCADE. *)
Definition delete_runs (p : WorkflowRun → bool) (d : DB) : DB :=
  let gone id := match runs d !! id with Some r => p r | None => false end in
  let job_gone id := match wjobs d !! id with Some j => gone (JRunID j) | None => false end in
  MkDB (filter (fun kv => p kv.2 = false) (runs d)) (filter (fun kv => gone (JRunID kv.2) = false) (wjobs d))
    (filter (fun kv => job_gone (SJobID kv.2) = false) (steps d))
    (filter (fun kv => gone kv.1 = false) (approvals d)) (next_run d) (next_job d) (next_step d).

Definition DeleteOldWorkflowRunsForCleanup (cutoff : Z) : DB → DB :=
  delete_runs (fun r =>
    negb (Pinned r) && run_terminal (RStatus r) &&
    match RCompletedAt r with Some t => bool_decide (t < cutoff) | None => false end).

Definition DeleteWorkflowRunByID (id : Z) : DB → DB := delete_runs (fun r => bool_decide (RunID r = id)).

(** The handler of the REST API: a run that is not there, or in another repository, is not found; the state of the run
    does not matter. *)
Definition actionsRunDelete (repo runID : Z) (d : DB) : option DB :=
  match runs d !! runID with
  | Some run => if negb (bool_decide (RunRepoID run = repo)) then None else Some (DeleteWorkflowRunByID runID d)
  | None => None
  end.

(** ** workflow_jobs.sql, workflow_steps.sql *)

Definition open_job (j : WorkflowJob) : bool :=
  match Status j with JobQueued | JobRunning => true | _ => false end.

Definition cancellable (j : WorkflowJob) : bool :=
  open_job j && (bool_decide (Status j = JobQueued) || negb (CancelRequested j)).

(** The SET clause of both cancel requests. *)
Definition request_cancel (j : WorkflowJob) : WorkflowJob :=
  if decide (Status j = JobQueued) then set_job_status JobCancelled (Some ConclusionCancelled) true j
  else set_job_status (Status j) (Conclusion j) true j.

(** UPDATE ... WHERE p RETURNING. *)
Definition update_jobs (p : WorkflowJob → bool) (f : WorkflowJob → WorkflowJob) (d : DB)
  : list WorkflowJob * DB :=
  (map f (filter (fun j => p j = true) (map_to_list (wjobs d)).*2),
   on_jobs (fmap (fun j => if p j then f j else j)) d).

Definition in_run (run : Z) (j : WorkflowJob) : bool := bool_decide (JRunID j = run).

Definition RequestWorkflowRunCancel (run : Z) : DB → list WorkflowJob * DB :=
  update_jobs (fun j => in_run run j && cancellable j) request_cancel.

Definition RequestWorkflowJobCancel (id : Z) : DB → list WorkflowJob * DB :=
  update_jobs (fun j => bool_decide (JobID j = id) && cancellable j) request_cancel.

Definition CancelRunnerJobsMissingFromActiveSet (runner : Z) (active_ids : list Z)
  : DB → list WorkflowJob * DB :=
  update_jobs (fun j => bool_decide (RunnerID j = Some runner) && bool_decide (Status j = JobRunning) &&
                        bool_decide (JobID j ∉ active_ids))
    (set_job_status JobCancelled (Some ConclusionCancelled) true).

Definition MarkWorkflowJobsRejected (run : Z) : DB → list WorkflowJob * DB :=
  update_jobs (fun j => in_run run j && bool_decide (Status j = JobQueued))
    (set_job_status JobCancelled (Some ActionRequired) true).

Definition UpdateWorkflowJobStatus (id : Z) (s : WorkflowJobStatus) (c : option CheckConclusion)
  : DB → DB :=
  on_jobs (alter (fun j => set_job_status s c (CancelRequested j) j) id).

Definition open_step (st : WorkflowStep) : bool :=
  match SStatus st with JobQueued | JobRunning => true | _ => false end.

Definition CancelOpenWorkflowStepsForJob (job : Z) : DB → DB :=
  on_steps (fmap (fun st =>
    if bool_decide (SJobID st = job) && open_step st
    then set_step_status JobCancelled (Some ConclusionCancelled) st else st)).

Definition UpdateWorkflowStepStatus (id : Z) (s : WorkflowJobStatus) (c : option CheckConclusion)
  : DB → DB :=
  on_steps (alter (set_step_status s c) id).

Definition by_index (a b : WorkflowJob) : Prop := JobIndex a ≤ JobIndex b.
#[export] Instance by_index_dec : RelDecision by_index.
Proof. intros a b. unfold by_index. apply _. Defined.

Definition jobs_of (run : Z) (d : DB) : list WorkflowJob :=
  filter (fun j => JRunID j = run) (map_to_list (wjobs d)).*2.

Definition ListJobsForRun (run : Z) (d : DB) : list WorkflowJob := merge_sort by_index (jobs_of run d).

(** The columns the conclusion is derived from. *)
Definition outcome_row (j : WorkflowJob) : Job := MkJob (Status j) (Conclusion j).

(** ** runstate/cancel.go *)

Definition derive_run (run : Z) (d : DB) : option CheckConclusion :=
  DeriveWorkflowRunConclusion (map outcome_row (ListJobsForRun run d)).

Definition RollupAfterCancel (run now : Z) (d : DB) : option CheckConclusion * DB :=
  match derive_run run d with
  | Some c => (Some c, CompleteWorkflowRun run c now d)
  | None => (None, MarkWorkflowRunRunning run d)
  end.

(** ** lifecycle/cancel.go *)

Inductive LifecycleErr :=
| ErrNoRows | ErrApprovalActorRequired | ErrRunNotApprovalPending | ErrApprovalSelfReviewBlocked
| ErrActorRequired | ErrRunNotRerunnable | ErrWorkflowSource.

(** The steps of the jobs that are cancelled at once. *)
Definition cancel_steps (changed : list WorkflowJob) (d : DB) : DB :=
  foldr (fun j d => if decide (Status j = JobCancelled) then CancelOpenWorkflowStepsForJob (JobID j) d else d)
    d changed.

(** What CancelRun and CancelJob do with what the request changed. *)
Definition after_cancel (run now : Z) (changed : list WorkflowJob) (d : DB) : DB :=
  let d := cancel_steps changed d in
  match changed with [] => d | _ => (RollupAfterCancel run now d).2 end.

Definition CancelRun (run now : Z) (d : DB) : res LifecycleErr DB :=
  match runs d !! run with
  | None => Err ErrNoRows
  | Some _ => let '(changed, d) := RequestWorkflowRunCancel run d in Ok (after_cancel run now changed d)
  end.

Definition CancelJob (job now : Z) (d : DB) : res LifecycleErr DB :=
  let '(changed, d') := RequestWorkflowJobCancel job d in
  match changed with
  | j :: _ => Ok (after_cancel (JRunID j) now changed d')
  | [] => match wjobs d !! job with None => Err ErrNoRows | Some _ => Ok d end
  end.

Definition ReconcileRunnerActiveJobs (runner now : Z) (active_ids : list Z) (d : DB) : DB :=
  let '(changed, d) := CancelRunnerJobsMissingFromActiveSet runner active_ids d in
  foldr (fun run d => (RollupAfterCancel run now d).2) (cancel_steps changed d)
    (remove_dups (map JRunID changed)).

(** ** Configuration the claim looks at *)

Inductive PolicyState := Inherit | Enabled | Disabled.
#[export] Instance PolicyState_eq_dec : EqDecision PolicyState.
Proof. solve_decision. Defined.

Inductive BranchPolicy := AllBranches | ProtectedBranches | SelectedBranches.
#[export] Instance BranchPolicy_eq_dec : EqDecision BranchPolicy.
Proof. solve_decision. Defined.

Record ScopePolicy := MkScopePolicy {
  actions_enabled : PolicyState; require_pr_approval : option bool; max_repo_queued_runs : option Z;
  max_repo_concurrent_jobs : option Z; max_owner_concurrent_jobs : option Z;
  actor_trigger_limit_per_hour : option Z
}.

Record SitePolicy := MkSitePolicy {
  site_enabled : bool; site_require_pr_approval : bool; site_max_queued : Z; site_max_repo : Z;
  site_max_owner : Z; site_trigger_limit : Z
}.

Inductive Owner := UserOwner (id : Z) | OrgOwner (id : Z).
#[export] Instance Owner_eq_dec : EqDecision Owner.
Proof. solve_decision. Defined.

Record Environment := MkEnvironment {
  EnvRepo : Z; EnvName : string; RequiredReviewers : bool; PreventSelfReview : bool;
  WaitTimerMinutes : Z; DeploymentBranchPolicy : BranchPolicy; DeploymentBranches : list string
}.

Record ProtectionRow := MkProtectionRow { BprRepo : Z; BprTarget : string; BprPattern : string }.

Record Config := MkConfig {
  repo_owner : gmap Z Owner; site_policy : option SitePolicy; org_policies : gmap Z ScopePolicy;
  repo_policies : gmap Z ScopePolicy; environments : list Environment;
  protections : list ProtectionRow; workflow_disabled : list (Z * string);
  quota_exceeded : Z → bool (* the minutes quota of the owner, see enforceActionsMinutesQuota *)
}.

Section Scheduler.
  Variable citext_eq : string → string → bool.
  Variable pattern_matches : string → string → bool.

(** ** ClaimQueuedWorkflowJob *)

Definition org_policy (c : Config) (repo : Z) : option ScopePolicy :=
  match repo_owner c !! repo with Some (OrgOwner o) => org_policies c !! o | _ => None end.

Definition policy_state (p : option ScopePolicy) : PolicyState :=
  match p with Some p => actions_enabled p | None => Inherit end.

Definition repo_enabled (c : Config) (repo : Z) : bool :=
  let site := match site_policy c with Some s => site_enabled s | None => true end in
  if negb site then false
  else match policy_state (repo_policies c !! repo) with
       | Enabled => true
       | Disabled => false
       | Inherit => match policy_state (org_policy c repo) with
                    | Enabled => true
                    | Disabled => false
                    | Inherit => site
                    end
       end.

(** COALESCE over the repository, its organization, the site and the default. *)
Definition cap {A} (f : ScopePolicy → option A) (g : SitePolicy → A) (dflt : A) (c : Config) (repo : Z) : A :=
  match repo_policies c !! repo ≫= f with
  | Some n => n
  | None => match org_policy c repo ≫= f with
            | Some n => n
            | None => match site_policy c with Some s => g s | None => dflt end
            end
  end.

Definition repo_cap : Config → Z → Z := cap max_repo_concurrent_jobs site_max_repo 20.
Definition owner_cap : Config → Z → Z := cap max_owner_concurrent_jobs site_max_owner 100.

Definition job_repo (d : DB) (j : WorkflowJob) : option Z := RunRepoID <$> runs d !! JRunID j.

Definition count_running (p : Z → bool) (d : DB) : Z :=
  Z.of_nat (length (filter (fun j =>
    Status j = JobRunning ∧ default false (p <$> job_repo d j) = true)
    (map_to_list (wjobs d)).*2)).

Definition same_owner (c : Config) (a b : Z) : bool :=
  match repo_owner c !! a, repo_owner c !! b with
  | Some x, Some y => bool_decide (x = y)
  | _, _ => false
  end.

(** A needed job that keeps [j] waiting; a comparison with NULL is not true. *)
Definition unmet (j dep : WorkflowJob) : bool :=
  in_run (JRunID j) dep && bool_decide (JobKey dep ∈ NeedsJobs j) &&
  (bool_decide (Status dep ≠ JobCompleted) ||
   match Conclusion dep with Some c => bool_decide (c ≠ Success) | None => false end).

Definition created_before (a b : WorkflowRun) : bool :=
  bool_decide (RCreatedAt a < RCreatedAt b) ||
  (bool_decide (RCreatedAt a = RCreatedAt b) && bool_decide (RunID a < RunID b)).

Definition holds_slot (run : Z) (j : WorkflowJob) : bool :=
  in_run run j && open_job j && negb (CancelRequested j).

Definition exists_job (p : WorkflowJob → bool) (d : DB) : bool := existsb p (map_to_list (wjobs d)).*2.
Definition exists_run (p : WorkflowRun → bool) (d : DB) : bool := existsb p (map_to_list (runs d)).*2.

(** An older run of the group that still holds its slot. *)
Definition blocker (r : WorkflowRun) (d : DB) (b : WorkflowRun) : bool :=
  bool_decide (ConcurrencyGroup r ≠ "") && bool_decide (RunRepoID b = RunRepoID r) &&
  bool_decide (ConcurrencyGroup b = ConcurrencyGroup r) && bool_decide (RunID b ≠ RunID r) &&
  active (RStatus b) && created_before b r && exists_job (holds_slot (RunID b)) d.

(** The ref of a deployment: the target and the name. *)
Definition deployment_ref (ref : string) : string * string :=
  match strip_prefix "refs/heads/" ref with
  | Some n => ("branch", n)
  | None => match strip_prefix "refs/tags/" ref with Some n => ("tag", n) | None => ("", "") end
  end.

Definition branch_allowed (c : Config) (env : Environment) (repo : Z) (ref : string) : bool :=
  let '(target, name) := deployment_ref ref in
  match DeploymentBranchPolicy env with
  | AllBranches => true
  | ProtectedBranches =>
      let here := filter (fun b => BprRepo b = repo ∧ BprTarget b = target) (protections c) in
      bool_decide (target ≠ "") &&
      (bool_decide (here = []) || existsb (fun b => pattern_matches (BprPattern b) name) here)
  | SelectedBranches =>
      bool_decide (target ≠ "") && existsb (fun p => pattern_matches p name) (DeploymentBranches env)
  end.

(** An environment of the job that holds it back. *)
Definition held_by (c : Config) (now : Z) (r : WorkflowRun) (j : WorkflowJob) (env : Environment) : bool :=
  bool_decide (EnvRepo env = RunRepoID r) && bool_decide (EnvName env = EnvironmentName j) &&
  (negb (branch_allowed c env (RunRepoID r) (HeadRef r)) ||
   (bool_decide (0 < WaitTimerMinutes env) &&
    bool_decide (now < JCreatedAt j + WaitTimerMinutes env * (60 * 10 ^ 9))) ||
   (RequiredReviewers env && NeedApproval r && bool_decide (ApprovedBy r = None))).

Definition claimable (c : Config) (labels : list string) (now : Z) (d : DB) (j : WorkflowJob) : bool :=
  match runs d !! JRunID j with
  | None => false
  | Some r =>
      bool_decide (Status j = JobQueued) && active (RStatus r) && dispatchable r &&
      negb (CancelRequested j) && bool_decide (RunnerID j = None) && repo_enabled c (RunRepoID r) &&
      bool_decide (count_running (fun repo => bool_decide (repo = RunRepoID r)) d < repo_cap c (RunRepoID r)) &&
      bool_decide (count_running (same_owner c (RunRepoID r)) d < owner_cap c (RunRepoID r)) &&
      bool_decide (RunsOn j = "" ∨ RunsOn j ∈ labels) &&
      negb (exists_job (unmet j) d) && negb (exists_run (blocker r d) d) &&
      negb (existsb (held_by c now r j) (environments c))
  end.

(** ORDER BY created_at, id. *)
Definition queued_before (a b : WorkflowJob) : bool :=
  bool_decide (JCreatedAt a < JCreatedAt b) ||
  (bool_decide (JCreatedAt a = JCreatedAt b) && bool_decide (JobID a < JobID b)).

Definition first_queued (l : list WorkflowJob) : option WorkflowJob :=
  foldr (fun j best => match best with
                       | Some b => if queued_before b j then Some b else Some j
                       | None => Some j
                       end) None l.

Definition ClaimQueuedWorkflowJob (c : Config) (runner : Z) (labels : list string) (now : Z) (d : DB)
  : option (WorkflowJob * DB) :=
  match first_queued (filter (fun j => claimable c labels now d j = true) (map_to_list (wjobs d)).*2) with
  | None => None
  | Some j => let j := set_runner runner j in Some (j, on_jobs <[JobID j := j]> d)
  end.

(** ** runners.go *)

Record Runner := MkRunner { Revoked : bool; Draining : bool }.

Inductive ClaimResult := RunnerRevoked | NoJob | Claimed (job : Z).

Definition CountRunningJobsForRunner (runner : Z) (d : DB) : Z :=
  Z.of_nat (length (filter (fun j => RunnerID j = Some runner ∧ Status j = JobRunning)
    (map_to_list (wjobs d)).*2)).

(** [claimRunnerJob]; the heartbeat only writes the row of the runner. *)
Definition claimRunnerJob (c : Config) (runner : Z) (row : Runner) (labels : list string)
    (capacity now : Z) (d : DB) : ClaimResult * DB :=
  if Revoked row then (RunnerRevoked, d)
  else if Draining row then (NoJob, d)
  else if bool_decide (capacity ≤ CountRunningJobsForRunner runner d) then (NoJob, d)
  else
    match ClaimQueuedWorkflowJob c runner labels now d with
    | None => (NoJob, d)
    | Some (job, d) => (Claimed (JobID job), StartWorkflowRun (JRunID job) d)
    end.

(** Returned to the claim of [ids]. *)
Definition normalizeRunnerActiveJobIDs (ids : list Z) (capacity : Z) : option (list Z) :=
  if bool_decide (capacity < Z.of_nat (length ids)) then None
  else if bool_decide (Forall (fun id => 0 < id) ids ∧ NoDup ids) then Some (merge_sort Z.le ids)
  else None.

Definition validWorkflowJobTransition (from to : WorkflowJobStatus) : bool :=
  match to with
  | JobRunning => bool_decide (from = JobQueued ∨ from = JobRunning)
  | JobCompleted => bool_decide (from = JobQueued ∨ from = JobRunning ∨ from = JobCompleted)
  | JobCancelled => bool_decide (from = JobQueued ∨ from = JobRunning ∨ from = JobCancelled)
  | _ => false
  end.

Definition validWorkflowStepTransition (from to : WorkflowJobStatus) : bool :=
  match to with
  | JobRunning => bool_decide (from = JobQueued ∨ from = JobRunning)
  | JobQueued => false
  | _ => bool_decide (from = JobQueued ∨ from = JobRunning ∨ from = to)
  end.

Definition status_text (s : string) : option WorkflowJobStatus :=
  if decide (s = "queued") then Some JobQueued
  else if decide (s = "running") then Some JobRunning
  else if decide (s = "completed") then Some JobCompleted
  else if decide (s = "cancelled") then Some JobCancelled
  else if decide (s = "skipped") then Some JobSkipped else None.

(** [validRunnerConclusion] and the conversion. *)
Definition runner_conclusion (s : string) : option CheckConclusion :=
  if decide (s = "success") then Some Success
  else if decide (s = "failure") then Some Failure
  else if decide (s = "neutral") then Some Neutral
  else if decide (s = "cancelled") then Some ConclusionCancelled
  else if decide (s = "skipped") then Some ConclusionSkipped
  else if decide (s = "timed_out") then Some TimedOut
  else if decide (s = "action_required") then Some ActionRequired else None.

(** The body of a status request; [times_ok]: its times parse. *)
Record StatusRequest := MkStatusRequest { bStatus : string; bConclusion : string; times_ok : bool }.

(** Both normalisations: the status, the conclusion and whether it is terminal. *)
Definition normalizeStatusUpdate (valid : WorkflowJobStatus → WorkflowJobStatus → bool)
    (skipped_terminal : bool) (from : WorkflowJobStatus) (body : StatusRequest)
  : option (WorkflowJobStatus * option CheckConclusion * bool) :=
  s ← status_text (TrimSpace (bStatus body));
  if negb (valid from s) || negb (times_ok body) then None
  else
    let terminal :=
      bool_decide (s = JobCompleted ∨ s = JobCancelled ∨ (s = JobSkipped ∧ skipped_terminal = true)) in
    let c := TrimSpace (bConclusion body) in
    if terminal then
      let c := if decide (c = "" ∧ s = JobCancelled) then "cancelled"
               else if decide (c = "" ∧ s = JobSkipped) then "skipped" else c in
      conclusion ← runner_conclusion c; Some (s, Some conclusion, true)
    else if decide (c = "") then Some (s, None, false) else None.

Definition normalizeJobStatusUpdate : WorkflowJobStatus → StatusRequest → _ :=
  normalizeStatusUpdate validWorkflowJobTransition false.

Definition normalizeStepStatusUpdate : WorkflowJobStatus → StatusRequest → _ :=
  normalizeStatusUpdate validWorkflowStepTransition true.

(** [applyJobStatus] on the row [job] read before; the transaction fails when the
    row is gone. *)
Definition applyJobStatus (job : WorkflowJob) (s : WorkflowJobStatus) (c : option CheckConclusion)
    (now : Z) (d : DB) : option DB :=
  match wjobs d !! JobID job with
  | None => None
  | Some updated =>
      let d := UpdateWorkflowJobStatus (JobID job) s c d in
      let d := if decide (s = JobCancelled) then CancelOpenWorkflowStepsForJob (JobID job) d else d in
      Some (match derive_run (JRunID updated) d with
            | Some c => CompleteWorkflowRun (JRunID updated) c now d
            | None => StartWorkflowRun (JRunID updated) d
            end)
  end.

(** ** lifecycle/approval.go *)

Definition GetRepoEnvironmentByName (c : Config) (repo : Z) (name : string) : option Environment :=
  head (filter (fun e => EnvRepo e = repo ∧ citext_eq (EnvName e) name = true) (environments c)).

Definition job_environments (names : list string) : list string :=
  filter (fun n => n ≠ "") (map TrimSpace names).

(** The names are looked up once per spelling in lower case, which the lookup
    does not tell apart. *)
Definition environmentSelfReviewBlocked (c : Config) (r : WorkflowRun) (d : DB) : bool :=
  existsb (fun n => match GetRepoEnvironmentByName c (RunRepoID r) n with
                    | Some e => RequiredReviewers e && PreventSelfReview e
                    | None => false
                    end)
    (job_environments (map EnvironmentName (ListJobsForRun (RunID r) d))).

Definition open_approval (run : Z) (d : DB) : bool :=
  match approvals d !! run with
  | Some a => bool_decide (Approved a = None) && bool_decide (Rejected a = None)
  | None => false
  end.

Definition pending (r : WorkflowRun) : bool :=
  NeedApproval r && bool_decide (ApprovedBy r = None) && bool_decide (RStatus r = RunQueued).

Definition ApproveRun (c : Config) (run actor : Z) (d : DB) : res LifecycleErr DB :=
  if decide (actor = 0) then Err ErrApprovalActorRequired
  else
    match runs d !! run with
    | None => Err ErrRunNotApprovalPending
    | Some r =>
        if pending r && bool_decide (ActorUserID r = Some actor) && environmentSelfReviewBlocked c r d
        then Err ErrApprovalSelfReviewBlocked
        else if pending r && open_approval run d then
          Ok (on_approvals (alter (fun a => MkApproval (Some actor) (Rejected a)) run)
                (on_runs (alter (set_approved actor) run) d))
        else Err ErrRunNotApprovalPending
    end.

Definition RejectRun (run actor now : Z) (d : DB) : res LifecycleErr DB :=
  if decide (actor = 0) then Err ErrApprovalActorRequired
  else if negb (open_approval run d) then Err ErrRunNotApprovalPending
  else
    let d := on_approvals (alter (fun a => MkApproval (Approved a) (Some actor)) run) d in
    let '(_, d) := MarkWorkflowJobsRejected run d in
    match runs d !! run with
    | Some r =>
        if pending r then
          Ok (on_runs <[run := set_run_status RunCompleted (Some ActionRequired)
                                 (Some (default now (RCompletedAt r))) r]> d)
        else Err ErrRunNotApprovalPending
    | None => Err ErrRunNotApprovalPending
    end.

(** ** trigger/enqueue.go *)

Record JobSpec := MkJobSpec {
  SpecKey : string; SpecRunsOn : string; SpecNeeds : list string; SpecEnvironment : string; SpecSteps : nat
}.

Record EnqueueParams := MkEnqueue {
  eRepoID : Z; eWorkflowFile : string; eHeadSHA : string; eHeadRef : string; eActor : Z; eParent : Z;
  eTriggerEventID : string; eJobs : list JobSpec; eNeedApproval : bool; eGroup : string;
  eCancelInProgress : bool; eEventKnown : bool (* one of the four kinds *)
}.

Inductive EnqueueResult := Invalid | Skipped | AlreadyExists (run : Z) | Queued (run : Z) | QuotaBlocked (run : Z).

Definition validateParams (p : EnqueueParams) : bool :=
  bool_decide (eRepoID p ≠ 0) && bool_decide (eWorkflowFile p ≠ "") && bool_decide (eHeadSHA p ≠ "") &&
  bool_decide (eTriggerEventID p ≠ "") && bool_decide (eJobs p ≠ []) && eEventKnown p.

Definition NextRunIndexForRepo (repo : Z) (d : DB) : Z :=
  foldr Z.max 0 (map RunIndex (filter (fun r => RunRepoID r = repo) (map_to_list (runs d)).*2)) + 1.

Definition same_trigger (p : EnqueueParams) (r : WorkflowRun) : bool :=
  bool_decide (RunRepoID r = eRepoID p) && bool_decide (WorkflowFile r = eWorkflowFile p) &&
  bool_decide (TriggerEventID r = eTriggerEventID p).

Definition pgInt8 (v : Z) : option Z := if decide (v = 0) then None else Some v.

(** The row EnqueueWorkflowRun inserts. *)
Definition new_run (p : EnqueueParams) (need_approval : bool) (group : string) (created : Z) (d : DB)
  : WorkflowRun :=
  MkRun (next_run d) (eRepoID p) (NextRunIndexForRepo (eRepoID p) d) (eWorkflowFile p) (eHeadRef p)
    (pgInt8 (eActor p)) (pgInt8 (eParent p)) group RunQueued None false need_approval None None created
    (eTriggerEventID p).

Definition insert_run (r : WorkflowRun) (d : DB) : DB :=
  MkDB (<[RunID r := r]> (runs d)) (wjobs d) (steps d) (approvals d) (next_run d + 1) (next_job d)
    (next_step d).

Definition insert_step (job : Z) (s : WorkflowJobStatus) (c : option CheckConclusion) (d : DB) : DB :=
  MkDB (runs d) (wjobs d) (<[next_step d := MkStep (next_step d) job s c]> (steps d)) (approvals d)
    (next_run d) (next_job d) (next_step d + 1).

(** A job row and its steps, with the status they end the transaction with. *)
Definition insert_job (run created : Z) (s : WorkflowJobStatus) (c : option CheckConclusion)
    (index : Z) (env : string) (j : JobSpec) (d : DB) : DB :=
  let id := next_job d in
  let row := MkWJob id run index (SpecKey j) (SpecRunsOn j) None (SpecNeeds j) env s c false created in
  Nat.iter (SpecSteps j) (insert_step id s c)
    (MkDB (runs d) (<[id := row]> (wjobs d)) (steps d) (approvals d) (next_run d) (id + 1) (next_step d)).

Fixpoint insert_jobs (run created : Z) (s : WorkflowJobStatus) (c : option CheckConclusion)
    (keep_env : bool) (index : Z) (js : list JobSpec) (d : DB) : DB :=
  match js with
  | [] => d
  | j :: js =>
      insert_jobs run created s c keep_env (index + 1) js
        (insert_job run created s c index (if keep_env then SpecEnvironment j else "") j d)
  end.

Definition requires_review (c : Config) (p : EnqueueParams) : bool :=
  existsb (fun n => match GetRepoEnvironmentByName c (eRepoID p) n with
                    | Some e => RequiredReviewers e
                    | None => false
                    end)
    (job_environments (map SpecEnvironment (eJobs p))).

(** [Enforce]: the blockers, older runs first, are cancelled one after the other. *)
Definition blockers (r : WorkflowRun) (d : DB) : list Z :=
  map RunID (filter (fun b => blocker r d b = true) (map_to_list (runs d)).*2).

Definition enforce_one (now : Z) (d : DB) (run : Z) : DB :=
  let '(changed, d) := RequestWorkflowRunCancel run d in after_cancel run now changed d.

Definition Enforce (r : WorkflowRun) (cancel_in_progress : bool) (now : Z) (d : DB) : DB :=
  if decide (TrimSpace (ConcurrencyGroup r) = "") then d
  else if cancel_in_progress then foldl (enforce_one now) d (blockers r d) else d.

Definition distinct_keys (p : EnqueueParams) : bool := bool_decide (NoDup (map SpecKey (eJobs p))).

(** The run is over as soon as it is inserted, its jobs and steps are skipped. *)
Definition enqueueQuotaBlockedRun (p : EnqueueParams) (created now : Z) (d : DB) : EnqueueResult * DB :=
  let r := new_run p false "" created d in
  let d := insert_run r d in
  let d := CompleteWorkflowRun (RunID r) ActionRequired now d in
  (QuotaBlocked (RunID r),
   insert_jobs (RunID r) created JobSkipped (Some ActionRequired) false 0 (eJobs p) d).

(** [Enqueue]; [created] is the start of its transaction, [now] its end.  The job keys of a run are
    unique, else the transaction fails. *)
Definition Enqueue (c : Config) (p : EnqueueParams) (created now : Z) (d : DB) : EnqueueResult * DB :=
  if negb (validateParams p) then (Invalid, d)
  else if bool_decide ((eRepoID p, eWorkflowFile p) ∈ workflow_disabled c) then (Skipped, d)
  else
    match head (filter (fun r => same_trigger p r = true) (map_to_list (runs d)).*2) with
    | Some r => (AlreadyExists (RunID r), d)
    | None =>
        if negb (distinct_keys p) then (Invalid, d)
        else if quota_exceeded c (eRepoID p) then enqueueQuotaBlockedRun p created now d
        else
          let need := eNeedApproval p || requires_review c p in
          let r := new_run p need (eGroup p) created d in
          let d := insert_run r d in
          let d := if need then on_approvals <[RunID r := MkApproval None None]> d else d in
          let d := insert_jobs (RunID r) created JobQueued None true 0 (eJobs p) d in
          (Queued (RunID r), Enforce r (eCancelInProgress p) now d)
    end.

(** ** lifecycle/rerun.go

    [source] is the workflow parsed from the file at the head of the run, with its
    concurrency group resolved. *)
Definition workflowRunRerunnable (s : RunStatus) : bool := run_terminal s.

Definition RerunRun (c : Config) (source : WorkflowRun → option (string * list JobSpec * string * bool))
    (run actor : Z) (entropy : string) (created now : Z) (d : DB) : res LifecycleErr (EnqueueResult * DB) :=
  if decide (actor = 0) then Err ErrActorRequired
  else
    match runs d !! run with
    | None => Err ErrNoRows
    | Some r =>
        if negb (workflowRunRerunnable (RStatus r)) then Err ErrRunNotRerunnable
        else
          match source r with
          | None => Err ErrWorkflowSource
          | Some (sha, js, group, cancel) =>
              Ok (Enqueue c (MkEnqueue (RunRepoID r) (WorkflowFile r) sha (HeadRef r) actor (RunID r)
                               ("rerun:" +:+ pretty (RunID r) +:+ ":" +:+ entropy) js false group cancel true)
                    created now d)
          end
    end.

(** ** The system

    A runner holds at most one unused API token of a job it claimed: a request uses
    it up and an answer that is not final brings the next one.  A status request
    reads the job row first ([requests]) and is applied in a transaction of its own. *)
Record System := MkSystem { db : DB; tokens : gset Z; requests : gmap Z WorkflowJob }.

Definition with_db (s : System) (d : DB) : System := MkSystem d (tokens s) (requests s).

Inductive sstep : System → System → Prop :=
| s_enqueue s c p created now :
    sstep s (with_db s (Enqueue c p created now (db s)).2)
| s_claim s c runner row labels capacity now job d :
    claimRunnerJob c runner row labels capacity now (db s) = (Claimed job, d) →
    sstep s (MkSystem d ({[job]} ∪ tokens s) (requests s))
| s_read s job row :
    job ∈ tokens s → wjobs (db s) !! job = Some row →
    sstep s (MkSystem (db s) (tokens s ∖ {[job]}) (<[job := row]> (requests s)))
| s_apply s job row body st c terminal now d :
    requests s !! job = Some row → normalizeJobStatusUpdate (Status row) body = Some (st, c, terminal) →
    applyJobStatus row st c now (db s) = Some d →
    sstep s (MkSystem d
               (if terminal : bool then tokens s else {[job]} ∪ tokens s) (delete job (requests s)))
| s_refuse s job : sstep s (MkSystem (db s) (tokens s ∖ {[job]}) (delete job (requests s)))
| s_step_status s step row body st c terminal :
    steps (db s) !! step = Some row → SJobID row ∈ tokens s →
    normalizeStepStatusUpdate (SStatus row) body = Some (st, c, terminal) →
    sstep s (with_db s (UpdateWorkflowStepStatus step st c (db s)))
| s_cancel_run s run now d : CancelRun run now (db s) = Ok d → sstep s (with_db s d)
| s_cancel_job s job now d : CancelJob job now (db s) = Ok d → sstep s (with_db s d)
| s_reconcile s runner now ids : sstep s (with_db s (ReconcileRunnerActiveJobs runner now ids (db s)))
| s_approve s c run actor d : ApproveRun c run actor (db s) = Ok d → sstep s (with_db s d)
| s_reject s run actor now d : RejectRun run actor now (db s) = Ok d → sstep s (with_db s d)
| s_rerun s c source run actor entropy created now r d :
    RerunRun c source run actor entropy created now (db s) = Ok (r, d) → sstep s (with_db s d)
| s_cleanup s cutoff : sstep s (with_db s (DeleteOldWorkflowRunsForCleanup cutoff (db s)))
| s_delete s repo run d : actionsRunDelete repo run (db s) = Some d → sstep s (with_db s d).

End Scheduler.

Definition start : System := MkSystem emptyDB ∅ ∅.
