(* ===== verification/SchedulerFacts.v ===== *)
(** * SchedulerFacts: what holds of runs and jobs in every reachable state *)

From stdpp Require Import sorting.
From S2P Require Import Prelude GoString Expr Concurrency Scheduler.
Local Open Scope Z_scope.

(** ** Updates of many jobs *)

Lemma update_jobs_lookup p f d i :
  wjobs (update_jobs p f d).2 !! i = (fun j => if p j then f j else j) <$> wjobs d !! i.
Proof. cbn. by rewrite lookup_fmap. Qed.

(** A change that only closes a job or asks for it. *)
Definition tame (j j' : WorkflowJob) : Prop :=
  j' = j ∨
  ((∃ c, j' = set_job_status JobCancelled c true j) ∧ open_job j = true) ∨
  (j' = set_job_status (Status j) (Conclusion j) true j ∧ Status j = JobRunning).

Definition tame_jobs (d d' : DB) : Prop :=
  next_job d' = next_job d ∧ runs d' = runs d ∧ next_run d' = next_run d ∧
  ∀ i, (wjobs d !! i = None ∧ wjobs d' !! i = None) ∨
       ∃ j j', wjobs d !! i = Some j ∧ wjobs d' !! i = Some j' ∧ tame j j'.

Lemma tame_refl d : tame_jobs d d.
Proof.
  split_and!; [done..|]. intros i. destruct (wjobs d !! i) as [j|]; [right|by left].
  exists j, j. by split_and!; [..|left].
Qed.

Lemma tame_update p f d : (∀ j, p j = true → tame j (f j)) → tame_jobs d (update_jobs p f d).2.
Proof.
  intros Hf. split_and!; [done..|]. intros i. rewrite update_jobs_lookup.
  destruct (wjobs d !! i) as [j|]; [right|by left]. cbn. eexists j, _. split_and!; [done..|].
  destruct (p j) eqn:E; [by apply Hf|by left].
Qed.

Lemma tame_request_cancel j : cancellable j = true → tame j (request_cancel j).
Proof.
  unfold cancellable, open_job, request_cancel. case_decide as H.
  - intros _. right; left. split; [eauto|]. unfold open_job. by rewrite H.
  - intros Hc. right; right. split; [done|]. by destruct (Status j).
Qed.

Lemma tame_run_cancel run d : tame_jobs d (RequestWorkflowRunCancel run d).2.
Proof. apply tame_update. intros j [_ Hc]%andb_true_iff. by apply tame_request_cancel. Qed.

Lemma tame_job_cancel job d : tame_jobs d (RequestWorkflowJobCancel job d).2.
Proof. apply tame_update. intros j [_ Hc]%andb_true_iff. by apply tame_request_cancel. Qed.

Lemma tame_reconcile runner ids d : tame_jobs d (CancelRunnerJobsMissingFromActiveSet runner ids d).2.
Proof.
  apply tame_update. intros j H. bools. right; left. split; [eauto|]. unfold open_job.
  by match goal with H : Status j = _ |- _ => rewrite H end.
Qed.

Lemma tame_reject run d : tame_jobs d (MarkWorkflowJobsRejected run d).2.
Proof.
  apply tame_update. intros j H. bools. right; left. split; [eauto|]. unfold open_job.
  by match goal with H : Status j = _ |- _ => rewrite H end.
Qed.

(** Changes of steps only. *)
Definition same_rows (d d' : DB) : Prop :=
  runs d' = runs d ∧ wjobs d' = wjobs d ∧ next_run d' = next_run d ∧ next_job d' = next_job d.

Lemma same_rows_refl d : same_rows d d.
Proof. done. Qed.

Lemma cancel_steps_rows changed d : same_rows d (cancel_steps changed d).
Proof.
  induction changed as [|j changed IH]; [done|]. cbn [cancel_steps foldr]. fold (cancel_steps changed d).
  case_decide; [|done]. destruct IH as (? & ? & ? & ?). by split_and!.
Qed.

(** ** The conclusion of a run *)

Lemma derive_loop_terminal jobs w ff c :
  Forall (fun j => JStatus j = JobCompleted ∨ JStatus j = JobSkipped → JConclusion j ≠ None) jobs →
  derive_loop jobs w ff = Some c → Forall (fun j => terminal j = true) jobs.
Proof.
  revert w ff. induction jobs as [|j jobs IH]; intros w ff Hf; [done|].
  apply Forall_cons in Hf as [Hj Hf]. cbn [derive_loop]. destruct (terminal j) eqn:Et; [|done]. cbn [negb].
  intros Hd. constructor; [done|]. case_decide as Hc; [by eapply IH|].
  destruct (JConclusion j) as [x|] eqn:Ec.
  - destruct (failing x); [by eapply IH|]. case_decide; by eapply IH.
  - exfalso. apply Hj; [|done]. unfold terminal in Et. destruct (JStatus j); naive_solver.
Qed.

Lemma elem_of_jobs_of run d j :
  j ∈ jobs_of run d ↔ JRunID j = run ∧ ∃ i, wjobs d !! i = Some j.
Proof.
  unfold jobs_of. rewrite list_elem_of_filter, list_elem_of_fmap. split; intros [Hr H]; (split; [done|]).
  - destruct H as ([i x] & -> & Hi%elem_of_map_to_list). eauto.
  - destruct H as [i Hi]. exists (i, j). split; [done|]. by apply elem_of_map_to_list.
Qed.

Lemma elem_of_ListJobsForRun run d j :
  j ∈ ListJobsForRun run d ↔ JRunID j = run ∧ ∃ i, wjobs d !! i = Some j.
Proof. unfold ListJobsForRun. rewrite merge_sort_Permutation. apply elem_of_jobs_of. Qed.

Definition concluded (j : WorkflowJob) : Prop :=
  Status j = JobCompleted ∨ Status j = JobSkipped → Conclusion j ≠ None.

(** A run with a conclusion has no open job. *)
Lemma derive_run_closed run d c i j :
  (∀ i j, wjobs d !! i = Some j → concluded j) → derive_run run d = Some c →
  wjobs d !! i = Some j → JRunID j = run → open_job j = false.
Proof.
  intros Hcon Hd Hj Hr. unfold derive_run, DeriveWorkflowRunConclusion in Hd.
  assert (j ∈ ListJobsForRun run d) as Hin by (apply elem_of_ListJobsForRun; eauto).
  case_decide as Hne.
  - apply map_eq_nil in Hne. rewrite Hne in Hin. by apply elem_of_nil in Hin.
  - apply derive_loop_terminal in Hd.
    + rewrite Forall_map, Forall_forall in Hd. specialize (Hd j Hin). unfold terminal in Hd. cbn in Hd.
      unfold open_job. by destruct (Status j).
    + rewrite Forall_map, Forall_forall. intros x (_ & k & Hk)%elem_of_ListJobsForRun. by apply (Hcon k).
Qed.

(** ** The invariant *)

(** The job keeps the slot of its run. *)
Definition holds (j : WorkflowJob) : bool := open_job j && negb (CancelRequested j).

Record job_ok (d : DB) (held : gset Z) (i : Z) (j : WorkflowJob) : Prop := {
  jo_id : JobID j = i ∧ i < next_job d;
  jo_run : ∃ r, runs d !! JRunID j = Some r ∧ (RunnerID j ≠ None → dispatchable r = true) ∧
    (run_terminal (RStatus r) = true → holds j = false);
  jo_status : match Status j with
              | JobQueued => RunnerID j = None ∧ CancelRequested j = false
              | JobRunning | JobCompleted => RunnerID j ≠ None
              | _ => True
              end;
  jo_concluded : concluded j;
  jo_held : i ∈ held →
    RunnerID j ≠ None ∧ (Status j = JobRunning ∨ (Status j = JobCancelled ∧ CancelRequested j = true))
}.

(** [held]: the jobs with a token or a request under way. *)
Record inv (held : gset Z) (d : DB) : Prop := {
  inv_runs i r : runs d !! i = Some r → RunID r = i ∧ i < next_run d;
  inv_jobs i j : wjobs d !! i = Some j → job_ok d held i j;
  inv_held i : i ∈ held → i < next_job d
}.

Definition run_same (r r' : WorkflowRun) : Prop :=
  RunID r' = RunID r ∧ RunRepoID r' = RunRepoID r ∧ ConcurrencyGroup r' = ConcurrencyGroup r ∧
  RCreatedAt r' = RCreatedAt r ∧ NeedApproval r' = NeedApproval r ∧
  (dispatchable r = true → dispatchable r' = true) ∧
  (run_terminal (RStatus r) = true → run_terminal (RStatus r') = true) ∧
  WorkflowFile r' = WorkflowFile r ∧ TriggerEventID r' = TriggerEventID r.

Record tame_db (d d' : DB) : Prop := {
  td_next : next_job d' = next_job d ∧ next_run d' = next_run d;
  td_runs i : (runs d !! i = None ∧ runs d' !! i = None) ∨
    ∃ r r', runs d !! i = Some r ∧ runs d' !! i = Some r' ∧ run_same r r';
  td_jobs i : (wjobs d !! i = None ∧ wjobs d' !! i = None) ∨
    ∃ j j', wjobs d !! i = Some j ∧ wjobs d' !! i = Some j' ∧ tame j j'
}.

Lemma run_same_refl r : run_same r r.
Proof. done. Qed.

Lemma run_same_trans r1 r2 r3 : run_same r1 r2 → run_same r2 r3 → run_same r1 r3.
Proof.
  intros (? & ? & ? & ? & ? & ? & ? & ? & ?) (? & ? & ? & ? & ? & ? & ? & ? & ?).
  unfold run_same. repeat split; auto; congruence.
Qed.

Lemma open_cancelled c b j : open_job (set_job_status JobCancelled c b j) = false.
Proof. done. Qed.

Lemma tame_trans j1 j2 j3 : tame j1 j2 → tame j2 j3 → tame j1 j3.
Proof.
  intros [->|[[[c ->] Ho]|[-> Hr]]]; [done|intros [->|[[[c' ->] Ho']|[-> Hr']]]; try done..].
  - right; left. eauto.
  - right; right. done.
  - right; left. split; [by exists c'|]. unfold open_job. by rewrite Hr.
  - right; right. done.
Qed.

Lemma tame_db_refl d : tame_db d d.
Proof.
  split; [done|..]; intros i.
  - destruct (runs d !! i) as [r|]; [right|by left]. exists r, r. by split_and!.
  - destruct (wjobs d !! i) as [j|]; [right|by left]. exists j, j. split_and!; [done..|by left].
Qed.

Lemma tame_db_trans d1 d2 d3 : tame_db d1 d2 → tame_db d2 d3 → tame_db d1 d3.
Proof.
  intros [[N1 M1] R1 J1] [[N2 M2] R2 J2]. split; [split; congruence|..]; intros i.
  - destruct (R1 i) as [[H1 H2]|(r & r' & H1 & H2 & H3)]; destruct (R2 i) as [[H4 H5]|(s & s' & H4 & H5 & H6)];
      rewrite H4 in H2; try done; [by left|]. injection H2 as ->. right. exists r, s'.
    split_and!; [done..|]. by eapply run_same_trans.
  - destruct (J1 i) as [[H1 H2]|(r & r' & H1 & H2 & H3)]; destruct (J2 i) as [[H4 H5]|(s & s' & H4 & H5 & H6)];
      rewrite H4 in H2; try done; [by left|]. injection H2 as ->. right. exists r, s'.
    split_and!; [done..|]. by eapply tame_trans.
Qed.

(** What keeps the invariant and changes runs and jobs tamely only. *)
Definition calm (held : gset Z) (d d' : DB) : Prop := inv held d' ∧ tame_db d d'.

Section Calm.
  Context (held : gset Z).

Lemma calm_refl d : inv held d → calm held d d.
Proof. intros Hi. split; [done|apply tame_db_refl]. Qed.

Lemma calm_trans d1 d2 d3 : calm held d1 d2 → (inv held d2 → calm held d2 d3) → calm held d1 d3.
Proof. intros [Hi H12] H23. destruct (H23 Hi) as [Hi3 H]. split; [done|]. by eapply tame_db_trans. Qed.

Lemma calm_rows d d' : same_rows d d' → inv held d → calm held d d'.
Proof.
  intros (Hr & Hj & Hnr & Hnj) [Hi1 Hi2 Hi3]. split.
  - split.
    + rewrite Hr, Hnr. done.
    + intros i j. rewrite Hj. intros H. destruct (Hi2 i j H). split; rewrite ?Hr, ?Hnj; auto.
    + rewrite Hnj. done.
  - destruct (tame_db_refl d) as [? H1 H2]. split; [by split|..]; [by rewrite Hr|by rewrite Hj].
Qed.

Lemma tame_job_ok d held' i j j' : tame j j' → job_ok d held' i j → job_ok d held' i j'.
Proof.
  intros [->|[[[c ->] Ho]|[-> Hs]]] [Hid (r & Hr & Hd & Ht) Hst Hc Hh]; [by split; eauto|..].
  - split; cbn; [done|exists r; split_and!; done|done|intros [?|?]; done|].
    intros Hi. destruct (Hh Hi) as [Hrun _]. split; [done|]. by right.
  - unfold concluded in Hc. rewrite Hs in Hst, Hc. split; cbn; rewrite ?Hs; [done| |done|done|].
    + by exists r.
    + intros Hi. destruct (Hh Hi) as [Hrun _]. split; [done|]. by left.
Qed.

Lemma calm_tame d d' : tame_jobs d d' → inv held d → calm held d d'.
Proof.
  intros (Hnj & Hr & Hnr & Hj) [Hi1 Hi2 Hi3]. split.
  - split.
    + rewrite Hr, Hnr. done.
    + intros i j' Hj'. destruct (Hj i) as [[_ Hn]|(j & x & H1 & H2 & H3)]; [congruence|].
      assert (x = j') as -> by congruence.
      destruct (tame_job_ok d held i j j' H3 (Hi2 i j H1)). split; rewrite ?Hr, ?Hnj; auto.
    + rewrite Hnj. done.
  - split; [done|..|done]. rewrite Hr. apply (td_runs _ _ (tame_db_refl d)).
Qed.

Lemma calm_run d id f :
  (∀ r, runs d !! id = Some r → run_same r (f r) ∧
     (run_terminal (RStatus (f r)) = true → run_terminal (RStatus r) = true ∨
        ∀ i j, wjobs d !! i = Some j → JRunID j = id → holds j = false)) →
  inv held d → calm held d (on_runs (alter f id) d).
Proof.
  intros Hf Hinv. destruct Hinv as [Hi1 Hi2 Hi3]. split.
  - split; cbn.
    + intros i r [(<- & r0 & Hr & ->)|[_ Hr]]%lookup_alter_Some; [|by apply Hi1].
      destruct (Hf r0 Hr) as [(-> & _) _]. by apply Hi1.
    + intros i j Hj. destruct (Hi2 i j Hj) as [Hid (r & Hr & Hd & Ht) Hst Hc Hh]. split; cbn; try done.
      destruct (decide (id = JRunID j)) as [->|Hne].
      * destruct (Hf r Hr) as [(_ & _ & _ & _ & _ & Hdisp & _) Hterm]. exists (f r).
        rewrite lookup_alter_eq, Hr. split_and!; [done|auto|].
        intros Hfr. destruct (Hterm Hfr) as [Hr'|Hall]; [by apply Ht|by apply (Hall i)].
      * exists r. rewrite lookup_alter_ne by done. done.
    + done.
  - split; [done|..]; intros i; cbn.
    + destruct (decide (id = i)) as [->|Hne].
      * rewrite lookup_alter_eq. destruct (runs d !! i) as [r|] eqn:E; [right|by left].
        exists r, (f r). split_and!; [done..|]. by apply Hf.
      * rewrite lookup_alter_ne by done. apply (td_runs _ _ (tame_db_refl d)).
    + apply (td_jobs _ _ (tame_db_refl d)).
Qed.

Lemma inv_concluded d i j : inv held d → wjobs d !! i = Some j → concluded j.
Proof. intros Hi Hj. by destruct (inv_jobs _ _ Hi i j Hj). Qed.

Lemma calm_complete d run c now :
  inv held d → (∀ i j, wjobs d !! i = Some j → JRunID j = run → holds j = false) →
  calm held d (CompleteWorkflowRun run c now d).
Proof. intros Hi Hall. apply calm_run; [|done]. intros r Hr. split; [done|]. by right. Qed.

Lemma calm_start d run ok :
  inv held d → calm held d (on_runs (alter (start_if ok) run) d).
Proof.
  intros Hi. apply calm_run; [|done]. intros r Hr. unfold start_if.
  destruct (bool_decide (RStatus r = RunQueued)) eqn:E; [|by split; [|left]]. bools.
  destruct (ok r); [|by split; [|left]]. cbn [andb]. split; [|done].
  unfold run_same. cbn. split_and!; try done. by rewrite E.
Qed.

Lemma derive_run_free d run c :
  inv held d → derive_run run d = Some c →
  ∀ i j, wjobs d !! i = Some j → JRunID j = run → holds j = false.
Proof.
  intros Hi Hd i j Hj Hr. unfold holds. rewrite (derive_run_closed run d c i j); [done| |done..].
  intros. by eapply inv_concluded.
Qed.

Lemma calm_rollup d run now : inv held d → calm held d (RollupAfterCancel run now d).2.
Proof.
  intros Hi. unfold RollupAfterCancel. destruct (derive_run run d) as [c|] eqn:E; cbn [snd].
  - apply calm_complete; [done|]. by eapply derive_run_free.
  - by apply calm_start.
Qed.

Lemma calm_after_cancel d d' run now changed :
  tame_jobs d d' → inv held d → calm held d (after_cancel run now changed d').
Proof.
  intros Ht Hi. eapply calm_trans; [by apply calm_tame|]. clear Ht Hi. intros Hi.
  unfold after_cancel. eapply calm_trans; [by apply calm_rows; [apply cancel_steps_rows|]|]. intros Hi'.
  destruct changed; [by apply calm_refl|by apply calm_rollup].
Qed.

Lemma calm_CancelRun d d' run now : CancelRun run now d = Ok d' → inv held d → calm held d d'.
Proof.
  unfold CancelRun. destruct (runs d !! run); [|done].
  pose proof (tame_run_cancel run d) as Ht. destruct (RequestWorkflowRunCancel run d) as [changed d1].
  intros [= <-] Hi. by apply calm_after_cancel.
Qed.

Lemma calm_CancelJob d d' job now : CancelJob job now d = Ok d' → inv held d → calm held d d'.
Proof.
  unfold CancelJob. pose proof (tame_job_cancel job d) as Ht.
  destruct (RequestWorkflowJobCancel job d) as [[|j changed] d1].
  - destruct (wjobs d !! job); [|done]. intros [= <-]. apply calm_refl.
  - intros E Hi. injection E as <-. exact (calm_after_cancel d d1 (JRunID j) now (j :: changed) Ht Hi).
Qed.

Lemma calm_reconcile d runner now ids :
  inv held d → calm held d (ReconcileRunnerActiveJobs runner now ids d).
Proof.
  unfold ReconcileRunnerActiveJobs. pose proof (tame_reconcile runner ids d) as Ht.
  destruct (CancelRunnerJobsMissingFromActiveSet runner ids d) as [changed d1]. intros Hi.
  eapply calm_trans; [by apply calm_tame|]. clear Ht Hi. intros Hi.
  induction (remove_dups _) as [|run l IH]; cbn [foldr].
  - apply calm_rows; [apply cancel_steps_rows|done].
  - eapply calm_trans; [exact IH|]. apply calm_rollup.
Qed.

Lemma calm_enforce_one d run now : inv held d → calm held d (enforce_one now d run).
Proof.
  unfold enforce_one. pose proof (tame_run_cancel run d) as Ht.
  destruct (RequestWorkflowRunCancel run d) as [changed d1]. by apply calm_after_cancel.
Qed.

Lemma calm_Enforce r cancel now d : inv held d → calm held d (Enforce r cancel now d).
Proof.
  intros Hi. unfold Enforce. case_decide; [by apply calm_refl|]. destruct cancel; [|by apply calm_refl].
  generalize (blockers r d). intros l. revert d Hi. induction l as [|run l IH]; intros d Hi; [by apply calm_refl|].
  eapply calm_trans; [by apply calm_enforce_one|]. apply IH.
Qed.
End Calm.

(** ** Every step *)

(** The job may be claimed: nothing it needs is missing, no older run of the group is in the way. *)
Definition clear (d : DB) (j : WorkflowJob) : Prop :=
  ∃ r, runs d !! JRunID j = Some r ∧ run_terminal (RStatus r) = false ∧ dispatchable r = true ∧
    exists_job (unmet j) d = false ∧ exists_run (blocker r d) d = false.

Definition busy (j : WorkflowJob) : bool := bool_decide (Status j = JobRunning) && negb (CancelRequested j).

(** How the row of a job changes in one step. *)
Record evo (d : DB) (j j' : WorkflowJob) : Prop := {
  evo_run : JRunID j' = JRunID j ∧ JobKey j' = JobKey j ∧ NeedsJobs j' = NeedsJobs j;
  evo_holds : holds j' = true → holds j = true;
  evo_completed : Status j = JobCompleted ∨ Status j = JobSkipped → j' = j;
  evo_cancelled : RunnerID j = None → Status j = JobCancelled → RunnerID j' = None ∧ Status j' = JobCancelled;
  evo_queued : Status j = JobQueued →
    ((Status j' = JobQueued ∨ Status j' = JobCancelled) ∧ RunnerID j' = RunnerID j) ∨ clear d j;
  evo_busy : busy j' = true → busy j = true ∨ clear d j;
  evo_runner : RunnerID j' = RunnerID j ∨ clear d j
}.

Record evolves (d d' : DB) : Prop := {
  ev_next : next_job d ≤ next_job d' ∧ next_run d ≤ next_run d';
  ev_runs i r' : runs d' !! i = Some r' →
    (∃ r, runs d !! i = Some r ∧ run_same r r') ∨ (runs d !! i = None ∧ next_run d ≤ i ∧ RunID r' = i);
  ev_new i j' : next_job d ≤ i → wjobs d' !! i = Some j' →
    next_run d ≤ JRunID j' ∧ busy j' = false ∧ RunnerID j' = None;
  ev_jobs i : i < next_job d →
    match wjobs d !! i with
    | None => wjobs d' !! i = None
    | Some j => (∃ j', wjobs d' !! i = Some j' ∧ evo d j j') ∨
                (wjobs d' !! i = None ∧ runs d' !! JRunID j = None)
    end
}.

Lemma evo_refl d j : evo d j j.
Proof. split; auto. Qed.

Lemma tame_busy j j' : tame j j' → busy j' = true → busy j = true.
Proof.
  intros [->|[[[c ->] Ho]|[-> Hs]]]; [done|done|]. unfold busy. cbn. by rewrite andb_false_r.
Qed.

Lemma tame_holds j j' : tame j j' → holds j' = true → holds j = true.
Proof.
  intros [->|[[[c ->] Ho]|[-> Hs]]]; [done|done|]. unfold holds. cbn. by rewrite andb_false_r.
Qed.

Lemma tame_closed j j' : tame j j' → open_job j = false → j' = j.
Proof.
  intros [->|[[[c ->] Ho]|[-> Hs]]]; [done|congruence|]. unfold open_job. by rewrite Hs.
Qed.

Lemma tame_queued j j' : tame j j' → Status j = JobQueued →
  (Status j' = JobQueued ∨ Status j' = JobCancelled) ∧ RunnerID j' = RunnerID j.
Proof. intros [->|[[[c ->] Ho]|[-> Hs]]]; cbn; intros E; [auto|auto|congruence]. Qed.

Lemma tame_keys j j' : tame j j' → JRunID j' = JRunID j ∧ JobKey j' = JobKey j ∧ NeedsJobs j' = NeedsJobs j.
Proof. by intros [->|[[[c ->] Ho]|[-> Hs]]]. Qed.

Lemma tame_runner j j' : tame j j' → RunnerID j' = RunnerID j.
Proof. by intros [->|[[[c ->] Ho]|[-> Hs]]]. Qed.

Lemma evo_tame d j1 j2 j3 : evo d j1 j2 → tame j2 j3 → evo d j1 j3.
Proof.
  intros [(Hr & Hk & Hn) Hh Hc Hx Hq Hb Hw] Ht. destruct (tame_keys _ _ Ht) as (K1 & K2 & K3). split.
  - split_and!; congruence.
  - intros H. by apply Hh, (tame_holds _ _ Ht).
  - intros H. rewrite (Hc H) in Ht. apply tame_closed; [done|]. unfold open_job. by destruct H as [->| ->].
  - intros H1 H2. destruct (Hx H1 H2) as [H3 H4]. rewrite (tame_closed _ _ Ht); [done|]. unfold open_job. by rewrite H4.
  - intros H. destruct (Hq H) as [[[H1|H1] H2]|H1]; [left|left|by right].
    + destruct (tame_queued _ _ Ht H1) as [? ?]. split; [done|congruence].
    + rewrite (tame_closed _ _ Ht); [auto|]. unfold open_job. by rewrite H1.
  - intros H. by apply Hb, (tame_busy _ _ Ht).
  - by rewrite (tame_runner _ _ Ht).
Qed.

Lemma evolves_tame d d1 d2 : evolves d d1 → tame_db d1 d2 → evolves d d2.
Proof.
  intros [H1 H2 H3 H4] [[Hn Hnr] Hr Hj]. split.
  - lia.
  - intros i r2 E2. destruct (Hr i) as [[_ E]|(r1 & r2' & E1 & E2' & Hs)]; [congruence|].
    simplify_eq. destruct (H2 i r1 E1) as [(r & E & Hs')|(E & ? & ?)].
    + left. exists r. split; [done|]. by eapply run_same_trans.
    + right. destruct Hs as (? & _). split_and!; [done|done|congruence].
  - intros i j2 Hi E2. destruct (Hj i) as [[_ E]|(j1 & j2' & E1 & E2' & Ht)]; [congruence|]. simplify_eq.
    destruct (H3 i j1 Hi E1) as (Hrun & Hb & Hn0). destruct (tame_keys _ _ Ht) as (-> & _).
    rewrite (tame_runner _ _ Ht). split_and!; [done| |done].
    destruct (busy j2) eqn:E; [|done]. by rewrite (tame_busy _ _ Ht) in Hb.
  - intros i Hi. specialize (H4 i Hi). destruct (wjobs d !! i) as [j|].
    + destruct H4 as [(j1 & E1 & He)|[E1 Hd]]; destruct (Hj i) as [[E1' E2]|(x & j2 & E1' & E2 & Ht)];
        simplify_eq; try congruence; [left; exists j2; split; [done|]; by eapply evo_tame|right]. split; [done|].
      by destruct (Hr (JRunID j)) as [[_ ?]|(? & ? & ? & _)]; [|congruence].
    + destruct (Hj i) as [[? ?]|(? & ? & ? & ? & ?)]; congruence.
Qed.

Section Steps.
  Context (held : gset Z).

Lemma evolves_refl d : inv held d → evolves d d.
Proof.
  intros Hi. split; [done|..].
  - intros i r Hr. left. by exists r.
  - intros i j Hle Hj. destruct (inv_jobs _ _ Hi i j Hj) as [[_ Hlt] _ _ _ _]. lia.
  - intros i _. destruct (wjobs d !! i) as [j|]; [left|done]. exists j. split; [done|apply evo_refl].
Qed.

Lemma evolves_calm d d' : inv held d → calm held d d' → inv held d' ∧ evolves d d'.
Proof. intros Hi [Hi' Ht]. split; [done|]. eapply evolves_tame; [by apply evolves_refl|done]. Qed.

Lemma inv_weaken d held' : inv held d → held' ⊆ held → inv held' d.
Proof.
  intros [H1 H2 H3] Hs. split; [done|..|by auto]. intros i j Hj. destruct (H2 i j Hj). split; auto.
Qed.
End Steps.

(** ** The steps that are not calm *)

Lemma first_queued_elem l j : first_queued l = Some j → j ∈ l.
Proof.
  revert j. induction l as [|x l IH]; intros j; [done|]. cbn [first_queued foldr]. fold (first_queued l).
  destruct (first_queued l) as [b|]; [|intros [= ->]; apply elem_of_cons; by left].
  destruct (queued_before b x); intros [= ->]; apply elem_of_cons; [right; by apply IH|by left].
Qed.

Lemma elem_of_values {V} (m : gmap Z V) (x : V) : x ∈ (map_to_list m).*2 ↔ ∃ i, m !! i = Some x.
Proof.
  rewrite list_elem_of_fmap. split.
  - intros ([i y] & -> & Hi%elem_of_map_to_list). eauto.
  - intros [i Hi]. exists (i, x). split; [done|]. by apply elem_of_map_to_list.
Qed.

Lemma exists_job_false p d i j : exists_job p d = false → wjobs d !! i = Some j → p j = false.
Proof.
  unfold exists_job. intros Hf Hj. destruct (p j) eqn:E; [|done]. rewrite <-Hf. symmetry.
  apply existsb_exists. exists j. split; [|done]. apply list_elem_of_In, elem_of_values. eauto.
Qed.

Lemma exists_run_false p d i r : exists_run p d = false → runs d !! i = Some r → p r = false.
Proof.
  unfold exists_run. intros Hf Hj. destruct (p r) eqn:E; [|done]. rewrite <-Hf. symmetry.
  apply existsb_exists. exists r. split; [|done]. apply list_elem_of_In, elem_of_values. eauto.
Qed.

Section Uncalm.
  Context (citext_eq pattern_matches : string → string → bool).

Lemma claimable_clear c labels now d j :
  claimable pattern_matches c labels now d j = true →
  Status j = JobQueued ∧ CancelRequested j = false ∧ clear d j.
Proof.
  unfold claimable. destruct (runs d !! JRunID j) as [r|] eqn:Er; [|done].
  rewrite !andb_true_iff, !negb_true_iff.
  intros (((((((((((Hs & Ha) & Hd) & Hc) & _) & _) & _) & _) & _) & Hu) & Hb) & _).
  split; [by apply bool_decide_eq_true in Hs|]. split; [done|]. exists r.
  unfold active in Ha. apply negb_true_iff in Ha. done.
Qed.

Lemma Claim_spec held c runner labels now d j' d' :
  inv held d → ClaimQueuedWorkflowJob pattern_matches c runner labels now d = Some (j', d') →
  ∃ j, wjobs d !! JobID j = Some j ∧ claimable pattern_matches c labels now d j = true ∧
    j' = set_runner runner j ∧ d' = on_jobs <[JobID j := j']> d.
Proof.
  intros Hi. unfold ClaimQueuedWorkflowJob. destruct (first_queued _) as [j|] eqn:E; [|done].
  intros [= <- <-]. exists j. apply first_queued_elem, list_elem_of_filter in E as [Hc [i Hj]%elem_of_values].
  destruct (inv_jobs _ _ Hi i j Hj) as [[-> _] _ _ _ _]. done.
Qed.

Lemma inv_claim held d j runner :
  inv held d → wjobs d !! JobID j = Some j → Status j = JobQueued → CancelRequested j = false →
  clear d j →
  let d' := on_jobs <[JobID j := set_runner runner j]> d in
  inv ({[JobID j]} ∪ held) d' ∧ evolves d d'.
Proof.
  intros Hi Hj Hs Hc Hcl. pose proof (inv_jobs _ _ Hi _ _ Hj) as [[_ Hlt] (r & Hr & _) Hst _ Hh].
  pose proof Hcl as (r' & Hr' & Ht & Hd & _). simplify_eq.
  destruct (evolves_refl held d Hi) as [En Er Ew Ej]. destruct Hi as [H1 H2 H3]. split; split; cbn; try done.
  - intros i x [[<- <-]|[Hne Hx]]%lookup_insert_Some.
    + split; cbn; [done|exists r; split_and!; [done..|by rewrite Ht]|done|intros [?|?]; done|auto].
    + destruct (H2 i x Hx) as [Ha Hb Hc' Hd' He]. split; [done..|].
      intros Hin. apply He. set_solver.
  - intros i [->%elem_of_singleton|Hin]%elem_of_union; [done|by apply H3].
  - intros i x Hle [[<- <-]|[Hne Hx]]%lookup_insert_Some; [lia|by apply (Ew i)].
  - intros i Hi'. destruct (decide (JobID j = i)) as [<-|Hne].
    + rewrite Hj, lookup_insert_eq. left. eexists. split; [done|]. split; cbn; try done.
      * intros _. unfold holds, open_job. by rewrite Hs, Hc.
      * intros [?|?]; congruence.
      * congruence.
      * intros _. by right.
      * intros _. by right.
      * by right.
    + rewrite lookup_insert_ne by done. by apply Ej.
Qed.

Lemma claimRunnerJob_inv held c runner row labels capacity now d job d' :
  inv held d → claimRunnerJob pattern_matches c runner row labels capacity now d = (Claimed job, d') →
  inv ({[job]} ∪ held) d' ∧ evolves d d' ∧ job ∉ held.
Proof.
  intros Hi. unfold claimRunnerJob. destruct (Revoked row); [done|]. destruct (Draining row); [done|].
  case_bool_decide; [done|].
  destruct (ClaimQueuedWorkflowJob _ _ _ _ _ _) as [[j' d1]|] eqn:E; [|done]. intros [= <- <-].
  destruct (Claim_spec held _ _ _ _ _ _ _ Hi E) as (j & Hj & (Hs & Hc & Hcl)%claimable_clear & -> & ->).
  destruct (inv_claim held d j runner Hi Hj Hs Hc Hcl) as [Hi' He]. cbn [JobID set_runner].
  destruct (calm_start ({[JobID j]} ∪ held) _ (JRunID j) dispatchable Hi') as [Hi2 Ht].
  split; [exact Hi2|]. split; [by eapply evolves_tame|]. cbn. intros Hin.
  destruct (inv_jobs _ _ Hi _ _ Hj) as [_ _ Hst _ Hh]. rewrite Hs in Hst. by destruct (Hh Hin), Hst.
Qed.
End Uncalm.

(** What a status update writes. *)
Definition proper_update (s : WorkflowJobStatus) (c : option CheckConclusion) (terminal : bool) : Prop :=
  (s = JobRunning ∧ c = None ∧ terminal = false) ∨
  ((s = JobCompleted ∨ s = JobCancelled) ∧ c ≠ None ∧ terminal = true).

Lemma normalizeJobStatusUpdate_proper from body s c terminal :
  normalizeJobStatusUpdate from body = Some (s, c, terminal) → proper_update s c terminal.
Proof.
  unfold normalizeJobStatusUpdate, normalizeStatusUpdate, proper_update.
  destruct (status_text _) as [st|]; [|done]. cbn [mbind option_bind].
  destruct (_ || _) eqn:Ev; [done|]. apply orb_false_iff in Ev as [Ev%negb_false_iff _].
  case_bool_decide as Ht.
  - destruct (runner_conclusion _) as [x|]; [|done]. intros [= <- <- <-]. right.
    split; [|done]. naive_solver.
  - case_decide; [|done]. intros [= <- <- <-]. left. split; [|done].
    destruct st; try done; exfalso; apply Ht; auto.
Qed.

Lemma inv_update held d j s c terminal :
  inv held d → JobID j ∈ held → wjobs d !! JobID j = Some j → proper_update s c terminal →
  let d' := UpdateWorkflowJobStatus (JobID j) s c d in
  inv (if terminal then held ∖ {[JobID j]} else held) d' ∧ evolves d d'.
Proof.
  intros Hi Hin Hj Hp. pose proof (inv_jobs _ _ Hi _ _ Hj) as [[_ Hlt] (r & Hr & Hdisp & Ht) _ _ Hh].
  destruct (Hh Hin) as [Hrun Hst]. clear Hh.
  destruct (evolves_refl held d Hi) as [En Er Ew Ej]. destruct Hi as [H1 H2 H3].
  set (j' := set_job_status s c (CancelRequested j) j).
  assert (Hopen : ∀ b, open_job j' && b = true → s = JobRunning).
  { intros b [Ho _]%andb_true_iff. unfold open_job in Ho. cbn in Ho. destruct Hp as [(-> & _)|[[->| ->] _]]; done. }
  assert (Hholds : holds j' = true → Status j = JobRunning ∧ CancelRequested j = false).
  { intros [_ Hcx%negb_true_iff]%andb_true_iff. cbn in Hcx. split; [|done]. naive_solver congruence. }
  assert (Hbusy : busy j' = true → busy j = true).
  { intros [_ Hcx%negb_true_iff]%andb_true_iff. cbn in Hcx. unfold busy. rewrite Hcx.
    destruct Hst as [->|[_ ?]]; [done|congruence]. }
  split; split; cbn; try done.
  - intros i x [(<- & j0 & Hj0 & ->)|[Hne Hx]]%lookup_alter_Some.
    + simplify_eq. change (set_job_status s c (CancelRequested j) j) with j'.
      split; [done|exists r; split_and!; [done..|]| | |].
      * intros Hrt. destruct (holds j') eqn:E; [|done]. destruct (Hholds eq_refl) as [Hs Hcx].
        specialize (Ht Hrt). unfold holds, open_job in Ht. by rewrite Hs, Hcx in Ht.
      * cbn. destruct Hp as [(-> & _)|[[->| ->] _]]; done.
      * unfold concluded. cbn. destruct Hp as [(-> & _)|[[->| ->] [? _]]]; naive_solver.
      * destruct Hp as [(-> & _ & ->)|(_ & _ & ->)]; [by auto|set_solver].
    + destruct (H2 i x Hx) as [Ha Hb Hc' Hd' He]. split; [done..|].
      intros Hin'. apply He. destruct terminal; set_solver.
  - intros i Hin'. apply H3. destruct terminal; set_solver.
  - intros i x Hle [(<- & _)|[Hne Hx]]%lookup_alter_Some; [lia|by apply (Ew i)].
  - intros i Hi'. destruct (decide (JobID j = i)) as [<-|Hne].
    + rewrite Hj, lookup_alter_eq, Hj. left. exists j'. split; [done|]. split; [done|..].
      * intros [Hs Hcx]%Hholds. unfold holds, open_job. by rewrite Hs, Hcx.
      * intros [E|E]; destruct Hst as [E'|[E' _]]; congruence.
      * done.
      * intros E. destruct Hst as [E'|[E' _]]; congruence.
      * auto.
      * by left.
    + rewrite lookup_alter_ne by done. by apply Ej.
Qed.

Lemma applyJobStatus_inv held d row job s c terminal now d' :
  inv held d → job ∈ held → JobID row = job → proper_update s c terminal →
  applyJobStatus row s c now d = Some d' →
  inv (if terminal then held ∖ {[job]} else held) d' ∧ evolves d d'.
Proof.
  intros Hi Hin <- Hp. unfold applyJobStatus. destruct (wjobs d !! JobID row) as [j|] eqn:Ej; [|done].
  destruct (inv_jobs _ _ Hi _ _ Ej) as [[Eid _] _ _ _ _]. rewrite <-Eid in Ej, Hin |- *. intros [= <-].
  destruct (inv_update held d j s c terminal Hi Hin Ej Hp) as [Hi1 He1].
  set (d1 := UpdateWorkflowJobStatus (JobID j) s c d) in *.
  set (d2 := if decide (s = JobCancelled) then _ else d1).
  set (h := if terminal then _ else held) in *.
  assert (Hc2 : calm h d1 d2).
  { unfold d2. case_decide; [|by apply calm_refl]. by apply calm_rows. }
  assert (He2 : evolves d d2) by (eapply evolves_tame; [done|apply Hc2]). destruct Hc2 as [Hi2 _].
  destruct (derive_run (JRunID j) d2) as [x|] eqn:Ed.
  - destruct (calm_complete h d2 (JRunID j) x now Hi2) as [Hi3 Ht]; [by eapply derive_run_free|].
    split; [done|by eapply evolves_tame].
  - destruct (calm_start h d2 (JRunID j) dispatchable Hi2) as [Hi3 Ht].
    split; [done|by eapply evolves_tame].
Qed.

Lemma delete_runs_inv held p d :
  inv held d → inv held (delete_runs p d) ∧ evolves d (delete_runs p d).
Proof.
  intros Hi. destruct (evolves_refl held d Hi) as [En Er Ew Ej]. pose proof Hi as [H1 H2 H3].
  split; split; cbn; try done.
  - intros i r [Hr _]%map_lookup_filter_Some. by apply H1.
  - intros i j [Hj Hg]%map_lookup_filter_Some. cbn in Hg.
    destruct (H2 i j Hj) as [Ha (r & Hr & Hb) Hc Hd He]. rewrite Hr in Hg.
    split; [done| |done..]. exists r. split; [|done]. cbn. by apply map_lookup_filter_Some.
  - intros i r [Hr _]%map_lookup_filter_Some. by apply Er.
  - intros i j Hle [Hj _]%map_lookup_filter_Some. by apply (Ew i).
  - intros i Hlt. destruct (wjobs d !! i) as [j|] eqn:Hj.
    + destruct (inv_jobs _ _ Hi i j Hj) as [_ (r & Hr & _) _ _ _]. destruct (p r) eqn:E.
      * right. split; apply map_lookup_filter_None; right; intros x Hx; simplify_eq; cbn; [by rewrite Hr, E|congruence].
      * left. exists j. split; [|apply evo_refl]. apply map_lookup_filter_Some. split; [done|].
        cbn. by rewrite Hr.
    + apply map_lookup_filter_None. by left.
Qed.

Lemma calm_approvals held f d : inv held d → calm held d (on_approvals f d).
Proof. by apply calm_rows. Qed.

Lemma pending_spec r : pending r = true → NeedApproval r = true ∧ ApprovedBy r = None ∧ RStatus r = RunQueued.
Proof. unfold pending. intros H. bools. done. Qed.

Lemma calm_ApproveRun held citext_eq c run actor d d' :
  ApproveRun citext_eq c run actor d = Ok d' → inv held d → calm held d d'.
Proof.
  unfold ApproveRun. case_decide; [done|]. destruct (runs d !! run) as [r|] eqn:Hr; [|done].
  destruct (_ && environmentSelfReviewBlocked _ _ _ _); [done|].
  destruct (pending r && open_approval run d) eqn:E; [|done]. intros [= <-] Hi.
  apply andb_true_iff in E as [(Hn & Ha & Hs)%pending_spec _].
  eapply calm_trans; [|apply calm_approvals]. apply calm_run; [|done]. intros r' Hr'. simplify_eq.
  split; [|by left]. unfold run_same. cbn. split_and!; try done.
  intros _. unfold dispatchable. cbn. by rewrite orb_true_r.
Qed.

(** No job of a run that waits for approval has ever had a runner. *)
Lemma pending_no_runner held d i j r :
  inv held d → wjobs d !! i = Some j → runs d !! JRunID j = Some r → pending r = true → RunnerID j = None.
Proof.
  intros Hi Hj Hr (Hn & Ha & _)%pending_spec. destruct (inv_jobs _ _ Hi i j Hj) as [_ (r' & Hr' & Hd & _) _ _ _].
  simplify_eq. destruct (RunnerID j) as [x|]; [|done]. exfalso.
  assert (dispatchable r = true) as E by by apply Hd. unfold dispatchable in E. by rewrite Hn, Ha in E.
Qed.

Lemma calm_RejectRun held run actor now d d' :
  RejectRun run actor now d = Ok d' → inv held d → calm held d d'.
Proof.
  unfold RejectRun. case_decide; [done|]. destruct (negb _); [done|].
  set (d0 := on_approvals _ d). pose proof (tame_reject run d0) as Ht.
  pose proof (update_jobs_lookup (fun j => in_run run j && bool_decide (Status j = JobQueued))
    (set_job_status JobCancelled (Some ActionRequired) true) d0) as Hl.
  change (update_jobs _ _ d0) with (MarkWorkflowJobsRejected run d0) in Hl.
  destruct (MarkWorkflowJobsRejected run d0) as [changed d1]. cbn [snd] in Hl.
  destruct (runs d1 !! run) as [r|] eqn:Hr; [|done]. destruct (pending r) eqn:Hp; [|done].
  intros [= <-] Hi.
  assert (Hc : calm held d d1).
  { eapply calm_trans; [by apply calm_approvals|]. fold d0. by apply calm_tame. }
  eapply calm_trans; [exact Hc|]. intros Hi1.
  assert (on_runs <[run := set_run_status RunCompleted (Some ActionRequired) (Some (default now (RCompletedAt r))) r]> d1 =
    on_runs (alter (set_run_status RunCompleted (Some ActionRequired) (Some (default now (RCompletedAt r)))) run) d1) as ->.
  { unfold on_runs. f_equal. apply map_eq. intros i. destruct (decide (run = i)) as [<-|Hne].
    - by rewrite lookup_insert_eq, lookup_alter_eq, Hr.
    - by rewrite lookup_insert_ne, lookup_alter_ne. }
  apply calm_run; [|done]. intros r' Hr'. simplify_eq. split; [done|]. intros _. right.
  intros i j Hj Hrun. rewrite <-Hrun in Hr. pose proof (pending_no_runner held d1 i j r Hi1 Hj Hr Hp) as Hnone.
  pose proof (Hl i) as Hli. rewrite Hj in Hli. destruct (wjobs d0 !! i) as [j0|]; [|done].
  cbn in Hli. destruct (_ && _) eqn:E; injection Hli as ->; [done|].
  apply andb_false_iff in E as [E|E]; apply bool_decide_eq_false in E; [done|].
  destruct (inv_jobs _ _ Hi1 i j0 Hj) as [_ _ Hst _ _]. unfold holds, open_job.
  destruct (Status j0); try done.
Qed.

(** ** Enqueue *)

(** Rows of [run] were added, with status [s]. *)
Record added (run : Z) (s : WorkflowJobStatus) (c : option CheckConclusion) (d d' : DB) : Prop := {
  ad_runs : runs d' = runs d ∧ next_run d' = next_run d;
  ad_next : next_job d ≤ next_job d';
  ad_jobs i : wjobs d' !! i = wjobs d !! i ∨
    (next_job d ≤ i < next_job d' ∧ ∃ j, wjobs d' !! i = Some j ∧ JobID j = i ∧ JRunID j = run ∧
       Status j = s ∧ Conclusion j = c ∧ RunnerID j = None ∧ CancelRequested j = false)
}.

Lemma added_refl run s c d : added run s c d d.
Proof. split; [done|lia|by left]. Qed.

Lemma added_trans run s c d1 d2 d3 : added run s c d1 d2 → added run s c d2 d3 → added run s c d1 d3.
Proof.
  intros [[R1 S1] N1 J1] [[R2 S2] N2 J2]. split; [split; congruence|lia|]. intros i.
  destruct (J2 i) as [E2|(Hi & j & H)].
  - rewrite E2. destruct (J1 i) as [E1|(Hi & H)]; [by left|right]. split; [lia|done].
  - right. split; [lia|]. by exists j.
Qed.

Lemma insert_steps_rows n id s c d : same_rows d (Nat.iter n (insert_step id s c) d).
Proof. induction n as [|n IH]; [done|]. exact IH. Qed.

Lemma added_insert_job run created s c index env j d :
  added run s c d (insert_job run created s c index env j d).
Proof.
  unfold insert_job. cbn zeta. match goal with |- added _ _ _ _ (Nat.iter ?n (insert_step ?id _ _) ?x) =>
    destruct (insert_steps_rows n id s c x) as (E1 & E2 & E3 & E4) end.
  split; rewrite ?E1, ?E2, ?E3, ?E4; cbn [runs wjobs next_run next_job].
  - done.
  - lia.
  - intros i. destruct (decide (next_job d = i)) as [<-|Hne].
    + right. split; [lia|]. rewrite lookup_insert_eq. by eexists.
    + left. by rewrite lookup_insert_ne.
Qed.

Lemma added_insert_jobs run created s c keep index js d :
  added run s c d (insert_jobs run created s c keep index js d).
Proof.
  revert index d. induction js as [|j js IH]; intros index d; [apply added_refl|].
  cbn [insert_jobs]. eapply added_trans; [apply added_insert_job|apply IH].
Qed.

(** The rows the transaction adds to the table of runs. *)
Record new_row (d d' : DB) (r : WorkflowRun) : Prop := {
  nr_id : RunID r = next_run d;
  nr_runs i : i ≠ next_run d → runs d' !! i = runs d !! i;
  nr_row : runs d' !! next_run d = Some r;
  nr_jobs : wjobs d' = wjobs d ∧ next_job d' = next_job d;
  nr_next : next_run d' = next_run d + 1
}.

Lemma new_row_inv held d d' r : new_row d d' r → inv held d → inv held d'.
Proof.
  intros [Hid Hr Hrow [Hj Hn] Hnr] Hi. pose proof Hi as [H1 H2 H3]. split.
  - intros i x Hx. destruct (decide (i = next_run d)) as [->|Hne].
    + rewrite Hrow in Hx. injection Hx as <-. lia.
    + rewrite Hr in Hx by done. destruct (H1 i x Hx). lia.
  - intros i j. rewrite Hj. intros E. destruct (H2 i j E) as [Ha (x & Hx & Hb) Hc Hd He].
    split; rewrite ?Hn; [done| |done..]. exists x. split; [|done]. rewrite Hr; [done|].
    intros En. rewrite En in Hx. destruct (H1 _ _ Hx). lia.
  - by rewrite Hn.
Qed.

Lemma fresh_run held d : inv held d → runs d !! next_run d = None.
Proof.
  intros Hi. destruct (runs d !! next_run d) as [r|] eqn:E; [|done].
  destruct (inv_runs _ _ Hi _ _ E). lia.
Qed.

Lemma added_inv held d r d1 d2 s c :
  inv held d → new_row d d1 r → added (RunID r) s c d1 d2 →
  (s = JobQueued ∧ c = None ∧ run_terminal (RStatus r) = false) ∨ (s = JobSkipped ∧ c ≠ None) →
  inv held d2 ∧ evolves d d2.
Proof.
  intros Hi Hnew Hadd Hs. pose proof (new_row_inv held d d1 r Hnew Hi) as Hi1.
  destruct Hnew as [Hid Hr Hrow [Hj Hn] Hnr], Hadd as [[Hr2 Hnr2] Hle Hadd].
  pose proof Hi1 as [H1 H2 H3]. pose proof (fresh_run held d Hi) as Hfresh. split; split.
  - rewrite Hr2, Hnr2. done.
  - intros i j Hij. destruct (Hadd i) as [E|(Hlt & j' & Hj' & Ei & Er & Es & Ec & En & Ex)].
    + rewrite E in Hij. destruct (H2 i j Hij) as [Ha Hb Hc Hd He]. rewrite <-Hr2 in Hb.
      split; [split; [tauto|lia]|done..].
    + assert (j' = j) as -> by congruence. split.
      * lia.
      * exists r. rewrite Hr2, Er, Hid. split_and!; [done|by rewrite En|]. intros Ht.
        unfold holds, open_job. rewrite Es. destruct Hs as [(-> & _ & E)|[-> _]]; [congruence|done].
      * rewrite Es. destruct Hs as [(-> & _ & _)|[-> _]]; [done|done].
      * unfold concluded. rewrite Es, Ec. destruct Hs as [(-> & _ & _)|[-> ?]]; naive_solver.
      * intros Hin. specialize (H3 i Hin). lia.
  - intros i Hin. specialize (H3 i Hin). lia.
  - lia.
  - intros i x. rewrite Hr2. destruct (decide (i = next_run d)) as [->|Hne].
    + rewrite Hrow. intros [= <-]. right. split_and!; [done|lia|done].
    + rewrite Hr by done. intros Hx. left. by exists x.
  - intros i j Hlt Hij. rewrite <-Hn in Hlt. destruct (Hadd i) as [E|(_ & j' & Hj' & _ & Er & Es & _ & En & Ex)].
    + rewrite E in Hij. destruct (H2 i j Hij) as [[_ ?] _ _ _ _]. lia.
    + assert (j' = j) as -> by congruence. split_and!; [lia| |done]. unfold busy. rewrite Es.
      destruct Hs as [(-> & _ & _)|[-> _]]; done.
  - intros i Hlt. rewrite <-Hn in Hlt. destruct (Hadd i) as [E|[? _]]; [|lia]. rewrite E, Hj.
    destruct (wjobs d !! i) as [j|]; [left|done]. exists j. split; [done|apply evo_refl].
Qed.

Lemma new_row_insert p need group created d :
  let r := new_run p need group created d in new_row d (insert_run r d) r.
Proof. split; cbn; try done; [intros i Hne; by rewrite lookup_insert_ne|by rewrite lookup_insert_eq]. Qed.

Lemma new_row_queued p need group created d :
  let r := new_run p need group created d in
  new_row d (if need then on_approvals <[RunID r := MkApproval None None]> (insert_run r d) else insert_run r d) r.
Proof. destruct need; [|apply new_row_insert]. destruct (new_row_insert p true group created d). by split. Qed.

Lemma new_row_blocked p created now d :
  let r := new_run p false "" created d in
  new_row d (CompleteWorkflowRun (RunID r) ActionRequired now (insert_run r d))
    (set_run_status RunCompleted (Some ActionRequired) (Some now) r).
Proof.
  split; cbn; try done; [intros i Hne; by rewrite lookup_alter_ne, lookup_insert_ne|].
  by rewrite lookup_alter_eq, lookup_insert_eq.
Qed.

Lemma Enqueue_inv held citext_eq c p created now d :
  inv held d → inv held (Enqueue citext_eq c p created now d).2 ∧
               evolves d (Enqueue citext_eq c p created now d).2.
Proof.
  intros Hi. assert (Hself : inv held d ∧ evolves d d) by (split; [done|by eapply evolves_refl]).
  unfold Enqueue. destruct (negb (validateParams p)); [done|]. case_bool_decide; [done|].
  destruct (head _); [done|]. destruct (negb (distinct_keys p)); [done|].
  destruct (quota_exceeded c (eRepoID p)); [unfold enqueueQuotaBlockedRun|]; cbn [snd].
  - eapply (added_inv held d _ _ _ JobSkipped (Some ActionRequired));
      [done|by apply new_row_blocked|apply added_insert_jobs|by right].
  - set (need := _ || _). set (r := new_run p need (eGroup p) created d).
    set (d1 := if need then _ else _). set (d2 := insert_jobs _ _ _ _ _ _ _ d1).
    assert (Hn : new_row d d1 r) by apply new_row_queued.
    destruct (added_inv held d r d1 d2 JobQueued None Hi Hn) as [Hi2 He2]; [apply added_insert_jobs|by left|].
    destruct (calm_Enforce held r (eCancelInProgress p) now d2 Hi2) as [Hi3 Ht].
    split; [done|]. by eapply evolves_tame.
Qed.

(** What [Enqueue] makes of the parameters: a run that is over at once, or one that asks for an approval
    when it must. *)
Record comes_from (citext_eq : string → string → bool) (c : Config) (p : EnqueueParams) (r : WorkflowRun) : Prop := {
  cf_repo : RunRepoID r = eRepoID p;
  cf_file : WorkflowFile r = eWorkflowFile p;
  cf_event : TriggerEventID r = eTriggerEventID p;
  cf_need : NeedApproval r = eNeedApproval p || requires_review citext_eq c p ∨ run_terminal (RStatus r) = true
}.

Lemma comes_from_same citext_eq c p r r' :
  run_same r r' → comes_from citext_eq c p r → comes_from citext_eq c p r'.
Proof.
  intros (_ & E1 & _ & _ & E2 & _ & Ht & E3 & E4) [H1 H2 H3 H4]. split; try congruence.
  destruct H4 as [H4|H4]; [left; congruence|right; auto].
Qed.

(** Every run after [Enqueue] was there before, or is the new one; then none was there for its trigger. *)
Definition enqueued (citext_eq : string → string → bool) (c : Config) (p : EnqueueParams) (d d' : DB) : Prop :=
  ∀ i r', runs d' !! i = Some r' →
    (∃ r, runs d !! i = Some r ∧ run_same r r') ∨
    (i = next_run d ∧ comes_from citext_eq c p r' ∧ i < next_run d' ∧
     ∀ k q, runs d !! k = Some q → same_trigger p q = false).

Lemma enqueued_refl citext_eq c p d : enqueued citext_eq c p d d.
Proof. intros i r Hr. left. by exists r. Qed.

Lemma enqueued_row citext_eq c p d d1 d2 r :
  new_row d d1 r → runs d2 = runs d1 → next_run d2 = next_run d1 → comes_from citext_eq c p r →
  head (filter (fun r => same_trigger p r = true) (map_to_list (runs d)).*2) = None →
  enqueued citext_eq c p d d2.
Proof.
  intros [Hid Hr Hrow _ Hnr] E En Hc Hh i r'. rewrite E. destruct (decide (i = next_run d)) as [->|Hne].
  - rewrite Hrow. intros [= <-]. right. split_and!; [done..|lia|]. intros k q Hq.
    destruct (same_trigger p q) eqn:Es; [|done].
    assert (q ∈ filter (fun r => same_trigger p r = true) (map_to_list (runs d)).*2) as Hin
      by (apply list_elem_of_filter; split; [done|]; apply elem_of_values; eauto).
    destruct (filter _ _); [by apply elem_of_nil in Hin|done].
  - rewrite Hr by done. intros Hx. left. by exists r'.
Qed.

Lemma enqueued_tame citext_eq c p d d1 d2 :
  enqueued citext_eq c p d d1 → tame_db d1 d2 → enqueued citext_eq c p d d2.
Proof.
  intros He [[_ Hn] Hr _] i r2 Hr2. destruct (Hr i) as [[_ ?]|(r1 & x & Hr1 & Hx & Hs)]; [congruence|].
  simplify_eq. destruct (He i r1 Hr1) as [(r & Hr0 & Hs0)|(Hi & Hc & Hlt & Hq)].
  - left. exists r. split; [done|]. by eapply run_same_trans.
  - right. split_and!; [done|by eapply comes_from_same|lia|done].
Qed.

(** The run [Enqueue] may add. *)
Lemma Enqueue_new held citext_eq c p created now d :
  inv held d → enqueued citext_eq c p d (Enqueue citext_eq c p created now d).2.
Proof.
  intros Hi. unfold Enqueue. destruct (negb (validateParams p)); [apply enqueued_refl|].
  case_bool_decide; [apply enqueued_refl|]. destruct (head _) eqn:Hh; [apply enqueued_refl|].
  destruct (negb (distinct_keys p)); [apply enqueued_refl|].
  destruct (quota_exceeded c (eRepoID p)); [unfold enqueueQuotaBlockedRun|]; cbn [snd].
  - set (d1 := CompleteWorkflowRun _ _ _ _).
    destruct (added_insert_jobs (RunID (new_run p false "" created d)) created JobSkipped (Some ActionRequired) false
      0 (eJobs p) d1) as [[E1 E2] _ _].
    eapply (enqueued_row citext_eq c p d d1); [by apply new_row_blocked|done..| |done]. split; try done. by right.
  - set (need := _ || _). set (r := new_run p need (eGroup p) created d).
    set (d1 := if need then _ else _). set (d2 := insert_jobs _ _ _ _ _ _ _ d1).
    pose proof (added_insert_jobs (RunID r) created JobQueued None true 0 (eJobs p) d1) as Hadd. fold d2 in Hadd.
    assert (Hn : new_row d d1 r) by apply new_row_queued.
    destruct (added_inv held d r d1 d2 JobQueued None Hi Hn Hadd) as [Hi2 _]; [by left|].
    destruct (calm_Enforce held r (eCancelInProgress p) now d2 Hi2) as [_ Ht].
    eapply enqueued_tame; [|exact Ht]. destruct Hadd as [[E1 E2] _ _].
    apply (enqueued_row citext_eq c p d d1 d2 r); [done..|split; try done; by left|done].
Qed.

(** ** The system *)

Definition held_jobs (s : System) : gset Z := tokens s ∪ dom (requests s).

Record Sinv (s : System) : Prop := {
  si_db : inv (held_jobs s) (db s);
  si_disj : tokens s ## dom (requests s);
  si_rows i row : requests s !! i = Some row → JobID row = i
}.

Lemma Sinv_db s d : Sinv s → inv (held_jobs s) d → Sinv (with_db s d).
Proof. intros [H1 H2 H3] Hi. by split. Qed.

Section System.
  Context (citext_eq pattern_matches : string → string → bool).
  Abbreviation step := (sstep citext_eq pattern_matches).

Lemma calm_system s d : Sinv s → calm (held_jobs s) (db s) d → Sinv (with_db s d) ∧ evolves (db s) d.
Proof.
  intros Hs Hc. destruct (evolves_calm _ _ _ (si_db _ Hs) Hc) as [Hi He]. split; [by apply Sinv_db|done].
Qed.

Lemma enqueue_system s c p created now :
  Sinv s → Sinv (with_db s (Enqueue citext_eq c p created now (db s)).2) ∧
    evolves (db s) (Enqueue citext_eq c p created now (db s)).2.
Proof.
  intros Hs. destruct (Enqueue_inv _ citext_eq c p created now _ (si_db _ Hs)).
  split; [by apply Sinv_db|done].
Qed.

Lemma delete_system s p : Sinv s → Sinv (with_db s (delete_runs p (db s))) ∧ evolves (db s) (delete_runs p (db s)).
Proof.
  intros Hs. destruct (delete_runs_inv _ p _ (si_db _ Hs)) as [Hi He]. split; [by apply Sinv_db|done].
Qed.

Lemma actionsRunDelete_Some repo run d d' :
  actionsRunDelete repo run d = Some d' → d' = DeleteWorkflowRunByID run d.
Proof. unfold actionsRunDelete. destruct (runs d !! run); [|done]. by case_bool_decide; intros [= <-]. Qed.

Lemma same_runs_delete p d : ∀ i r', runs (delete_runs p d) !! i = Some r' → ∃ r, runs d !! i = Some r ∧ run_same r r'.
Proof. intros i r [Hr _]%map_lookup_filter_Some. by exists r. Qed.

Lemma RerunRun_Enqueue c source run actor entropy created now d r d' :
  RerunRun citext_eq c source run actor entropy created now d = Ok (r, d') →
  ∃ p, d' = (Enqueue citext_eq c p created now d).2.
Proof.
  unfold RerunRun. case_decide; [done|]. destruct (runs d !! run) as [r'|]; [|done].
  destruct (negb _); [done|]. destruct (source r') as [[[[sha js] group] cancel]|]; [|done].
  intros E. injection E as E. apply (f_equal snd) in E. cbn [snd] in E. eexists. symmetry. exact E.
Qed.

Lemma step_inv s s' : step s s' → Sinv s → Sinv s' ∧ evolves (db s) (db s').
Proof.
  intros Hstep Hs. pose proof Hs as [Hi Hd Hr].
  destruct Hstep as [s c p created now|s c runner row labels capacity now job d E|s job row Ht Hj
    |s job row body st c terminal now d Hq Hn Ha|s job|s step row body st c terminal _ _ _|s run now d E
    |s job now d E|s runner now ids|s c run actor d E|s run actor now d E
    |s c source run actor entropy created now r d E|s cutoff|s repo run d E].
  - by apply enqueue_system.
  - destruct (claimRunnerJob_inv _ _ _ _ _ _ _ _ _ _ _ Hi E) as (Hi' & He & Hnew).
    split; [|exact He]. split; cbn.
    + unfold held_jobs. cbn. eapply inv_weaken; [exact Hi'|]. unfold held_jobs. set_solver.
    + intros x Hx Hx'. apply elem_of_union in Hx as [->%elem_of_singleton|Hx]; [|by eapply Hd].
      apply Hnew. unfold held_jobs. set_solver.
    + done.
  - split; [|by eapply evolves_refl]. pose proof Hd as Hd'. split; cbn.
    + eapply inv_weaken; [exact Hi|]. unfold held_jobs. cbn. rewrite dom_insert_L. set_solver.
    + rewrite dom_insert_L. set_solver.
    + intros i x [[<- <-]|[_ Hx]]%lookup_insert_Some; [|by apply Hr].
      by destruct (inv_jobs _ _ Hi _ _ Hj) as [[? _] _ _ _ _].
  - assert (Hin : job ∈ dom (requests s)) by (apply elem_of_dom; eauto).
    destruct (applyJobStatus_inv (held_jobs s) (db s) row job st c terminal now d) as [Hi' He];
      [done|set_solver|by apply Hr|by eapply normalizeJobStatusUpdate_proper|done|].
    split; [|done]. split; cbn.
    + eapply inv_weaken; [exact Hi'|]. unfold held_jobs. cbn. rewrite dom_delete_L. destruct terminal; set_solver.
    + rewrite dom_delete_L. destruct terminal; set_solver.
    + intros i x [_ Hx]%lookup_delete_Some. by apply Hr.
  - split; [|by eapply evolves_refl]. split; cbn.
    + eapply inv_weaken; [exact Hi|]. unfold held_jobs. cbn. rewrite dom_delete_L. set_solver.
    + rewrite dom_delete_L. set_solver.
    + intros i x [_ Hx]%lookup_delete_Some. by apply Hr.
  - apply calm_system; [done|]. by apply calm_rows.
  - apply calm_system; [done|]. by eapply calm_CancelRun.
  - apply calm_system; [done|]. by eapply calm_CancelJob.
  - apply calm_system; [done|]. by apply calm_reconcile.
  - apply calm_system; [done|]. by eapply calm_ApproveRun.
  - apply calm_system; [done|]. by eapply calm_RejectRun.
  - apply RerunRun_Enqueue in E as [p ->]. by apply enqueue_system.
  - by apply delete_system.
  - apply actionsRunDelete_Some in E as ->. by apply delete_system.
Qed.

Lemma start_inv : Sinv start.
Proof. by split. Qed.

Lemma rtc_inv s s' : rtc step s s' → Sinv s → Sinv s'.
Proof. intros Hr Hs. apply (rtc_preserves _ Sinv _ _ Hr Hs). intros x y Hx Hxy. by apply (step_inv x y). Qed.

Lemma reachable_inv s : rtc step start s → Sinv s.
Proof. intros Hr. by apply (rtc_inv _ _ Hr), start_inv. Qed.

(** C4: in every reachable state a job that runs, has completed or has a runner belongs to a run that needs
    no approval or was approved, and a run that is over has no job left that waits or runs
    without a request to stop. *)
Theorem approval_gate s i j :
  rtc step start s → wjobs (db s) !! i = Some j →
  ∃ r, runs (db s) !! JRunID j = Some r ∧
    ((Status j = JobRunning ∨ Status j = JobCompleted ∨ is_Some (RunnerID j)) → dispatchable r = true) ∧
    (run_terminal (RStatus r) = true → holds j = false).
Proof.
  intros Hr Hj. destruct (inv_jobs _ _ (si_db _ (reachable_inv s Hr)) i j Hj) as [_ (r & Hrow & Hd & Ht) Hst _ _].
  exists r. split_and!; [done| |done]. intros H. apply Hd.
  destruct H as [E|[E|[x E]]]; [by rewrite E in Hst|by rewrite E in Hst|by rewrite E].
Qed.

(** *** One run per event *)

Definition unique_triggers (d : DB) : Prop :=
  ∀ i k r q, runs d !! i = Some r → runs d !! k = Some q → RunRepoID r = RunRepoID q →
    WorkflowFile r = WorkflowFile q → TriggerEventID r = TriggerEventID q → i = k.

(** No run is new. *)
Definition same_runs (d d' : DB) : Prop :=
  ∀ i r', runs d' !! i = Some r' → ∃ r, runs d !! i = Some r ∧ run_same r r'.

Lemma same_runs_eq d d' : runs d' = runs d → same_runs d d'.
Proof. intros E i r'. rewrite E. intros H. by exists r'. Qed.

Lemma same_runs_tame d d' : tame_db d d' → same_runs d d'.
Proof. intros [_ Hr _] i r' H. destruct (Hr i) as [[_ ?]|(r & x & ? & ? & ?)]; simplify_eq. by exists r. Qed.

Lemma same_runs_alter d d' id f :
  (∀ r, run_same r (f r)) → runs d' = runs d → same_runs d (on_runs (alter f id) d').
Proof.
  intros Hf E i r'. cbn. rewrite E. intros [(<- & r & Hr & ->)|[_ Hr]]%lookup_alter_Some; [by exists r|by exists r'].
Qed.

Lemma run_same_start ok r : run_same r (start_if ok r).
Proof.
  unfold start_if. destruct (bool_decide _) eqn:E; [|done]. destruct (ok r); [|done]. bools.
  unfold run_same. cbn. split_and!; try done. by rewrite E.
Qed.

Lemma same_runs_claim c runner row labels capacity now job d d' :
  claimRunnerJob pattern_matches c runner row labels capacity now d = (Claimed job, d') → same_runs d d'.
Proof.
  unfold claimRunnerJob, ClaimQueuedWorkflowJob. destruct (Revoked row); [done|]. destruct (Draining row); [done|].
  case_bool_decide; [done|]. destruct (first_queued _) as [j|]; [|done]. intros [= _ <-].
  by apply same_runs_alter; [apply run_same_start|].
Qed.

Lemma same_runs_apply row st c now d d' : applyJobStatus row st c now d = Some d' → same_runs d d'.
Proof.
  unfold applyJobStatus. destruct (wjobs d !! JobID row) as [j|]; [|done]. intros [= <-].
  set (d2 := if decide _ then _ else _). assert (runs d2 = runs d) as E by (unfold d2; by case_decide).
  destruct (derive_run (JRunID j) d2); apply same_runs_alter; auto using run_same_start.
  by intros r.
Qed.

Lemma unique_same d d' : same_runs d d' →
  unique_triggers d → unique_triggers d'.
Proof.
  intros Hs Hu i k r' q' Hr' Hq' E1 E2 E3.
  destruct (Hs _ _ Hr') as (r & Hr & _ & A1 & _ & _ & _ & _ & _ & A2 & A3),
    (Hs _ _ Hq') as (q & Hq & _ & B1 & _ & _ & _ & _ & _ & B2 & B3).
  apply (Hu i k r q Hr Hq); congruence.
Qed.

Lemma unique_enqueued c p d d' : enqueued citext_eq c p d d' → unique_triggers d → unique_triggers d'.
Proof.
  intros He Hu i k r' q' Hr' Hq' E1 E2 E3.
  destruct (He i r' Hr') as [(r & Hr & _ & A1 & _ & _ & _ & _ & _ & A2 & A3)|(-> & [A1 A2 A3 _] & _ & Hn)],
    (He k q' Hq') as [(q & Hq & _ & B1 & _ & _ & _ & _ & _ & B2 & B3)|(-> & [B1 B2 B3 _] & _ & Hm)]; [|exfalso..|done].
  - apply (Hu i k r q Hr Hq); congruence.
  - specialize (Hm i r Hr). unfold same_trigger in Hm. by rewrite !bool_decide_eq_true_2 in Hm by congruence.
  - specialize (Hn k q Hq). unfold same_trigger in Hn. by rewrite !bool_decide_eq_true_2 in Hn by congruence.
Qed.

(** A step leaves the runs as they were, or is an [Enqueue]. *)
Lemma step_runs s s' : step s s' → Sinv s →
  same_runs (db s) (db s') ∨ ∃ c p, enqueued citext_eq c p (db s) (db s').
Proof.
  intros Hstep [Hi _ _].
  destruct Hstep as [s c p created now|s c runner row labels capacity now job d E|s job row Ht Hj
    |s job row body st c terminal now d Hq Hn Ha|s job|s step row body st c terminal _ _ _|s run now d E
    |s job now d E|s runner now ids|s c run actor d E|s run actor now d E
    |s c source run actor entropy created now r d E|s cutoff|s repo run d E]; cbn [db with_db].
  - right. exists c, p. by eapply Enqueue_new.
  - left. by eapply same_runs_claim.
  - left. by apply same_runs_eq.
  - left. by eapply same_runs_apply.
  - left. by apply same_runs_eq.
  - left. by apply same_runs_eq.
  - left. by eapply same_runs_tame, calm_CancelRun.
  - left. by eapply same_runs_tame, calm_CancelJob.
  - left. by eapply same_runs_tame, calm_reconcile.
  - left. by eapply same_runs_tame, calm_ApproveRun.
  - left. by eapply same_runs_tame, calm_RejectRun.
  - right. apply RerunRun_Enqueue in E as [p ->]. exists c, p. by eapply Enqueue_new.
  - left. intros i r'. apply same_runs_delete.
  - left. apply actionsRunDelete_Some in E as ->. intros i r'. apply same_runs_delete.
Qed.

(** a repository never has two runs of one workflow file for one trigger event, however often the event is
    delivered. *)
Theorem one_run_per_event s i k r q :
  rtc step start s → runs (db s) !! i = Some r → runs (db s) !! k = Some q →
  RunRepoID r = RunRepoID q → WorkflowFile r = WorkflowFile q → TriggerEventID r = TriggerEventID q → i = k.
Proof.
  intros Hr. assert (Sinv s ∧ unique_triggers (db s)) as [_ Hu]; [|by apply Hu].
  apply (rtc_preserves _ (fun s => Sinv s ∧ unique_triggers (db s)) _ _ Hr).
  - split; [apply start_inv|]. by intros i' k' r' q' H.
  - intros x y [Hx Hu] Hxy. split; [by apply (step_inv x y)|].
    destruct (step_runs x y Hxy Hx) as [H|(c & p & H)]; [by eapply unique_same|by eapply unique_enqueued].
Qed.

(** *** Runs that wait *)

Lemma evolves_job d d' held i j' : inv held d → evolves d d' → wjobs d' !! i = Some j' →
  (∃ j, wjobs d !! i = Some j ∧ evo d j j') ∨
  (next_run d ≤ JRunID j' ∧ busy j' = false ∧ RunnerID j' = None).
Proof.
  intros Hi He Hj'. destruct (Z.lt_ge_cases i (next_job d)) as [Hlt|Hge].
  - pose proof (ev_jobs _ _ He i Hlt) as H. destruct (wjobs d !! i) as [j|]; [left|congruence].
    destruct H as [(x & Hx & Hxe)|[? _]]; [|congruence]. simplify_eq. by exists j.
  - right. by apply (ev_new _ _ He i).
Qed.

(** The run needs an approval, or is over without a job that ever had a runner. *)
Definition confined (d : DB) (i : Z) : Prop :=
  i < next_run d ∧
  ∀ r, runs d !! i = Some r → NeedApproval r = true ∨
    run_terminal (RStatus r) = true ∧ ∀ k j, wjobs d !! k = Some j → JRunID j = i → RunnerID j = None.

Lemma evolves_confined held d d' i : inv held d → evolves d d' → confined d i → confined d' i.
Proof.
  intros Hi He [Hlt Hc]. pose proof (ev_next _ _ He) as [_ Hn]. split; [lia|]. intros r' Hr'.
  destruct (ev_runs _ _ He i r' Hr') as [(r & Hr & (_ & _ & _ & _ & En & _ & Et & _))|(_ & ? & _)]; [|lia].
  destruct (Hc r Hr) as [Hneed|[Ht Hjobs]]; [left; congruence|right]. split; [auto|]. intros k j' Hj' Ej.
  destruct (evolves_job _ _ _ k j' Hi He Hj') as [(j & Hj & Hej)|(? & _ & ?)]; [|done].
  destruct (evo_run _ _ _ Hej) as (Er & _). destruct (evo_runner _ _ _ Hej) as [->|(x & Hx & Hx' & _)].
  - apply (Hjobs k j Hj). congruence.
  - congruence.
Qed.

Lemma enqueued_confined held c p d d' i :
  inv held d → evolves d d' → enqueued citext_eq c p d d' → eNeedApproval p = true →
  runs d !! i = None → is_Some (runs d' !! i) → confined d' i.
Proof.
  intros Hi He Hq Hneed Hnone [x Hx]. destruct (Hq i x Hx) as [(r & Hr & _)|(-> & Hc & Hlt & _)]; [congruence|].
  split; [done|]. intros r' Hr'. simplify_eq. destruct Hc as [_ _ _ [->|Ht]]; [left; by rewrite Hneed|right].
  split; [done|]. intros k j' Hj' Ej.
  destruct (evolves_job _ _ _ k j' Hi He Hj') as [(j & Hj & Hej)|(_ & _ & ?)]; [|done].
  destruct (evo_run _ _ _ Hej) as (Er & _). destruct (inv_jobs _ _ Hi k j Hj) as [_ (y & Hy & _) _ _ _]. congruence.
Qed.

Lemma confined_waits held d i r k j :
  inv held d → confined d i → runs d !! i = Some r → ApprovedBy r = None → wjobs d !! k = Some j → JRunID j = i →
  RunnerID j = None ∧ Status j ≠ JobRunning ∧ Status j ≠ JobCompleted.
Proof.
  intros Hi [_ Hc] Hr Ha Hj Ej. destruct (inv_jobs _ _ Hi k j Hj) as [_ (x & Hx & Hd & _) Hst _ _].
  assert (RunnerID j = None) as Hn.
  { destruct (Hc r Hr) as [Hneed|[_ H]]; [|by apply (H k)]. rewrite Ej, Hr in Hx. injection Hx as <-.
    destruct (RunnerID j); [|done]. assert (dispatchable r = true) as E by by apply Hd.
    unfold dispatchable in E. by rewrite Hneed, Ha in E. }
  split; [done|]. split; intros E; by rewrite E in Hst.
Qed.

Lemma rtc_confined s s' i : rtc step s s' → Sinv s → confined (db s) i → Sinv s' ∧ confined (db s') i.
Proof.
  intros Hr Hs Hc. apply (rtc_preserves _ (fun s => Sinv s ∧ confined (db s) i) _ _ Hr); [done|].
  intros x y [Hx Hcx] Hxy. destruct (step_inv x y Hxy Hx) as [Hy He]. split; [done|].
  eapply evolves_confined; [apply (si_db _ Hx)|done..].
Qed.

(** *** Concurrency groups *)

(** A run created by the step is not older than the runs there are. *)
Definition orderly (s s' : System) : Prop :=
  ∀ i r k q, runs (db s') !! i = Some r → runs (db s) !! i = None → runs (db s) !! k = Some q →
    RCreatedAt q ≤ RCreatedAt r.

Definition orderly_step (s s' : System) : Prop := step s s' ∧ orderly s s'.

(** A running job keeps every older run of its group out. *)
Definition exclusive (d : DB) : Prop :=
  ∀ i j r k b i' j', wjobs d !! i = Some j → busy j = true → runs d !! JRunID j = Some r →
    ConcurrencyGroup r ≠ "" → runs d !! k = Some b → RunRepoID b = RunRepoID r →
    ConcurrencyGroup b = ConcurrencyGroup r → created_before b r = true →
    wjobs d !! i' = Some j' → JRunID j' = k → holds j' = false.

Lemma created_before_irrefl r : created_before r r = false.
Proof. unfold created_before. repeat case_bool_decide; cbn; try lia; done. Qed.

Lemma created_before_total a b : RunID a ≠ RunID b → created_before a b = true ∨ created_before b a = true.
Proof. intros Hne. unfold created_before. repeat case_bool_decide; cbn; auto; lia. Qed.

Lemma created_before_same a b a' b' : run_same a a' → run_same b b' →
  created_before a' b' = created_before a b.
Proof.
  intros (E1 & _ & _ & E2 & _) (E3 & _ & _ & E4 & _). unfold created_before. by rewrite E1, E2, E3, E4.
Qed.

Lemma clear_no_holder d j r k b i' j' held :
  inv held d → clear d j → runs d !! JRunID j = Some r → ConcurrencyGroup r ≠ "" → runs d !! k = Some b →
  RunRepoID b = RunRepoID r → ConcurrencyGroup b = ConcurrencyGroup r → created_before b r = true →
  wjobs d !! i' = Some j' → JRunID j' = k → holds j' = false.
Proof.
  intros Hi (r' & Hr' & _ & _ & _ & Hb) Hr Hg Hk Hrepo Hgroup Hold Hj' Hrun. rewrite Hr in Hr'. injection Hr' as <-.
  destruct (inv_jobs _ _ Hi _ _ Hj') as [_ (x & Hx & _ & Ht) _ _ _]. rewrite Hrun, Hk in Hx. injection Hx as <-.
  pose proof (exists_run_false _ _ _ _ Hb Hk) as Hnb. unfold blocker in Hnb.
  destruct (inv_runs _ _ Hi _ _ Hk) as [Eb _].
  rewrite (bool_decide_eq_true_2 _ Hg), (bool_decide_eq_true_2 _ Hrepo), (bool_decide_eq_true_2 _ Hgroup), Hold in Hnb.
  rewrite bool_decide_eq_true_2 in Hnb.
  - cbn in Hnb. unfold active in Hnb. destruct (run_terminal (RStatus b)) eqn:Eb2; [by apply Ht|].
    cbn in Hnb. pose proof (exists_job_false _ _ _ _ Hnb Hj') as H. unfold holds_slot, in_run in H.
    rewrite bool_decide_eq_true_2 in H by congruence. exact H.
  - intros E. assert (r = b) as ->.
    { destruct (inv_runs _ _ Hi _ _ Hr) as [Er _]. congruence. }
    by rewrite created_before_irrefl in Hold.
Qed.

Lemma step_exclusive s s' : orderly_step s s' → Sinv s → exclusive (db s) → exclusive (db s').
Proof.
  intros [Hstep Hord] Hs Hx. destruct (step_inv s s' Hstep Hs) as [_ He].
  pose proof (si_db _ Hs) as Hi.
  intros i j' r' k b' i2 j2' Hj' Hbusy Hr' Hg Hb' Hrepo Hgroup Hold Hj2' Hrun.
  destruct (evolves_job _ _ _ _ _ Hi He Hj') as [(j & Hj & Hej)|(_ & ? & _)]; [|congruence].
  destruct (evo_run _ _ _ Hej) as (Ejr & _). rewrite Ejr in Hr'.
  assert (∃ r, runs (db s) !! JRunID j = Some r ∧ run_same r r') as (r & Hr & Hsr).
  { destruct (ev_runs _ _ He _ _ Hr') as [H|[Hnone _]]; [done|].
    destruct (inv_jobs _ _ Hi _ _ Hj) as [_ (x & Hx' & _) _ _ _]. congruence. }
  pose proof Hsr as (Er1 & Er2 & Er3 & Er4 & _).
  destruct (ev_runs _ _ He _ _ Hb') as [(b & Hb & Hsb)|(Hnone & Hge & Eid)].
  - pose proof Hsb as (Eb1 & Eb2 & Eb3 & Eb4 & _).
    rewrite Er2, Eb2 in Hrepo. rewrite Er3, Eb3 in Hgroup. rewrite Er3 in Hg.
    rewrite (created_before_same _ _ _ _ Hsb Hsr) in Hold.
    destruct (evolves_job _ _ _ _ _ Hi He Hj2') as [(j2 & Hj2 & Hej2)|[Hge _]].
    + destruct (evo_run _ _ _ Hej2) as (Ej2r & _). rewrite Ej2r in Hrun.
      assert (holds j2 = false) as Hf.
      { destruct (evo_busy _ _ _ Hej Hbusy) as [Hb1|Hcl];
          [exact (Hx i j r k b i2 j2 Hj Hb1 Hr Hg Hb Hrepo Hgroup Hold Hj2 Hrun)
          |exact (clear_no_holder _ j r k b i2 j2 _ Hi Hcl Hr Hg Hb Hrepo Hgroup Hold Hj2 Hrun)]. }
      destruct (holds j2') eqn:E; [|done]. by rewrite (evo_holds _ _ _ Hej2) in Hf.
    + rewrite Hrun in Hge. destruct (inv_runs _ _ Hi _ _ Hb). lia.
  - exfalso. pose proof (Hord _ _ _ _ Hb' Hnone Hr) as Hle.
    destruct (inv_runs _ _ Hi _ _ Hr) as [Eid2 Hlt].
    unfold created_before in Hold. apply orb_true_iff in Hold as [Hold|Hold]; bools; lia.
Qed.

Lemma reachable_exclusive s : rtc orderly_step start s → Sinv s ∧ exclusive (db s).
Proof.
  intros Hr. apply (rtc_preserves _ (fun s => Sinv s ∧ exclusive (db s)) _ _ Hr); [|intros x y [Hx He] Hxy].
  - split; [apply start_inv|]. by intros i j r k b i' j' H.
  - split; [by apply (step_inv x y), Hx; destruct Hxy|by apply (step_exclusive x y)].
Qed.

(** C30: as long as runs are committed in the order of their creation times, no two runs of a
    repository and a concurrency group have a running job each that nobody asked to stop. *)
Theorem group_exclusion s i1 i2 j1 j2 r1 r2 :
  rtc orderly_step start s →
  wjobs (db s) !! i1 = Some j1 → Status j1 = JobRunning → CancelRequested j1 = false →
  wjobs (db s) !! i2 = Some j2 → Status j2 = JobRunning → CancelRequested j2 = false →
  runs (db s) !! JRunID j1 = Some r1 → runs (db s) !! JRunID j2 = Some r2 →
  RunRepoID r1 = RunRepoID r2 → ConcurrencyGroup r1 = ConcurrencyGroup r2 → ConcurrencyGroup r1 ≠ "" →
  JRunID j1 = JRunID j2.
Proof.
  intros Hr Hj1 S1 C1 Hj2 S2 C2 Hr1 Hr2 Hrepo Hg Hne. destruct (reachable_exclusive s Hr) as [Hs Hx].
  destruct (inv_runs _ _ (si_db _ Hs) _ _ Hr1) as [E1 _], (inv_runs _ _ (si_db _ Hs) _ _ Hr2) as [E2 _].
  assert (busy j1 = true ∧ holds j1 = true) as [B1 H1] by (unfold busy, holds, open_job; by rewrite S1, C1).
  assert (busy j2 = true ∧ holds j2 = true) as [B2 H2] by (unfold busy, holds, open_job; by rewrite S2, C2).
  destruct (decide (JRunID j1 = JRunID j2)) as [|Hn]; [done|]. exfalso.
  destruct (created_before_total r1 r2) as [Hb|Hb]; [congruence|..].
  - rewrite (Hx i2 j2 r2 (JRunID j1) r1 i1 j1) in H1; try done; congruence.
  - rewrite (Hx i1 j1 r1 (JRunID j2) r2 i2 j2) in H2; try done; congruence.
Qed.

(** *** Jobs that wait for what will not happen *)

(** Every job of [C] that is still queued needs one that completed without success, or one of [C]. *)
Definition doomed (d : DB) (C : gset Z) : Prop :=
  ∀ q j, q ∈ C → wjobs d !! q = Some j →
    RunnerID j = None ∧
    (Status j = JobCancelled ∨
     Status j = JobQueued ∧
       ∃ dep e, wjobs d !! dep = Some e ∧ unmet j e = true ∧ (Status e = JobCompleted ∨ dep ∈ C)).

Lemma queued_run_active held d i j :
  inv held d → wjobs d !! i = Some j → Status j = JobQueued →
  ∃ r, runs d !! JRunID j = Some r ∧ run_terminal (RStatus r) = false.
Proof.
  intros Hi Hj Hs. destruct (inv_jobs _ _ Hi _ _ Hj) as [_ (r & Hr & _ & Ht) Hst _ _]. exists r. split; [done|].
  rewrite Hs in Hst. destruct Hst as [_ Hc]. destruct (run_terminal (RStatus r)); [|done].
  specialize (Ht eq_refl). unfold holds, open_job in Ht. by rewrite Hs, Hc in Ht.
Qed.

Lemma unmet_same_keys j j' e e' :
  JRunID j' = JRunID j ∧ JobKey j' = JobKey j ∧ NeedsJobs j' = NeedsJobs j →
  JRunID e' = JRunID e ∧ JobKey e' = JobKey e ∧ NeedsJobs e' = NeedsJobs e →
  Status e' ≠ JobCompleted → unmet j e = true → unmet j' e' = true.
Proof.
  intros (E1 & E2 & E3) (E4 & E5 & E6) Hs. unfold unmet, in_run. rewrite E1, E3, E4, E5, !andb_true_iff.
  intros [Ha _]. split; [done|]. by rewrite bool_decide_eq_true_2.
Qed.

(** The job a queued one needs outlives the step, unless their run is deleted. *)
Lemma need_survives s s' j e dep : step s s' → Sinv s →
  wjobs (db s) !! dep = Some e → unmet j e = true → is_Some (runs (db s') !! JRunID j) →
  ∃ e', wjobs (db s') !! dep = Some e' ∧ evo (db s) e e'.
Proof.
  intros Hstep Hs He Hu [x Hx]. destruct (step_inv s s' Hstep Hs) as [_ Hev]. pose proof (si_db _ Hs) as Hi.
  destruct (inv_jobs _ _ Hi _ _ He) as [[_ Hlt] _ _ _ _].
  pose proof (ev_jobs _ _ Hev dep Hlt) as H. rewrite He in H. destruct H as [H|[_ Hr]]; [done|].
  unfold unmet, in_run in Hu. bools. congruence.
Qed.

Lemma step_doomed s s' C : step s s' → Sinv s → (∀ q, q ∈ C → q < next_job (db s)) →
  doomed (db s) C → doomed (db s') C.
Proof.
  intros Hstep Hs Hlt Hd q j' Hq Hj'. destruct (step_inv s s' Hstep Hs) as [Hs' Hev].
  pose proof (ev_jobs _ _ Hev q (Hlt q Hq)) as Hjq.
  destruct (wjobs (db s) !! q) as [j|] eqn:Hj; [|congruence].
  destruct Hjq as [(x & Hx & He)|[? _]]; [|congruence]. assert (x = j') as -> by congruence.
  destruct (Hd q j Hq Hj) as [Hn [Hst|(Hst & dep & e & Hdep & Hu & Hwhy)]].
  { destruct (evo_cancelled _ _ _ He Hn Hst). auto. }
  destruct (evo_queued _ _ _ He Hst) as [[[Hst'|Hst'] Hn']|(r & _ & _ & _ & Hex & _)].
  - split; [congruence|right]. split; [done|].
    assert (is_Some (runs (db s') !! JRunID j)) as Hrun.
    { destruct (inv_jobs _ _ (si_db _ Hs') _ _ Hj') as [_ (r & Hr & _) _ _ _]. destruct (evo_run _ _ _ He) as (E1 & _).
      rewrite E1 in Hr. eauto. }
    destruct (need_survives s s' j e dep Hstep Hs Hdep Hu Hrun) as (e' & Hdep' & Hee).
    exists dep, e'. split; [done|]. destruct Hwhy as [Hcomp|Hin].
    + rewrite (evo_completed _ _ _ Hee (or_introl Hcomp)). split; [|by left].
      destruct (evo_run _ _ _ He) as (E1 & _ & E3). unfold unmet, in_run in *. by rewrite E1, E3.
    + split; [|by right]. eapply unmet_same_keys; [apply He|apply Hee| |done].
      destruct (Hd dep e Hin Hdep) as [Hen [Hes|[Hes _]]].
      * destruct (evo_cancelled _ _ _ Hee Hen Hes) as [_ ->]. done.
      * destruct (evo_queued _ _ _ Hee Hes) as [[[->| ->] _]|(r & _ & _ & _ & Hex & _)]; [done..|].
        intros _. destruct (Hd dep e Hin Hdep) as [_ [?|(_ & d2 & e2 & Hd2 & Hu2 & _)]]; [congruence|].
        by rewrite (exists_job_false _ _ _ _ Hex Hd2) in Hu2.
  - split; [congruence|by left].
  - by rewrite (exists_job_false _ _ _ _ Hex Hdep) in Hu.
Qed.

(** queued jobs each of which needs a job that completed without success, or another of them (as in a
    cycle), never start and are never skipped: from then on each stays queued, without a
    runner and in a run that is not over, unless it is cancelled or deleted. *)
Theorem doomed_jobs_wait s C :
  rtc step start s → (∀ q, q ∈ C → is_Some (wjobs (db s) !! q)) → doomed (db s) C →
  ∀ s' q j', rtc step s s' → q ∈ C → wjobs (db s') !! q = Some j' →
  RunnerID j' = None ∧
  (Status j' = JobCancelled ∨
   Status j' = JobQueued ∧ ∃ r, runs (db s') !! JRunID j' = Some r ∧ run_terminal (RStatus r) = false).
Proof.
  intros Hr Hin Hd s' q j' Hs' Hq Hj'. pose proof (reachable_inv s Hr) as Hs.
  assert (Sinv s' ∧ (∀ q, q ∈ C → q < next_job (db s')) ∧ doomed (db s') C) as (Hi & _ & H).
  { apply (rtc_preserves _ (fun s => Sinv s ∧ (∀ q, q ∈ C → q < next_job (db s)) ∧ doomed (db s) C) _ _ Hs').
    - split; [done|]. split; [|done]. intros x [j Hj]%Hin.
      by destruct (inv_jobs _ _ (si_db _ Hs) _ _ Hj) as [[_ ?] _ _ _ _].
    - intros x y (Hx & Hlt & Hdx) Hxy. destruct (step_inv x y Hxy Hx) as [Hy Hev]. split; [done|].
      split; [|by apply (step_doomed x)]. intros z Hz. pose proof (ev_next _ _ Hev). specialize (Hlt z Hz). lia. }
  destruct (H q j' Hq Hj') as [Hn [?|[Hst _]]]; split; auto. right. split; [done|].
  by eapply queued_run_active; [apply (si_db _ Hi)|..].
Qed.
End System.

(** ** Runs of the system *)

Definition same_text (a b : string) : bool := bool_decide (a = b).

Definition plain_config : Config := MkConfig ∅ None ∅ ∅ [] [] [] (fun _ => false).

Definition push (event group : string) (need : bool) (js : list JobSpec) : EnqueueParams :=
  MkEnqueue 7 ".shithub/workflows/ci.yml" "c0ffee" "refs/heads/trunk" 3 0 event js need group false true.

Definition job_spec (key : string) (needs : list string) : JobSpec := MkJobSpec key "" needs "" 1.

(** The functional reading of a step, to compute with. *)
Inductive Action :=
| AEnqueue (p : EnqueueParams) (created : Z) | AClaim (job : Z) | ARead (job : Z)
| AApply (job : Z) (status conclusion : string) | ACancelJob (job : Z) | AReconcile (ids : list Z).

Definition act (a : Action) (s : System) : option System :=
  match a with
  | AEnqueue p created => Some (with_db s (Enqueue same_text plain_config p created created (db s)).2)
  | AClaim job =>
      let '(r, d) := claimRunnerJob same_text plain_config 1 (MkRunner false false) [] 4 50 (db s) in
      match r with
      | Claimed j => if decide (j = job) then Some (MkSystem d ({[job]} ∪ tokens s) (requests s)) else None
      | _ => None
      end
  | ARead job =>
      row ← wjobs (db s) !! job;
      if decide (job ∈ tokens s)
      then Some (MkSystem (db s) (tokens s ∖ {[job]}) (<[job := row]> (requests s))) else None
  | AApply job st c =>
      row ← requests s !! job;
      '(st, c, terminal) ← normalizeJobStatusUpdate (Status row) (MkStatusRequest st c true);
      d ← applyJobStatus row st c 60 (db s);
      Some (MkSystem d (if terminal : bool then tokens s else {[job]} ∪ tokens s) (delete job (requests s)))
  | ACancelJob job =>
      match CancelJob job 60 (db s) with Ok d => Some (with_db s d) | Err _ => None end
  | AReconcile ids => Some (with_db s (ReconcileRunnerActiveJobs 1 60 ids (db s)))
  end.

Fixpoint acts (l : list Action) (s : System) : option System :=
  match l with [] => Some s | a :: l => act a s ≫= acts l end.

Abbreviation sample_step := (sstep same_text same_text).

Lemma act_step a s s' : act a s = Some s' → sample_step s s'.
Proof.
  destruct a as [p created|job|job|job st c|job|ids]; cbn [act].
  - intros [= <-]. apply s_enqueue.
  - destruct (claimRunnerJob _ _ _ _ _ _ _ _) as [[| |j] d] eqn:E; [done..|]. case_decide; [|done].
    subst j. intros [= <-]. by eapply s_claim.
  - destruct (wjobs (db s) !! job) as [row|] eqn:E; [|done]. cbn. case_decide; [|done]. intros [= <-].
    by eapply s_read.
  - destruct (requests s !! job) as [row|] eqn:E; [|done]. cbn [mbind option_bind].
    destruct (normalizeJobStatusUpdate _ _) as [[[x y] z]|] eqn:En; [|done]. cbn [mbind option_bind].
    destruct (applyJobStatus _ _ _ _ _) as [d|] eqn:Ea; [|done]. intros [= <-]. by eapply s_apply.
  - destruct (CancelJob job 60 (db s)) as [d|] eqn:E; [|done]. intros [= <-]. by eapply s_cancel_job.
  - intros [= <-]. apply s_reconcile.
Qed.

Lemma acts_steps l s s' : acts l s = Some s' → rtc sample_step s s'.
Proof.
  revert s. induction l as [|a l IH]; intros s; cbn [acts]; [intros [= <-]; done|].
  destruct (act a s) as [s1|] eqn:E; [|done]. intros H. eapply rtc_l; [by eapply act_step|by apply IH].
Qed.

(** A step that adds no run is orderly, and so is the first. *)
Lemma orderly_dom s s' : dom (runs (db s')) ⊆ dom (runs (db s)) → orderly s s'.
Proof. intros H i r k q Hi Hn. apply elem_of_dom_2, H, elem_of_dom in Hi as [x Hx]. congruence. Qed.

Lemma orderly_start s : orderly start s.
Proof. intros i r k q _ _ Hq. cbn in Hq. by rewrite lookup_empty in Hq. Qed.

Definition final (l : list Action) : System := default start (acts l start).

Lemma final_reachable l : is_Some (acts l start) → rtc sample_step start (final l).
Proof. unfold final. intros [s Hs]. rewrite Hs. by eapply acts_steps. Qed.

(** [deploy] needs [build], which fails. *)
Definition failed_build : list Action :=
  [AEnqueue (push "e1" "" false [job_spec "build" []; job_spec "deploy" ["build"]]) 10;
   AClaim 1; ARead 1; AApply 1 "completed" "failure"].

Lemma approval_gate_witness :
  let s := final (take 2 failed_build) in
  ∃ r, runs (db s) !! 1 = Some r ∧
    ((JobRunning = JobRunning ∨ JobRunning = JobCompleted ∨ is_Some (Some 1)) → dispatchable r = true) ∧
    (run_terminal (RStatus r) = true → true = false).
Proof.
  set (j := default (MkWJob 0 0 0 "" "" None [] "" JobQueued None false 0)
              (wjobs (db (final (take 2 failed_build))) !! 1)).
  apply (approval_gate same_text same_text (final (take 2 failed_build)) 1 j).
  - apply final_reachable. vm_compute. eauto.
  - vm_compute. reflexivity.
Defined.

Lemma one_run_per_event_witness :
  let s := final [AEnqueue (push "e1" "" false [job_spec "a" []]) 10; AEnqueue (push "e1" "" false [job_spec "a" []]) 20] in
  (runs (db s) !! 2 = None ∧ is_Some (runs (db s) !! 1)) ∧ 1 = 1.
Proof.
  split; [split; [vm_compute; reflexivity|vm_compute; eauto]|].
  set (l := [AEnqueue (push "e1" "" false [job_spec "a" []]) 10; AEnqueue (push "e1" "" false [job_spec "a" []]) 20]).
  set (r := default (new_run (push "" "" false []) false "" 0 emptyDB) (runs (db (final l)) !! 1)).
  apply (one_run_per_event same_text same_text (final l) 1 1 r r); try (vm_compute; reflexivity).
  apply final_reachable. vm_compute. eauto.
Defined.

Lemma doomed_jobs_wait_witness :
  Status <$> wjobs (db (final failed_build)) !! 2 = Some JobQueued ∧
  ∀ s' q j', rtc sample_step (final failed_build) s' → q ∈ ({[2]} : gset Z) → wjobs (db s') !! q = Some j' →
  RunnerID j' = None ∧
  (Status j' = JobCancelled ∨
   Status j' = JobQueued ∧ ∃ r, runs (db s') !! JRunID j' = Some r ∧ run_terminal (RStatus r) = false).
Proof.
  split; [vm_compute; reflexivity|].
  apply (doomed_jobs_wait same_text same_text (final failed_build) {[2]}).
  - apply final_reachable. vm_compute. eauto.
  - intros q ->%elem_of_singleton. vm_compute. eauto.
  - intros q j ->%elem_of_singleton Hj. vm_compute in Hj. injection Hj as <-.
    split; [reflexivity|]. right. split; [reflexivity|]. exists 1. eexists.
    split; [vm_compute; reflexivity|]. split; [vm_compute; reflexivity|]. left. reflexivity.
Defined.

(** Two jobs of one run of a group run side by side. *)
Definition two_jobs : list Action :=
  [AEnqueue (push "e1" "prod" false [job_spec "a" []; job_spec "b" []]) 10; AClaim 1; AClaim 2].

Lemma group_exclusion_witness :
  let s := final two_jobs in
  Status <$> wjobs (db s) !! 1 = Some JobRunning ∧ Status <$> wjobs (db s) !! 2 = Some JobRunning ∧ 1 = 1.
Proof.
  split; [vm_compute; reflexivity|]. split; [vm_compute; reflexivity|].
  set (dflt := MkWJob 0 0 0 "" "" None [] "" JobQueued None false 0).
  set (job i := default dflt (wjobs (db (final two_jobs)) !! i)).
  set (r := default (new_run (push "" "" false []) false "" 0 emptyDB) (runs (db (final two_jobs)) !! 1)).
  apply (group_exclusion same_text same_text (final two_jobs) 1 2 (job 1) (job 2) r r);
    try (vm_compute; reflexivity); [|vm_compute; congruence].
  eapply rtc_l; [split; [apply (act_step (nth 0 two_jobs (ARead 0))); reflexivity|apply orderly_start]|].
  eapply rtc_l; [split; [apply (act_step (nth 1 two_jobs (ARead 0))); vm_compute; reflexivity|
    apply orderly_dom, (bool_decide_unpack _); vm_compute; exact I]|].
  eapply rtc_l; [split; [apply (act_step (nth 2 two_jobs (ARead 0))); vm_compute; reflexivity|
    apply orderly_dom, (bool_decide_unpack _); vm_compute; exact I]|].
  apply rtc_refl.
Defined.

(** A transaction that began earlier may commit later: its run is the older one, and the running
    job of the run committed before it is no obstacle to it. *)
Definition late_commit : list Action :=
  [AEnqueue (push "e1" "prod" false [job_spec "a" []]) 20; AClaim 1;
   AEnqueue (push "e2" "prod" false [job_spec "a" []]) 10; AClaim 2].

(** Two runs of one concurrency group have a running job each. *)
Lemma late_commit_runs_both : ∃ s j1 j2 r1 r2,
  rtc sample_step start s ∧ wjobs (db s) !! 1 = Some j1 ∧ wjobs (db s) !! 2 = Some j2 ∧
  busy j1 = true ∧ busy j2 = true ∧ runs (db s) !! JRunID j1 = Some r1 ∧ runs (db s) !! JRunID j2 = Some r2 ∧
  RunRepoID r1 = RunRepoID r2 ∧ ConcurrencyGroup r1 = "prod" ∧ ConcurrencyGroup r2 = "prod" ∧
  JRunID j1 ≠ JRunID j2.
Proof.
  exists (final late_commit). do 4 eexists. split; [apply final_reachable; vm_compute; eauto|].
  repeat (split; [vm_compute; reflexivity|]). vm_compute. congruence.
Qed.

(** A job cancelled while its run waits for approval takes the run out of the queue, whoever approves. *)
Definition cancelled_early : list Action :=
  [AEnqueue (push "e1" "" true [job_spec "a" []; job_spec "b" []]) 10; ACancelJob 1].

(** The run is no longer pending, can be neither approved nor rejected, and its queued job is never handed out. *)
Lemma cancel_before_approval_strands : ∃ s r j,
  rtc sample_step start s ∧ runs (db s) !! 1 = Some r ∧ RStatus r = RunRunning ∧
  wjobs (db s) !! 2 = Some j ∧ Status j = JobQueued ∧
  (∀ c actor d, ApproveRun same_text c 1 actor (db s) ≠ Ok d) ∧
  (∀ actor now d, RejectRun 1 actor now (db s) ≠ Ok d) ∧
  (∀ c labels now, claimable same_text c labels now (db s) j = false).
Proof.
  exists (final cancelled_early). do 2 eexists. split; [apply final_reachable; vm_compute; eauto|].
  do 4 (split; [vm_compute; reflexivity|]). split_and!.
  - intros c actor d. unfold ApproveRun. case_decide; [done|].
    by vm_compute.
  - intros actor now d. unfold RejectRun. case_decide; [done|]. by vm_compute.
  - intros c labels now. unfold claimable. set (r := runs _ !! _). vm_compute in r. subst r. cbv iota beta.
    set (x := dispatchable _). vm_compute in x. subst x. by rewrite !andb_false_r, !andb_false_l.
Qed.

(** A status request whose row was read before the job was cancelled reopens it. *)
Definition stale_status : list Action :=
  [AEnqueue (push "e1" "" false [job_spec "a" []]) 10; AClaim 1; ARead 1; AReconcile [];
   AApply 1 "running" ""].

(** The run is over and its job runs. *)
Lemma stale_status_reopens : ∃ s r j,
  rtc sample_step start s ∧ runs (db s) !! 1 = Some r ∧ RStatus r = RunCompleted ∧
  RConclusion r = Some ConclusionCancelled ∧ wjobs (db s) !! 1 = Some j ∧ Status j = JobRunning.
Proof.
  exists (final stale_status). do 2 eexists. split; [apply final_reachable; vm_compute; eauto|].
  repeat (split; [vm_compute; reflexivity|]). vm_compute. reflexivity.
Qed.

(** A run that waits for an approval, from a workflow file of its own. *)
Definition unapproved (event : string) : EnqueueParams :=
  MkEnqueue 7 ".shithub/workflows/evil.yml" "badc0de" "refs/heads/fix" 9 0 event [job_spec "a" []] true "prod" true true.

(** It cancels the jobs of the approved runs of the group it names. *)
Lemma unapproved_run_cancels : ∃ s r j,
  rtc sample_step start s ∧ runs (db s) !! 2 = Some r ∧ pending r = true ∧ RStatus <$> runs (db s) !! 1 = Some RunRunning ∧
  wjobs (db s) !! 1 = Some j ∧ Status j = JobRunning ∧ CancelRequested j = true.
Proof.
  exists (final [AEnqueue (push "e1" "prod" false [job_spec "a" []]) 10; AClaim 1; AEnqueue (unapproved "e2") 20]).
  do 2 eexists. split; [apply final_reachable; vm_compute; eauto|].
  repeat (split; [vm_compute; reflexivity|]). vm_compute. reflexivity.
Qed.

(** And it keeps the later runs of the group waiting. *)
Lemma unapproved_run_blocks : ∃ s j,
  rtc sample_step start s ∧ pending <$> runs (db s) !! 1 = Some true ∧
  wjobs (db s) !! 2 = Some j ∧ Status j = JobQueued ∧ dispatchable <$> runs (db s) !! JRunID j = Some true ∧
  claimable same_text plain_config [] 50 (db s) j = false.
Proof.
  exists (final [AEnqueue (unapproved "e1") 10; AEnqueue (push "e2" "prod" false [job_spec "a" []]) 20]).
  eexists. split; [apply final_reachable; vm_compute; eauto|].
  repeat (split; [vm_compute; reflexivity|]). vm_compute. reflexivity.
Qed.
