(* ===== verification/Workflow.v ===== *)
(** * Workflow: the parser of workflow files

    internal/actions/workflow: parse.go, types.go, aliases.go.  The YAML library
    ([Decode]) gives a tree of nodes; the code reads of a node its kind, its value and
    its children, and so does the model.  The children of a mapping are pairs of a key
    and a value; mappings and sequences have the empty value, an alias has the name of
    its anchor as value.  [Quote] is strconv.Quote, which only messages use. *)

From S2P Require Import Prelude GoString Trigger Concurrency.
Local Open Scope Z_scope.

(** ** The syntax tree *)

Inductive Node :=
| ZeroNode
| DocumentNode (content : list Node)
| SequenceNode (content : list Node)
| MappingNode (content : list (Node * Node))
| ScalarNode (value : string)
| AliasNode (anchor : string).

Definition NValue (n : Node) : string :=
  match n with ScalarNode v | AliasNode v => v | _ => "" end.

Definition is_scalar (n : Node) : bool := match n with ScalarNode _ => true | _ => false end.

(** ** types.go *)

Inductive Severity := Error | Warning.
#[export] Instance Severity_eq_dec : EqDecision Severity.
Proof. solve_decision. Defined.

Record Diagnostic := MkDiagnostic { DPath : string; Message : string; DSeverity : Severity }.

Inductive PermissionLevel := PermissionNone | PermissionRead | PermissionWrite.

Record Permissions := MkPermissions { Mode : string; Per : gmap string PermissionLevel }.

Record Environment := MkEnvironment { EnvironmentName : string; URL : string }.

(** A [Value] is its raw text, a nil map the empty one. *)
Record Step := MkStep {
  ID : string; StepName : string; StepIf : string; Run : string; Uses : string;
  With : gmap string string; WorkingDirectory : string; StepEnv : gmap string string;
  ContinueOnError : bool
}.

Record Job := MkJob {
  Key : string; JobName : string; RunsOn : string; Needs : list string; JobIf : string;
  TimeoutMinutes : Z; JobPermissions : Permissions; JobEnvironment : Environment;
  JobEnv : gmap string string; Steps : list Step
}.

Record Workflow := MkWorkflow {
  Name : string; On : TriggerSet; WPermissions : Permissions; Env : gmap string string;
  WConcurrency : ConcurrencySpec; Jobs : list Job
}.

Definition MaxWorkflowFileBytes : nat := 64 * 1024.
Definition MaxYAMLAliases : Z := 100.

Definition no_permissions : Permissions := MkPermissions "" ∅.
Definition no_environment : Environment := MkEnvironment "" "".
Definition no_triggers : TriggerSet := MkTriggerSet None None [] None.
Definition empty_workflow : Workflow :=
  MkWorkflow "" no_triggers no_permissions ∅ (MkConcurrencySpec "" false) [].

(** ** aliases.go *)

Definition AllowedUsesAliases : list string :=
  ["actions/checkout@v4"; "actions/setup-python@v5"; "shithub/upload-artifact@v1";
   "shithub/download-artifact@v1"].

Definition IsAllowedUses (ref : string) : bool := bool_decide (ref ∈ AllowedUsesAliases).

(** ** Helpers of parse.go *)

(** The expression [identRe] of parse.go: letters, digits, underscores and dashes, not starting with a
    digit or a dash. *)
Definition ident_char (c : ascii) : bool :=
  let b := byte c in
  ((65 <=? b) && (b <=? 90)) || ((97 <=? b) && (b <=? 122)) || ((48 <=? b) && (b <=? 57)) ||
  (b =? 95) || (b =? 45).

Definition ident_start (c : ascii) : bool :=
  let b := byte c in
  ((65 <=? b) && (b <=? 90)) || ((97 <=? b) && (b <=? 122)) || (b =? 95).

Definition identRe (s : string) : bool :=
  match s with
  | EmptyString => false
  | String c s => ident_start c && str_forallb ident_char s
  end.

Definition errAt (path msg : string) : Diagnostic := MkDiagnostic path msg Error.

Definition hasError (ds : list Diagnostic) : bool :=
  existsb (fun d => bool_decide (DSeverity d = Error)) ds.

(** strconv.ParseBool. *)
Definition ParseBool (s : string) : option bool :=
  if decide (s ∈ ["1"; "t"; "T"; "true"; "TRUE"; "True"]) then Some true
  else if decide (s ∈ ["0"; "f"; "F"; "false"; "FALSE"; "False"]) then Some false
  else None.

(** strconv.Atoi: decimal digits after at most one sign, within 64 bits. *)
Fixpoint digits_value (s : string) (acc : Z) : option Z :=
  match s with
  | EmptyString => Some acc
  | String c s =>
      let b := byte c in
      if (48 <=? b) && (b <=? 57) then digits_value s (acc * 10 + (b - 48)) else None
  end.

Definition Atoi (s : string) : option Z :=
  let '(sign, digits) :=
    match s with
    | String "-" d => (-1, d)
    | String "+" d => (1, d)
    | d => (1, d)
    end in
  if decide (digits = "") then None
  else
    n ← digits_value digits 0;
    let v := sign * n in
    if bool_decide (- 2 ^ 63 ≤ v < 2 ^ 63) then Some v else None.

(** A loop over the pairs of a mapping that collects diagnostics. *)
Fixpoint over_pairs {A} (f : string → Node → A → A * list Diagnostic) (l : list (Node * Node)) (s : A)
  : A * list Diagnostic :=
  match l with
  | [] => (s, [])
  | (k, v) :: l =>
      let '(s, ds) := f (NValue k) v s in
      let '(s, ds') := over_pairs f l s in (s, ds ++ ds')
  end.

(** A loop over the items of a sequence, with their index. *)
Fixpoint over_items_from {A} (i : nat) (f : nat → Node → A → A * list Diagnostic) (l : list Node) (s : A)
  : A * list Diagnostic :=
  match l with
  | [] => (s, [])
  | n :: l =>
      let '(s, ds) := f i n s in
      let '(s, ds') := over_items_from (S i) f l s in (s, ds ++ ds')
  end.

Definition over_items {A} : (nat → Node → A → A * list Diagnostic) → list Node → A → A * list Diagnostic :=
  over_items_from 0.

(** ** The alias guard *)

Section Children.
Variable count_child : Node → Z.

(** The loop of [countAliases] over the children, which stops past the limit. *)
Fixpoint count_items (l : list Node) (count : Z) : Z :=
  match l with
  | [] => count
  | c :: l =>
      let count := count + count_child c in
      if MaxYAMLAliases <? count then count else count_items l count
  end.

Fixpoint count_pairs (l : list (Node * Node)) (count : Z) : Z :=
  match l with
  | [] => count
  | (k, v) :: l =>
      let count := count + count_child k in
      if MaxYAMLAliases <? count then count
      else
        let count := count + count_child v in
        if MaxYAMLAliases <? count then count else count_pairs l count
  end.
End Children.

Fixpoint countAliases (n : Node) (depth : Z) : Z :=
  if 100 <? depth then 0
  else
    match n with
    | DocumentNode l | SequenceNode l => count_items (fun c => countAliases c (depth + 1)) l 0
    | MappingNode l => count_pairs (fun c => countAliases c (depth + 1)) l 0
    | AliasNode _ => 1
    | ZeroNode | ScalarNode _ => 0
    end.

Section Parser.
  Variable Quote : string → string.

Definition joinPath (parent key : string) : string :=
  if identRe key then parent +:+ "." +:+ key else parent +:+ "[" +:+ Quote key +:+ "]".

Definition scalarList (n : Node) (path : string) : list string * list Diagnostic :=
  match n with
  | ScalarNode v => ([v], [])
  | SequenceNode l =>
      over_items (fun _ item out =>
        match item with
        | ScalarNode v => (out ++ [v], [])
        | _ => (out, [errAt path "list items must be scalars"])
        end) l []
  | _ => ([], [errAt path "must be a string or sequence of strings"])
  end.

Definition parseBool (n : Node) (path : string) : bool * list Diagnostic :=
  match n with
  | ScalarNode v =>
      match ParseBool v with
      | Some b => (b, [])
      | None => (false, [errAt path ("boolean value must be true or false (got " +:+ Quote v +:+ ")")])
      end
  | _ => (false, [errAt path "must be a scalar boolean"])
  end.

(** ** on: *)

Definition applyEventName (name path : string) (ts : TriggerSet) : TriggerSet * list Diagnostic :=
  if decide (name = "push") then
    (MkTriggerSet (Some (default (MkPush [] [] []) (Push ts))) (PullRequest ts) (Schedule ts)
       (WorkflowDispatch ts), [])
  else if decide (name = "pull_request") then
    (MkTriggerSet (Push ts) (Some (default (MkPullRequest [] [] []) (PullRequest ts))) (Schedule ts)
       (WorkflowDispatch ts), [])
  else if decide (name = "workflow_dispatch") then
    (MkTriggerSet (Push ts) (PullRequest ts) (Schedule ts) (Some (default [] (WorkflowDispatch ts))), [])
  else (ts, [errAt path ("unknown event " +:+ Quote name +:+
    " (allowed: push, pull_request, workflow_dispatch — schedule requires the mapping form)")]).

(** A trigger may be left empty: [on: { push: }]. *)
Definition empty_scalar (n : Node) : bool :=
  match n with ScalarNode v => bool_decide (v = "") | _ => false end.

Definition parsePushTrigger (n : Node) : PushTrigger * list Diagnostic :=
  if empty_scalar n then (MkPush [] [] [], [])
  else
    match n with
    | MappingNode l =>
        over_pairs (fun k v pt =>
          if decide (k = "branches") then
            let '(x, ds) := scalarList v "on.push.branches" in (MkPush x (Tags pt) (Paths pt), ds)
          else if decide (k = "tags") then
            let '(x, ds) := scalarList v "on.push.tags" in (MkPush (Branches pt) x (Paths pt), ds)
          else if decide (k = "paths") then
            let '(x, ds) := scalarList v "on.push.paths" in (MkPush (Branches pt) (Tags pt) x, ds)
          else (pt, [errAt ("on.push." +:+ k) "unknown push filter (allowed: branches, tags, paths)"]))
          l (MkPush [] [] [])
    | _ => (MkPush [] [] [], [errAt "on.push" "must be a mapping"])
    end.

Definition parsePullRequestTrigger (n : Node) : PullRequestTrigger * list Diagnostic :=
  if empty_scalar n then (MkPullRequest [] [] [], [])
  else
    match n with
    | MappingNode l =>
        over_pairs (fun k v pt =>
          if decide (k = "types") then
            let '(x, ds) := scalarList v "on.pull_request.types" in
            (MkPullRequest x (PRBranches pt) (PRPaths pt), ds)
          else if decide (k = "branches") then
            let '(x, ds) := scalarList v "on.pull_request.branches" in
            (MkPullRequest (Types pt) x (PRPaths pt), ds)
          else if decide (k = "paths") then
            let '(x, ds) := scalarList v "on.pull_request.paths" in
            (MkPullRequest (Types pt) (PRBranches pt) x, ds)
          else (pt, [errAt ("on.pull_request." +:+ k) "unknown filter (allowed: types, branches, paths)"]))
          l (MkPullRequest [] [] [])
    | _ => (MkPullRequest [] [] [], [errAt "on.pull_request" "must be a mapping"])
    end.

Definition schedule_path (i : nat) : string := "on.schedule[" +:+ pretty i +:+ "]".

Definition parse_cron (i : nat) (l : list (Node * Node)) : string * list Diagnostic :=
  over_pairs (fun k v cron =>
    if decide (k = "cron") then
      match v with
      | ScalarNode c => (c, [])
      | _ => (cron, [errAt (schedule_path i +:+ ".cron") "must be a scalar cron expression"])
      end
    else (cron, [errAt (schedule_path i +:+ "." +:+ k) "unknown schedule key (allowed: cron)"]))
    l "".

Definition parseScheduleTriggers (n : Node) : list string * list Diagnostic :=
  match n with
  | SequenceNode l =>
      over_items (fun i entry out =>
        match entry with
        | MappingNode l =>
            let '(cron, ds) := parse_cron i l in
            if decide (cron = "") then
              (out, ds ++ [errAt (schedule_path i) "missing required cron expression"])
            else (out ++ [cron], ds)
        | _ => (out, [errAt (schedule_path i) "must be a mapping with a `cron:` key"])
        end) l []
  | _ => ([], [errAt "on.schedule" "must be a sequence of cron entries"])
  end.

Definition parse_input (name : string) (l : list (Node * Node)) : DispatchInput * list Diagnostic :=
  let at_ k := "on.workflow_dispatch.inputs." +:+ name +:+ k in
  over_pairs (fun k v i =>
    let 'MkDispatchInput n d t df r o := i in
    if decide (k = "description") then (MkDispatchInput n (NValue v) t df r o, [])
    else if decide (k = "type") then (MkDispatchInput n d (NValue v) df r o, [])
    else if decide (k = "default") then (MkDispatchInput n d t (NValue v) r o, [])
    else if decide (k = "required") then
      let '(b, ds) := parseBool v (at_ ".required") in (MkDispatchInput n d t df b o, ds)
    else if decide (k = "options") then
      let '(x, ds) := scalarList v (at_ ".options") in (MkDispatchInput n d t df r x, ds)
    else (i, [errAt (at_ ("." +:+ k)) "unknown input key"]))
    l (MkDispatchInput name "" "" "" false []).

Definition default_type (i : DispatchInput) : DispatchInput :=
  if decide (InputType i = "")
  then MkDispatchInput (InputName i) (Description i) "string" (Default i) (Required i) (Options i) else i.

Definition parseDispatchInputs (n : Node) : list DispatchInput * list Diagnostic :=
  match n with
  | MappingNode l =>
      over_pairs (fun name spec out =>
        match spec with
        | MappingNode l => let '(i, ds) := parse_input name l in (out ++ [default_type i], ds)
        | _ => (out, [errAt ("on.workflow_dispatch.inputs." +:+ name) "must be a mapping"])
        end) l []
  | _ => ([], [errAt "on.workflow_dispatch.inputs" "must be a mapping of input-name → spec"])
  end.

Definition parseDispatchTrigger (n : Node) : list DispatchInput * list Diagnostic :=
  if empty_scalar n then ([], [])
  else
    match n with
    | MappingNode l =>
        over_pairs (fun k v inputs =>
          if decide (k = "inputs") then parseDispatchInputs v
          else (inputs, [errAt ("on.workflow_dispatch." +:+ k) "unknown dispatch key (allowed: inputs)"]))
          l []
    | _ => ([], [errAt "on.workflow_dispatch" "must be a mapping"])
    end.

Definition on_key (k : string) (v : Node) (ts : TriggerSet) : TriggerSet * list Diagnostic :=
  let 'MkTriggerSet p pr s w := ts in
  if decide (k = "push") then
    let '(x, ds) := parsePushTrigger v in (MkTriggerSet (Some x) pr s w, ds)
  else if decide (k = "pull_request") then
    let '(x, ds) := parsePullRequestTrigger v in (MkTriggerSet p (Some x) s w, ds)
  else if decide (k = "schedule") then
    let '(x, ds) := parseScheduleTriggers v in (MkTriggerSet p pr x w, ds)
  else if decide (k = "workflow_dispatch") then
    let '(x, ds) := parseDispatchTrigger v in (MkTriggerSet p pr s (Some x), ds)
  else (ts, [errAt ("on." +:+ k)
    "unknown event type (allowed: push, pull_request, schedule, workflow_dispatch)"]).

Definition parseOn (n : Node) : TriggerSet * list Diagnostic :=
  match n with
  | ScalarNode v => applyEventName v "on" no_triggers
  | SequenceNode l =>
      over_items (fun _ item ts =>
        match item with
        | ScalarNode v => applyEventName v "on" ts
        | _ => (ts, [errAt "on" "list items must be event names"])
        end) l no_triggers
  | MappingNode l => over_pairs on_key l no_triggers
  | _ => (no_triggers, [errAt "on" "must be a string, sequence, or mapping"])
  end.

(** ** permissions:, env:, concurrency:, environment: *)

Definition permission_level (v : string) : option PermissionLevel :=
  if decide (v = "none") then Some PermissionNone
  else if decide (v = "read") then Some PermissionRead
  else if decide (v = "write") then Some PermissionWrite else None.

Definition parsePermissions (n : Node) (path : string) : Permissions * list Diagnostic :=
  match n with
  | ScalarNode v =>
      if decide (v ∈ ["read-all"; "write-all"; "none"]) then (MkPermissions v ∅, [])
      else (no_permissions, [errAt path "unknown shorthand (allowed: read-all, write-all, none)"])
  | MappingNode l =>
      over_pairs (fun k v p =>
        match permission_level (NValue v) with
        | Some lvl => (MkPermissions (Mode p) (<[k := lvl]> (Per p)), [])
        | None => (p, [errAt (path +:+ "." +:+ k) "permission level must be none, read, or write"])
        end) l no_permissions
  | _ => (no_permissions, [errAt path "must be a shorthand string or a mapping"])
  end.

Definition parseEnv (n : Node) (path : string) : gmap string string * list Diagnostic :=
  match n with
  | MappingNode l =>
      over_pairs (fun k v (out : gmap string string) =>
        match v with
        | ScalarNode x => (<[k := x]> out, [])
        | _ => (out, [errAt (joinPath path k) "env values must be scalars"])
        end) l ∅
  | _ => (∅, [errAt path "must be a mapping"])
  end.

Definition parseConcurrency (n : Node) (path : string) : ConcurrencySpec * list Diagnostic :=
  match n with
  | ScalarNode v => (MkConcurrencySpec v false, [])
  | MappingNode l =>
      over_pairs (fun k v c =>
        if decide (k = "group") then (MkConcurrencySpec (NValue v) (CancelInProgress c), [])
        else if decide (k = "cancel-in-progress") then
          let '(b, ds) := parseBool v (path +:+ ".cancel-in-progress") in
          (MkConcurrencySpec (Group c) b, ds)
        else (c, [errAt (path +:+ "." +:+ k) "unknown concurrency key (allowed: group, cancel-in-progress)"]))
        l (MkConcurrencySpec "" false)
  | _ => (MkConcurrencySpec "" false, [errAt path "must be a string or mapping"])
  end.

Definition environment_checks (env : Environment) (path : string) : list Diagnostic :=
  (if decide (EnvironmentName env = "") then [errAt path "environment name is required"] else []) ++
  (if decide (255 < String.length (EnvironmentName env))%nat
   then [errAt path "environment name must be 255 characters or fewer"] else []) ++
  (if decide (2048 < String.length (URL env))%nat
   then [errAt (path +:+ ".url") "environment url must be 2048 characters or fewer"] else []).

Definition environment_key (path k : string) (v : Node) (env : Environment)
  : Environment * list Diagnostic :=
  if decide (k = "name") then
    match v with
    | ScalarNode x => (MkEnvironment x (URL env), [])
    | _ => (env, [errAt (path +:+ ".name") "environment name must be a scalar"])
    end
  else if decide (k = "url") then
    match v with
    | ScalarNode x => (MkEnvironment (EnvironmentName env) x, [])
    | _ => (env, [errAt (path +:+ ".url") "environment url must be a scalar"])
    end
  else (env, [errAt (path +:+ "." +:+ k) "unknown environment key (allowed: name, url)"]).

Definition parseJobEnvironment (n : Node) (path : string) : Environment * list Diagnostic :=
  match n with
  | ScalarNode v =>
      let env := MkEnvironment v "" in (env, environment_checks env path)
  | MappingNode l =>
      let '(env, ds) := over_pairs (environment_key path) l no_environment in
      (env, ds ++ environment_checks env path)
  | _ => (no_environment, [errAt path "must be a scalar name or a mapping with name/url"])
  end.

(** ** steps: *)

Definition step_key (stepPath k : string) (v : Node) (s : Step) : Step * list Diagnostic :=
  let path := stepPath +:+ "." +:+ k in
  let 'MkStep id name cond run uses with_ wd env cont := s in
  if decide (k = "id") then
    (MkStep (NValue v) name cond run uses with_ wd env cont,
     if bool_decide (NValue v ≠ "") && negb (identRe (NValue v))
     then [errAt path ("step id must match ^[A-Za-z_][A-Za-z0-9_-]*$ (got " +:+ Quote (NValue v) +:+ ")")]
     else [])
  else if decide (k = "name") then (MkStep id (NValue v) cond run uses with_ wd env cont, [])
  else if decide (k = "if") then (MkStep id name (NValue v) run uses with_ wd env cont, [])
  else if decide (k = "run") then (MkStep id name cond (NValue v) uses with_ wd env cont, [])
  else if decide (k = "uses") then (MkStep id name cond run (NValue v) with_ wd env cont, [])
  else if decide (k = "with") then
    let '(x, ds) := parseEnv v path in (MkStep id name cond run uses x wd env cont, ds)
  else if decide (k = "working-directory") then
    (MkStep id name cond run uses with_ (NValue v) env cont, [])
  else if decide (k = "env") then
    let '(x, ds) := parseEnv v path in (MkStep id name cond run uses with_ wd x cont, ds)
  else if decide (k = "continue-on-error") then
    let '(b, ds) := parseBool v path in (MkStep id name cond run uses with_ wd env b, ds)
  else (s, [errAt path
    "unknown step key (allowed: id, name, if, run, uses, with, working-directory, env, continue-on-error)"]).

Definition step_checks (s : Step) (stepPath : string) : list Diagnostic :=
  (if decide (Run s = "" ∧ Uses s = "")
   then [errAt stepPath "step must have either `run:` or `uses:`"] else []) ++
  (if decide (Run s ≠ "" ∧ Uses s ≠ "")
   then [errAt stepPath "step cannot have both `run:` and `uses:`"] else []) ++
  (if bool_decide (Uses s ≠ "") && negb (IsAllowedUses (Uses s))
   then [errAt (stepPath +:+ ".uses") ("unsupported `uses:` reference; v1 supports only " +:+
     "actions/checkout@v4, actions/setup-python@v5, " +:+
     "shithub/upload-artifact@v1, shithub/download-artifact@v1")] else []).

Definition empty_step : Step := MkStep "" "" "" "" "" ∅ "" ∅ false.

Definition parseStep (idx : nat) (n : Node) (jobPath : string) : Step * list Diagnostic :=
  let stepPath := jobPath +:+ ".steps[" +:+ pretty idx +:+ "]" in
  match n with
  | MappingNode l =>
      let '(s, ds) := over_pairs (step_key stepPath) l empty_step in (s, ds ++ step_checks s stepPath)
  | _ => (empty_step, [errAt stepPath "step must be a mapping"])
  end.

Definition parseSteps (n : Node) (jobPath : string) : list Step * list Diagnostic :=
  match n with
  | SequenceNode l =>
      over_items (fun idx item steps =>
        let '(s, ds) := parseStep idx item jobPath in (steps ++ [s], ds)) l []
  | _ => ([], [errAt (jobPath +:+ ".steps") "must be a sequence"])
  end.

(** ** jobs: *)

(** The only range [timeout-minutes] may have. *)
Definition timeout_minutes (v : string) : option Z :=
  n ← Atoi v; if (n <? 1) || (4320 <? n) then None else Some n.

Definition job_key (key k : string) (v : Node) (j : Job) : Job * list Diagnostic :=
  let path := "jobs." +:+ key +:+ "." +:+ k in
  let 'MkJob k0 name runs_on needs cond timeout perms environment env steps := j in
  if decide (k = "name") then (MkJob k0 (NValue v) runs_on needs cond timeout perms environment env steps, [])
  else if decide (k = "runs-on") then
    (MkJob k0 name (NValue v) needs cond timeout perms environment env steps, [])
  else if decide (k = "needs") then
    let '(x, ds) := match v with ScalarNode x => ([x], []) | _ => scalarList v path end in
    (MkJob k0 name runs_on x cond timeout perms environment env steps, ds)
  else if decide (k = "if") then
    (MkJob k0 name runs_on needs (NValue v) timeout perms environment env steps, [])
  else if decide (k = "timeout-minutes") then
    match timeout_minutes (NValue v) with
    | Some n => (MkJob k0 name runs_on needs cond n perms environment env steps, [])
    | None => (j, [errAt path "timeout-minutes must be an integer 1-4320"])
    end
  else if decide (k = "permissions") then
    let '(x, ds) := parsePermissions v path in
    (MkJob k0 name runs_on needs cond timeout x environment env steps, ds)
  else if decide (k = "environment") then
    let '(x, ds) := parseJobEnvironment v path in
    (MkJob k0 name runs_on needs cond timeout perms x env steps, ds)
  else if decide (k = "env") then
    let '(x, ds) := parseEnv v path in
    (MkJob k0 name runs_on needs cond timeout perms environment x steps, ds)
  else if decide (k = "steps") then
    let '(x, ds) := parseSteps v ("jobs." +:+ key) in
    (MkJob k0 name runs_on needs cond timeout perms environment env x, ds)
  else (j, [errAt path ("unknown job key (allowed: name, runs-on, needs, if, timeout-minutes, " +:+
    "permissions, environment, env, steps)")]).

Definition job_checks (key : string) (j : Job) : list Diagnostic :=
  (if decide (RunsOn j = "") then [errAt ("jobs." +:+ key) "job missing required `runs-on:`"] else []) ++
  (if decide (Steps j = []) then [errAt ("jobs." +:+ key) "job has no steps"] else []).

Definition empty_job (key : string) : Job :=
  MkJob key "" "" [] "" 360 no_permissions no_environment ∅ [].

Definition parseJob (key : string) (n : Node) : Job * list Diagnostic :=
  let bad_key :=
    if identRe key then []
    else [errAt ("jobs." +:+ key)
            ("job key must match ^[A-Za-z_][A-Za-z0-9_-]*$ (got " +:+ Quote key +:+ ")")] in
  match n with
  | MappingNode l =>
      let '(j, ds) := over_pairs (job_key key) l (empty_job key) in (j, bad_key ++ ds ++ job_checks key j)
  | _ => (empty_job key, bad_key ++ [errAt ("jobs." +:+ key) "job spec must be a mapping"])
  end.

Definition parseJobs (n : Node) : list Job * list Diagnostic :=
  match n with
  | MappingNode l =>
      over_pairs (fun key v jobs => let '(j, ds) := parseJob key v in (jobs ++ [j], ds)) l []
  | _ => ([], [errAt "jobs" "must be a mapping of job-key → job-spec"])
  end.

(** ** Parse *)

Definition workflow_key (k : string) (v : Node) (w : Workflow) : Workflow * list Diagnostic :=
  let 'MkWorkflow name on perms env conc jobs := w in
  if decide (k = "name") then
    match v with
    | ScalarNode x => (MkWorkflow x on perms env conc jobs, [])
    | _ => (w, [errAt "name" "must be a scalar string"])
    end
  else if decide (k = "on") then
    let '(x, ds) := parseOn v in (MkWorkflow name x perms env conc jobs, ds)
  else if decide (k = "permissions") then
    let '(x, ds) := parsePermissions v "permissions" in (MkWorkflow name on x env conc jobs, ds)
  else if decide (k = "env") then
    let '(x, ds) := parseEnv v "env" in (MkWorkflow name on perms x conc jobs, ds)
  else if decide (k = "concurrency") then
    let '(x, ds) := parseConcurrency v "concurrency" in (MkWorkflow name on perms env x jobs, ds)
  else if decide (k = "jobs") then
    let '(x, ds) := parseJobs v in (MkWorkflow name on perms env conc x, ds)
  else (w, [errAt k
    "unknown top-level key (allowed: name, on, permissions, env, concurrency, jobs)"]).

Definition triggerSetIsNonEmpty (ts : TriggerSet) : bool :=
  bool_decide (is_Some (Push ts)) || bool_decide (is_Some (PullRequest ts)) ||
  bool_decide (Schedule ts ≠ []) || bool_decide (is_Some (WorkflowDispatch ts)).

Inductive ParseErr :=
| ErrTooLarge | ErrDecode (msg : string) | ErrEmpty | ErrNonDocument | ErrNonMapping | ErrTooManyAliases.

Definition fatal (path : string) (msg : string) (e : ParseErr)
  : option Workflow * list Diagnostic * option ParseErr :=
  (None, [errAt path msg], Some e).

Definition parse_root (l : list (Node * Node)) : option Workflow * list Diagnostic :=
  let '(w, ds) := over_pairs workflow_key l empty_workflow in
  let ds := if bool_decide (Jobs w = []) && negb (hasError ds)
            then ds ++ [errAt "jobs" "workflow must declare at least one job"] else ds in
  let ds := if negb (triggerSetIsNonEmpty (On w)) && negb (hasError ds)
            then ds ++ [errAt "on" "workflow must declare at least one trigger"] else ds in
  (if hasError ds then None else Some w, ds).

(** [Decode] is the decoder of the YAML library, an error its message. *)
Definition Parse (Decode : string → res string Node) (src : string)
  : option Workflow * list Diagnostic * option ParseErr :=
  if (MaxWorkflowFileBytes <? String.length src)%nat then
    fatal "" ("workflow file is " +:+ pretty (String.length src) +:+ " bytes; limit is " +:+
              pretty MaxWorkflowFileBytes) ErrTooLarge
  else
    match Decode src with
    | Err e => fatal "" ("YAML decode: " +:+ e) (ErrDecode e)
    | Ok ZeroNode => fatal "" "workflow file is empty" ErrEmpty
    | Ok (DocumentNode [MappingNode l as root]) =>
        let aliases := countAliases root 0 in
        if MaxYAMLAliases <? aliases then
          fatal "" ("workflow has " +:+ pretty aliases +:+ " alias references; limit is " +:+
                    pretty MaxYAMLAliases) ErrTooManyAliases
        else (parse_root l, None)
    | Ok (DocumentNode _) => fatal "" "workflow must be a YAML mapping at the top level" ErrNonMapping
    | Ok _ => fatal "" "expected YAML document at root" ErrNonDocument
    end.

End Parser.
