(* ===== verification/WorkflowFacts.v ===== *)
(** * WorkflowFacts: which workflow files are accepted, and as what *)

From S2P Require Import Prelude GoString Trigger Concurrency Workflow.
Local Open Scope Z_scope.

(** ** Loops *)

(** What a step of a loop keeps as long as it reports nothing. *)
Lemma over_pairs_inv {A} (P : A → Prop) f l s s' :
  (∀ k v s s', P s → f k v s = (s', []) → P s') → P s → over_pairs f l s = (s', []) → P s'.
Proof.
  intros Hf. revert s. induction l as [|[k v] l IH]; intros s Hs; cbn; [by intros [= <-]|].
  destruct (f (NValue k) v s) as [s1 d1] eqn:E. destruct (over_pairs f l s1) as [s2 d2] eqn:E2.
  intros [= <- [-> ->]%app_nil]. apply (IH s1); [|done]. by eapply Hf.
Qed.

Lemma over_items_inv {A} (P : A → Prop) f l s s' :
  (∀ i v s s', P s → f i v s = (s', []) → P s') → P s → over_items f l s = (s', []) → P s'.
Proof.
  intros Hf. unfold over_items. generalize 0%nat. revert s. induction l as [|v l IH]; intros s i Hs; cbn; [by intros [= <-]|].
  destruct (f i v s) as [s1 d1] eqn:E. destruct (over_items_from (S i) f l s1) as [s2 d2] eqn:E2.
  intros [= <- [-> ->]%app_nil]. apply (IH s1 (S i)); [|done]. by eapply Hf.
Qed.

Definition all_errors (ds : list Diagnostic) : Prop := Forall (fun d => DSeverity d = Error) ds.

Lemma all_errors_hasError ds : all_errors ds → hasError ds = bool_decide (ds ≠ []).
Proof.
  intros H. destruct H as [|d ds Hd Hds]; [done|]. cbn. rewrite Hd. done.
Qed.

Lemma over_pairs_errors {A} f l (s : A) :
  (∀ k v s, all_errors (f k v s).2) → all_errors (over_pairs f l s).2.
Proof.
  intros Hf. revert s. induction l as [|[k v] l IH]; intros s; [constructor|]. cbn.
  pose proof (Hf (NValue k) v s) as H1. destruct (f (NValue k) v s) as [s1 d1]. specialize (IH s1).
  destruct (over_pairs f l s1) as [s2 d2]. by apply Forall_app.
Qed.

Lemma over_items_errors {A} f l (s : A) :
  (∀ i v s, all_errors (f i v s).2) → all_errors (over_items f l s).2.
Proof.
  intros Hf. unfold over_items. generalize 0%nat. revert s. induction l as [|v l IH]; intros s i; [constructor|]. cbn.
  pose proof (Hf i v s) as H1. destruct (f i v s) as [s1 d1]. specialize (IH s1 (S i)).
  destruct (over_items_from (S i) f l s1) as [s2 d2]. by apply Forall_app.
Qed.

Create HintDb errs.

(** One diagnostic, none, or those of a part. *)
Ltac errors :=
  repeat first
    [ done
    | progress cbn [snd fst]
    | apply over_pairs_errors; intros ? ? ?
    | apply over_items_errors; intros ? ? ?
    | apply Forall_nil_2
    | apply Forall_cons_2; [reflexivity|]
    | apply Forall_app_2
    | solve [auto with errs]
    | case_decide
    | match goal with
      | |- context [let '(_, _) := ?x in _] =>
          let H := fresh in
          assert (H : all_errors x.2) by errors; destruct x; cbn [snd] in H
      | |- context [match ?x with _ => _ end] => destruct x
      end ].

(** ** The alias guard *)

Section NodeInd.
  Context (P : Node → Prop).
  Hypothesis (HZ : P ZeroNode) (HD : ∀ l, Forall P l → P (DocumentNode l)).
  Hypothesis (HS : ∀ l, Forall P l → P (SequenceNode l)).
  Hypothesis (HM : ∀ l, Forall (fun kv => P kv.1 ∧ P kv.2) l → P (MappingNode l)).
  Hypothesis (HV : ∀ v, P (ScalarNode v)) (HA : ∀ v, P (AliasNode v)).

Fixpoint Node_nested_ind (n : Node) : P n :=
  match n with
  | ZeroNode => HZ
  | DocumentNode l =>
      HD l ((fix go l := match l return Forall P l with
        | [] => Forall_nil_2 _ | n :: l => Forall_cons_2 _ _ _ (Node_nested_ind n) (go l) end) l)
  | SequenceNode l =>
      HS l ((fix go l := match l return Forall P l with
        | [] => Forall_nil_2 _ | n :: l => Forall_cons_2 _ _ _ (Node_nested_ind n) (go l) end) l)
  | MappingNode l =>
      HM l ((fix go l := match l return Forall (fun kv => P kv.1 ∧ P kv.2) l with
        | [] => Forall_nil_2 _
        | (k, v) :: l => Forall_cons_2 _ (k, v) l (conj (Node_nested_ind k) (Node_nested_ind v)) (go l) end) l)
  | ScalarNode v => HV v
  | AliasNode v => HA v
  end.
End NodeInd.

Definition sumZ : list Z → Z := foldr Z.add 0.

(** The alias nodes at most a hundred levels below. *)
Fixpoint aliases (n : Node) (depth : Z) : Z :=
  if 100 <? depth then 0
  else
    match n with
    | DocumentNode l | SequenceNode l => sumZ (map (fun c => aliases c (depth + 1)) l)
    | MappingNode l => sumZ (map (fun kv => aliases kv.1 (depth + 1) + aliases kv.2 (depth + 1)) l)
    | AliasNode _ => 1
    | ZeroNode | ScalarNode _ => 0
    end.

(** Equal, or both past the limit. *)
Definition capped (x y : Z) : Prop := 0 ≤ y ∧ (x = y ∨ (MaxYAMLAliases < x ∧ MaxYAMLAliases < y)).

Lemma sumZ_nonneg {A} (g : A → Z) l : Forall (fun x => 0 ≤ g x) l → 0 ≤ sumZ (map g l).
Proof. induction 1; cbn; lia. Qed.

Lemma count_items_capped f g l c :
  Forall (fun n => capped (f n) (g n)) l → 0 ≤ c ≤ MaxYAMLAliases →
  capped (count_items f l c) (c + sumZ (map g l)).
Proof.
  intros Hl. revert c. induction Hl as [|n l [Hn Hf] Hl IH]; intros c Hc; cbn -[MaxYAMLAliases].
  - unfold capped. lia.
  - assert (0 ≤ sumZ (map g l)) by (apply sumZ_nonneg; eapply Forall_impl; [done|by intros ? [? _]]).
    destruct (MaxYAMLAliases <? c + f n) eqn:E.
    + unfold capped. lia.
    + rewrite Z.add_assoc. replace (c + g n) with (c + f n) by lia. apply IH. lia.
Qed.

Lemma count_pairs_capped f g l c :
  Forall (fun kv => capped (f kv.1) (g kv.1) ∧ capped (f kv.2) (g kv.2)) l → 0 ≤ c ≤ MaxYAMLAliases →
  capped (count_pairs f l c) (c + sumZ (map (fun kv => g kv.1 + g kv.2) l)).
Proof.
  intros Hl. revert c. induction Hl as [|[k v] l [[Hk Hfk] [Hv Hfv]] Hl IH]; intros c Hc; cbn -[MaxYAMLAliases] in *.
  - unfold capped. lia.
  - assert (0 ≤ sumZ (map (fun kv => g kv.1 + g kv.2) l)).
    { apply sumZ_nonneg. eapply Forall_impl; [done|]. intros x [[? _] [? _]]. lia. }
    destruct (MaxYAMLAliases <? c + f k) eqn:E; [unfold capped; lia|].
    destruct (MaxYAMLAliases <? c + f k + f v) eqn:E2; [unfold capped; lia|].
    rewrite Z.add_assoc, Z.add_assoc. replace (c + g k + g v) with (c + f k + f v) by lia. apply IH. lia.
Qed.

Lemma countAliases_capped n : ∀ depth, capped (countAliases n depth) (aliases n depth).
Proof.
  induction n as [|l Hl|l Hl|l Hl|v|v] using Node_nested_ind; intros depth; cbn -[MaxYAMLAliases];
    (destruct (100 <? depth); [split; [done|by left]|]).
  1, 5, 6: by split; [lia|left].
  - rewrite <-(Z.add_0_l (sumZ _)). apply count_items_capped; [|unfold MaxYAMLAliases; lia].
    eapply Forall_impl; [done|auto].
  - rewrite <-(Z.add_0_l (sumZ _)). apply count_items_capped; [|unfold MaxYAMLAliases; lia].
    eapply Forall_impl; [done|auto].
  - rewrite <-(Z.add_0_l (sumZ _)).
    apply (count_pairs_capped (fun c => countAliases c (depth + 1)) (fun c => aliases c (depth + 1)));
      [|unfold MaxYAMLAliases; lia].
    eapply Forall_impl; [done|]. intros kv [? ?]. auto.
Qed.

(** The guard, which stops counting early, refuses exactly the trees with more than a hundred alias
    nodes at most a hundred levels deep. *)
Lemma alias_guard n : MaxYAMLAliases < countAliases n 0 ↔ MaxYAMLAliases < aliases n 0.
Proof. destruct (countAliases_capped n 0) as [_ [->|[? ?]]]; tauto. Qed.

(** All alias nodes, and how deep a tree is. *)
Fixpoint all_aliases (n : Node) : Z :=
  match n with
  | DocumentNode l | SequenceNode l => sumZ (map all_aliases l)
  | MappingNode l => sumZ (map (fun kv => all_aliases kv.1 + all_aliases kv.2) l)
  | AliasNode _ => 1
  | ZeroNode | ScalarNode _ => 0
  end.

Definition maxZ : list Z → Z := foldr Z.max 0.

Fixpoint levels (n : Node) : Z :=
  match n with
  | DocumentNode l | SequenceNode l => 1 + maxZ (map levels l)
  | MappingNode l => 1 + maxZ (map (fun kv => Z.max (levels kv.1) (levels kv.2)) l)
  | AliasNode _ | ZeroNode | ScalarNode _ => 0
  end.

Lemma sumZ_below {A} (f g h : A → Z) (l : list A) (k : Z) :
  Forall (fun x => h x ≤ k → f x = g x) l → maxZ (map h l) ≤ k → sumZ (map f l) = sumZ (map g l).
Proof. induction 1 as [|x l Hx _ IH]; [done|]. cbn. intros Hk. rewrite Hx, IH by lia. done. Qed.

Lemma aliases_shallow n : ∀ depth, depth + levels n ≤ 100 → aliases n depth = all_aliases n.
Proof.
  assert (∀ h depth, 0 ≤ maxZ h → depth + (1 + maxZ h) ≤ 100 → (100 <? depth) = false) as Hd by (intros; lia).
  assert (∀ h, 0 ≤ maxZ h) as Hm by (induction h; cbn; lia).
  induction n as [|l Hl|l Hl|l Hl|v|v] using Node_nested_ind; intros depth H; cbn [aliases all_aliases levels] in *.
  1, 5, 6: by destruct (100 <? depth) eqn:E; [lia|].
  - erewrite Hd; [|apply Hm|done]. eapply (sumZ_below _ _ levels l (100 - (depth + 1))); [|lia].
    eapply Forall_impl; [exact Hl|]. intros n IH Hn. apply IH. lia.
  - erewrite Hd; [|apply Hm|done]. eapply (sumZ_below _ _ levels l (100 - (depth + 1))); [|lia].
    eapply Forall_impl; [exact Hl|]. intros n IH Hn. apply IH. lia.
  - erewrite Hd; [|apply Hm|done].
    eapply (sumZ_below _ _ (fun kv => Z.max (levels kv.1) (levels kv.2)) l (100 - (depth + 1))); [|lia].
    eapply Forall_impl; [exact Hl|]. intros [k v] [IHk IHv] Hn. cbn [fst snd] in *. rewrite IHk, IHv by lia. done.
Qed.

(** What passes the guard: at most a hundred aliases in the first hundred levels, which is all of them only in a tree
    that is no deeper. *)
Definition few_aliases (n : Node) : Prop :=
  aliases n 0 ≤ MaxYAMLAliases ∧ (levels n ≤ 100 → all_aliases n ≤ MaxYAMLAliases).

Lemma guard_few n : countAliases n 0 ≤ MaxYAMLAliases → few_aliases n.
Proof.
  intros H. assert (aliases n 0 ≤ MaxYAMLAliases) as Ha.
  { apply Z.nlt_ge. rewrite <-alias_guard. by apply Z.nlt_ge. }
  split; [done|]. intros Hl. by rewrite <-(aliases_shallow n 0).
Qed.

Section Facts.
  Context (Quote : string → string).

Lemma scalarList_errors n path : all_errors (scalarList n path).2.
Proof. unfold scalarList. errors. Qed.

Lemma parseBool_errors n path : all_errors (parseBool Quote n path).2.
Proof. unfold parseBool. errors. Qed.

Lemma parseEnv_errors n path : all_errors (parseEnv Quote n path).2.
Proof. unfold parseEnv. errors. Qed.

Lemma parsePermissions_errors n path : all_errors (parsePermissions n path).2.
Proof. unfold parsePermissions. errors. Qed.

Lemma parseConcurrency_errors n path : all_errors (parseConcurrency Quote n path).2.
Proof. pose proof parseBool_errors. unfold parseConcurrency. errors. Qed.

Hint Resolve scalarList_errors parseBool_errors parseEnv_errors parsePermissions_errors
  parseConcurrency_errors : errs.

Lemma parsePushTrigger_errors n : all_errors (parsePushTrigger n).2.
Proof. unfold parsePushTrigger. errors. Qed.

Lemma parsePullRequestTrigger_errors n : all_errors (parsePullRequestTrigger n).2.
Proof. unfold parsePullRequestTrigger. errors. Qed.

Lemma parse_cron_errors i l : all_errors (parse_cron i l).2.
Proof. unfold parse_cron. errors. Qed.
Hint Resolve parse_cron_errors : errs.

Lemma parseScheduleTriggers_errors n : all_errors (parseScheduleTriggers n).2.
Proof. unfold parseScheduleTriggers. errors. Qed.

Lemma parse_input_errors name l : all_errors (parse_input Quote name l).2.
Proof. unfold parse_input. errors. Qed.
Hint Resolve parse_input_errors : errs.

Lemma parseDispatchInputs_errors n : all_errors (parseDispatchInputs Quote n).2.
Proof. unfold parseDispatchInputs. errors. Qed.
Hint Resolve parseDispatchInputs_errors : errs.

Lemma parseDispatchTrigger_errors n : all_errors (parseDispatchTrigger Quote n).2.
Proof. unfold parseDispatchTrigger. errors. Qed.

Lemma applyEventName_errors name path ts : all_errors (applyEventName Quote name path ts).2.
Proof. unfold applyEventName. errors. Qed.

Hint Resolve parsePushTrigger_errors parsePullRequestTrigger_errors parseScheduleTriggers_errors
  parseDispatchTrigger_errors applyEventName_errors : errs.

Lemma parseOn_errors n : all_errors (parseOn Quote n).2.
Proof. unfold parseOn, on_key. errors. Qed.

Lemma parseJobEnvironment_errors n path : all_errors (parseJobEnvironment n path).2.
Proof. unfold parseJobEnvironment, environment_key, environment_checks. errors. Qed.

Lemma parseStep_errors i n path : all_errors (parseStep Quote i n path).2.
Proof. unfold parseStep, step_key, step_checks. errors. Qed.
Hint Resolve parseStep_errors : errs.

Lemma parseSteps_errors n path : all_errors (parseSteps Quote n path).2.
Proof. unfold parseSteps. errors. Qed.
Hint Resolve parseJobEnvironment_errors parseSteps_errors : errs.

Lemma parseJob_errors key n : all_errors (parseJob Quote key n).2.
Proof. unfold parseJob, job_key, job_checks. errors. Qed.
Hint Resolve parseJob_errors : errs.

Lemma parseJobs_errors n : all_errors (parseJobs Quote n).2.
Proof. unfold parseJobs. errors. Qed.
Hint Resolve parseOn_errors parseJobs_errors : errs.

Lemma workflow_key_errors k v w : all_errors (workflow_key Quote k v w).2.
Proof. unfold workflow_key. errors. Qed.

(** ** What an accepted file is *)

Definition ident_or_none (s : string) : Prop := s = "" ∨ identRe s = true.

Record step_ok (s : Step) : Prop := {
  so_id : ident_or_none (ID s);
  so_work : (Run s ≠ "" ∧ Uses s = "") ∨ (Run s = "" ∧ Uses s ∈ AllowedUsesAliases)
}.

Definition environment_ok (e : Environment) : Prop :=
  e = no_environment ∨
  (EnvironmentName e ≠ "" ∧ (String.length (EnvironmentName e) ≤ 255)%nat ∧ (String.length (URL e) ≤ 2048)%nat).

Definition permissions_ok (p : Permissions) : Prop :=
  Mode p = "" ∨ (Mode p ∈ ["read-all"; "write-all"; "none"] ∧ Per p = ∅).

Record job_ok (j : Job) : Prop := {
  jo_key : identRe (Key j) = true;
  jo_runs_on : RunsOn j ≠ "";
  jo_timeout : 1 ≤ TimeoutMinutes j ≤ 4320;
  jo_permissions : permissions_ok (JobPermissions j);
  jo_environment : environment_ok (JobEnvironment j);
  jo_steps : Steps j ≠ [] ∧ Forall step_ok (Steps j)
}.

Record triggers_ok (ts : TriggerSet) : Prop := {
  to_some : triggerSetIsNonEmpty ts = true;
  to_schedule : Forall (fun cron => cron ≠ "") (Schedule ts);
  to_inputs : Forall (fun i => InputType i ≠ "") (default [] (WorkflowDispatch ts))
}.

Record workflow_ok (w : Workflow) : Prop := {
  wo_on : triggers_ok (On w);
  wo_permissions : permissions_ok (WPermissions w);
  wo_jobs : Jobs w ≠ [] ∧ Forall job_ok (Jobs w)
}.

Lemma parsePermissions_ok n path p : parsePermissions n path = (p, []) → permissions_ok p.
Proof.
  unfold parsePermissions, permissions_ok. destruct n; try done.
  - intros H. left. revert H. apply (over_pairs_inv (fun p => Mode p = "")); [|done].
    intros k v s s' Hs. destruct (permission_level _); intros [= <-]. exact Hs.
  - case_decide; [|done]. intros [= <-]. by right.
Qed.

Lemma environment_checks_ok env path : environment_checks env path = [] → environment_ok env.
Proof.
  unfold environment_checks, environment_ok. intros H. right.
  repeat case_decide; cbn in H; try done. split_and!; [done|lia..].
Qed.

Lemma parseJobEnvironment_ok n path e : parseJobEnvironment n path = (e, []) → environment_ok e.
Proof.
  unfold parseJobEnvironment. destruct n; try done.
  - destruct (over_pairs _ _ _) as [env ds]. intros [= <- [_ H]%app_nil]. by apply environment_checks_ok in H.
  - intros [= <- H]. by apply environment_checks_ok in H.
Qed.

Lemma IsAllowedUses_true u : IsAllowedUses u = true ↔ u ∈ AllowedUsesAliases.
Proof. apply bool_decide_eq_true. Qed.

Lemma step_checks_ok s path : ident_or_none (ID s) → step_checks s path = [] → step_ok s.
Proof.
  unfold step_checks. intros Hid H. split; [done|].
  apply app_nil in H as [H1 [H2 H3]%app_nil].
  destruct (decide (Run s = "")) as [R|R], (decide (Uses s = "")) as [U|U].
  - by rewrite decide_True in H1.
  - right. split; [done|]. rewrite bool_decide_eq_true_2 in H3 by done.
    destruct (IsAllowedUses (Uses s)) eqn:E; [|done]. by apply IsAllowedUses_true.
  - by left.
  - by rewrite decide_True in H2.
Qed.

Lemma parseStep_ok i n path s : parseStep Quote i n path = (s, []) → step_ok s.
Proof.
  unfold parseStep. destruct n as [| | |l| |]; try done. destruct (over_pairs _ _ _) as [s1 ds] eqn:E.
  intros [= -> [-> Hc]%app_nil]. apply step_checks_ok in Hc; [done|]. revert E.
  apply (over_pairs_inv (fun s => ident_or_none (ID s))); [|by left]. clear. intros k v s s' Hs.
  unfold step_key. destruct s. cbn in Hs |- *.
  repeat (case_decide; [|clear H]); repeat match goal with |- context [let '(_, _) := ?x in _] => destruct x end;
    try by intros [= <-].
  all: destruct (bool_decide _ && _) eqn:E; [done|]; intros [= <-]; unfold ident_or_none; cbn;
    apply andb_false_iff in E as [E|E]; bools; [left; by apply dec_stable|by right].
Qed.

Lemma parseSteps_ok n path l : parseSteps Quote n path = (l, []) → Forall step_ok l.
Proof.
  unfold parseSteps. destruct n as [| |items| | |]; try done. apply over_items_inv; [|constructor].
  intros i v s s' Hs. destruct (parseStep Quote i v path) as [x ds] eqn:E. intros [= <- ->].
  apply Forall_app_2; [done|]. by apply Forall_singleton, (parseStep_ok i v path).
Qed.

Lemma timeout_minutes_range v n : timeout_minutes v = Some n → 1 ≤ n ≤ 4320.
Proof.
  unfold timeout_minutes. destruct (Atoi v) as [m|]; [|done]. cbn.
  destruct ((m <? 1) || (4320 <? m)) eqn:E; [done|]. intros [= <-]. lia.
Qed.

(** What the loop over the keys of a job keeps. *)
Definition job_part (key : string) (j : Job) : Prop :=
  Key j = key ∧ 1 ≤ TimeoutMinutes j ≤ 4320 ∧ permissions_ok (JobPermissions j) ∧
  environment_ok (JobEnvironment j) ∧ Forall step_ok (Steps j).

Lemma job_key_part key k v j j' : job_part key j → job_key Quote key k v j = (j', []) → job_part key j'.
Proof.
  intros (Hk & Ht & Hp & He & Hs). unfold job_key. destruct j. cbn in Hk, Ht, Hp, He, Hs |- *. unfold job_part.
  repeat (case_decide; [|clear H]); try (by intros [= <-]).
  - destruct (match v with ScalarNode _ => _ | _ => _ end). by intros [= <- ->].
  - destruct (timeout_minutes (NValue v)) as [n|] eqn:E; [|done]. apply timeout_minutes_range in E.
    by intros [= <-].
  - destruct (parsePermissions _ _) as [p ds] eqn:E. intros [= <- ->]. by apply parsePermissions_ok in E.
  - destruct (parseJobEnvironment _ _) as [e ds] eqn:E. intros [= <- ->]. by apply parseJobEnvironment_ok in E.
  - destruct (parseEnv _ _ _) as [e ds]. by intros [= <- ->].
  - destruct (parseSteps _ _ _) as [l ds] eqn:E. intros [= <- ->]. by apply parseSteps_ok in E.
Qed.

Lemma parseJob_ok key n j : parseJob Quote key n = (j, []) → job_ok j.
Proof.
  unfold parseJob. destruct (identRe key) eqn:Ei; destruct n as [| | |l| |]; try done;
    destruct (over_pairs _ _ _) as [j1 ds] eqn:E; try done.
  intros [= -> [-> H]%app_nil]. unfold job_checks in H. apply app_nil in H as [H1 H2].
  assert (job_part key j) as (Hk & Ht & Hp & He & Hs).
  { revert E. apply (over_pairs_inv (job_part key)); [apply job_key_part|].
    split_and!; cbn; try done; by left. }
  case_decide; [done|]. case_decide; [done|]. split; try done. by rewrite Hk.
Qed.

Lemma parseJobs_ok n l : parseJobs Quote n = (l, []) → Forall job_ok l.
Proof.
  unfold parseJobs. destruct n as [| | |items| |]; try done. apply over_pairs_inv; [|constructor].
  intros k v s s' Hs. destruct (parseJob Quote k v) as [x ds] eqn:E. intros [= <- ->].
  apply Forall_app_2; [done|]. by apply Forall_singleton, (parseJob_ok k v).
Qed.

Lemma parseScheduleTriggers_ok n l : parseScheduleTriggers n = (l, []) → Forall (fun c => c ≠ "") l.
Proof.
  unfold parseScheduleTriggers. destruct n as [| |items| | |]; try done. apply over_items_inv; [|constructor].
  intros i v s s' Hs. destruct v as [| | |entry| |]; try done. destruct (parse_cron i entry) as [c ds].
  case_decide; [by intros [= _ [_ ?]%app_nil]|]. intros [= <- _]. apply Forall_app_2; [done|].
  by apply Forall_singleton.
Qed.

Lemma parseDispatchInputs_ok n l : parseDispatchInputs Quote n = (l, []) → Forall (fun i => InputType i ≠ "") l.
Proof.
  unfold parseDispatchInputs. destruct n as [| | |items| |]; try done. apply over_pairs_inv; [|constructor].
  intros k v s s' Hs. destruct v as [| | |spec| |]; try done. destruct (parse_input _ k spec) as [i ds].
  intros [= <- _]. apply Forall_app_2; [done|]. apply Forall_singleton. unfold default_type.
  by case_decide.
Qed.

Lemma parseDispatchTrigger_ok n l : parseDispatchTrigger Quote n = (l, []) → Forall (fun i => InputType i ≠ "") l.
Proof.
  unfold parseDispatchTrigger. destruct (empty_scalar n); [by intros [= <-]|].
  destruct n as [| | |items| |]; try done. apply over_pairs_inv; [|constructor].
  intros k v s s' Hs. case_decide; [apply parseDispatchInputs_ok|done].
Qed.

Definition triggers_part (ts : TriggerSet) : Prop :=
  Forall (fun cron => cron ≠ "") (Schedule ts) ∧
  Forall (fun i => InputType i ≠ "") (default [] (WorkflowDispatch ts)).

Lemma applyEventName_part name path ts ts' :
  triggers_part ts → applyEventName Quote name path ts = (ts', []) → triggers_part ts'.
Proof.
  intros [Hs Hi]. unfold applyEventName. repeat case_decide; try done; intros [= <-]; by split.
Qed.

Lemma parseOn_part n ts : parseOn Quote n = (ts, []) → triggers_part ts.
Proof.
  assert (triggers_part no_triggers) as H0 by (split; constructor).
  unfold parseOn. destruct n as [| |items|items|v|]; try done.
  - apply over_items_inv; [|done]. intros i v s s' Hs. destruct v; try done. by apply applyEventName_part.
  - apply over_pairs_inv; [|done]. intros k v s s' [Hs Hi]. unfold on_key. destruct s.
    repeat (case_decide; [|clear H]); try done.
    + destruct (parsePushTrigger v). by intros [= <- ->].
    + destruct (parsePullRequestTrigger v). by intros [= <- ->].
    + destruct (parseScheduleTriggers v) eqn:E. intros [= <- ->]. split; [|done].
      by apply parseScheduleTriggers_ok in E.
    + destruct (parseDispatchTrigger _ v) eqn:E. intros [= <- ->]. split; [done|].
      by apply parseDispatchTrigger_ok in E.
  - by apply applyEventName_part.
Qed.

Definition workflow_part (w : Workflow) : Prop :=
  triggers_part (On w) ∧ permissions_ok (WPermissions w) ∧ Forall job_ok (Jobs w).

Lemma workflow_key_part k v w w' : workflow_part w → workflow_key Quote k v w = (w', []) → workflow_part w'.
Proof.
  intros (Ho & Hp & Hj). unfold workflow_key, workflow_part. destruct w. cbn in Ho, Hp, Hj |- *.
  repeat (case_decide; [|clear H]); try done.
  - destruct v; try done. by intros [= <-].
  - destruct (parseOn _ v) eqn:E. intros [= <- ->]. by apply parseOn_part in E.
  - destruct (parsePermissions v _) eqn:E. intros [= <- ->]. by apply parsePermissions_ok in E.
  - destruct (parseEnv _ v _). by intros [= <- ->].
  - destruct (parseConcurrency _ v _). by intros [= <- ->].
  - destruct (parseJobs _ v) eqn:E. intros [= <- ->]. by apply parseJobs_ok in E.
Qed.

Lemma parse_root_result l o ds : parse_root Quote l = (o, ds) →
  (is_Some o ↔ ds = []) ∧
  ∀ w, o = Some w → over_pairs (workflow_key Quote) l empty_workflow = (w, []) ∧ Jobs w ≠ [] ∧
    triggerSetIsNonEmpty (On w) = true.
Proof.
  unfold parse_root.
  assert (Hno : ∀ (d : Diagnostic) ds, (is_Some (None : option Workflow) ↔ d :: ds = []) ∧ ∀ w, None = Some w →
    over_pairs (workflow_key Quote) l empty_workflow = (w, []) ∧ Jobs w ≠ [] ∧ triggerSetIsNonEmpty (On w) = true).
  { intros d ds'. split; [|done]. split; [by intros [? ?]|done]. }
  pose proof (over_pairs_errors (workflow_key Quote) l empty_workflow workflow_key_errors) as H.
  destruct (over_pairs _ _ _) as [w ds0]. cbn [snd] in H. apply all_errors_hasError in H.
  destruct ds0 as [|d ds0]; cbn [app].
  - destruct (bool_decide (Jobs w = [])) eqn:Ej; cbn; [rewrite andb_false_r; cbn; intros [= <- <-]; apply Hno|].
    destruct (triggerSetIsNonEmpty (On w)) eqn:Et; cbn; [|intros [= <- <-]; apply Hno].
    intros [= <- <-]. split; [by split|]. intros w' [= <-]. by bools.
  - rewrite bool_decide_eq_true_2 in H by done.
    repeat (rewrite ?andb_false_r, ?H; cbn [negb]). intros [= <- <-]. apply Hno.
Qed.

(** C33: the parser fails closed: a workflow comes without any diagnostic and a missing one with at least one,
    a failure of the file as a whole leaves no workflow; and what is accepted is within the size limit, has at most a
    hundred aliases in the first hundred levels of its tree, and is well formed: at least one trigger and one job,
    identifiers as keys, runners, timeouts within 1 to 4320 minutes, and each step either a command or one of the four
    known actions. Aliases further down are not counted, against the comment of the guard (aliases_below_depth). *)
Theorem Parse_fails_closed Decode src o ds e :
  Parse Quote Decode src = (o, ds, e) →
  (is_Some o ↔ ds = []) ∧ (is_Some e → o = None) ∧
  ∀ w, o = Some w → workflow_ok w ∧ (String.length src ≤ MaxWorkflowFileBytes)%nat ∧
    ∃ l, Decode src = Ok (DocumentNode [MappingNode l]) ∧ few_aliases (MappingNode l).
Proof.
  assert (Hfatal : ∀ p m x (Q : Workflow → Prop), fatal p m x = (o, ds, e) →
    (is_Some o ↔ ds = []) ∧ (is_Some e → o = None) ∧ ∀ w, o = Some w → Q w).
  { intros p m x Q [= <- <- <-]. split; [split; [by intros [? ?]|done]|]. by split. }
  unfold Parse. destruct (_ <? _)%nat eqn:El; [apply Hfatal|apply Nat.ltb_ge in El].
  destruct (Decode src) as [n|msg]; [|apply Hfatal].
  destruct n as [|c| | | |]; try apply Hfatal. destruct c as [|[| | |l| |] [|c2 c]]; try apply Hfatal.
  destruct (MaxYAMLAliases <? _) eqn:Ea; [apply Hfatal|]. apply Z.ltb_ge in Ea.
  destruct (parse_root Quote l) as [o1 ds1] eqn:Er. intros [= <- <- <-].
  apply parse_root_result in Er as [Hiff Hok]. split_and!; [apply Hiff|by intros [? ?]|].
  intros w Hw. destruct (Hok w Hw) as (Hloop & Hjobs & Htr). split; [|eauto using guard_few].
  assert (workflow_part w) as ([Hs Hi] & Hp & Hj).
  { apply (over_pairs_inv workflow_part _ _ _ _ workflow_key_part) in Hloop; [done|].
    split; [by split; constructor|]. by split; [left|constructor]. }
  by split.
Qed.
End Facts.

(** *** Trees without aliases *)

Fixpoint alias_free (n : Node) : bool :=
  match n with
  | DocumentNode l | SequenceNode l => forallb alias_free l
  | MappingNode l => forallb (fun kv => alias_free kv.1 && alias_free kv.2) l
  | AliasNode _ => false
  | ZeroNode | ScalarNode _ => true
  end.

Lemma sumZ_zero {A} (g : A → Z) l : Forall (fun x => g x = 0) l → sumZ (map g l) = 0.
Proof. induction 1 as [|x l Hx _ IH]; cbn; [done|]. by rewrite Hx, IH. Qed.

Lemma alias_free_zero n : alias_free n = true → ∀ depth, aliases n depth = 0.
Proof.
  induction n as [|l Hl|l Hl|l Hl|v|v] using Node_nested_ind; cbn; intros Hf depth; try done;
    destruct (100 <? depth); try done; apply sumZ_zero; rewrite forallb_forall in Hf;
    rewrite Forall_forall in Hl |- *; intros x Hx; specialize (Hf x (proj1 (list_elem_of_In _ _) Hx)).
  - by apply Hl.
  - by apply Hl.
  - apply andb_true_iff in Hf as [H1 H2]. destruct (Hl x Hx) as [P1 P2]. by rewrite P1, P2.
Qed.

(** ** Writing a workflow down *)

Definition entry (k : string) (n : Node) : Node * Node := (ScalarNode k, n).
Definition text (k v : string) : Node * Node := entry k (ScalarNode v).
Definition list_node (l : list string) : Node := SequenceNode (map ScalarNode l).
Definition bool_text (b : bool) : string := if b then "true" else "false".
Definition env_node (m : gmap string string) : Node :=
  MappingNode (map (fun kv => text kv.1 kv.2) (map_to_list m)).

Definition level_text (l : PermissionLevel) : string :=
  match l with PermissionNone => "none" | PermissionRead => "read" | PermissionWrite => "write" end.

Definition permissions_node (p : Permissions) : Node :=
  if decide (Mode p = "") then MappingNode (map (fun kv => text kv.1 (level_text kv.2)) (map_to_list (Per p)))
  else ScalarNode (Mode p).

Definition environment_pairs (e : Environment) : list (Node * Node) :=
  if decide (EnvironmentName e = "") then []
  else [entry "environment" (MappingNode [text "name" (EnvironmentName e); text "url" (URL e)])].

Definition step_node (s : Step) : Node :=
  MappingNode
    [text "id" (ID s); text "name" (StepName s); text "if" (StepIf s); text "run" (Run s);
     text "uses" (Uses s); entry "with" (env_node (With s)); text "working-directory" (WorkingDirectory s);
     entry "env" (env_node (StepEnv s)); text "continue-on-error" (bool_text (ContinueOnError s))].

Definition job_node (j : Job) : Node :=
  MappingNode
    ([text "name" (JobName j); text "runs-on" (RunsOn j); entry "needs" (list_node (Needs j));
      text "if" (JobIf j); text "timeout-minutes" (pretty (TimeoutMinutes j));
      entry "permissions" (permissions_node (JobPermissions j));
      entry "env" (env_node (JobEnv j)); entry "steps" (SequenceNode (map step_node (Steps j)))] ++
     environment_pairs (JobEnvironment j)).

Definition input_node (i : DispatchInput) : Node * Node :=
  entry (InputName i)
    (MappingNode [text "description" (Description i); text "type" (InputType i); text "default" (Default i);
                  text "required" (bool_text (Required i)); entry "options" (list_node (Options i))]).

Definition push_node (p : PushTrigger) : Node :=
  MappingNode [entry "branches" (list_node (Branches p)); entry "tags" (list_node (Tags p));
               entry "paths" (list_node (Paths p))].

Definition pull_request_node (p : PullRequestTrigger) : Node :=
  MappingNode [entry "types" (list_node (Types p)); entry "branches" (list_node (PRBranches p));
               entry "paths" (list_node (PRPaths p))].

Definition dispatch_node (l : list DispatchInput) : Node :=
  MappingNode [entry "inputs" (MappingNode (map input_node l))].

Definition on_node (ts : TriggerSet) : Node :=
  MappingNode
    (match Push ts with Some p => [entry "push" (push_node p)] | None => [] end ++
     match PullRequest ts with Some p => [entry "pull_request" (pull_request_node p)] | None => [] end ++
     [entry "schedule" (SequenceNode (map (fun c => MappingNode [text "cron" c]) (Schedule ts)))] ++
     match WorkflowDispatch ts with Some l => [entry "workflow_dispatch" (dispatch_node l)] | None => [] end).

Definition workflow_pairs (w : Workflow) : list (Node * Node) :=
  [text "name" (Name w); entry "on" (on_node (On w)); entry "permissions" (permissions_node (WPermissions w));
   entry "env" (env_node (Env w));
   entry "concurrency" (MappingNode [text "group" (Group (WConcurrency w));
     text "cancel-in-progress" (bool_text (CancelInProgress (WConcurrency w)))]);
   entry "jobs" (MappingNode (map (fun j => entry (Key j) (job_node j)) (Jobs w)))].

(** ** Reading it back *)

Lemma over_pairs_step {A} f k v l (s s1 s2 : A) :
  f (NValue k) v s = (s1, []) → over_pairs f l s1 = (s2, []) → over_pairs f ((k, v) :: l) s = (s2, []).
Proof. intros H1 H2. cbn. by rewrite H1, H2. Qed.

Lemma over_pairs_app {A} f l1 l2 (s s1 s2 : A) :
  over_pairs f l1 s = (s1, []) → over_pairs f l2 s1 = (s2, []) → over_pairs f (l1 ++ l2) s = (s2, []).
Proof.
  revert s. induction l1 as [|[k v] l1 IH]; intros s; cbn; [by intros [= ->]|].
  destruct (f (NValue k) v s) as [s' d]. destruct (over_pairs f l1 s') as [s'' d'] eqn:E.
  intros [= -> [-> ->]%app_nil] H. by rewrite (IH s' E H).
Qed.

(** A loop that appends one element an entry. *)
Lemma over_pairs_map {A B} f (g : A → Node * Node) (h : A → B) l out :
  (∀ x o, x ∈ l → f (NValue (g x).1) (g x).2 o = (o ++ [h x], [])) →
  over_pairs f (map g l) out = (out ++ map h l, []).
Proof.
  revert out. induction l as [|x l IH]; intros out Hf; cbn; [by rewrite app_nil_r|].
  pose proof (Hf x out (list_elem_of_here _ _)) as Hx. destruct (g x) as [k v]. cbn in Hx. rewrite Hx.
  rewrite IH by (intros y o Hy; apply Hf; by right). by rewrite <-app_assoc.
Qed.

Lemma over_items_map {A B} f (g : A → Node) (h : A → B) l out :
  (∀ i x o, x ∈ l → f i (g x) o = (o ++ [h x], [])) →
  over_items f (map g l) out = (out ++ map h l, []).
Proof.
  unfold over_items. generalize 0%nat. revert out. induction l as [|x l IH]; intros out i Hf; cbn; [by rewrite app_nil_r|].
  rewrite (Hf i x out (list_elem_of_here _ _)), IH by (intros k y o Hy; apply Hf; by right).
  by rewrite <-app_assoc.
Qed.

(** A loop that fills a map. *)
Lemma over_pairs_fill {A B} f (g : string * B → Node * Node) (wrap : gmap string B → A) (m : gmap string B) :
  (∀ kv o, f (NValue (g kv).1) (g kv).2 (wrap o) = (wrap (<[kv.1 := kv.2]> o), [])) →
  over_pairs f (map g (map_to_list m)) (wrap ∅) = (wrap m, []).
Proof.
  intros Hf.
  assert (H : ∀ l o, over_pairs f (map g l) (wrap o) =
    (wrap (foldl (fun (o : gmap string B) kv => <[kv.1 := kv.2]> o) o l), [])).
  { induction l as [|kv l IH]; intros o; cbn; [done|]. pose proof (Hf kv o) as Hx. destruct (g kv) as [k v].
    cbn in Hx. by rewrite Hx, IH. }
  rewrite H. do 2 f_equal. rewrite <-(list_to_map_to_list m) at 2. rewrite <-(right_id ∅ (∪) (list_to_map _)).
  generalize (NoDup_fst_map_to_list m) (∅ : gmap string B). generalize (map_to_list m). clear H.
  induction l as [|[k v] l IH]; intros Hnd o; cbn; [by rewrite (left_id ∅ (∪))|].
  apply NoDup_cons in Hnd as [Hk Hnd]. rewrite IH by done.
  rewrite <-insert_union_l, insert_union_r; [done|]. by apply not_elem_of_list_to_map.
Qed.

(** Decides the comparison of two literal keys. *)
Ltac str_keys :=
  repeat match goal with
  | |- context [decide (?a = ?b :> string)] =>
      let e := fresh in
      destruct (decide (a = b)) as [e|e];
        [try discriminate e; clear e | try (exfalso; by apply e); clear e]
  end.

(** Reads one pair: unfolds the branch of its key, rewriting with the parts given. *)
Ltac read_pair :=
  eapply over_pairs_step; [cbn [NValue]; str_keys|].

Lemma bool_text_parse b : ParseBool (bool_text b) = Some b.
Proof. by destruct b. Qed.

Lemma level_text_parse l : permission_level (level_text l) = Some l.
Proof. by destruct l. Qed.

Lemma timeout_text n : 1 ≤ n ≤ 4320 → timeout_minutes (pretty n) = Some n.
Proof.
  intros Hn.
  assert (H : Forall (fun n => timeout_minutes (pretty n) = Some n) (seqZ 1 4320)).
  { apply (bool_decide_unpack _). vm_compute. exact I. }
  rewrite Forall_forall in H. apply H, elem_of_seqZ. lia.
Qed.

Section RoundTrip.
  Context (Quote : string → string).

Lemma read_list l path : scalarList (list_node l) path = (l, []).
Proof.
  unfold scalarList, list_node.
  rewrite (over_items_map _ ScalarNode id l []); [by rewrite map_id|done].
Qed.

Lemma read_bool b path : parseBool Quote (ScalarNode (bool_text b)) path = (b, []).
Proof. unfold parseBool. by rewrite bool_text_parse. Qed.

Lemma read_env m path : parseEnv Quote (env_node m) path = (m, []).
Proof. unfold parseEnv, env_node. by apply (over_pairs_fill _ _ id). Qed.

Lemma read_permissions p path : permissions_ok p → parsePermissions (permissions_node p) path = (p, []).
Proof.
  unfold permissions_ok, permissions_node. destruct p as [mode per]. cbn. intros H. case_decide as Hm.
  - subst mode. cbn. apply (over_pairs_fill _ _ (MkPermissions "")). intros [k v] o. cbn.
    by rewrite level_text_parse.
  - destruct H as [?|[Hin ->]]; [done|]. cbn. by rewrite decide_True.
Qed.

Lemma environment_checks_pass e path : environment_ok e → EnvironmentName e ≠ "" → environment_checks e path = [].
Proof.
  intros [->|(_ & Hn & Hu)] He; [done|]. unfold environment_checks.
  by rewrite decide_False, !decide_False by (done || lia).
Qed.

Lemma read_environment e path : environment_ok e → EnvironmentName e ≠ "" →
  parseJobEnvironment (MappingNode [text "name" (EnvironmentName e); text "url" (URL e)]) path = (e, []).
Proof.
  intros He Hn. unfold parseJobEnvironment.
  assert (over_pairs (environment_key path) [text "name" (EnvironmentName e); text "url" (URL e)] no_environment =
    (e, [])) as ->.
  { unfold environment_key. do 2 (read_pair; [reflexivity|]). by destruct e. }
  by rewrite environment_checks_pass.
Qed.

Lemma step_checks_pass s path : step_ok s → step_checks s path = [].
Proof.
  intros [_ H]. unfold step_checks. destruct H as [[Hr ->]|[-> Hu]].
  - by rewrite decide_False, decide_False by tauto.
  - rewrite decide_False, decide_False; [|tauto|].
    + apply IsAllowedUses_true in Hu. by rewrite Hu, andb_false_r.
    + intros [_ Hn]. rewrite Hn in Hu. apply IsAllowedUses_true in Hu. by vm_compute in Hu.
Qed.

Lemma read_step i s path : step_ok s → parseStep Quote i (step_node s) path = (s, []).
Proof.
  intros Hs. unfold parseStep, step_node. set (p := path +:+ _).
  assert (over_pairs (step_key Quote p) [text "id" (ID s); text "name" (StepName s); text "if" (StepIf s);
    text "run" (Run s); text "uses" (Uses s); entry "with" (env_node (With s));
    text "working-directory" (WorkingDirectory s); entry "env" (env_node (StepEnv s));
    text "continue-on-error" (bool_text (ContinueOnError s))] empty_step = (s, [])) as ->.
  { unfold step_key. read_pair.
    { replace (bool_decide (ID s ≠ "") && negb (identRe (ID s))) with false; [reflexivity|].
      destruct (so_id s Hs) as [->| ->]; [done|by rewrite andb_false_r]. }
    do 4 (read_pair; [reflexivity|]). read_pair; [rewrite read_env; reflexivity|].
    read_pair; [reflexivity|]. read_pair; [rewrite read_env; reflexivity|].
    read_pair; [rewrite read_bool; reflexivity|]. by destruct s. }
  by rewrite step_checks_pass.
Qed.

Lemma read_job j : job_ok j → parseJob Quote (Key j) (job_node j) = (j, []).
Proof.
  intros [Hk Hr Ht Hp He [Hne Hs]]. unfold parseJob, job_node. rewrite Hk. set (l := [_; _; _; _; _; _; _; _]).
  assert (over_pairs (job_key Quote (Key j)) (l ++ environment_pairs (JobEnvironment j)) (empty_job (Key j)) =
    (j, [])) as ->.
  { eapply over_pairs_app.
    - unfold l, job_key. do 2 (read_pair; [reflexivity|]).
      read_pair; [change (match list_node (Needs j) with ScalarNode _ => _ | _ => _ end) with
        (scalarList (list_node (Needs j)) ("jobs." +:+ Key j +:+ "." +:+ "needs")); rewrite read_list; reflexivity|].
      read_pair; [reflexivity|]. read_pair; [rewrite timeout_text by done; reflexivity|].
      read_pair; [rewrite read_permissions by done; reflexivity|]. read_pair; [rewrite read_env; reflexivity|].
      read_pair; [|reflexivity]. unfold parseSteps.
      rewrite (over_items_map _ step_node id (Steps j) []); [rewrite map_id; reflexivity|].
      intros i x o Hx. rewrite read_step; [done|]. by eapply Forall_forall in Hs.
    - unfold environment_pairs. case_decide as Hn.
      + destruct He as [He|(? & _)]; [|done]. cbn. rewrite <-He. by destruct j.
      + unfold job_key. read_pair; [rewrite read_environment by done; reflexivity|]. by destruct j. }
  cbn. unfold job_checks. by rewrite decide_False, decide_False.
Qed.

Lemma read_jobs l : Forall job_ok l →
  parseJobs Quote (MappingNode (map (fun j => entry (Key j) (job_node j)) l)) = (l, []).
Proof.
  intros Hl. unfold parseJobs. rewrite (over_pairs_map _ _ id); [by rewrite map_id|].
  intros j o Hj. cbn [entry fst snd NValue]. rewrite read_job; [done|]. by eapply Forall_forall in Hl.
Qed.

Lemma read_push p : parsePushTrigger (push_node p) = (p, []).
Proof.
  unfold parsePushTrigger. cbn -[over_pairs list_node]. destruct p as [b t q].
  do 3 (read_pair; [rewrite read_list; reflexivity|]). reflexivity.
Qed.

Lemma read_pull_request p : parsePullRequestTrigger (pull_request_node p) = (p, []).
Proof.
  unfold parsePullRequestTrigger. cbn -[over_pairs list_node]. destruct p as [b t q].
  do 3 (read_pair; [rewrite read_list; reflexivity|]). reflexivity.
Qed.

Lemma read_input i : InputType i ≠ "" → ∀ o,
  (fun name spec (out : list DispatchInput) =>
     match spec with
     | MappingNode l => let '(i, ds) := parse_input Quote name l in (out ++ [default_type i], ds)
     | _ => (out, [errAt ("on.workflow_dispatch.inputs." +:+ name) "must be a mapping"])
     end) (NValue (input_node i).1) (input_node i).2 o = (o ++ [i], []).
Proof.
  intros Hi o. cbn -[parse_input list_node].
  assert (parse_input Quote (InputName i) [text "description" (Description i); text "type" (InputType i);
    text "default" (Default i); text "required" (bool_text (Required i)); entry "options" (list_node (Options i))] =
    (i, [])) as ->.
  { unfold parse_input. do 3 (read_pair; [reflexivity|]). read_pair; [rewrite read_bool; reflexivity|].
    read_pair; [rewrite read_list; reflexivity|]. by destruct i. }
  unfold default_type. by rewrite decide_False.
Qed.

Lemma read_dispatch l : Forall (fun i => InputType i ≠ "") l → parseDispatchTrigger Quote (dispatch_node l) = (l, []).
Proof.
  intros Hl. unfold parseDispatchTrigger. cbn -[over_pairs]. read_pair; [|reflexivity].
  unfold parseDispatchInputs. rewrite (over_pairs_map _ _ id); [rewrite map_id; reflexivity|].
  intros i o Hi. apply read_input. by eapply Forall_forall in Hl.
Qed.

Lemma read_schedule l : Forall (fun c => c ≠ "") l →
  parseScheduleTriggers (SequenceNode (map (fun c => MappingNode [text "cron" c]) l)) = (l, []).
Proof.
  intros Hl. unfold parseScheduleTriggers. rewrite (over_items_map _ _ id); [by rewrite map_id|].
  intros i c o Hc. cbn -[parse_cron]. assert (parse_cron i [text "cron" c] = (c, [])) as ->.
  { unfold parse_cron. by read_pair. }
  rewrite decide_False; [done|]. by eapply Forall_forall in Hl.
Qed.

Lemma read_on ts : triggers_ok ts → parseOn Quote (on_node ts) = (ts, []).
Proof.
  intros [_ Hs Hi]. unfold parseOn, on_node. destruct ts as [p pr s w]. cbn in Hs, Hi |- *.
  eapply (over_pairs_app _ _ _ _ (MkTriggerSet p None [] None)).
  { destruct p as [p|]; [|done]. unfold on_key. read_pair; [rewrite read_push; reflexivity|]. done. }
  eapply (over_pairs_app _ _ _ _ (MkTriggerSet p pr [] None)).
  { destruct pr as [pr|]; [|done]. unfold on_key. read_pair; [rewrite read_pull_request; reflexivity|]. done. }
  unfold on_key. cbn [app]. read_pair; [rewrite read_schedule by done; reflexivity|].
  destruct w as [w|]; [|done]. read_pair; [rewrite read_dispatch by done; reflexivity|]. done.
Qed.

Lemma read_concurrency c path :
  parseConcurrency Quote (MappingNode [text "group" (Group c); text "cancel-in-progress" (bool_text (CancelInProgress c))])
    path = (c, []).
Proof.
  unfold parseConcurrency. read_pair; [reflexivity|]. read_pair; [rewrite read_bool; reflexivity|]. by destruct c.
Qed.

Lemma read_workflow w : workflow_ok w → parse_root Quote (workflow_pairs w) = (Some w, []).
Proof.
  intros [Ho Hp [Hne Hj]]. unfold parse_root.
  assert (over_pairs (workflow_key Quote) (workflow_pairs w) empty_workflow = (w, [])) as ->.
  { unfold workflow_pairs, workflow_key. read_pair; [reflexivity|].
    read_pair; [rewrite read_on by done; reflexivity|]. read_pair; [rewrite read_permissions by done; reflexivity|].
    read_pair; [rewrite read_env; reflexivity|]. read_pair; [rewrite read_concurrency; reflexivity|].
    read_pair; [rewrite read_jobs by done; reflexivity|]. by destruct w. }
  cbn [hasError existsb]. rewrite bool_decide_eq_false_2 by done. cbn. by rewrite (to_some _ Ho).
Qed.

Lemma forallb_map_true {A B} (p : B → bool) (g : A → B) l :
  (∀ x, p (g x) = true) → forallb p (map g l) = true.
Proof. intros H. induction l as [|x l IH]; cbn; [done|]. by rewrite H. Qed.

Ltac alias_free :=
  repeat first [ done | progress cbn | apply forallb_map_true; intros ? | apply andb_true_intro; split
               | rewrite forallb_app | case_decide | case_match ].

Lemma alias_free_job j : alias_free (job_node j) = true.
Proof. unfold job_node, permissions_node, environment_pairs. alias_free. Qed.

Lemma alias_free_on ts : alias_free (on_node ts) = true.
Proof. unfold on_node. alias_free. Qed.

Lemma alias_free_permissions p : alias_free (permissions_node p) = true.
Proof. unfold permissions_node. alias_free. Qed.

Lemma alias_free_env m : alias_free (env_node m) = true.
Proof. unfold env_node. alias_free. Qed.

Lemma workflow_alias_free w : alias_free (MappingNode (workflow_pairs w)) = true.
Proof.
  unfold workflow_pairs, text, entry. cbn [alias_free forallb fst snd].
  rewrite alias_free_on, alias_free_permissions, alias_free_env. cbn [andb]. rewrite andb_true_r.
  apply forallb_map_true. intros j. apply alias_free_job.
Qed.

(** C37: every well-formed workflow is read back from the tree it is written down as: nothing that
    is well formed is refused, and no field is lost or mixed up. *)
Theorem Parse_reads_back Decode src w :
  workflow_ok w → (String.length src ≤ MaxWorkflowFileBytes)%nat →
  Decode src = Ok (DocumentNode [MappingNode (workflow_pairs w)]) →
  Parse Quote Decode src = (Some w, [], None).
Proof.
  intros Hw Hlen Hd. unfold Parse. apply Nat.ltb_ge in Hlen. rewrite Hlen, Hd.
  assert (countAliases (MappingNode (workflow_pairs w)) 0 ≤ MaxYAMLAliases) as Ha.
  { apply Z.nlt_ge. rewrite alias_guard, alias_free_zero by apply workflow_alias_free. done. }
  apply Z.ltb_ge in Ha. by rewrite Ha, read_workflow.
Qed.
End RoundTrip.

(** ** Files *)

Definition plain_step (run : string) : Step := MkStep "" "" "" run "" ∅ "" ∅ false.

Definition plain_job (key : string) (needs : list string) : Job :=
  MkJob key "" "ubuntu-latest" needs "" 360 no_permissions no_environment ∅ [plain_step "make"].

Definition on_push : TriggerSet := MkTriggerSet (Some (MkPush ["trunk"] [] [])) None [] None.

Definition sample_workflow (jobs : list Job) : Workflow :=
  MkWorkflow "ci" on_push no_permissions ∅ (MkConcurrencySpec "ci-${{ shithub.ref }}" true) jobs.

Definition ci : Workflow :=
  sample_workflow
    [plain_job "build" [];
     MkJob "deploy" "Deploy" "self-hosted" ["build"] "success()" 30 (MkPermissions "read-all" ∅)
       (MkEnvironment "prod" "https://example.org") {["A" := "1"]}
       [MkStep "get" "" "" "" "actions/checkout@v4" {["depth" := "0"]} "" ∅ true; plain_step "make deploy"]].

Definition written (w : Workflow) : string → res string Node :=
  fun _ => Ok (DocumentNode [MappingNode (workflow_pairs w)]).

Definition no_quote (s : string) : string := s.

Lemma plain_step_ok run : run ≠ "" → step_ok (plain_step run).
Proof. intros H. split; [by left|by left]. Qed.

Lemma plain_job_ok key needs : identRe key = true → job_ok (plain_job key needs).
Proof.
  intros Hk. split; [done|done|cbn; lia|by left|by left|]. split; [done|].
  by apply Forall_singleton, plain_step_ok.
Qed.

Lemma ci_ok : workflow_ok ci.
Proof.
  split; [split; [done|constructor..]|by left|]. split; [done|].
  apply Forall_cons_2; [by apply plain_job_ok|]. apply Forall_singleton. split; [done|done|cbn; lia|..].
  - right. by split; [left|].
  - right. cbn. split; [done|lia].
  - split; [done|]. apply Forall_cons_2; [|by apply Forall_singleton, plain_step_ok].
    split; [right; reflexivity|]. right. split; [done|]. by apply IsAllowedUses_true.
Qed.

Lemma Parse_fails_closed_witness :
  (is_Some (Some ci) ↔ ([] : list Diagnostic) = []) ∧ (is_Some (None : option ParseErr) → Some ci = None) ∧
  ∀ w, Some ci = Some w → workflow_ok w ∧ (String.length "ci" ≤ MaxWorkflowFileBytes)%nat ∧
    ∃ l, written ci "ci" = Ok (DocumentNode [MappingNode l]) ∧ few_aliases (MappingNode l).
Proof. apply (Parse_fails_closed no_quote). vm_compute. reflexivity. Defined.

Lemma Parse_reads_back_witness :
  workflow_ok ci ∧ Parse no_quote (written ci) "ci" = (Some ci, [], None).
Proof.
  split; [apply ci_ok|]. apply Parse_reads_back; [apply ci_ok|apply (bool_decide_unpack _); vm_compute; exact I|reflexivity].
Defined.

(** An alias stands for the name of its anchor, not for what the anchor marks: [run: *script] runs the command
    [script]. *)
Lemma alias_is_text a : a ≠ "" →
  (parseStep no_quote 0 (MappingNode [entry "run" (AliasNode a)]) "jobs.build").1 = plain_step a ∧
  (parseStep no_quote 0 (MappingNode [entry "run" (AliasNode a)]) "jobs.build").2 = [].
Proof.
  intros Ha. unfold parseStep.
  assert (∀ p, over_pairs (step_key no_quote p) [entry "run" (AliasNode a)] empty_step = (plain_step a, [])) as H.
  { intros p. unfold step_key. by read_pair. }
  rewrite H. cbn [fst snd app]. split; [done|]. by apply step_checks_pass, plain_step_ok.
Qed.

(** Two hundred aliases, a hundred sequences below the name of a job: the guard counts none, and the file is read. *)
Definition deep_node (n : Node) : Node := Nat.iter 100 (fun n => SequenceNode [n]) n.

Definition deep_workflow : Node :=
  MappingNode [entry "name" (ScalarNode "x"); entry "on" (ScalarNode "push");
    entry "jobs" (MappingNode [entry "a" (MappingNode
      [entry "name" (deep_node (SequenceNode (replicate 200 (AliasNode "x")))); entry "runs-on" (ScalarNode "x");
       entry "steps" (SequenceNode [MappingNode [entry "run" (ScalarNode "true")]])])])].

Example aliases_below_depth :
  countAliases deep_workflow 0 = 0 ∧ all_aliases deep_workflow = 200 ∧
  is_Some (Parse no_quote (fun _ => Ok (DocumentNode [deep_workflow])) "x").1.1.
Proof. split_and!; [reflexivity|reflexivity|]. vm_compute. eauto. Qed.

(** The keys in [needs:] are not looked up, cycles are not seen, and a key may be used twice. *)
Lemma needs_unchecked :
  let w := sample_workflow [plain_job "a" ["a"]; plain_job "b" ["nobody"]; plain_job "b" []] in
  Parse no_quote (written w) "x" = (Some w, [], None).
Proof. vm_compute. reflexivity. Qed.

(** [permissions: {}], which types.go has deny everything, reads as no permissions block at all. *)
Lemma permissions_empty_is_default path : parsePermissions (MappingNode []) path = (no_permissions, []).
Proof. done. Qed.

(** Expressions are not looked at: an unknown function and an unclosed expression pass. *)
Lemma expressions_unchecked :
  let w := sample_workflow [MkJob "a" "" "x" [] "nosuch(" 360 no_permissions no_environment ∅ [plain_step "${{ github.x"]] in
  Parse no_quote (written w) "x" = (Some w, [], None).
Proof. vm_compute. reflexivity. Qed.
