(* ===== verification/TriggerPolicy.v ===== *)
(** * TriggerPolicy: may a matched workflow be queued

    internal/actions/policy/policy.go with the statements it runs, on top of the
    authorization decision (Policy.v) and the tables of runs and Actions policies
    (Scheduler.v).  [broken] says which query fails; the errors of the authorization
    queries are those of the [Store]. *)

From stdpp Require Import sorting.
From S2P Require Import Prelude GoString Scheduler.
From S2P Require Policy Trigger.
Local Open Scope Z_scope.

Inductive PolicyQuery := QEffectivePolicy | QQueuedRuns | QRecentRuns | QUser | QTwoFactor.

Inductive PolicyErr :=
| ErrActionsDisabled | ErrRepoQueuedCap | ErrActorRateLimit | ErrActorRequired | ErrActorNotFound
| ErrUnauthorized | ErrNilPool | ErrQuery (q : PolicyQuery) (msg : string).

Definition PolicyErr_Error (e : PolicyErr) : string :=
  match e with
  | ErrActionsDisabled => "actions policy: actions disabled"
  | ErrRepoQueuedCap => "actions policy: repo queued-run cap reached"
  | ErrActorRateLimit => "actions policy: actor trigger rate limit reached"
  | ErrActorRequired => "actions policy: actor required"
  | ErrActorNotFound => "actions policy: actor not found"
  | ErrUnauthorized => "actions policy: actor cannot run actions"
  | ErrNilPool => "actions policy: nil Pool"
  | ErrQuery _ msg => msg
  end.

(** The columns of a [users] row, with the existence of a confirmed TOTP. *)
Record UserRow := MkUser { UserName : string; SuspendedAt : bool; SiteAdmin : bool; TwoFactor : bool }.

Record PolicyEnv := MkPolicyEnv {
  has_pool : bool; config : Config; auth : Policy.Store; users : gmap Z UserRow;
  broken : PolicyQuery → option string
}.

(** GetEffectiveActionsPolicyForRepo. *)
Record EffectivePolicy := MkEffective {
  ActionsEnabled : bool; RequirePrApproval : bool; MaxRepoQueuedRuns : Z; ActorTriggerLimitPerHour : Z
}.

Definition query {A} (e : PolicyEnv) (q : PolicyQuery) (a : A) : res PolicyErr A :=
  match broken e q with Some msg => Err (ErrQuery q msg) | None => Ok a end.

Definition GetEffectiveActionsPolicyForRepo (e : PolicyEnv) (repo : Z) : res PolicyErr EffectivePolicy :=
  let c := config e in
  query e QEffectivePolicy
    (MkEffective (repo_enabled c repo) (cap require_pr_approval site_require_pr_approval true c repo)
       (cap max_repo_queued_runs site_max_queued 50 c repo)
       (cap actor_trigger_limit_per_hour site_trigger_limit 120 c repo)).

Definition count_runs (p : WorkflowRun → bool) (d : DB) : Z :=
  Z.of_nat (length (filter (fun r => p r = true) (map_to_list (runs d)).*2)).

Definition CountQueuedWorkflowRunsForRepo (e : PolicyEnv) (repo : Z) (d : DB) : res PolicyErr Z :=
  query e QQueuedRuns
    (count_runs (fun r => bool_decide (RunRepoID r = repo) && bool_decide (RStatus r = RunQueued)) d).

Definition CountRecentWorkflowRunsForActor (e : PolicyEnv) (actor since : Z) (d : DB) : res PolicyErr Z :=
  query e QRecentRuns
    (count_runs (fun r => bool_decide (ActorUserID r = Some actor) && bool_decide (since ≤ RCreatedAt r)) d).

Definition hour : Z := 3600 * 10 ^ 9.

Record TriggerRequest := MkRequest {
  Repo : Policy.RepoRow; RKind : Trigger.EventKind; RActor : Z; Now : Z
}.

(** [checkEnqueueCaps]; [time] is the clock, read when the request has no time. *)
Definition checkEnqueueCaps (e : PolicyEnv) (time : Z) (req : TriggerRequest) (pol : EffectivePolicy) (d : DB)
  : option PolicyErr :=
  match CountQueuedWorkflowRunsForRepo e (Policy.row_ID (Repo req)) d with
  | Err x => Some x
  | Ok queued =>
      if bool_decide (MaxRepoQueuedRuns pol ≤ queued) then Some ErrRepoQueuedCap
      else if decide (RActor req = 0) then None
      else
        let now := if decide (Now req = 0) then time else Now req in
        match CountRecentWorkflowRunsForActor e (RActor req) (now - hour) d with
        | Err x => Some x
        | Ok recent =>
            if bool_decide (ActorTriggerLimitPerHour pol ≤ recent) then Some ErrActorRateLimit else None
        end
  end.

Record TriggerDecision := MkDecision {
  Allow : bool; NeedApproval : bool; ApprovalReason : string; Reason : string
}.

Definition refuse (reason : string) (e : PolicyErr) : TriggerDecision * option PolicyErr :=
  (MkDecision false false "" reason, Some e).

(** The actor of the request as the authorization policy knows it. *)
Definition trigger_actor (id : Z) (u : UserRow) : Policy.Actor :=
  Policy.UserActorWithTwoFactor id (UserName u) (SuspendedAt u) (SiteAdmin u) (TwoFactor u).

(** May the actor run Actions in the repository; the context carries no role cache. *)
Definition can_run (e : PolicyEnv) (repo : Policy.RepoRow) (id : Z) (u : UserRow) : Policy.Decision :=
  (Policy.Can None {| Policy.Pool := if has_pool e then Some (auth e) else None |} (trigger_actor id u)
     Policy.ActionActionsRun (Policy.NewRepoRefFromRepo repo)).2.

(** The part of [EvaluateTrigger] that looks at the event and its actor. *)
Definition evaluate_actor (e : PolicyEnv) (req : TriggerRequest) (pol : EffectivePolicy)
  : TriggerDecision * option PolicyErr :=
  match RKind req with
  | Trigger.EventSchedule => (MkDecision true false "" "schedule trigger", None)
  | kind =>
      if decide (RActor req = 0) then refuse "actor required" ErrActorRequired
      else
        match broken e QUser, users e !! RActor req with
        | Some _, _ | None, None => refuse "actor not found" ErrActorNotFound
        | None, Some user =>
            match query e QTwoFactor tt with
            | Err x => refuse "actor 2fa lookup failed" x
            | Ok _ =>
                let authz := can_run e (Repo req) (RActor req) user in
                if Policy.Allow authz then (MkDecision true false "" "actor can run actions", None)
                else if SuspendedAt user then refuse "actor suspended" ErrUnauthorized
                else
                  match kind with
                  | Trigger.EventPullRequest =>
                      if RequirePrApproval pol then
                        (MkDecision true true
                           "Pull request workflow requires maintainer approval before runner dispatch."
                           "pull request requires approval", None)
                      else (MkDecision true false "" "pull request approval disabled by policy", None)
                  | _ => refuse (Policy.Reason authz) ErrUnauthorized
                  end
            end
        end
  end.

Definition EvaluateTrigger (e : PolicyEnv) (time : Z) (req : TriggerRequest) (d : DB)
  : TriggerDecision * option PolicyErr :=
  if negb (has_pool e) then refuse "" ErrNilPool
  else
    match GetEffectiveActionsPolicyForRepo e (Policy.row_ID (Repo req)) with
    | Err x => refuse "" x
    | Ok pol =>
        if negb (ActionsEnabled pol) then refuse "actions disabled by policy" ErrActionsDisabled
        else if bool_decide (is_Some (Policy.row_DeletedAt (Repo req))) then refuse "repo deleted" ErrUnauthorized
        else if Policy.row_IsArchived (Repo req) then refuse "repo archived" ErrUnauthorized
        else
          match checkEnqueueCaps e time req pol d with
          | Some x => refuse (PolicyErr_Error x) x
          | None => evaluate_actor e req pol
          end
    end.
