(* ===== verification/Pipeline.v ===== *)
(** * Pipeline: from an event to the runs it starts

    internal/actions/trigger: discover.go and handler.go, the handler of the job kind
    workflow:trigger.  It composes the discovery of workflow files, the parser
    (Workflow.v), the event filters (Trigger.v), the policy (TriggerPolicy.v),
    the concurrency group (Concurrency.v) and the transaction that inserts a run
    (Scheduler.v).  The calls of git, the file layout of the server, JSON and YAML
    decoding are fields of [Host].  Logs and metrics are left out. *)

From stdpp Require Import sorting.
From S2P Require Import Prelude GoString Expr Eval Render.
From S2P Require Policy Trigger Worker Workflow Concurrency Scheduler TriggerPolicy.
Local Open Scope Z_scope.

(** ** discover.go *)

Record WorkflowFile := MkFile { Path : string; Bytes : string }.
Record DiscoverSkip := MkSkip { SkipPath : string; SkipReason : string }.

(** What git answers: a value, one of its typed errors, or an error with a text. *)
Inductive GitErr := ErrNotATree | ErrBlobTooLarge | GitError (msg : string).

Section Discover.
  Variable ToLower : string → string.

Definition isWorkflowYAMLName (name : string) : bool :=
  let lower := ToLower name in HasSuffix lower ".yml" || HasSuffix lower ".yaml".

Definition isMissingPath (msg : string) : bool :=
  Contains msg "not a valid object name" || Contains msg "Not a valid object name" ||
  Contains msg "exists on disk, but not in".

(** The loop of [formatInt] fills a buffer of 20 bytes from its end; [-n] wraps at 64 bits. *)
Fixpoint format_loop (fuel : nat) (n : Z) (buf : string) : string :=
  match fuel with
  | O => buf
  | S fuel => if 0 <? n then format_loop fuel (n / 10) (String (ascii_of_nat (Z.to_nat (48 + n mod 10))) buf) else buf
  end.

Definition formatInt (n : Z) : string :=
  if decide (n = 0) then "0"
  else
    let neg := n <? 0 in
    let n := if neg then (- n + 2 ^ 63) mod 2 ^ 64 - 2 ^ 63 else n in
    let s := format_loop 20 n "" in
    if neg then "-" +:+ s else s.

Definition sizeStr (n : Z) : string :=
  if 1024 * 1024 <=? n then formatInt (n / (1024 * 1024)) +:+ " MiB"
  else if 1024 <=? n then formatInt (n / 1024) +:+ " KiB"
  else formatInt n +:+ " B".

Definition workflows_dir : string := ".shithub/workflows".

(** One entry of the directory. *)
Definition discover_one (read_blob : string → res GitErr string) (name : string)
    (out : list WorkflowFile * list DiscoverSkip) : list WorkflowFile * list DiscoverSkip :=
  if negb (isWorkflowYAMLName name) then out
  else
    let path := workflows_dir +:+ "/" +:+ name in
    match read_blob path with
    | Ok body => (out.1 ++ [MkFile path body], out.2)
    | Err ErrBlobTooLarge =>
        (out.1, out.2 ++ [MkSkip path ("exceeds " +:+ sizeStr (Z.of_nat Workflow.MaxWorkflowFileBytes) +:+ " size cap")])
    | Err ErrNotATree => (out.1, out.2 ++ [MkSkip path "read: not a tree"])
    | Err (GitError msg) => (out.1, out.2 ++ [MkSkip path ("read: " +:+ msg)])
    end.

(** [names]: the entries of the directory, or the error of the listing. *)
Definition Discover (names : res GitErr (list string)) (read_blob : string → res GitErr string)
  : res GitErr (list WorkflowFile * list DiscoverSkip) :=
  match names with
  | Ok names => Ok (foldl (fun out name => discover_one read_blob name out) ([], []) names)
  | Err ErrNotATree => Ok ([], [])
  | Err (GitError msg as e) => if isMissingPath msg then Ok ([], []) else Err e
  | Err e => Err e
  end.
End Discover.

(** ** handler.go *)

Record JobPayload := MkPayload {
  pRepoID : Z; pHeadSHA : string; pHeadRef : string; pEventKind : Trigger.EventKind;
  pEventPayload : list (string * json); pActorUserID : Z; pTriggerEventID : string;
  pBranch : string; pTag : string; pAction : string; pBaseRef : string; pHeadRefShort : string;
  pChangedPaths : list string; pCron : string
}.

Inductive LookupErr := NoRows | LookupFailed (msg : string).

(** What the handler is given and reads. *)
Record Host := MkHost {
  Unmarshal : string → res string JobPayload;
  GetRepoByID : Z → res LookupErr (Policy.RepoRow * string);
  GetUsername : Z → res string string;
  GetOrgSlug : Z → res string string;
  RepoPath : string → string → res string string;
  LsTree : string → string → res GitErr (list string);
  ReadBlobBytes : string → string → string → res GitErr string;
  Decode : string → res string Workflow.Node;
  policy_env : TriggerPolicy.PolicyEnv;
  clock : nat → Z (* per file *)
}.

Section Handler.
  Context `{UnicodeTables}.
  Variable ToLower Quote : string → string.
  Variable citext_eq : string → string → bool.

Definition resolveOwnerLogin (h : Host) (repo : Policy.RepoRow) : res string string :=
  match Policy.row_OwnerUserID repo, Policy.row_OwnerOrgID repo with
  | Some u, _ => GetUsername h u
  | None, Some o => GetOrgSlug h o
  | None, None => Err "repo has neither owner_user_id nor owner_org_id"
  end.

Definition eventFromPayload (p : JobPayload) : Trigger.Event :=
  Trigger.MkEvent (pEventKind p) (pHeadRef p) (pBranch p) (pTag p) (pAction p) (pBaseRef p)
    (pHeadRefShort p) (pChangedPaths p) (pCron p).

Definition isExpectedPolicySkip (e : option TriggerPolicy.PolicyErr) : bool :=
  match e with
  | Some (TriggerPolicy.ErrActionsDisabled | TriggerPolicy.ErrRepoQueuedCap |
          TriggerPolicy.ErrActorRateLimit | TriggerPolicy.ErrActorRequired |
          TriggerPolicy.ErrActorNotFound | TriggerPolicy.ErrUnauthorized) => true
  | _ => false
  end.

Definition known_event (k : Trigger.EventKind) : bool :=
  match k with Trigger.EventOther _ => false | _ => true end.

(** The part of a job the tables of the scheduler keep. *)
Definition job_spec (j : Workflow.Job) : Scheduler.JobSpec :=
  Scheduler.MkJobSpec (Workflow.Key j) (Workflow.RunsOn j) (Workflow.Needs j)
    (Workflow.EnvironmentName (Workflow.JobEnvironment j)) (length (Workflow.Steps j)).

Definition enqueue_params (p : JobPayload) (path : string) (w : Workflow.Workflow) (need : bool)
    (r : Concurrency.Resolution) : Scheduler.EnqueueParams :=
  Scheduler.MkEnqueue (pRepoID p) path (pHeadSHA p) (pHeadRef p) (pActorUserID p) 0 (pTriggerEventID p)
    (map job_spec (Workflow.Jobs w)) need (Concurrency.RGroup r) (Concurrency.RCancel r)
    (known_event (pEventKind p)).

Definition resolve_group (p : JobPayload) (w : Workflow.Workflow) : res Concurrency.group_error Concurrency.Resolution :=
  Concurrency.Resolve (Concurrency.MkResolveInput (Some (Workflow.WConcurrency w)) (pEventPayload p)
                         (pHeadSHA p) (pHeadRef p)).

(** [Enqueue] with the resolution of its group, which comes after the checks of the parameters, of the disabled
    workflows and of the quota; [None] is the error of the resolution. *)
Definition EnqueueWorkflow (c : Scheduler.Config) (p : JobPayload) (path : string) (w : Workflow.Workflow)
    (need : bool) (now : Z) (d : Scheduler.DB) : option Scheduler.EnqueueResult * Scheduler.DB :=
  match resolve_group p w with
  | Ok r =>
      let '(x, d) := Scheduler.Enqueue citext_eq c (enqueue_params p path w need r) now now d in (Some x, d)
  | Err _ =>
      let q := enqueue_params p path w need (Concurrency.MkResolution "" false) in
      if Scheduler.validateParams q &&
         bool_decide ((pRepoID p, path) ∉ Scheduler.workflow_disabled c) &&
         negb (Scheduler.quota_exceeded c (pRepoID p))
      then (None, d)
      else let '(x, d) := Scheduler.Enqueue citext_eq c q now now d in (Some x, d)
  end.

(** What becomes of one file: the loop goes on, or the handler returns an error. *)
Definition handle_file (h : Host) (p : JobPayload) (repo : Policy.RepoRow) (i : nat) (f : WorkflowFile)
    (d : Scheduler.DB) : option string * Scheduler.DB :=
  let '(o, ds, perr) := Workflow.Parse Quote (Decode h) (Bytes f) in
  match perr, o with
  | Some _, _ => (None, d)
  | None, o =>
      if Workflow.hasError ds then (None, d)
      else if negb (Trigger.Match (Workflow.On <$> o) (eventFromPayload p)) then (None, d)
      else
        match o with
        | None => (None, d)
        | Some w =>
            let '(decision, err) :=
              TriggerPolicy.EvaluateTrigger (policy_env h) (clock h i)
                (TriggerPolicy.MkRequest repo (pEventKind p) (pActorUserID p) (clock h i)) d in
            if bool_decide (err ≠ None) || negb (TriggerPolicy.Allow decision) then
              if isExpectedPolicySkip err || negb (TriggerPolicy.Allow decision) then (None, d)
              else (Some "trigger: evaluate actions policy", d)
            else
              (None, (EnqueueWorkflow (TriggerPolicy.config (policy_env h)) p (Path f) w
                        (TriggerPolicy.NeedApproval decision) (clock h i) d).2)
        end
  end.

Fixpoint handle_files (h : Host) (p : JobPayload) (repo : Policy.RepoRow) (i : nat) (fs : list WorkflowFile)
    (d : Scheduler.DB) : Worker.Outcome * Scheduler.DB :=
  match fs with
  | [] => (Worker.Done, d)
  | f :: fs =>
      let '(e, d) := handle_file h p repo i f d in
      match e with Some e => (Worker.Failed e, d) | None => handle_files h p repo (S i) fs d end
  end.

Definition Handler (h : Host) (raw : string) (d : Scheduler.DB) : Worker.Outcome * Scheduler.DB :=
  match Unmarshal h raw with
  | Err e => (Worker.Poison ("trigger: bad payload: " +:+ e), d)
  | Ok p =>
      if bool_decide (pRepoID p = 0) || bool_decide (pHeadSHA p = "") || bool_decide (pTriggerEventID p = "")
      then (Worker.Poison "trigger: payload missing repo_id, head_sha, or trigger_event_id", d)
      else
        match GetRepoByID h (pRepoID p) with
        | Err NoRows => (Worker.Poison ("trigger: repo " +:+ pretty (pRepoID p) +:+ " not found"), d)
        | Err (LookupFailed e) => (Worker.Failed ("trigger: load repo: " +:+ e), d)
        | Ok (repo, name) =>
            match resolveOwnerLogin h repo with
            | Err e => (Worker.Failed ("trigger: resolve owner: " +:+ e), d)
            | Ok owner =>
                match RepoPath h owner name with
                | Err e => (Worker.Failed ("trigger: repo path: " +:+ e), d)
                | Ok gitDir =>
                    match Discover ToLower (LsTree h gitDir (pHeadSHA p)) (ReadBlobBytes h gitDir (pHeadSHA p)) with
                    | Err (GitError e) => (Worker.Failed ("trigger: discover: " +:+ e), d)
                    | Err _ => (Worker.Failed "trigger: discover", d)
                    | Ok (files, _) => handle_files h p repo 0 files d
                    end
                end
            end
        end
  end.
End Handler.
