(* ===== verification/PipelineFacts.v ===== *)
(** * PipelineFacts: what an event may start *)

From stdpp Require Import sorting.
From S2P Require Import Prelude GoString Expr Eval Render.
From S2P Require Policy Trigger Worker Workflow WorkflowFacts Concurrency.
From S2P Require Import Scheduler SchedulerFacts TriggerPolicy Pipeline.
Local Open Scope Z_scope.

(** ** The policy *)

(** The actor, a known user, may run Actions in the repository. *)
Definition trusted (e : PolicyEnv) (req : TriggerRequest) : Prop :=
  ∃ u, users e !! RActor req = Some u ∧ Policy.Allow (can_run e (Repo req) (RActor req) u) = true.

(** A known user who may not, and is not suspended. *)
Definition untrusted (e : PolicyEnv) (req : TriggerRequest) : Prop :=
  ∃ u, users e !! RActor req = Some u ∧ Policy.Allow (can_run e (Repo req) (RActor req) u) = false ∧
    SuspendedAt u = false.

(** The gates before the actor is looked at. *)
Record open_gates (e : PolicyEnv) (time : Z) (req : TriggerRequest) (d : DB) (pol : EffectivePolicy) : Prop := {
  og_pool : has_pool e = true;
  og_policy : GetEffectiveActionsPolicyForRepo e (Policy.row_ID (Repo req)) = Ok pol;
  og_enabled : ActionsEnabled pol = true;
  og_repo : Policy.row_DeletedAt (Repo req) = None ∧ Policy.row_IsArchived (Repo req) = false;
  og_caps : checkEnqueueCaps e time req pol d = None
}.

Definition actor_known (e : PolicyEnv) (req : TriggerRequest) : Prop :=
  RActor req ≠ 0 ∧ broken e QUser = None ∧ broken e QTwoFactor = None.

Lemma open_gates_eq e time req d pol pol' :
  open_gates e time req d pol → open_gates e time req d pol' → pol' = pol.
Proof. intros [_ ? _ _ _] [_ ? _ _ _]. congruence. Qed.

(** Either every gate is open and the actor decides, or the workflow is refused with an error. *)
Lemma EvaluateTrigger_gates e time req d :
  (∃ pol, open_gates e time req d pol ∧ EvaluateTrigger e time req d = evaluate_actor e req pol) ∨
  ((∀ pol, ¬ open_gates e time req d pol) ∧ ∃ reason x, EvaluateTrigger e time req d = refuse reason x).
Proof.
  unfold EvaluateTrigger. destruct (has_pool e) eqn:Ep; cbn [negb].
  2: { right. split; [|eauto]. intros pol [? _ _ _ _]. congruence. }
  destruct (GetEffectiveActionsPolicyForRepo e _) as [pol|x] eqn:Epol.
  2: { right. split; [|eauto]. intros pol [_ ? _ _ _]. congruence. }
  destruct (ActionsEnabled pol) eqn:Een; cbn [negb].
  2: { right. split; [|eauto]. intros pol' [_ ? ? _ _]. congruence. }
  case_bool_decide as Edel.
  { right. split; [|eauto]. intros pol' [_ _ _ [H _] _]. rewrite H in Edel. by destruct Edel. }
  apply eq_None_not_Some in Edel.
  destruct (Policy.row_IsArchived (Repo req)) eqn:Earc.
  { right. split; [|eauto]. intros pol' [_ _ _ [_ ?] _]. congruence. }
  destruct (checkEnqueueCaps e time req pol d) as [x|] eqn:Ecap.
  { right. split; [|eauto]. intros pol' [_ ? _ _ ?]. assert (pol' = pol) as -> by congruence. congruence. }
  left. exists pol. by split.
Qed.

Lemma trusted_iff e req u : users e !! RActor req = Some u →
  trusted e req ↔ Policy.Allow (can_run e (Repo req) (RActor req) u) = true.
Proof. intros Hu. unfold trusted. split; [|by eauto]. intros (x & Hx & H). congruence. Qed.

Lemma untrusted_iff e req u : users e !! RActor req = Some u →
  untrusted e req ↔ Policy.Allow (can_run e (Repo req) (RActor req) u) = false ∧ SuspendedAt u = false.
Proof.
  intros Hu. unfold untrusted. split; [|by eauto]. intros (x & Hx & H). assert (x = u) as -> by congruence. done.
Qed.

Lemma unknown_actor e req : users e !! RActor req = None → ¬ trusted e req ∧ ¬ untrusted e req.
Proof. intros Hu. split; intros (x & Hx & _); congruence. Qed.

(** The part of the decision that looks at the actor. *)
Lemma evaluate_actor_spec e req pol dec err :
  evaluate_actor e req pol = (dec, err) →
  (Allow dec = true ↔ err = None) ∧
  (Allow dec = true ↔ RKind req = Trigger.EventSchedule ∨
     actor_known e req ∧ (trusted e req ∨ RKind req = Trigger.EventPullRequest ∧ untrusted e req)) ∧
  (NeedApproval dec = true ↔ RequirePrApproval pol = true ∧
     RKind req = Trigger.EventPullRequest ∧ actor_known e req ∧ untrusted e req).
Proof.
  unfold evaluate_actor, refuse, query, actor_known.
  assert (RKind req = Trigger.EventSchedule ∨ RKind req ≠ Trigger.EventSchedule) as [->|Hk]
    by (destruct (RKind req); by auto).
  { intros [= <- <-]. cbn. naive_solver. }
  destruct (decide (RActor req = 0)) as [Ha|Ha].
  { destruct (RKind req); try done; intros [= <- <-]; cbn; naive_solver. }
  destruct (broken e QUser) as [m|].
  { destruct (RKind req); try done; intros [= <- <-]; cbn; naive_solver. }
  destruct (users e !! RActor req) as [u|] eqn:Eu.
  2: { destruct (unknown_actor e req Eu). destruct (RKind req); try done; intros [= <- <-]; cbn; naive_solver. }
  destruct (broken e QTwoFactor) as [m|].
  { destruct (RKind req); try done; intros [= <- <-]; cbn; naive_solver. }
  rewrite (trusted_iff e req u Eu), (untrusted_iff e req u Eu).
  destruct (Policy.Allow _).
  { destruct (RKind req); try done; intros [= <- <-]; cbn; naive_solver. }
  destruct (SuspendedAt u); [|destruct (RequirePrApproval pol)];
    destruct (RKind req); try done; intros [= <- <-]; cbn; naive_solver.
Qed.

(** a matched workflow is queued exactly when the gates are open and it is scheduled, or its actor may
    run Actions, or it is the pull request of somebody who may not and is not suspended; it waits
    for an approval exactly in the last case, if the policy asks for approvals; and every refusal carries an
    error. *)
Theorem EvaluateTrigger_spec e time req d dec err :
  EvaluateTrigger e time req d = (dec, err) →
  (Allow dec = true ↔ err = None) ∧
  (Allow dec = true ↔ ∃ pol, open_gates e time req d pol ∧
     (RKind req = Trigger.EventSchedule ∨
      actor_known e req ∧ (trusted e req ∨ RKind req = Trigger.EventPullRequest ∧ untrusted e req))) ∧
  (NeedApproval dec = true ↔ ∃ pol, open_gates e time req d pol ∧ RequirePrApproval pol = true ∧
     RKind req = Trigger.EventPullRequest ∧ actor_known e req ∧ untrusted e req).
Proof.
  destruct (EvaluateTrigger_gates e time req d) as [(pol & Ho & ->)|(Hno & reason & x & ->)].
  - intros (He & Ha & Hn)%evaluate_actor_spec. split; [done|]. rewrite Ha, Hn. split; split.
    + eauto.
    + intros (pol' & _ & H). exact H.
    + eauto.
    + intros (pol' & Ho' & H). by rewrite (open_gates_eq _ _ _ _ _ _ Ho Ho') in H.
  - intros [= <- <-]. cbn. split; [done|]. split; split; try done; intros (pol & Ho & _); by destruct (Hno pol).
Qed.

(** ** One file *)

Section Handler.
  Context `{UnicodeTables} (ToLower Quote : string → string) (citext_eq : string → string → bool).
  Context (h : Host) (p : JobPayload) (repo : Policy.RepoRow).

Abbreviation conf := (config (policy_env h)).

Definition request (time : Z) : TriggerRequest := MkRequest repo (pEventKind p) (pActorUserID p) time.

(** The file has a workflow that listens to the event and that the policy, in the state [d], lets in. *)
Record starts (f : WorkflowFile) (d : DB) (w : Workflow.Workflow) (dec : TriggerDecision) : Prop := {
  st_parse : ∃ ds, Workflow.Parse Quote (Decode h) (Bytes f) = (Some w, ds, None) ∧ Workflow.hasError ds = false;
  st_match : Trigger.Match (Some (Workflow.On w)) (eventFromPayload p) = true;
  st_policy : Allow dec = true ∧ ∃ time, EvaluateTrigger (policy_env h) time (request time) d = (dec, None)
}.

Lemma EnqueueWorkflow_cases c path w need now d :
  (EnqueueWorkflow citext_eq c p path w need now d).2 = d ∨
  ∃ r, (EnqueueWorkflow citext_eq c p path w need now d).2 =
       (Enqueue citext_eq c (enqueue_params p path w need r) now now d).2.
Proof.
  unfold EnqueueWorkflow. destruct (resolve_group p w) as [r|x].
  - right. exists r. by destruct (Enqueue _ _ _ _ _ _).
  - cbn zeta. destruct (_ && _); [by left|]. right. exists (Concurrency.MkResolution "" false). by destruct (Enqueue _ _ _ _ _ _).
Qed.

(** A file never ends the handler, and changes the tables by an [Enqueue] at most. *)
Lemma handle_file_cases i f d :
  (handle_file Quote citext_eq h p repo i f d).1 = None ∧
  ((handle_file Quote citext_eq h p repo i f d).2 = d ∨
   ∃ w dec r now, starts f d w dec ∧
     (handle_file Quote citext_eq h p repo i f d).2 =
     (Enqueue citext_eq conf (enqueue_params p (Path f) w (NeedApproval dec) r) now now d).2).
Proof.
  unfold handle_file. destruct (Workflow.Parse _ _ _) as [[o ds] perr] eqn:Ep.
  destruct perr; [by split; [|left]|]. destruct (Workflow.hasError ds) eqn:Eh; [by split; [|left]|].
  destruct (Trigger.Match _ _) eqn:Em; cbn [negb]; [|by split; [|left]].
  destruct o as [w|]; [|by split; [|left]].
  destruct (EvaluateTrigger _ _ _ _) as [dec err] eqn:Ee.
  assert (Ha : Allow dec = true ↔ err = None).
  { destruct (EvaluateTrigger_gates (policy_env h) (clock h i) (request (clock h i)) d) as
      [(pol & _ & E)|(_ & reason & x & E)]; unfold request in E; rewrite E in Ee.
    - by apply evaluate_actor_spec in Ee as [Ha _].
    - by injection Ee as <- <-. }
  case_bool_decide as Herr; cbn [orb].
  - assert (Allow dec = false) as -> by (destruct (Allow dec); naive_solver). rewrite orb_true_r. by split; [|left].
  - subst err. assert (Allow dec = true) as Hd by tauto. rewrite Hd. cbn [negb].
    split; [done|]. cbn [snd].
    destruct (EnqueueWorkflow_cases conf (Path f) w (NeedApproval dec) (clock h i) d) as [E|[r E]]; [by left|right].
    exists w, dec, r, (clock h i). split; [|done]. split; eauto.
Qed.

(** One file that starts a run. *)
Definition file_step (fs : list WorkflowFile) (d d' : DB) : Prop :=
  ∃ f w dec r now, f ∈ fs ∧ starts f d w dec ∧
    d' = (Enqueue citext_eq conf (enqueue_params p (Path f) w (NeedApproval dec) r) now now d).2.

Lemma handle_files_steps all i fs d :
  fs ⊆ all →
  (handle_files Quote citext_eq h p repo i fs d).1 = Worker.Done ∧
  rtc (file_step all) d (handle_files Quote citext_eq h p repo i fs d).2.
Proof.
  revert i d. induction fs as [|f fs IH]; intros i d Hin; [done|]. cbn [handle_files].
  destruct (handle_file_cases i f d) as [E1 E2]. destruct (handle_file _ _ _ _ _ _ _ _) as [e d1].
  cbn in E1, E2. subst e. destruct (IH (S i) d1) as [E3 Hr]; [set_solver|]. split; [done|].
  destruct E2 as [->|(w & dec & r & now & Hs & ->)]; [done|]. eapply rtc_l; [|exact Hr].
  exists f, w, dec, r, now. split; [set_solver|done].
Qed.

(** The payload is read and the repository and its workflow files are found. *)
Definition located (raw : string) (files : list WorkflowFile) : Prop :=
  Unmarshal h raw = Ok p ∧ pRepoID p ≠ 0 ∧ pHeadSHA p ≠ "" ∧ pTriggerEventID p ≠ "" ∧
  ∃ name owner gitDir skips,
    GetRepoByID h (pRepoID p) = Ok (repo, name) ∧ resolveOwnerLogin h repo = Ok owner ∧
    RepoPath h owner name = Ok gitDir ∧
    Discover ToLower (LsTree h gitDir (pHeadSHA p)) (ReadBlobBytes h gitDir (pHeadSHA p)) = Ok (files, skips).
End Handler.

Section Outcome.
  Context `{UnicodeTables} (ToLower Quote : string → string) (citext_eq : string → string → bool) (h : Host).
  Abbreviation located := (located ToLower h).
  Abbreviation Handler := (Handler ToLower Quote citext_eq h).

(** No retry can help: the payload is no payload, or its repository is gone. *)
Definition hopeless (raw : string) : Prop :=
  match Unmarshal h raw with
  | Err _ => True
  | Ok p => pRepoID p = 0 ∨ pHeadSHA p = "" ∨ pTriggerEventID p = "" ∨ GetRepoByID h (pRepoID p) = Err NoRows
  end.

Lemma Handler_cases raw d :
  (∃ p repo files, located p repo raw files ∧ ¬ hopeless raw ∧
     Handler raw d = handle_files Quote citext_eq h p repo 0 files d) ∨
  ((∀ p repo files, ¬ located p repo raw files) ∧ ¬ hopeless raw ∧ ∃ m, Handler raw d = (Worker.Failed m, d)) ∨
  ((∀ p repo files, ¬ located p repo raw files) ∧ hopeless raw ∧ ∃ m, Handler raw d = (Worker.Poison m, d)).
Proof.
  unfold Pipeline.Handler, hopeless, PipelineFacts.located. destruct (Unmarshal h raw) as [p|e] eqn:Eu.
  2: { right; right. split_and!; [by intros ??? [? _]|done|by eauto]. }
  destruct (_ || _) eqn:Eids.
  { rewrite !orb_true_iff, !bool_decide_eq_true in Eids.
    right; right. split_and!; [|tauto|by eauto]. intros p' repo files ([= <-] & ? & ? & ? & _). tauto. }
  rewrite !orb_false_iff, !bool_decide_eq_false in Eids. destruct Eids as [[E1 E2] E3].
  destruct (GetRepoByID h (pRepoID p)) as [[repo name]|[|e]] eqn:Er.
  2: { right; right. split_and!; [|by auto|by eauto]. intros ??? ([= <-] & _ & _ & _ & ? & ? & ? & ? & E & _). congruence. }
  2: { right; left. split_and!; [|naive_solver|by eauto]. intros ??? ([= <-] & _ & _ & _ & ? & ? & ? & ? & E & _). congruence. }
  assert (¬ (pRepoID p = 0 ∨ pHeadSHA p = "" ∨ pTriggerEventID p = "" ∨ Ok (repo, name) = Err NoRows)) as Hn by naive_solver.
  destruct (resolveOwnerLogin h repo) as [owner|e] eqn:Eo.
  2: { right; left. split_and!; [|done|by eauto]. intros ??? ([= <-] & _ & _ & _ & ? & ? & ? & ? & E & E' & _). congruence. }
  destruct (RepoPath h owner name) as [gitDir|e] eqn:Ep.
  2: { right; left. split_and!; [|done|by eauto]. intros ??? ([= <-] & _ & _ & _ & ? & ? & ? & ? & E & E' & E'' & _). congruence. }
  destruct (Discover _ _ _) as [[files skips]|e] eqn:Ed.
  - left. exists p, repo, files. split; [|done]. split_and!; [done..|]. by exists name, owner, gitDir, skips.
  - right; left. split_and!; [|done|destruct e; by eauto].
    intros p' ?? ([= <-] & _ & _ & _ & ? & ? & ? & ? & E & E' & E'' & E'''). congruence.
Qed.

(** C34: a trigger job is done, whatever the workflow files hold and the policy and the tables answer, as
    soon as its payload, its repository and its files can be read; it is given up for good exactly when it can
    never be; and it is tried again otherwise, with nothing written. *)
Theorem Handler_outcome raw d :
  let o := (Handler raw d).1 in
  (o = Worker.Done ↔ ∃ p repo files, located p repo raw files) ∧
  ((∃ m, o = Worker.Poison m) ↔ hopeless raw) ∧
  (o ≠ Worker.Done → (Handler raw d).2 = d).
Proof.
  cbn zeta. destruct (Handler_cases raw d) as [(p & repo & files & Hl & Hn & ->)|[(Hl & Hn & m & ->)|(Hl & Hn & m & ->)]].
  - destruct (handle_files_steps Quote citext_eq h p repo files 0 files d) as [-> _]; [done|].
    split; [by split; eauto|]. split; [split; [by intros [? ?]|done]|done].
  - cbn. split; [split; [done|naive_solver]|]. split; [split; [by intros [? ?]|done]|done].
  - cbn. split; [split; [done|naive_solver]|]. split; [by split; eauto|done].
Qed.

(** *** What the handler adds *)

Context (pattern_matches : string → string → bool).
Abbreviation step := (sstep citext_eq pattern_matches).

Lemma file_step_step p repo files s d :
  file_step Quote citext_eq h p repo files (db s) d → step s (with_db s d).
Proof. intros (f & w & dec & r & now & _ & _ & ->). apply s_enqueue. Qed.

(** The handler is a sequence of steps of the system. *)
Lemma file_steps_steps p repo files s d :
  rtc (file_step Quote citext_eq h p repo files) (db s) d → rtc step s (with_db s d).
Proof.
  intros Hr. remember (db s) as d0 eqn:E. revert s E. induction Hr as [d0|d0 d1 d2 H1 Hr IH]; intros s ->.
  - by destruct s.
  - eapply rtc_l; [by eapply file_step_step|]. by apply (IH (with_db s d1)).
Qed.

Lemma located_same p repo files p' repo' files' raw :
  located p repo raw files → located p' repo' raw files' → p' = p ∧ repo' = repo ∧ files' = files.
Proof.
  intros (E & _ & _ & _ & n & o & g & k & E1 & E2 & E3 & E4) (E' & _ & _ & _ & n' & o' & g' & k' & E1' & E2' & E3' & E4').
  assert (p' = p) as -> by congruence. assert ((repo', n') = (repo, n)) as [= -> ->] by congruence.
  assert (o' = o) as -> by congruence. assert (g' = g) as -> by congruence. split; [done|]. split; [done|congruence].
Qed.

Lemma Handler_file_steps p repo files raw d :
  located p repo raw files → rtc (file_step Quote citext_eq h p repo files) d (Handler raw d).2.
Proof.
  intros Hl. destruct (Handler_cases raw d) as [(p' & repo' & files' & Hl' & _ & ->)|[(Hn & _)|(Hn & _)]];
    [|by destruct (Hn p repo files)..].
  destruct (located_same _ _ _ _ _ _ _ Hl Hl') as (-> & -> & ->). by apply handle_files_steps.
Qed.

(** Where a run that the handler added comes from. *)
Definition cause (p : JobPayload) (repo : Policy.RepoRow) (files : list WorkflowFile) (r : WorkflowRun) : Prop :=
  ∃ f w dec d g, f ∈ files ∧ starts Quote h p repo f d w dec ∧
    comes_from citext_eq (config (policy_env h)) (enqueue_params p (Path f) w (NeedApproval dec) g) r.

Lemma cause_same p repo files r r' : run_same r r' → cause p repo files r → cause p repo files r'.
Proof. intros Hs (f & w & dec & d & g & Hf & Hst & Hc). exists f, w, dec, d, g. by eauto using comes_from_same. Qed.

Lemma file_steps_cause p repo files s d i r :
  rtc (file_step Quote citext_eq h p repo files) (db s) d → Sinv s → runs d !! i = Some r →
  (∃ r0, runs (db s) !! i = Some r0 ∧ run_same r0 r) ∨ (next_run (db s) ≤ i ∧ cause p repo files r).
Proof.
  intros Hr Hs. remember (db s) as d0 eqn:E. revert s E Hs.
  induction Hr as [d0|d0 d1 d2 H1 Hr IH]; intros s -> Hs Hi; [by left; exists r|].
  destruct (step_inv _ _ s (with_db s d1) (file_step_step p repo files s d1 H1) Hs) as [Hs1 He].
  pose proof (ev_next _ _ He) as [_ Hn]. cbn [db with_db] in Hn.
  destruct H1 as (f & w & dec & g & now & Hf & Hst & E).
  pose proof (Enqueue_new _ citext_eq (config (policy_env h))
    (enqueue_params p (Path f) w (NeedApproval dec) g) now now _ (si_db _ Hs)) as Hq. rewrite <-E in Hq.
  destruct (IH (with_db s d1) eq_refl Hs1 Hi) as [(x & Hx & Hsame)|[Hle Hcause]]; [|right; split; [|done]; lia].
  destruct (Hq i x Hx) as [(r0 & Hr0 & H0)|(-> & Hc & _)].
  - left. exists r0. split; [done|]. by eapply run_same_trans.
  - right. split; [done|]. eapply cause_same; [done|]. by exists f, w, dec, (db s), g.
Qed.

(** C32: a run the handler adds belongs to a file of the commit whose workflow the parser accepts, the event
    matches and the policy lets in; it is named after that file and that event, and asks for an approval as the
    policy and the environments of its jobs say, unless the quota has ended it at once. *)
Theorem runs_have_cause s raw p repo files i r :
  rtc step start s → located p repo raw files →
  runs (db s) !! i = None → runs (Handler raw (db s)).2 !! i = Some r →
  ∃ f w dec d g, f ∈ files ∧ starts Quote h p repo f d w dec ∧
    RunRepoID r = pRepoID p ∧ Scheduler.WorkflowFile r = Path f ∧ TriggerEventID r = pTriggerEventID p ∧
    (Scheduler.NeedApproval r = NeedApproval dec ||
       requires_review citext_eq (config (policy_env h)) (enqueue_params p (Path f) w (NeedApproval dec) g) ∨
     run_terminal (RStatus r) = true).
Proof.
  intros Hr Hl Hnone Hi. pose proof (Handler_file_steps _ _ _ _ (db s) Hl) as Hsteps.
  destruct (file_steps_cause _ _ _ s _ i r Hsteps (reachable_inv _ _ s Hr) Hi)
    as [(r0 & Hr0 & _)|(_ & f & w & dec & d & g & Hf & Hst & [E1 E2 E3 E4])]; [congruence|].
  by exists f, w, dec, d, g.
Qed.

(** The pull request of an actor who may not run Actions, with approvals on. *)
Record quarantined (p : JobPayload) (repo : Policy.RepoRow) : Prop := {
  qu_kind : pEventKind p = Trigger.EventPullRequest;
  qu_policy : ∃ pol, GetEffectiveActionsPolicyForRepo (policy_env h) (Policy.row_ID repo) = Ok pol ∧
    RequirePrApproval pol = true;
  qu_actor : ¬ trusted (policy_env h) (request p repo 0)
}.

Lemma quarantined_need p repo f d w dec : quarantined p repo → starts Quote h p repo f d w dec → NeedApproval dec = true.
Proof.
  intros [Hk (pol & Hp & Hreq) Ha] [_ _ [Hallow [time He]]].
  destruct (EvaluateTrigger_gates (policy_env h) time (request p repo time) d) as
    [(pol' & Ho & E)|(_ & reason & x & E)]; rewrite E in He; [|by injection He as <- _].
  destruct (evaluate_actor_spec _ _ _ _ _ He) as (_ & Hal & Hneed). apply Hneed.
  destruct (proj1 Hal Hallow) as [Hs|[Hknown [Ht|[_ Hu]]]]; [cbn in Hs; congruence|by destruct Ha|].
  split; [|done]. destruct Ho as [_ Hp' _ _ _]. cbn in Hp'. congruence.
Qed.

Lemma file_steps_confined p repo files s d i :
  quarantined p repo → rtc (file_step Quote citext_eq h p repo files) (db s) d → Sinv s →
  runs (db s) !! i = None → is_Some (runs d !! i) → confined d i.
Proof.
  intros Hq Hr Hs. remember (db s) as d0 eqn:E. revert s E Hs.
  induction Hr as [d0|d0 d1 d2 H1 Hr IH]; intros s -> Hs Hnone Hsome; [rewrite Hnone in Hsome; by destruct Hsome|].
  pose proof (file_step_step p repo files s d1 H1) as Hstep.
  destruct (step_inv _ _ s (with_db s d1) Hstep Hs) as [Hs1 He].
  destruct (runs d1 !! i) as [r|] eqn:E1; [|by apply (IH (with_db s d1) eq_refl)].
  apply (rtc_confined citext_eq pattern_matches (with_db s d1) (with_db s d2)); 
    [by apply (file_steps_steps p repo files (with_db s d1))|done|].
  destruct H1 as (f & w & dec & g & now & Hf & Hst & ->).
  eapply (enqueued_confined citext_eq); [apply (si_db _ Hs)|exact He|by eapply Enqueue_new, (si_db _ Hs)| |done|by eauto].
  by eapply quarantined_need.
Qed.

(** C1: where the policy in force for the repository requires an approval of pull requests (RequirePrApproval, which an
    owner may switch off), what a pull request of somebody who may not run Actions starts does not run without one:
    whatever happens afterwards, no job of a run the handler added has a runner, runs or has completed as long as
    nobody approved the run. *)
Theorem untrusted_pull_request_waits s raw p repo files s' i k r j :
  rtc step start s → located p repo raw files → quarantined p repo →
  rtc step (with_db s (Handler raw (db s)).2) s' →
  runs (db s) !! i = None → is_Some (runs (Handler raw (db s)).2 !! i) →
  runs (db s') !! i = Some r → ApprovedBy r = None → wjobs (db s') !! k = Some j → JRunID j = i →
  RunnerID j = None ∧ Status j ≠ Concurrency.JobRunning ∧ Status j ≠ Concurrency.JobCompleted.
Proof.
  intros Hr Hl Hq Hr' Hnone Hsome Hi Ha Hj Ej. pose proof (reachable_inv _ _ s Hr) as Hs.
  pose proof (Handler_file_steps _ _ _ _ (db s) Hl) as Hsteps.
  pose proof (file_steps_confined _ _ _ s _ i Hq Hsteps Hs Hnone Hsome) as Hc.
  pose proof (rtc_inv _ _ _ _ (file_steps_steps _ _ _ s _ Hsteps) Hs) as Hs1.
  destruct (rtc_confined _ _ _ s' i Hr' Hs1 Hc) as [Hs' Hc']. eapply confined_waits; [apply (si_db _ Hs')|done..].
Qed.
End Outcome.

(** ** A pull request of a stranger *)

Definition on_pull_request : Trigger.TriggerSet :=
  Trigger.MkTriggerSet None (Some (Trigger.MkPullRequest [] [] [])) [] None.

Definition pr_workflow : Workflow.Workflow :=
  Workflow.MkWorkflow "ci" on_pull_request Workflow.no_permissions ∅ (Concurrency.MkConcurrencySpec "" false)
    [WorkflowFacts.plain_job "build" []].

Definition pr_payload : JobPayload :=
  MkPayload 7 "c0ffee" "refs/heads/fix" Trigger.EventPullRequest [] 3 "pr:1" "trunk" "" "opened" "trunk" "fix" [] "".

Definition pr_repo : Policy.RepoRow := {|
  Policy.row_ID := 7; Policy.row_OwnerUserID := Some 1; Policy.row_OwnerOrgID := None;
  Policy.row_Visibility := "public"; Policy.row_IsArchived := false; Policy.row_IsPaused := false;
  Policy.row_DeletedAt := None |}.

Definition no_rows : Policy.Store := {|
  Policy.orgs := ∅; Policy.org_security_settings := ∅; Policy.org_members := ∅; Policy.repo_collaborators := ∅;
  Policy.teams := ∅; Policy.team_members := ∅; Policy.team_repo_access := ∅; Policy.fault := fun _ => None |}.

Definition stranger_env : PolicyEnv :=
  MkPolicyEnv true plain_config no_rows {[3 := MkUser "eve" false false false]} (fun _ => None).

Definition pr_host : Host :=
  MkHost (fun _ => Ok pr_payload) (fun _ => Ok (pr_repo, "demo")) (fun _ => Ok "alice") (fun _ => Ok "")
    (fun _ _ => Ok "/srv/git/demo.git") (fun _ _ => Ok ["ci.yml"; "notes.txt"]) (fun _ _ _ => Ok "yaml")
    (WorkflowFacts.written pr_workflow) stranger_env (fun _ => 100).

Definition pr_file : WorkflowFile := MkFile ".shithub/workflows/ci.yml" "yaml".

#[local] Existing Instance latin1_tables.
Definition same (s : string) : string := s.
Abbreviation pr_handler := (Handler same WorkflowFacts.no_quote same_text pr_host).
Abbreviation pr_db := (pr_handler "{}" emptyDB).2.

Definition pr_run : WorkflowRun :=
  default (new_run (push "" "" false []) false "" 0 emptyDB) (runs pr_db !! 1).
Definition pr_job : WorkflowJob :=
  default (MkWJob 0 0 0 "" "" None [] "" Concurrency.JobQueued None false 0) (wjobs pr_db !! 1).

Lemma pr_located : located same pr_host pr_payload pr_repo "{}" [pr_file].
Proof.
  split_and!; [done..|]. exists "demo", "alice", "/srv/git/demo.git", []. split_and!; [done..|].
  vm_compute. reflexivity.
Qed.

Lemma pr_quarantined : quarantined pr_host pr_payload pr_repo.
Proof.
  split; [done|eexists; split; [vm_compute; reflexivity|reflexivity]|].
  intros (u & Hu & Ha). vm_compute in Hu. injection Hu as <-. vm_compute in Ha. done.
Qed.

Lemma EvaluateTrigger_spec_witness :
  let req := request pr_payload pr_repo 100 in
  let dec := (EvaluateTrigger stranger_env 100 req emptyDB).1 in
  NeedApproval dec = true ∧
  (Allow dec = true ↔ (None : option PolicyErr) = None) ∧
  (Allow dec = true ↔ ∃ pol, open_gates stranger_env 100 req emptyDB pol ∧
     (RKind req = Trigger.EventSchedule ∨
      actor_known stranger_env req ∧
        (trusted stranger_env req ∨ RKind req = Trigger.EventPullRequest ∧ untrusted stranger_env req))) ∧
  (NeedApproval dec = true ↔ ∃ pol, open_gates stranger_env 100 req emptyDB pol ∧ RequirePrApproval pol = true ∧
     RKind req = Trigger.EventPullRequest ∧ actor_known stranger_env req ∧ untrusted stranger_env req).
Proof.
  cbv zeta. split; [vm_compute; reflexivity|]. apply (EvaluateTrigger_spec stranger_env 100 _ emptyDB).
  vm_compute. reflexivity.
Defined.

Lemma runs_have_cause_witness :
  runs pr_db !! 1 = Some pr_run ∧
  ∃ f w dec d g, f ∈ [pr_file] ∧ starts WorkflowFacts.no_quote pr_host pr_payload pr_repo f d w dec ∧
    RunRepoID pr_run = 7 ∧ Scheduler.WorkflowFile pr_run = Path f ∧ TriggerEventID pr_run = "pr:1" ∧
    (Scheduler.NeedApproval pr_run = NeedApproval dec ||
       requires_review same_text (config stranger_env) (enqueue_params pr_payload (Path f) w (NeedApproval dec) g) ∨
     run_terminal (RStatus pr_run) = true).
Proof.
  split; [vm_compute; reflexivity|].
  apply (runs_have_cause same WorkflowFacts.no_quote same_text pr_host same_text start "{}" pr_payload pr_repo [pr_file] 1);
    [apply rtc_refl|apply pr_located|reflexivity|vm_compute; reflexivity].
Defined.

Lemma untrusted_pull_request_waits_witness :
  runs pr_db !! 1 = Some pr_run ∧ wjobs pr_db !! 1 = Some pr_job ∧
  RunnerID pr_job = None ∧ Status pr_job ≠ Concurrency.JobRunning ∧ Status pr_job ≠ Concurrency.JobCompleted.
Proof.
  split; [vm_compute; reflexivity|]. split; [vm_compute; reflexivity|].
  apply (untrusted_pull_request_waits same WorkflowFacts.no_quote same_text pr_host same_text start "{}" pr_payload pr_repo
    [pr_file] (with_db start pr_db) 1 1 pr_run);
    [apply rtc_refl|apply pr_located|apply pr_quarantined|apply rtc_refl|reflexivity|vm_compute; eauto|..];
    vm_compute; reflexivity.
Defined.
