(* ===== verification/IssueRefs.v ===== *)
(** * IssueRefs: references to issues in text

    The regular expressions of internal/issues/references.go and
    internal/pulls/linked_issues.go, as matchers on the runes of the text.  A matcher gets the
    rune before the position (none at the start of the text) and answers what it captured and
    how many runes it took; [find_all] and [replace_all] are FindAllStringSubmatch and
    ReplaceAllString, which look for the leftmost match and go on behind it.

    The three expressions leave Go's backtracking no choice: what follows each repetition is not in the
    repeated class, so a repetition that is not maximal cannot match.  [\w], [\s] and [\b] are the ASCII ones
    of package regexp; [(?i)] also folds U+017F to [s]. *)

From S2P Require Import Prelude GoString.
Local Open Scope Z_scope.

(** ** Package regexp *)

(** [\w], [\s], [\b] between two positions. *)
Definition word_rune (r : Z) : bool :=
  between 48 r 57 || between 65 r 90 || between 97 r 122 || bool_decide (r = 95).

Definition space_rune (r : Z) : bool := bool_decide (r ∈ [9; 10; 12; 13; 32]).

Definition digit_rune (r : Z) : bool := between 48 r 57.

Definition word_at (o : option Z) : bool := match o with Some r => word_rune r | None => false end.

Definition word_boundary (prev next : option Z) : bool := xorb (word_at prev) (word_at next).

(** The longest prefix of runes in a class, and the rest. *)
Fixpoint span (p : Z → bool) (rs : list Z) : list Z * list Z :=
  match rs with
  | [] => ([], [])
  | r :: rs' => if p r then let '(a, b) := span p rs' in (r :: a, b) else ([], rs)
  end.

Section FindAll.
  Context {A : Type} (m : option Z → list Z → option (A * nat)).

(** No match is empty, so the search always moves on; [skip] is what is left of a match. *)
Fixpoint find_all (prev : option Z) (skip : nat) (rs : list Z) : list A :=
  match rs with
  | [] => []
  | r :: rs' =>
      match skip with
      | S k => find_all (Some r) k rs'
      | O =>
          match m prev rs with
          | Some (a, n) => a :: find_all (Some r) (pred n) rs'
          | None => find_all (Some r) O rs'
          end
      end
  end.

Fixpoint replace_all (repl : list Z) (prev : option Z) (skip : nat) (rs : list Z) : list Z :=
  match rs with
  | [] => []
  | r :: rs' =>
      match skip with
      | S k => replace_all repl (Some r) k rs'
      | O =>
          match m prev rs with
          | Some (_, n) => repl ++ replace_all repl (Some r) (pred n) rs'
          | None => r :: replace_all repl (Some r) O rs'
          end
      end
  end.

End FindAll.

(** ** Numbers: [#([0-9]{1,9})\b], read by strconv.ParseInt *)

Definition ParseDigits (ds : list Z) : Z := foldl (fun acc d => acc * 10 + (d - 48)) 0 ds.

Definition match_number (rs : list Z) : option (Z * nat) :=
  match rs with
  | 35 :: rs =>
      let '(ds, rest) := span digit_rune rs in
      if bool_decide (ds = []) || bool_decide (9 < length ds)%nat
         || negb (word_boundary (last ds) (head rest))
      then None
      else Some (ParseDigits ds, S (length ds))
  | _ => None
  end.

(** ** references.go *)

(** [[A-Za-z0-9]] and [[A-Za-z0-9._-]]. *)
Definition alnum_rune (r : Z) : bool := between 48 r 57 || between 65 r 90 || between 97 r 122.

Definition slug_rune (r : Z) : bool := alnum_rune r || bool_decide (r ∈ [46; 95; 45]).

Definition match_slug (rs : list Z) : option (list Z * list Z) :=
  match rs with
  | r :: _ => if alnum_rune r then Some (span slug_rune rs) else None
  | [] => None
  end.

(** [(?:^|[^\w/])]: what remains to be matched, and what was taken: the start of the text is tried first. *)
Definition lead_rune (r : Z) : bool := negb (word_rune r) && negb (bool_decide (r = 47)).

Definition with_lead {A} (m : list Z → option (A * nat)) (prev : option Z) (rs : list Z)
  : option (A * nat) :=
  let here := match prev with None => m rs | Some _ => None end in
  match here with
  | Some x => Some x
  | None =>
      match rs with
      | r :: rs' => if lead_rune r then '(a, n) ← m rs'; Some (a, S n) else None
      | [] => None
      end
  end.

Definition rune_ascii (r : Z) : ascii := ascii_of_N (Z.to_N r).

Definition ascii_text (rs : list Z) : string := foldr (fun r s => String (rune_ascii r) s) "" rs.

(** [owner/repo#N] after the lead. *)
Definition match_cross (rs : list Z) : option ((string * string * Z) * nat) :=
  '(owner, rest) ← match_slug rs;
  match rest with
  | 47 :: rest =>
      '(name, rest) ← match_slug rest;
      '(n, k) ← match_number rest;
      Some ((ascii_text owner, ascii_text name, n), length owner + 1 + length name + k)%nat
  | _ => None
  end.

Definition reCrossRepoIssueRef : option Z → list Z → option ((string * string * Z) * nat) :=
  with_lead match_cross.

Definition reSameRepoIssueRef : option Z → list Z → option (Z * nat) := with_lead match_number.

(** The references of a body, in the order the code follows them: those to other repositories
    first, then the numbers in what is left when they are blanked out. *)
Definition cross_refs (body : string) : list (string * string * Z) :=
  find_all reCrossRepoIssueRef None 0 (runes body).

Definition same_refs (body : string) : list Z :=
  find_all reSameRepoIssueRef None 0 (replace_all reCrossRepoIssueRef [32] None 0 (runes body)).

(** ** linked_issues.go *)

(** One letter under [(?i)]: ASCII case, and U+017F for [s]. *)
Definition fold_rune (r : Z) : Z :=
  if between 65 r 90 then r + 32 else if bool_decide (r = 383) then 115 else r.

Fixpoint strip_fold (kw rs : list Z) : option (list Z) :=
  match kw, rs with
  | [], _ => Some rs
  | k :: kw, r :: rs => if bool_decide (fold_rune r = k) then strip_fold kw rs else None
  | _ :: _, [] => None
  end.

Definition opt_sd (rs : list Z) : list Z :=
  match rs with
  | r :: rs' => if bool_decide (fold_rune r ∈ [115; 100]) then rs' else rs
  | [] => []
  end.

(** [close[sd]?|fix(?:e[sd])?|resolve[sd]?]: what remains behind the keyword. *)
Definition match_keyword (rs : list Z) : option (list Z) :=
  match strip_fold [99; 108; 111; 115; 101] rs with
  | Some rest => Some (opt_sd rest)
  | None =>
      match strip_fold [102; 105; 120] rs with
      | Some rest =>
          Some match rest with
               | e :: d :: rest' =>
                   if bool_decide (fold_rune e = 101) && bool_decide (fold_rune d ∈ [115; 100])
                   then rest' else rest
               | _ => rest
               end
      | None => opt_sd <$> strip_fold [114; 101; 115; 111; 108; 118; 101] rs
      end
  end.

Definition reLinkedIssue (prev : option Z) (rs : list Z) : option (Z * nat) :=
  if negb (word_boundary prev (head rs)) then None
  else
    rest ← match_keyword rs;
    let '(ws, rest') := span space_rune rest in
    if bool_decide (ws = []) then None
    else
      '(n, k) ← match_number rest';
      Some (n, (length rs - length rest' + k)%nat).

(** The loop of parseLinkedIssues with its [seen] set. *)
Fixpoint dedup (seen : gset Z) (l : list Z) : list Z :=
  match l with
  | [] => []
  | n :: l => if decide (n ∈ seen) then dedup seen l else n :: dedup ({[n]} ∪ seen) l
  end.

Definition parseLinkedIssues (body : string) : list Z :=
  if decide (body = "") then [] else dedup ∅ (find_all reLinkedIssue None 0 (runes body)).
