(* ===== verification/IssueRefsFacts.v ===== *)
(** * IssueRefsFacts: the references found are the references written

    [find_all] finds every match when no match starts inside another one; with that, the
    numbers that [parseLinkedIssues] and the same-repository expression answer are those of the
    occurrences described declaratively, and no other. *)

From S2P Require Import Prelude GoString IssueRefs.
Local Open Scope Z_scope.

(** ** Repetitions and numbers *)

Lemma span_spec (p : Z → bool) (rs a b : list Z) :
  span p rs = (a, b) ↔
    rs = a ++ b ∧ Forall (fun r => p r = true) a ∧ ∀ r, head b = Some r → p r = false.
Proof.
  revert a b. induction rs as [|r rs IH]; intros a b; cbn.
  - split; [intros [= <- <-]; by split_and!|].
    intros (E & _ & _). by destruct a, b.
  - destruct (p r) eqn:Ep.
    + destruct (span p rs) as [a' b'] eqn:E. split.
      * intros [= <- <-]. destruct (proj1 (IH a' b') eq_refl) as (-> & ? & ?). split_and!; auto.
      * intros (E1 & Ha & Hb). destruct a as [|r' a]; cbn in E1.
        { subst b. specialize (Hb r eq_refl). congruence. }
        injection E1 as <- ->. inversion_clear Ha.
        assert ((a', b') = (a, b)) as [= -> ->]; [|done]. by apply IH.
    + split.
      * intros [= <- <-]. split_and!; [done|constructor|]. by intros r' [= <-].
      * intros (E1 & Ha & Hb). destruct a as [|r' a]; cbn in E1; [by subst b|].
        injection E1 as <- ->. inversion_clear Ha. congruence.
Qed.

Lemma digit_word (r : Z) : digit_rune r = true → word_rune r = true.
Proof. unfold digit_rune, word_rune. by intros ->. Qed.

Definition is_number (ds : list Z) : Prop :=
  ds ≠ [] ∧ (length ds ≤ 9)%nat ∧ Forall (fun r => digit_rune r = true) ds.

Lemma number_last_word (ds : list Z) : is_number ds → word_at (last ds) = true.
Proof.
  intros (Hne & _ & Hd). destruct ds as [|d ds] using rev_ind; [done|].
  rewrite last_snoc. apply Forall_app in Hd as [_ Hd]. inversion_clear Hd. by apply digit_word.
Qed.

Lemma match_number_spec (rs : list Z) (n : Z) (k : nat) :
  match_number rs = Some (n, k) ↔
    ∃ ds suf, rs = 35 :: ds ++ suf ∧ is_number ds ∧ word_at (head suf) = false ∧
              n = ParseDigits ds ∧ k = S (length ds).
Proof.
  split.
  - intros H. assert (∃ rs', rs = 35 :: rs') as [rs' ->].
    { destruct rs as [|r rs']; [done|]. unfold match_number in H. repeat (case_match; try done). eauto. }
    cbn in H. destruct (span digit_rune rs') as [ds rest] eqn:E. apply span_spec in E as (-> & Hd & Hr).
    ifs_in H. bools. assert (is_number ds) as Hn by (split_and!; auto; lia).
    exists ds, rest. split_and!; try done.
    match goal with X : word_boundary _ _ = true |- _ => unfold word_boundary in X;
      rewrite (number_last_word _ Hn) in X; by destruct (word_at (head rest)) end.
  - intros (ds & suf & -> & Hn & Hs & -> & ->). cbn.
    assert (span digit_rune (ds ++ suf) = (ds, suf)) as ->.
    { apply span_spec. split_and!; [done|apply Hn|]. intros r Hr. rewrite Hr in Hs. cbn in Hs.
      destruct (digit_rune r) eqn:Ed; [|done]. apply digit_word in Ed. congruence. }
    unfold word_boundary. rewrite (number_last_word _ Hn), Hs. cbn.
    destruct Hn as (Hne & Hlen & _).
    rewrite bool_decide_eq_false_2, bool_decide_eq_false_2; [done|lia|done].
Qed.

(** ** find_all *)

Definition prev_at (prev : option Z) (rs : list Z) (k : nat) : option Z :=
  match k with O => prev | S k => rs !! k end.

Lemma prev_at_cons (prev : option Z) (r : Z) (rs : list Z) (k : nat) :
  prev_at prev (r :: rs) (S k) = prev_at (Some r) rs k.
Proof. by destruct k. Qed.

Section FindAllFacts.
  Context {A : Type} (m : option Z → list Z → option (A * nat)).

  (** No match starts inside another one. *)
  Context (m_inner : ∀ prev rs a n k, m prev rs = Some (a, n) → (0 < k < n)%nat →
                                      m (prev_at prev rs k) (drop k rs) = None).

Lemma find_all_elem_skip (prev : option Z) (skip : nat) (rs : list Z) (x : A) :
  (∀ k, (k < skip)%nat → m (prev_at prev rs k) (drop k rs) = None) →
  x ∈ find_all m prev skip rs ↔
  ∃ k n, (k < length rs)%nat ∧ m (prev_at prev rs k) (drop k rs) = Some (x, n).
Proof.
  revert prev skip. induction rs as [|r rs IH]; intros prev skip Hskip; cbn [find_all].
  { split; [by intros ?%elem_of_nil|]. intros (k & n & Hk & _). cbn in Hk. lia. }
  assert (∀ s, (∀ k, (k < s)%nat → m (prev_at prev (r :: rs) (S k)) (drop (S k) (r :: rs)) = None) →
    x ∈ find_all m (Some r) s rs ↔
    ∃ k n, (k < length rs)%nat ∧ m (prev_at prev (r :: rs) (S k)) (drop (S k) (r :: rs)) = Some (x, n))
    as IH'.
  { intros s Hs. rewrite IH; [|intros k Hk; specialize (Hs k Hk); by rewrite prev_at_cons in Hs].
    by setoid_rewrite prev_at_cons. }
  assert (∀ P : nat → nat → Prop, (∃ k n, (k < length (r :: rs))%nat ∧ P k n) ↔
    (∃ n, P O n) ∨ ∃ k n, (k < length rs)%nat ∧ P (S k) n) as Hsplit.
  { intros P. split.
    - intros ([|k] & n & Hk & HP); [eauto|]. right. exists k, n. cbn in Hk. split; [lia|done].
    - intros [(n & HP)|(k & n & Hk & HP)]; [exists O, n|exists (S k), n]; cbn; split; auto; lia. }
  rewrite Hsplit. cbn [prev_at drop].
  destruct skip as [|skip].
  - destruct (m prev (r :: rs)) as [[a n]|] eqn:Em.
    + rewrite elem_of_cons, IH'.
      * split; (intros [H|H]; [left|by right]); [subst; by exists n|by destruct H as (? & [= -> _])].
      * intros k Hk. apply (m_inner _ _ _ _ _ Em). lia.
    + rewrite IH' by (intros; lia). split; [by right|]. intros [(n & [=])|H]; done.
  - rewrite IH'; [|intros k Hk; apply Hskip; lia].
    specialize (Hskip O ltac:(lia)). cbn in Hskip.
    split; [by right|]. intros [(n & H)|H]; [congruence|done].
Qed.

Lemma find_all_elem (rs : list Z) (x : A) :
  x ∈ find_all m None 0 rs ↔
  ∃ pre suf n, rs = pre ++ suf ∧ suf ≠ [] ∧ m (last pre) suf = Some (x, n).
Proof.
  rewrite find_all_elem_skip by (intros; lia). split.
  - intros (k & n & Hk & Hm). exists (take k rs), (drop k rs), n. rewrite take_drop. split; [done|].
    split; [intros E; apply (f_equal length) in E; rewrite length_drop in E; cbn in E; lia|].
    destruct k as [|k]; [done|]. cbn in Hm.
    assert (last (take (S k) rs) = rs !! k) as ->; [|done].
    rewrite last_lookup, length_take, Nat.min_l by lia. cbn. by rewrite lookup_take_lt by lia.
  - intros (pre & suf & n & -> & Hs & Hm). exists (length pre), n. rewrite drop_app_length.
    split; [rewrite length_app; destruct suf; cbn; [done|lia]|].
    destruct pre as [|x0 pre] using rev_ind; [done|]. rewrite length_app, Nat.add_1_r. cbn.
    rewrite <- (app_assoc pre). rewrite lookup_app_r, Nat.sub_diag by lia. cbn. by rewrite last_snoc in Hm.
Qed.

End FindAllFacts.

(** ** Keywords that close an issue *)

Lemma strip_fold_spec (kw rs rest : list Z) :
  strip_fold kw rs = Some rest ↔ ∃ a, rs = a ++ rest ∧ fold_rune <$> a = kw.
Proof.
  revert rs. induction kw as [|k kw IH]; intros rs; cbn.
  - split; [intros [= ->]; by exists []|]. intros (a & -> & Ha). by apply fmap_nil_inv in Ha as ->.
  - destruct rs as [|r rs].
    + split; [done|]. intros ([|? ?] & E & Ha); done.
    + case_bool_decide as Er.
      * rewrite IH. split; intros (a & E & Ha).
        { exists (r :: a). subst. done. }
        destruct a as [|r' a]; [done|]. cbn in *. simplify_eq. by exists a.
      * split; [done|]. intros ([|r' a] & E & Ha); cbn in *; by simplify_eq.
Qed.

Definition keywords : list (list Z) :=
  let close := [99; 108; 111; 115; 101] in
  let fix_ := [102; 105; 120] in
  let resolve := [114; 101; 115; 111; 108; 118; 101] in
  [close; close ++ [115]; close ++ [100]; fix_; fix_ ++ [101; 115]; fix_ ++ [101; 100];
   resolve; resolve ++ [115]; resolve ++ [100]].

Lemma opt_sd_spec (kw0 a rest : list Z) :
  fold_rune <$> a = kw0 →
  ∃ kw, a ++ rest = kw ++ opt_sd rest ∧
        ((fold_rune <$> kw) = kw0 ∨ (fold_rune <$> kw) = kw0 ++ [115] ∨ (fold_rune <$> kw) = kw0 ++ [100]).
Proof.
  intros Ha. destruct rest as [|r rest]; cbn; [exists a; auto|].
  case_bool_decide as Er; [|exists a; auto]. exists (a ++ [r]). rewrite <- app_assoc. split; [done|].
  rewrite fmap_app, Ha. cbn. set_unfold in Er. destruct Er as [->|[->|[]]]; auto.
Qed.

Lemma match_keyword_sound (rs rest : list Z) :
  match_keyword rs = Some rest → ∃ kw, rs = kw ++ rest ∧ (fold_rune <$> kw) ∈ keywords.
Proof.
  unfold match_keyword.
  destruct (strip_fold [99; 108; 111; 115; 101] rs) as [r1|] eqn:E1.
  { apply strip_fold_spec in E1 as (a & -> & Ha). intros [= <-].
    destruct (opt_sd_spec _ _ r1 Ha) as (kw & -> & H). exists kw. split; [done|].
    destruct H as [->|[->| ->]]; apply (bool_decide_unpack _); by vm_compute. }
  destruct (strip_fold [102; 105; 120] rs) as [r2|] eqn:E2.
  { apply strip_fold_spec in E2 as (a & -> & Ha). intros [= <-].
    destruct r2 as [|e [|d r2]]; try (exists a; rewrite Ha; split; [done|]; apply (bool_decide_unpack _); by vm_compute).
    destruct (bool_decide _ && bool_decide _) eqn:Eb.
    - bools. exists (a ++ [e; d]). rewrite <- app_assoc, fmap_app, Ha. split; [done|]. cbn.
      match goal with H : fold_rune e = 101 |- _ => rewrite H end.
      match goal with H : fold_rune d ∈ _ |- _ => set_unfold in H; destruct H as [->|[->|[]]] end;
        apply (bool_decide_unpack _); by vm_compute.
    - exists a. rewrite Ha. split; [done|]. apply (bool_decide_unpack _); by vm_compute. }
  destruct (strip_fold [114; 101; 115; 111; 108; 118; 101] rs) as [r3|] eqn:E3; [|intros [=]].
  apply strip_fold_spec in E3 as (a & -> & Ha). intros [= <-].
  destruct (opt_sd_spec _ _ r3 Ha) as (kw & -> & H). exists kw. split; [done|].
  destruct H as [->|[->| ->]]; apply (bool_decide_unpack _); by vm_compute.
Qed.

(** White space folds to itself and to no letter of a keyword. *)
Lemma space_fold (w : Z) : space_rune w = true → fold_rune w = w ∧ w ∈ [9; 10; 12; 13; 32].
Proof.
  unfold space_rune. intros H. apply bool_decide_eq_true in H. split; [|done].
  set_unfold in H. destruct H as [->|[->|[->|[->|[->|[]]]]]]; reflexivity.
Qed.


(** Evaluates the tests on a rune whose folding is known. *)
Local Ltac fold_hyp :=
  match goal with
  | H : fold_rune ?r = ?c |- context [fold_rune ?r] => rewrite H
  | |- context [bool_decide (Zpos ?a = Zpos ?b)] =>
      first [rewrite (bool_decide_eq_true_2 (Zpos a = Zpos b)) by reflexivity
            |rewrite (bool_decide_eq_false_2 (Zpos a = Zpos b)) by discriminate]
  end.

Lemma match_keyword_complete (kw : list Z) (w : Z) (rest : list Z) :
  (fold_rune <$> kw) ∈ keywords → space_rune w = true →
  match_keyword (kw ++ w :: rest) = Some (w :: rest).
Proof.
  intros Hk Hw. apply space_fold in Hw as [_ Hw]. unfold keywords in Hk. cbn [app] in Hk.
  repeat (apply elem_of_cons in Hk as [Hk|Hk]); [..|by apply elem_of_nil in Hk];
    repeat (destruct kw as [|? kw]; cbn in Hk; try discriminate Hk; injection Hk as ? Hk || clear Hk);
    unfold match_keyword; cbn [app strip_fold];
    repeat (fold_hyp; cbn [strip_fold opt_sd fmap option_fmap option_map]);
    set_unfold in Hw; destruct Hw as [->|[->|[->|[->|[->|[]]]]]];
    destruct rest; vm_compute; reflexivity.
Qed.

(** ** The expression of linked_issues.go *)

(** A closing reference at the start of a text: a keyword, white space, [#] and a number that no word
    character follows. *)
Definition closing (kw ws ds suf : list Z) (n : Z) : Prop :=
  (fold_rune <$> kw) ∈ keywords ∧ ws ≠ [] ∧ Forall (fun r => space_rune r = true) ws ∧
  is_number ds ∧ word_at (head suf) = false ∧ n = ParseDigits ds.

Lemma keyword_head (kw : list Z) :
  (fold_rune <$> kw) ∈ keywords →
  ∃ r kw', kw = r :: kw' ∧ fold_rune r ∈ [99; 102; 114] ∧
           Forall (fun r => fold_rune r ∉ [99; 102; 114]) kw'.
Proof.
  assert (forallb (fun k => match k with
     | [] => false
     | r :: k' => bool_decide (r ∈ [99; 102; 114] ∧ Forall (fun r => r ∉ [99; 102; 114]) k') end)
     keywords = true) as HF by reflexivity.
  rewrite forallb_forall in HF. intros H. apply list_elem_of_In in H. specialize (HF _ H).
  destruct kw as [|r kw]; [done|]. cbn in HF. apply bool_decide_eq_true in HF.
  destruct HF as [H1 H2]. exists r, kw. split; [reflexivity|]. split; [exact H1|]. exact (proj1 (Forall_fmap fold_rune _ kw) H2).
Qed.

Lemma fold_cfr_word (r : Z) : fold_rune r ∈ [99; 102; 114] → word_rune r = true.
Proof.
  unfold fold_rune. intros H.
  destruct (between 65 r 90) eqn:E.
  - unfold word_rune. rewrite E. by rewrite orb_true_r.
  - case_bool_decide; set_unfold in H; [lia|]. by destruct H as [->|[->|[->|[]]]].
Qed.

Lemma reLinkedIssue_spec (prev : option Z) (rs : list Z) (n : Z) (k : nat) :
  reLinkedIssue prev rs = Some (n, k) ↔
    word_at prev = false ∧
    ∃ kw ws ds suf, rs = kw ++ ws ++ 35 :: ds ++ suf ∧ closing kw ws ds suf n ∧
                    k = (length kw + length ws + S (length ds))%nat.
Proof.
  unfold reLinkedIssue. split.
  - intros H. destruct (word_boundary prev (head rs)) eqn:Eb; [|done]. cbn [negb] in H.
    destruct (match_keyword rs) as [rest|] eqn:Ek; [|done]. cbn [mbind option_bind] in H.
    apply match_keyword_sound in Ek as (kw & -> & Hkw).
    destruct (span space_rune rest) as [ws rest'] eqn:Es. apply span_spec in Es as (-> & Hws & _).
    case_bool_decide; [done|]. destruct (match_number rest') as [[n' k']|] eqn:En; [|done].
    cbn in H. injection H as -> <-. apply match_number_spec in En as (ds & suf & -> & Hn & Hs & -> & ->).
    destruct (keyword_head kw Hkw) as (r & kw' & -> & Hr & _).
    split.
    { unfold word_boundary in Eb. cbn in Eb. rewrite (fold_cfr_word r Hr) in Eb.
      by destruct (word_at prev). }
    exists (r :: kw'), ws, ds, suf. split_and!; try done.
    repeat (rewrite length_app || cbn [length]). lia.
  - intros (Hp & kw & ws & ds & suf & -> & (Hkw & Hne & Hws & Hn & Hs & ->) & ->).
    destruct (keyword_head kw Hkw) as (r & kw' & Ekw & Hr & _).
    assert (head (kw ++ ws ++ 35 :: ds ++ suf) = Some r) as -> by (by rewrite Ekw).
    unfold word_boundary. cbn [word_at]. rewrite Hp, (fold_cfr_word r Hr). cbn [xorb negb].
    destruct ws as [|w ws]; [done|]. pose proof (Forall_inv Hws) as Hw.
    assert (match_keyword (kw ++ (w :: ws) ++ 35 :: ds ++ suf) = Some ((w :: ws) ++ 35 :: ds ++ suf)) as ->
      by (by apply match_keyword_complete).
    cbn [mbind option_bind].
    assert (span space_rune ((w :: ws) ++ 35 :: ds ++ suf) = (w :: ws, 35 :: ds ++ suf)) as ->.
    { apply span_spec. split_and!; [done|done|]. by intros ? [= <-]. }
    rewrite bool_decide_eq_false_2 by done.
    assert (match_number (35 :: ds ++ suf) = Some (ParseDigits ds, S (length ds))) as ->
      by (apply match_number_spec; eauto 10).
    cbn. do 2 f_equal. repeat (rewrite length_app || cbn [length]). lia.
Qed.

(** No keyword starts inside a match. *)
Lemma reLinkedIssue_inner (prev : option Z) (rs : list Z) (n : Z) (m k : nat) :
  reLinkedIssue prev rs = Some (n, m) → (0 < k < m)%nat →
  reLinkedIssue (prev_at prev rs k) (drop k rs) = None.
Proof.
  intros H Hk. destruct (reLinkedIssue _ (drop k rs)) as [[n' m']|] eqn:E; [|done]. exfalso.
  apply reLinkedIssue_spec in H as (_ & kw & ws & ds & suf & -> & (Hkw & _ & Hws & Hn & _) & ->).
  apply reLinkedIssue_spec in E as (_ & kw2 & ws2 & ds2 & suf2 & E & (Hkw2 & _) & _).
  destruct (keyword_head _ Hkw) as (r & kw' & -> & _ & Hin).
  destruct (keyword_head _ Hkw2) as (r2 & kw2' & -> & Hr2 & _).
  assert ((kw' ++ ws ++ 35 :: ds ++ suf) !! pred k = Some r2) as Hl.
  { destruct k as [|k]; [lia|]. cbn [pred]. cbn [app drop] in E.
    rewrite <- (Nat.add_0_r k), <- lookup_drop. cbn in E |- *. by rewrite E. }
  assert (Forall (fun r => fold_rune r ∉ [99; 102; 114]) (kw' ++ ws ++ 35 :: ds)) as HF.
  { rewrite !Forall_app, Forall_cons. split_and!; [done|..].
    - eapply Forall_impl; [exact Hws|]. cbn. intros x Hx. apply space_fold in Hx as [-> Hx].
      set_unfold in Hx. set_unfold. lia.
    - apply (bool_decide_unpack _); by vm_compute.
    - destruct Hn as (_ & _ & Hn). eapply Forall_impl; [exact Hn|]. cbn. intros x Hx.
      unfold digit_rune, between in Hx. bools. unfold fold_rune, between.
      rewrite bool_decide_eq_false_2, andb_false_l, bool_decide_eq_false_2 by lia. set_unfold. lia. }
  rewrite (app_comm_cons ds suf), !app_assoc, <- (app_assoc kw'), lookup_app_l in Hl
    by (repeat (rewrite length_app || cbn [length]); cbn in Hk; lia).
  eapply Forall_lookup_1 in HF; [|exact Hl]. done.
Qed.

Lemma dedup_elem_of (l : list Z) (seen : gset Z) (n : Z) : n ∈ dedup seen l ↔ n ∈ l ∧ n ∉ seen.
Proof.
  revert seen. induction l as [|x l IH]; intros seen; cbn; [set_solver|].
  case_decide; rewrite ?elem_of_cons, IH; [set_solver|]. destruct (decide (n = x)); set_solver.
Qed.

Lemma dedup_NoDup (l : list Z) (seen : gset Z) : NoDup (dedup seen l).
Proof.
  revert seen. induction l as [|x l IH]; intros seen; cbn; [constructor|].
  case_decide; [done|]. constructor; [|done]. rewrite dedup_elem_of. set_solver.
Qed.

(** the numbers that [parseLinkedIssues] answers, each once, are those of the closing references
    of the text: a keyword that no word character precedes, white space, [#] and up to nine digits that
    no word character follows; the keyword is read without regard to case.  No occurrence is lost to
    another one. *)
Theorem parseLinkedIssues_spec (body : string) :
  NoDup (parseLinkedIssues body) ∧
  ∀ n, n ∈ parseLinkedIssues body ↔
       ∃ pre kw ws ds suf, runes body = pre ++ kw ++ ws ++ 35 :: ds ++ suf ∧
                           word_at (last pre) = false ∧ closing kw ws ds suf n.
Proof.
  unfold parseLinkedIssues. case_decide as Hb.
  { subst. split; [constructor|]. intros n. split; [by intros ?%elem_of_nil|].
    intros (pre & kw & ws & ds & suf & E & _). cbn in E. apply (f_equal length) in E.
    repeat (rewrite length_app in E || cbn [length] in E). lia. }
  split; [apply dedup_NoDup|]. intros n. rewrite dedup_elem_of, (find_all_elem reLinkedIssue).
  - split.
    + intros ((pre & suf & k & E & _ & Hm) & _).
      apply reLinkedIssue_spec in Hm as (Hp & kw & ws & ds & suf' & -> & Hc & _).
      by exists pre, kw, ws, ds, suf'.
    + intros (pre & kw & ws & ds & suf & E & Hp & Hc). split; [|apply not_elem_of_empty].
      exists pre, (kw ++ ws ++ 35 :: ds ++ suf), (length kw + length ws + S (length ds))%nat.
      split_and!; [done| |].
      * intros E0. apply (f_equal length) in E0. repeat (rewrite length_app in E0 || cbn [length] in E0). lia.
      * apply reLinkedIssue_spec. split; [done|]. by exists kw, ws, ds, suf.
  - intros prev rs a k i. apply reLinkedIssue_inner.
Qed.

(** ** The same-repository expression of references.go *)

Lemma with_lead_Some {A} (m : list Z → option (A * nat)) (prev : option Z) (rs : list Z) (a : A) (k : nat) :
  with_lead m prev rs = Some (a, k) →
  (prev = None ∧ m rs = Some (a, k)) ∨
  ∃ r rs' k', rs = r :: rs' ∧ lead_rune r = true ∧ m rs' = Some (a, k') ∧ k = S k'.
Proof.
  assert (match rs with
          | r :: rs' => if lead_rune r then '(a, n) ← m rs'; Some (a, S n) else None
          | [] => None
          end = Some (a, k) →
          ∃ r rs' k', rs = r :: rs' ∧ lead_rune r = true ∧ m rs' = Some (a, k') ∧ k = S k') as Hlead.
  { destruct rs as [|r rs]; [done|]. destruct (lead_rune r) eqn:El; [|done].
    destruct (m rs) as [[a' k']|] eqn:Em; [|done]. intros [= -> <-]. eauto 10. }
  unfold with_lead. destruct prev as [p|]; [by right; apply Hlead|].
  destruct (m rs) as [[a' k']|] eqn:Em; [|by right; apply Hlead]. intros [= -> ->]. by left.
Qed.

Lemma match_number_digit (d : Z) (rs : list Z) : digit_rune d = true → match_number (d :: rs) = None.
Proof.
  intros Hd. destruct (match_number (d :: rs)) as [[n k]|] eqn:E; [|done].
  apply match_number_spec in E as (ds & suf & [= -> _] & _). done.
Qed.

Lemma digits_no_start (ds suf : list Z) (i : nat) (p : Z) :
  Forall (fun r => digit_rune r = true) ds → (i < length ds)%nat →
  reSameRepoIssueRef (Some p) (drop i (ds ++ suf)) = None.
Proof.
  intros Hd Hi. rewrite drop_app_le by lia. destruct (drop i ds) as [|d ds'] eqn:E.
  { apply (f_equal length) in E. rewrite length_drop in E. cbn in E. lia. }
  assert (digit_rune d = true) as Hdig.
  { apply (Forall_lookup_1 _ _ i d Hd). by rewrite <- (Nat.add_0_r i), <- lookup_drop, E. }
  cbn. unfold lead_rune. by rewrite (digit_word d Hdig).
Qed.

Lemma reSameRepoIssueRef_inner (prev : option Z) (rs : list Z) (n : Z) (m k : nat) :
  reSameRepoIssueRef prev rs = Some (n, m) → (0 < k < m)%nat →
  reSameRepoIssueRef (prev_at prev rs k) (drop k rs) = None.
Proof.
  intros H Hk.
  assert (∃ i, k = S i) as [i ->] by (exists (pred k); lia).
  destruct (decide (i < length rs)%nat) as [Hi|Hi]; [|rewrite drop_ge by lia; by destruct (prev_at _ _ _)].
  apply lookup_lt_is_Some in Hi as [p Hp]. cbn [prev_at]. rewrite Hp.
  apply with_lead_Some in H as [(_ & H)|(r & rs' & k' & -> & Hr & H & ->)];
    apply match_number_spec in H as (ds & suf & -> & (Hne & _ & Hd) & _ & _ & ->).
  - cbn [drop]. apply digits_no_start; [done|lia].
  - destruct i as [|i]; cbn [drop].
    + unfold reSameRepoIssueRef, with_lead. destruct (lead_rune 35); [|done].
      destruct ds as [|d ds]; [done|]. cbn [app].
      rewrite match_number_digit; [done|by inversion Hd].
    + apply digits_no_start; [done|lia].
Qed.

(** What the references to the same repository are: [#] at the start of the text or behind a rune that is no
    word character and no slash, up to nine digits, and no word character behind them. *)
Lemma same_repo_refs_spec (rs : list Z) (n : Z) :
  n ∈ find_all reSameRepoIssueRef None 0 rs ↔
  ∃ pre ds suf, rs = pre ++ 35 :: ds ++ suf ∧ is_number ds ∧ word_at (head suf) = false ∧
                n = ParseDigits ds ∧ ∀ r, last pre = Some r → lead_rune r = true.
Proof.
  rewrite (find_all_elem _ reSameRepoIssueRef_inner). split.
  - intros (pre & suf & k & -> & _ & H).
    apply with_lead_Some in H as [(Hl & H)|(r & rs' & k' & -> & Hr & H & ->)];
      apply match_number_spec in H as (ds & suf' & -> & Hn & Hs & -> & _).
    + exists pre, ds, suf'. rewrite Hl. by split_and!.
    + exists (pre ++ [r]), ds, suf'. rewrite <- app_assoc, last_snoc. split_and!; try done.
      by intros r' [= <-].
  - intros (pre & ds & suf & -> & Hn & Hs & -> & Hl).
    assert (match_number (35 :: ds ++ suf) = Some (ParseDigits ds, S (length ds))) as Hm
      by (apply match_number_spec; eauto 10).
    destruct pre as [|r pre _] using rev_ind.
    + exists [], (35 :: ds ++ suf), (S (length ds)). split; [done|]. split; [done|].
      unfold reSameRepoIssueRef, with_lead. cbn [last]. by rewrite Hm.
    + exists pre, (r :: 35 :: ds ++ suf), (S (S (length ds))). rewrite <- app_assoc.
      split; [done|]. split; [done|]. specialize (Hl r (last_snoc _ _)).
      unfold reSameRepoIssueRef, with_lead. rewrite Hl, Hm.
      assert (match_number (r :: 35 :: ds ++ suf) = None) as ->; [|by destruct (last pre)].
      destruct (match_number (r :: 35 :: ds ++ suf)) as [[n' k']|] eqn:E; [|done].
      apply match_number_spec in E as (ds' & suf' & E & (Hne & _ & Hd) & _).
      destruct ds' as [|d ds']; [done|]. pose proof (Forall_inv Hd) as Hd0.
      cbn in E. by simplify_eq.
Qed.
