(* ===== verification/Issues.v ===== *)
(** * Issues: issues, comments, labels, milestones and assignees

    internal/issues (issues.go, labels.go, milestones.go, references.go, notif_emit.go) with the statements of
    queries/issues.sql and the constraints of migration 0022.  [Tables] are the tables of that
    migration; a function of the package is one transaction on them and answers the tables it leaves, or
    an error, and then the tables are what they were.  What lies outside is an argument of the
    section: the tables of users and repositories, markdown, the entitlement check, the limiter. *)

From S2P Require Import Prelude GoString IssueRefs.
Local Open Scope Z_scope.

(** ** Data *)

Inductive IssueKind := IssueKindIssue | IssueKindPr.
Inductive IssueState := IssueStateOpen | IssueStateClosed.
Inductive IssueRefSource := CommentBody | IssueBody.

#[export] Instance IssueKind_eq_dec : EqDecision IssueKind.
Proof. solve_decision. Defined.
#[export] Instance IssueState_eq_dec : EqDecision IssueState.
Proof. solve_decision. Defined.

Record Issue := MkIssue {
  i_ID : Z; i_RepoID : Z; i_Number : Z; i_Kind : IssueKind; i_Title : string; i_Body : string;
  i_BodyHtmlCached : option string; i_AuthorUserID : option Z; i_State : IssueState;
  i_StateReason : option string; i_Locked : bool; i_LockReason : option string;
  i_MilestoneID : option Z; i_ClosedAt : option Z; i_ClosedByUserID : option Z
}.

Record IssueComment := MkIssueComment {
  c_IssueID : Z; c_AuthorUserID : option Z; c_Body : string; c_BodyHtmlCached : option string
}.

(** [meta] is the JSON object of the event as text. *)
Record IssueEvent := MkIssueEvent {
  e_IssueID : Z; e_ActorUserID : option Z; e_Kind : string; e_Meta : string; e_RefTargetID : option Z
}.

Record IssueReference := MkReference {
  r_SourceIssueID : option Z; r_TargetIssueID : Z; r_SourceKind : IssueRefSource;
  r_SourceObjectID : option Z
}.

Record Label := MkLabel { l_RepoID : Z; l_Name : string; l_Color : string; l_Description : string }.

Record Milestone := MkMilestone {
  m_RepoID : Z; m_Title : string; m_Description : string; m_DueOn : option Z;
  m_Open : bool; m_ClosedAt : option Z
}.

(** notif.Event as the emitters of the package fill it. *)
Inductive ExtraVal := XNum (n : Z) | XText (s : string).
Record DomainEvent := MkDomainEvent {
  d_ActorUserID : Z; d_Kind : string; d_RepoID : Z; d_SourceKind : string; d_SourceID : Z;
  d_Public : bool; d_Mentions : list Z; d_Extra : list (string * ExtraVal)
}.

(** The sequences of the serial columns are the [next_] fields. *)
Record Tables := MkTables {
  counters : gmap Z Z; issues : gmap Z Issue; comments : gmap Z IssueComment;
  assignees : gset (Z * Z); labels : gmap Z Label; issue_labels : gset (Z * Z);
  milestones : gmap Z Milestone; events : list IssueEvent; references : list IssueReference;
  domain_events : list DomainEvent;
  next_issue : Z; next_comment : Z; next_label : Z; next_milestone : Z
}.

Definition no_tables : Tables := MkTables ∅ ∅ ∅ ∅ ∅ ∅ ∅ [] [] [] 1 1 1 1.

Definition with_counters m t := MkTables m (issues t) (comments t) (assignees t) (labels t)
  (issue_labels t) (milestones t) (events t) (references t) (domain_events t)
  (next_issue t) (next_comment t) (next_label t) (next_milestone t).
Definition with_issues m t := MkTables (counters t) m (comments t) (assignees t) (labels t)
  (issue_labels t) (milestones t) (events t) (references t) (domain_events t)
  (next_issue t) (next_comment t) (next_label t) (next_milestone t).
Definition with_assignees m t := MkTables (counters t) (issues t) (comments t) m (labels t)
  (issue_labels t) (milestones t) (events t) (references t) (domain_events t)
  (next_issue t) (next_comment t) (next_label t) (next_milestone t).
Definition with_labels m il t := MkTables (counters t) (issues t) (comments t) (assignees t) m
  il (milestones t) (events t) (references t) (domain_events t)
  (next_issue t) (next_comment t) (next_label t) (next_milestone t).
Definition with_milestones m t := MkTables (counters t) (issues t) (comments t) (assignees t)
  (labels t) (issue_labels t) m (events t) (references t) (domain_events t)
  (next_issue t) (next_comment t) (next_label t) (next_milestone t).
Definition with_events l t := MkTables (counters t) (issues t) (comments t) (assignees t)
  (labels t) (issue_labels t) (milestones t) l (references t) (domain_events t)
  (next_issue t) (next_comment t) (next_label t) (next_milestone t).
Definition with_references l t := MkTables (counters t) (issues t) (comments t) (assignees t)
  (labels t) (issue_labels t) (milestones t) (events t) l (domain_events t)
  (next_issue t) (next_comment t) (next_label t) (next_milestone t).
Definition with_domain_events l t := MkTables (counters t) (issues t) (comments t) (assignees t)
  (labels t) (issue_labels t) (milestones t) (events t) (references t) l
  (next_issue t) (next_comment t) (next_label t) (next_milestone t).

(** The package's errors; [ErrDB] is a statement that a constraint of the schema refuses or that
    finds no row, [ErrText] an error without a name of its own. *)
Inductive IssueErr :=
| ErrEmptyTitle | ErrTitleTooLong | ErrBodyTooLong | ErrEmptyComment | ErrCommentTooLong
| ErrNullByteInTitle | ErrNullByteInBody | ErrNullByteInComment | ErrMultilineTitle
| ErrUnicodeControlInTitle | ErrAlreadyInState | ErrIssueLocked | ErrCommentRateLimit
| ErrLabelExists | ErrLabelInvalidColor | ErrMilestoneExists | ErrIssueNotFound
| ErrMultipleAssigneesRequireTeam | ErrDB | ErrText (s : string).

#[export] Instance IssueErr_eq_dec : EqDecision IssueErr.
Proof. solve_decision. Defined.

Abbreviation M A := (res IssueErr A).

(** The JSON object with one number. *)
Definition json_num (key : string) (n : Z) : string :=
  let dquote := String "034" "" in "{" +:+ dquote +:+ key +:+ dquote +:+ ":" +:+ pretty n +:+ "}".

Definition check (b : bool) (e : IssueErr) : M unit := if b then Err e else Ok tt.

(** A statement that a constraint can refuse. *)
Definition stmt {A} (o : option A) : M A := match o with Some a => Ok a | None => Err ErrDB end.

(** [pgtype.Int8{Int64: n, Valid: n != 0}]. *)
Definition nonzero (n : Z) : option Z := if decide (n = 0) then None else Some n.

Definition nonempty (s : string) : option string := if decide (s = "") then None else Some s.

(** What a text column takes: UTF-8 without the zero byte. *)
Fixpoint ValidString_from (skip : nat) (s : string) : bool :=
  match s with
  | "" => true
  | String _ s' =>
      match skip with
      | S k => ValidString_from k s'
      | O => let '(r, size) := DecodeRuneInString s in
             negb (bool_decide (r = RuneError ∧ size = 1%nat)) && ValidString_from (pred size) s'
      end
  end.

Definition has_null (s : string) : bool := existsb (fun r => bool_decide (r = 0)) (runes s).

Definition pg_text (s : string) : bool := ValidString_from 0 s && negb (has_null s).

(** ** Statements *)

Definition GetIssueByID (t : Tables) (id : Z) : option Issue := issues t !! id.

Definition GetIssueByNumber (t : Tables) (repo num : Z) : option Issue :=
  snd <$> head (map_to_list (filter (fun kv => i_RepoID kv.2 = repo ∧ i_Number kv.2 = num) (issues t))).

(** EnsureRepoIssueCounter and AllocateIssueNumber. *)
Definition EnsureRepoIssueCounter (t : Tables) (repo : Z) : Tables :=
  match counters t !! repo with
  | Some _ => t
  | None => with_counters (<[repo := 1]> (counters t)) t
  end.

Definition AllocateIssueNumber (t : Tables) (repo : Z) : option (Z * Tables) :=
  n ← counters t !! repo;
  Some (n, with_counters (<[repo := n + 1]> (counters t)) t).

Definition UpdateIssueTitleBody (t : Tables) (id : Z) (title body : string) (html : option string)
  : option Tables :=
  if negb (pg_text title && pg_text body) then None
  else Some (with_issues (alter (fun i => MkIssue (i_ID i) (i_RepoID i) (i_Number i) (i_Kind i) title body
               html (i_AuthorUserID i) (i_State i) (i_StateReason i) (i_Locked i) (i_LockReason i)
               (i_MilestoneID i) (i_ClosedAt i) (i_ClosedByUserID i)) id (issues t)) t).

(** SetIssueState: the tables and the number of rows, which is 0 when the state is already there. *)
Definition SetIssueState (t : Tables) (now id : Z) (state : IssueState) (reason : option string)
    (closedBy : option Z) : Z * Tables :=
  match issues t !! id with
  | Some i =>
      if decide (i_State i = state) then (0, t)
      else (1, with_issues (<[id := MkIssue (i_ID i) (i_RepoID i) (i_Number i) (i_Kind i) (i_Title i)
                 (i_Body i) (i_BodyHtmlCached i) (i_AuthorUserID i) state reason (i_Locked i)
                 (i_LockReason i) (i_MilestoneID i)
                 (if decide (state = IssueStateClosed) then Some now else None) closedBy]> (issues t)) t)
  | None => (0, t)
  end.

Definition SetIssueLock (t : Tables) (id : Z) (locked : bool) (reason : option string) : Tables :=
  with_issues (alter (fun i => MkIssue (i_ID i) (i_RepoID i) (i_Number i) (i_Kind i) (i_Title i) (i_Body i)
    (i_BodyHtmlCached i) (i_AuthorUserID i) (i_State i) (i_StateReason i) locked reason
    (i_MilestoneID i) (i_ClosedAt i) (i_ClosedByUserID i)) id (issues t)) t.

Definition set_milestone (m : option Z) (i : Issue) : Issue :=
  MkIssue (i_ID i) (i_RepoID i) (i_Number i) (i_Kind i) (i_Title i) (i_Body i)
    (i_BodyHtmlCached i) (i_AuthorUserID i) (i_State i) (i_StateReason i) (i_Locked i) (i_LockReason i)
    m (i_ClosedAt i) (i_ClosedByUserID i).

Definition SetIssueMilestone (t : Tables) (id : Z) (m : option Z) : option Tables :=
  match m with
  | Some mid => if decide (is_Some (milestones t !! mid)) then
                  Some (with_issues (alter (set_milestone m) id (issues t)) t) else None
  | None => Some (with_issues (alter (set_milestone m) id (issues t)) t)
  end.

(** InsertIssueEvent and InsertIssueReference; the issue is a foreign key. *)
Definition InsertIssueEvent (t : Tables) (id : Z) (actor : option Z) (kind meta : string)
    (target : option Z) : option Tables :=
  if decide (is_Some (issues t !! id))
  then Some (with_events (events t ++ [MkIssueEvent id actor kind meta target]) t) else None.

Definition InsertIssueReference (t : Tables) (r : IssueReference) : option Tables :=
  if decide (is_Some (issues t !! r_TargetIssueID r))
  then Some (with_references (references t ++ [r]) t) else None.

(** DeleteIssue with the cascades of the schema; pull requests are not deleted by it. *)
Definition DeleteIssue (t : Tables) (id : Z) : Tables :=
  match issues t !! id with
  | Some i =>
      if decide (i_Kind i = IssueKindIssue) then
        MkTables (counters t) (delete id (issues t))
          (filter (fun kv => c_IssueID kv.2 ≠ id) (comments t))
          (filter (fun p => p.1 ≠ id) (assignees t)) (labels t)
          (filter (fun p => p.1 ≠ id) (issue_labels t)) (milestones t)
          (filter (fun e => e_IssueID e ≠ id) (events t))
          ((fun r => MkReference (if decide (r_SourceIssueID r = Some id) then None else r_SourceIssueID r)
                       (r_TargetIssueID r) (r_SourceKind r) (r_SourceObjectID r)) <$>
           filter (fun r => r_TargetIssueID r ≠ id) (references t))
          (domain_events t) (next_issue t) (next_comment t) (next_label t) (next_milestone t)
      else t
  | None => t
  end.

(** ** Titles and bodies *)

Definition containsHostileUnicode (s : string) : bool :=
  existsb (fun r => bool_decide (r ∈ [8203; 8204; 8205; 8206; 8207; 8234; 8235; 8236; 8237; 8238;
                                      8294; 8295; 8296; 8297; 65279])) (runes s).

Definition multiline (s : string) : bool := existsb (fun r => bool_decide (r ∈ [10; 13])) (runes s).

(** The checks on a title, after TrimSpace. *)
Definition checkTitle (title : string) : M unit :=
  check (bool_decide (title = "")) ErrEmptyTitle;;
  check (bool_decide (256 < String.length title)%nat) ErrTitleTooLong;;
  check (has_null title) ErrNullByteInTitle;;
  check (multiline title) ErrMultilineTitle;;
  check (containsHostileUnicode title) ErrUnicodeControlInTitle.

(** [65535 < len(body)], byte by byte. *)
Definition longer_than (n : Z) (s : string) : bool := bool_decide (n < Z.of_nat (String.length s)).

Definition checkBody (body : string) : M unit :=
  check (longer_than 65535 body) ErrBodyTooLong;;
  check (has_null body) ErrNullByteInBody.

Record RepoInfo := MkRepoInfo { ri_OwnerOrgID : option Z; ri_Visibility : string }.

Record World := MkWorld {
  (** the tables of users and repositories *)
  user_exists : Z → bool;
  GetRepoByID : Z → option RepoInfo;
  principal : string → option (string * Z);
  GetRepoByOwnerUserAndName : Z → string → option Z;
  GetRepoByOwnerOrgAndName : Z → string → option Z;
  (** CheckOrgFeature for FeatureMultipleAssignees *)
  CheckMultipleAssignees : Z → M bool;
  (** markdown.Render: the text, the mentions and whether it failed *)
  Render : string → string * list string * bool;
  ResolveMentionUserIDs : list string → list Z;
  (** the folding of citext *)
  citext : string → string
}.

Fixpoint fold_res {E A B} (f : A → B → res E A) (a : A) (l : list B) : res E A :=
  match l with
  | [] => Ok a
  | b :: l => a ← f a b; fold_res f a l
  end.

Section Operations.
  Variable w : World.

(** ** references.go *)

(** The issue a cross-repository reference names. *)
Definition resolve_cross (t : Tables) (ref : string * string * Z) : option Z :=
  let '(owner, name, num) := ref in
  '(kind, id) ← principal w (str_map ascii_lower owner);
  repo ← (if decide (kind = "user") then GetRepoByOwnerUserAndName w id name
          else if decide (kind = "org") then GetRepoByOwnerOrgAndName w id name else None);
  i_ID <$> GetIssueByNumber t repo num.

Definition resolve_same (t : Tables) (repo num : Z) : option Z := i_ID <$> GetIssueByNumber t repo num.

Definition insertRef (source : Issue) (srcKind : IssueRefSource) (srcObjectID : Z)
    (st : Tables * gset Z) (targetID : Z) : M (Tables * gset Z) :=
  let '(t, seen) := st in
  if decide (targetID = i_ID source) then Ok (t, seen)
  else if decide (targetID ∈ seen) then Ok (t, seen)
  else
    t ← stmt (InsertIssueReference t (MkReference (Some (i_ID source)) targetID srcKind (nonzero srcObjectID)));
    t ← stmt (InsertIssueEvent t targetID (i_AuthorUserID source) "referenced"
               (json_num "source_issue_id" (i_ID source)) (Some (i_ID source)));
    Ok (t, {[targetID]} ∪ seen).

(** A reference that names no issue is skipped. *)
Definition follow {R} (resolve : Tables → R → option Z) (source : Issue) (srcKind : IssueRefSource)
    (srcObjectID : Z) (st : Tables * gset Z) (ref : R) : M (Tables * gset Z) :=
  match resolve st.1 ref with
  | Some target => insertRef source srcKind srcObjectID st target
  | None => Ok st
  end.

Definition insertReferencesFromBody (t : Tables) (source : Issue) (body : string)
    (srcKind : IssueRefSource) (srcObjectID : Z) : M Tables :=
  if decide (body = "") then Ok t
  else
    st ← fold_res (follow resolve_cross source srcKind srcObjectID) (t, ∅) (cross_refs body);
    st ← fold_res (follow (fun t => resolve_same t (i_RepoID source)) source srcKind srcObjectID) st
           (same_refs body);
    Ok st.1.

(** ** notif_emit.go *)

Definition repoVisibilityPublic (repo : Z) : bool :=
  match GetRepoByID w repo with
  | Some r => bool_decide (ri_Visibility r = "public")
  | None => false
  end.

Definition emit (t : Tables) (e : DomainEvent) : Tables := with_domain_events (domain_events t ++ [e]) t.

Definition emitIssueEventTx (t : Tables) (kind : string) (i : Issue) (actor : Z) (public : bool)
    (mentions : list Z) : Tables :=
  emit t (MkDomainEvent actor kind (i_RepoID i) "issue" (i_ID i) public mentions
            [("issue_number", XNum (i_Number i)); ("issue_title", XText (i_Title i))]).

Definition emitCommentEventTx (t : Tables) (kind : string) (i : Issue) (commentID actor : Z)
    (public : bool) (mentions : list Z) : Tables :=
  emit t (MkDomainEvent actor kind (i_RepoID i) "issue" (i_ID i) public mentions
            [("issue_number", XNum (i_Number i)); ("issue_title", XText (i_Title i));
             ("comment_id", XText (pretty commentID))]).

Definition emitAssignmentEventTx (t : Tables) (i : Issue) (actor assignee : Z) (public : bool) : Tables :=
  emit t (MkDomainEvent actor "issue_assigned" (i_RepoID i) "issue" (i_ID i) public []
            [("issue_number", XNum (i_Number i)); ("issue_title", XText (i_Title i));
             ("assignee_user_id", XNum assignee)]).

(** renderBody: a failure is logged and leaves nothing. *)
Definition renderBody (body : string) : string * list string :=
  if decide (body = "") then ("", [])
  else let '(html, mentions, failed) := Render w body in
       if (failed : bool) then ("", []) else (html, mentions).

(** ** issues.go *)

Record CreateParams := MkCreateParams {
  p_RepoID : Z; p_AuthorUserID : Z; p_Title : string; p_Body : string; p_Kind : string
}.

Definition kind_of (kind : string) : option IssueKind :=
  if decide (kind = "issue") then Some IssueKindIssue
  else if decide (kind = "pr") then Some IssueKindPr else None.

(** The author column is a foreign key. *)
Definition user_ref (u : option Z) : bool :=
  match u with Some u => user_exists w u | None => true end.

(** CreateIssue, with UNIQUE (repo_id, number). *)
Definition CreateIssue (t : Tables) (repo num : Z) (kind : IssueKind) (title body : string)
    (author : option Z) : option (Issue * Tables) :=
  if decide (is_Some (GetIssueByNumber t repo num)) then None
  else if negb (user_ref author && pg_text title && pg_text body) then None
  else
    let row := MkIssue (next_issue t) repo num kind title body None author IssueStateOpen None false None
                 None None None in
    Some (row, MkTables (counters t) (<[next_issue t := row]> (issues t)) (comments t) (assignees t)
            (labels t) (issue_labels t) (milestones t) (events t) (references t) (domain_events t)
            (next_issue t + 1) (next_comment t) (next_label t) (next_milestone t)).

Definition with_html (html : option string) (i : Issue) : Issue :=
  MkIssue (i_ID i) (i_RepoID i) (i_Number i) (i_Kind i) (i_Title i) (i_Body i)
    html (i_AuthorUserID i) (i_State i) (i_StateReason i) (i_Locked i) (i_LockReason i)
    (i_MilestoneID i) (i_ClosedAt i) (i_ClosedByUserID i).

Definition CreateInTx (t : Tables) (p : CreateParams) : M (Issue * Tables) :=
  let title := TrimSpace (p_Title p) in
  checkTitle title;;
  checkBody (p_Body p);;
  let kind := if decide (p_Kind p = "") then "issue" else p_Kind p in
  _ ← stmt (GetRepoByID w (p_RepoID p));
  let t := EnsureRepoIssueCounter t (p_RepoID p) in
  '(num, t) ← stmt (AllocateIssueNumber t (p_RepoID p));
  k ← stmt (kind_of kind);
  '(row, t) ← stmt (CreateIssue t (p_RepoID p) num k title (p_Body p) (nonzero (p_AuthorUserID p)));
  let '(html, mentions) := renderBody (p_Body p) in
  let row := with_html (nonempty html) row in
  t ← stmt (UpdateIssueTitleBody t (i_ID row) (i_Title row) (i_Body row) (nonempty html));
  t ← insertReferencesFromBody t row (p_Body p) IssueBody (i_ID row);
  let eventKind := if decide (kind = "pr") then "pr_opened" else "issue_created" in
  Ok (row, emitIssueEventTx t eventKind row (p_AuthorUserID p) (repoVisibilityPublic (p_RepoID p))
             (ResolveMentionUserIDs w mentions)).

(** Create: the same in a transaction of its own. *)
Definition Create (t : Tables) (p : CreateParams) : M (Issue * Tables) := CreateInTx t p.

Definition CreateIssueComment (t : Tables) (id : Z) (author : option Z) (body : string)
    (html : option string) : option (Z * Tables) :=
  if negb (bool_decide (is_Some (issues t !! id)) && user_ref author && pg_text body) then None
  else Some (next_comment t,
             MkTables (counters t) (issues t)
               (<[next_comment t := MkIssueComment id author body html]> (comments t)) (assignees t)
               (labels t) (issue_labels t) (milestones t) (events t) (references t) (domain_events t)
               (next_issue t) (next_comment t + 1) (next_label t) (next_milestone t)).

(** AddComment; [limited] is whether there is a limiter and it refuses the author.  The caller's
    [IsCollab] is not looked at. *)
Definition AddComment (t : Tables) (limited : bool) (issueID author : Z) (text : string)
  : M (Z * Tables) :=
  let body := TrimSpace text in
  check (bool_decide (body = "")) ErrEmptyComment;;
  check (longer_than 65535 body) ErrCommentTooLong;;
  check (has_null body) ErrNullByteInComment;;
  check (negb (bool_decide (author = 0)) && limited) ErrCommentRateLimit;;
  match GetIssueByID t issueID with
  | None => Err ErrIssueNotFound
  | Some issue =>
      check (i_Locked issue) ErrIssueLocked;;
      let '(html, mentions) := renderBody body in
      '(c, t) ← stmt (CreateIssueComment t issueID (nonzero author) body (nonempty html));
      t ← insertReferencesFromBody t issue body CommentBody c;
      let commentKind := if decide (i_Kind issue = IssueKindPr) then "pr_comment_created"
                         else "issue_comment_created" in
      Ok (c, emitCommentEventTx t commentKind issue c author (repoVisibilityPublic (i_RepoID issue))
               (ResolveMentionUserIDs w mentions))
  end.

Definition Edit (t : Tables) (issueID : Z) (newTitle newBody : option string) : M (Issue * Tables) :=
  cur ← stmt (GetIssueByID t issueID);
  title ← match newTitle with
          | Some s => checkTitle (TrimSpace s);; Ok (TrimSpace s)
          | None => Ok (i_Title cur)
          end;
  body ← match newBody with
         | Some s => checkBody s;; Ok s
         | None => Ok (i_Body cur)
         end;
  let html := nonempty (renderBody body).1 in
  t ← stmt (UpdateIssueTitleBody t issueID title body html);
  t ← match newBody with
      | Some _ =>
          fresh ← stmt (GetIssueByID t issueID);
          insertReferencesFromBody t fresh body IssueBody (i_ID fresh)
      | None => Ok t
      end;
  row ← stmt (GetIssueByID t issueID);
  Ok (row, t).

(** The values of the enum of reasons. *)
Definition valid_reason (reason : string) : bool :=
  bool_decide (reason ∈ [""; "completed"; "not_planned"; "reopened"; "duplicate"]).

Definition state_of (s : string) : option IssueState :=
  if decide (s = "open") then Some IssueStateOpen
  else if decide (s = "closed") then Some IssueStateClosed else None.

Definition setState (t : Tables) (now actor issueID : Z) (newState reason : string) (commentID : Z)
  : M Tables :=
  match state_of newState with
  | None => Err (ErrText "issues: state must be open or closed")
  | Some st =>
      let closedBy := if decide (st = IssueStateClosed) then nonzero actor else None in
      stmt (if valid_reason reason && user_ref closedBy then Some tt else None);;
      let '(rows, t) := SetIssueState t now issueID st (nonempty reason) closedBy in
      if decide (rows = 0) then Err ErrAlreadyInState
      else
        let kind := if decide (st = IssueStateOpen) then "reopened" else "closed" in
        let meta := if decide (commentID = 0) then "{}"
                    else json_num "comment_id" commentID in
        stmt (if user_ref (nonzero actor) then Some tt else None);;
        t ← stmt (InsertIssueEvent t issueID (nonzero actor) kind meta None);
        issue ← stmt (GetIssueByID t issueID);
        let stateKind := (if decide (i_Kind issue = IssueKindPr) then "pr_" else "issue_") +:+ kind in
        Ok (emitIssueEventTx t stateKind issue actor (repoVisibilityPublic (i_RepoID issue)) [])
  end.

Definition SetState (t : Tables) (now actor issueID : Z) (newState reason : string) : M Tables :=
  setState t now actor issueID newState reason 0.

Definition SetStateWithComment (t : Tables) (now actor issueID : Z) (newState reason : string)
    (commentID : Z) : M Tables :=
  setState t now actor issueID newState reason commentID.

(** InsertIssueEvent by an actor who is a user, or by none. *)
Definition event_by (t : Tables) (actor issueID : Z) (kind meta : string) : M Tables :=
  stmt (if user_ref (nonzero actor) then InsertIssueEvent t issueID (nonzero actor) kind meta None else None).

Definition SetLock (t : Tables) (actor issueID : Z) (locked : bool) (reason : string) : M Tables :=
  stmt (if pg_text reason then Some tt else None);;
  event_by (SetIssueLock t issueID locked (nonempty reason)) actor issueID
    (if locked then "locked" else "unlocked") "{}".

Definition Delete (t : Tables) (issueID : Z) : Tables := DeleteIssue t issueID.

(** ** labels.go *)

Definition LabelSeed : Type := string * string * string.

Definition DefaultLabels : list LabelSeed :=
  [("bug", "d73a4a", "Something isn't working");
   ("documentation", "0075ca", "Improvements or additions to documentation");
   ("duplicate", "cfd3d7", "This issue or pull request already exists");
   ("enhancement", "a2eeef", "New feature or request");
   ("good first issue", "7057ff", "Good for newcomers");
   ("help wanted", "008672", "Extra attention is needed");
   ("invalid", "e4e669", "This doesn't seem right");
   ("question", "d876e3", "Further information is requested");
   ("wontfix", "ffffff", "This will not be worked on")].

Definition hex_rune (r : Z) : bool := between 48 r 57 || between 97 r 102 || between 65 r 70.

Definition reHexColor (s : string) : bool :=
  bool_decide (String.length s = 6%nat) && forallb hex_rune (runes s).

Definition normalizeColor (c : string) : string := TrimPrefix (TrimSpace c) "#".

(** Another label of the repository with the name, as citext compares names. *)
Definition label_taken (t : Tables) (repo : Z) (name : string) (self : option Z) : bool :=
  bool_decide (filter (fun kv => Some kv.1 ≠ self ∧ l_RepoID kv.2 = repo ∧
                                 citext w (l_Name kv.2) = citext w name) (labels t) ≠ ∅).

Definition db_CreateLabel (t : Tables) (l : Label) : M (Z * Tables) :=
  if label_taken t (l_RepoID l) (l_Name l) None then Err ErrLabelExists
  else if negb (bool_decide (is_Some (GetRepoByID w (l_RepoID l))) && pg_text (l_Name l)
                && pg_text (l_Description l)) then Err ErrDB
  else Ok (next_label t,
           MkTables (counters t) (issues t) (comments t) (assignees t) (<[next_label t := l]> (labels t))
             (issue_labels t) (milestones t) (events t) (references t) (domain_events t)
             (next_issue t) (next_comment t) (next_label t + 1) (next_milestone t)).

Definition checkLabelName (name : string) : M unit :=
  check (bool_decide (name = "") || longer_than 50 name) (ErrText "issues: label name length 1–50").

Definition CreateLabel (t : Tables) (repo : Z) (name color description : string) : M (Z * Tables) :=
  checkLabelName (TrimSpace name);;
  check (negb (reHexColor (normalizeColor color))) ErrLabelInvalidColor;;
  db_CreateLabel t (MkLabel repo (TrimSpace name) (str_map ascii_lower (normalizeColor color)) description).

(** SeedDefaultLabels on a connection of its own: a name that is taken is passed over. *)
Definition seed_label (repo : Z) (t : Tables) (l : LabelSeed) : M Tables :=
  let '(name, color, description) := l in
  match db_CreateLabel t (MkLabel repo name color description) with
  | Ok (_, t') => Ok t'
  | Err e => if decide (e = ErrLabelExists) then Ok t else Err e
  end.

Definition SeedDefaultLabels (t : Tables) (repo : Z) : M Tables :=
  fold_res (seed_label repo) t DefaultLabels.

(** UpdateLabel of a label that is not there changes no row. *)
Definition UpdateLabel (t : Tables) (id : Z) (name color description : string) : M Tables :=
  checkLabelName (TrimSpace name);;
  check (negb (reHexColor (normalizeColor color))) ErrLabelInvalidColor;;
  stmt (if pg_text name && pg_text description then Some tt else None);;
  match labels t !! id with
  | None => Ok t
  | Some l =>
      if label_taken t (l_RepoID l) (TrimSpace name) (Some id) then Err ErrLabelExists
      else Ok (with_labels (<[id := MkLabel (l_RepoID l) (TrimSpace name)
                                      (str_map ascii_lower (normalizeColor color)) description]> (labels t))
                 (issue_labels t) t)
  end.

Definition DeleteLabel (t : Tables) (id : Z) : Tables :=
  with_labels (delete id (labels t)) (filter (fun p => p.2 ≠ id) (issue_labels t)) t.

(** ListLabelsOnIssue: the labels on the issue, as a set of identifiers. *)
Definition ListLabelsOnIssue (t : Tables) (id : Z) : gset Z :=
  set_map snd (filter (fun p : Z * Z => p.1 = id) (issue_labels t)).

Definition AddIssueLabel (t : Tables) (id label : Z) : option Tables :=
  if decide (is_Some (issues t !! id) ∧ is_Some (labels t !! label))
  then Some (with_labels (labels t) ({[(id, label)]} ∪ issue_labels t) t) else None.

Definition RemoveIssueLabel (t : Tables) (id label : Z) : Tables :=
  with_labels (labels t) (issue_labels t ∖ {[(id, label)]}) t.

Definition apply_add (actor id : Z) (t : Tables) (label : Z) : M Tables :=
  t ← stmt (AddIssueLabel t id label);
  event_by t actor id "labeled" (json_num "label_id" label).

Definition apply_remove (actor id : Z) (t : Tables) (label : Z) : M Tables :=
  event_by (RemoveIssueLabel t id label) actor id "unlabeled" (json_num "label_id" label).

(** ApplyLabels; [iter] lists a Go map in the order the two loops range over it. *)
Definition ApplyLabels (iter : gset Z → list Z) (t : Tables) (actor id : Z) (labelIDs : list Z) : M Tables :=
  let have := ListLabelsOnIssue t id in
  let want := list_to_set labelIDs in
  t ← fold_res (apply_add actor id) t (filter (fun l => l ∉ have) (iter want));
  fold_res (apply_remove actor id) t (filter (fun l => l ∉ want) (iter have)).

(** ** milestones.go *)

Definition checkMilestoneTitle (title : string) : M unit :=
  check (bool_decide (title = "") || longer_than 200 title)
    (ErrText "issues: milestone title length 1–200").

Definition milestone_taken (t : Tables) (repo : Z) (title : string) (self : option Z) : bool :=
  bool_decide (filter (fun kv => Some kv.1 ≠ self ∧ m_RepoID kv.2 = repo ∧ m_Title kv.2 = title)
                 (milestones t) ≠ ∅).

Definition CreateMilestone (t : Tables) (repo : Z) (title0 description : string) (due : option Z)
  : M (Z * Tables) :=
  let title := TrimSpace title0 in
  checkMilestoneTitle title;;
  if milestone_taken t repo title None then Err ErrMilestoneExists
  else if negb (bool_decide (is_Some (GetRepoByID w repo)) && pg_text title && pg_text description)
       then Err ErrDB
  else Ok (next_milestone t,
           MkTables (counters t) (issues t) (comments t) (assignees t) (labels t) (issue_labels t)
             (<[next_milestone t := MkMilestone repo title description due true None]> (milestones t))
             (events t) (references t) (domain_events t)
             (next_issue t) (next_comment t) (next_label t) (next_milestone t + 1)).

Definition UpdateMilestone (t : Tables) (id : Z) (title0 description : string) (due : option Z) : M Tables :=
  let title := TrimSpace title0 in
  checkMilestoneTitle title;;
  stmt (if pg_text title && pg_text description then Some tt else None);;
  match milestones t !! id with
  | None => Ok t
  | Some m =>
      if milestone_taken t (m_RepoID m) title (Some id) then Err ErrMilestoneExists
      else Ok (with_milestones (<[id := MkMilestone (m_RepoID m) title description due (m_Open m)
                                          (m_ClosedAt m)]> (milestones t)) t)
  end.

Definition SetMilestoneState (t : Tables) (now id : Z) (state : string) : M Tables :=
  match state_of state with
  | None => Err (ErrText "issues: milestone state must be open or closed")
  | Some st =>
      let closed := bool_decide (st = IssueStateClosed) in
      Ok (with_milestones (alter (fun m => MkMilestone (m_RepoID m) (m_Title m) (m_Description m)
            (m_DueOn m) (negb closed) (if closed then Some now else None)) id (milestones t)) t)
  end.

(** DeleteMilestone: ON DELETE SET NULL on the issues. *)
Definition DeleteMilestone (t : Tables) (id : Z) : Tables :=
  with_issues ((fun i => if decide (i_MilestoneID i = Some id) then set_milestone None i else i) <$> issues t)
    (with_milestones (delete id (milestones t)) t).

Definition AssignMilestone (t : Tables) (actor issueID milestoneID : Z) : M Tables :=
  t ← stmt (SetIssueMilestone t issueID (nonzero milestoneID));
  if decide (milestoneID = 0) then
    event_by t actor issueID "demilestoned"
      ("{" +:+ String "034" ("milestone_id" +:+ String "034" ":null}"))
  else event_by t actor issueID "milestoned" (json_num "milestone_id" milestoneID).

Definition CountIssueAssignees (t : Tables) (id : Z) : nat := size (filter (fun p => p.1 = id) (assignees t)).

Definition assigneeGate (t : Tables) (issueID userID : Z) : M unit :=
  if decide ((issueID, userID) ∈ assignees t) then Ok tt
  else if decide (CountIssueAssignees t issueID < 1)%nat then Ok tt
  else
    issue ← stmt (GetIssueByID t issueID);
    repo ← stmt (GetRepoByID w (i_RepoID issue));
    match ri_OwnerOrgID repo with
    | Some org =>
        if decide (ri_Visibility repo = "private") then
          allowed ← CheckMultipleAssignees w org;
          check (negb allowed) ErrMultipleAssigneesRequireTeam
        else Ok tt
    | None => Ok tt
    end.

Definition AssignUserToIssue (t : Tables) (issueID userID : Z) : option Tables :=
  if decide (is_Some (issues t !! issueID) ∧ user_exists w userID = true)
  then Some (with_assignees ({[(issueID, userID)]} ∪ assignees t) t) else None.

Definition AssignUser (t : Tables) (actor issueID userID : Z) : M Tables :=
  assigneeGate t issueID userID;;
  t ← stmt (AssignUserToIssue t issueID userID);
  t ← event_by t actor issueID "assigned" (json_num "user_id" userID);
  issue ← stmt (GetIssueByID t issueID);
  Ok (emitAssignmentEventTx t issue actor userID (repoVisibilityPublic (i_RepoID issue))).

Definition UnassignUser (t : Tables) (actor issueID userID : Z) : M Tables :=
  event_by (with_assignees (assignees t ∖ {[(issueID, userID)]}) t) actor issueID "unassigned"
    (json_num "user_id" userID).

(** ** The operations as steps

    Requests and jobs call these; each is a transaction, and one that answers an error changes nothing. *)

Inductive istep : Tables → Tables → Prop :=
| IS_Create t p row t' : Create t p = Ok (row, t') → istep t t'
| IS_AddComment t limited id author body c t' :
    AddComment t limited id author body = Ok (c, t') → istep t t'
| IS_Edit t id title body row t' : Edit t id title body = Ok (row, t') → istep t t'
| IS_SetState t now actor id state reason comment t' :
    setState t now actor id state reason comment = Ok t' → istep t t'
| IS_SetLock t actor id locked reason t' : SetLock t actor id locked reason = Ok t' → istep t t'
| IS_Delete t id : istep t (Delete t id)
| IS_CreateLabel t repo name color desc l t' : CreateLabel t repo name color desc = Ok (l, t') → istep t t'
| IS_SeedDefaultLabels t repo t' : SeedDefaultLabels t repo = Ok t' → istep t t'
| IS_UpdateLabel t id name color desc t' : UpdateLabel t id name color desc = Ok t' → istep t t'
| IS_DeleteLabel t id : istep t (DeleteLabel t id)
| IS_ApplyLabels iter t actor id ls t' : ApplyLabels iter t actor id ls = Ok t' → istep t t'
| IS_CreateMilestone t repo title desc due m t' :
    CreateMilestone t repo title desc due = Ok (m, t') → istep t t'
| IS_UpdateMilestone t id title desc due t' : UpdateMilestone t id title desc due = Ok t' → istep t t'
| IS_SetMilestoneState t now id state t' : SetMilestoneState t now id state = Ok t' → istep t t'
| IS_DeleteMilestone t id : istep t (DeleteMilestone t id)
| IS_AssignMilestone t actor id m t' : AssignMilestone t actor id m = Ok t' → istep t t'
| IS_AssignUser t actor id user t' : AssignUser t actor id user = Ok t' → istep t t'
| IS_UnassignUser t actor id user t' : UnassignUser t actor id user = Ok t' → istep t t'.

End Operations.
