(* ===== verification/IssuesFacts.v ===== *)
(** * IssuesFacts: what the issue tables keep, and what the operations do

    [wf] is the invariant of the tables: numbers, titles, and the state of an issue against its timeline.
    Most statements only [frame] it: they keep the columns it speaks of and append events
    that do not change a state. *)

From S2P Require Import Prelude GoString IssueRefs IssueRefsFacts Issues.
Local Open Scope Z_scope.

(** ** The timeline of an issue *)

(** The state after an event of the kind. *)
Definition event_state (kind : string) (s : IssueState) : IssueState :=
  if decide (kind = "closed" ∨ kind = "merged") then IssueStateClosed
  else if decide (kind = "reopened") then IssueStateOpen else s.

Definition timeline_step (id : Z) (s : IssueState) (e : IssueEvent) : IssueState :=
  if decide (e_IssueID e = id) then event_state (e_Kind e) s else s.

Definition timeline_state (id : Z) (es : list IssueEvent) : IssueState :=
  foldl (timeline_step id) IssueStateOpen es.

#[global] Arguments timeline_state : simpl never.

Definition neutral (kind : string) : Prop := kind ∉ ["closed"; "merged"; "reopened"].

Lemma event_state_neutral (kind : string) (s : IssueState) : neutral kind → event_state kind s = s.
Proof.
  unfold neutral, event_state. intros H. rewrite decide_False, decide_False; [done| |]; set_solver.
Qed.

Lemma timeline_state_app (id : Z) (es es' : list IssueEvent) :
  timeline_state id (es ++ es') = foldl (timeline_step id) (timeline_state id es) es'.
Proof. unfold timeline_state. by rewrite foldl_app. Qed.

Lemma timeline_neutral (id : Z) (es es' : list IssueEvent) :
  Forall (fun e => neutral (e_Kind e)) es' → timeline_state id (es ++ es') = timeline_state id es.
Proof.
  intros HF. rewrite timeline_state_app. generalize (timeline_state id es).
  induction HF as [|e l He _ IH]; intros s; cbn; [done|]. rewrite IH.
  unfold timeline_step. case_decide; [by rewrite event_state_neutral|done].
Qed.

Lemma timeline_other (id : Z) (es es' : list IssueEvent) :
  Forall (fun e => e_IssueID e ≠ id) es' → timeline_state id (es ++ es') = timeline_state id es.
Proof.
  intros HF. rewrite timeline_state_app. generalize (timeline_state id es).
  induction HF as [|e l He _ IH]; intros s; cbn; [done|]. rewrite IH.
  unfold timeline_step. by rewrite decide_False.
Qed.

(** ** The invariant *)

(** What CreateInTx, Edit and (for pull requests) EditPR check of a title. *)
Definition title_ok (k : IssueKind) (title : string) : Prop :=
  title ≠ "" ∧ (String.length title ≤ 256)%nat ∧ has_null title = false ∧ multiline title = false ∧
  (k = IssueKindIssue → containsHostileUnicode title = false).

Record wf (t : Tables) : Prop := MkWf {
  wf_issue : ∀ id i, issues t !! id = Some i →
    i_ID i = id ∧ id < next_issue t ∧ 1 ≤ i_Number i ∧
    ∃ c, counters t !! i_RepoID i = Some c ∧ i_Number i < c;
  wf_unique : ∀ id1 id2 i1 i2, issues t !! id1 = Some i1 → issues t !! id2 = Some i2 →
    i_RepoID i1 = i_RepoID i2 → i_Number i1 = i_Number i2 → id1 = id2;
  wf_counter : ∀ repo c, counters t !! repo = Some c → 1 ≤ c;
  wf_title : ∀ id i, issues t !! id = Some i → title_ok (i_Kind i) (i_Title i);
  wf_events : ∀ e, e ∈ events t → is_Some (issues t !! e_IssueID e);
  wf_state : ∀ id i, issues t !! id = Some i →
    timeline_state id (events t) = i_State i ∧ (is_Some (i_ClosedAt i) ↔ i_State i = IssueStateClosed)
}.

Lemma wf_no_tables : wf no_tables.
Proof. split; cbn; try set_solver; intros;
    match goal with H : ∅ !! _ = Some _ |- _ => by rewrite lookup_empty in H end.
Qed.

(** ** Steps that frame the invariant *)

Definition issue_key (i : Issue) :=
  (i_ID i, i_RepoID i, i_Number i, i_Kind i, (i_Title i, i_State i, i_ClosedAt i)).

Record frame (t t' : Tables) : Prop := MkFrame {
  fr_keys : issue_key <$> issues t' = issue_key <$> issues t;
  fr_counters : counters t' = counters t;
  fr_next : next_issue t' = next_issue t;
  fr_events : ∃ es, events t' = events t ++ es ∧
    Forall (fun e => neutral (e_Kind e) ∧ is_Some (issues t !! e_IssueID e)) es
}.

Lemma keys_lookup (m m' : gmap Z Issue) (id : Z) (i' : Issue) :
  issue_key <$> m' = issue_key <$> m → m' !! id = Some i' →
  ∃ i, m !! id = Some i ∧ issue_key i = issue_key i'.
Proof.
  intros E H. assert ((issue_key <$> m) !! id = Some (issue_key i')) as Hk by (by rewrite <- E, lookup_fmap, H).
  rewrite lookup_fmap in Hk. destruct (m !! id) as [i|]; [|done]. apply (inj Some) in Hk. by exists i.
Qed.

Lemma keys_is_Some (m m' : gmap Z Issue) (id : Z) :
  issue_key <$> m' = issue_key <$> m → is_Some (m' !! id) ↔ is_Some (m !! id).
Proof. intros E. by rewrite <- (fmap_is_Some issue_key), <- lookup_fmap, E, lookup_fmap, fmap_is_Some. Qed.

#[export] Instance frame_refl : Reflexive frame.
Proof. intros t. split; try done. exists []. rewrite app_nil_r. by split. Qed.

#[export] Instance frame_trans : Transitive frame.
Proof.
  intros t1 t2 t3 [K1 C1 N1 (es1 & E1 & F1)] [K2 C2 N2 (es2 & E2 & F2)]. split; [congruence..|].
  exists (es1 ++ es2). split; [by rewrite E2, E1, app_assoc|]. apply Forall_app. split; [done|].
  eapply Forall_impl; [exact F2|]. cbn. intros e [? ?]. split; [done|]. by apply (keys_is_Some _ _ _ K1).
Qed.

Lemma frame_wf (t t' : Tables) : frame t t' → wf t → wf t'.
Proof.
  intros [K C N (es & E & F)] [W1 W2 W3 W4 W5 W6]. split.
  - intros id i Hi. destruct (keys_lookup _ _ _ _ K Hi) as (i0 & H0 & [= ? HR HN _ _ _ _]).
    specialize (W1 _ _ H0). rewrite C, N, <- HR, <- HN. naive_solver.
  - intros id1 id2 i1 i2 H1 H2 HR HN.
    destruct (keys_lookup _ _ _ _ K H1) as (j1 & J1 & [= ? HR1 HN1 _ _ _ _]).
    destruct (keys_lookup _ _ _ _ K H2) as (j2 & J2 & [= ? HR2 HN2 _ _ _ _]).
    apply (W2 _ _ j1 j2); congruence.
  - intros repo c. rewrite C. apply W3.
  - intros id i Hi. destruct (keys_lookup _ _ _ _ K Hi) as (i0 & H0 & [= _ _ _ HK HT _ _]).
    rewrite <- HK, <- HT. by apply (W4 id).
  - intros e. rewrite E, elem_of_app, (keys_is_Some _ _ _ K). intros [He|He]; [by apply W5|].
    rewrite Forall_forall in F. by apply F.
  - intros id i Hi. destruct (keys_lookup _ _ _ _ K Hi) as (i0 & H0 & [= _ _ _ _ _ HS HC]).
    rewrite E, timeline_neutral, <- HS, <- HC; [by apply W6|].
    eapply Forall_impl; [exact F|]. by intros e [? _].
Qed.

(** ** Inverting the monad *)

Lemma stmt_Ok {A} (o : option A) (a : A) : stmt o = Ok a ↔ o = Some a.
Proof. destruct o; cbn; naive_solver. Qed.

Lemma check_Ok (b : bool) (e : IssueErr) (u : unit) : check b e = Ok u ↔ b = false.
Proof. destruct b, u; cbn; naive_solver. Qed.

(** Takes apart a run that succeeded: binds, statements, checks, pairs. *)
Ltac ok_step :=
  match goal with
  | H : (_ ≫= _) = Ok _ |- _ => apply bind_Ok_inv in H as (? & ? & ?)
  | H : stmt _ = Ok _ |- _ => apply stmt_Ok in H
  | H : check _ _ = Ok _ |- _ => apply check_Ok in H
  | H : Ok _ = Ok _ |- _ => injection H as ?
  | H : Err _ = Ok _ |- _ => discriminate H
  | H : Some _ = Some _ |- _ => injection H as ?
  | H : None = Some _ |- _ => discriminate H
  | x : _ * _ |- _ => destruct x
  end.
Ltac ok_steps := repeat (ok_step; subst; cbn [fst snd] in * ).

Lemma fold_res_rel {E A B} (R : A → A → Prop) (f : A → B → res E A) (l : list B) (a a' : A) :
  Reflexive R → Transitive R → (∀ a b a', f a b = Ok a' → R a a') → fold_res f a l = Ok a' → R a a'.
Proof.
  intros Hr Ht Hf. revert a. induction l as [|b l IH]; intros a; cbn.
  - intros [= ->]. done.
  - intros H. apply bind_Ok_inv in H as (a1 & H1 & H2). etrans; [by eapply Hf|by apply IH].
Qed.

(** ** The statements that frame the invariant *)

Lemma frame_same (t t' : Tables) :
  issues t' = issues t → counters t' = counters t → next_issue t' = next_issue t → events t' = events t →
  frame t t'.
Proof. intros Hi Hc Hn He. split; [by rewrite Hi|done|done|]. exists []. by rewrite He, app_nil_r. Qed.

Lemma frame_alter (f : Issue → Issue) (id : Z) (t : Tables) :
  (∀ i, issue_key (f i) = issue_key i) → frame t (with_issues (alter f id (issues t)) t).
Proof.
  intros Hf. split; try done; [|exists []; by rewrite app_nil_r]. cbn.
  apply map_eq. intros j. rewrite !lookup_fmap.
  destruct (decide (id = j)) as [<-|Hj]; [rewrite lookup_alter_eq|by rewrite lookup_alter_ne].
  destruct (issues t !! id); cbn; [by rewrite Hf|done].
Qed.

Lemma frame_event (t t' : Tables) (id : Z) (actor : option Z) (kind meta : string) (target : option Z) :
  InsertIssueEvent t id actor kind meta target = Some t' → neutral kind → frame t t'.
Proof.
  unfold InsertIssueEvent. case_decide; [|done]. intros [= <-] Hk. split; try done.
  exists [MkIssueEvent id actor kind meta target]. split; [done|]. by constructor.
Qed.

Lemma frame_event_by (w : World) (t t' : Tables) (actor id : Z) (kind meta : string) :
  event_by w t actor id kind meta = Ok t' → neutral kind → frame t t'.
Proof. unfold event_by. intros H%stmt_Ok. destruct (user_ref _ _); [by eapply frame_event|done]. Qed.

Lemma frame_reference (t t' : Tables) (r : IssueReference) : InsertIssueReference t r = Some t' → frame t t'.
Proof. unfold InsertIssueReference. case_decide; [|done]. intros [= <-]. by apply frame_same. Qed.

#[export] Hint Extern 1 (neutral _) => (apply (bool_decide_unpack _); exact I) : shithub.
#[export] Hint Resolve frame_reference frame_event frame_event_by : shithub.

Lemma frame_insertRef (source : Issue) (k : IssueRefSource) (o target : Z) (st st' : Tables * gset Z) :
  insertRef source k o st target = Ok st' → frame st.1 st'.1.
Proof.
  destruct st as [t seen]. unfold insertRef. case_decide; [by intros [= <-]|].
  case_decide; [by intros [= <-]|]. intros Hr. ok_steps.
  etrans; eauto with shithub.
Qed.

Lemma frame_follow {R} (resolve : Tables → R → option Z) (source : Issue) (k : IssueRefSource) (o : Z)
    (st st' : Tables * gset Z) (l : list R) :
  fold_res (follow resolve source k o) st l = Ok st' → frame st.1 st'.1.
Proof.
  apply (fold_res_rel (fun a b : Tables * gset Z => frame a.1 b.1)); [by intros ?|intros ???; by etrans|].
  intros a b a'. unfold follow. destruct (resolve a.1 b); [apply frame_insertRef|by intros [= <-]].
Qed.

Lemma frame_references (w : World) (t t' : Tables) (source : Issue) (body : string) (k : IssueRefSource) (o : Z) :
  insertReferencesFromBody w t source body k o = Ok t' → frame t t'.
Proof.
  unfold insertReferencesFromBody. case_decide; [by intros [= <-]|]. intros Hr. ok_steps.
  repeat match goal with H : fold_res _ _ _ = Ok _ |- _ => apply frame_follow in H; cbn [fst] in H end.
  by etrans.
Qed.

Lemma frame_emit (t : Tables) (e : DomainEvent) : frame t (emit t e).
Proof. by apply frame_same. Qed.

#[export] Hint Resolve frame_references frame_emit : shithub.

(** ** Operations that do more than frame it *)

Lemma GetIssueByNumber_Some (t : Tables) (repo num : Z) (i : Issue) :
  GetIssueByNumber t repo num = Some i →
  ∃ id, issues t !! id = Some i ∧ i_RepoID i = repo ∧ i_Number i = num.
Proof.
  unfold GetIssueByNumber. destruct (map_to_list _) as [|[id i'] l] eqn:E; [done|]. intros [= ->].
  assert ((id, i) ∈ map_to_list (filter (fun kv => i_RepoID kv.2 = repo ∧ i_Number kv.2 = num) (issues t)))
    as H by (rewrite E; by left).
  apply elem_of_map_to_list, map_lookup_filter_Some in H as [? [? ?]]. by exists id.
Qed.

Lemma GetIssueByNumber_None (t : Tables) (repo num id : Z) (i : Issue) :
  GetIssueByNumber t repo num = None → issues t !! id = Some i → i_RepoID i = repo → i_Number i ≠ num.
Proof.
  unfold GetIssueByNumber. intros E Hi HR HN.
  assert ((id, i) ∈ map_to_list (filter (fun kv => i_RepoID kv.2 = repo ∧ i_Number kv.2 = num) (issues t)))
    as H by (by apply elem_of_map_to_list, map_lookup_filter_Some).
  destruct (map_to_list _); [by apply elem_of_nil in H|done].
Qed.

Lemma timeline_none (id : Z) (es : list IssueEvent) :
  (∀ e, e ∈ es → e_IssueID e ≠ id) → timeline_state id es = IssueStateOpen.
Proof.
  intros H. rewrite <- (app_nil_l es). rewrite timeline_other; [done|]. by apply Forall_forall.
Qed.

Lemma wf_with_counters (m : gmap Z Z) (t : Tables) :
  wf t → (∀ repo c, counters t !! repo = Some c → ∃ c', m !! repo = Some c' ∧ c ≤ c') →
  (∀ repo c, m !! repo = Some c → 1 ≤ c) → wf (with_counters m t).
Proof.
  intros [W1 W2 W3 W4 W5 W6] Hm Hp. split; cbn; auto.
  intros id i Hi. destruct (W1 id i Hi) as (? & ? & ? & c & Hc & ?).
  destruct (Hm _ _ Hc) as (c' & ? & ?). split_and!; try done. exists c'. split; [done|lia].
Qed.

(** The number allocated is the counter, which starts at one. *)
Lemma wf_allocate (t t' : Tables) (repo num : Z) :
  wf t → AllocateIssueNumber (EnsureRepoIssueCounter t repo) repo = Some (num, t') →
  wf t' ∧ num = default 1 (counters t !! repo) ∧ counters t' = <[repo := num + 1]> (counters t) ∧
  issues t' = issues t ∧ events t' = events t ∧ next_issue t' = next_issue t.
Proof.
  intros W. unfold AllocateIssueNumber, EnsureRepoIssueCounter.
  destruct (counters t !! repo) as [c|] eqn:Ec; cbn.
  - rewrite Ec. cbn. intros [= <- <-]. split_and!; try done. apply wf_with_counters; [done|..]; intros r c'.
    + intros Hr. destruct (decide (repo = r)) as [<-|]; [|rewrite lookup_insert_ne by done; eauto with lia].
      rewrite lookup_insert_eq. exists (c + 1). split; [done|]. simplify_eq. lia.
    + rewrite lookup_insert_Some. intros [[<- <-]|[_ H]]; [apply (wf_counter t W) in Ec; lia|].
      by apply (wf_counter t W) in H.
  - rewrite lookup_insert_eq. cbn. intros [= <- <-]. rewrite insert_insert_eq. split_and!; try done.
    assert (with_counters (<[repo := 1 + 1]> (counters t)) (with_counters (<[repo := 1]> (counters t)) t) =
            with_counters (<[repo := 1 + 1]> (counters t)) t) as -> by done.
    apply wf_with_counters; [done|..]; intros r c'.
    + intros Hr. rewrite lookup_insert_ne by congruence. eauto with lia.
    + rewrite lookup_insert_Some. intros [[<- <-]|[_ H]]; [lia|]. by apply (wf_counter t W) in H.
Qed.

Lemma CreateIssue_row (w : World) (t t' : Tables) (repo num : Z) (kind : IssueKind) (title body : string)
    (author : option Z) (row : Issue) :
  CreateIssue w t repo num kind title body author = Some (row, t') →
  row = MkIssue (next_issue t) repo num kind title body None author IssueStateOpen None false None
          None None None ∧
  GetIssueByNumber t repo num = None ∧ issues t' = <[next_issue t := row]> (issues t) ∧
  counters t' = counters t ∧ next_issue t' = next_issue t + 1 ∧ events t' = events t.
Proof.
  unfold CreateIssue. case_decide as Hn; [done|]. destruct (negb _); [done|]. intros [= <- <-].
  split_and!; try done. by apply eq_None_not_Some.
Qed.

Lemma wf_CreateIssue (w : World) (t t' : Tables) (repo num c : Z) (kind : IssueKind) (title body : string)
    (author : option Z) (row : Issue) :
  wf t → counters t !! repo = Some c → 1 ≤ num < c → title_ok kind title →
  CreateIssue w t repo num kind title body author = Some (row, t') → wf t'.
Proof.
  intros W Hc Hn Ht H. apply CreateIssue_row in H as (Erow & HN & Ei & Ec & En & Ee).
  assert (∀ id i, issues t !! id = Some i → id < next_issue t) as Hlt
    by (intros id i Hi; by destruct (wf_issue t W id i Hi) as (_ & ? & _)).
  assert (∀ id i, issues t' !! id = Some i →
            (id = next_issue t ∧ i = row) ∨ (id ≠ next_issue t ∧ issues t !! id = Some i)) as Hcase.
  { intros id i. rewrite Ei, lookup_insert_Some. naive_solver. }
  split; rewrite ?Ec, ?En, ?Ee.
  - intros id i [[-> ->]|[_ Hi]]%Hcase.
    + rewrite Erow. cbn. split_and!; try done; try lia. exists c. split; [done|lia].
    + destruct (wf_issue t W id i Hi) as (? & ? & ? & ?). split_and!; try done. lia.
  - intros id1 id2 i1 i2 [[-> ->]|[_ H1]]%Hcase [[-> ->]|[_ H2]]%Hcase HR HNum; try done.
    + rewrite Erow in HR, HNum. cbn in *. by destruct (GetIssueByNumber_None _ _ _ _ _ HN H2 (eq_sym HR)).
    + rewrite Erow in HR, HNum. cbn in *. by destruct (GetIssueByNumber_None _ _ _ _ _ HN H1 HR).
    + by apply (wf_unique t W _ _ i1 i2).
  - apply W.
  - intros id i [[-> ->]|[_ Hi]]%Hcase; [by rewrite Erow|by apply (wf_title t W id)].
  - intros e He. rewrite Ei. apply lookup_insert_is_Some'. right. by apply W.
  - intros id i [[-> ->]|[_ Hi]]%Hcase; [|by apply W].
    rewrite Erow. cbn. split; [|split; [by intros [? ?]|done]].
    apply timeline_none. intros e He Heq. destruct (wf_events t W e He) as [i Hi].
    apply Hlt in Hi. lia.
Qed.

Lemma checkTitle_Ok (k : IssueKind) (title : string) (u : unit) : checkTitle title = Ok u → title_ok k title.
Proof. unfold checkTitle. intros H. ok_steps. bools. split_and!; auto. lia. Qed.

Lemma wf_UpdateIssueTitleBody (t t' : Tables) (id : Z) (title body : string) (html : option string) :
  wf t → (∀ i, issues t !! id = Some i → title_ok (i_Kind i) title) →
  UpdateIssueTitleBody t id title body html = Some t' → wf t'.
Proof.
  intros [W1 W2 W3 W4 W5 W6] Ht. unfold UpdateIssueTitleBody. destruct (negb _); [done|]. intros [= <-].
  assert (∀ f : Issue → Issue, (∀ i, (i_ID (f i), i_RepoID (f i), i_Number (f i), i_State (f i), i_ClosedAt (f i))
      = (i_ID i, i_RepoID i, i_Number i, i_State i, i_ClosedAt i)) → ∀ j i, alter f id (issues t) !! j = Some i →
      ∃ i0, issues t !! j = Some i0 ∧ (i = i0 ∨ j = id ∧ i = f i0) ∧
        (i_ID i, i_RepoID i, i_Number i, i_State i, i_ClosedAt i) =
        (i_ID i0, i_RepoID i0, i_Number i0, i_State i0, i_ClosedAt i0)) as Hal.
  { intros f Hf j i. rewrite lookup_alter_Some. intros [(<- & i0 & H0 & ->)|[Hj Hi]]; eauto 10. }
  split; cbn.
  - intros j i Hi. apply Hal in Hi as (i0 & H0 & _ & [= -> -> -> _ _]); [|done]. by apply W1.
  - intros j1 j2 i1 i2 H1 H2. apply Hal in H1 as (? & H1 & _ & [= _ -> -> _ _]); [|done].
    apply Hal in H2 as (? & H2 & _ & [= _ -> -> _ _]); [|done]. by apply W2.
  - done.
  - intros j i Hi. apply Hal in Hi as (i0 & H0 & [->|[-> ->]] & _); [|by apply (Ht i0)|done]. by apply (W4 j).
  - intros e He. destruct (W5 e He) as [i Hi]. rewrite lookup_alter.
    case_decide; subst; rewrite Hi; eauto.
  - intros j i Hi. apply Hal in Hi as (i0 & H0 & _ & [= _ _ _ -> ->]); [|done]. by apply W6.
Qed.

(** A change of state with the event that records it. *)
Lemma wf_state_event (t t1 t2 : Tables) (now id : Z) (st : IssueState) (reason : option string)
    (cb actor target : option Z) (kind meta : string) :
  wf t → SetIssueState t now id st reason cb = (1, t1) → (∀ s, event_state kind s = st) →
  InsertIssueEvent t1 id actor kind meta target = Some t2 → wf t2.
Proof.
  intros [W1 W2 W3 W4 W5 W6]. unfold SetIssueState.
  destruct (issues t !! id) as [i|] eqn:Ei; [|done]. case_decide as Hs; [done|]. intros [= <-] Hk.
  unfold InsertIssueEvent. cbn [issues with_issues]. rewrite lookup_insert_eq, decide_True by eauto.
  intros [= <-].
  assert (∀ j i', <[id := MkIssue (i_ID i) (i_RepoID i) (i_Number i) (i_Kind i) (i_Title i) (i_Body i)
      (i_BodyHtmlCached i) (i_AuthorUserID i) st reason (i_Locked i) (i_LockReason i) (i_MilestoneID i)
      (if decide (st = IssueStateClosed) then Some now else None) cb]> (issues t) !! j = Some i' →
    ∃ i0, issues t !! j = Some i0 ∧ (i_ID i', i_RepoID i', i_Number i', i_Kind i', i_Title i') =
      (i_ID i0, i_RepoID i0, i_Number i0, i_Kind i0, i_Title i0) ∧
      (j = id → i_State i' = st ∧ (is_Some (i_ClosedAt i') ↔ st = IssueStateClosed)) ∧
      (j ≠ id → i' = i0)) as Hins.
  { intros j i'. rewrite lookup_insert_Some. intros [[<- <-]|[Hj Hi]].
    - exists i. split_and!; try done; cbn. intros _. split; [done|]. case_decide; split; try done; by intros [].
    - exists i'. split_and!; try done; congruence. }
  split; cbn.
  - intros j i' (i0 & H0 & [= -> -> -> _ _] & _)%Hins. by apply W1.
  - intros j1 j2 i1 i2 (? & H1 & [= _ -> -> _ _] & _)%Hins (? & H2 & [= _ -> -> _ _] & _)%Hins. by apply W2.
  - done.
  - intros j i' (i0 & H0 & [= _ _ _ -> ->] & _)%Hins. by apply (W4 j).
  - intros e. rewrite elem_of_app, list_elem_of_singleton. intros [He| ->]; apply lookup_insert_is_Some';
      [right; by apply W5|by left].
  - intros j i' (i0 & H0 & _ & Hsame & Hother)%Hins. rewrite timeline_state_app. cbn.
    unfold timeline_step at 1. cbn. destruct (decide (j = id)) as [->|Hj].
    + rewrite decide_True by done. rewrite Hk. destruct (Hsame eq_refl) as [-> ?]. done.
    + rewrite decide_False by done. rewrite (Hother Hj). by apply W6.
Qed.

Lemma timeline_filter (id gone : Z) (es : list IssueEvent) :
  id ≠ gone → timeline_state id (filter (fun e => e_IssueID e ≠ gone) es) = timeline_state id es.
Proof.
  intros Hne. unfold timeline_state. generalize IssueStateOpen.
  induction es as [|e es IH]; intros s; [done|]. rewrite filter_cons. case_decide as He; cbn; [by rewrite IH|].
  rewrite IH. f_equal. unfold timeline_step. rewrite decide_False; [done|congruence].
Qed.

Lemma wf_Delete (t : Tables) (id : Z) : wf t → wf (Delete t id).
Proof.
  intros [W1 W2 W3 W4 W5 W6]. unfold Delete, DeleteIssue.
  destruct (issues t !! id) as [i|]; [|done]. case_decide; [|done]. split; cbn.
  - intros j i'. rewrite lookup_delete_Some. intros [_ Hi]. by apply W1.
  - intros j1 j2 i1 i2. rewrite !lookup_delete_Some. intros [_ H1] [_ H2]. by apply W2.
  - done.
  - intros j i'. rewrite lookup_delete_Some. intros [_ Hi]. by apply (W4 j).
  - intros e. rewrite list_elem_of_filter. intros [Hne He]. rewrite lookup_delete_ne by done. by apply W5.
  - intros j i'. rewrite lookup_delete_Some. intros [Hne Hi]. rewrite timeline_filter by done. by apply W6.
Qed.

Lemma wf_CreateInTx (w : World) (t t' : Tables) (p : CreateParams) (row : Issue) :
  wf t → CreateInTx w t p = Ok (row, t') → wf t'.
Proof.
  intros W H. unfold CreateInTx in H.
  destruct (renderBody w (p_Body p)) as [html mentions]. ok_steps.
  match goal with X : AllocateIssueNumber _ _ = Some _ |- _ =>
    apply wf_allocate in X as (W1 & Hn & Hc & _); [|done] end.
  match goal with X : checkTitle _ = Ok _ |- _ => rename X into Ht end.
  match goal with X : CreateIssue _ _ _ ?n _ _ _ _ = Some (?r, ?t1) |- _ =>
    assert (1 ≤ n) as Hpos;
    [subst n; destruct (counters t !! p_RepoID p) as [c|] eqn:Ec; cbn; [by apply (wf_counter t W) in Ec|lia]|];
    pose proof X as Hrow; apply CreateIssue_row in Hrow as (Erow & _ & Ei & _);
    apply (wf_CreateIssue _ _ _ _ _ (n + 1)) in X as W2;
      [|done|by rewrite Hc, lookup_insert_eq|lia|by eapply checkTitle_Ok]
  end.
  match goal with X : insertReferencesFromBody _ _ _ _ _ _ = Ok _ |- _ => apply frame_references in X as F end.
  eapply frame_wf; [apply frame_emit|]. eapply frame_wf; [exact F|].
  eapply wf_UpdateIssueTitleBody; [exact W2| |eassumption].
  intros i0 Hi0. subst. cbn in *. by eapply checkTitle_Ok.
Qed.

Lemma wf_Edit (w : World) (t t' : Tables) (id : Z) (title body : option string) (row : Issue) :
  wf t → Edit w t id title body = Ok (row, t') → wf t'.
Proof.
  intros W H. unfold Edit in H. apply bind_Ok_inv in H as (cur & Hc & H). apply stmt_Ok in Hc.
  apply bind_Ok_inv in H as (newt & Ht & H). apply bind_Ok_inv in H as (newb & _ & H).
  apply bind_Ok_inv in H as (t1 & Hu & H). apply stmt_Ok in Hu.
  apply bind_Ok_inv in H as (t2 & Hr & H).
  apply wf_UpdateIssueTitleBody in Hu as W1; [|done|].
  - assert (wf t2).
    { destruct body; ok_steps; [|done]. eapply frame_wf; [by eapply frame_references|done]. }
    by ok_steps.
  - intros i Hi. unfold GetIssueByID in Hc. simplify_eq. destruct title; ok_steps; [by eapply checkTitle_Ok|].
    by eapply wf_title.
Qed.

Lemma wf_setState (w : World) (t t' : Tables) (now actor id : Z) (newState reason : string) (comment : Z) :
  wf t → setState w t now actor id newState reason comment = Ok t' → wf t'.
Proof.
  intros W. unfold setState. destruct (state_of newState) as [st|]; [|done]. intros H.
  apply bind_Ok_inv in H as (? & _ & H).
  destruct (SetIssueState t now id st _ _) as [rows t1] eqn:Es. case_decide as Hr; [done|].
  assert (rows = 1) as ->.
  { unfold SetIssueState in Es. destruct (issues t !! id) as [i|]; [destruct (decide (i_State i = st))|];
      injection Es as <- <-; congruence. }
  apply bind_Ok_inv in H as (? & _ & H). apply bind_Ok_inv in H as (t2 & Hev & H). apply stmt_Ok in Hev.
  apply bind_Ok_inv in H as (issue & _ & [= <-]).
  eapply frame_wf; [apply frame_emit|]. eapply wf_state_event; [exact W|exact Es| |exact Hev].
  intros s. by destruct st.
Qed.

(** ** Operations that frame the invariant *)

Lemma frame_AddComment (w : World) (t t' : Tables) (limited : bool) (id author c : Z) (body : string) :
  AddComment w t limited id author body = Ok (c, t') → frame t t'.
Proof.
  unfold AddComment. intros H. do 4 (apply bind_Ok_inv in H as (? & _ & H)).
  destruct (GetIssueByID t id) as [i|]; [|done]. apply bind_Ok_inv in H as (? & _ & H).
  destruct (renderBody w (TrimSpace body)) as [html mentions].
  apply bind_Ok_inv in H as ([c1 t1] & H1 & H). apply stmt_Ok in H1.
  apply bind_Ok_inv in H as (t2 & H2 & [= _ <-]).
  etrans; [|apply frame_emit]. transitivity t1; [|by eapply frame_references].
  unfold CreateIssueComment in H1. destruct (negb _); [done|]. injection H1 as _ <-. by apply frame_same.
Qed.

Lemma frame_SetLock (w : World) (t t' : Tables) (actor id : Z) (locked : bool) (reason : string) :
  SetLock w t actor id locked reason = Ok t' → frame t t'.
Proof.
  unfold SetLock. intros H. ok_steps. transitivity (SetIssueLock t id locked (nonempty reason)).
  { by apply frame_alter. }
  eapply frame_event_by; [eassumption|]. destruct locked; auto with shithub.
Qed.

Lemma frame_fold_labels (w : World) (f : Tables → Z → M Tables) (ls : list Z) (t t' : Tables) :
  (∀ t l t', f t l = Ok t' → frame t t') → fold_res f t ls = Ok t' → frame t t'.
Proof. intros Hf. apply fold_res_rel; [apply _|apply _|exact Hf]. Qed.

Lemma frame_ApplyLabels (w : World) (iter : gset Z → list Z) (t t' : Tables) (actor id : Z) (ls : list Z) :
  ApplyLabels w iter t actor id ls = Ok t' → frame t t'.
Proof.
  unfold ApplyLabels. intros H. apply bind_Ok_inv in H as (t1 & H1 & H2).
  apply (frame_fold_labels w) in H1; [|clear].
  - apply (frame_fold_labels w) in H2; [by etrans|clear].
    intros t l t'. unfold apply_remove. intros H. apply frame_event_by in H; [|auto with shithub].
    etrans; [|exact H]. by apply frame_same.
  - intros t l t'. unfold apply_add, AddIssueLabel. intros H. ok_steps. case_decide; [|done]. ok_steps.
    match goal with X : event_by _ _ _ _ _ _ = Ok _ |- _ => apply frame_event_by in X; [|auto with shithub] end.
    etrans; [|eassumption]. by apply frame_same.
Qed.

Lemma frame_CreateLabel (w : World) (t t' : Tables) (l : Label) (id : Z) :
  db_CreateLabel w t l = Ok (id, t') → frame t t'.
Proof.
  unfold db_CreateLabel. destruct (label_taken _ _ _ _ _); [done|]. destruct (negb _); [done|].
  intros [= _ <-]. by apply frame_same.
Qed.

Lemma frame_SeedDefaultLabels (w : World) (t t' : Tables) (repo : Z) :
  SeedDefaultLabels w t repo = Ok t' → frame t t'.
Proof.
  apply fold_res_rel; [apply _..|]. clear. intros t [[name color] desc] t'. unfold seed_label.
  destruct (db_CreateLabel _ _ _) as [[l t1]|e] eqn:E.
  - intros [= <-]. by eapply frame_CreateLabel.
  - case_decide; [by intros [= <-]|done].
Qed.

Lemma frame_milestone (t : Tables) (f : Issue → Issue) (m : gmap Z Milestone) :
  (∀ i, issue_key (f i) = issue_key i) → frame t (with_issues (f <$> issues t) (with_milestones m t)).
Proof.
  intros Hf. split; try done; [|exists []; by rewrite app_nil_r]. cbn. rewrite <- map_fmap_compose.
  apply map_fmap_ext. intros id i _. apply Hf.
Qed.

Lemma frame_AssignMilestone (w : World) (t t' : Tables) (actor id m : Z) :
  AssignMilestone w t actor id m = Ok t' → frame t t'.
Proof.
  unfold AssignMilestone. intros H. apply bind_Ok_inv in H as (t1 & H1 & H). apply stmt_Ok in H1.
  transitivity t1.
  - unfold SetIssueMilestone in H1. destruct (nonzero m) as [mid|];
      [destruct (decide (is_Some (milestones t !! mid))); [|done]|]; injection H1 as <-; by apply frame_alter.
  - case_decide; eapply frame_event_by; try exact H; auto with shithub.
Qed.

Lemma frame_AssignUser (w : World) (t t' : Tables) (actor id user : Z) :
  AssignUser w t actor id user = Ok t' → frame t t'.
Proof.
  unfold AssignUser. intros H. apply bind_Ok_inv in H as (? & _ & H).
  apply bind_Ok_inv in H as (t1 & H1 & H). apply stmt_Ok in H1.
  apply bind_Ok_inv in H as (t2 & H2 & H). apply bind_Ok_inv in H as (i & _ & [= <-]).
  etrans; [|apply frame_emit]. transitivity t1.
  - unfold AssignUserToIssue in H1. case_decide; [|done]. injection H1 as <-. by apply frame_same.
  - eapply frame_event_by; [exact H2|auto with shithub].
Qed.

(** Every step frames the invariant, or is one of four. *)
Lemma istep_cases (w : World) (t t' : Tables) :
  istep w t t' →
  frame t t' ∨ (∃ p row, CreateInTx w t p = Ok (row, t')) ∨
  (∃ id title body row, Edit w t id title body = Ok (row, t')) ∨
  (∃ now actor id st reason c, setState w t now actor id st reason c = Ok t') ∨ ∃ id, t' = Delete t id.
Proof.
  intros H. destruct H; try (left; solve [by eapply frame_AddComment|by eapply frame_SetLock
    |by eapply frame_SeedDefaultLabels|by eapply frame_ApplyLabels|by eapply frame_AssignMilestone
    |by eapply frame_AssignUser|by apply frame_same]).
  - right; left. eauto.
  - do 2 right; left. eauto.
  - do 3 right; left. eauto 10.
  - do 4 right. eauto.
  - left. unfold CreateLabel in *. ok_steps. by eapply frame_CreateLabel.
  - left. unfold UpdateLabel in *. ok_steps. destruct (labels t !! id); [|by ok_steps].
    destruct (label_taken _ _ _ _ _); ok_steps. by apply frame_same.
  - left. unfold CreateMilestone in *. ok_steps. destruct (milestone_taken _ _ _ _); [done|].
    destruct (negb _); ok_steps. by apply frame_same.
  - left. unfold UpdateMilestone in *. ok_steps. destruct (milestones t !! id); [|by ok_steps].
    destruct (milestone_taken _ _ _ _); ok_steps. by apply frame_same.
  - left. unfold SetMilestoneState in *. destruct (state_of state); ok_steps. by apply frame_same.
  - left. apply frame_milestone. intros i. by case_decide.
  - left. etrans; [|eapply frame_event_by; [eassumption|auto with shithub]]. by apply frame_same.
Qed.

Lemma istep_wf (w : World) (t t' : Tables) : istep w t t' → wf t → wf t'.
Proof.
  intros [F|[(p & row & H)|[(id & title & body & row & H)|[(now & actor & id & st & reason & c & H)|[id ->]]]]]%istep_cases W.
  - by eapply frame_wf.
  - by eapply wf_CreateInTx.
  - by eapply wf_Edit.
  - by eapply wf_setState.
  - by apply wf_Delete.
Qed.

(** Pull requests keep their row, with its kind, repository and number. *)
Definition keeps (t t' : Tables) : Prop :=
  ∀ id i, issues t !! id = Some i → i_Kind i = IssueKindPr →
  ∃ i', issues t' !! id = Some i' ∧ i_Kind i' = IssueKindPr ∧ i_RepoID i' = i_RepoID i ∧ i_Number i' = i_Number i.

#[export] Instance keeps_refl : Reflexive keeps.
Proof. intros t id i Hi Hk. eauto. Qed.

#[export] Instance keeps_trans : Transitive keeps.
Proof.
  intros t1 t2 t3 H1 H2 id i Hi Hk. destruct (H1 id i Hi Hk) as (i2 & Hi2 & Hk2 & <- & <-). by apply H2.
Qed.

Lemma frame_keeps (t t' : Tables) : frame t t' → keeps t t'.
Proof.
  intros [K _ _ _] id i Hi Hk. destruct (keys_lookup (issues t') (issues t) id i (eq_sym K) Hi) as (i' & Hi' & E).
  injection E as _ ER EN EK _ _ _. exists i'. split_and!; congruence.
Qed.

Lemma UpdateIssueTitleBody_keeps (t t' : Tables) (id : Z) (title body : string) (html : option string) :
  UpdateIssueTitleBody t id title body html = Some t' → keeps t t'.
Proof.
  unfold UpdateIssueTitleBody. destruct (negb _); [done|]. intros [= <-] j i Hj Hk. cbn.
  rewrite lookup_alter. case_decide; subst; rewrite Hj; cbn; eauto 10.
Qed.

Lemma SetIssueState_keeps (t t' : Tables) (now id n : Z) (st : IssueState) (reason : option string) (cb : option Z) :
  SetIssueState t now id st reason cb = (n, t') → keeps t t'.
Proof.
  unfold SetIssueState. destruct (issues t !! id) as [i|] eqn:Ei; [|by intros [= _ <-]].
  destruct (decide (i_State i = st)); intros [= _ <-]; [done|]. intros j i' Hj Hk. cbn.
  destruct (decide (id = j)) as [<-|Hne]; [rewrite lookup_insert_eq; simplify_eq; eauto 10|].
  rewrite lookup_insert_ne by done. eauto 10.
Qed.

Lemma InsertIssueEvent_issues (t t' : Tables) (id : Z) (actor : option Z) (kind meta : string) (tgt : option Z) :
  InsertIssueEvent t id actor kind meta tgt = Some t' → issues t' = issues t.
Proof. unfold InsertIssueEvent. case_decide; [|done]. by intros [= <-]. Qed.

Lemma same_keeps (t t' : Tables) : issues t' = issues t → keeps t t'.
Proof. intros E id i Hi Hk. rewrite E. eauto. Qed.

(** What CreateInTx makes of the issues: one more row, with a fresh identifier. *)
Lemma CreateInTx_shape (w : World) (t t' : Tables) (p : CreateParams) (row : Issue) :
  wf t → CreateInTx w t p = Ok (row, t') →
  i_ID row = next_issue t ∧ issues t !! i_ID row = None ∧
  ∃ t1 r, issues t1 = <[i_ID row := r]> (issues t) ∧ frame t1 t' ∧ i_RepoID r = p_RepoID p ∧
          i_State r = IssueStateOpen ∧
          kind_of (if decide (p_Kind p = "") then "issue" else p_Kind p) = Some (i_Kind r).
Proof.
  intros W H. unfold CreateInTx in H. do 2 (apply bind_Ok_inv in H as (? & _ & H)).
  apply bind_Ok_inv in H as (? & _ & H). apply bind_Ok_inv in H as ([num ta] & Ha & H). apply stmt_Ok in Ha.
  apply bind_Ok_inv in H as (k & Hk & H). apply stmt_Ok in Hk.
  apply bind_Ok_inv in H as ([row0 tb] & Hb & H). apply stmt_Ok in Hb.
  destruct (renderBody w (p_Body p)) as [html mentions].
  apply bind_Ok_inv in H as (tc & Hc & H). apply stmt_Ok in Hc.
  apply bind_Ok_inv in H as (td & Hd & [= <- <-]).
  apply wf_allocate in Ha as (_ & _ & _ & Hia & _ & Hna); [|done].
  apply CreateIssue_row in Hb as (Erow & _ & Eib & _ & _ & _). rewrite Hna in *.
  assert (i_ID (with_html (nonempty html) row0) = next_issue t) as Hid by (by rewrite Erow).
  assert (issues t !! next_issue t = None) as Hnone.
  { destruct (issues t !! next_issue t) as [i|] eqn:E; [|done].
    destruct (wf_issue t W _ _ E) as (_ & ? & _). lia. }
  assert (∃ r, issues tc = <[next_issue t := r]> (issues t) ∧ i_RepoID r = p_RepoID p ∧
               i_State r = IssueStateOpen ∧ i_Kind r = k) as (r & Er & HR & HS & HK).
  { unfold UpdateIssueTitleBody in Hc. destruct (negb _); [done|]. injection Hc as <-.
    cbn. rewrite Eib, Hia. cbn in Hid. rewrite Hid, alter_insert_eq.
    eexists. split; [reflexivity|]. by rewrite Erow. }
  apply frame_references in Hd. rewrite Hid. split; [done|]. split; [done|].
  exists tc, r. split_and!; try done; [|by rewrite HK]. etrans; [exact Hd|apply frame_emit].
Qed.

Lemma istep_keeps (w : World) (t t' : Tables) : wf t → istep w t t' → keeps t t'.
Proof.
  intros W [F|[(p & row & H)|[(id & title & body & row & H)|[(now & actor & id & st & reason & c & H)|[id ->]]]]]%istep_cases.
  - by apply frame_keeps.
  - apply CreateInTx_shape in H as (_ & Hnone & t1 & r & E & F & _); [|done].
    etrans; [|by apply frame_keeps]. intros j i Hj Hk. rewrite E, lookup_insert_ne by congruence. eauto.
  - unfold Edit in H. apply bind_Ok_inv in H as (cur & _ & H). do 2 (apply bind_Ok_inv in H as (? & _ & H)).
    apply bind_Ok_inv in H as (t1 & Hu & H). apply stmt_Ok, UpdateIssueTitleBody_keeps in Hu.
    apply bind_Ok_inv in H as (t2 & Hr & H). etrans; [exact Hu|].
    assert (frame t1 t2) by (destruct body; ok_steps; [by eapply frame_references|done]).
    ok_steps. by apply frame_keeps.
  - unfold setState in H. destruct (state_of st) as [s0|]; [|done].
    apply bind_Ok_inv in H as (? & _ & H). destruct (SetIssueState t now id s0 _ _) as [rows t1] eqn:Es.
    destruct (decide (rows = 0)); [done|]. apply SetIssueState_keeps in Es.
    apply bind_Ok_inv in H as (? & _ & H). apply bind_Ok_inv in H as (t2 & He & H).
    apply stmt_Ok, InsertIssueEvent_issues in He. apply bind_Ok_inv in H as (i & _ & [= <-]).
    etrans; [exact Es|]. by apply same_keeps.
  - intros j i Hj Hk. exists i. unfold Delete, DeleteIssue.
    destruct (issues t !! id) as [i0|] eqn:E; [|done]. case_decide; [|done]. cbn.
    rewrite lookup_delete_ne; [done|]. intros <-. congruence.
Qed.

Lemma reachable_wf (w : World) (t : Tables) : rtc (istep w) no_tables t → wf t.
Proof.
  intros H. eapply rtc_preserves; [exact H|apply wf_no_tables|]. intros a b Ha Hs. by eapply istep_wf.
Qed.

(** ** What a body refers to *)

Lemma dedup_app (l1 l2 : list Z) (s : gset Z) :
  dedup s (l1 ++ l2) = dedup s l1 ++ dedup (s ∪ list_to_set (dedup s l1)) l2.
Proof.
  revert s. induction l1 as [|x l1 IH]; intros s; cbn; [f_equal; set_solver|].
  case_decide; [apply IH|]. cbn. rewrite IH. do 3 f_equal. set_solver.
Qed.

Section References.
Context (w : World) (t : Tables) (source : Issue) (k : IssueRefSource) (o : Z).

Let reference (id : Z) : IssueReference := MkReference (Some (i_ID source)) id k (nonzero o).
Let event (id : Z) : IssueEvent :=
  MkIssueEvent id (i_AuthorUserID source) "referenced" (json_num "source_issue_id" (i_ID source))
    (Some (i_ID source)).

(** The tables with references to the issues of a list. *)
Definition referring (ids : list Z) : Tables :=
  with_events (events t ++ (event <$> ids)) (with_references (references t ++ (reference <$> ids)) t).

Lemma refer_one (ids : list Z) (seen : gset Z) (id : Z) :
  is_Some (issues t !! id) →
  (t1 ← stmt (InsertIssueReference (referring ids) (reference id));
   t2 ← stmt (InsertIssueEvent t1 id (i_AuthorUserID source) "referenced"
               (json_num "source_issue_id" (i_ID source)) (Some (i_ID source)));
   Ok (t2, {[id]} ∪ seen)) = Ok (referring (ids ++ [id]), {[id]} ∪ seen).
Proof.
  intros Hi. unfold InsertIssueReference, InsertIssueEvent. cbn. rewrite decide_True by done. cbn.
  rewrite decide_True by done. cbn. do 2 f_equal. unfold referring, with_events, with_references.
  cbn. by rewrite !fmap_app, !app_assoc.
Qed.

Lemma fold_follow {R} (resolve : Tables → R → option Z) (l : list R) (acc : list Z) (seen : gset Z) :
  (∀ ids r, resolve (referring ids) r = resolve t r) →
  (∀ r id, resolve t r = Some id → is_Some (issues t !! id)) →
  let new := dedup ({[i_ID source]} ∪ seen) (omap (resolve t) l) in
  fold_res (follow resolve source k o) (referring acc, seen) l =
    Ok (referring (acc ++ new), seen ∪ list_to_set new).
Proof.
  intros Hr Hex. revert acc seen. induction l as [|r l IH]; intros acc seen; cbn zeta in *.
  { cbn. rewrite app_nil_r. do 2 f_equal. set_solver. }
  cbn [fold_res omap list_omap].
  change (follow resolve source k o (referring acc, seen) r) with
    match resolve (referring acc) r with
    | Some target => insertRef source k o (referring acc, seen) target
    | None => Ok (referring acc, seen)
    end.
  rewrite Hr.
  destruct (resolve t r) as [id|] eqn:Er; [|apply IH]. cbn [dedup insertRef].
  destruct (decide (id = i_ID source)) as [->|Hne]; cbn [mbind res_bind].
  { rewrite IH. by rewrite decide_True by set_solver. }
  destruct (decide (id ∈ seen)) as [Hin|Hin]; cbn [mbind res_bind].
  { rewrite IH. by rewrite decide_True by set_solver. }
  rewrite (decide_False (P := id ∈ {[i_ID source]} ∪ seen)) by set_solver.
  rewrite refer_one by eauto. cbn [mbind res_bind]. rewrite IH, <- app_assoc. cbn [app list_to_set].
  assert ({[i_ID source]} ∪ ({[id]} ∪ seen) = {[id]} ∪ ({[i_ID source]} ∪ seen)) as -> by set_solver.
  do 2 f_equal. set_solver.
Qed.

End References.

(** indexing a body never fails, and refers to each issue that the body names, other than the
    source, once: first those named with their repository, then those named by number, in the order of
    the text.  Each gets one reference and one event of its timeline, in the name of the source's author;
    nothing else changes. *)
Theorem insertReferencesFromBody_spec (w : World) (t : Tables) (source : Issue) (body : string)
    (k : IssueRefSource) (o : Z) (Hids : ∀ id i, issues t !! id = Some i → i_ID i = id) :
  let named := omap (resolve_cross w t) (cross_refs body) ++
               omap (resolve_same t (i_RepoID source)) (same_refs body) in
  insertReferencesFromBody w t source body k o =
    Ok (referring t source k o (dedup {[i_ID source]} named)).
Proof.
  intros named. unfold insertReferencesFromBody.
  assert (∀ repo num id, resolve_same t repo num = Some id → is_Some (issues t !! id)) as Hsame.
  { intros repo num id. unfold resolve_same. destruct (GetIssueByNumber t repo num) as [i|] eqn:E; [|done].
    intros [= <-]. apply GetIssueByNumber_Some in E as (id' & Hi & _). rewrite (Hids _ _ Hi). eauto. }
  assert (t = referring t source k o []) as Et.
  { unfold referring. cbn. rewrite !app_nil_r. by destruct t. }
  case_decide as Hb.
  { subst body. unfold named. cbn. by rewrite <- Et. }
  rewrite Et at 1. rewrite fold_follow.
  - cbn. rewrite fold_follow; [|done|apply Hsame]. cbn. unfold named. rewrite dedup_app.
    by rewrite (right_id_L ∅ (∪)), (left_id_L ∅ (∪)).
  - done.
  - intros [[owner name] num] id. unfold resolve_cross.
    destruct (principal w _) as [[kind oid]|]; [|done]. cbn.
    destruct (if decide (kind = "user") then _ else _) as [repo|]; [|done]. cbn. apply Hsame.
Qed.

(** ** Opening and closing *)

(** A branch that answers an error. *)
Local Ltac refused :=
  split; [split; [by intros [? ?]|intros (? & ? & [= <-] & ? & ? & ? & ?); congruence]|done].

(** closing or reopening an issue succeeds exactly when the issue is there in the other state (and the
    reason and the actor are known to the schema); it appends one event, [closed] or [reopened], to the
    timeline, changes no other issue, and to ask again for the state just reached is refused as
    [ErrAlreadyInState], which changes nothing. *)
Theorem setState_spec (w : World) (t : Tables) (now actor id : Z) (newState reason : string) (comment : Z) :
  let actor_ok := user_ref w (nonzero actor) = true in
  ((∃ t', setState w t now actor id newState reason comment = Ok t') ↔
   ∃ st i, state_of newState = Some st ∧ issues t !! id = Some i ∧ i_State i ≠ st ∧
           valid_reason reason = true ∧ actor_ok) ∧
  ∀ t', setState w t now actor id newState reason comment = Ok t' →
    (∃ i' e, issues t' = <[id := i']> (issues t) ∧ state_of newState = Some (i_State i') ∧
             events t' = events t ++ [e] ∧ e_IssueID e = id ∧ e_ActorUserID e = nonzero actor ∧
             ∀ s, event_state (e_Kind e) s = i_State i') ∧
    ∀ now' comment', setState w t' now' actor id newState reason comment' = Err ErrAlreadyInState.
Proof.
  intros actor_ok. unfold setState. destruct (state_of newState) as [st|] eqn:Est; [|naive_solver].
  set (cb := if decide (st = IssueStateClosed) then nonzero actor else None).
  assert (actor_ok → user_ref w cb = true) as Hcb by (unfold cb, actor_ok; by destruct (decide (st = _))).
  destruct (valid_reason reason && user_ref w cb) eqn:Ev; cbn [stmt mbind res_bind].
  2:{ split; [|done]. split; [by intros [? ?]|]. intros (? & ? & [= <-] & _ & _ & Hr & Ha).
      rewrite Hr, (Hcb Ha) in Ev. done. }
  apply andb_true_iff in Ev as [Hr Hu]. unfold SetIssueState.
  destruct (issues t !! id) as [i|] eqn:Ei; cbn; [|rewrite ?decide_True by done; refused].
  destruct (decide (i_State i = st)) as [Hs|Hs]; cbn; [rewrite ?decide_True by done; refused|].
  destruct (user_ref w (nonzero actor)) eqn:Ea; cbn; [|refused].
  unfold InsertIssueEvent, GetIssueByID. cbn. rewrite lookup_insert_eq.
  rewrite (decide_True (P := is_Some (Some _))) by eauto. cbn. rewrite lookup_insert_eq. cbn. split; [naive_solver|]. intros t' [= <-]. cbn. split.
  - eexists _, _. split; [reflexivity|]. split_and!; try done. by destruct st.
  - intros now' comment'. rewrite lookup_insert_eq. cbn. rewrite decide_True by done. cbn. by rewrite decide_True.
Qed.

(** ** The operations on an example *)

Definition ex_world : World := MkWorld
  (fun u => bool_decide (u ∈ [1; 2; 3]))
  (fun r => if decide (r = 7) then Some (MkRepoInfo (Some 50) "private")
            else if decide (r = 8) then Some (MkRepoInfo None "public") else None)
  (fun s => if decide (s = "ann") then Some ("user", 1) else if decide (s = "acme") then Some ("org", 50) else None)
  (fun u name => if decide (u = 1 ∧ name = "web") then Some 8 else None)
  (fun o name => if decide (o = 50 ∧ name = "api") then Some 7 else None)
  (fun _ => Ok false)
  (fun body => (body, [], false)) (fun _ => []) (fun s => s).

Definition ex_create (t : Tables) (repo author : Z) (title body : string) : Tables :=
  match Create ex_world t (MkCreateParams repo author title body "") with Ok (_, t) => t | Err _ => t end.

(** Two issues in 7 (identifiers 1 and 2) and one in 8 (identifier 3). *)
Definition ex_tables : Tables :=
  ex_create (ex_create (ex_create no_tables 7 1 "one" "") 7 2 " two " "see #1") 8 1 "other" "acme/api#2 #1".

Example ex_tables_refs :
  (fun e => (e_IssueID e, e_Kind e, e_ActorUserID e)) <$> events ex_tables =
  [(1, "referenced", Some 2); (2, "referenced", Some 1)].
Proof. vm_compute. reflexivity. Qed.

Example ex_assign :
  match AssignUser ex_world ex_tables 1 1 2 with
  | Ok t => AssignUser ex_world t 1 1 3 = Err ErrMultipleAssigneesRequireTeam
  | Err _ => False
  end.
Proof. vm_compute. reflexivity. Qed.

Lemma ex_ids : ∀ id i, issues ex_tables !! id = Some i → i_ID i = id.
Proof.
  assert (map_Forall (fun id i => i_ID i = id) (issues ex_tables)) as H
    by (apply (bool_decide_unpack _); vm_compute; exact I).
  intros id i Hi. exact (H id i Hi).
Defined.

Lemma insertReferencesFromBody_spec_witness :
  True ∧ insertReferencesFromBody ex_world ex_tables (default (MkIssue 0 0 0 IssueKindIssue "" "" None None
    IssueStateOpen None false None None None None) (issues ex_tables !! 3)) "ann/web#1 Acme/api#1, acme/api#1 #9"
    IssueBody 3 = Ok (referring ex_tables (default (MkIssue 0 0 0 IssueKindIssue "" "" None None
    IssueStateOpen None false None None None None) (issues ex_tables !! 3)) IssueBody 3 [1]).
Proof.
  split; [exact I|].
  refine (eq_trans (insertReferencesFromBody_spec ex_world ex_tables _ _ IssueBody 3 ex_ids) _).
  vm_compute. reflexivity.
Defined.

Lemma setState_spec_witness :
  True ∧ ∃ t', setState ex_world ex_tables 5 2 1 "closed" "completed" 0 = Ok t'.
Proof.
  split; [exact I|]. apply (proj2 (proj1 (setState_spec ex_world ex_tables 5 2 1 "closed" "completed" 0))).
  eexists _, _. split; [reflexivity|]. split; [vm_compute; reflexivity|]. by split_and!.
Defined.
