(* ===== verification/Reviews.v ===== *)
(** * Reviews: reviews, their comments, review requests

    internal/pulls/review: submit.go, request.go, comment.go, with the statements of queries/reviews.sql and
    the constraints of migrations 0024 and 0105.  The tables of issues ([Issues.Tables]) are passed along:
    a submission writes an event there.  A function that is a transaction, or one statement, answers the tables it
    leaves or an error, which leaves them as they were.  [ListUndismissedReviewsForGate] is what
    the gate of ReviewGate.v reads. *)

From stdpp Require Import sorting.
From S2P Require Import Prelude GoString IssueRefs Issues Protection ReviewGate.
Local Open Scope Z_scope.

(** ** Data *)

Record PrReview := MkPrReview {
  rv_PrIssueID : Z; rv_AuthorUserID : option Z; rv_State : PrReviewState; rv_Body : string;
  rv_DismissedBy : option (option Z * string)  (** who dismissed it, and why *)
}.

Record PrReviewComment := MkPrReviewComment {
  rc_PrIssueID : Z; rc_ReviewID : option Z; rc_AuthorUserID : option Z; rc_FilePath : string;
  rc_Side : Side; rc_OriginalCommitSha : string; rc_OriginalLine : Z; rc_OriginalPosition : Z;
  rc_CurrentPosition : option Z; rc_Body : string; rc_InReplyToID : option Z; rc_Pending : bool;
  rc_Resolved : option (Z * option Z)  (** when and by whom *)
}.

Record PrReviewRequest := MkPrReviewRequest {
  rq_PrIssueID : Z; rq_RequestedUserID : option Z; rq_RequestedTeamID : option Z;
  rq_RequestedByUserID : option Z; rq_Dismissed : bool; rq_SatisfiedByReviewID : option Z
}.

Record ReviewTables := MkReviewTables {
  rt_reviews : gmap Z PrReview; rt_comments : gmap Z PrReviewComment; rt_requests : gmap Z PrReviewRequest;
  rt_next_review : Z; rt_next_comment : Z; rt_next_request : Z
}.

Inductive ReviewErr :=
| ErrEmptyBody | ErrBodyTooLong | ErrAuthorCannotApprove | ErrInvalidState | ErrCommentNotOnPR
| ErrAlreadyResolved | ErrNotResolved | ErrReviewerLimitReached | ErrReviewerAlreadyPending
| ErrReviewerTargetRequired | ErrReviewNotFound | ErrReviewDB.

#[export] Instance ReviewErr_eq_dec : EqDecision ReviewErr.
Proof. solve_decision. Defined.

Abbreviation R A := (res ReviewErr A).

Definition refuse (b : bool) (e : ReviewErr) : R unit := if b then Err e else Ok tt.

Definition row {A} (o : option A) : R A := match o with Some a => Ok a | None => Err ErrReviewDB end.

Definition MaxReviewersPerPR : nat := 20.

Section Reviews.
  (** Users and teams, markdown of [renderBodyHTML] is not kept. *)
  Variable w : World.
  Variable team_exists : Z → bool.
  Variable team_member : Z → Z → bool.

(** ** submit.go *)

Definition review_state (s : string) : option PrReviewState :=
  if decide (s = "comment") then Some ReviewComment
  else if decide (s = "approve") then Some Approve
  else if decide (s = "request_changes") then Some RequestChanges else None.

Definition CreatePRReview (t : Tables) (rt : ReviewTables) (pr : Z) (author : option Z)
    (state : PrReviewState) (body : string) : option (Z * ReviewTables) :=
  if negb (bool_decide (is_Some (issues t !! pr)) && user_ref w author && pg_text body) then None
  else Some (rt_next_review rt,
             MkReviewTables (<[rt_next_review rt := MkPrReview pr author state body None]> (rt_reviews rt))
               (rt_comments rt) (rt_requests rt) (rt_next_review rt + 1) (rt_next_comment rt)
               (rt_next_request rt)).

(** AttachPendingCommentsToReview: [author_user_id = $2] holds for no null. *)
Definition AttachPendingCommentsToReview (rt : ReviewTables) (pr : Z) (author : option Z) (review : Z)
  : ReviewTables :=
  MkReviewTables (rt_reviews rt)
    ((fun c => if decide (rc_PrIssueID c = pr ∧ author ≠ None ∧ rc_AuthorUserID c = author ∧ rc_Pending c = true)
               then MkPrReviewComment (rc_PrIssueID c) (Some review) (rc_AuthorUserID c) (rc_FilePath c)
                      (rc_Side c) (rc_OriginalCommitSha c) (rc_OriginalLine c) (rc_OriginalPosition c)
                      (rc_CurrentPosition c) (rc_Body c) (rc_InReplyToID c) false (rc_Resolved c)
               else c) <$> rt_comments rt)
    (rt_requests rt) (rt_next_review rt) (rt_next_comment rt) (rt_next_request rt).

Definition satisfied_by (review : Z) (q : PrReviewRequest) : PrReviewRequest :=
  MkPrReviewRequest (rq_PrIssueID q) (rq_RequestedUserID q) (rq_RequestedTeamID q)
    (rq_RequestedByUserID q) (rq_Dismissed q) (Some review).

(** SatisfyPRReviewRequest and SatisfyPRReviewTeamRequestsForReviewer. *)
Definition asks (pr author : Z) (q : PrReviewRequest) : bool :=
  bool_decide (rq_PrIssueID q = pr) && negb (rq_Dismissed q) && bool_decide (rq_SatisfiedByReviewID q = None)
  && (bool_decide (author ≠ 0 ∧ rq_RequestedUserID q = Some author)
      || match rq_RequestedTeamID q with Some team => team_member team author | None => false end).

Definition SatisfyRequests (rt : ReviewTables) (pr author review : Z) : ReviewTables :=
  MkReviewTables (rt_reviews rt) (rt_comments rt)
    ((fun q => if asks pr author q then satisfied_by review q else q) <$> rt_requests rt)
    (rt_next_review rt) (rt_next_comment rt) (rt_next_request rt).

Record SubmitParams := MkSubmitParams {
  s_PRIssueID : Z; s_AuthorUserID : Z; s_State : string; s_Body : string; s_PRAuthorUserID : Z
}.

(** [%q] of the states is the state between quotes. *)
Definition reviewed_meta (state : string) (review : Z) : string :=
  let dq := String "034" "" in
  "{" +:+ dq +:+ "state" +:+ dq +:+ ":" +:+ dq +:+ state +:+ dq +:+ "," +:+ dq +:+ "review_id" +:+ dq +:+ ":"
  +:+ pretty review +:+ "}".

Definition Submit (t : Tables) (rt : ReviewTables) (p : SubmitParams) : R (Z * Tables * ReviewTables) :=
  match review_state (s_State p) with
  | None => Err ErrInvalidState
  | Some st =>
      refuse (bool_decide (st = Approve ∧ s_AuthorUserID p ≠ 0 ∧ s_AuthorUserID p = s_PRAuthorUserID p))
        ErrAuthorCannotApprove;;
      let body := TrimSpace (s_Body p) in
      refuse (longer_than 65535 body) ErrBodyTooLong;;
      let author := nonzero (s_AuthorUserID p) in
      '(id, rt) ← row (CreatePRReview t rt (s_PRIssueID p) author st body);
      let rt := AttachPendingCommentsToReview rt (s_PRIssueID p) author id in
      let rt := if is_decision st then SatisfyRequests rt (s_PRIssueID p) (s_AuthorUserID p) id else rt in
      t ← row (InsertIssueEvent t (s_PRIssueID p) author "reviewed" (reviewed_meta (s_State p) id) None);
      Ok (id, t, rt)
  end.

(** Dismiss of a review that is there; a second dismissal overwrites the first. *)
Definition Dismiss (rt : ReviewTables) (actor id : Z) (reason : string) : R ReviewTables :=
  match rt_reviews rt !! id with
  | None => Err ErrReviewNotFound
  | Some r =>
      refuse (negb (user_ref w (nonzero actor) && pg_text (TrimSpace reason))) ErrReviewDB;;
      Ok (MkReviewTables
            (<[id := MkPrReview (rv_PrIssueID r) (rv_AuthorUserID r) (rv_State r) (rv_Body r)
                       (Some (nonzero actor, TrimSpace reason))]> (rt_reviews rt))
            (rt_comments rt) (rt_requests rt) (rt_next_review rt) (rt_next_comment rt) (rt_next_request rt))
  end.

(** ListUndismissedReviewsForGate: by author, nulls last, then by submission; identifiers are given in the
    order of submission. *)
Definition author_le (a b : option Z) : Prop :=
  match a, b with
  | Some x, Some y => x ≤ y
  | _, None => True
  | None, Some _ => False
  end.

#[export] Instance author_le_dec (a b : option Z) : base.Decision (author_le a b).
Proof. destruct a, b; cbn; apply _. Defined.

Definition gate_le (x y : Z * PrReview) : Prop :=
  author_le (rv_AuthorUserID x.2) (rv_AuthorUserID y.2) ∧
  (rv_AuthorUserID x.2 = rv_AuthorUserID y.2 → x.1 ≤ y.1).

#[export] Instance gate_le_dec (x y : Z * PrReview) : base.Decision (gate_le x y).
Proof. apply and_dec; apply _. Defined.

Definition ListUndismissedReviewsForGate (rt : ReviewTables) (pr : Z) : list ReviewRow :=
  (fun kv => MkReview (rv_AuthorUserID kv.2) (rv_State kv.2)) <$>
  merge_sort gate_le
    (map_to_list (filter (fun kv => rv_PrIssueID kv.2 = pr ∧ rv_DismissedBy kv.2 = None) (rt_reviews rt))).

(** ** request.go *)

Record RequestParams := MkRequestParams {
  q_PRIssueID : Z; q_RequestedUserID : Z; q_RequestedTeamID : Z; q_RequestedByUserID : Z
}.

Definition active_requests (rt : ReviewTables) (pr : Z) : gmap Z PrReviewRequest :=
  filter (fun kv => rq_PrIssueID kv.2 = pr ∧ rq_Dismissed kv.2 = false) (rt_requests rt).

(** CountActivePRReviewRequests counts the satisfied ones too. *)
Definition CountActivePRReviewRequests (rt : ReviewTables) (pr : Z) : nat := size (active_requests rt pr).

Definition already_pending (rt : ReviewTables) (p : RequestParams) : bool :=
  bool_decide (filter (fun kv =>
      rq_PrIssueID kv.2 = q_PRIssueID p ∧ rq_Dismissed kv.2 = false ∧ rq_SatisfiedByReviewID kv.2 = None ∧
      ((q_RequestedUserID p ≠ 0 ∧ rq_RequestedUserID kv.2 = Some (q_RequestedUserID p)) ∨
       (q_RequestedTeamID p ≠ 0 ∧ rq_RequestedTeamID kv.2 = Some (q_RequestedTeamID p))))
    (rt_requests rt) ≠ ∅).

Definition CreatePRReviewRequest (t : Tables) (rt : ReviewTables) (p : RequestParams)
  : option (Z * ReviewTables) :=
  let q := MkPrReviewRequest (q_PRIssueID p) (nonzero (q_RequestedUserID p)) (nonzero (q_RequestedTeamID p))
             (nonzero (q_RequestedByUserID p)) false None in
  if negb (bool_decide (is_Some (issues t !! q_PRIssueID p)) && user_ref w (rq_RequestedUserID q)
           && match rq_RequestedTeamID q with Some team => team_exists team | None => true end
           && user_ref w (rq_RequestedByUserID q)) then None
  else Some (rt_next_request rt,
             MkReviewTables (rt_reviews rt) (rt_comments rt) (<[rt_next_request rt := q]> (rt_requests rt))
               (rt_next_review rt) (rt_next_comment rt) (rt_next_request rt + 1)).

(** Request; the domain event goes out after the row, if the issue is found. *)
Definition Request (t : Tables) (rt : ReviewTables) (p : RequestParams) : R (Z * Tables * ReviewTables) :=
  refuse (bool_decide (q_RequestedUserID p = 0 ↔ q_RequestedTeamID p = 0)) ErrReviewerTargetRequired;;
  refuse (bool_decide (MaxReviewersPerPR ≤ CountActivePRReviewRequests rt (q_PRIssueID p))%nat)
    ErrReviewerLimitReached;;
  refuse (already_pending rt p) ErrReviewerAlreadyPending;;
  '(id, rt) ← row (CreatePRReviewRequest t rt p);
  let t := match GetIssueByID t (q_PRIssueID p) with
           | Some i =>
               if decide (q_RequestedUserID p = 0) then t
               else emit t (MkDomainEvent (q_RequestedByUserID p) "review_requested" (i_RepoID i) "issue"
                              (i_ID i) (repoVisibilityPublic w (i_RepoID i)) []
                              [("reviewer_user_id", XNum (q_RequestedUserID p));
                               ("issue_number", XNum (i_Number i)); ("issue_title", XText (i_Title i))])
           | None => t
           end in
  Ok (id, t, rt).

(** ** comment.go *)

Record CommentParams := MkCommentParams {
  cp_PRIssueID : Z; cp_AuthorUserID : Z; cp_FilePath : string; cp_Side : string;
  cp_OriginalCommitSHA : string; cp_OriginalLine : Z; cp_OriginalPosition : Z; cp_CurrentPosition : Z;
  cp_Body : string; cp_InReplyToID : Z; cp_Pending : bool
}.

Definition side_of (s : string) : Side := if decide (s = "left") then SideLeft else SideRight.

(** The row to insert: a reply takes the anchor of its parent. *)
Definition comment_row (p : CommentParams) (parent : option PrReviewComment) : PrReviewComment :=
  let cur := match parent with
             | Some c => default (cp_CurrentPosition p) (rc_CurrentPosition c)
             | None => cp_CurrentPosition p
             end in
  MkPrReviewComment (cp_PRIssueID p) None (nonzero (cp_AuthorUserID p))
    (from_option rc_FilePath (cp_FilePath p) parent) (from_option rc_Side (side_of (cp_Side p)) parent)
    (from_option rc_OriginalCommitSha (cp_OriginalCommitSHA p) parent)
    (from_option rc_OriginalLine (cp_OriginalLine p) parent)
    (from_option rc_OriginalPosition (cp_OriginalPosition p) parent)
    (if decide (0 ≤ cur) then Some cur else None) (TrimSpace (cp_Body p)) (nonzero (cp_InReplyToID p))
    (cp_Pending p) None.

Definition AddComment (t : Tables) (rt : ReviewTables) (p : CommentParams) : R (Z * ReviewTables) :=
  let body := TrimSpace (cp_Body p) in
  refuse (bool_decide (body = "")) ErrEmptyBody;;
  refuse (longer_than 65535 body) ErrBodyTooLong;;
  parent ← (if decide (cp_InReplyToID p = 0) then Ok None
            else match rt_comments rt !! cp_InReplyToID p with
                 | None => Err ErrCommentNotOnPR
                 | Some c => if decide (rc_PrIssueID c = cp_PRIssueID p) then Ok (Some c)
                             else Err ErrCommentNotOnPR
                 end);
  let c := comment_row p parent in
  refuse (negb (bool_decide (is_Some (issues t !! cp_PRIssueID p)) && user_ref w (rc_AuthorUserID c)
                && pg_text body && pg_text (rc_FilePath c) && pg_text (rc_OriginalCommitSha c))) ErrReviewDB;;
  Ok (rt_next_comment rt,
      MkReviewTables (rt_reviews rt) (<[rt_next_comment rt := c]> (rt_comments rt)) (rt_requests rt)
        (rt_next_review rt) (rt_next_comment rt + 1) (rt_next_request rt)).

Definition with_comment (rt : ReviewTables) (id : Z) (f : PrReviewComment → PrReviewComment) : ReviewTables :=
  MkReviewTables (rt_reviews rt) (alter f id (rt_comments rt)) (rt_requests rt) (rt_next_review rt)
    (rt_next_comment rt) (rt_next_request rt).

Definition set_body (body : string) (c : PrReviewComment) : PrReviewComment :=
  MkPrReviewComment (rc_PrIssueID c) (rc_ReviewID c) (rc_AuthorUserID c) (rc_FilePath c) (rc_Side c)
    (rc_OriginalCommitSha c) (rc_OriginalLine c) (rc_OriginalPosition c) (rc_CurrentPosition c) body
    (rc_InReplyToID c) (rc_Pending c) (rc_Resolved c).

Definition set_resolved (r : option (Z * option Z)) (c : PrReviewComment) : PrReviewComment :=
  MkPrReviewComment (rc_PrIssueID c) (rc_ReviewID c) (rc_AuthorUserID c) (rc_FilePath c) (rc_Side c)
    (rc_OriginalCommitSha c) (rc_OriginalLine c) (rc_OriginalPosition c) (rc_CurrentPosition c) (rc_Body c)
    (rc_InReplyToID c) (rc_Pending c) r.

Definition EditComment (rt : ReviewTables) (id : Z) (text : string) : R ReviewTables :=
  let body := TrimSpace text in
  refuse (bool_decide (body = "")) ErrEmptyBody;;
  refuse (longer_than 65535 body) ErrBodyTooLong;;
  refuse (negb (pg_text body)) ErrReviewDB;;
  Ok (with_comment rt id (set_body body)).

Definition Resolve (rt : ReviewTables) (now actor id : Z) : R ReviewTables :=
  c ← row (rt_comments rt !! id);
  refuse (bool_decide (is_Some (rc_Resolved c))) ErrAlreadyResolved;;
  refuse (negb (user_ref w (nonzero actor))) ErrReviewDB;;
  Ok (with_comment rt id (set_resolved (Some (now, nonzero actor)))).

Definition Reopen (rt : ReviewTables) (id : Z) : R ReviewTables :=
  c ← row (rt_comments rt !! id);
  refuse (bool_decide (rc_Resolved c = None)) ErrNotResolved;;
  Ok (with_comment rt id (set_resolved None)).

End Reviews.
