(* ===== verification/ReviewsFacts.v ===== *)
(** * ReviewsFacts: what a submission changes for the merge gate

    A review counts for the gate as the last decision of its author; these lemmas follow
    it from the rows of the table, through the order of the query, to [counting] of ReviewGateFacts.v. *)

From stdpp Require Import sorting.
From S2P Require Import Prelude GoString IssueRefs Issues Protection ReviewGate ReviewGateFacts Reviews.
Local Open Scope Z_scope.

(** ** The order of the query *)

#[export] Instance gate_le_total : Total gate_le.
Proof.
  intros [i a] [j b]. unfold gate_le, author_le. cbn.
  destruct (rv_AuthorUserID a) as [x|], (rv_AuthorUserID b) as [y|]; try naive_solver lia.
  destruct (Z.lt_total x y) as [|[|]]; [left|destruct (Z.le_total i j); [left|right]|right];
    split; auto; try lia; intros [= ?]; lia.
Qed.

#[export] Instance gate_le_trans : Transitive gate_le.
Proof.
  intros [i a] [j b] [k c]. unfold gate_le, author_le. cbn.
  destruct (rv_AuthorUserID a) as [x|], (rv_AuthorUserID b) as [y|], (rv_AuthorUserID c) as [z|];
    intros [H1 H1'] [H2 H2']; try done; split; auto; try lia; intros E; simplify_eq; try done.
  - assert (y = z) as -> by lia. etrans; [by apply H1'|by apply H2'].
  - etrans; [by apply H1'|by apply H2'].
Qed.

Definition gate_rows (rt : ReviewTables) (pr : Z) : gmap Z PrReview :=
  filter (fun kv => rv_PrIssueID kv.2 = pr ∧ rv_DismissedBy kv.2 = None) (rt_reviews rt).

Definition row_of (kv : Z * PrReview) : ReviewRow := MkReview (rv_AuthorUserID kv.2) (rv_State kv.2).

(** The identifiers of the reviews of one author, in the order of a list. *)
Definition ids_of (a : Z) (l : list (Z * PrReview)) : list Z :=
  fst <$> filter (fun x => rv_AuthorUserID x.2 = Some a) l.

Definition decision_of (m : gmap Z PrReview) (id : Z) : option PrReviewState :=
  r ← m !! id; if is_decision (rv_State r) then Some (rv_State r) else None.

Lemma decisions_ids (m : gmap Z PrReview) (a : Z) (l : list (Z * PrReview)) :
  a ≠ 0 → (∀ x, x ∈ l → m !! x.1 = Some x.2) →
  decisions a (row_of <$> l) = omap (decision_of m) (ids_of a l).
Proof.
  intros Ha Hm. induction l as [|[id r] l IH]; [done|].
  unfold decisions, ids_of in *. cbn [fmap list_fmap omap list_omap row_of AuthorUserID State snd].
  rewrite filter_cons, IH by (intros; apply Hm; by right). cbn [snd].
  specialize (Hm (id, r) (list_elem_of_here _ _)). cbn in Hm.
  destruct (decide (rv_AuthorUserID r = Some a)) as [Ea|Ea].
  - assert (decision_of m id = if is_decision (rv_State r) then Some (rv_State r) else None) as Hd
      by (unfold decision_of; by rewrite Hm).
    rewrite Ea. cbn. rewrite Hd.
    destruct (is_decision (rv_State r)); [rewrite decide_True by done|rewrite decide_False by naive_solver]; done.
  - rewrite decide_False; [done|]. intros [H _]. apply Ea. destruct (rv_AuthorUserID r) as [x|]; cbn in H; congruence.
Qed.

Lemma ids_sorted (a : Z) (l : list (Z * PrReview)) :
  StronglySorted gate_le l → StronglySorted Z.le (ids_of a l).
Proof.
  unfold ids_of. induction 1 as [|[id r] l _ IH HF]; [constructor|]. rewrite filter_cons. cbn [snd].
  case_decide as Ea; [|done]. cbn. constructor; [done|].
  apply Forall_fmap, Forall_forall. intros [j b] [Hb Hin]%list_elem_of_filter. cbn in *.
  rewrite Forall_forall in HF. destruct (HF _ Hin) as [_ H]. cbn in H. apply H. congruence.
Qed.

Lemma ids_perm (a : Z) (l l' : list (Z * PrReview)) : l ≡ₚ l' → ids_of a l ≡ₚ ids_of a l'.
Proof. intros H. unfold ids_of. by rewrite H. Qed.

Lemma gate_list_elem (rt : ReviewTables) (pr : Z) (x : Z * PrReview) :
  x ∈ merge_sort gate_le (map_to_list (gate_rows rt pr)) → rt_reviews rt !! x.1 = Some x.2.
Proof.
  rewrite merge_sort_Permutation. destruct x as [id r]. rewrite elem_of_map_to_list.
  unfold gate_rows. rewrite map_lookup_filter_Some. by intros [? _].
Qed.

(** The reviews of one author, oldest first. *)
Definition history (rt : ReviewTables) (pr a : Z) : list Z :=
  ids_of a (merge_sort gate_le (map_to_list (gate_rows rt pr))).

Lemma history_sorted (rt : ReviewTables) (pr a : Z) : StronglySorted Z.le (history rt pr a).
Proof. apply ids_sorted, StronglySorted_merge_sort; apply _. Qed.

Lemma history_perm (rt : ReviewTables) (pr a : Z) : history rt pr a ≡ₚ ids_of a (map_to_list (gate_rows rt pr)).
Proof. apply ids_perm, merge_sort_Permutation. Qed.

Lemma counting_history (rt : ReviewTables) (pr author a : Z) :
  counting author a (ListUndismissedReviewsForGate rt pr) =
  if decide (a = author ∨ a = 0) then None else last (omap (decision_of (rt_reviews rt)) (history rt pr a)).
Proof.
  unfold counting. case_decide as Ha; [done|]. unfold ListUndismissedReviewsForGate.
  fold (gate_rows rt pr). fold row_of. rewrite (decisions_ids (rt_reviews rt)); [done|tauto|].
  intros x. apply gate_list_elem.
Qed.

(** ** Submitting and dismissing *)

(** Identifiers come from the sequence. *)
Definition fresh_ids (rt : ReviewTables) : Prop := ∀ id r, rt_reviews rt !! id = Some r → id < rt_next_review rt.

Lemma row_Ok {A} (o : option A) (a : A) : row o = Ok a ↔ o = Some a.
Proof. destruct o; cbn; naive_solver. Qed.

Lemma refuse_Ok (b : bool) (e : ReviewErr) (u : unit) : refuse b e = Ok u ↔ b = false.
Proof. destruct b, u; cbn; naive_solver. Qed.

Lemma Submit_reviews (w : World) (tm : Z → Z → bool) (t t' : Tables) (rt rt' : ReviewTables)
    (p : SubmitParams) (id : Z) :
  Submit w tm t rt p = Ok (id, t', rt') →
  ∃ st, review_state (s_State p) = Some st ∧ id = rt_next_review rt ∧
    rt_reviews rt' = <[id := MkPrReview (s_PRIssueID p) (nonzero (s_AuthorUserID p)) st (TrimSpace (s_Body p)) None]>
                       (rt_reviews rt) ∧
    rt_next_review rt' = rt_next_review rt + 1 ∧
    (st = Approve → s_AuthorUserID p ≠ 0 → s_AuthorUserID p ≠ s_PRAuthorUserID p).
Proof.
  unfold Submit. destruct (review_state (s_State p)) as [st|] eqn:Est; [|done]. intros H.
  apply bind_Ok_inv in H as (? & H1 & H). apply refuse_Ok, bool_decide_eq_false in H1.
  apply bind_Ok_inv in H as (? & _ & H). apply bind_Ok_inv in H as ([id1 rt1] & H2 & H).
  apply row_Ok in H2. unfold CreatePRReview in H2. destruct (negb _); [done|]. injection H2 as <- <-.
  apply bind_Ok_inv in H as (t1 & _ & [= <- _ <-]). exists st.
  split_and!; try done; [by destruct (is_decision st)..|tauto].
Qed.

Lemma fresh_ids_Submit (w : World) (tm : Z → Z → bool) (t t' : Tables) (rt rt' : ReviewTables)
    (p : SubmitParams) (id : Z) :
  fresh_ids rt → Submit w tm t rt p = Ok (id, t', rt') → fresh_ids rt'.
Proof.
  intros Hf H. apply Submit_reviews in H as (st & _ & -> & Hr & Hn & _). intros j r.
  rewrite Hr, Hn, lookup_insert_Some. intros [[<- _]|[_ H]]; [lia|]. apply Hf in H. lia.
Qed.

(** A list of one author's reviews after one more of them, or of another. *)
Lemma history_Submit (rt rt' : ReviewTables) (pr a : Z) (r : PrReview) :
  fresh_ids rt → rv_PrIssueID r = pr → rv_DismissedBy r = None →
  rt_reviews rt' = <[rt_next_review rt := r]> (rt_reviews rt) →
  history rt' pr a = history rt pr a ++ (if decide (rv_AuthorUserID r = Some a) then [rt_next_review rt] else []).
Proof.
  intros Hf Hpr Hd Hr.
  assert (rt_reviews rt !! rt_next_review rt = None) as Hnone.
  { destruct (rt_reviews rt !! rt_next_review rt) eqn:E; [|done]. apply Hf in E. lia. }
  assert (gate_rows rt' pr = <[rt_next_review rt := r]> (gate_rows rt pr)) as Eg.
  { unfold gate_rows. rewrite Hr. by rewrite map_filter_insert_True. }
  assert (gate_rows rt pr !! rt_next_review rt = None) as Hg.
  { unfold gate_rows. apply map_lookup_filter_None. by left. }
  apply (StronglySorted_unique Z.le).
  - apply history_sorted.
  - assert (∀ x, x ∈ history rt pr a → x < rt_next_review rt) as Hlt.
    { intros x. rewrite history_perm. unfold ids_of.
      intros ([j b] & -> & [_ Hin]%list_elem_of_filter)%list_elem_of_fmap.
      apply elem_of_map_to_list, map_lookup_filter_Some in Hin as [Hin _]. by apply Hf in Hin. }
    case_decide; [|rewrite app_nil_r; apply history_sorted].
    pose proof (history_sorted rt pr a) as Hs. induction Hs as [|x l _ IH HF]; [repeat constructor|].
    cbn. constructor; [apply IH; intros y Hy; apply Hlt; by right|].
    apply Forall_app. split; [done|]. constructor; [|done]. specialize (Hlt x (list_elem_of_here _ _)). lia.
  - rewrite !history_perm, Eg, (ids_perm a _ _ (map_to_list_insert _ _ _ Hg)).
    unfold ids_of. rewrite filter_cons. cbn [snd]. case_decide; cbn; [|by rewrite app_nil_r].
    by rewrite Permutation_app_comm.
Qed.

Lemma history_other (rt rt' : ReviewTables) (pr a : Z) (r : PrReview) :
  fresh_ids rt → rv_PrIssueID r ≠ pr → rt_reviews rt' = <[rt_next_review rt := r]> (rt_reviews rt) →
  history rt' pr a = history rt pr a.
Proof.
  intros Hf Hpr Hr. unfold history, gate_rows. rewrite Hr. rewrite map_filter_insert_not'; [done|naive_solver|].
  intros y Hy. apply Hf in Hy. lia.
Qed.

(** what a review does to the merge gate.  A submission of an approval or a request for changes by
    a user becomes that user's counting decision on that pull request (for the
    pull request's author, whose approval is refused, nothing counts); a comment changes no
    counting decision; and no submission changes what counts for another user or on another pull
    request. *)
Theorem Submit_gate (w : World) (tm : Z → Z → bool) (t t' : Tables) (rt rt' : ReviewTables)
    (p : SubmitParams) (id : Z) (Hf : fresh_ids rt) (H : Submit w tm t rt p = Ok (id, t', rt')) :
  ∃ st, review_state (s_State p) = Some st ∧
  (st = Approve → s_AuthorUserID p ≠ 0 → s_AuthorUserID p ≠ s_PRAuthorUserID p) ∧
  ∀ pr author a,
    counting author a (ListUndismissedReviewsForGate rt' pr) =
    if decide (pr = s_PRIssueID p ∧ a = s_AuthorUserID p ∧ is_decision st = true ∧ a ≠ author ∧ a ≠ 0)
    then Some st else counting author a (ListUndismissedReviewsForGate rt pr).
Proof.
  apply Submit_reviews in H as (st & Hst & -> & Hr & Hn & Hself). exists st. split; [done|]. split; [done|].
  set (r := MkPrReview _ _ _ _ _) in Hr.
  intros pr author a. rewrite !counting_history.
  destruct (decide (a = author ∨ a = 0)) as [Ha|Ha]; [by rewrite decide_False by naive_solver|].
  assert (∀ l : list Z, (∀ x, x ∈ l → x < rt_next_review rt) →
    omap (decision_of (rt_reviews rt')) l = omap (decision_of (rt_reviews rt)) l) as Hold.
  { intros l Hl. induction l as [|x l IH]; [done|]. cbn. rewrite IH by (intros; apply Hl; by right).
    assert (decision_of (rt_reviews rt') x = decision_of (rt_reviews rt) x) as ->; [|done].
    specialize (Hl x (list_elem_of_here _ _)). unfold decision_of. rewrite Hr, lookup_insert_ne by lia. done. }
  assert (∀ x, x ∈ history rt pr a → x < rt_next_review rt) as Hlt.
  { intros x. rewrite history_perm. unfold ids_of.
    intros ([j b] & -> & [_ Hin]%list_elem_of_filter)%list_elem_of_fmap.
    apply elem_of_map_to_list, map_lookup_filter_Some in Hin as [Hin _]. by apply Hf in Hin. }
  destruct (decide (pr = s_PRIssueID p)) as [->|Hpr].
  - rewrite (history_Submit rt rt' (s_PRIssueID p) a r Hf eq_refl eq_refl Hr), omap_app, Hold by done. cbn [rv_AuthorUserID r].
    destruct (decide (nonzero (s_AuthorUserID p) = Some a)) as [Ea|Ea].
    + assert (a = s_AuthorUserID p) as -> by (unfold nonzero in Ea; by case_decide; simplify_eq).
      assert (decision_of (rt_reviews rt') (rt_next_review rt) = if is_decision st then Some st else None) as Hd
        by (unfold decision_of; by rewrite Hr, lookup_insert_eq).
      cbn. rewrite Hd. destruct (is_decision st); [by rewrite last_snoc, decide_True by naive_solver|].
      by rewrite app_nil_r, decide_False by naive_solver.
    + cbn. rewrite app_nil_r, decide_False; [done|]. intros (_ & -> & _ & _ & Hz). apply Ea.
      unfold nonzero. by rewrite decide_False.
  - rewrite (history_other rt rt' pr a r Hf (not_eq_sym Hpr) Hr), Hold by done.
    by rewrite decide_False by tauto.
Qed.

(** A request that is accepted is one more, and they stay within the bound; the count includes the requests that
    have been answered. *)
Lemma Request_bounded (w : World) (te : Z → bool) (t t' : Tables) (rt rt' : ReviewTables)
    (p : RequestParams) (id : Z) :
  (∀ j q, rt_requests rt !! j = Some q → j < rt_next_request rt) →
  Request w te t rt p = Ok (id, t', rt') →
  CountActivePRReviewRequests rt' (q_PRIssueID p) = S (CountActivePRReviewRequests rt (q_PRIssueID p)) ∧
  (CountActivePRReviewRequests rt' (q_PRIssueID p) ≤ MaxReviewersPerPR)%nat.
Proof.
  intros Hf H. unfold Request in H. apply bind_Ok_inv in H as (? & _ & H).
  apply bind_Ok_inv in H as (? & Hc & H). apply refuse_Ok, bool_decide_eq_false in Hc.
  apply bind_Ok_inv in H as (? & _ & H). apply bind_Ok_inv in H as ([id1 rt1] & H1 & [= _ _ <-]).
  apply row_Ok in H1. unfold CreatePRReviewRequest in H1. destruct (negb _); [done|]. injection H1 as _ <-.
  assert (rt_requests rt !! rt_next_request rt = None) as Hnone.
  { destruct (rt_requests rt !! rt_next_request rt) eqn:E; [|done]. apply Hf in E. lia. }
  assert (∀ n m, n = S m → ¬ (MaxReviewersPerPR ≤ m)%nat → n = S m ∧ (n ≤ MaxReviewersPerPR)%nat) as Harith by lia.
  apply Harith; [|done]. unfold CountActivePRReviewRequests, active_requests. cbn.
  rewrite map_filter_insert_True by done. apply map_size_insert_None, map_lookup_filter_None. by left.
Qed.

(** ** On an example *)

Definition ex_w : World := MkWorld (fun _ => true) (fun _ => None) (fun _ => None) (fun _ _ => None)
  (fun _ _ => None) (fun _ => Ok true) (fun b => (b, [], false)) (fun _ => []) (fun s => s).

Definition ex_t : Tables :=
  with_issues {[4 := MkIssue 4 7 1 IssueKindPr "t" "" None (Some 1) IssueStateOpen None false None None None None]}
    no_tables.

Definition ex_rt : ReviewTables := MkReviewTables
  {[1 := MkPrReview 4 (Some 2) RequestChanges "" None; 2 := MkPrReview 4 (Some 3) Approve "" None]}
  ∅ {[1 := MkPrReviewRequest 4 (Some 2) None (Some 1) false None]} 3 1 2.

Definition ex_submit (user : Z) (state : string) : R (Z * Tables * ReviewTables) :=
  Submit ex_w (fun _ _ => false) ex_t ex_rt (MkSubmitParams 4 user state "" 1).

Example ex_self_approval : ex_submit 1 "approve" = Err ErrAuthorCannotApprove.
Proof. vm_compute. reflexivity. Qed.

(** The answered request no longer waits, but still counts against the bound. *)
Example ex_answered :
  match ex_submit 2 "approve" with
  | Ok (_, _, rt) => CountActivePRReviewRequests rt 4 = 1%nat ∧
                     (rq_SatisfiedByReviewID <$> rt_requests rt !! 1) = Some (Some 3)
  | Err _ => False
  end.
Proof. vm_compute. split; reflexivity. Qed.

Definition ex_submitted : Tables * ReviewTables :=
  match ex_submit 2 "approve" with Ok (_, t, rt) => (t, rt) | Err _ => (ex_t, ex_rt) end.

Lemma ex_fresh : fresh_ids ex_rt.
Proof.
  assert (map_Forall (fun id _ => id < rt_next_review ex_rt) (rt_reviews ex_rt)) as H
    by (apply (bool_decide_unpack _); vm_compute; exact I).
  intros id r Hr. exact (H id r Hr).
Defined.

Lemma Submit_gate_witness :
  counting 1 2 (ListUndismissedReviewsForGate ex_rt 4) = Some RequestChanges ∧
  counting 1 2 (ListUndismissedReviewsForGate ex_submitted.2 4) = Some Approve.
Proof.
  split; [vm_compute; reflexivity|].
  destruct (Submit_gate ex_w (fun _ _ => false) ex_t ex_submitted.1 ex_rt ex_submitted.2
              (MkSubmitParams 4 2 "approve" "" 1) 3 ex_fresh ltac:(vm_compute; reflexivity)) as (st & Hst & _ & H).
  injection Hst as <-. rewrite H. vm_compute. reflexivity.
Defined.
