(* ===== verification/Pulls.v ===== *)
(** * Pulls: pull requests from opening to merge

    internal/pulls (pulls.go, merge.go, state.go, linked_issues.go) with PerformMerge and UpdateBranchFromBase
    of internal/repos/git/mergeops.go and the statements of queries/pulls.sql.  A pull request is a row here
    beside its row in [Issues.Tables].  What git computes from commits is a field of [Git]: commits do not change, so
    these are functions of object names; refs do change, and are part of the state.

    Merge, Create, EditPR and SetReady are one step each (a row lock, an advisory lock, one transaction, one
    statement).  The others read first and write later, in several transactions: they answer
    the [Write]s they are going to make, and [pstep] lets requests and jobs interleave between them. *)

From S2P Require Import Prelude GoString IssueRefs Issues Protection ReviewGate Checks Reviews.
Local Open Scope Z_scope.

(** ** Data *)

Inductive PrMergeableState := Unknown | Clean | Dirty | Blocked | Behind.

#[export] Instance PrMergeableState_eq_dec : EqDecision PrMergeableState.
Proof. solve_decision. Defined.

(** The columns that SetPullRequestMerged sets, all together and it alone. *)
Record MergeRecord := MkMergeRecord {
  mr_MergedAt : Z; mr_MergedByUserID : option Z; mr_MergeCommitSha : string; mr_MergeMethod : string;
  mr_BaseOidAtMerge : string; mr_HeadOidAtMerge : string
}.

Record PullRequest := MkPullRequest {
  pr_IssueID : Z; pr_BaseRef : string; pr_HeadRef : string; pr_HeadRepoID : Z; pr_BaseOid : string;
  pr_HeadOid : string; pr_Draft : bool; pr_Mergeable : option bool; pr_MergeableState : PrMergeableState;
  pr_Merged : option MergeRecord
}.

Record CommitDetail := MkCommit { cd_OID : string; cd_Subject : string; cd_Body : string }.

(** The tables, and the refs on disk: for each repository, full name to object name. *)
Record Db := MkDb {
  tb : Tables; rt : ReviewTables; prs : gmap Z PullRequest; pr_commits : gmap Z (list CommitDetail);
  pr_files : gmap Z (list string); refs : gmap Z (gmap string string);
  rules : gmap Z (list BranchProtectionRule); check_runs : gmap (Z * string * string) CheckRun;
  default_oid : gmap Z string
}.

Definition with_tb t d := MkDb t (rt d) (prs d) (pr_commits d) (pr_files d) (refs d) (rules d) (check_runs d) (default_oid d).
Definition with_rt r d := MkDb (tb d) r (prs d) (pr_commits d) (pr_files d) (refs d) (rules d) (check_runs d) (default_oid d).
Definition with_prs p d := MkDb (tb d) (rt d) p (pr_commits d) (pr_files d) (refs d) (rules d) (check_runs d) (default_oid d).
Definition with_refs r d := MkDb (tb d) (rt d) (prs d) (pr_commits d) (pr_files d) r (rules d) (check_runs d) (default_oid d).

Inductive GitErr := ErrRefNotFound | ErrGitOther.

#[export] Instance GitErr_eq_dec : EqDecision GitErr.
Proof. solve_decision. Defined.

Inductive PullErr :=
| ErrSameBranch | ErrBaseNotFound | ErrHeadNotFound | ErrNoCommitsToMerge | ErrAlreadyMerged
| ErrAlreadyClosed | ErrMergeBlocked | ErrHeadAlreadyMerged | ErrMergeMethodOff | ErrConcurrentMerge
| ErrPRNotFound | ErrBranchUpToDate | ErrUpdateBranchMethod | DuplicatePR (number : Z)
| ErrGit | ErrGate | ErrPullDB | ErrFromIssues (e : IssueErr).

#[export] Instance PullErr_eq_dec : EqDecision PullErr.
Proof. solve_decision. Defined.

Abbreviation P A := (res PullErr A).

Definition when (b : bool) (e : PullErr) : P unit := if b then Err e else Ok tt.
Definition get {A} (o : option A) (e : PullErr) : P A := match o with Some a => Ok a | None => Err e end.
Definition from_issues {A} (m : M A) : P A :=
  match m with Ok a => Ok a | Err e => Err (ErrFromIssues e) end.

Record MergeOptions := MkMergeOptions {
  mo_Repo : Z; mo_BaseRef : string; mo_BaseOID : string; mo_HeadOID : string; mo_Method : string;
  mo_Author : string * string; mo_Committer : string * string; mo_When : Z; mo_Subject : string;
  mo_Body : string
}.

Record UpdateBranchOptions := MkUpdateOptions {
  uo_Repo : Z; uo_HeadRef : string; uo_HeadOID : string; uo_BaseOID : string; uo_Method : string;
  uo_Author : string * string; uo_When : Z
}.

Record UserRow := MkUserRow { ur_Username : string; ur_DisplayName : string; ur_PrimaryEmailID : option Z }.

(** git, and what else is outside. *)
Record Outside := MkOutside {
  (** rev-parse of a name in a repository with these refs *)
  rev_parse : gmap string string → string → res GitErr string;
  (** merge-base --is-ancestor, with its error *)
  is_ancestor : string → string → res GitErr bool;
  commits_between : string → string → nat → res GitErr (list CommitDetail);
  files_between : string → string → res GitErr (list string);
  (** merge-tree: whether there is a conflict *)
  probe_merge : string → string → res GitErr bool;
  (** the worktree from checkout to rev-parse HEAD; none when git fails on the way, as it does on
      conflicts and names that are no commits *)
  merge_worktree : MergeOptions → option string;
  update_worktree : UpdateBranchOptions → option string;
  GetUserByID : Z → option UserRow;
  GetUserEmailByID : Z → option (string * bool);
  DefaultBranch : Z → option string;
  (** the code-owner check of CodeOwnerGate.v, with its inputs: repository, base, pull request *)
  CodeOwners : Z → string → Z → gset Z → P (bool * list string);
  ToLower : string → string;
  (** the verb q of fmt *)
  quoted : string → string
}.

Section Pulls.
  Variable w : World.
  Variable o : Outside.

Definition refs_of (d : Db) (repo : Z) : gmap string string := default ∅ (refs d !! repo).

Definition ResolveRefOID (d : Db) (repo : Z) (ref : string) : res GitErr string :=
  rev_parse o (refs_of d repo) ref.

Definition resolve_or (m : res GitErr string) (missing : PullErr) : P string :=
  match m with
  | Ok oid => Ok oid
  | Err ErrRefNotFound => Err missing
  | Err ErrGitOther => Err ErrGit
  end.

(** [git update-ref ref new old]. *)
Definition update_ref (d : Db) (repo : Z) (ref new old : string) : option Db :=
  if decide (refs_of d repo !! ref = Some old)
  then Some (with_refs (<[repo := <[ref := new]> (refs_of d repo)]> (refs d)) d) else None.

Definition head_ref (branch : string) : string := "refs/heads/" +:+ branch.

(** ** mergeops.go *)

Definition known_method (m : string) : bool := bool_decide (m ∈ ["merge"; "squash"; "rebase"]).

Definition PerformMerge (d : Db) (opts : MergeOptions) : P (string * Db) :=
  when (negb (known_method (mo_Method opts))) ErrGit;;
  new ← get (merge_worktree o opts) ErrGit;
  d ← get (update_ref d (mo_Repo opts) (mo_BaseRef opts) new (mo_BaseOID opts)) ErrGit;
  Ok (new, d).

(** UpdateBranchFromBase without its last command, which is a [Write]. *)
Definition UpdateBranchFromBase (opts : UpdateBranchOptions) : P string :=
  match is_ancestor o (uo_BaseOID opts) (uo_HeadOID opts) with
  | Ok true => Err ErrBranchUpToDate
  | Ok false | Err _ => get (update_worktree o opts) ErrGit
  end.

(** ** Gates *)

Definition rules_of (d : Db) (repo : Z) : list BranchProtectionRule := default [] (rules d !! repo).

Definition loadRequiredCheckNames (d : Db) (repo : Z) (baseRef : string) : list string :=
  match MatchLongestRule (rules_of d repo) baseRef with
  | Some rule => StatusChecksRequired rule
  | None => []
  end.

Definition reviewGate (d : Db) (i : Issue) (pr : PullRequest) : P ReviewGate.GateResult :=
  Evaluate (CodeOwners o (i_RepoID i) (pr_BaseOid pr) (pr_IssueID pr)) (rules_of d (i_RepoID i)) (pr_BaseRef pr)
    (ListUndismissedReviewsForGate (rt d) (pr_IssueID pr)) (int64FromPg (i_AuthorUserID i)).

Definition checksGate (d : Db) (i : Issue) (pr : PullRequest) : P Checks.GateResult :=
  EvaluateRequiredChecks (fun name => Ok (check_runs d !! (i_RepoID i, pr_HeadOid pr, name)))
    (pr_HeadOid pr) (loadRequiredCheckNames d (i_RepoID i) (pr_BaseRef pr)).

(** ** merge.go *)

(** Display name or user name, and the verified primary address or a made-up one. *)
Definition identityFor (user : Z) : P (string * string) :=
  u ← get (GetUserByID o user) ErrPullDB;
  let display := TrimSpace (ur_DisplayName u) in
  let name := if decide (display = "") then ur_Username u else display in
  let addr := match ur_PrimaryEmailID u ≫= GetUserEmailByID o with
              | Some (email, true) => email
              | _ => ur_Username u +:+ "@noreply.shithub.local"
              end in
  Ok (name, addr).

Record MergeParams := MkMergeParams {
  m_PRID : Z; m_ActorUserID : Z; m_Method : string; m_Subject : string; m_Body : string
}.

Definition ok_true (m : res GitErr bool) : bool := match m with Ok b => b | Err _ => false end.

(** What Merge hands to PerformMerge: the author is the pull request's for a squash, and the merger
    otherwise. *)
Definition mergeOptions (now : Z) (p : MergeParams) (pr : PullRequest) (issue : Issue)
    (merger : string * string) : MergeOptions :=
  let author := match i_AuthorUserID issue with
                | Some a => if decide (m_Method p = "squash") then
                              match identityFor a with Ok x => x | Err _ => merger end
                            else merger
                | None => merger
                end in
  let subject := TrimSpace (m_Subject p) in
  let subject := if decide (subject = "") then i_Title issue +:+ " (#" +:+ pretty (i_Number issue) +:+ ")"
                 else subject in
  MkMergeOptions (i_RepoID issue) (head_ref (pr_BaseRef pr)) (pr_BaseOid pr) (pr_HeadOid pr)
    (m_Method p) author merger now subject (m_Body p).

(** The head is in the base already, as far as git can tell. *)
Definition headInBase (pr : PullRequest) : bool :=
  bool_decide (pr_HeadOid pr ≠ "" ∧ pr_BaseOid pr ≠ "") && ok_true (is_ancestor o (pr_HeadOid pr) (pr_BaseOid pr)).

(** Merge up to the call of PerformMerge. *)
Definition mergeChecks (d : Db) (now : Z) (p : MergeParams) : P (PullRequest * Issue * MergeOptions) :=
  pr ← get (prs d !! m_PRID p) ErrPRNotFound;
  when (bool_decide (is_Some (pr_Merged pr))) ErrAlreadyMerged;;
  issue ← get (GetIssueByID (tb d) (m_PRID p)) ErrPullDB;
  when (bool_decide (i_State issue ≠ IssueStateOpen)) ErrAlreadyClosed;;
  when (headInBase pr) ErrHeadAlreadyMerged;;
  when (bool_decide (pr_MergeableState pr ≠ Clean)) ErrMergeBlocked;;
  rg ← reviewGate d issue pr;
  when (negb (ReviewGate.Satisfied rg)) ErrMergeBlocked;;
  cg ← checksGate d issue pr;
  when (negb (Checks.Satisfied cg)) ErrMergeBlocked;;
  merger ← identityFor (m_ActorUserID p);
  Ok (pr, issue, mergeOptions now p pr issue merger).

Definition newline : string := String "010" "".

Definition fetchCommitsForLinkScan (d : Db) (id : Z) : list string :=
  (fun c => cd_Subject c +:+ newline +:+ newline +:+ cd_Body c) <$> default [] (pr_commits d !! id).

(** One turn of the loop that closes linked issues; a statement that fails is passed over. *)
Definition close_linked (now actor pr repo self : Z) (st : Tables * gset Z) (num : Z) : Tables * gset Z :=
  let '(t, closed) := st in
  if decide (num = self) then st
  else match GetIssueByNumber t repo num with
       | None => st
       | Some target =>
           if decide (i_Kind target ≠ IssueKindIssue ∨ i_State target ≠ IssueStateOpen) then st
           else if decide (i_ID target ∈ closed) then st
           else
             let t := (SetIssueState t now (i_ID target) IssueStateClosed (Some "completed") (nonzero actor)).2 in
             let t := default t (InsertIssueEvent t (i_ID target) (nonzero actor) "closed"
                                   (json_num "closed_by_pr" pr) None) in
             (t, {[i_ID target]} ∪ closed)
       end.

(** JSON objects of quoted texts. *)
Definition json_key (key : string) : string := String "034" (key +:+ String "034" ":").

Definition json_text (key text : string) : string := "{" +:+ json_key key +:+ quoted o text +:+ "}".

Definition json_texts (k1 t1 k2 t2 : string) : string :=
  "{" +:+ json_key k1 +:+ quoted o t1 +:+ "," +:+ json_key k2 +:+ quoted o t2 +:+ "}".

Definition set_merged (now : Z) (p : MergeParams) (oid : string) (pr : PullRequest) : PullRequest :=
  MkPullRequest (pr_IssueID pr) (pr_BaseRef pr) (pr_HeadRef pr) (pr_HeadRepoID pr) (pr_BaseOid pr)
    (pr_HeadOid pr) (pr_Draft pr) (Some false) Clean
    (Some (MkMergeRecord now (nonzero (m_ActorUserID p)) oid (m_Method p) (pr_BaseOid pr) (pr_HeadOid pr))).

(** The statements of Merge after PerformMerge: the merge record, the default branch, the issue, the
    event, the linked issues. *)
Definition recordMerge (d : Db) (now : Z) (p : MergeParams) (pr : PullRequest) (i : Issue) (oid : string) : Db :=
  let id := m_PRID p in
  let actor := nonzero (m_ActorUserID p) in
  let t := (SetIssueState (tb d) now id IssueStateClosed (Some "completed") actor).2 in
  let t := default t (InsertIssueEvent t id actor "merged" (json_texts "method" (m_Method p) "commit" oid) None) in
  let linked := parseLinkedIssues (i_Body i) ++ (fetchCommitsForLinkScan d id ≫= parseLinkedIssues) in
  let t := (foldl (close_linked now (m_ActorUserID p) id (i_RepoID i) (i_Number i)) (t, ∅) linked).1 in
  MkDb t (rt d) (alter (set_merged now p oid) id (prs d)) (pr_commits d) (pr_files d) (refs d) (rules d)
    (check_runs d)
    (if decide (DefaultBranch o (i_RepoID i) = Some (pr_BaseRef pr)) then <[i_RepoID i := oid]> (default_oid d)
     else default_oid d).

Definition Merge (d : Db) (now : Z) (p : MergeParams) : P Db :=
  '(pr, i, opts) ← mergeChecks d now p;
  '(oid, d) ← PerformMerge d opts;
  Ok (recordMerge d now p pr i oid).

(** ** pulls.go: what is one step *)

Record CreateParams := MkPullParams {
  c_RepoID : Z; c_Author : Z; c_Title : string; c_Text : string; c_BaseRef : string; c_HeadRef : string;
  c_Draft : bool
}.

(** FindOpenPullRequestByBranches. *)
Definition open_on (d : Db) (repo : Z) (base head : string) (id : Z) (pr : PullRequest) : bool :=
  match issues (tb d) !! id with
  | Some i => bool_decide (i_RepoID i = repo ∧ i_Kind i = IssueKindPr ∧ i_State i = IssueStateOpen ∧
                           pr_BaseRef pr = base ∧ pr_HeadRef pr = head)
  | None => false
  end.

Definition FindOpenPullRequestByBranches (d : Db) (repo : Z) (base headRef : string) : option Z :=
  id ← fst <$> head (map_to_list (filter (fun kv => open_on d repo base headRef kv.1 kv.2 = true) (prs d)));
  i_Number <$> issues (tb d) !! id.

Definition CreatePullRequest (d : Db) (pr : PullRequest) : option Db :=
  if decide (pr_BaseRef pr = pr_HeadRef pr ∨ ¬ is_Some (issues (tb d) !! pr_IssueID pr) ∨
             is_Some (prs d !! pr_IssueID pr) ∨ pg_text (pr_BaseRef pr) = false ∨ pg_text (pr_HeadRef pr) = false)
  then None else Some (with_prs (<[pr_IssueID pr := pr]> (prs d)) d).

(** Create up to its commit; the names are resolved before the lock is taken. *)
Definition Create (d : Db) (p : CreateParams) : P (Z * Db) :=
  let base := TrimSpace (c_BaseRef p) in
  let head := TrimSpace (c_HeadRef p) in
  when (bool_decide (base = "" ∨ head = "" ∨ base = head)) ErrSameBranch;;
  baseOID ← resolve_or (ResolveRefOID d (c_RepoID p) base) ErrBaseNotFound;
  headOID ← resolve_or (ResolveRefOID d (c_RepoID p) head) ErrHeadNotFound;
  when (bool_decide (baseOID = headOID)) ErrNoCommitsToMerge;;
  match FindOpenPullRequestByBranches d (c_RepoID p) base head with
  | Some n => Err (DuplicatePR n)
  | None =>
      '(row, t) ← from_issues (CreateInTx w (tb d)
                    (Issues.MkCreateParams (c_RepoID p) (c_Author p) (c_Title p) (c_Text p) "pr"));
      d ← get (CreatePullRequest (with_tb t d)
                 (MkPullRequest (i_ID row) base head (c_RepoID p) baseOID headOID (c_Draft p) None Unknown None))
              ErrPullDB;
      Ok (i_ID row, d)
  end.

(** EditPR: the checks of a title are those of the issues without the one on bidi and zero-width
    characters, and the body is not searched for a null byte. *)
Definition EditPR (d : Db) (id : Z) (title0 body : string) (html : string) : P Db :=
  let title := TrimSpace title0 in
  when (bool_decide (title = "")) (ErrFromIssues ErrEmptyTitle);;
  when (bool_decide (256 < String.length title)%nat) (ErrFromIssues ErrTitleTooLong);;
  when (has_null title) (ErrFromIssues ErrNullByteInTitle);;
  when (multiline title) (ErrFromIssues ErrMultilineTitle);;
  when (longer_than 65535 body) (ErrFromIssues Issues.ErrBodyTooLong);;
  t ← get (UpdateIssueTitleBody (tb d) id title body (nonempty html)) ErrPullDB;
  Ok (with_tb t d).

Definition set_draft (b : bool) (pr : PullRequest) : PullRequest :=
  MkPullRequest (pr_IssueID pr) (pr_BaseRef pr) (pr_HeadRef pr) (pr_HeadRepoID pr) (pr_BaseOid pr)
    (pr_HeadOid pr) b (pr_Mergeable pr) (pr_MergeableState pr) (pr_Merged pr).

(** SetReady does not look at what the state was. *)
Definition SetReady (d : Db) (actor id : Z) : P Db :=
  t ← from_issues (event_by w (tb d) actor id "ready_for_review" "{}");
  Ok (with_tb t (with_prs (alter (set_draft false) id (prs d)) d)).

(** AllowedMethod, over the three columns of the repository. *)
Definition AllowedMethod (allowMerge allowSquash allowRebase : bool) (method : string) : bool :=
  if decide (method = "merge") then allowMerge
  else if decide (method = "squash") then allowSquash
  else if decide (method = "rebase") then allowRebase else false.

(** ** What reads first and writes later *)

Inductive Write :=
| WRefresh (id : Z) (base head : string) (commits : list CommitDetail) (files : list string)
| WMergeability (id : Z) (mergeable : option bool) (state : PrMergeableState)
| WSynchronized (id : Z) (head : string)
| WSetState (now actor id : Z) (newState : string)
| WSetBase (actor id : Z) (base oid : string)
| WMoveHead (repo : Z) (ref new old : string)
| WBranchUpdated (actor id : Z) (method base head : string).

Definition set_snapshot (base headOid : string) (pr : PullRequest) : PullRequest :=
  MkPullRequest (pr_IssueID pr) (pr_BaseRef pr) (pr_HeadRef pr) (pr_HeadRepoID pr) base
    headOid (pr_Draft pr) (pr_Mergeable pr) (pr_MergeableState pr) (pr_Merged pr).

Definition set_mergeability (mergeable : option bool) (state : PrMergeableState) (pr : PullRequest) : PullRequest :=
  MkPullRequest (pr_IssueID pr) (pr_BaseRef pr) (pr_HeadRef pr) (pr_HeadRepoID pr) (pr_BaseOid pr)
    (pr_HeadOid pr) (pr_Draft pr) mergeable state (pr_Merged pr).

Definition set_base_ref (base oid : string) (pr : PullRequest) : PullRequest :=
  MkPullRequest (pr_IssueID pr) base (pr_HeadRef pr) (pr_HeadRepoID pr) oid
    (pr_HeadOid pr) (pr_Draft pr) (pr_Mergeable pr) (pr_MergeableState pr) (pr_Merged pr).

(** The commits and files are unique by name and path, and belong to a pull request. *)
Definition Refresh (d : Db) (id : Z) (base headOid : string) (commits : list CommitDetail) (files : list string)
  : option Db :=
  if decide (is_Some (prs d !! id) ∧ NoDup (cd_OID <$> commits) ∧ NoDup files) then
    Some (MkDb (tb d) (rt d) (alter (set_snapshot base headOid) id (prs d)) (<[id := commits]> (pr_commits d))
            (<[id := files]> (pr_files d)) (refs d) (rules d) (check_runs d) (default_oid d))
  else None.

(** SetBase's transaction: the schema wants base and head distinct. *)
Definition SetPullRequestBaseRef (d : Db) (id : Z) (base oid : string) : option Db :=
  match prs d !! id with
  | Some pr => if decide (base = pr_HeadRef pr ∨ pg_text base = false) then None
               else Some (with_prs (<[id := set_base_ref base oid pr]> (prs d)) d)
  | None => Some d
  end.

(** One write; an error ends the request that was making it. *)
Definition write (d : Db) (x : Write) : P Db :=
  match x with
  | WRefresh id base headOid commits files => get (Refresh d id base headOid commits files) ErrPullDB
  | WMergeability id m st => Ok (with_prs (alter (set_mergeability m st) id (prs d)) d)
  | WSynchronized id headOid =>
      t ← get (InsertIssueEvent (tb d) id None "synchronized" (json_text "head_oid" headOid) None) ErrPullDB;
      Ok (with_tb t d)
  | WSetState now actor id newState =>
      match Issues.SetState w (tb d) now actor id newState "" with
      | Ok t => Ok (with_tb t d)
      | Err ErrAlreadyInState => Ok d
      | Err e => Err (ErrFromIssues e)
      end
  | WSetBase actor id base oid =>
      d ← get (SetPullRequestBaseRef d id base oid) ErrPullDB;
      t ← from_issues (event_by w (tb d) actor id "base_ref_changed" (json_text "base" base));
      Ok (with_tb t d)
  | WMoveHead repo ref new old => get (update_ref d repo ref new old) ErrGit
  | WBranchUpdated actor id method base headOid =>
      let d := with_prs (alter (set_snapshot base headOid) id (prs d)) d in
      t ← from_issues (event_by w (tb d) actor id "branch_updated"
             (json_texts "method" method "new_head_oid" headOid));
      Ok (with_tb t d)
  end.

Definition Writes := list Write.

Definition run_writes (d : Db) (l : Writes) : P Db := fold_res write d l.

(** refreshCommitsAndFiles. *)
Definition refreshCommitsAndFiles (id : Z) (base headOid : string) : P Writes :=
  match commits_between o base headOid 250, files_between o base headOid with
  | Ok commits, Ok files => Ok [WRefresh id base headOid commits files]
  | _, _ => Err ErrGit
  end.

(** Synchronize; the requests to code owners and the re-anchoring of comments between its writes are not
    among them. *)
Definition Synchronize (d : Db) (id : Z) : P Writes :=
  pr ← get (prs d !! id) ErrPRNotFound;
  baseOID ← resolve_or (ResolveRefOID d (pr_HeadRepoID pr) (pr_BaseRef pr)) ErrGit;
  headOID ← resolve_or (ResolveRefOID d (pr_HeadRepoID pr) (pr_HeadRef pr)) ErrGit;
  ws ← refreshCommitsAndFiles id baseOID headOID;
  Ok (ws ++ [WMergeability id None Unknown; WSynchronized id headOID]).

Definition Mergeability (d : Db) (id : Z) : P Writes :=
  pr ← get (prs d !! id) ErrPullDB;
  if decide (pr_BaseOid pr = "" ∨ pr_HeadOid pr = "") then Ok []
  else
    commits ← match commits_between o (pr_BaseOid pr) (pr_HeadOid pr) 1 with
              | Ok l => Ok l
              | Err ErrRefNotFound => Ok []
              | Err ErrGitOther => Err ErrGit
              end;
    if decide (commits = []) then Ok [WMergeability id (Some false) Behind]
    else
      match probe_merge o (pr_BaseOid pr) (pr_HeadOid pr) with
      | Err _ => Err ErrGit
      | Ok true => Ok [WMergeability id (Some false) Dirty]
      | Ok false =>
          issue ← get (GetIssueByID (tb d) id) ErrPullDB;
          rg ← reviewGate d issue pr;
          cg ← checksGate d issue pr;
          if negb (ReviewGate.Satisfied rg) || negb (Checks.Satisfied cg)
          then Ok [WMergeability id (Some false) Blocked] else Ok [WMergeability id (Some true) Clean]
      end.

Definition SetState (d : Db) (repo now actor id : Z) (newState : string) : P Writes :=
  pr ← get (prs d !! id) ErrPRNotFound;
  when (bool_decide (is_Some (pr_Merged pr))) ErrAlreadyMerged;;
  (if decide (newState = "open") then
     resolve_or (ResolveRefOID d repo (pr_BaseRef pr)) ErrBaseNotFound;;
     resolve_or (ResolveRefOID d repo (pr_HeadRef pr)) ErrHeadNotFound;; Ok tt
   else Ok tt);;
  Ok [WSetState now actor id newState].

Definition SetBase (d : Db) (repo actor id : Z) (currentHeadRef newBase0 : string) : P Writes :=
  let newBase := TrimSpace newBase0 in
  when (bool_decide (newBase = "")) ErrBaseNotFound;;
  when (bool_decide (newBase = TrimSpace currentHeadRef)) ErrSameBranch;;
  baseOID ← resolve_or (ResolveRefOID d repo newBase) ErrBaseNotFound;
  Ok [WSetBase actor id newBase baseOID].

Definition UpdateBranch (d : Db) (now actor id : Z) (method0 expectedHeadSHA : string) : P Writes :=
  let m := TrimSpace (ToLower o method0) in
  let method := if decide (m = "") then "merge" else m in
  when (bool_decide (method ≠ "merge" ∧ method ≠ "rebase")) ErrUpdateBranchMethod;;
  pr ← get (prs d !! id) ErrPRNotFound;
  issue ← get (GetIssueByID (tb d) id) ErrPRNotFound;
  when (bool_decide (is_Some (pr_Merged pr))) ErrAlreadyMerged;;
  when (bool_decide (i_State issue ≠ IssueStateOpen)) ErrAlreadyClosed;;
  when (bool_decide (expectedHeadSHA ≠ "" ∧ TrimSpace expectedHeadSHA ≠ pr_HeadOid pr)) ErrConcurrentMerge;;
  who ← identityFor actor;
  base ← resolve_or (ResolveRefOID d (i_RepoID issue) (pr_BaseRef pr)) ErrBaseNotFound;
  new ← UpdateBranchFromBase (MkUpdateOptions (i_RepoID issue) (head_ref (pr_HeadRef pr)) (pr_HeadOid pr) base
                                method who now);
  Ok [WMoveHead (i_RepoID issue) (head_ref (pr_HeadRef pr)) new (pr_HeadOid pr);
      WBranchUpdated actor id method (pr_BaseOid pr) new].

(** ** The system

    [db] and, for every request or job under way, the writes it has still to make. *)

Record Sys := MkSys { db : Db; threads : list Writes }.

Inductive Request :=
| RSynchronize (id : Z) | RMergeability (id : Z) | RSetState (repo now actor id : Z) (newState : string)
| RSetBase (repo actor id : Z) (currentHeadRef newBase : string)
| RUpdateBranch (now actor id : Z) (method expected : string).

Definition plan (d : Db) (r : Request) : P Writes :=
  match r with
  | RSynchronize id => Synchronize d id
  | RMergeability id => Mergeability d id
  | RSetState repo now actor id st => SetState d repo now actor id st
  | RSetBase repo actor id cur new => SetBase d repo actor id cur new
  | RUpdateBranch now actor id m e => UpdateBranch d now actor id m e
  end.

(** What Create still does when the pull request is there: its commits and files. *)
Definition initial_writes (d : Db) (id : Z) : Writes :=
  match prs d !! id with
  | Some pr => match refreshCommitsAndFiles id (pr_BaseOid pr) (pr_HeadOid pr) with Ok ws => ws | Err _ => [] end
  | None => []
  end.

Inductive Label :=
| LIssues (** a step of Issues.v, on an issue or on a pull request's issue *)
| LReviews (** reviews, comments on the code, requests *)
| LCreate (id : Z) | LEdit (id : Z) | LReady (id : Z)
| LMerge (id : Z) | LMergeLost (id : Z) (** the process ends between update-ref and the commit *)
| LPlan (r : Request) | LWrite (x : Write) | LStop (** a request ends before it has written all *)
| LOutside (** pushes, rules, check runs, the default branch *).

Inductive pstep : Label → Sys → Sys → Prop :=
| P_Issues d ts t' : istep w (tb d) t' → pstep LIssues (MkSys d ts) (MkSys (with_tb t' d) ts)
| P_Submit tm d ts p id t' rt' :
    Submit w tm (tb d) (rt d) p = Ok (id, t', rt') →
    pstep LReviews (MkSys d ts) (MkSys (with_tb t' (with_rt rt' d)) ts)
| P_Request te d ts p id t' rt' :
    Reviews.Request w te (tb d) (rt d) p = Ok (id, t', rt') →
    pstep LReviews (MkSys d ts) (MkSys (with_tb t' (with_rt rt' d)) ts)
| P_Dismiss d ts actor id reason rt' :
    Dismiss w (rt d) actor id reason = Ok rt' → pstep LReviews (MkSys d ts) (MkSys (with_rt rt' d) ts)
| P_Comment d ts p id rt' :
    Reviews.AddComment w (tb d) (rt d) p = Ok (id, rt') → pstep LReviews (MkSys d ts) (MkSys (with_rt rt' d) ts)
| P_Create d ts p id d' : Create d p = Ok (id, d') → 
    pstep (LCreate id) (MkSys d ts) (MkSys d' (initial_writes d' id :: ts))
| P_Edit d ts id title body html d' pr :
    prs d !! id = Some pr → EditPR d id title body html = Ok d' → pstep (LEdit id) (MkSys d ts) (MkSys d' ts)
| P_Ready d ts actor id d' : SetReady d actor id = Ok d' → pstep (LReady id) (MkSys d ts) (MkSys d' ts)
| P_Merge d ts now p d' : Merge d now p = Ok d' → pstep (LMerge (m_PRID p)) (MkSys d ts) (MkSys d' ts)
| P_MergeLost d ts now p x opts oid d' :
    mergeChecks d now p = Ok (x, opts) → PerformMerge d opts = Ok (oid, d') →
    pstep (LMergeLost (m_PRID p)) (MkSys d ts) (MkSys d' ts)
| P_Plan d ts r ws : plan d r = Ok ws → pstep (LPlan r) (MkSys d ts) (MkSys d (ws :: ts))
| P_Write d ts1 x ws ts2 d' :
    write d x = Ok d' → pstep (LWrite x) (MkSys d (ts1 ++ (x :: ws) :: ts2)) (MkSys d' (ts1 ++ ws :: ts2))
| P_Stop d ts1 ws ts2 : pstep LStop (MkSys d (ts1 ++ ws :: ts2)) (MkSys d (ts1 ++ ts2))
| P_Outside d ts refs' rules' runs' oids' :
    pstep LOutside (MkSys d ts)
      (MkSys (MkDb (tb d) (rt d) (prs d) (pr_commits d) (pr_files d) refs' rules' runs' oids') ts).

Definition empty_db : Db := MkDb no_tables (MkReviewTables ∅ ∅ ∅ 1 1 1) ∅ ∅ ∅ ∅ ∅ ∅ ∅.

Definition init : Sys := MkSys empty_db [].

Definition some_step (s s' : Sys) : Prop := ∃ l, pstep l s s'.

End Pulls.
