(* ===== verification/PullsFacts.v ===== *)
(** * PullsFacts: when a pull request is merged, and what stays true of it

    [Merge_iff] is the contract of Merge; [merged_only_through_gates] and [merged_for_ever] are about every step of the
    system of requests and jobs, whatever their interleaving; the examples at the end run the operations, and
    the interleavings that break what the comments of the code promise. *)

From S2P Require Import Prelude GoString IssueRefs IssueRefsFacts Issues IssuesFacts Protection ReviewGate Checks Reviews Pulls.
Local Open Scope Z_scope.

(** ** Inverting the monad *)

Lemma get_Ok {A} (m : option A) (e : PullErr) (a : A) : get m e = Ok a ↔ m = Some a.
Proof. destruct m; cbn; naive_solver. Qed.

Lemma when_Ok (b : bool) (e : PullErr) (u : unit) : when b e = Ok u ↔ b = false.
Proof. destruct b, u; cbn; naive_solver. Qed.

Lemma from_issues_Ok {A} (m : M A) (a : A) : from_issues m = Ok a ↔ m = Ok a.
Proof. destruct m; cbn; naive_solver. Qed.

Ltac p_step :=
  match goal with
  | H : (_ ≫= _) = Ok _ |- _ => apply bind_Ok_inv in H as (? & ? & ?)
  | H : get _ _ = Ok _ |- _ => apply get_Ok in H
  | H : when _ _ = Ok _ |- _ => apply when_Ok in H
  | H : from_issues _ = Ok _ |- _ => apply from_issues_Ok in H
  | H : Ok _ = Ok _ |- _ => injection H as ?
  | H : Err _ = Ok _ |- _ => discriminate H
  | H : Some _ = Some _ |- _ => injection H as ?
  | H : None = Some _ |- _ => discriminate H
  | x : _ * _ |- _ => destruct x
  end.
Ltac p_steps := repeat (p_step; subst; cbn [fst snd] in * ).

Lemma alter_present {A} (f : A → A) (m : gmap Z A) (k : Z) (a : A) :
  m !! k = Some a → alter f k m = <[k := f a]> m.
Proof.
  intros H. apply map_eq. intros j. destruct (decide (k = j)) as [<-|Hj].
  - by rewrite lookup_alter_eq, lookup_insert_eq, H.
  - by rewrite lookup_alter_ne, lookup_insert_ne.
Qed.

Section Facts.
  Context (w : World) (o : Outside).

(** ** What Merge asks for *)

Lemma headInBase_false (pr : PullRequest) :
  headInBase o pr = false ↔
  (pr_HeadOid pr ≠ "" → pr_BaseOid pr ≠ "" → is_ancestor o (pr_HeadOid pr) (pr_BaseOid pr) ≠ Ok true).
Proof.
  unfold headInBase. case_bool_decide as H; cbn [andb]; [|naive_solver].
  destruct (is_ancestor o (pr_HeadOid pr) (pr_BaseOid pr)) as [[]|]; cbn; naive_solver.
Qed.

(** Everything [mergeChecks] looks at; of the head, git does not say that the base has it, be it that git fails. *)
Record mergeable_now (d : Db) (p : MergeParams) (pr : PullRequest) (i : Issue) (merger : string * string) : Prop := {
  mn_pr : prs d !! m_PRID p = Some pr;
  mn_unmerged : pr_Merged pr = None;
  mn_issue : issues (tb d) !! m_PRID p = Some i;
  mn_open : i_State i = IssueStateOpen;
  mn_head : pr_HeadOid pr ≠ "" → pr_BaseOid pr ≠ "" → is_ancestor o (pr_HeadOid pr) (pr_BaseOid pr) ≠ Ok true;
  mn_clean : pr_MergeableState pr = Clean;
  mn_reviews : ∃ g, reviewGate o d i pr = Ok g ∧ ReviewGate.Satisfied g = true;
  mn_checks : ∃ g, checksGate d i pr = Ok g ∧ Checks.Satisfied g = true;
  mn_merger : identityFor o (m_ActorUserID p) = Ok merger
}.

Lemma mergeChecks_Ok (d : Db) (now : Z) (p : MergeParams) (pr : PullRequest) (i : Issue) (opts : MergeOptions) :
  mergeChecks o d now p = Ok (pr, i, opts) ↔
  ∃ merger, mergeable_now d p pr i merger ∧ opts = mergeOptions o now p pr i merger.
Proof.
  unfold mergeChecks. split.
  - intros H. unfold GetIssueByID in H. p_steps. rewrite bool_decide_eq_false in *.
    eexists. split; [|reflexivity]. split; try done.
    + by apply eq_None_not_Some.
    + by apply dec_stable.
    + by apply headInBase_false.
    + by apply dec_stable.
    + eexists. split; [eassumption|]. by apply negb_false_iff.
    + eexists. split; [eassumption|]. by apply negb_false_iff.
  - intros (merger & [H1 H2 H3 H4 H5 H6 (rg & H7 & H7') (cg & H8 & H8') H9] & ->).
    unfold GetIssueByID. rewrite H1. cbn. rewrite H2. cbn. rewrite H3. cbn. rewrite H4, (proj2 (headInBase_false pr) H5), H6. cbn.
    rewrite H7. cbn. rewrite H7'. cbn. rewrite H8. cbn. rewrite H8'. cbn. by rewrite H9.
Qed.

Lemma PerformMerge_Ok (d d' : Db) (opts : MergeOptions) (oid : string) :
  PerformMerge o d opts = Ok (oid, d') ↔
  known_method (mo_Method opts) = true ∧ merge_worktree o opts = Some oid ∧
  refs_of d (mo_Repo opts) !! mo_BaseRef opts = Some (mo_BaseOID opts) ∧
  d' = with_refs (<[mo_Repo opts := <[mo_BaseRef opts := oid]> (refs_of d (mo_Repo opts))]> (refs d)) d.
Proof.
  unfold PerformMerge. split.
  - intros H. p_steps. unfold update_ref in *. case_decide; [|done]. p_steps.
    split_and!; try done. by apply negb_false_iff.
  - intros (Hm & Hw & Hr & ->). rewrite Hm. cbn. rewrite Hw. cbn. unfold update_ref. by rewrite decide_True.
Qed.

Lemma Merge_Ok (d d' : Db) (now : Z) (p : MergeParams) :
  Merge o d now p = Ok d' ↔
  ∃ pr i merger oid,
    let opts := mergeOptions o now p pr i merger in
    let repo := i_RepoID i in
    let base := head_ref (pr_BaseRef pr) in
    mergeable_now d p pr i merger ∧ known_method (m_Method p) = true ∧ merge_worktree o opts = Some oid ∧
    refs_of d repo !! base = Some (pr_BaseOid pr) ∧
    d' = recordMerge o (with_refs (<[repo := <[base := oid]> (refs_of d repo)]> (refs d)) d) now p pr i oid.
Proof.
  unfold Merge. split.
  - intros H. p_steps.
    match goal with X : mergeChecks _ _ _ _ = Ok _ |- _ => apply mergeChecks_Ok in X as (merger & Hn & ->) end.
    match goal with X : PerformMerge _ _ _ = Ok _ |- _ => apply PerformMerge_Ok in X as (? & ? & ? & ->) end.
    eexists _, _, merger, _. by split_and!.
  - intros (pr & i & merger & oid & Hn & Hm & Hw & Hr & ->).
    assert (mergeChecks o d now p = Ok (pr, i, mergeOptions o now p pr i merger)) as ->
      by (apply mergeChecks_Ok; eauto).
    cbn [mbind res_bind]. erewrite (proj2 (PerformMerge_Ok _ _ _ oid)); [reflexivity|]. by split_and!.
Qed.

(** ** The rows of pull requests, step by step *)

Definition pr_keeps (pr pr' : PullRequest) : Prop :=
  pr_IssueID pr' = pr_IssueID pr ∧ pr_HeadRef pr' = pr_HeadRef pr ∧ pr_HeadRepoID pr' = pr_HeadRepoID pr ∧
  pr_Merged pr' = pr_Merged pr ∧ (pr_BaseRef pr ≠ pr_HeadRef pr → pr_BaseRef pr' ≠ pr_HeadRef pr).

Definition prs_keep (m m' : gmap Z PullRequest) : Prop :=
  ∀ id, match m !! id, m' !! id with
        | Some pr, Some pr' => pr_keeps pr pr'
        | None, None => True
        | _, _ => False
        end.

Lemma prs_keep_refl (m : gmap Z PullRequest) : prs_keep m m.
Proof. intros id. destruct (m !! id); [by split_and!|done]. Qed.

Lemma prs_keep_alter (f : PullRequest → PullRequest) (id : Z) (m : gmap Z PullRequest) :
  (∀ pr, pr_keeps pr (f pr)) → prs_keep m (alter f id m).
Proof.
  intros Hf j. rewrite lookup_alter. case_decide; subst; destruct (m !! j); cbn; try done; by split_and!.
Qed.

Lemma write_keeps (d d' : Db) (x : Write) : write w o d x = Ok d' → prs_keep (prs d) (prs d').
Proof.
  destruct x; cbn [write]; intros H; p_steps; cbn; try apply prs_keep_refl.
  - unfold Refresh in *. case_decide; [|done]. p_steps. cbn. by apply prs_keep_alter.
  - by apply prs_keep_alter.
  - destruct (Issues.SetState _ _ _ _ _ _ _) as [t|[]]; p_steps; apply prs_keep_refl.
  - unfold SetPullRequestBaseRef in *. destruct (prs d !! id) as [pr|] eqn:Epr; p_steps; [|apply prs_keep_refl].
    case_decide as Hb; [done|]. p_steps. cbn. intros j.
    destruct (decide (id = j)) as [<-|Hne].
    + rewrite lookup_insert_eq, Epr. split_and!; try done. cbn. naive_solver.
    + rewrite lookup_insert_ne by done. apply prs_keep_refl.
  - unfold update_ref in *. case_decide; p_steps. apply prs_keep_refl.
  - by apply prs_keep_alter.
Qed.

Lemma EditPR_keeps (d d' : Db) (id : Z) (title body html : string) :
  EditPR d id title body html = Ok d' → prs d' = prs d.
Proof. unfold EditPR. intros H. by p_steps. Qed.

Lemma SetReady_keeps (d d' : Db) (actor id : Z) : SetReady w d actor id = Ok d' → prs_keep (prs d) (prs d').
Proof. unfold SetReady. intros H. p_steps. cbn. by apply prs_keep_alter. Qed.

Lemma Create_prs (d d' : Db) (p : CreateParams) (id : Z) :
  Create w o d p = Ok (id, d') →
  ∃ pr row, prs d' = <[id := pr]> (prs d) ∧ prs d !! id = None ∧ pr_IssueID pr = id ∧ pr_Merged pr = None ∧
    pr_BaseRef pr = TrimSpace (c_BaseRef p) ∧ pr_HeadRef pr = TrimSpace (c_HeadRef p) ∧
    pr_BaseRef pr ≠ pr_HeadRef pr ∧ pr_HeadRepoID pr = c_RepoID p ∧ i_ID row = id ∧
    CreateInTx w (tb d) (Issues.MkCreateParams (c_RepoID p) (c_Author p) (c_Title p) (c_Text p) "pr") =
      Ok (row, tb d') ∧
    FindOpenPullRequestByBranches d (c_RepoID p) (pr_BaseRef pr) (pr_HeadRef pr) = None ∧ refs d' = refs d.
Proof.
  unfold Create. intros H. apply bind_Ok_inv in H as (? & _ & H). apply bind_Ok_inv in H as (b & _ & H).
  apply bind_Ok_inv in H as (h & _ & H). apply bind_Ok_inv in H as (? & _ & H).
  destruct (FindOpenPullRequestByBranches d _ _ _) eqn:Ef; [done|].
  apply bind_Ok_inv in H as ([row t] & Hc & H). apply from_issues_Ok in Hc.
  apply bind_Ok_inv in H as (d1 & Hp & [= <- <-]). apply get_Ok in Hp.
  unfold CreatePullRequest in Hp. case_decide as Hn; [done|]. injection Hp as <-. cbn in *.
  eexists _, row. split; [reflexivity|]. cbn. split_and!; try done; try tauto.
  apply eq_None_not_Some. tauto.
Qed.

Lemma Merge_prs (d d' : Db) (now : Z) (p : MergeParams) :
  Merge o d now p = Ok d' →
  ∃ pr oid, prs d !! m_PRID p = Some pr ∧ pr_Merged pr = None ∧
            prs d' = <[m_PRID p := set_merged now p oid pr]> (prs d).
Proof.
  intros (pr & i & merger & oid & Hn & _ & _ & _ & ->)%Merge_Ok. exists pr, oid.
  split; [apply Hn|]. split; [apply Hn|]. cbn. apply alter_present. apply Hn.
Qed.

(** What a step may do to the row of a pull request. *)
Lemma pstep_prs (l : Label) (s s' : Sys) :
  pstep w o l s s' →
  prs_keep (prs (db s)) (prs (db s')) ∨
  (∃ id p, l = LCreate id ∧ Create w o (db s) p = Ok (id, db s')) ∨
  (∃ now p, l = LMerge (m_PRID p) ∧ Merge o (db s) now p = Ok (db s')).
Proof.
  intros H. destruct H; cbn; try (left; apply prs_keep_refl).
  - right; left. eauto.
  - left. apply EditPR_keeps in H0 as ->. apply prs_keep_refl.
  - left. by eapply SetReady_keeps.
  - right; right. eauto.
  - left. apply PerformMerge_Ok in H0 as (_ & _ & _ & ->). apply prs_keep_refl.
  - left. by eapply write_keeps.
Qed.

(** C3: whatever requests and jobs do, in whatever order, and whether they finish or not: a pull request becomes
    merged by a Merge of that pull request alone, and in the state it was in just before, it was unmerged and
    its issue open, its state clean, the review gate and the required checks satisfied, and its base branch where
    it says; the record is of those commits, and the branch then points to the recorded commit. *)
Theorem merged_only_through_gates (l : Label) (s s' : Sys) (id : Z) (pr' : PullRequest) (m : MergeRecord) :
  pstep w o l s s' → prs (db s') !! id = Some pr' → pr_Merged pr' = Some m →
  (∃ pr, prs (db s) !! id = Some pr ∧ pr_Merged pr = Some m) ∨
  ∃ now p pr i merger,
    l = LMerge id ∧ m_PRID p = id ∧ mergeable_now (db s) p pr i merger ∧
    refs_of (db s) (i_RepoID i) !! head_ref (pr_BaseRef pr) = Some (pr_BaseOid pr) ∧
    merge_worktree o (mergeOptions o now p pr i merger) = Some (mr_MergeCommitSha m) ∧
    refs_of (db s') (i_RepoID i) !! head_ref (pr_BaseRef pr) = Some (mr_MergeCommitSha m) ∧
    mr_BaseOidAtMerge m = pr_BaseOid pr ∧ mr_HeadOidAtMerge m = pr_HeadOid pr.
Proof.
  intros H Hpr' Hm. apply pstep_prs in H as [K|[(id0 & p & -> & Hc)|(now & p & -> & Hmerge)]].
  - left. specialize (K id). rewrite Hpr' in K. destruct (prs (db s) !! id) as [pr|]; [|done].
    exists pr. split; [done|]. destruct K as (_ & _ & _ & <- & _). done.
  - left. apply Create_prs in Hc as (pr & row & E & _ & _ & Hnone & _). rewrite E in Hpr'.
    apply lookup_insert_Some in Hpr' as [[_ <-]|[_ Hpr']]; [congruence|eauto].
  - pose proof Hmerge as Hprs. apply Merge_prs in Hprs as (pr & oid & _ & _ & E). rewrite E in Hpr'.
    apply lookup_insert_Some in Hpr' as [[<- <-]|[_ Hpr']]; [right|left; eauto].
    apply Merge_Ok in Hmerge as (pr0 & i & merger & oid0 & Hn & _ & Hw & Hr & Ed).
    assert (prs (db s') = <[m_PRID p := set_merged now p oid0 pr0]> (prs (db s))) as E'.
    { rewrite Ed. cbn. apply alter_present. apply Hn. }
    assert (set_merged now p oid pr = set_merged now p oid0 pr0) as Es.
    { apply (f_equal (lookup (m_PRID p))) in E. rewrite E', !lookup_insert_eq in E. apply (inj Some) in E. congruence. }
    rewrite Es in Hm. injection Hm as <-. exists now, p, pr0, i, merger. cbn. split_and!; try done.
    rewrite Ed. unfold refs_of. cbn. by rewrite lookup_insert_eq; cbn; rewrite lookup_insert_eq.
Qed.

Lemma pstep_merged (l : Label) (s s' : Sys) (id : Z) (pr : PullRequest) (m : MergeRecord) :
  pstep w o l s s' → prs (db s) !! id = Some pr → pr_Merged pr = Some m →
  ∃ pr', prs (db s') !! id = Some pr' ∧ pr_Merged pr' = Some m.
Proof.
  intros H Hpr Hm. apply pstep_prs in H as [K|[(id0 & p & _ & Hc)|(now & p & _ & Hmerge)]].
  - specialize (K id). rewrite Hpr in K. destruct (prs (db s') !! id) as [pr'|]; [|done].
    exists pr'. split; [done|]. destruct K as (_ & _ & _ & -> & _). done.
  - apply Create_prs in Hc as (pr0 & row & E & Hnone & _). rewrite E.
    rewrite lookup_insert_ne by congruence. eauto.
  - apply Merge_prs in Hmerge as (pr0 & oid & Hpr0 & Hun & E). rewrite E.
    rewrite lookup_insert_ne by congruence. eauto.
Qed.

(** a merge is recorded once and for ever: no request, job or push removes or changes the record of a merged
    pull request, in any run of the system. *)
Theorem merged_for_ever (s s' : Sys) (id : Z) (pr : PullRequest) (m : MergeRecord) :
  rtc (some_step w o) s s' → prs (db s) !! id = Some pr → pr_Merged pr = Some m →
  ∃ pr', prs (db s') !! id = Some pr' ∧ pr_Merged pr' = Some m.
Proof.
  intros H. revert pr. induction H as [|s s1 s' [l Hl] _ IH]; intros pr Hpr Hm; [eauto|].
  destruct (pstep_merged _ _ _ _ _ _ Hl Hpr Hm) as (pr1 & Hpr1 & Hm1). by apply (IH pr1).
Qed.

End Facts.

(** ** The issues that a merge closes *)

(** [t'] is [t] with the issues that satisfy [C] closed. *)
Definition closes (C : Issue → bool) (t t' : Tables) : Prop :=
  ∀ j, match issues t !! j, issues t' !! j with
       | Some i, Some i' =>
           (i_ID i', i_RepoID i', i_Number i', i_Kind i') = (i_ID i, i_RepoID i, i_Number i, i_Kind i) ∧
           i_State i' = (if C i then IssueStateClosed else i_State i)
       | None, None => True
       | _, _ => False
       end.

(** A condition on what does not change. *)
Definition on_ids (C : Issue → bool) : Prop :=
  ∀ i i', (i_ID i', i_RepoID i', i_Number i', i_Kind i') = (i_ID i, i_RepoID i, i_Number i, i_Kind i) → C i' = C i.

Lemma closes_refl (t : Tables) : closes (fun _ => false) t t.
Proof. intros j. by destruct (issues t !! j). Qed.

Lemma closes_trans (C1 C2 : Issue → bool) (t1 t2 t3 : Tables) :
  on_ids C2 → closes C1 t1 t2 → closes C2 t2 t3 → closes (fun i => C1 i || C2 i) t1 t3.
Proof.
  intros HC H1 H2 j. specialize (H1 j). specialize (H2 j).
  destruct (issues t1 !! j) as [i1|], (issues t2 !! j) as [i2|], (issues t3 !! j) as [i3|]; try done.
  destruct H1 as [E1 S1], H2 as [E2 S2]. split; [congruence|]. rewrite S2, (HC _ _ E1), S1.
  destruct (C1 i1), (C2 i1); done.
Qed.

Lemma closes_keeps (C : Issue → bool) (t t' : Tables) : closes C t t' → keeps t t'.
Proof.
  intros H j i Hi Hk. specialize (H j). rewrite Hi in H. destruct (issues t' !! j) as [i'|]; [|done].
  destruct H as [[= _ ER EN EK] _]. exists i'. split_and!; congruence.
Qed.

Lemma closes_ext (C C' : Issue → bool) (t t' : Tables) :
  (∀ j i, issues t !! j = Some i → C' i = C i ∨ i_State i = IssueStateClosed) → closes C t t' → closes C' t t'.
Proof.
  intros HC H j. specialize (H j). destruct (issues t !! j) as [i|] eqn:E; [|done].
  destruct (issues t' !! j) as [i'|]; [|done]. destruct H as [H1 H2]. split; [done|]. rewrite H2.
  destruct (HC j i E) as [->|Hs]; [done|]. rewrite Hs. by destruct (C i), (C' i).
Qed.

(** Closing one open issue and writing it down. *)
Lemma close_one (t : Tables) (now id : Z) (i : Issue) (actor : option Z) (kind meta : string) :
  wf t → issues t !! id = Some i → i_State i = IssueStateOpen →
  (∀ s, event_state kind s = IssueStateClosed) →
  let t1 := (SetIssueState t now id IssueStateClosed (Some "completed") actor).2 in
  let t2 := default t1 (InsertIssueEvent t1 id actor kind meta None) in
  wf t2 ∧ closes (fun i' => bool_decide (i_ID i' = id)) t t2.
Proof.
  intros W Hi Hs Hk. destruct (SetIssueState t now id IssueStateClosed (Some "completed") actor) as [n t1] eqn:E.
  cbn zeta. cbn [snd].
  assert (n = 1 ∧ ∃ i1, issues t1 = <[id := i1]> (issues t) ∧ i_State i1 = IssueStateClosed ∧
    (i_ID i1, i_RepoID i1, i_Number i1, i_Kind i1) = (i_ID i, i_RepoID i, i_Number i, i_Kind i)) as (-> & i1 & E1 & S1 & I1).
  { unfold SetIssueState in E. rewrite Hi in E. rewrite decide_False in E by congruence. injection E as <- <-.
    split; [done|]. by eexists. }
  assert (∃ t2, InsertIssueEvent t1 id actor kind meta None = Some t2) as [t2 E2].
  { unfold InsertIssueEvent. rewrite E1, lookup_insert_eq, decide_True by eauto. eauto. }
  rewrite E2. cbn. split; [by eapply wf_state_event|].
  apply InsertIssueEvent_issues in E2. intros j. rewrite E2, E1.
  destruct (decide (id = j)) as [<-|Hj].
  - rewrite lookup_insert_eq, Hi. split; [done|]. by rewrite bool_decide_eq_true_2 by apply (wf_issue t W id i Hi).
  - rewrite lookup_insert_ne by done. destruct (issues t !! j) as [i2|] eqn:Ej; [|done]. split; [done|].
    rewrite bool_decide_eq_false_2; [done|]. destruct (wf_issue t W j i2 Ej) as [-> _]. congruence.
Qed.

(** An issue of the repository, not a pull request, named by one of the numbers. *)
Definition linked_to (repo self : Z) (nums : list Z) (i : Issue) : bool :=
  bool_decide (i_RepoID i = repo ∧ i_Kind i = IssueKindIssue ∧ i_Number i ∈ nums ∧ i_Number i ≠ self).

Lemma linked_to_ids (repo self : Z) (nums : list Z) : on_ids (linked_to repo self nums).
Proof. intros i i' [= E1 E2 E3 E4]. unfold linked_to. by rewrite E2, E3, E4. Qed.

Lemma close_linked_spec (now actor pr repo self : Z) (t : Tables) (closed : gset Z) (num : Z) :
  wf t → (∀ j i, j ∈ closed → issues t !! j = Some i → i_State i = IssueStateClosed) →
  let st := close_linked now actor pr repo self (t, closed) num in
  wf st.1 ∧ closes (linked_to repo self [num]) t st.1 ∧
  ∀ j i, j ∈ st.2 → issues st.1 !! j = Some i → i_State i = IssueStateClosed.
Proof.
  intros W Hcl. cbn zeta. unfold close_linked.
  assert ((∀ j i, issues t !! j = Some i → linked_to repo self [num] i = true → i_State i = IssueStateClosed) →
    wf t ∧ closes (linked_to repo self [num]) t t ∧
    ∀ j i, j ∈ closed → issues t !! j = Some i → i_State i = IssueStateClosed) as Hnothing.
  { intros H. split; [done|]. split; [|done]. eapply closes_ext; [|apply closes_refl].
    intros j i Hi. destruct (linked_to repo self [num] i) eqn:E; [right; eauto|by left]. }
  destruct (decide (num = self)) as [Hself|Hself].
  { apply Hnothing. intros j i _ Hl. apply bool_decide_eq_true in Hl. set_solver. }
  destruct (GetIssueByNumber t repo num) as [tgt|] eqn:Eg.
  2:{ apply Hnothing. intros j i Hi Hl. apply bool_decide_eq_true in Hl as (HR & _ & HN & _).
      apply list_elem_of_singleton in HN. by destruct (GetIssueByNumber_None _ _ _ _ _ Eg Hi HR). }
  apply GetIssueByNumber_Some in Eg as (id & Hid & HR & HN).
  destruct (wf_issue t W id tgt Hid) as [HI _].
  assert (∀ j i, issues t !! j = Some i → i_RepoID i = repo → i_Number i = num → j = id ∧ i = tgt) as Hu.
  { intros j i Hj ER EN. assert (j = id) as -> by (apply (wf_unique t W j id i tgt); congruence). by simplify_eq. }
  destruct (decide (i_Kind tgt ≠ IssueKindIssue ∨ i_State tgt ≠ IssueStateOpen)) as [Hno|Hyes].
  { apply Hnothing. intros j i Hj Hl. apply bool_decide_eq_true in Hl as (ER & EK & EN & _).
    apply list_elem_of_singleton in EN. destruct (Hu j i Hj ER EN) as [-> ->].
    destruct Hno as [?|Hno]; [done|]. by destruct (i_State tgt). }
  assert (i_Kind tgt = IssueKindIssue ∧ i_State tgt = IssueStateOpen) as [HK HO].
  { destruct (i_Kind tgt), (i_State tgt); naive_solver. }
  rewrite decide_False by (intros Hin; rewrite HI in Hin; specialize (Hcl _ _ Hin Hid); congruence).
  rewrite HI. destruct (close_one t now id tgt (nonzero actor) "closed" (json_num "closed_by_pr" pr) W Hid HO)
    as [W2 C2]; [done|]. cbn [fst snd]. split; [done|].
  split.
  - eapply closes_ext; [|exact C2]. intros j i Hj. left. destruct (wf_issue t W j i Hj) as [-> _].
    unfold linked_to. apply bool_decide_ext. rewrite list_elem_of_singleton. split.
    + intros (ER & _ & EN & _). by apply (Hu j i).
    + intros ->. simplify_eq. by split_and!.
  - intros j i' Hj Hi'. specialize (C2 j). rewrite Hi' in C2. destruct (issues t !! j) as [i|] eqn:Ej; [|done].
    destruct C2 as [_ ->]. destruct (wf_issue t W j i Ej) as [-> _].
    case_bool_decide; [done|]. apply (Hcl j i); [set_solver|done].
Qed.

Lemma close_linked_fold (now actor pr repo self : Z) (nums : list Z) (t : Tables) (closed : gset Z) :
  wf t → (∀ j i, j ∈ closed → issues t !! j = Some i → i_State i = IssueStateClosed) →
  let t' := (foldl (close_linked now actor pr repo self) (t, closed) nums).1 in
  wf t' ∧ closes (linked_to repo self nums) t t'.
Proof.
  cbn zeta. revert t closed. induction nums as [|num nums IH]; intros t closed W Hcl.
  - cbn. split; [done|]. eapply closes_ext; [|apply closes_refl]. intros j i _. left.
    apply bool_decide_eq_false_2. set_solver.
  - cbn [foldl]. destruct (close_linked_spec now actor pr repo self t closed num W Hcl) as (W1 & C1 & H1).
    destruct (close_linked now actor pr repo self (t, closed) num) as [t1 closed1]. cbn [fst snd] in *.
    destruct (IH t1 closed1 W1 H1) as [W2 C2]. split; [done|].
    eapply closes_ext; [|eapply closes_trans; [apply linked_to_ids|exact C1|exact C2]].
    intros j i _. left. unfold linked_to.
    apply eq_true_iff_eq. rewrite orb_true_iff, !bool_decide_eq_true, list_elem_of_singleton, elem_of_cons. tauto.
Qed.

(** The numbers that Merge reads in the body and in the commits. *)
Definition linked_numbers (d : Db) (i : Issue) (id : Z) : list Z :=
  parseLinkedIssues (i_Body i) ++ (fetchCommitsForLinkScan d id ≫= parseLinkedIssues).

Lemma recordMerge_tb (o : Outside) (d : Db) (now : Z) (p : MergeParams) (pr : PullRequest) (i : Issue) (oid : string) :
  wf (tb d) → issues (tb d) !! m_PRID p = Some i → i_State i = IssueStateOpen →
  let d' := recordMerge o d now p pr i oid in
  wf (tb d') ∧
  closes (fun x => bool_decide (i_ID x = m_PRID p) ||
                   linked_to (i_RepoID i) (i_Number i) (linked_numbers d i (m_PRID p)) x) (tb d) (tb d').
Proof.
  intros W Hi Hs. cbn zeta. unfold recordMerge. cbn [tb].
  destruct (close_one (tb d) now (m_PRID p) i (nonzero (m_ActorUserID p)) "merged"
              (json_texts o "method" (m_Method p) "commit" oid) W Hi Hs) as [W1 C1]; [done|].
  destruct (close_linked_fold now (m_ActorUserID p) (m_PRID p) (i_RepoID i) (i_Number i)
              (linked_numbers d i (m_PRID p)) _ ∅ W1) as [W2 C2]; [set_solver|].
  split; [exact W2|]. eapply closes_trans; [apply linked_to_ids|exact C1|exact C2].
Qed.

(** Everything a merge leaves behind, but for the events of the timelines. *)
Record merged_by (o : Outside) (d d' : Db) (now : Z) (p : MergeParams) (pr : PullRequest) (i : Issue) (oid : string) : Prop := {
  mb_row : prs d' = <[m_PRID p := MkPullRequest (pr_IssueID pr) (pr_BaseRef pr) (pr_HeadRef pr) (pr_HeadRepoID pr)
             (pr_BaseOid pr) (pr_HeadOid pr) (pr_Draft pr) (Some false) Clean
             (Some (MkMergeRecord now (nonzero (m_ActorUserID p)) oid (m_Method p) (pr_BaseOid pr) (pr_HeadOid pr)))]> (prs d);
  mb_refs : ∀ repo ref, refs_of d' repo !! ref =
    if decide (repo = i_RepoID i ∧ ref = head_ref (pr_BaseRef pr)) then Some oid else refs_of d repo !! ref;
  mb_default : ∀ repo, default_oid d' !! repo =
    if decide (repo = i_RepoID i ∧ DefaultBranch o repo = Some (pr_BaseRef pr)) then Some oid else default_oid d !! repo;
  mb_issues : ∀ j, match issues (tb d) !! j, issues (tb d') !! j with
    | Some x, Some x' =>
        (i_ID x', i_RepoID x', i_Number x', i_Kind x') = (i_ID x, i_RepoID x, i_Number x, i_Kind x) ∧
        i_State x' = if decide (j = m_PRID p ∨ (i_RepoID x = i_RepoID i ∧ i_Kind x = IssueKindIssue ∧
                                                i_Number x ∈ linked_numbers d i (m_PRID p)))
                     then IssueStateClosed else i_State x
    | None, None => True
    | _, _ => False
    end;
  mb_rest : rt d' = rt d ∧ pr_commits d' = pr_commits d ∧ pr_files d' = pr_files d ∧ rules d' = rules d ∧
            check_runs d' = check_runs d
}.

Lemma recordMerge_refs (o : Outside) (d : Db) (now : Z) (p : MergeParams) (pr : PullRequest) (i : Issue)
    (m : gmap Z (gmap string string)) (oid : string) : refs (recordMerge o (with_refs m d) now p pr i oid) = m.
Proof. reflexivity. Qed.

Lemma recordMerge_merged_by (o : Outside) (d : Db) (now : Z) (p : MergeParams) (pr : PullRequest) (i : Issue)
    (merger : string * string) (oid : string) :
  wf (tb d) → mergeable_now o d p pr i merger →
  let base := head_ref (pr_BaseRef pr) in
  merged_by o d (recordMerge o (with_refs (<[i_RepoID i := <[base := oid]> (refs_of d (i_RepoID i))]> (refs d)) d) now p pr i oid)
    now p pr i oid.
Proof.
  intros W Hn base. split; [| | | |done].
  - apply (alter_present (set_merged now p oid)), Hn.
  - intros repo ref. unfold refs_of at 1. rewrite recordMerge_refs. destruct (decide (repo = i_RepoID i)) as [->|Hr].
    + rewrite lookup_insert_eq. cbn. destruct (decide (ref = base)) as [->|Hb].
      * by rewrite lookup_insert_eq, decide_True.
      * rewrite lookup_insert_ne by done. by rewrite decide_False by naive_solver.
    + rewrite lookup_insert_ne by done. by rewrite decide_False by naive_solver.
  - intros repo. unfold recordMerge. cbn [default_oid with_refs]. destruct (decide (repo = i_RepoID i)) as [->|Hr].
    + destruct (decide (DefaultBranch _ _ = _)) as [Hd|Hd]; [by rewrite lookup_insert_eq, decide_True|].
      by rewrite decide_False by naive_solver.
    + rewrite (decide_False (P := _ ∧ _)) by naive_solver. case_decide; [by rewrite lookup_insert_ne|done].
  - intros j. set (d1 := with_refs _ d).
    destruct (recordMerge_tb o d1 now p pr i oid W (mn_issue _ _ _ _ _ _ Hn) (mn_open _ _ _ _ _ _ Hn)) as [_ C].
    specialize (C j). change (tb d1) with (tb d) in C. destruct (issues (tb d) !! j) as [x|] eqn:Hx; [|done].
    destruct (issues (tb (recordMerge o d1 now p pr i oid)) !! j) as [x'|]; [|done]. destruct C as [Ci ->].
    split; [done|]. destruct (wf_issue _ W j x Hx) as [-> _]. unfold linked_to.
    assert (linked_numbers d1 i (m_PRID p) = linked_numbers d i (m_PRID p)) as -> by done.
    destruct (decide (j = m_PRID p)) as [->|Hj].
    { rewrite bool_decide_eq_true_2 by done. by rewrite decide_True by tauto. }
    rewrite bool_decide_eq_false_2 by done. cbn [orb]. case_bool_decide as Hl.
    + by rewrite decide_True by tauto.
    + rewrite decide_False; [done|]. intros [?|(ER & EK & EN)]; [done|]. apply Hl. split_and!; try done.
      intros E. apply Hj. by apply (wf_unique _ W j (m_PRID p) x i Hx (mn_issue _ _ _ _ _ _ Hn) ER).
Qed.

(** a merge closes the issue of its pull request and the issues of the repository that closing keywords
    name, in the body or in the message of a commit; it closes no pull request but its own, nothing in
    another repository, and reopens nothing. *)
Theorem Merge_closes (o : Outside) (d d' : Db) (now : Z) (p : MergeParams) (W : wf (tb d))
    (H : Merge o d now p = Ok d') :
  ∃ i, issues (tb d) !! m_PRID p = Some i ∧
  ∀ j x, issues (tb d) !! j = Some x →
    ∃ x', issues (tb d') !! j = Some x' ∧
      i_State x' =
        if decide (j = m_PRID p ∨
                   (i_RepoID x = i_RepoID i ∧ i_Kind x = IssueKindIssue ∧
                    i_Number x ∈ linked_numbers d i (m_PRID p)))
        then IssueStateClosed else i_State x.
Proof.
  apply Merge_Ok in H as (pr & i & merger & oid & Hn & _ & _ & _ & ->). exists i.
  split; [apply Hn|]. intros j x Hx.
  pose proof (mb_issues _ _ _ _ _ _ _ _ (recordMerge_merged_by o d now p pr i merger oid W Hn) j) as C. rewrite Hx in C.
  case_match; [|done]. destruct C as [_ E]. eauto.
Qed.

(** C8: A merge succeeds exactly when the pull request is there and not merged, its issue is open, git does not say
    that its head is in its base, its state is clean, the review gate and the required checks are satisfied now, the
    actor has an identity, the method is one of the three, git makes the commit, and the base branch is still where the
    pull request says it is. Drafts and open conversations do not stop it, although the user documentation says so.
    It leaves behind: the record of that commit, method, actor and time on the row of the pull request; the base branch,
    and no other, at that commit, also as the head of the repository if it is the default branch; the issue of the pull
    request and the issues of its repository that closing keywords name in its body or its commits closed; and nothing else changed in
    pull requests, in the states of issues, in reviews, commits, files, rules and checks. *)
Theorem Merge_iff (o : Outside) (d : Db) (now : Z) (p : MergeParams) (W : wf (tb d)) :
  let merges pr i merger oid :=
    mergeable_now o d p pr i merger ∧ known_method (m_Method p) = true ∧
    merge_worktree o (mergeOptions o now p pr i merger) = Some oid ∧
    refs_of d (i_RepoID i) !! head_ref (pr_BaseRef pr) = Some (pr_BaseOid pr) in
  ((∃ d', Merge o d now p = Ok d') ↔ ∃ pr i merger oid, merges pr i merger oid) ∧
  ∀ d', Merge o d now p = Ok d' → ∃ pr i merger oid, merges pr i merger oid ∧ merged_by o d d' now p pr i oid.
Proof.
  cbn zeta. split; [split|].
  - intros (d' & (pr & i & merger & oid & Hn & Hm & Hw & Hr & _)%Merge_Ok). by exists pr, i, merger, oid.
  - intros (pr & i & merger & oid & Hn & Hm & Hw & Hr). eexists. apply Merge_Ok. by exists pr, i, merger, oid.
  - intros d' (pr & i & merger & oid & Hn & Hm & Hw & Hr & ->)%Merge_Ok. exists pr, i, merger, oid.
    split; [by split_and!|]. by eapply recordMerge_merged_by.
Qed.

(** ** The invariant of the system *)

(** The tables of issues are well-formed, and a pull request has an issue of its kind in its repository,
    and two branches. *)
Record inv (d : Db) : Prop := MkInv {
  inv_wf : wf (tb d);
  inv_pr : ∀ id pr, prs d !! id = Some pr →
    pr_IssueID pr = id ∧ pr_BaseRef pr ≠ pr_HeadRef pr ∧
    ∃ i, issues (tb d) !! id = Some i ∧ i_Kind i = IssueKindPr ∧ i_RepoID i = pr_HeadRepoID pr
}.

Definition rows_from (m m' : gmap Z PullRequest) : Prop :=
  ∀ id pr', m' !! id = Some pr' → ∃ pr, m !! id = Some pr ∧
    pr_IssueID pr' = pr_IssueID pr ∧ pr_HeadRef pr' = pr_HeadRef pr ∧ pr_HeadRepoID pr' = pr_HeadRepoID pr ∧
    (pr_BaseRef pr ≠ pr_HeadRef pr → pr_BaseRef pr' ≠ pr_HeadRef pr).

Lemma prs_keep_rows (m m' : gmap Z PullRequest) : prs_keep m m' → rows_from m m'.
Proof.
  intros K id pr' Hpr'. specialize (K id). rewrite Hpr' in K. destruct (m !! id) as [pr|]; [|done].
  exists pr. split; [done|]. destruct K as (? & ? & ? & _ & ?). by split_and!.
Qed.

Lemma inv_evolve (d d' : Db) :
  inv d → wf (tb d') → keeps (tb d) (tb d') → rows_from (prs d) (prs d') → inv d'.
Proof.
  intros [W P] W' K KP. split; [done|]. intros id pr' Hpr'.
  destruct (KP id pr' Hpr') as (pr & Epr & E1 & E2 & E3 & E4).
  destruct (P id pr Epr) as (HI & Hne & i & Hi & Hk & HR).
  split_and!; [congruence|rewrite E2; auto|].
  destruct (K id i Hi Hk) as (i' & Hi' & Hk' & HR' & _). exists i'. split_and!; try done. congruence.
Qed.

Lemma inv_same (d d' : Db) : tb d' = tb d → prs d' = prs d → inv d → inv d'.
Proof. intros E1 E2 [W P]. split; by rewrite E1, ?E2. Qed.

Lemma event_by_wf (w : World) (t t' : Tables) (actor id : Z) (kind meta : string) :
  event_by w t actor id kind meta = Ok t' → neutral kind → wf t → wf t' ∧ keeps t t'.
Proof.
  intros H Hk W. apply frame_event_by in H; [|done]. split; [by eapply frame_wf|by apply frame_keeps].
Qed.

Lemma Submit_frame (w : World) (tm : Z → Z → bool) (t t' : Tables) (rt rt' : ReviewTables) (p : SubmitParams) (id : Z) :
  Submit w tm t rt p = Ok (id, t', rt') → frame t t'.
Proof.
  unfold Submit. destruct (review_state (s_State p)); [|done]. intros H.
  do 2 (apply bind_Ok_inv in H as (? & _ & H)). apply bind_Ok_inv in H as ([? ?] & _ & H).
  apply bind_Ok_inv in H as (t1 & H1 & [= _ <- _]).
  destruct (InsertIssueEvent _ _ _ _ _ _) as [t2|] eqn:E; [|done]. injection H1 as <-.
  eapply frame_event; [exact E|auto with shithub].
Qed.

Lemma Request_frame (w : World) (te : Z → bool) (t t' : Tables) (rt rt' : ReviewTables) (p : RequestParams) (id : Z) :
  Reviews.Request w te t rt p = Ok (id, t', rt') → frame t t'.
Proof.
  unfold Reviews.Request. intros H. do 3 (apply bind_Ok_inv in H as (? & _ & H)).
  apply bind_Ok_inv in H as ([? ?] & _ & [= _ <- _]).
  destruct (GetIssueByID t (q_PRIssueID p)); [|done]. case_decide; [done|apply frame_emit].
Qed.

Lemma write_tb (w : World) (o : Outside) (d d' : Db) (x : Write) :
  write w o d x = Ok d' → wf (tb d) → wf (tb d') ∧ keeps (tb d) (tb d').
Proof.
  destruct x; cbn [write]; intros H W; p_steps; cbn; try by split.
  - unfold Refresh in *. case_decide; p_steps. by split.
  - match goal with X : InsertIssueEvent _ _ _ _ _ _ = Some _ |- _ =>
      apply frame_event in X; [|auto with shithub] end.
    split; [by eapply frame_wf|by apply frame_keeps].
  - destruct (Issues.SetState _ _ _ _ _ _ _) as [t|e] eqn:E.
    + p_steps. cbn. unfold Issues.SetState in E. split; [by eapply wf_setState|].
      eapply istep_keeps; [done|]. by eapply IS_SetState.
    + destruct e; p_steps; by split.
  - unfold SetPullRequestBaseRef in *. destruct (prs d !! id); p_steps; [case_decide; p_steps|]; cbn in *;
      eapply event_by_wf; try eassumption; auto with shithub.
  - unfold update_ref in *. case_decide; p_steps. by split.
  - eapply event_by_wf; try eassumption; auto with shithub.
Qed.

Lemma pstep_inv (w : World) (o : Outside) (l : Label) (s s' : Sys) :
  pstep w o l s s' → inv (db s) → inv (db s').
Proof.
  intros H I. pose proof (inv_wf _ I) as W. destruct H; cbn [db] in *; try done; try (by apply (inv_same d)).
  - eapply inv_evolve; [exact I|by eapply istep_wf|by eapply istep_keeps|apply prs_keep_rows, prs_keep_refl].
  - apply Submit_frame in H. eapply inv_evolve; [exact I|by eapply frame_wf|by apply frame_keeps|apply prs_keep_rows, prs_keep_refl].
  - apply Request_frame in H. eapply inv_evolve; [exact I|by eapply frame_wf|by apply frame_keeps|apply prs_keep_rows, prs_keep_refl].
  - apply Create_prs in H as (pr & row & E & Hnone & HI & _ & _ & _ & Hne & HR & Hrow & Hc & _).
    pose proof Hc as Hw. apply wf_CreateInTx in Hw; [|done].
    assert (keeps (tb d) (tb d')) as K by (eapply istep_keeps; [exact W|by eapply IS_Create]).
    apply CreateInTx_shape in Hc as (_ & Hfresh & t1 & r & E1 & F & HRr & _ & Hk); [|done]. cbn in Hk.
    injection Hk as Hk. split; [done|]. intros j pr' Hpr'. rewrite E in Hpr'.
    apply lookup_insert_Some in Hpr' as [[<- <-]|[_ Hpr']].
    + split_and!; try done. destruct F as [FK _ _ _].
      destruct (keys_lookup (issues d'.(tb)) (issues t1) id r (eq_sym FK)) as (i' & Hi' & Ei').
      { by rewrite E1, Hrow, lookup_insert_eq. }
      injection Ei' as _ ER _ EK _ _ _. exists i'. cbn in HRr. split_and!; congruence.
    + destruct (inv_pr _ I j pr' Hpr') as (? & ? & i & Hi & Hki & HRi).
      destruct (K j i Hi Hki) as (i' & ? & ? & ? & _). split_and!; try done. exists i'. split_and!; congruence.
  - pose proof H0 as H1. apply EditPR_keeps in H1. unfold EditPR in H0. p_steps. cbn in *.
    eapply inv_evolve; [exact I| | |apply prs_keep_rows, prs_keep_refl].
    + eapply wf_UpdateIssueTitleBody; [exact W| |eassumption]. intros i Hi.
      destruct (inv_pr _ I id pr H) as (_ & _ & i0 & Hi0 & Hk & _). simplify_eq.
      bools. split_and!; try done; [lia|by rewrite Hk].
    + by eapply UpdateIssueTitleBody_keeps.
  - pose proof H as H1. apply SetReady_keeps in H1. unfold SetReady in H. p_steps. cbn in *.
    match goal with X : event_by _ _ _ _ _ _ = Ok _ |- _ => apply event_by_wf in X as [? ?]; [|auto with shithub|done] end.
    eapply inv_evolve; [exact I|done|done|by apply prs_keep_rows].
  - pose proof H as H1. apply Merge_Ok in H1 as (pr & i & merger & oid & Hn & _ & _ & _ & ->).
    set (d1 := with_refs _ d).
    destruct (recordMerge_tb o d1 now p pr i oid W (mn_issue _ _ _ _ _ _ Hn) (mn_open _ _ _ _ _ _ Hn)) as [W2 C2].
    eapply inv_evolve; [exact I|exact W2|by eapply closes_keeps|].
    intros j pr'. cbn. rewrite lookup_alter_Some.
    intros [(<- & pr0 & Hpr0 & ->)|[_ Hpr']]; [exists pr0|exists pr']; by split_and!.
  - apply PerformMerge_Ok in H0 as (_ & _ & _ & ->). by eapply inv_evolve; [exact I|exact W| |apply prs_keep_rows, prs_keep_refl].
  - pose proof H as H1. apply write_keeps in H1. apply write_tb in H as [? ?]; [|done]. eapply inv_evolve; [exact I|done|done|by apply prs_keep_rows].
Qed.

(** ** What reopens a pull request *)

(** Pull requests other than [but] keep their state or are closed. *)
Definition tame (but : option Z) (t t' : Tables) : Prop :=
  ∀ j i, issues t !! j = Some i → i_Kind i = IssueKindPr → but ≠ Some j →
  ∃ i', issues t' !! j = Some i' ∧ i_Kind i' = IssueKindPr ∧ i_RepoID i' = i_RepoID i ∧
        (i_State i' = i_State i ∨ i_State i' = IssueStateClosed).

Lemma frame_tame (but : option Z) (t t' : Tables) : frame t t' → tame but t t'.
Proof.
  intros [K _ _ _] j i Hi Hk _. destruct (keys_lookup (issues t') (issues t) j i (eq_sym K) Hi) as (i' & Hi' & E).
  injection E as _ ER _ EK _ ES _. exists i'. split_and!; try congruence. left. congruence.
Qed.

Lemma closes_tame (C : Issue → bool) (but : option Z) (t t' : Tables) : closes C t t' → tame but t t'.
Proof.
  intros H j i Hi Hk _. specialize (H j). rewrite Hi in H. destruct (issues t' !! j) as [i'|]; [|done].
  destruct H as [[= _ ER _ EK] ES]. exists i'. split_and!; try congruence. rewrite ES. destruct (C i); auto.
Qed.

Lemma title_tame (t t' : Tables) (id : Z) (title body : string) (html : option string) (but : option Z) :
  UpdateIssueTitleBody t id title body html = Some t' → tame but t t'.
Proof.
  unfold UpdateIssueTitleBody. destruct (negb _); [done|]. intros [= <-] j i Hj Hk _. cbn.
  rewrite lookup_alter. case_decide; subst; rewrite Hj; cbn; eexists; split_and!; eauto.
Qed.

Lemma tame_compose (but : option Z) (t1 t2 t3 : Tables) : tame but t1 t2 → tame but t2 t3 → tame but t1 t3.
Proof.
  intros H1 H2 j i Hi Hk Hb. destruct (H1 j i Hi Hk Hb) as (i2 & Hi2 & Hk2 & ER2 & ES2).
  destruct (H2 j i2 Hi2 Hk2 Hb) as (i3 & Hi3 & Hk3 & ER3 & ES3). exists i3. split_and!; try congruence.
  destruct ES3 as [->|]; auto.
Qed.

Lemma CreateInTx_tame (w : World) (t t' : Tables) (p : Issues.CreateParams) (row : Issue) (but : option Z) :
  wf t → CreateInTx w t p = Ok (row, t') → tame but t t'.
Proof.
  intros W H. apply CreateInTx_shape in H as (_ & Hnone & t1 & r & E & F & _); [|done].
  apply (tame_compose _ _ t1); [|by apply frame_tame]. intros j i Hj Hk _.
  rewrite E, lookup_insert_ne by congruence. eauto 10.
Qed.

Lemma setState_shape (w : World) (t t' : Tables) (now actor id : Z) (st reason : string) (c : Z) :
  setState w t now actor id st reason c = Ok t' →
  ∃ i i', issues t !! id = Some i ∧ issues t' = <[id := i']> (issues t) ∧ state_of st = Some (i_State i') ∧
          i_Kind i' = i_Kind i ∧ i_RepoID i' = i_RepoID i.
Proof.
  unfold setState. destruct (state_of st) as [s0|] eqn:Est; [|done]. intros H.
  apply bind_Ok_inv in H as (? & _ & H). destruct (SetIssueState t now id s0 _ _) as [rows t1] eqn:Es.
  destruct (decide (rows = 0)) as [|Hrows]; [done|]. apply bind_Ok_inv in H as (? & _ & H).
  apply bind_Ok_inv in H as (t2 & He & H). apply stmt_Ok, InsertIssueEvent_issues in He.
  apply bind_Ok_inv in H as (i0 & _ & [= <-]). cbn. rewrite He.
  unfold SetIssueState in Es. destruct (issues t !! id) as [i|] eqn:Ei; [|by injection Es as <- _].
  destruct (decide (i_State i = s0)); injection Es as <- <-; [done|]. cbn. exists i.
  eexists. by split_and!.
Qed.

Lemma setState_tame (w : World) (t t' : Tables) (now actor id : Z) (st reason : string) (c : Z) :
  setState w t now actor id st reason c = Ok t' → tame (if decide (st = "open") then Some id else None) t t'.
Proof.
  intros H j i Hj Hk Hb.
  apply setState_shape in H as (i0 & i' & Hi0 & E & Est & HK & HR).
  destruct (decide (id = j)) as [<-|Hne].
  - case_decide; [done|]. exists i'. rewrite E, lookup_insert_eq.
    split_and!; try congruence. right. unfold state_of in Est.
    rewrite decide_False in Est by done. case_decide; congruence.
  - exists i. rewrite E, lookup_insert_ne by done. split_and!; auto.
Qed.

Lemma istep_tame (w : World) (t t' : Tables) :
  wf t → istep w t t' →
  tame None t t' ∨
  ∃ now actor id reason c, setState w t now actor id "open" reason c = Ok t' ∧ tame (Some id) t t'.
Proof.
  intros W [F|[(p & row & H)|[(id & title & body & row & H)|[(now & actor & id & st & reason & c & H)|[id ->]]]]]%istep_cases.
  - left. by apply frame_tame.
  - left. by eapply CreateInTx_tame.
  - left. unfold Edit in H. apply bind_Ok_inv in H as (cur & _ & H). do 2 (apply bind_Ok_inv in H as (? & _ & H)).
    apply bind_Ok_inv in H as (t1 & Hu & H). apply stmt_Ok in Hu.
    apply bind_Ok_inv in H as (t2 & Hr & H). apply (tame_compose _ _ t1); [by eapply title_tame|].
    assert (frame t1 t2) by (destruct body; ok_steps; [by eapply frame_references|done]).
    ok_steps. by apply frame_tame.
  - pose proof H as Ht. apply setState_tame in Ht. case_decide; [subst; right; eauto 10|by left].
  - left. intros j i Hj Hk _. exists i. unfold Delete, DeleteIssue.
    destruct (issues t !! id) as [i0|] eqn:E; [|by auto]. case_decide; [|by auto]. cbn.
    rewrite lookup_delete_ne; [by auto|]. intros <-. congruence.
Qed.

Lemma write_tame (w : World) (o : Outside) (d d' : Db) (x : Write) :
  write w o d x = Ok d' →
  tame None (tb d) (tb d') ∨ ∃ now actor id, x = WSetState now actor id "open" ∧ tame (Some id) (tb d) (tb d').
Proof.
  assert (∀ (t t' : Tables) actor id kind meta, event_by w t actor id kind meta = Ok t' → neutral kind → tame None t t')
    as Hev by (intros; by eapply frame_tame, frame_event_by).
  destruct x; cbn [write]; intros H; p_steps; cbn; try (left; by apply (frame_tame _ (tb d) (tb d))).
  - left. unfold Refresh in *. case_decide; p_steps. by apply frame_tame.
  - match goal with X : InsertIssueEvent _ _ _ _ _ _ = Some _ |- _ => rename X into He end.
    left. eapply frame_tame, frame_event; [exact He|auto with shithub].
  - destruct (Issues.SetState _ _ _ _ _ _ _) as [t|e] eqn:E.
    + p_steps. cbn. apply setState_tame in E. case_decide; [subst; right; eauto 10|by left].
    + left. destruct e; p_steps; by apply frame_tame.
  - left. unfold SetPullRequestBaseRef in *. destruct (prs d !! id); p_steps; [case_decide; p_steps|]; cbn in *;
      eapply Hev; try eassumption; auto with shithub.
  - left. unfold update_ref in *. case_decide; p_steps. by apply frame_tame.
  - left. eapply Hev; try eassumption; auto with shithub.
Qed.

(** The two ways to reopen: the state of the issue set directly, and a write that SetState had planned. *)
Inductive reopens (w : World) (id : Z) : Label → Sys → Sys → Prop :=
| Reopen_issue s s' now actor reason c :
    setState w (tb (db s)) now actor id "open" reason c = Ok (tb (db s')) → reopens w id LIssues s s'
| Reopen_planned s s' now actor : reopens w id (LWrite (WSetState now actor id "open")) s s'.

Lemma pstep_tame (w : World) (o : Outside) (l : Label) (s s' : Sys) :
  pstep w o l s s' → inv (db s) →
  tame None (tb (db s)) (tb (db s')) ∨ ∃ id, reopens w id l s s' ∧ tame (Some id) (tb (db s)) (tb (db s')).
Proof.
  intros H I. pose proof (inv_wf _ I) as W.
  destruct H; cbn [db] in *; try (left; by apply frame_tame).
  - apply istep_tame in H as [H|(now & actor & id & reason & c & H & Ht)]; [by left|right|done].
    exists id. split; [by eapply Reopen_issue|done].
  - left. by eapply frame_tame, Submit_frame.
  - left. by eapply frame_tame, Request_frame.
  - left. apply Create_prs in H as (pr & row & _ & _ & _ & _ & _ & _ & _ & _ & _ & Hc & _).
    by eapply CreateInTx_tame.
  - left. unfold EditPR in H0. p_steps. cbn in *. by eapply title_tame.
  - left. unfold SetReady in H. p_steps. cbn in *.
    match goal with X : event_by _ _ _ _ _ _ = Ok _ |- _ => rename X into He end.
    eapply frame_tame, frame_event_by; [exact He|auto with shithub].
  - left. apply Merge_Ok in H as (pr & i & merger & oid & Hn & _ & _ & _ & ->).
    set (d1 := with_refs _ d).
    destruct (recordMerge_tb o d1 now p pr i oid W (mn_issue _ _ _ _ _ _ Hn) (mn_open _ _ _ _ _ _ Hn)) as [_ C2].
    by eapply closes_tame.
  - left. apply PerformMerge_Ok in H0 as (_ & _ & _ & ->). by apply frame_tame.
  - apply write_tame in H as [H|(now & actor & id & -> & H)]; [by left|right].
    exists id. split; [by eapply Reopen_planned|done].
Qed.

Lemma reachable_pulls (w : World) (o : Outside) (s : Sys) : rtc (some_step w o) init s → inv (db s).
Proof.
  intros H. apply (rtc_preserves _ (fun s => inv (db s)) _ _ H).
  - split; [apply wf_no_tables|]. intros id pr Hpr. cbn in Hpr. by rewrite lookup_empty in Hpr.
  - intros a b Ia [l Hl]. by eapply pstep_inv.
Qed.

(** C9: in every state that requests and jobs can reach, an issue has the number that no other issue of its
    repository has, below the repository's counter; a title as the checks want it; and the state that its
    timeline says: closed if the last event that closes or reopens it closes it, and a closing time if
    and only if it is closed.  A pull request has an issue of its kind in its repository, and two branches. *)
Theorem reachable_tables (w : World) (o : Outside) (s : Sys) (H : rtc (some_step w o) init s) :
  (∀ id i, issues (tb (db s)) !! id = Some i →
     (∃ c, counters (tb (db s)) !! i_RepoID i = Some c ∧ 1 ≤ i_Number i < c) ∧
     (∀ id' i', issues (tb (db s)) !! id' = Some i' → i_RepoID i' = i_RepoID i → i_Number i' = i_Number i → id' = id) ∧
     title_ok (i_Kind i) (i_Title i) ∧
     i_State i = timeline_state id (events (tb (db s))) ∧
     (is_Some (i_ClosedAt i) ↔ i_State i = IssueStateClosed)) ∧
  (∀ id pr, prs (db s) !! id = Some pr →
     pr_BaseRef pr ≠ pr_HeadRef pr ∧
     ∃ i, issues (tb (db s)) !! id = Some i ∧ i_Kind i = IssueKindPr ∧ i_RepoID i = pr_HeadRepoID pr).
Proof.
  apply reachable_pulls in H as [W P]. split.
  - intros id i Hi. destruct (wf_issue _ W id i Hi) as (_ & _ & Hn & c & Hc & Hlt).
    destruct (wf_state _ W id i Hi) as [Hs Hcl]. split_and!; eauto; try (by symmetry).
    + intros id' i' Hi' HR HN. by apply (wf_unique _ W id' id i' i).
    + by apply (wf_title _ W id).
  - intros id pr Hpr. by destruct (P id pr Hpr) as (_ & ? & ?).
Qed.

(** a pull request that is closed (a merged one, say) is open after a step only if that step sets the state
    of its issue to open through the issues package, or makes a write that an earlier SetState had
    planned.  No other request, job, comment, edit or merge reopens it. *)
Theorem only_reopened_by (w : World) (o : Outside) (l : Label) (s s' : Sys) (id : Z) (i i' : Issue)
    (Hreach : rtc (some_step w o) init s) (Hstep : pstep w o l s s')
    (Hi : issues (tb (db s)) !! id = Some i) (Hpr : i_Kind i = IssueKindPr) (Hc : i_State i = IssueStateClosed)
    (Hi' : issues (tb (db s')) !! id = Some i') (Ho : i_State i' = IssueStateOpen) :
  reopens w id l s s'.
Proof.
  apply reachable_pulls in Hreach as I.
  destruct (pstep_tame w o l s s' Hstep I) as [T|(id0 & R & T)].
  - destruct (T id i Hi Hpr) as (i2 & Hi2 & _ & _ & HS); [done|]. rewrite Hi' in Hi2. injection Hi2 as <-.
    rewrite Hc, Ho in HS. by destruct HS.
  - destruct (decide (id0 = id)) as [->|Hne]; [done|].
    destruct (T id i Hi Hpr) as (i2 & Hi2 & _ & _ & HS); [congruence|]. rewrite Hi' in Hi2. injection Hi2 as <-.
    rewrite Hc, Ho in HS. by destruct HS.
Qed.

(** ** One open pull request for two branches *)

Definition open_between (d : Db) (id repo : Z) (base headRef : string) : Prop :=
  ∃ pr i, prs d !! id = Some pr ∧ issues (tb d) !! id = Some i ∧ i_RepoID i = repo ∧ i_State i = IssueStateOpen ∧
          pr_BaseRef pr = base ∧ pr_HeadRef pr = headRef.

Definition unique_open (d : Db) : Prop :=
  ∀ id1 id2 repo base headRef, open_between d id1 repo base headRef → open_between d id2 repo base headRef → id1 = id2.

(** Rows of pull requests with their branches. *)
Definition same_branches (m m' : gmap Z PullRequest) : Prop :=
  ∀ id pr', m' !! id = Some pr' → ∃ pr, m !! id = Some pr ∧ pr_BaseRef pr' = pr_BaseRef pr ∧ pr_HeadRef pr' = pr_HeadRef pr.

Lemma same_branches_alter (f : PullRequest → PullRequest) (id : Z) (m : gmap Z PullRequest) :
  (∀ pr, pr_BaseRef (f pr) = pr_BaseRef pr ∧ pr_HeadRef (f pr) = pr_HeadRef pr) → same_branches m (alter f id m).
Proof.
  intros Hf j pr'. rewrite lookup_alter_Some.
  intros [(<- & pr & Hpr & ->)|[_ Hpr']]; [exists pr|exists pr']; split; auto.
Qed.

Lemma same_branches_refl (m : gmap Z PullRequest) : same_branches m m.
Proof. intros id pr Hpr. eauto. Qed.

Lemma write_branches (w : World) (o : Outside) (d d' : Db) (x : Write) :
  write w o d x = Ok d' → (∀ actor id b oid, x ≠ WSetBase actor id b oid) → same_branches (prs d) (prs d').
Proof.
  intros H Hx. destruct x; cbn [write] in H; p_steps; cbn; try apply same_branches_refl.
  - unfold Refresh in *. case_decide; p_steps. cbn. by apply same_branches_alter.
  - by apply same_branches_alter.
  - destruct (Issues.SetState _ _ _ _ _ _ _) as [t|[]]; p_steps; apply same_branches_refl.
  - naive_solver.
  - unfold update_ref in *. case_decide; p_steps. apply same_branches_refl.
  - by apply same_branches_alter.
Qed.

Lemma unique_open_evolve (d d' : Db) :
  inv d → tame None (tb d) (tb d') → same_branches (prs d) (prs d') → unique_open d → unique_open d'.
Proof.
  intros I T B U.
  assert (∀ id repo base headRef, open_between d' id repo base headRef → open_between d id repo base headRef) as Hback.
  { intros id repo base headRef (pr' & i' & Hpr' & Hi' & HR & HO & HB & HH).
    destruct (B id pr' Hpr') as (pr & Hpr & EB & EH).
    destruct (inv_pr _ I id pr Hpr) as (_ & _ & i & Hi & Hk & _).
    destruct (T id i Hi Hk) as (i2 & Hi2 & _ & ER & ES); [done|]. rewrite Hi' in Hi2. injection Hi2 as <-.
    exists pr, i. split_and!; try congruence. destruct ES; congruence. }
  intros id1 id2 repo base headRef H1 H2. eapply U; eauto.
Qed.

Lemma FindOpen_None (d : Db) (repo : Z) (base headRef : string) (id : Z) :
  inv d → FindOpenPullRequestByBranches d repo base headRef = None → ¬ open_between d id repo base headRef.
Proof.
  intros I H (pr & i & Hpr & Hi & HR & HO & HB & HH). unfold FindOpenPullRequestByBranches in H.
  destruct (inv_pr _ I id pr Hpr) as (_ & _ & i0 & Hi0 & Hk & _). simplify_eq.
  assert ((id, pr) ∈ map_to_list (filter (fun kv => open_on d (i_RepoID i) (pr_BaseRef pr) (pr_HeadRef pr) kv.1 kv.2 = true) (prs d)))
    as Hin.
  { apply elem_of_map_to_list, map_lookup_filter_Some. split; [done|]. unfold open_on. cbn. rewrite Hi.
    by apply bool_decide_eq_true. }
  destruct (map_to_list _) as [|[id1 pr1] l] eqn:El; [by apply elem_of_nil in Hin|]. cbn in H.
  assert ((id1, pr1) ∈ (id1, pr1) :: l) as H1 by (by left). rewrite <- El in H1.
  apply elem_of_map_to_list, map_lookup_filter_Some in H1 as [_ H1]. unfold open_on in H1. cbn in H1.
  by destruct (issues (tb d) !! id1).
Qed.

Lemma Create_unique (w : World) (o : Outside) (d d' : Db) (p : CreateParams) (id : Z) :
  inv d → inv d' → Create w o d p = Ok (id, d') → unique_open d → unique_open d'.
Proof.
  intros I I' H U. apply Create_prs in H as (pr & row & E & Hnone & _ & _ & _ & _ & _ & HR & _ & Hc & Hfind & _).
  pose proof Hc as T. apply (CreateInTx_tame _ _ _ _ _ None) in T; [|apply I].
  assert (∀ j repo base headRef, open_between d' j repo base headRef → j ≠ id → open_between d j repo base headRef) as Hold.
  { intros j repo base headRef (pr' & i' & Hpr' & Hi' & ER & EO & EB & EH) Hj.
    rewrite E, lookup_insert_ne in Hpr' by done. destruct (inv_pr _ I j pr' Hpr') as (_ & _ & i & Hi & Hk & _).
    destruct (T j i Hi Hk) as (i2 & Hi2 & _ & ER2 & ES); [done|]. rewrite Hi' in Hi2. injection Hi2 as <-.
    exists pr', i. split_and!; try congruence. destruct ES; congruence. }
  assert (∀ repo base headRef, open_between d' id repo base headRef →
            repo = c_RepoID p ∧ base = pr_BaseRef pr ∧ headRef = pr_HeadRef pr) as Hnew.
  { intros repo base headRef (pr' & i' & Hpr' & Hi' & ER & EO & EB & EH).
    destruct (inv_pr _ I' id pr' Hpr') as (_ & _ & i2 & Hi2 & _ & ER2). rewrite E, lookup_insert_eq in Hpr'.
    injection Hpr' as <-. simplify_eq. by split_and!; [congruence| |]. }
  intros j1 j2 repo base headRef H1 H2.
  destruct (decide (j1 = id)) as [->|N1], (decide (j2 = id)) as [->|N2]; [done| | |eapply U; eauto].
  - apply Hnew in H1 as (-> & -> & ->). destruct (FindOpen_None _ _ _ _ j2 I Hfind (Hold _ _ _ _ H2 N2)).
  - apply Hnew in H2 as (-> & -> & ->). destruct (FindOpen_None _ _ _ _ j1 I Hfind (Hold _ _ _ _ H1 N1)).
Qed.

(** Steps that neither reopen a pull request nor change its base. *)
Definition quiet (w : World) (o : Outside) (s s' : Sys) : Prop :=
  ∃ l, pstep w o l s s' ∧ (∀ id, ¬ reopens w id l s s') ∧ ∀ actor id b oid, l ≠ LWrite (WSetBase actor id b oid).

Lemma quiet_unique (w : World) (o : Outside) (s s' : Sys) :
  inv (db s) → quiet w o s s' → unique_open (db s) → unique_open (db s').
Proof.
  intros I (l & H & Hr & Hb) U. pose proof (pstep_inv _ _ _ _ _ H I) as I'.
  destruct (pstep_tame _ _ _ _ _ H I) as [T|(id & R & _)]; [|by destruct (Hr id)].
  assert (same_branches (prs (db s)) (prs (db s')) → unique_open (db s')) as Hsame
    by (intros B; exact (unique_open_evolve _ _ I T B U)).
  destruct H; cbn [db] in *; try (apply Hsame, same_branches_refl); [exact (Create_unique w o d d' p id I I' H U)|..]; apply Hsame.
  - apply EditPR_keeps in H0 as ->. apply same_branches_refl.
  - unfold SetReady in H. p_steps. by apply same_branches_alter.
  - apply Merge_prs in H as (pr & oid & Hpr & _ & ->). intros j pr'. rewrite lookup_insert_Some.
    intros [[<- <-]|[_ Hpr']]; eauto.
  - apply PerformMerge_Ok in H0 as (_ & _ & _ & ->). apply same_branches_refl.
  - eapply write_branches; [exact H|]. intros actor id b oid ->. by apply (Hb actor id b oid).
Qed.

(** C29: opening pull requests, also concurrently, never leaves two open ones of a repository with the same base
    and head: in every run in which none is reopened and none gets another base, two open pull requests differ
    in their branches. *)
Theorem single_open (w : World) (o : Outside) (s : Sys) (H : rtc (quiet w o) init s) : unique_open (db s).
Proof.
  assert (inv (db s) ∧ unique_open (db s)) as [_ U]; [|done].
  apply (rtc_preserves _ (fun s => inv (db s) ∧ unique_open (db s)) _ _ H).
  - split; [split; [apply wf_no_tables|]|]; [intros id pr Hpr; cbn in Hpr; by rewrite lookup_empty in Hpr|].
    intros id1 id2 repo base headRef (pr & i & Hpr & _). cbn in Hpr. by rewrite lookup_empty in Hpr.
  - intros a b [I U] Hq. split; [|by eapply quiet_unique].
    destruct Hq as (l & Hl & _). by eapply pstep_inv.
Qed.

(** ** The operations on an example

    Repository 7 has the branches trunk and topic; issue 1 is a bug, pull request 2 from topic into trunk
    fixes it. *)

Definition ex_outside : Outside := MkOutside
  (fun refs name => match refs !! head_ref name with Some oid => Ok oid | None => Err ErrRefNotFound end)
  (fun a b => Ok (bool_decide (a = b ∨ (a, b) ∈ [("b0", "h1"); ("b0", "m1"); ("h1", "m1")])))
  (fun base headOid _ => if decide (base = headOid) then Ok [] else Ok [MkCommit headOid "Close #1" ""])
  (fun _ _ => Ok ["main.go"]) (fun _ _ => Ok false)
  (fun opts => if decide (mo_BaseOID opts = "b0") then Some "m1" else None) (fun _ => Some "u1")
  (fun u => if decide (u = 1 ∨ u = 2) then Some (MkUserRow "ann" "" None) else None) (fun _ => None)
  (fun _ => Some "trunk") (fun _ _ _ _ => Ok (true, [])) (str_map ascii_lower) (fun s => s).

Definition ok_db (m : P Db) : Db := match m with Ok d => d | Err _ => empty_db end.

Definition ex_refs : gmap Z (gmap string string) :=
  {[7 := <["refs/heads/topic" := "h1"]> {["refs/heads/trunk" := "b0"]}]}.

Definition ex_world2 : World := MkWorld (fun u => bool_decide (u = 1 ∨ u = 2))
  (fun r => if decide (r = 7) then Some (MkRepoInfo None "public") else None) (fun _ => None)
  (fun _ _ => None) (fun _ _ => None) (fun _ => Ok true) (fun b => (b, [], false)) (fun _ => []) (fun s => s).

Definition ex_d1 : Db := with_refs ex_refs empty_db.
Definition ex_d2 : Db :=
  with_tb (match Issues.Create ex_world2 (tb ex_d1) (Issues.MkCreateParams 7 1 "bug" "" "") with
           | Ok (_, t) => t | Err _ => no_tables end) ex_d1.
Definition ex_pull : CreateParams := MkPullParams 7 1 "fix the bug" "" "trunk" "topic" false.
Definition ex_d3 : Db := ok_db (snd <$> Create ex_world2 ex_outside ex_d2 ex_pull).
Definition ex_d4 : Db := ok_db (run_writes ex_world2 ex_outside ex_d3 (initial_writes ex_outside ex_d3 2)).
Definition ex_d5 : Db := ok_db (write ex_world2 ex_outside ex_d4 (WMergeability 2 (Some true) Clean)).
Definition ex_merge : MergeParams := MkMergeParams 2 2 "merge" "" "".
Definition ex_d6 : Db := ok_db (Merge ex_outside ex_d5 100 ex_merge).
Definition ex_reopen : Write := WSetState 101 1 2 "open".
Definition ex_d7 : Db := ok_db (write ex_world2 ex_outside ex_d6 ex_reopen).

Definition ex_state (d : Db) (id : Z) : option (IssueState * bool) :=
  i ← issues (tb d) !! id;
  Some (i_State i, match prs d !! id with Some pr => bool_decide (is_Some (pr_Merged pr)) | None => false end).

(** The merge closes the pull request and the issue; the write planned before it reopens the merged pull request. *)
Example ex_states : ex_state ex_d6 1 = Some (IssueStateClosed, false) ∧
  ex_state ex_d6 2 = Some (IssueStateClosed, true) ∧ ex_state ex_d7 2 = Some (IssueStateOpen, true).
Proof. vm_compute. done. Qed.

(** So does the form of the issue page, which takes the number of a pull request. *)
Example ex_reopen_by_issue :
  ex_state (with_tb (match Issues.SetState ex_world2 (tb ex_d6) 102 1 2 "open" "" with
                     | Ok t => t | Err _ => no_tables end) ex_d6) 2 = Some (IssueStateOpen, true).
Proof. vm_compute. done. Qed.

(** A draft is merged like another, and Merge does not ask which methods the repository allows. *)
Example ex_draft : ex_state (ok_db (Merge ex_outside (with_prs (set_draft true <$> prs ex_d5) ex_d5) 100 ex_merge)) 2 =
  Some (IssueStateClosed, true).
Proof. vm_compute. done. Qed.

(** A second pull request on the same branches is refused, and another after the base was changed back is not. *)
Example ex_duplicate : Create ex_world2 ex_outside ex_d5 ex_pull = Err (DuplicatePR 2).
Proof. vm_compute. reflexivity. Qed.

(** UpdateBranch moves a branch that no one may push to. *)
Definition ex_locked : Db :=
  MkDb (tb ex_d5) (rt ex_d5) (prs ex_d5) (pr_commits ex_d5) (pr_files ex_d5)
    {[7 := <["refs/heads/topic" := "h1"]> {["refs/heads/trunk" := "b9"]}]}
    {[7 := [MkRule 1 "topic" "branch" true true true [] 0 false []]]} ∅ ∅.

Example ex_update_protected :
  (Allow <$> Enforce (E := unit) (fun _ _ => Ok true) (rules_of ex_locked 7)
     (MkUpdate "h1" "u1" "refs/heads/topic" 1)) = Ok false ∧
  (ws ← UpdateBranch ex_outside ex_locked 100 1 2 "" ""; d ← run_writes ex_world2 ex_outside ex_locked ws;
   Ok (refs_of d 7 !! "refs/heads/topic", pr_MergeableState <$> prs d !! 2)) = Ok (Some "u1", Some Clean).
Proof. vm_compute. done. Qed.

Definition ex_s (k : nat) : Sys :=
  let planned : Writes := [ex_reopen] in
  match k with
  | 0 => init
  | 1 => MkSys ex_d1 []
  | 2 => MkSys ex_d2 []
  | 3 => MkSys ex_d3 [initial_writes ex_outside ex_d3 2]
  | 4 => MkSys ex_d4 [[]]
  | 5 => MkSys ex_d4 [[WMergeability 2 (Some true) Clean]; []]
  | 6 => MkSys ex_d5 [[]; []]
  | 7 => MkSys ex_d5 [planned; []; []]
  | 8 => MkSys ex_d6 [planned; []; []]
  | _ => MkSys ex_d7 [[]; []; []]
  end%nat.

Lemma ex_step0 : pstep ex_world2 ex_outside LOutside (ex_s 0) (ex_s 1).
Proof. exact (P_Outside _ _ empty_db [] ex_refs ∅ ∅ ∅). Defined.

Lemma ex_step1 : pstep ex_world2 ex_outside LIssues (ex_s 1) (ex_s 2).
Proof.
  apply P_Issues. apply (IS_Create _ _ (Issues.MkCreateParams 7 1 "bug" "" "")
    (default (MkIssue 0 0 0 IssueKindIssue "" "" None None IssueStateOpen None false None None None None)
       (issues (tb ex_d2) !! 1))).
  vm_compute. reflexivity.
Defined.

Lemma ex_step2 : pstep ex_world2 ex_outside (LCreate 2) (ex_s 2) (ex_s 3).
Proof. apply (P_Create _ _ _ _ ex_pull). vm_compute. reflexivity. Defined.

Lemma ex_step3 : pstep ex_world2 ex_outside (LWrite (WRefresh 2 "b0" "h1" [MkCommit "h1" "Close #1" ""] ["main.go"])) (ex_s 3) (ex_s 4).
Proof. apply (P_Write _ _ _ []). vm_compute. reflexivity. Defined.

Lemma ex_step4 : pstep ex_world2 ex_outside (LPlan (RMergeability 2)) (ex_s 4) (ex_s 5).
Proof. apply P_Plan. vm_compute. reflexivity. Defined.

Lemma ex_step5 : pstep ex_world2 ex_outside (LWrite (WMergeability 2 (Some true) Clean)) (ex_s 5) (ex_s 6).
Proof. apply (P_Write _ _ _ []). vm_compute. reflexivity. Defined.

Lemma ex_step6 : pstep ex_world2 ex_outside (LPlan (RSetState 7 101 1 2 "open")) (ex_s 6) (ex_s 7).
Proof. apply P_Plan. vm_compute. reflexivity. Defined.

Lemma ex_step7 : pstep ex_world2 ex_outside (LMerge 2) (ex_s 7) (ex_s 8).
Proof. apply (P_Merge _ _ _ _ 100 ex_merge). vm_compute. reflexivity. Defined.

Lemma ex_step8 : pstep ex_world2 ex_outside (LWrite ex_reopen) (ex_s 8) (ex_s 9).
Proof. apply (P_Write _ _ _ []). vm_compute. reflexivity. Defined.

Lemma ex_reach8 : rtc (some_step ex_world2 ex_outside) init (ex_s 8).
Proof.
  eapply rtc_l; [eexists; exact ex_step0|]. eapply rtc_l; [eexists; exact ex_step1|].
  eapply rtc_l; [eexists; exact ex_step2|]. eapply rtc_l; [eexists; exact ex_step3|].
  eapply rtc_l; [eexists; exact ex_step4|]. eapply rtc_l; [eexists; exact ex_step5|].
  eapply rtc_l; [eexists; exact ex_step6|]. eapply rtc_l; [eexists; exact ex_step7|]. apply rtc_refl.
Defined.

(** ** The theorems on the example *)

Lemma ex_reach5 : rtc (some_step ex_world2 ex_outside) init (ex_s 5).
Proof.
  eapply rtc_l; [eexists; exact ex_step0|]. eapply rtc_l; [eexists; exact ex_step1|].
  eapply rtc_l; [eexists; exact ex_step2|]. eapply rtc_l; [eexists; exact ex_step3|].
  eapply rtc_l; [eexists; exact ex_step4|]. apply rtc_refl.
Defined.

Definition no_pull : PullRequest := MkPullRequest 0 "" "" 0 "" "" false None Unknown None.
Definition no_issue : Issue :=
  MkIssue 0 0 0 IssueKindIssue "" "" None None IssueStateOpen None false None None None None.
Definition no_merge : MergeRecord := MkMergeRecord 0 None "" "" "" "".
Definition ex_merged : PullRequest := default no_pull (prs ex_d6 !! 2).
Definition ex_record : MergeRecord := default no_merge (pr_Merged ex_merged).

Lemma ex_merged_row : prs (db (ex_s 8)) !! 2 = Some ex_merged ∧ pr_Merged ex_merged = Some ex_record.
Proof. vm_compute. done. Defined.

Lemma merged_only_through_gates_witness :
  pr_Merged <$> prs (db (ex_s 7)) !! 2 = Some None ∧
  ((∃ pr, prs (db (ex_s 7)) !! 2 = Some pr ∧ pr_Merged pr = Some ex_record) ∨
   ∃ now p pr i merger,
     LMerge 2 = LMerge 2 ∧ m_PRID p = 2 ∧ mergeable_now ex_outside (db (ex_s 7)) p pr i merger ∧
     refs_of (db (ex_s 7)) (i_RepoID i) !! head_ref (pr_BaseRef pr) = Some (pr_BaseOid pr) ∧
     merge_worktree ex_outside (mergeOptions ex_outside now p pr i merger) = Some (mr_MergeCommitSha ex_record) ∧
     refs_of (db (ex_s 8)) (i_RepoID i) !! head_ref (pr_BaseRef pr) = Some (mr_MergeCommitSha ex_record) ∧
     mr_BaseOidAtMerge ex_record = pr_BaseOid pr ∧ mr_HeadOidAtMerge ex_record = pr_HeadOid pr).
Proof.
  split; [vm_compute; reflexivity|].
  exact (merged_only_through_gates ex_world2 ex_outside (LMerge 2) (ex_s 7) (ex_s 8) 2 ex_merged ex_record
           ex_step7 (proj1 ex_merged_row) (proj2 ex_merged_row)).
Defined.

(** Also after the planned write has reopened it. *)
Lemma merged_for_ever_witness : ∃ pr', prs (db (ex_s 9)) !! 2 = Some pr' ∧ pr_Merged pr' = Some ex_record.
Proof.
  apply (merged_for_ever ex_world2 ex_outside (ex_s 8) (ex_s 9) 2 ex_merged ex_record);
    [|apply ex_merged_row|apply ex_merged_row].
  apply rtc_once. exists (LWrite ex_reopen). exact ex_step8.
Defined.

Lemma ex_merge_Ok : Merge ex_outside ex_d5 100 ex_merge = Ok ex_d6.
Proof. vm_compute. reflexivity. Defined.

Lemma ex_reach6 : rtc (some_step ex_world2 ex_outside) init (ex_s 6).
Proof. eapply rtc_r; [exact ex_reach5|]. eexists. exact ex_step5. Defined.

Lemma Merge_closes_witness :
  ∃ i, issues (tb ex_d5) !! m_PRID ex_merge = Some i ∧
  ∀ j x, issues (tb ex_d5) !! j = Some x →
    ∃ x', issues (tb ex_d6) !! j = Some x' ∧
      i_State x' =
        if decide (j = m_PRID ex_merge ∨
                   (i_RepoID x = i_RepoID i ∧ i_Kind x = IssueKindIssue ∧
                    i_Number x ∈ linked_numbers ex_d5 i (m_PRID ex_merge)))
        then IssueStateClosed else i_State x.
Proof.
  exact (Merge_closes ex_outside ex_d5 ex_d6 100 ex_merge (inv_wf _ (reachable_pulls _ _ _ ex_reach6)) ex_merge_Ok).
Defined.

(** The pull request of the examples, which closes issue 1 and whose base is the default branch. *)
Lemma Merge_iff_witness :
  (∃ d', Merge ex_outside ex_d5 100 ex_merge = Ok d') ∧
  ∃ pr i merger oid, mergeable_now ex_outside ex_d5 ex_merge pr i merger ∧
    merged_by ex_outside ex_d5 ex_d6 100 ex_merge pr i oid ∧ i_State <$> issues (tb ex_d6) !! 1 = Some IssueStateClosed.
Proof.
  destruct (Merge_iff ex_outside ex_d5 100 ex_merge (inv_wf _ (reachable_pulls _ _ _ ex_reach6))) as [H1 H2].
  destruct (H2 ex_d6 ex_merge_Ok) as (pr & i & merger & oid & (Hn & Hm & Hw & Hr) & Hb). split.
  - apply H1. by exists pr, i, merger, oid.
  - exists pr, i, merger, oid. split_and!; [done|done|vm_compute; reflexivity].
Defined.

Lemma reachable_tables_witness :
  (∀ id pr, prs (db (ex_s 8)) !! id = Some pr →
     pr_BaseRef pr ≠ pr_HeadRef pr ∧
     ∃ i, issues (tb (db (ex_s 8))) !! id = Some i ∧ i_Kind i = IssueKindPr ∧ i_RepoID i = pr_HeadRepoID pr) ∧
  size (prs (db (ex_s 8))) = 1%nat ∧ size (issues (tb (db (ex_s 8)))) = 2%nat.
Proof.
  split; [exact (proj2 (reachable_tables ex_world2 ex_outside (ex_s 8) ex_reach8))|].
  vm_compute. done.
Defined.

Definition ex_issue (d : Db) (id : Z) : Issue := default no_issue (issues (tb d) !! id).

Lemma only_reopened_by_witness : reopens ex_world2 2 (LWrite ex_reopen) (ex_s 8) (ex_s 9).
Proof.
  apply (only_reopened_by ex_world2 ex_outside (LWrite ex_reopen) (ex_s 8) (ex_s 9) 2
           (ex_issue ex_d6 2) (ex_issue ex_d7 2) ex_reach8 ex_step8); vm_compute; reflexivity.
Defined.

Lemma not_reopened (w : World) (l : Label) (s s' : Sys) :
  match l with LIssues | LWrite _ => False | _ => True end → ∀ id, ¬ reopens w id l s s'.
Proof. intros Hl id R. by destruct R. Qed.

Lemma ex_quiet1 : quiet ex_world2 ex_outside (ex_s 1) (ex_s 2).
Proof.
  exists LIssues. split_and!; [exact ex_step1| |done].
  intros id R. inversion R as [? ? ? ? ? ? H|]; subst.
  apply setState_shape in H as (i & _ & Hi & _). change ((∅ : gmap Z Issue) !! id = Some i) in Hi. by rewrite lookup_empty in Hi.
Qed.

Lemma ex_quiet3 : quiet ex_world2 ex_outside (ex_s 3) (ex_s 4).
Proof. eexists. split_and!; [exact ex_step3| |done]. intros id R. inversion R. Qed.

Lemma ex_quiet_create : rtc (quiet ex_world2 ex_outside) init (ex_s 3).
Proof.
  eapply rtc_l; [eexists; split_and!; [exact ex_step0|by apply not_reopened|done]|].
  eapply rtc_l; [exact ex_quiet1|].
  eapply rtc_l; [eexists; split_and!; [exact ex_step2|by apply not_reopened|done]|]. apply rtc_refl.
Qed.

Lemma single_open_witness : unique_open (db (ex_s 4)) ∧ ex_state (db (ex_s 4)) 2 = Some (IssueStateOpen, false).
Proof.
  split; [|vm_compute; reflexivity].
  apply (single_open ex_world2 ex_outside (ex_s 4)). eapply rtc_r; [exact ex_quiet_create|exact ex_quiet3].
Defined.
