(* ===== verification/NetIP.v ===== *)
(** * NetIP: addresses, as packages net and net/netip have them

    What the code that looks at client and server addresses calls: netip.ParseAddr, ParsePrefix, String,
    Contains, Unmap; net.ParseIP, the predicates of net.IP, IPNet.Contains, SplitHostPort.
    A netip.Addr is its number, as in the package (32 or 128 bits), and the zone of an IPv6 address;
    a net.IP is its bytes, 4 or 16 of them, or nil. *)

From S2P Require Import Prelude GoString.
Local Open Scope Z_scope.

(** ** Text *)

(** The longest prefix of characters in a class, and the rest. *)
Fixpoint str_span (p : ascii → bool) (s : string) : string * string :=
  match s with
  | "" => ("", "")
  | String c s' => if p c then let '(a, b) := str_span p s' in (String c a, b) else ("", s)
  end.

(** The text before and after the last occurrence of a byte. *)
Fixpoint CutLast (s : string) (c : ascii) : option (string * string) :=
  match s with
  | "" => None
  | String d s' =>
      match CutLast s' c with
      | Some (a, b) => Some (String d a, b)
      | None => if decide (d = c) then Some ("", s') else None
      end
  end.

Definition has_byte (c : ascii) (s : string) : bool := negb (str_forallb (fun d => negb (is_byte d c)) s).

Definition is_dec (c : ascii) : bool := between 48 (byte c) 57.

Definition hex_digit (c : ascii) : option Z :=
  let b := byte c in
  if between 48 b 57 then Some (b - 48)
  else if between 97 b 102 then Some (b - 87)
  else if between 65 b 70 then Some (b - 55) else None.

Definition is_hex (c : ascii) : bool := bool_decide (is_Some (hex_digit c)).

Fixpoint hex_value (s : string) (acc : Z) : Z :=
  match s with "" => acc | String c s => hex_value s (acc * 16 + default 0 (hex_digit c)) end.

Fixpoint dec_value (s : string) (acc : Z) : Z :=
  match s with "" => acc | String c s => dec_value s (acc * 10 + (byte c - 48)) end.

(** Decimal digits without a leading zero. *)
Definition dec_plain (s : string) : bool :=
  str_forallb is_dec s &&
  match s with "" => false | String c "" => true | String c _ => negb (is_byte c "0"%char) end.

(** ** netip.Addr *)

Inductive Addr := V4 (n : Z) | V6 (n : Z) (zone : string).

#[export] Instance Addr_eq_dec : EqDecision Addr.
Proof. solve_decision. Defined.

Definition octet (s : string) : option Z :=
  if dec_plain s && bool_decide (dec_value s 0 <= 255) then Some (dec_value s 0) else None.

(** The number of fields in base [b], and its [k] fields. *)
Definition of_fields (b : Z) (l : list Z) : Z := foldl (fun acc x => acc * b + x) 0 l.

Fixpoint fields (b : Z) (k : nat) (n : Z) : list Z :=
  match k with O => [] | S k => fields b k (n / b) ++ [n `mod` b] end.

(** Four octets between dots. *)
Definition parseIPv4Fields (s : string) : option Z :=
  match SplitByte s "."%char with
  | [a; b; c; d] => l ← mapM octet [a; b; c; d]; Some (of_fields 256 l)
  | _ => None
  end.

(** The loop of parseIPv6: the groups read so far and the position of the ellipsis; [room] more groups fit. *)
Fixpoint groups_loop (room : nat) (s : string) (gs : list Z) (ell : option nat)
  : option (string * list Z * option nat) :=
  match room with
  | O => Some (s, gs, ell)
  | S room =>
      let '(ds, rest) := str_span is_hex s in
      if bool_decide (ds = "") || bool_decide (4 < String.length ds)%nat then None
      else
        match rest with
        | String "."%char _ =>
            if (bool_decide (ell = None) && bool_decide (length gs ≠ 6%nat)) || bool_decide (6 < length gs)%nat
            then None
            else n ← parseIPv4Fields s; Some ("", gs ++ [n / 65536; n `mod` 65536], ell)
        | "" => Some ("", gs ++ [hex_value ds 0], ell)
        | String ":"%char "" => None
        | String ":"%char (String ":"%char s') =>
            match ell with
            | Some _ => None
            | None =>
                let gs := gs ++ [hex_value ds 0] in
                if decide (s' = "") then Some ("", gs, Some (length gs))
                else groups_loop room s' gs (Some (length gs))
            end
        | String ":"%char s' => groups_loop room s' (gs ++ [hex_value ds 0]) ell
        | _ => None
        end
  end.

(** The end of parseIPv6: all text is used, and the ellipsis stands for at least one group. *)
Definition expand (s : string) (gs : list Z) (ell : option nat) : option Z :=
  if decide (s = "") then
    match ell with
    | None => if decide (length gs = 8%nat) then Some (of_fields 65536 gs) else None
    | Some e =>
        if decide (length gs < 8)%nat
        then Some (of_fields 65536 (take e gs ++ replicate (8 - length gs) 0 ++ drop e gs)) else None
    end
  else None.

Definition parse_groups (s : string) : option Z :=
  match s with
  | String ":"%char (String ":"%char "") => Some 0
  | String ":"%char (String ":"%char s') =>
      '(s, gs, ell) ← groups_loop 8 s' [] (Some 0%nat); expand s gs ell
  | _ => '(s, gs, ell) ← groups_loop 8 s [] None; expand s gs ell
  end.

Definition parseIPv6 (s : string) : option Addr :=
  match Cut s "%" with
  | Some (_, "") => None
  | Some (s, zone) => n ← parse_groups s; Some (V6 n zone)
  | None => n ← parse_groups s; Some (V6 n "")
  end.

(** What the first of [.], [:] and [%] says. *)
Fixpoint family (s : string) : option ascii :=
  match s with
  | "" => None
  | String c s => if bool_decide (c ∈ ["."%char; ":"%char; "%"%char]) then Some c else family s
  end.

Definition ParseAddr (s : string) : option Addr :=
  match family s with
  | Some "."%char => V4 <$> parseIPv4Fields s
  | Some ":"%char => parseIPv6 s
  | _ => None
  end.

Definition Is6 (a : Addr) : bool := match a with V6 _ _ => true | V4 _ => false end.

Definition BitLen (a : Addr) : Z := match a with V4 _ => 32 | V6 _ _ => 128 end.

Definition Is4In6 (n : Z) : bool := bool_decide (Z.shiftr n 32 = 65535).

Definition Unmap (a : Addr) : Addr :=
  match a with
  | V6 n _ => if Is4In6 n then V4 (n `mod` 2 ^ 32) else a
  | V4 _ => a
  end.

Definition withoutZone (a : Addr) : Addr := match a with V6 n _ => V6 n "" | V4 _ => a end.

Definition hexchar (d : Z) : ascii := ascii_of_N (Z.to_N (if d <? 10 then 48 + d else 87 + d)).

(** appendHex, for 16 bits. *)
Definition hex16 (g : Z) : string :=
  let d i := String (hexchar ((g / i) `mod` 16)) "" in
  (if g <? 4096 then "" else d 4096) +:+ (if g <? 256 then "" else d 256) +:+
  (if g <? 16 then "" else d 16) +:+ d 1.

(** The zeros at the head of a list. *)
Fixpoint zeros (gs : list Z) : nat :=
  match gs with 0 :: gs => S (zeros gs) | _ => O end.

(** The first longest run of at least two zero groups: where it starts and ends. *)
Fixpoint zero_run (i : nat) (gs : list Z) (best : nat * nat) : nat * nat :=
  match gs with
  | [] => best
  | _ :: gs' =>
      let l := zeros gs in
      let best := if decide (2 ≤ l ∧ best.2 - best.1 < l)%nat then (i, i + l)%nat else best in
      zero_run (S i) gs' best
  end.

Definition string6 (n : Z) : string :=
  let gs := fields 65536 8 n in
  let '(a, b) := zero_run 0 gs (0, 0)%nat in
  if decide (a = b) then Join (hex16 <$> gs) ":"
  else Join (hex16 <$> take a gs) ":" +:+ "::" +:+ Join (hex16 <$> drop b gs) ":".

Definition string4 (n : Z) : string := Join (pretty <$> fields 256 4 n) ".".

Definition zone_text (zone : string) : string := if decide (zone = "") then "" else "%" +:+ zone.

Definition Addr_String (a : Addr) : string :=
  match a with
  | V4 n => string4 n
  | V6 n zone => (if Is4In6 n then "::ffff:" +:+ string4 (n `mod` 2 ^ 32) else string6 n) +:+ zone_text zone
  end.

(** ** netip.Prefix *)

Record Prefix := MkPrefix { p_addr : Addr; p_bits : Z }.

#[export] Instance Prefix_eq_dec : EqDecision Prefix.
Proof. solve_decision. Defined.

Definition PrefixFrom (a : Addr) (bits : Z) : Prefix := MkPrefix (withoutZone a) bits.

Definition ParsePrefix (s : string) : option Prefix :=
  '(addr, bits) ← CutLast s "/"%char;
  a ← ParseAddr addr;
  if decide (withoutZone a = a) then
    if dec_plain bits && bool_decide (dec_value bits 0 <= BitLen a) then Some (PrefixFrom a (dec_value bits 0)) else None
  else None.

Definition Prefix_String (p : Prefix) : string := Addr_String (p_addr p) +:+ "/" +:+ pretty (p_bits p).

(** The address has no zone, is of the same family and agrees on the first bits. *)
Definition Prefix_Contains (p : Prefix) (a : Addr) : bool :=
  match p_addr p, a with
  | V4 n, V4 m => bool_decide (Z.shiftr (Z.lxor m n) (32 - p_bits p) = 0)
  | V6 n _, V6 m "" => bool_decide (Z.shiftr (Z.lxor m n) (128 - p_bits p) = 0)
  | _, _ => false
  end.

(** ** Package net *)

Definition IP : Type := list Z.

Definition v4InV6Prefix : list Z := [0; 0; 0; 0; 0; 0; 0; 0; 0; 0; 255; 255].

Definition As16 (a : Addr) : IP :=
  match a with V4 n => v4InV6Prefix ++ fields 256 4 n | V6 n _ => fields 256 16 n end.

(** ParseIP; none is nil. *)
Definition ParseIP (s : string) : option IP :=
  match ParseAddr s with
  | Some a => if decide (withoutZone a = a) then Some (As16 a) else None
  | None => None
  end.

Definition To4 (ip : IP) : option IP :=
  if decide (length ip = 4%nat) then Some ip
  else if decide (length ip = 16%nat ∧ take 12 ip = v4InV6Prefix) then Some (drop 12 ip) else None.

Definition at_ (ip : IP) (i : nat) : Z := nth i ip 0.

(** Equal: an IPv4 address and that address in IPv6 form are equal. *)
Definition IP_Equal (a b : IP) : bool :=
  if decide (length a = length b) then bool_decide (a = b)
  else if decide (length a = 4%nat ∧ length b = 16%nat) then bool_decide (b = v4InV6Prefix ++ a)
  else if decide (length a = 16%nat ∧ length b = 4%nat) then bool_decide (a = v4InV6Prefix ++ b)
  else false.

Definition IPv4zero : IP := v4InV6Prefix ++ [0; 0; 0; 0].
Definition IPv6unspecified : IP := replicate 16 0.
Definition IPv6loopback : IP := replicate 15 0 ++ [1].

Definition IsUnspecified (ip : IP) : bool := IP_Equal ip IPv4zero || IP_Equal ip IPv6unspecified.

Definition is16 (ip : IP) : bool := bool_decide (length ip = 16%nat).

Definition IsLoopback (ip : IP) : bool :=
  match To4 ip with Some ip4 => bool_decide (at_ ip4 0 = 127) | None => IP_Equal ip IPv6loopback end.

Definition IsMulticast (ip : IP) : bool :=
  match To4 ip with
  | Some ip4 => bool_decide (Z.land (at_ ip4 0) 240 = 224)
  | None => is16 ip && bool_decide (at_ ip 0 = 255)
  end.

Definition IsInterfaceLocalMulticast (ip : IP) : bool :=
  is16 ip && bool_decide (at_ ip 0 = 255 ∧ Z.land (at_ ip 1) 15 = 1).

Definition IsLinkLocalMulticast (ip : IP) : bool :=
  match To4 ip with
  | Some ip4 => bool_decide (at_ ip4 0 = 224 ∧ at_ ip4 1 = 0 ∧ at_ ip4 2 = 0)
  | None => is16 ip && bool_decide (at_ ip 0 = 255 ∧ Z.land (at_ ip 1) 15 = 2)
  end.

Definition IsLinkLocalUnicast (ip : IP) : bool :=
  match To4 ip with
  | Some ip4 => bool_decide (at_ ip4 0 = 169 ∧ at_ ip4 1 = 254)
  | None => is16 ip && bool_decide (at_ ip 0 = 254 ∧ Z.land (at_ ip 1) 192 = 128)
  end.

Record IPNet := MkIPNet { n_IP : IP; n_Mask : list Z }.

(** networkNumberAndMask and IPNet.Contains. *)
Definition networkNumberAndMask (n : IPNet) : option (IP * list Z) :=
  let ip := default (n_IP n) (To4 (n_IP n)) in
  let m := n_Mask n in
  if decide (length m = 4%nat) then if decide (length ip = 4%nat) then Some (ip, m) else None
  else if decide (length m = 16%nat) then
    if decide (length ip = 4%nat) then Some (ip, drop 12 m)
    else if decide (length ip = 16%nat) then Some (ip, m) else None
  else None.

(** CIDRMask: [bits] ones in [k] bytes. *)
Definition CIDRMask (bits : Z) (k : nat) : list Z :=
  fields 256 k (2 ^ (8 * Z.of_nat k) - 2 ^ (8 * Z.of_nat k - bits)).

(** ParseCIDR: the network of the address before the slash. *)
Definition ParseCIDR (s : string) : option IPNet :=
  p ← ParsePrefix s;
  let k := if Is6 (p_addr p) then 16%nat else 4%nat in
  let m := CIDRMask (p_bits p) k in
  let ip := match p_addr p with V4 n => fields 256 4 n | V6 n _ => fields 256 16 n end in
  Some (MkIPNet (zip_with Z.land ip m) m).

Definition IPNet_Contains (n : IPNet) (ip : IP) : bool :=
  match networkNumberAndMask n with
  | Some (nn, m) =>
      let x := default ip (To4 ip) in
      bool_decide (length x = length nn) &&
      forallb (fun '(a, (b, c)) => bool_decide (Z.land b c = Z.land a c)) (zip x (zip nn m))
  | None => false
  end.

(** SplitHostPort: host and port around the last colon; a host with colons is in brackets. *)
Definition SplitHostPort (s : string) : option (string * string) :=
  '(before, port) ← CutLast s ":"%char;
  match s with
  | String "["%char s' =>
      '(host, rest) ← Cut s' "]";
      if decide (rest = ":" +:+ port) then
        if has_byte "["%char host || has_byte "["%char port || has_byte "]"%char port then None else Some (host, port)
      else None
  | _ =>
      if has_byte ":"%char before || has_byte "["%char s || has_byte "]"%char s then None else Some (before, port)
  end.

Definition JoinHostPort (host port : string) : string :=
  if has_byte ":"%char host then "[" +:+ host +:+ "]:" +:+ port else host +:+ ":" +:+ port.
