(* ===== verification/NetIPFacts.v ===== *)
(** * NetIPFacts: addresses and prefixes are read back from their text

    [ParseAddr_String]: netip.ParseAddr reads every address from what String writes, whatever run of
    zeros it leaves out.  [ParsePrefix_String] is the same for prefixes. *)

From S2P Require Import Prelude GoString NetIP.
Local Open Scope Z_scope.

(** ** Text *)

Definition head_not (p : ascii → bool) (s : string) : Prop :=
  match s with "" => True | String c _ => p c = false end.

Lemma str_span_app (p : ascii → bool) (a b : string) :
  str_forallb p a = true → head_not p b → str_span p (a +:+ b) = (a, b).
Proof.
  induction a as [|c a IH]; cbn [str_forallb]; intros Ha Hb.
  - rewrite str_app_empty. destruct b as [|c b]; [done|]. cbn [head_not] in Hb. cbn [str_span]. by rewrite Hb.
  - apply andb_true_iff in Ha as [Hc Ha]. rewrite str_app_cons. cbn [str_span]. by rewrite Hc, IH.
Qed.

Lemma forallb_append (p : ascii → bool) (a b : string) :
  str_forallb p (a +:+ b) = str_forallb p a && str_forallb p b.
Proof. induction a as [|c a IH]; [done|]. rewrite str_app_cons. cbn [str_forallb]. by rewrite IH, andb_assoc. Qed.

Lemma forallb_weaken (p q : ascii → bool) (s : string) :
  (∀ c, p c = true → q c = true) → str_forallb p s = true → str_forallb q s = true.
Proof.
  intros H. induction s as [|c s IH]; [done|]. cbn [str_forallb]. rewrite !andb_true_iff. naive_solver.
Qed.

Lemma Join_cons (s : string) (l : list string) (sep : string) :
  Join (s :: l) sep = s +:+ (if decide (l = []) then "" else sep +:+ Join l sep).
Proof. destruct l; [cbn; by rewrite str_append_nil|done]. Qed.

Lemma forallb_Join (p : ascii → bool) (l : list string) (sep : string) :
  str_forallb p sep = true → Forall (fun s => str_forallb p s = true) l → str_forallb p (Join l sep) = true.
Proof.
  intros Hs. induction 1 as [|s l Hsl _ IH]; [done|]. rewrite Join_cons, forallb_append, Hsl.
  case_decide; [done|]. by rewrite forallb_append, Hs, IH.
Qed.

Lemma CutLast_app (c : ascii) (a b : string) : has_byte c b = false → CutLast (a +:+ String c b) c = Some (a, b).
Proof.
  unfold has_byte. rewrite negb_false_iff. intros Hb.
  assert (CutLast b c = None) as Hn.
  { induction b as [|d b IH]; [done|]. cbn [str_forallb] in Hb. apply andb_true_iff in Hb as [Hd Hb].
    cbn [CutLast]. rewrite IH by done. rewrite decide_False; [done|]. intros ->. unfold is_byte in Hd.
    by rewrite bool_decide_eq_true_2 in Hd. }
  induction a as [|d a IH].
  { rewrite str_app_empty. cbn [CutLast]. by rewrite Hn, decide_True. }
  rewrite str_app_cons. cbn [CutLast]. by rewrite IH.
Qed.

Lemma Cut_byte (c : ascii) (a b : string) :
  has_byte c a = false → Cut (a +:+ String c b) (String c "") = Some (a, b).
Proof.
  unfold has_byte. rewrite negb_false_iff. induction a as [|d a IH]; cbn [str_forallb]; intros Ha.
  - rewrite str_app_empty. cbn [Cut strip_prefix]. by rewrite decide_True.
  - apply andb_true_iff in Ha as [Hd Ha]. rewrite str_app_cons. cbn [Cut strip_prefix].
    rewrite decide_False; [|intros ->; unfold is_byte in Hd; by rewrite bool_decide_eq_true_2 in Hd].
    by rewrite IH.
Qed.

Lemma Cut_absent (c : ascii) (a : string) : has_byte c a = false → Cut a (String c "") = None.
Proof.
  unfold has_byte. rewrite negb_false_iff. induction a as [|d a IH]; cbn [str_forallb]; intros Ha; [done|].
  apply andb_true_iff in Ha as [Hd Ha]. cbn [Cut strip_prefix].
  rewrite decide_False; [|intros ->; unfold is_byte in Hd; by rewrite bool_decide_eq_true_2 in Hd].
  by rewrite IH.
Qed.

Lemma SplitByte_Join (c : ascii) (s : string) (l : list string) :
  Forall (fun s => has_byte c s = false) (s :: l) → SplitByte (Join (s :: l) (String c "")) c = s :: l.
Proof.
  revert s. induction l as [|s' l IH]; intros s Hs; apply Forall_cons in Hs as [Hs Hl].
  - cbn [Join]. unfold has_byte in Hs. rewrite negb_false_iff in Hs.
    induction s as [|d s IHs]; [done|]. cbn [str_forallb] in Hs. apply andb_true_iff in Hs as [Hd Hs].
    cbn [SplitByte]. rewrite decide_False; [by rewrite IHs|].
    intros ->. unfold is_byte in Hd. by rewrite bool_decide_eq_true_2 in Hd.
  - change (Join (s :: s' :: l) (String c "")) with (s +:+ String c (Join (s' :: l) (String c ""))).
    specialize (IH s' Hl). unfold has_byte in Hs. rewrite negb_false_iff in Hs.
    induction s as [|d s IHs].
    + rewrite str_app_empty. cbn [SplitByte]. by rewrite decide_True, IH.
    + cbn [str_forallb] in Hs. apply andb_true_iff in Hs as [Hd Hs]. rewrite str_app_cons. cbn [SplitByte].
      rewrite decide_False; [by rewrite IHs|].
      intros ->. unfold is_byte in Hd. by rewrite bool_decide_eq_true_2 in Hd.
Qed.

(** ** Fields of a number *)

Definition digits_of (b : Z) (l : list Z) : Prop := Forall (fun x => 0 <= x < b) l.

Lemma of_fields_app (b : Z) (l : list Z) (x : Z) : of_fields b (l ++ [x]) = of_fields b l * b + x.
Proof. unfold of_fields. by rewrite foldl_app. Qed.

Lemma fields_length (b : Z) (k : nat) (n : Z) : length (fields b k n) = k.
Proof. revert n. induction k as [|k IH]; intros n; [done|]. cbn. rewrite length_app, IH. cbn. lia. Qed.

Lemma fields_range (b : Z) (k : nat) (n : Z) : 0 < b → digits_of b (fields b k n).
Proof.
  intros Hb. revert n. induction k as [|k IH]; intros n; [constructor|]. cbn.
  apply Forall_app. split; [apply IH|]. constructor; [|constructor]. by apply Z.mod_pos_bound.
Qed.

Lemma of_fields_fields (b : Z) (k : nat) (n : Z) :
  1 < b → 0 <= n < b ^ Z.of_nat k → of_fields b (fields b k n) = n.
Proof.
  intros Hb. revert n. induction k as [|k IH]; intros n Hn.
  - cbn in *. lia.
  - cbn [fields]. rewrite of_fields_app, IH.
    + rewrite (Z.div_mod n b) at 3 by lia. ring.
    + replace (Z.of_nat (S k)) with (Z.succ (Z.of_nat k)) in Hn by lia. rewrite Z.pow_succ_r in Hn by lia.
      split; [apply Z.div_pos; lia|]. apply Z.div_lt_upper_bound; lia.
Qed.

(** ** Groups *)

Lemma hexchar_digit (d : Z) : 0 <= d < 16 → hex_digit (hexchar d) = Some d.
Proof.
  intros Hd. assert (forallb (fun d => bool_decide (hex_digit (hexchar d) = Some d)) (seqZ 0 16) = true) as H
    by (vm_compute; reflexivity).
  rewrite forallb_forall in H. specialize (H d). rewrite <- list_elem_of_In, elem_of_seqZ in H.
  specialize (H ltac:(lia)). by rewrite bool_decide_eq_true in H.
Qed.

Lemma hexchar_is_hex (d : Z) : 0 <= d < 16 → is_hex (hexchar d) = true.
Proof. intros Hd. unfold is_hex. rewrite hexchar_digit by done. by rewrite bool_decide_eq_true. Qed.

Lemma hex16_spec (g : Z) : 0 <= g < 65536 →
  str_forallb is_hex (hex16 g) = true ∧ hex16 g ≠ "" ∧ (String.length (hex16 g) ≤ 4)%nat ∧ hex_value (hex16 g) 0 = g.
Proof.
  intros Hg.
  assert (∀ i, 0 <= (g / i) `mod` 16 < 16) as Hd by (intros i; apply Z.mod_pos_bound; lia).
  assert (g / 4096 = g / 16 / 16 / 16 ∧ g / 256 = g / 16 / 16 ∧ g / 1 = g) as (E3 & E2 & E1)
    by (rewrite !Z.div_div, Z.div_1_r by lia; done).
  unfold hex16. destruct (Z.ltb_spec g 4096), (Z.ltb_spec g 256), (Z.ltb_spec g 16); try lia;
    rewrite ?str_app_empty, ?str_app_cons, ?str_app_empty; cbn [str_forallb String.length hex_value];
    rewrite !hexchar_is_hex, !hexchar_digit by apply Hd; cbn [default]; split_and!; try done; try lia;
    unfold id; rewrite ?E3, ?E2, ?E1; clear Hd E1 E2 E3; Z.to_euclidean_division_equations; lia.
Qed.

Definition octet_ok (x : Z) : bool :=
  bool_decide (octet (pretty x) = Some x) && str_forallb is_dec (pretty x) && bool_decide (pretty x ≠ "") &&
  bool_decide (String.length (pretty x) ≤ 4)%nat.

Lemma octets_checked : forallb octet_ok (seqZ 0 256) = true.
Proof. vm_compute. reflexivity. Qed.

Lemma octet_pretty (x : Z) : 0 <= x < 256 →
  octet (pretty x) = Some x ∧ str_forallb is_dec (pretty x) = true ∧ pretty x ≠ "" ∧
  (String.length (pretty x) ≤ 4)%nat.
Proof.
  intros Hx. pose proof octets_checked as H. rewrite forallb_forall in H. specialize (H x).
  rewrite <- list_elem_of_In, elem_of_seqZ in H. specialize (H ltac:(lia)).
  unfold octet_ok in H. by rewrite !andb_true_iff, !bool_decide_eq_true in H; destruct H as [[[??]?]?].
Qed.

Lemma dec_hex (c : ascii) : is_dec c = true → is_hex c = true.
Proof.
  unfold is_dec, is_hex, hex_digit. intros ->. by rewrite bool_decide_eq_true.
Qed.

Lemma dec_byte (s : string) : str_forallb is_dec s = true → has_byte "."%char s = false.
Proof.
  unfold has_byte. intros H. rewrite negb_false_iff. revert H. apply forallb_weaken.
  intros c Hc. unfold is_byte. rewrite bool_decide_eq_false_2; [done|]. by intros ->.
Qed.

Definition groups_text (gs : list Z) : string := Join (hex16 <$> gs) ":".

Lemma groups_text_cons (g : Z) (gs : list Z) :
  groups_text (g :: gs) = hex16 g +:+ (if decide (gs = []) then "" else ":" +:+ groups_text gs).
Proof.
  unfold groups_text. rewrite fmap_cons, Join_cons.
  destruct gs; [by rewrite !decide_True|by rewrite !decide_False].
Qed.

(** A group at the head of the text: what the loop sees. *)
Lemma group_span (g : Z) (rest : string) : 0 <= g < 65536 → head_not is_hex rest →
  str_span is_hex (hex16 g +:+ rest) = (hex16 g, rest) ∧
  bool_decide (hex16 g = "") || bool_decide (4 < String.length (hex16 g))%nat = false ∧ hex_value (hex16 g) 0 = g.
Proof.
  intros Hg Hr. destruct (hex16_spec g Hg) as (Hh & Hne & Hl & Hv). split_and!; [by apply str_span_app| |done].
  rewrite orb_false_iff, !bool_decide_eq_false. split; [done|lia].
Qed.

(** The text of groups, and then nothing, or the ellipsis and more. *)
Lemma groups_loop_text (gs acc : list Z) (room : nat) (ell : option nat) :
  digits_of 65536 gs → gs ≠ [] → (length gs ≤ room)%nat →
  groups_loop room (groups_text gs) acc ell = Some ("", acc ++ gs, ell).
Proof.
  revert acc room. induction gs as [|g gs IH]; intros acc room Hg Hne Hr; [done|].
  apply Forall_cons in Hg as [Hg Hgs]. destruct room as [|room]; [cbn in Hr; lia|].
  rewrite groups_text_cons. destruct (decide (gs = [])) as [->|Hgs'].
  - destruct (group_span g "" Hg I) as (E1 & E2 & E3). cbn [groups_loop].
    rewrite E1, E2. by rewrite E3.
  - destruct (group_span g (":" +:+ groups_text gs) Hg eq_refl) as (E1 & E2 & E3). cbn [groups_loop].
    rewrite E1, E2, E3. rewrite str_app_cons, str_app_empty.
    assert (∃ c s, groups_text gs = String c s ∧ is_hex c = true) as (c & s & Hs & Hc).
    { destruct gs as [|g' gs]; [done|]. apply Forall_cons in Hgs as [Hg' _].
      destruct (hex16_spec g' Hg') as (Hh & Hn & _). rewrite groups_text_cons.
      destruct (hex16 g') as [|c s]; [done|]. rewrite str_app_cons. cbn [str_forallb] in Hh.
      apply andb_true_iff in Hh as [Hh _]. eauto. }
    specialize (IH (acc ++ [g]) room Hgs Hgs' ltac:(cbn in Hr; lia)). rewrite <- app_assoc in IH. cbn [app] in IH.
    rewrite <- IH, Hs. clear -Hc. by destruct c as [[] [] [] [] [] [] [] []].
Qed.

Lemma groups_text_head (gs : list Z) (rest : string) : digits_of 65536 gs → gs ≠ [] →
  ∃ c s, groups_text gs +:+ rest = String c s ∧ is_hex c = true.
Proof.
  intros Hg Hne. destruct gs as [|g gs]; [done|]. apply Forall_cons in Hg as [Hg _].
  destruct (hex16_spec g Hg) as (Hh & Hn & _). rewrite groups_text_cons.
  destruct (hex16 g) as [|c s]; [done|]. rewrite !str_app_cons. cbn [str_forallb] in Hh.
  apply andb_true_iff in Hh as [Hh _]. eauto.
Qed.

Lemma groups_loop_ellipsis (gs acc : list Z) (room : nat) (tail : string) :
  digits_of 65536 gs → gs ≠ [] → (length gs ≤ room)%nat →
  groups_loop room (groups_text gs +:+ "::" +:+ tail) acc None =
    if decide (tail = "") then Some ("", acc ++ gs, Some (length (acc ++ gs)))
    else groups_loop (room - length gs) tail (acc ++ gs) (Some (length (acc ++ gs))).
Proof.
  revert acc room. induction gs as [|g gs IH]; intros acc room Hg Hne Hr; [done|].
  apply Forall_cons in Hg as [Hg Hgs]. destruct room as [|room]; [cbn in Hr; lia|].
  rewrite groups_text_cons. destruct (decide (gs = [])) as [->|Hgs'].
  - rewrite str_append_nil.
    destruct (group_span g ("::" +:+ tail) Hg eq_refl) as (E1 & E2 & E3). cbn [groups_loop].
    rewrite E1, E2, E3. rewrite !str_app_cons, str_app_empty. cbn [length].
    by replace (S room - 1)%nat with room by lia.
  - rewrite !str_append_assoc.
    destruct (group_span g (":" +:+ groups_text gs +:+ "::" +:+ tail) Hg eq_refl) as (E1 & E2 & E3).
    cbn [groups_loop]. rewrite E1, E2, E3. rewrite str_app_cons, str_app_empty.
    destruct (groups_text_head gs ("::" +:+ tail) Hgs Hgs') as (c & s & Hs & Hc).
    specialize (IH (acc ++ [g]) room Hgs Hgs' ltac:(cbn in Hr; lia)). rewrite <- app_assoc in IH. cbn [app] in IH.
    cbn [length Nat.sub]. rewrite <- IH, Hs. clear -Hc. by destruct c as [[] [] [] [] [] [] [] []].
Qed.

(** ** The run of zeros that String leaves out *)

Lemma zeros_replicate (gs : list Z) : gs = replicate (zeros gs) 0 ++ drop (zeros gs) gs.
Proof. induction gs as [|g gs IH]; [done|]. destruct g; [|done..]. cbn [zeros]. cbn. by rewrite <- IH. Qed.

Definition run_ok (all : list Z) (r : nat * nat) : Prop :=
  r.1 = r.2 ∨ (r.1 + 2 ≤ r.2)%nat ∧ all = take r.1 all ++ replicate (r.2 - r.1) 0 ++ drop r.2 all ∧
              (r.2 ≤ length all)%nat.

Lemma zero_run_ok (pre gs : list Z) (best : nat * nat) :
  run_ok (pre ++ gs) best → run_ok (pre ++ gs) (zero_run (length pre) gs best).
Proof.
  revert pre best. induction gs as [|g gs IH]; intros pre best Hb; [done|]. cbn [zero_run].
  replace (S (length pre)) with (length (pre ++ [g])) by (rewrite length_app; cbn; lia).
  replace (pre ++ g :: gs) with ((pre ++ [g]) ++ gs) by (by rewrite <- app_assoc).
  apply IH. rewrite <- app_assoc. cbn [app]. case_decide as Hl; [|done]. right. cbn [fst snd].
  pose proof (zeros_replicate (g :: gs)) as Hz.
  assert (length (g :: gs) = zeros (g :: gs) + length (drop (zeros (g :: gs)) (g :: gs)))%nat as Hlen
    by (rewrite Hz at 1; by rewrite length_app, length_replicate).
  split_and!; [lia| |rewrite length_app; lia].
  rewrite take_app_length, drop_app_add. replace (length pre + _ - _)%nat with (zeros (g :: gs)) by lia.
  by rewrite <- Hz.
Qed.

Lemma parse_groups_hex (c : ascii) (s : string) : is_hex c = true →
  parse_groups (String c s) = ('(s, gs, ell) ← groups_loop 8 (String c s) [] None; expand s gs ell).
Proof. intros Hc. unfold parse_groups. clear -Hc. by destruct c as [[] [] [] [] [] [] [] []]. Qed.

Lemma parse_groups_ell (s : string) : s ≠ "" →
  parse_groups ("::" +:+ s) = ('(s, gs, ell) ← groups_loop 8 s [] (Some 0%nat); expand s gs ell).
Proof. intros Hs. unfold parse_groups. rewrite !str_app_cons, str_app_empty. by destruct s. Qed.

Lemma parse_string6 (n : Z) : 0 <= n < 2 ^ 128 → parse_groups (string6 n) = Some n.
Proof.
  intros Hn. pose proof (of_fields_fields 65536 8 n ltac:(lia) Hn) as Hof.
  pose proof (fields_range 65536 8 n ltac:(lia)) as Hr. pose proof (fields_length 65536 8 n) as Hl.
  unfold string6. set (gs := fields 65536 8 n) in *.
  pose proof (zero_run_ok [] gs (0, 0)%nat (or_introl eq_refl)) as Hrun. cbn [app length] in Hrun.
  destruct (zero_run 0 gs (0, 0)%nat) as [a b]. unfold run_ok in Hrun. cbn [fst snd] in Hrun.
  change (Join (hex16 <$> gs) ":") with (groups_text gs).
  change (Join (hex16 <$> take a gs) ":") with (groups_text (take a gs)).
  change (Join (hex16 <$> drop b gs) ":") with (groups_text (drop b gs)).
  assert (gs ≠ []) as Hne by (intros E; by rewrite E in Hl).
  destruct (decide (a = b)) as [_|Hab].
  { destruct (groups_text_head gs "" Hr Hne) as (c & s & Hs & Hc). rewrite str_append_nil in Hs.
    rewrite Hs, parse_groups_hex, <- Hs, groups_loop_text by (done || lia).
    cbn [mbind option_bind app]. unfold expand. by rewrite Hl, !decide_True, Hof by done. }
  destruct Hrun as [?|(Hab2 & Hgs & Hb)]; [done|].
  assert (digits_of 65536 (take a gs)) as Hra by (by apply Forall_take).
  assert (digits_of 65536 (drop b gs)) as Hrb by (by apply Forall_drop).
  assert (length (take a gs) = a ∧ length (drop b gs) = 8 - b)%nat as [La Lb]
    by (rewrite length_take, length_drop; lia).
  assert (∀ ds, take a gs ++ drop b gs = ds → expand "" ds (Some a) = Some n) as Hexp.
  { intros ds <-. unfold expand. rewrite decide_True by done. rewrite length_app, La, Lb.
    rewrite decide_True by lia. rewrite take_app_le, drop_app_ge, La, Nat.sub_diag, drop_0 by lia.
    rewrite take_take, Nat.min_id. replace (8 - (a + (8 - b)))%nat with (b - a)%nat by lia. by rewrite <- Hgs, Hof. }
  destruct a as [|a].
  - cbn [take fmap]. rewrite str_app_empty. destruct (decide (drop b gs = [])) as [Hd|Hd].
    + rewrite Hd. cbn. rewrite Hd, take_0, app_nil_r, app_nil_l in Hgs. rewrite <- Hof, Hgs.
      assert (b = 8)%nat as -> by (rewrite Hd in Lb; cbn in Lb; lia). done.
    + destruct (groups_text_head (drop b gs) "" Hrb Hd) as (c & s & Hs & Hc). rewrite str_append_nil in Hs.
      rewrite parse_groups_ell by (by rewrite Hs). rewrite groups_loop_text by (done || lia).
      cbn [mbind option_bind]. by apply Hexp.
  - assert (take (S a) gs ≠ []) as Hta by (intros E; by rewrite E in La).
    destruct (groups_text_head (take (S a) gs) ("::" +:+ groups_text (drop b gs)) Hra Hta) as (c & s & Hs & Hc).
    rewrite Hs, parse_groups_hex, <- Hs, groups_loop_ellipsis by (done || lia). rewrite app_nil_l, La.
    destruct (decide (drop b gs = [])) as [Hd|Hd].
    + rewrite Hd. cbn [groups_text fmap list_fmap Join mbind option_bind]. apply Hexp. by rewrite Hd, app_nil_r.
    + destruct (groups_text_head (drop b gs) "" Hrb Hd) as (c' & s' & Hs' & _). rewrite str_append_nil in Hs'.
      rewrite decide_False by (by rewrite Hs'). rewrite groups_loop_text by (done || lia).
      cbn [mbind option_bind]. by apply Hexp.
Qed.

(** ** IPv4 *)

Lemma string4_octets (n : Z) : 0 <= n < 2 ^ 32 →
  ∃ a b c d, fields 256 4 n = [a; b; c; d] ∧ digits_of 256 [a; b; c; d] ∧ of_fields 256 [a; b; c; d] = n.
Proof.
  intros Hn. pose proof (fields_length 256 4 n) as Hl. pose proof (fields_range 256 4 n ltac:(lia)) as Hr.
  pose proof (of_fields_fields 256 4 n ltac:(lia) Hn) as Ho.
  destruct (fields 256 4 n) as [|a [|b [|c [|d [|]]]]]; try done. by exists a, b, c, d.
Qed.

Lemma parse_string4 (n : Z) : 0 <= n < 2 ^ 32 → parseIPv4Fields (string4 n) = Some n.
Proof.
  intros Hn. destruct (string4_octets n Hn) as (a & b & c & d & Hf & Hr & Ho).
  unfold string4, parseIPv4Fields. rewrite Hf. cbn [fmap list_fmap]. rewrite SplitByte_Join.
  - apply Forall_cons in Hr as [Ha Hr]. apply Forall_cons in Hr as [Hb Hr]. apply Forall_cons in Hr as [Hc Hr].
    apply Forall_cons in Hr as [Hd _].
    destruct (octet_pretty a Ha) as [Ea _], (octet_pretty b Hb) as [Eb _], (octet_pretty c Hc) as [Ec _],
      (octet_pretty d Hd) as [Ed _].
    cbn [mapM option_bind mbind]. rewrite Ea, Eb, Ec, Ed. cbn. by rewrite <- Ho.
  - change [pretty b; pretty c; pretty d] with (pretty <$> [b; c; d]). rewrite <- (fmap_cons pretty a).
    apply Forall_fmap. eapply Forall_impl; [exact Hr|]. intros x Hx. apply dec_byte.
    by destruct (octet_pretty x Hx) as (_ & ? & _).
Qed.

(** The text of an IPv4 address begins with at most four digits and a dot. *)
Lemma string4_head (n : Z) : 0 <= n < 2 ^ 32 →
  ∃ p s, string4 n = p +:+ String "."%char s ∧ str_forallb is_dec p = true ∧ p ≠ "" ∧ (String.length p ≤ 4)%nat.
Proof.
  intros Hn. destruct (string4_octets n Hn) as (a & b & c & d & Hf & Hr & Ho). unfold string4. rewrite Hf.
  apply Forall_cons in Hr as [Ha _]. destruct (octet_pretty a Ha) as (_ & Hd & Hne & Hl).
  exists (pretty a), (Join (pretty <$> [b; c; d]) "."). by split_and!.
Qed.

Lemma family_app (p : ascii → bool) (a s : string) (c : ascii) :
  (∀ d, p d = true → d ∉ ["."%char; ":"%char; "%"%char]) → str_forallb p a = true →
  c ∈ ["."%char; ":"%char; "%"%char] → family (a +:+ String c s) = Some c.
Proof.
  intros Hp Ha Hc. induction a as [|d a IH].
  - rewrite str_app_empty. cbn [family]. by rewrite bool_decide_eq_true_2.
  - cbn [str_forallb] in Ha. apply andb_true_iff in Ha as [Hd Ha]. rewrite str_app_cons. cbn [family].
    rewrite bool_decide_eq_false_2 by (by apply Hp). by apply IH.
Qed.

Lemma hex_not_mark (d : ascii) : is_hex d = true → d ∉ ["."%char; ":"%char; "%"%char].
Proof. intros Hd Hin. assert (d = "."%char ∨ d = ":"%char ∨ d = "%"%char) as [-> | [-> | ->]] by set_solver; done. Qed.

(** ** IPv4 addresses in IPv6 form *)

Lemma groups_loop_colon (room : nat) (g : Z) (c : ascii) (s : string) (gs : list Z) (ell : option nat) :
  0 <= g < 65536 → is_hex c = true →
  groups_loop (S room) (hex16 g +:+ String ":"%char (String c s)) gs ell = groups_loop room (String c s) (gs ++ [g]) ell.
Proof.
  intros Hg Hc. destruct (group_span g (String ":"%char (String c s)) Hg eq_refl) as (E1 & E2 & E3).
  cbn [groups_loop]. rewrite E1, E2, E3. clear -Hc. by destruct c as [[] [] [] [] [] [] [] []].
Qed.

Lemma groups_loop_v4 (room : nat) (m : Z) (gs : list Z) (e : nat) :
  0 <= m < 2 ^ 32 → (length gs ≤ 6)%nat →
  groups_loop (S room) (string4 m) gs (Some e) = Some ("", gs ++ [m / 65536; m `mod` 65536], Some e).
Proof.
  intros Hm Hgs. destruct (string4_head m Hm) as (p & s & Hs & Hd & Hne & Hl). pose proof (parse_string4 m Hm) as Hp.
  cbn [groups_loop]. rewrite Hs, str_span_app; [|by eapply forallb_weaken; [apply dec_hex|]|done].
  rewrite (bool_decide_eq_false_2 (p = "")), (bool_decide_eq_false_2 (4 < _)%nat) by (done || lia). cbn [orb].
  rewrite (bool_decide_eq_false_2 (Some e = None)), (bool_decide_eq_false_2 (6 < _)%nat) by (done || lia).
  cbn [andb orb]. by rewrite <- Hs, Hp.
Qed.

Lemma parse_mapped (n : Z) : 0 <= n < 2 ^ 128 → Is4In6 n = true →
  parse_groups ("::ffff:" +:+ string4 (n `mod` 2 ^ 32)) = Some n.
Proof.
  intros Hn Hm. unfold Is4In6 in Hm. rewrite bool_decide_eq_true, Z.shiftr_div_pow2 in Hm by lia.
  set (m := n `mod` 2 ^ 32). assert (0 <= m < 2 ^ 32) as Hr by (apply Z.mod_pos_bound; lia).
  assert (n = 65535 * 2 ^ 32 + m) as Hnm by (rewrite <- Hm; unfold m; rewrite Z.mul_comm; apply Z.div_mod; lia).
  assert ("::ffff:" +:+ string4 m = "::" +:+ ("ffff" +:+ String ":"%char (string4 m))) as ->
    by (by generalize (string4 m)).
  rewrite parse_groups_ell by done. assert ("ffff" = hex16 65535) as -> by (vm_compute; reflexivity).
  destruct (string4_head m Hr) as (p & s & Hs & Hd & Hne & Hl).
  assert (∃ c s', string4 m = String c s' ∧ is_hex c = true) as (c & s' & Hs' & Hc).
  { rewrite Hs. destruct p as [|c p]; [done|]. cbn [str_forallb] in Hd. apply andb_true_iff in Hd as [Hd _].
    rewrite str_app_cons. eauto using dec_hex. }
  rewrite Hs', groups_loop_colon, <- Hs', groups_loop_v4 by (done || cbn; lia).
  cbn [mbind option_bind app]. unfold expand. rewrite !decide_True by (done || cbn; lia).
  f_equal. cbn -[Z.div Z.modulo Z.pow]. rewrite Hnm. clear -Hr. Z.to_euclidean_division_equations. lia.
Qed.

(** ** IPv6 and its zone *)

(** The characters of an address without its zone. *)
Definition plain (c : ascii) : bool := is_hex c || is_byte c ":"%char || is_byte c "."%char.

Lemma plain_no_percent (s : string) : str_forallb plain s = true → has_byte "%"%char s = false.
Proof. unfold has_byte. intros H. rewrite negb_false_iff. revert H. apply forallb_weaken. by intros [[] [] [] [] [] [] [] []]. Qed.

Lemma plain_no_slash (s : string) : str_forallb plain s = true → has_byte "/"%char s = false.
Proof. unfold has_byte. intros H. rewrite negb_false_iff. revert H. apply forallb_weaken. by intros [[] [] [] [] [] [] [] []]. Qed.

Lemma hex_plain (s : string) : str_forallb is_hex s = true → str_forallb plain s = true.
Proof. apply forallb_weaken. intros c Hc. unfold plain. by rewrite Hc. Qed.

Lemma groups_text_plain (gs : list Z) : digits_of 65536 gs → str_forallb plain (groups_text gs) = true.
Proof.
  intros Hg. apply forallb_Join; [done|]. apply Forall_fmap. eapply Forall_impl; [exact Hg|].
  intros g Hr. apply hex_plain. by destruct (hex16_spec g Hr).
Qed.

Lemma string4_plain (n : Z) : 0 <= n < 2 ^ 32 → str_forallb plain (string4 n) = true.
Proof.
  intros Hn. apply forallb_Join; [done|]. apply Forall_fmap. eapply Forall_impl; [apply (fields_range 256 4 n); lia|].
  intros x Hx. apply hex_plain. destruct (octet_pretty x Hx) as (_ & Hd & _). revert Hd. apply forallb_weaken, dec_hex.
Qed.

(** The digits before the first colon. *)
Definition colon_first (s : string) : Prop := ∃ p s', s = p +:+ String ":"%char s' ∧ str_forallb is_hex p = true.

Lemma colon_first_app (s t : string) : colon_first s → colon_first (s +:+ t).
Proof. intros (p & s' & -> & Hp). exists p, (s' +:+ t). split; [|done]. by rewrite str_append_assoc. Qed.

Lemma groups_text_colon (gs : list Z) (t : string) : digits_of 65536 gs → gs ≠ [] →
  (2 ≤ length gs)%nat ∨ (∃ t', t = String ":"%char t') → colon_first (groups_text gs +:+ t).
Proof.
  intros Hg Hne Ht. destruct gs as [|g gs]; [done|]. apply Forall_cons in Hg as [Hg _].
  destruct (hex16_spec g Hg) as [Hh _]. rewrite groups_text_cons. destruct gs as [|g' gs].
  - destruct Ht as [Hl|[t' ->]]; [cbn in Hl; lia|]. rewrite decide_True, str_append_nil by done. by exists (hex16 g), t'.
  - rewrite decide_False by done. exists (hex16 g), (groups_text (g' :: gs) +:+ t). split; [|done].
    by rewrite !str_append_assoc.
Qed.

Lemma string6_shape (n : Z) : 0 <= n < 2 ^ 128 → colon_first (string6 n) ∧ str_forallb plain (string6 n) = true.
Proof.
  intros Hn. pose proof (fields_range 65536 8 n ltac:(lia)) as Hr. pose proof (fields_length 65536 8 n) as Hl.
  unfold string6. set (gs := fields 65536 8 n) in *.
  change (Join (hex16 <$> gs) ":") with (groups_text gs). destruct (zero_run 0 gs (0, 0)%nat) as [a b].
  change (Join (hex16 <$> take a gs) ":") with (groups_text (take a gs)).
  change (Join (hex16 <$> drop b gs) ":") with (groups_text (drop b gs)).
  destruct (decide (a = b)) as [_|_].
  - split; [|by apply groups_text_plain]. rewrite <- (str_append_nil (groups_text gs)).
    apply groups_text_colon; [done| |left; lia]. intros E. by rewrite E in Hl.
  - rewrite !forallb_append, !groups_text_plain by (by apply Forall_take || by apply Forall_drop). split; [|done].
    destruct (decide (take a gs = [])) as [->|Hne].
    + exists "", (":" +:+ groups_text (drop b gs)). done.
    + apply groups_text_colon; [by apply Forall_take|done|right; eauto].
Qed.

Definition valid_addr (a : Addr) : Prop :=
  match a with V4 n => 0 <= n < 2 ^ 32 | V6 n _ => 0 <= n < 2 ^ 128 end.

Lemma parse_zone (body zone : string) (n : Z) :
  colon_first body → str_forallb plain body = true → parse_groups body = Some n →
  ParseAddr (body +:+ zone_text zone) = Some (V6 n zone).
Proof.
  intros Hc Hb Hp. unfold ParseAddr. destruct (colon_first_app body (zone_text zone) Hc) as (p & s' & E & Hh).
  rewrite E, (family_app is_hex p s' ":"%char hex_not_mark Hh) by set_solver. rewrite <- E.
  unfold parseIPv6, zone_text. pose proof (plain_no_percent _ Hb) as Hn.
  destruct (decide (zone = "")) as [->|Hz]; [rewrite str_append_nil, Cut_absent by done; by rewrite Hp|].
  change ("%" +:+ zone) with (String "%"%char zone). rewrite Cut_byte by done.
  destruct zone as [|c z]; [done|]. by rewrite Hp.
Qed.

(** Every address, with any zone, is read back from its text. *)
Lemma ParseAddr_String (a : Addr) : valid_addr a → ParseAddr (Addr_String a) = Some a.
Proof.
  destruct a as [n|n zone]; intros Ha; cbn [valid_addr Addr_String] in *.
  - destruct (string4_head n Ha) as (p & s & Hs & Hd & _). unfold ParseAddr. rewrite Hs.
    rewrite (family_app is_dec p s "."%char) by (done || set_solver || eauto using dec_hex, hex_not_mark).
    by rewrite <- Hs, (parse_string4 n Ha).
  - destruct (Is4In6 n) eqn:Hm.
    + apply parse_zone; [by exists "", (":ffff:" +:+ string4 (n `mod` 2 ^ 32))| |by apply parse_mapped].
      rewrite forallb_append, string4_plain; [done|]. apply Z.mod_pos_bound. lia.
    + destruct (string6_shape n Ha). apply parse_zone; [done..|by apply parse_string6].
Qed.

(** ** What is read is an address *)

Lemma between_true (lo r hi : Z) : between lo r hi = true ↔ lo <= r <= hi.
Proof. unfold between. by rewrite andb_true_iff, !bool_decide_eq_true. Qed.

Lemma of_fields_range (b : Z) (l : list Z) : 0 < b → digits_of b l → 0 <= of_fields b l < b ^ Z.of_nat (length l).
Proof.
  intros Hb. induction l as [|x l IH] using rev_ind; intros Hl; [cbn; lia|].
  apply Forall_app in Hl as [Hl Hx]. apply Forall_cons in Hx as [Hx _]. specialize (IH Hl).
  rewrite of_fields_app, length_app. cbn [length].
  replace (Z.of_nat (length l + 1)) with (Z.succ (Z.of_nat (length l))) by lia. rewrite Z.pow_succ_r by lia. nia.
Qed.

Lemma dec_value_nonneg (s : string) (acc : Z) : str_forallb is_dec s = true → 0 <= acc → 0 <= dec_value s acc.
Proof.
  revert acc. induction s as [|c s IH]; intros acc Hs Ha; [done|]. cbn [str_forallb] in Hs.
  apply andb_true_iff in Hs as [Hc Hs]. cbn [dec_value]. apply IH; [done|].
  apply between_true in Hc. lia.
Qed.

Lemma octet_range (s : string) (x : Z) : octet s = Some x → 0 <= x < 256.
Proof.
  unfold octet. destruct (dec_plain s) eqn:Ed; [|done]. case_bool_decide; [|done]. intros [= <-].
  unfold dec_plain in Ed. apply andb_true_iff in Ed as [Hs _]. pose proof (dec_value_nonneg s 0 Hs). lia.
Qed.

Lemma parseIPv4Fields_range (s : string) (n : Z) : parseIPv4Fields s = Some n → 0 <= n < 2 ^ 32.
Proof.
  unfold parseIPv4Fields. destruct (SplitByte s "."%char) as [|a [|b [|c [|d [|]]]]]; try done.
  intros (l & Hl & [= <-])%bind_Some. pose proof (length_mapM _ _ _ Hl) as Hlen. cbn in Hlen.
  change (2 ^ 32) with (256 ^ Z.of_nat 4). rewrite Hlen. apply of_fields_range; [lia|].
  apply mapM_Some_1 in Hl. clear -Hl. induction Hl; constructor; eauto using octet_range.
Qed.

Lemma hex_value_range (s : string) (acc : Z) : 0 <= acc →
  0 <= hex_value s acc < (acc + 1) * 16 ^ Z.of_nat (String.length s).
Proof.
  revert acc. induction s as [|c s IH]; intros acc Ha; [cbn; lia|]. cbn [hex_value String.length].
  assert (0 <= default 0 (hex_digit c) < 16) as Hd.
  { unfold hex_digit. repeat case_match; rewrite ?between_true in *; cbn; unfold id; lia. }
  specialize (IH (acc * 16 + default 0 (hex_digit c)) ltac:(lia)).
  replace (Z.of_nat (S (String.length s))) with (Z.succ (Z.of_nat (String.length s))) by lia.
  rewrite Z.pow_succ_r by lia. assert (0 < 16 ^ Z.of_nat (String.length s)) by (apply Z.pow_pos_nonneg; lia). nia.
Qed.

Lemma group_range (s : string) : (String.length s ≤ 4)%nat → 0 <= hex_value s 0 < 65536.
Proof.
  intros Hl. destruct (hex_value_range s 0 ltac:(lia)) as [H1 H2]. split; [done|].
  assert (16 ^ Z.of_nat (String.length s) <= 16 ^ 4) by (apply Z.pow_le_mono_r; lia). lia.
Qed.

Lemma groups_loop_range (room : nat) (s s' : string) (gs gs' : list Z) (ell ell' : option nat) :
  groups_loop room s gs ell = Some (s', gs', ell') → digits_of 65536 gs → digits_of 65536 gs'.
Proof.
  revert s gs ell. induction room as [|room IH]; intros s gs ell H Hg; [by injection H as <- <- <-|].
  cbn [groups_loop] in H. destruct (str_span is_hex s) as [ds rest].
  destruct (bool_decide (ds = "") || _) eqn:Eb; [done|]. apply orb_false_iff in Eb as [_ Eb].
  rewrite bool_decide_eq_false in Eb. pose proof (group_range ds ltac:(lia)) as Hd.
  assert (digits_of 65536 (gs ++ [hex_value ds 0])) as Hg1 by (apply Forall_app; split; [done|by constructor]).
  repeat case_match; simplify_eq; eauto.
  apply bind_Some in H as (n & Hn & [= <- <- <-]). apply parseIPv4Fields_range in Hn.
  apply Forall_app. split; [done|]. repeat constructor; Z.to_euclidean_division_equations; lia.
Qed.

Lemma expand_range (s : string) (gs : list Z) (ell : option nat) (n : Z) :
  digits_of 65536 gs → expand s gs ell = Some n → 0 <= n < 2 ^ 128.
Proof.
  intros Hg. unfold expand. case_decide; [|done]. change (2 ^ 128) with (65536 ^ Z.of_nat 8).
  destruct ell as [e|]; case_decide as Hl; try done; intros [= <-]; [|rewrite <- Hl; by apply of_fields_range].
  set (l := take e gs ++ replicate (8 - length gs) 0 ++ drop e gs).
  assert (length l = 8%nat) as <- by (unfold l; rewrite !length_app, length_replicate, length_take, length_drop; lia).
  apply of_fields_range; [lia|]. unfold digits_of, l. rewrite !Forall_app. split_and!; [by apply Forall_take| |by apply Forall_drop].
  apply Forall_replicate. lia.
Qed.

Lemma parse_groups_range (s : string) (n : Z) : parse_groups s = Some n → 0 <= n < 2 ^ 128.
Proof.
  assert (∀ s ell, ('(s, gs, ell) ← groups_loop 8 s [] ell; expand s gs ell) = Some n → 0 <= n < 2 ^ 128) as H.
  { intros t ell ([[t' gs] ell'] & Hl & He)%bind_Some. eapply expand_range; [|exact He].
    by eapply groups_loop_range; [exact Hl|constructor]. }
  unfold parse_groups. repeat case_match; try apply H. intros [= <-]. lia.
Qed.

Lemma ParseAddr_valid (s : string) (a : Addr) : ParseAddr s = Some a → valid_addr a.
Proof.
  unfold ParseAddr, parseIPv6. repeat case_match; try done.
  1: by intros (n & Hn%parseIPv4Fields_range & ->)%fmap_Some.
  all: try (intros (n & Hn%parse_groups_range & [= <-])%bind_Some; done).
Qed.

(** ** Prefixes *)

Definition valid_prefix (p : Prefix) : Prop :=
  valid_addr (p_addr p) ∧ withoutZone (p_addr p) = p_addr p ∧ 0 <= p_bits p <= BitLen (p_addr p).

Lemma bits_text (b : Z) : 0 <= b <= 128 →
  dec_plain (pretty b) = true ∧ dec_value (pretty b) 0 = b ∧ has_byte "/"%char (pretty b) = false.
Proof.
  intros Hb. assert (forallb (fun b => dec_plain (pretty b) && bool_decide (dec_value (pretty b) 0 = b) &&
    negb (has_byte "/"%char (pretty b))) (seqZ 0 129) = true) as H by (vm_compute; reflexivity).
  rewrite forallb_forall in H. specialize (H b). rewrite <- list_elem_of_In, elem_of_seqZ in H.
  specialize (H ltac:(lia)). rewrite !andb_true_iff, bool_decide_eq_true, negb_true_iff in H. tauto.
Qed.

(** Every prefix is read back from its text. *)
Lemma ParsePrefix_String (p : Prefix) : valid_prefix p → ParsePrefix (Prefix_String p) = Some p.
Proof.
  destruct p as [a b]. intros (Ha & Hz & Hb). cbn [p_addr p_bits] in *.
  destruct (bits_text b) as (Hp & Hv & Hs); [destruct a; cbn in Hb; lia|].
  unfold ParsePrefix, Prefix_String. cbn [p_addr p_bits]. change ("/" +:+ pretty b) with (String "/"%char (pretty b)).
  rewrite CutLast_app by done. cbn [mbind option_bind]. rewrite ParseAddr_String by done. cbn [mbind option_bind].
  rewrite decide_True by done. rewrite Hp, Hv, bool_decide_eq_true_2 by lia. cbn [andb].
  unfold PrefixFrom. by rewrite Hz.
Qed.

Lemma ParsePrefix_valid (s : string) (p : Prefix) : ParsePrefix s = Some p → valid_prefix p.
Proof.
  unfold ParsePrefix. intros ([addr bits] & _ & (a & Ha%ParseAddr_valid & H)%bind_Some)%bind_Some.
  destruct (decide (withoutZone a = a)) as [Hz|]; [|done]. destruct (dec_plain bits) eqn:Ed; [|done].
  case_bool_decide; [|done]. injection H as <-. unfold valid_prefix, PrefixFrom. cbn. rewrite Hz. split_and!; try done.
  unfold dec_plain in Ed. apply andb_true_iff in Ed as [Hs _]. by apply dec_value_nonneg.
Qed.

Lemma Prefix_String_slash (p : Prefix) : Contains (Prefix_String p) "/" = true.
Proof.
  unfold Contains. rewrite bool_decide_eq_true. unfold Prefix_String.
  induction (Addr_String (p_addr p)) as [|c s IH]; [by eexists|]. rewrite str_app_cons. cbn [Cut].
  destruct (strip_prefix _ _); [done|]. destruct IH as [[a b] ->]. by eexists.
Qed.
