(* ===== verification/Ssrf.v ===== *)
(** * Ssrf: where the server connects to, and where it sends a browser

    internal/security/ssrf (ssrf.go) and internal/security/openredirect.  url.Parse is a parameter that
    answers the scheme, the authority without user information and the path; Hostname and Port are the methods of the
    result.  A DNS answer is an argument of each call, as it may differ between calls. *)

From S2P Require Import Prelude GoString NetIP.
Local Open Scope Z_scope.

(** ** Package net/url *)

Record URL := MkURL { u_Scheme : string; u_Host : string; u_Path : string }.

(** splitHostPort of net/url. *)
Definition url_split (hostPort : string) : string * string :=
  let '(host, port) := match CutLast hostPort ":"%char with
                       | Some (h, p) => if str_forallb is_dec p then (h, p) else (hostPort, "")
                       | None => (hostPort, "")
                       end in
  (if HasPrefix host "[" && HasSuffix host "]" then str_take (String.length host - 2) (str_drop 1 host) else host, port).

Definition Hostname (u : URL) : string := (url_split (u_Host u)).1.
Definition Port (u : URL) : string := (url_split (u_Host u)).2.

(** strconv.Atoi: the number and whether there is no error; out of range it is the nearest one in 64 bits. *)
Definition Atoi (s : string) : Z * bool :=
  let '(neg, ds) := match s with
                    | String "-"%char ds => (true, ds)
                    | String "+"%char ds => (false, ds)
                    | _ => (false, s)
                    end in
  if bool_decide (ds = "") || negb (str_forallb is_dec ds) then (0, false)
  else
    let n := dec_value ds 0 in
    if neg then if bool_decide (2 ^ 63 < n) then (- 2 ^ 63, false) else (- n, true)
    else if bool_decide (2 ^ 63 <= n) then (2 ^ 63 - 1, false) else (n, true).

(** net.IP.String, of addresses of 4 or 16 bytes. *)
Definition IP_String (ip : IP) : string :=
  match To4 ip with
  | Some ip4 => Addr_String (V4 (of_fields 256 ip4))
  | None => Addr_String (V6 (of_fields 256 ip) "")
  end.

(** ** ssrf.go *)

Record Error := MkError { e_URL : string; e_Reason : string }.

#[export] Instance Error_eq_dec : EqDecision Error.
Proof. solve_decision. Defined.

(** Timeouts and the resolver are not kept. *)
Record Config := MkConfig {
  AllowedSchemes : list string; AllowedPorts : list Z; AllowPrivateNetworks : bool; AllowedHosts : list string
}.

Definition Default : Config := MkConfig ["http"; "https"] [80; 443; 8080; 8443] false [].

Definition applyDefaults (c : Config) : Config :=
  MkConfig (if decide (AllowedSchemes c = []) then AllowedSchemes Default else AllowedSchemes c)
    (if decide (AllowedPorts c = []) then AllowedPorts Default else AllowedPorts c)
    (AllowPrivateNetworks c) (AllowedHosts c).

Definition stringSetContains (set : list string) (v : string) : bool := bool_decide (v ∈ set).

Definition intSetContains (set : list Z) (v : Z) : bool := bool_decide (v ∈ set).

Fixpoint equalFold (a b : string) : bool :=
  match a, b with
  | "", "" => true
  | String ca a, String cb b => bool_decide (ascii_lower ca = ascii_lower cb) && equalFold a b
  | _, _ => false
  end.

Definition stringSetContainsFold (set : list string) (v : string) : bool := existsb (fun s => equalFold s v) set.

Definition IsForbiddenIP (ip : option IP) : bool :=
  match ip with
  | None => true
  | Some ip =>
      if IsUnspecified ip || IsLoopback ip || IsLinkLocalUnicast ip || IsLinkLocalMulticast ip ||
         IsInterfaceLocalMulticast ip || IsMulticast ip
      then true
      else
        match To4 ip with
        | Some ip4 =>
            let a := at_ ip4 0 in let b := at_ ip4 1 in
            if a =? 10 then true
            else if (a =? 172) && (16 <=? b) && (b <=? 31) then true
            else if (a =? 192) && (b =? 168) then true
            else if (a =? 100) && (64 <=? b) && (b <=? 127) then true
            else if (a =? 169) && (b =? 254) then true
            else if a =? 0 then true
            else a =? 255
        | None => is16 ip && bool_decide (Z.land (at_ ip 0) 254 = 252)
        end
  end.

Section Requests.
(** url.Parse *)
Variable Parse : string → option URL.

Definition Validate (c : Config) (rawURL : string) : res Error unit :=
let cfg := applyDefaults c in
let refuse reason := Err (MkError rawURL reason) in
match Parse rawURL with
| None => refuse "malformed URL"
| Some u =>
    if negb (stringSetContains (AllowedSchemes cfg) (u_Scheme u))
    then refuse ("scheme " +:+ u_Scheme u +:+ " not allowed")
    else if decide (Hostname u = "") then refuse "missing host"
    else
      let port := if decide (Port u = "") then
                    if decide (u_Scheme u = "http") then "80"
                    else if decide (u_Scheme u = "https") then "443" else Port u
                  else Port u in
      let '(pn, ok) := Atoi port in
      if negb ok || bool_decide (pn <= 0) || bool_decide (65535 < pn) then refuse "invalid port"
      else if negb (intSetContains (AllowedPorts cfg) pn) then refuse ("port " +:+ port +:+ " not in allow-list")
      else Ok tt
end.

(** The first forbidden address of an answer. *)
Definition first_forbidden (ips : list IP) : option IP := head (filter (fun ip => IsForbiddenIP (Some ip) = true) ips).

Definition ValidateWithResolve (c : Config) (lookup : string → res string (list IP)) (rawURL : string) : res Error unit :=
Validate c rawURL;;
let cfg := applyDefaults c in
let refuse reason := Err (MkError rawURL reason) in
match Parse rawURL with
| None => refuse "malformed URL"
| Some u =>
    let host := Hostname u in
    if stringSetContainsFold (AllowedHosts cfg) host then Ok tt
    else if AllowPrivateNetworks cfg then Ok tt
    else
      match ParseIP host with
      | Some ip =>
          if IsForbiddenIP (Some ip) then refuse ("host resolves to forbidden IP " +:+ IP_String ip) else Ok tt
      | None =>
          match lookup host with
          | Err e => refuse ("DNS resolve: " +:+ e)
          | Ok [] => refuse "no IPs resolved"
          | Ok ips =>
              match first_forbidden ips with
              | Some ip => refuse ("host resolves to forbidden IP " +:+ IP_String ip)
              | None => Ok tt
              end
          end
      end
end.

End Requests.

(** dialContext: the address that is handed to the dialer.  The text of SplitHostPort's error is left out. *)
Definition dialContext (c : Config) (lookup : string → res string (list IP)) (addr : string) : res Error string :=
  let refuse reason := Err (MkError addr reason) in
  match SplitHostPort addr with
  | None => refuse "split host:port"
  | Some (host, port) =>
      if negb (intSetContains (AllowedPorts c) (Atoi port).1) then refuse ("port " +:+ port +:+ " not in allow-list")
      else
        let hostAllowed := stringSetContainsFold (AllowedHosts c) host in
        match lookup host with
        | Err e => refuse ("DNS resolve: " +:+ e)
        | Ok [] => refuse "no IPs resolved"
        | Ok (ip0 :: ips) =>
            match (if hostAllowed || AllowPrivateNetworks c then None else first_forbidden (ip0 :: ips)) with
            | Some ip => refuse ("resolved to forbidden IP " +:+ IP_String ip)
            | None => Ok (JoinHostPort (IP_String ip0) port)
            end
        end
  end.

(** HTTPClient dials with the defaults filled in. *)
Definition HTTPClient_dial (c : Config) := dialContext (applyDefaults c).

(** ** openredirect.go *)

Definition Safe (Parse : string → option URL) (hosts : list string) (candidate : string) : bool :=
  if decide (candidate = "") then false
  else if HasPrefix candidate "//" then false
  else if HasPrefix candidate "/\" then false
  else
    match Parse candidate with
    | None => false
    | Some u =>
        if decide (u_Scheme u = "" ∧ u_Host u = "") then HasPrefix (u_Path u) "/"
        else if decide (u_Scheme u ≠ "http" ∧ u_Scheme u ≠ "https") then false
        else if decide (Hostname u = "") then false
        else existsb (fun h => equalFold h (Hostname u)) hosts
    end.

Definition SafeOr (Parse : string → option URL) (hosts : list string) (candidate fallback : string) : string :=
  if Safe Parse hosts candidate then candidate else fallback.
