(* ===== verification/SsrfFacts.v ===== *)
(** * SsrfFacts: which servers the outgoing requests can reach

    [IsForbiddenIP_ranges] says which ranges the list of cases in IsForbiddenIP amounts to; [dial_pinned] is what is known of an
    address when it is dialled. *)

From S2P Require Import Prelude GoString NetIP NetIPFacts Ssrf.
Local Open Scope Z_scope.

(** ** Bytes *)

Lemma byte_check (P : Z → bool) (a : Z) : forallb P (seqZ 0 256) = true → 0 <= a < 256 → P a = true.
Proof.
  intros H Ha. rewrite forallb_forall in H. apply H. rewrite <- list_elem_of_In, elem_of_seqZ. lia.
Qed.

Definition bytes (ip : IP) : Prop := digits_of 256 ip.

(** The networks that are off-limits. *)
Definition forbidden_nets : list string :=
  ["0.0.0.0/8"; "10.0.0.0/8"; "100.64.0.0/10"; "127.0.0.0/8"; "169.254.0.0/16"; "172.16.0.0/12"; "192.168.0.0/16";
   "224.0.0.0/4"; "255.0.0.0/8"; "::/128"; "::1/128"; "fc00::/7"; "fe80::/10"; "ff00::/8"].

Definition in_net (ip : IP) (s : string) : bool :=
  match ParseCIDR s with Some n => IPNet_Contains n ip | None => false end.

(** Membership by the bytes of the network and its mask. *)
Definition masked (x nn m : list Z) : bool :=
  bool_decide (length x = length nn) &&
  forallb (fun '(a, (b, c)) => bool_decide (Z.land b c = Z.land a c)) (zip x (zip nn m)).

Lemma in_net_masked (ip : IP) (s : string) (n : IPNet) (nn m : list Z) :
  ParseCIDR s = Some n → networkNumberAndMask n = Some (nn, m) →
  in_net ip s = masked (default ip (To4 ip)) nn m.
Proof. intros H1 H2. unfold in_net, IPNet_Contains. by rewrite H1, H2. Qed.

Ltac net_bytes := erewrite in_net_masked by (vm_compute; reflexivity).


(** The comparisons of masked bytes, as ranges. *)
Lemma land_ones_byte (a : Z) : 0 <= a < 256 → Z.land a 255 = a.
Proof. intros Ha. change 255 with (Z.ones 8). rewrite Z.land_ones by lia. by apply Z.mod_small. Qed.

Lemma land_255 (v a : Z) : 0 <= a < 256 → bool_decide (v = Z.land a 255) = (a =? v).
Proof.
  intros Ha. rewrite land_ones_byte by done.
  case_bool_decide; subst; [by rewrite Z.eqb_refl|]. symmetry. apply Z.eqb_neq. congruence.
Qed.

Lemma land_0 (a : Z) : bool_decide (0 = Z.land a 0) = true.
Proof. by rewrite Z.land_0_r. Qed.

Definition range_check (v m lo hi : Z) : bool :=
  forallb (fun a => Bool.eqb (bool_decide (v = Z.land a m)) ((lo <=? a) && (a <=? hi))) (seqZ 0 256).

Lemma land_range (v m lo hi a : Z) : range_check v m lo hi = true → 0 <= a < 256 →
  bool_decide (v = Z.land a m) = (lo <=? a) && (a <=? hi).
Proof. intros H Ha. apply Bool.eqb_prop. exact (byte_check _ a H Ha). Qed.

Lemma bool_decide_sym (a b : Z) : bool_decide (a = b) = bool_decide (b = a).
Proof. apply bool_decide_ext. split; congruence. Qed.

Lemma bool_decide_eqb (a b : Z) : bool_decide (a = b) = (a =? b).
Proof. case_bool_decide; subst; [by rewrite Z.eqb_refl|]. symmetry. by apply Z.eqb_neq. Qed.

(** The IPv4 ranges, by the first two bytes. *)
Definition forbidden4 (a b : Z) : bool :=
  (a =? 0) || (a =? 10) || (a =? 100) && ((64 <=? b) && (b <=? 127)) || (a =? 127) || (a =? 169) && (b =? 254) ||
  (a =? 172) && ((16 <=? b) && (b <=? 31)) || (a =? 192) && (b =? 168) || (224 <=? a) && (a <=? 239) || (a =? 255).

Lemma To4_cases (ip ip4 : IP) : To4 ip = Some ip4 →
  ip = ip4 ∧ length ip4 = 4%nat ∨ ip = v4InV6Prefix ++ ip4 ∧ length ip4 = 4%nat.
Proof.
  unfold To4. case_decide as H4; [by intros [= <-]; left|]. case_decide as H16; [|done]. intros [= <-]. right.
  destruct H16 as [Hl Ht]. rewrite <- Ht, take_drop, length_drop. split; [done|lia].
Qed.

Lemma To4_v4 (ip4 : IP) : length ip4 = 4%nat → To4 ip4 = Some ip4 ∧ To4 (v4InV6Prefix ++ ip4) = Some ip4.
Proof.
  intros H. destruct ip4 as [|a [|b [|c [|d [|]]]]]; try done.
Qed.

Lemma nets_v4 (a b c d : Z) (ip : IP) : bytes [a; b; c; d] → To4 ip = Some [a; b; c; d] →
  existsb (in_net ip) forbidden_nets = forbidden4 a b.
Proof.
  intros Hb H4. unfold bytes, digits_of in Hb. rewrite !Forall_cons in Hb. destruct Hb as (Ha & Hb & Hc & Hd & _).
  unfold forbidden_nets. cbn [existsb].
  repeat (erewrite in_net_masked by (vm_compute; reflexivity)). rewrite H4. unfold masked.
  cbn [default from_option id length zip zip_with forallb].
  rewrite !(bool_decide_eq_true_2 (4 = 4)%nat), !(bool_decide_eq_false_2 (4 = 16)%nat) by done.
  rewrite !land_0, !land_255 by done.
  rewrite (land_range 64 192 64 127), (land_range 16 240 16 31), (land_range 224 240 224 239)
    by (done || (vm_compute; reflexivity)).
  unfold forbidden4. rewrite !andb_true_r, !orb_false_r. cbn [andb]. rewrite ?andb_true_l, ?orb_assoc. done.
Qed.

Lemma IsForbidden_v4 (a b c d : Z) (ip : IP) : bytes [a; b; c; d] → To4 ip = Some [a; b; c; d] →
  IsForbiddenIP (Some ip) = forbidden4 a b.
Proof.
  intros Hb H4. unfold bytes, digits_of in Hb. rewrite !Forall_cons in Hb. destruct Hb as (Ha & Hb & Hc & Hd & _).
  assert (IsUnspecified ip = bool_decide ([a; b; c; d] = [0; 0; 0; 0])) as Hu.
  { destruct (To4_cases _ _ H4) as [[-> _]|[-> _]]; unfold IsUnspecified, IP_Equal; cbn -[bool_decide];
      clear; repeat case_bool_decide; simplify_eq; done. }
  assert (IsInterfaceLocalMulticast ip = false) as Hi.
  { destruct (To4_cases _ _ H4) as [[-> _]|[-> _]]; reflexivity. }
  unfold IsForbiddenIP, IsLoopback, IsLinkLocalUnicast, IsLinkLocalMulticast, IsMulticast.
  rewrite Hu, Hi, H4. unfold at_. cbn [nth].
  assert (bool_decide (Z.land a 240 = 224) = (224 <=? a) && (a <=? 239)) as ->
    by (rewrite bool_decide_sym; apply land_range; [vm_compute; reflexivity|done]).
  unfold forbidden4. rewrite !bool_decide_and, !bool_decide_eqb.
  destruct (bool_decide ([a; b; c; d] = [0; 0; 0; 0])) eqn:E.
  - rewrite bool_decide_eq_true in E. by injection E as -> -> -> ->.
  - repeat match goal with |- context [if ?x then true else ?y] => change (if x then true else y) with (x || y) end.
    apply Bool.eq_iff_eq_true. rewrite !orb_true_iff, !andb_true_iff, !Z.eqb_eq, !Z.leb_le.
    clear. split; intros H; destruct_or! H; try done; lia.
Qed.

(** A mask of ones compares whole bytes. *)
Lemma masked_ones (x nn : list Z) : bytes x → bytes nn → length x = length nn →
  masked x nn (replicate (length nn) 255) = bool_decide (x = nn).
Proof.
  intros Hx Hn Hl. unfold masked. rewrite bool_decide_eq_true_2 by done. cbn [andb].
  revert nn Hn Hl. induction x as [|a x IH]; intros [|b nn] Hn Hl; try done.
  apply Forall_cons in Hx as [Ha Hx]. apply Forall_cons in Hn as [Hb Hn].
  cbn [length replicate zip zip_with forallb]. rewrite IH by (done || (cbn in Hl; lia)).
  rewrite (land_ones_byte a), (land_ones_byte b) by done.
  apply Bool.eq_iff_eq_true. rewrite andb_true_iff, !bool_decide_eq_true. naive_solver.
Qed.

Lemma nets_v6 (ip : IP) : bytes ip → length ip = 16%nat → To4 ip = None →
  existsb (in_net ip) forbidden_nets =
    bool_decide (ip = IPv6unspecified) || bool_decide (ip = IPv6loopback) || bool_decide (Z.land (at_ ip 0) 254 = 252) ||
    bool_decide (at_ ip 0 = 254 ∧ Z.land (at_ ip 1) 192 = 128) || bool_decide (at_ ip 0 = 255).
Proof.
  intros Hb Hl H4. unfold forbidden_nets. cbn [existsb].
  repeat (erewrite in_net_masked by (vm_compute; reflexivity)). rewrite H4. cbn [default from_option id].
  assert (∀ nn m, length nn = 4%nat → masked ip nn m = false) as H by
    (intros nn m Hn; unfold masked; rewrite bool_decide_eq_false_2; [done|lia]).
  rewrite !H by done. cbn [orb].
  assert (masked ip IPv6unspecified (replicate 16 255) = bool_decide (ip = IPv6unspecified)) as E1
    by (apply (masked_ones ip IPv6unspecified); [done|repeat constructor; done|done]).
  assert (masked ip IPv6loopback (replicate 16 255) = bool_decide (ip = IPv6loopback)) as E2
    by (apply (masked_ones ip IPv6loopback); [done|repeat constructor; done|done]).
  match goal with |- masked _ ?n1 ?m1 || (masked _ ?n2 ?m2 || _) = _ =>
    change (masked ip n1 m1) with (masked ip IPv6unspecified (replicate 16 255));
    change (masked ip n2 m2) with (masked ip IPv6loopback (replicate 16 255)) end.
  rewrite E1, E2. clear E1 E2 H H4. do 16 (destruct ip as [|? ip]; [done|]). destruct ip; [|done]. clear Hl.
  unfold bytes, digits_of in Hb. rewrite !Forall_cons in Hb. destruct Hb as (Ha & Hb & _).
  unfold masked, at_. cbn [nth zip zip_with forallb length]. rewrite !(bool_decide_eq_true_2 (16 = 16)%nat) by done.
  rewrite !land_0. rewrite land_255, land_255 by done. rewrite bool_decide_and, !bool_decide_eqb.
  rewrite !andb_true_r, !orb_false_r, !orb_assoc, (Z.eqb_sym _ 252), (Z.eqb_sym _ 128). cbn [andb].
  rewrite <- !bool_decide_eqb. done.
Qed.

Lemma To4_is16 (ip : IP) : To4 ip = None → length ip = 16%nat → take 12 ip ≠ v4InV6Prefix.
Proof. unfold To4. intros H Hl Ht. rewrite Hl, decide_False, decide_True in H; done. Qed.

Lemma IsForbidden_v6 (ip : IP) : length ip = 16%nat → To4 ip = None →
  IsForbiddenIP (Some ip) =
    bool_decide (ip = IPv6unspecified) || bool_decide (ip = IPv6loopback) || bool_decide (Z.land (at_ ip 0) 254 = 252) ||
    bool_decide (at_ ip 0 = 254 ∧ Z.land (at_ ip 1) 192 = 128) || bool_decide (at_ ip 0 = 255).
Proof.
  intros Hl H4. pose proof (To4_is16 ip H4 Hl) as Ht.
  assert (∀ ip', length ip' = 16%nat → IP_Equal ip ip' = bool_decide (ip = ip')) as He
    by (intros ip' H; unfold IP_Equal; by rewrite decide_True by congruence).
  unfold IsForbiddenIP, IsUnspecified, IsLoopback, IsLinkLocalUnicast, IsLinkLocalMulticast,
    IsInterfaceLocalMulticast, IsMulticast, is16.
  rewrite H4, !He, (bool_decide_eq_true_2 (length ip = 16%nat)) by done. cbn [andb].
  rewrite (bool_decide_eq_false_2 (ip = IPv4zero)) by (intros ->; done). cbn [orb].
  rewrite !bool_decide_and. destruct (bool_decide (at_ ip 0 = 255)), (bool_decide (ip = IPv6unspecified)),
    (bool_decide (ip = IPv6loopback)), (bool_decide (Z.land (at_ ip 0) 254 = 252)),
    (bool_decide (at_ ip 0 = 254)), (bool_decide (Z.land (at_ ip 1) 192 = 128)),
    (bool_decide (Z.land (at_ ip 1) 15 = 2)), (bool_decide (Z.land (at_ ip 1) 15 = 1)); done.
Qed.

(** An address, as the resolver answers it: four or sixteen bytes. *)
Definition address (ip : IP) : Prop := bytes ip ∧ (length ip = 4%nat ∨ length ip = 16%nat).

Lemma To4_bytes (ip ip4 : IP) : bytes ip → To4 ip = Some ip4 → bytes ip4 ∧ length ip4 = 4%nat.
Proof. intros Hb H4. destruct (To4_cases _ _ H4) as [[-> ?]|[-> ?]]; [done|]. by apply Forall_app in Hb as [_ Hb]. Qed.

Lemma To4_None16 (ip : IP) : address ip → To4 ip = None → length ip = 16%nat.
Proof. intros [_ [Hl|Hl]] H4; [|done]. unfold To4 in H4. by rewrite decide_True in H4. Qed.

Lemma forbidden_nets_spec (ip : IP) : address ip → IsForbiddenIP (Some ip) = existsb (in_net ip) forbidden_nets.
Proof.
  intros Ha. pose proof Ha as [Hb _]. destruct (To4 ip) as [ip4|] eqn:H4.
  - destruct (To4_bytes _ _ Hb H4) as [Hb4 Hl4]. destruct ip4 as [|a [|b [|c [|d [|]]]]]; try done.
    by rewrite (IsForbidden_v4 a b c d), (nets_v4 a b c d).
  - by rewrite IsForbidden_v6, nets_v6 by (done || by apply To4_None16).
Qed.

(** the addresses that outgoing requests may not reach are those of fourteen networks: this network,
    the private ones, shared address space (CGNAT), loopback, link-local, multicast and 255/8, and of IPv6
    the unspecified, loopback, unique-local, link-local and multicast addresses.  An address of 4 bytes and its IPv6
    form are treated alike.  No address is forbidden beside these. *)
Theorem IsForbiddenIP_ranges (ip : IP) (Ha : address ip) :
  IsForbiddenIP (Some ip) = existsb (in_net ip) forbidden_nets.
Proof. by apply forbidden_nets_spec. Qed.

Lemma IsForbiddenIP_ranges_witness :
  IsForbiddenIP (Some (v4InV6Prefix ++ [172; 31; 0; 1])) = true ∧
  IsForbiddenIP (Some (v4InV6Prefix ++ [172; 31; 0; 1])) =
    existsb (in_net (v4InV6Prefix ++ [172; 31; 0; 1])) forbidden_nets.
Proof.
  split; [vm_compute; reflexivity|]. apply IsForbiddenIP_ranges. split; [|right; vm_compute; reflexivity].
  repeat constructor; cbv; congruence.
Defined.

(** ** The text of an address and port *)

Lemma CutLast_Some (s a b : string) (c : ascii) : CutLast s c = Some (a, b) → s = a +:+ String c b ∧ has_byte c b = false.
Proof.
  revert a. induction s as [|d s IH]; intros a H; [done|]. cbn [CutLast] in H.
  destruct (CutLast s c) as [[a' b']|] eqn:E.
  - injection H as <- <-. destruct (IH a' eq_refl) as [-> ?]. done.
  - destruct (decide (d = c)) as [->|]; [|done]. injection H as <- <-. split; [done|]. clear IH.
    unfold has_byte. rewrite negb_false_iff. induction s as [|d s IH]; [done|]. cbn [CutLast] in E.
    destruct (CutLast s c) as [[]|]; [done|]. destruct (decide (d = c)); [done|]. cbn [str_forallb]. rewrite IH by done.
    unfold is_byte. by rewrite bool_decide_eq_false_2.
Qed.

Lemma has_byte_app (c : ascii) (a b : string) : has_byte c (a +:+ b) = has_byte c a || has_byte c b.
Proof. unfold has_byte. by rewrite forallb_append, negb_andb. Qed.

Lemma has_byte_cons (c d : ascii) (s : string) : has_byte c (String d s) = is_byte d c || has_byte c s.
Proof. unfold has_byte. cbn [str_forallb]. by rewrite negb_andb, negb_involutive. Qed.

(** A port has no colon and no bracket. *)
Definition port_text (p : string) : Prop :=
  has_byte ":"%char p = false ∧ has_byte "["%char p = false ∧ has_byte "]"%char p = false.

Lemma SplitHostPort_port (s h p : string) : SplitHostPort s = Some (h, p) → port_text p.
Proof.
  unfold SplitHostPort. intros ([before port] & Hc & H)%bind_Some. apply CutLast_Some in Hc as [Hs Hp].
  assert (∀ r, (if has_byte ":"%char before || has_byte "["%char s || has_byte "]"%char s then None else Some (before, port))
               = Some r → r.2 = port ∧ port_text port) as Hplain.
  { intros r. destruct (has_byte ":"%char before || _ || _) eqn:E; [done|]. intros [= <-].
    rewrite !orb_false_iff in E. destruct E as [[_ E1] E2]. rewrite Hs, has_byte_app, has_byte_cons in E1, E2.
    rewrite !orb_false_iff in E1, E2. unfold port_text. cbn [snd]. tauto. }
  assert (∀ s', ('(host, rest) ← Cut s' "]"; if decide (rest = ":" +:+ port) then
     if has_byte "["%char host || has_byte "["%char port || has_byte "]"%char port then None else Some (host, port)
     else None) = Some (h, p) → p = port ∧ port_text port) as Hbr.
  { intros s' ([host rest] & _ & H')%bind_Some. case_decide; [|done].
    destruct (has_byte "["%char host || _ || _) eqn:E; [done|]. injection H' as _ <-.
    rewrite !orb_false_iff in E. unfold port_text. tauto. }
  destruct s as [|c s]; [by apply Hplain in H as [E ?]; cbn [snd] in E; subst|].
  clear Hs. destruct c as [[] [] [] [] [] [] [] []];
    first [apply Hplain in H as [E ?]; cbn [snd] in E; by subst | by apply Hbr in H as [-> ?]].
Qed.

Lemma plain_no (c : ascii) (s : string) : plain c = false → str_forallb plain s = true → has_byte c s = false.
Proof.
  intros Hc. unfold has_byte. intros H. rewrite negb_false_iff. revert H. apply forallb_weaken.
  intros d Hd. unfold is_byte. rewrite bool_decide_eq_false_2; [done|]. intros ->. congruence.
Qed.

Lemma SplitHostPort_Join (h p : string) : str_forallb plain h = true → port_text p →
  SplitHostPort (JoinHostPort h p) = Some (h, p).
Proof.
  intros Hh (Hp1 & Hp2 & Hp3). unfold JoinHostPort. destruct (has_byte ":"%char h) eqn:Ec; unfold SplitHostPort.
  - assert ("[" +:+ h +:+ "]:" +:+ p = ("[" +:+ h +:+ "]") +:+ String ":"%char p) as E by (by rewrite !str_append_assoc).
    rewrite E, CutLast_app by done. cbn [mbind option_bind]. rewrite <- E.
    change ("[" +:+ h +:+ "]:" +:+ p) with (String "["%char (h +:+ String "]"%char (":" +:+ p))).
    cbv beta iota. rewrite Cut_byte by (by apply plain_no). cbn [mbind option_bind]. rewrite decide_True by done.
    rewrite Hp2, Hp3, (plain_no "["%char h) by done. done.
  - change (":" +:+ p) with (String ":"%char p). rewrite CutLast_app by done. cbn [mbind option_bind].
    assert (∀ c, plain c = false → is_byte ":"%char c = false → has_byte c p = false →
              has_byte c (h +:+ String ":"%char p) = false) as Hn
      by (intros c H1 H2 H3; rewrite has_byte_app, has_byte_cons, H2, H3, (plain_no c h) by done; done).
    destruct (h +:+ String ":"%char p) as [|c s] eqn:Es; [by destruct h|].
    assert (is_byte c "["%char = false) as Hc.
    { specialize (Hn "["%char eq_refl eq_refl Hp2). rewrite has_byte_cons, orb_false_iff in Hn. tauto. }
    rewrite Ec, !Hn by done. clear -Hc. by destruct c as [[] [] [] [] [] [] [] []].
Qed.

(** ** The address that is dialled *)

Lemma fields_of_fields (b : Z) (l : list Z) : 1 < b → digits_of b l → fields b (length l) (of_fields b l) = l.
Proof.
  intros Hb. induction l as [|x l IH] using rev_ind; intros Hl; [done|].
  apply Forall_app in Hl as [Hl Hx]. apply Forall_cons in Hx as [Hx _].
  rewrite length_app, Nat.add_comm, of_fields_app. cbn [length Nat.add fields].
  rewrite Z.div_add_l, Z.div_small, Z.add_0_r by lia. rewrite IH by done.
  by rewrite Z.add_comm, Z.mod_add, Z.mod_small by lia.
Qed.

(** The IPv6 form of an address. *)
Definition to16 (ip : IP) : IP := match To4 ip with Some ip4 => v4InV6Prefix ++ ip4 | None => ip end.

(** What String writes for an address is read back as that address. *)
Lemma IP_String_read (ip : IP) : address ip → str_forallb plain (IP_String ip) = true ∧ ParseIP (IP_String ip) = Some (to16 ip).
Proof.
  intros Ha. pose proof Ha as [Hb _]. unfold IP_String, to16. destruct (To4 ip) as [ip4|] eqn:H4.
  - destruct (To4_bytes _ _ Hb H4) as [Hb4 Hl4].
    pose proof (of_fields_range 256 ip4 ltac:(lia) Hb4) as Hr. rewrite Hl4 in Hr.
    split; [by apply string4_plain|]. unfold ParseIP. rewrite ParseAddr_String by done. cbn [withoutZone].
    rewrite decide_True by done. unfold As16. rewrite <- Hl4 at 1. by rewrite fields_of_fields by (done || lia).
  - pose proof (To4_None16 ip Ha H4) as Hl. pose proof (of_fields_range 256 ip ltac:(lia) Hb) as Hr. rewrite Hl in Hr.
    change (256 ^ Z.of_nat 16) with (2 ^ 128) in Hr. split.
    + cbn [Addr_String]. unfold zone_text. rewrite decide_True, str_append_nil by done.
      destruct (Is4In6 _); [|by apply string6_shape]. rewrite forallb_append, string4_plain; [done|].
      apply Z.mod_pos_bound. lia.
    + unfold ParseIP. rewrite ParseAddr_String by done. cbn [withoutZone]. rewrite decide_True by done.
      unfold As16. rewrite <- Hl at 1. by rewrite fields_of_fields by (done || lia).
Qed.

Lemma first_forbidden_None (ips : list IP) : first_forbidden ips = None → ∀ ip, ip ∈ ips → IsForbiddenIP (Some ip) = false.
Proof.
  unfold first_forbidden. intros H ip Hin. destruct (IsForbiddenIP (Some ip)) eqn:E; [|done].
  assert (ip ∈ filter (fun ip => IsForbiddenIP (Some ip) = true) ips) as Hf by (by apply list_elem_of_filter).
  destruct (filter _ ips); [by apply not_elem_of_nil in Hf|done].
Qed.

(** C26: what is dialled for a request, whatever the resolver answers, and as often as it changes its answer: an
    address of the answer that was checked, written so that it is read back as that very address and
    is not resolved again, on the port asked for, which is an allowed one.  Unless the operator has allowed the
    host or all private networks, no address of that answer is in a forbidden network. *)
Theorem dial_pinned (c : Config) (lookup : string → res string (list IP)) (addr target : string)
    (Hlookup : ∀ host ips, lookup host = Ok ips → Forall address ips)
    (H : dialContext c lookup addr = Ok target) :
  ∃ host port ip ips,
    SplitHostPort addr = Some (host, port) ∧ lookup host = Ok (ip :: ips) ∧
    SplitHostPort target = Some (IP_String ip, port) ∧ ParseIP (IP_String ip) = Some (to16 ip) ∧
    (Atoi port).1 ∈ AllowedPorts c ∧
    (stringSetContainsFold (AllowedHosts c) host = true ∨ AllowPrivateNetworks c = true ∨
     ∀ ip', ip' ∈ ip :: ips → existsb (in_net ip') forbidden_nets = false).
Proof.
  unfold dialContext in H. destruct (SplitHostPort addr) as [[host port]|] eqn:Ea; [|done].
  destruct (intSetContains _ _) eqn:Ep; [|done]. cbn [negb] in H.
  destruct (lookup host) as [[|ip ips]|] eqn:El; [done| |done].
  pose proof (Hlookup host _ El) as Hips. pose proof Hips as Hips'. apply Forall_cons in Hips' as [Hip _].
  destruct (if _ : bool then None else first_forbidden (ip :: ips)) eqn:Ef; [done|]. injection H as <-.
  destruct (IP_String_read ip Hip) as [Hplain Hread]. exists host, port, ip, ips. split_and!; try done.
  - apply SplitHostPort_Join; [done|]. by eapply SplitHostPort_port.
  - unfold intSetContains in Ep. by rewrite bool_decide_eq_true in Ep.
  - destruct (stringSetContainsFold _ host); [by left|]. destruct (AllowPrivateNetworks c); [by right; left|].
    right. right. cbn [orb] in Ef. intros ip' Hin. rewrite Forall_forall in Hips. rewrite <- (forbidden_nets_spec ip' (Hips ip' Hin)).
    by apply (first_forbidden_None _ Ef).
Qed.

(** ** A resolver that is asked twice *)

Definition ex_answer (host : string) : res string (list IP) :=
  if decide (host = "hooks.example") then Ok [v4InV6Prefix ++ [93; 184; 216; 34]]
  else if decide (host = "inside.example") then Ok [v4InV6Prefix ++ [93; 184; 216; 34]; v4InV6Prefix ++ [169; 254; 169; 254]]
  else if decide (host = "six.example") then Ok [[32; 1; 13; 184] ++ replicate 10 0 ++ [1; 2]] else Err "no such host".

Lemma dial_pinned_witness : ∃ host port ip ips,
  SplitHostPort "hooks.example:443" = Some (host, port) ∧ ex_answer host = Ok (ip :: ips) ∧
  SplitHostPort "93.184.216.34:443" = Some (IP_String ip, port) ∧ ParseIP (IP_String ip) = Some (to16 ip) ∧
  (Atoi port).1 ∈ AllowedPorts Default ∧
  (stringSetContainsFold (AllowedHosts Default) host = true ∨ AllowPrivateNetworks Default = true ∨
   ∀ ip', ip' ∈ ip :: ips → existsb (in_net ip') forbidden_nets = false).
Proof.
  apply (dial_pinned Default ex_answer "hooks.example:443" "93.184.216.34:443"); [|vm_compute; reflexivity].
  intros host ips. unfold ex_answer. repeat case_decide; intros [= <-];
    repeat constructor; try (right; reflexivity); cbv; congruence.
Defined.

(** One forbidden address in the answer is enough; a port that is not listed is refused; a URL is judged by its
    host and port. *)
Example ex_dial :
  dialContext Default ex_answer "inside.example:80" = Err (MkError "inside.example:80" "resolved to forbidden IP 169.254.169.254") ∧
  dialContext Default ex_answer "six.example:443" = Ok "[2001:db8::102]:443" ∧
  dialContext Default ex_answer "hooks.example:22" = Err (MkError "hooks.example:22" "port 22 not in allow-list") ∧
  Validate (fun _ => Some (MkURL "https" "hooks.example:8443" "/x")) Default "" = Ok tt ∧
  ValidateWithResolve (fun _ => Some (MkURL "http" "[::1]" "/x")) Default ex_answer "u" =
    Err (MkError "u" "host resolves to forbidden IP ::1").
Proof. vm_compute. done. Qed.

(** The ranges are those of the comment and no others: reserved addresses and IPv6 addresses that stand for IPv4 ones
    (NAT64, 6to4) are allowed. *)
Example ex_not_forbidden :
  (fun s => IsForbiddenIP (ParseIP s)) <$> ["240.0.0.1"; "198.18.0.1"; "64:ff9b::7f00:1"; "2002:7f00:1::"; "::ffff:127.0.0.1"] =
  [false; false; false; false; true].
Proof. vm_compute. reflexivity. Qed.

(** A browser follows a relative path and the listed hosts, nothing else. *)
Example ex_redirect :
  (fun '(c, u) => Safe (fun _ => Some u) ["shithub.sh"] c) <$>
    [("/a", MkURL "" "" "/a"); ("//e.x/a", MkURL "" "e.x" "/a"); ("/\e.x", MkURL "" "" "/\e.x");
     ("https://ShitHub.sh:8443/a", MkURL "https" "ShitHub.sh:8443" "/a"); ("javascript:a", MkURL "javascript" "" "")] =
  [true; false; false; true; false].
Proof. vm_compute. reflexivity. Qed.
