(* ===== verification/Tokens.v ===== *)
(** * Tokens: personal access tokens

    internal/auth/pat (all files), the statements of users/queries/user_tokens.sql, the middleware that resolves a
    token (internal/web/middleware/pat.go, realip.go), the settings page that creates and revokes them
    (web/handlers/auth/tokens.go) and their use for git over HTTPS (web/handlers/githttp/auth.go).  SHA-256,
    strings.ToLower and the local calendar are parameters; randomness is the sequence of buffers that rand.Read fills. *)

From S2P Require Import Prelude GoString NetIP Ssrf Policy.
Local Open Scope Z_scope.

(** ** Standard library *)

(** strings.FieldsFunc, for a predicate on ASCII. *)
Fixpoint FieldsFunc (p : ascii → bool) (s : string) : list string :=
  match s with
  | "" => []
  | String c s' =>
      if p c then FieldsFunc p s'
      else match s' with
           | "" => [String c ""]
           | String d _ =>
               if p d then String c "" :: FieldsFunc p s'
               else match FieldsFunc p s' with
                    | f :: fs => String c f :: fs
                    | [] => [String c ""]
                    end
           end
  end.

Fixpoint trim_left (c : ascii) (s : string) : string :=
  match s with
  | String d s' => if is_byte d c then trim_left c s' else s
  | "" => ""
  end.

(** strings.Trim, for a cut set of one byte. *)
Definition Trim (s : string) (c : ascii) : string := str_rev (trim_left c (str_rev (trim_left c s))).

(** utf8.ValidString. *)
Fixpoint valid_from (skip : nat) (s : string) : bool :=
  match s with
  | "" => true
  | String _ s' =>
      match skip with
      | S k => valid_from k s'
      | O => let '(r, size) := DecodeRuneInString s in
             negb (bool_decide (r = RuneError) && bool_decide (size = 1%nat)) && valid_from (pred size) s'
      end
  end.

Definition ValidString (s : string) : bool := valid_from 0 s.

(** base64.StdEncoding.DecodeString: line breaks are passed over, padding is required, spare bits are ignored. *)
Definition b64_value (c : ascii) : option Z :=
  let b := byte c in
  if between 65 b 90 then Some (b - 65)
  else if between 97 b 122 then Some (b - 71)
  else if between 48 b 57 then Some (b + 4)
  else if bool_decide (b = 43) then Some 62
  else if bool_decide (b = 47) then Some 63
  else None.

Definition chr (n : Z) : ascii := ascii_of_N (Z.to_N n).

Fixpoint b64_decode (l : list ascii) : option string :=
  match l with
  | [] => Some ""
  | a :: b :: c :: d :: l' =>
      x ← b64_value a; y ← b64_value b;
      let first := chr (x * 4 + y / 16) in
      if is_byte c "=" then
        if is_byte d "=" then match l' with [] => Some (String first "") | _ => None end else None
      else
        z ← b64_value c;
        let second := chr (y mod 16 * 16 + z / 4) in
        if is_byte d "=" then match l' with [] => Some (String first (String second "")) | _ => None end
        else
          w ← b64_value d;
          rest ← b64_decode l';
          Some (String first (String second (String (chr (z mod 4 * 64 + w)) rest)))
  | _ => None
  end.

Definition DecodeString (s : string) : option string :=
  b64_decode (filter (fun c => byte c ≠ 10 ∧ byte c ≠ 13) (String.list_ascii_of_string s)).

Definition ParseInt (s : string) : option Z :=
  match Atoi s with (n, true) => Some n | _ => None end.

(** ** pat.go *)

Definition TokenPrefix : string := "shithub_pat_".
Definition SourceUserCreated : string := "user_created".
Definition SourceOAuthDevice : string := "oauth_device".
Definition PayloadLen : nat := 32.
Definition DisplayPrefixLen : nat := 16.
Definition MaxTokensPerUser : Z := 50.
Definition alphabet : string := "ABCDEFGHIJKLMNOPQRSTUVWXYZabcdefghijklmnopqrstuvwxyz0123456789".

Definition isBase62 (r : Z) : bool := between 65 r 90 || between 97 r 122 || between 48 r 57.

Definition LooksLike (s : string) : bool :=
  match strip_prefix TokenPrefix s with
  | None => false
  | Some payload =>
      bool_decide (String.length s = (String.length TokenPrefix + PayloadLen)%nat) && forallb isBase62 (runes payload)
  end.

Definition alphabet_at (i : Z) : ascii := default "A"%char (String.get (Z.to_nat i) alphabet).

(** The loop over one buffer of randomBase62. *)
Fixpoint take_base62 (n : nat) (buf : list Z) (out : string) : string :=
  match buf with
  | [] => out
  | b :: buf =>
      if 248 <=? b then take_base62 n buf out
      else
        let out := out +:+ String (alphabet_at (b mod 62)) "" in
        if bool_decide (String.length out = n) then out else take_base62 n buf out
  end.

(** Without a buffer left, rand.Read fails. *)
Fixpoint randomBase62 (n : nat) (bufs : list (list Z)) (out : string) : option string :=
  if bool_decide (String.length out < n)%nat then
    match bufs with
    | [] => None
    | buf :: bufs => randomBase62 n bufs (take_base62 n buf out)
    end
  else Some out.

(** ** scopes.go *)

Definition ScopeRepoRead : string := "repo:read".
Definition ScopeRepoWrite : string := "repo:write".
Definition ScopeUserRead : string := "user:read".
Definition ScopeUserWrite : string := "user:write".
Definition ScopeAdminRead : string := "admin:read".
Definition AllScopes : list string := [ScopeRepoRead; ScopeRepoWrite; ScopeUserRead; ScopeUserWrite; ScopeAdminRead].

Definition ValidScope (s : string) : bool := existsb (fun sc => bool_decide (sc = s)) AllScopes.

Definition HasScope (held : list string) (required : string) : bool :=
  existsb (fun h => bool_decide (h = required) ||
                    bool_decide (required = ScopeRepoRead) && bool_decide (h = ScopeRepoWrite) ||
                    bool_decide (required = ScopeUserRead) && bool_decide (h = ScopeUserWrite)) held.

Definition NormalizeScopes (input : list string) : list string :=
  let seen : gset string := list_to_set (filter (fun s => ValidScope s) input) in
  filter (fun sc => sc ∈ seen) AllScopes.

(** ** repo_binding.go *)

Definition RepoBindingAllows (binding requested : Z) : bool :=
  if bool_decide (binding = 0) then true else bool_decide (binding = requested).

(** ** ip_allowlist.go *)

Definition MaxIPAllowlistEntries : nat := 64.
Definition MaxIPAllowlistEntryBytes : nat := 64.

Definition parseAllowlistEntry (s : string) : option Prefix :=
  if Contains s "/" then ParsePrefix s
  else addr ← ParseAddr s; Some (PrefixFrom addr (if Is6 addr then 128 else 32)).

(** One round of the loop of ParseAllowlist; [seen] holds what [out] holds. *)
Definition allow_entry (acc : list string * list string * bool) (e : string) : list string * list string * bool :=
  let '(out, invalid, tooMany) := acc in
  let entry := TrimSpace e in
  if bool_decide (entry = "") then acc
  else if bool_decide (MaxIPAllowlistEntryBytes < String.length entry)%nat then (out, invalid ++ [entry], tooMany)
  else
    match parseAllowlistEntry entry with
    | None => (out, invalid ++ [entry], tooMany)
    | Some prefix =>
        let canonical := Prefix_String prefix in
        if bool_decide (canonical ∈ out) then acc
        else if bool_decide (MaxIPAllowlistEntries ≤ length out)%nat then (out, invalid, true)
        else (out ++ [canonical], invalid, tooMany)
    end.

Definition allow_sep (c : ascii) : bool := bool_decide (byte c = 10) || is_byte c "," || bool_decide (byte c = 13).

Definition ParseAllowlist (raw : string) : list string * list string * bool :=
  if bool_decide (TrimSpace raw = "") then ([], [], false)
  else foldl allow_entry ([], [], false) (FieldsFunc allow_sep raw).

(** The loop of IPMatch. *)
Fixpoint match_entries (allowlist : list string) (ip : Addr) : bool :=
  match allowlist with
  | [] => false
  | entry :: rest =>
      match parseAllowlistEntry entry with
      | None => false
      | Some prefix => if Prefix_Contains prefix ip then true else match_entries rest ip
      end
  end.

Definition IPMatch (allowlist : list string) (ip : option Addr) : bool :=
  if bool_decide (allowlist = []) then true
  else match ip with None => false | Some ip => match_entries allowlist (Unmap ip) end.

(** ** debouncer.go *)

Record Debouncer := MkDebouncer { last : gmap Z Z; window : Z; maxEntries : nat }.

Definition NewDebouncer (w : Z) : Debouncer := MkDebouncer ∅ (if w <=? 0 then 60000000000 else w) 4096.

Definition evictStaleLocked (d : Debouncer) (now : Z) : Debouncer :=
  MkDebouncer (filter (fun e => now - e.2 < window d) (last d)) (window d) (maxEntries d).

Definition ShouldTouch (d : Debouncer) (now tokenID : Z) : bool * Debouncer :=
  let touch :=
    let d' := MkDebouncer (<[tokenID := now]> (last d)) (window d) (maxEntries d) in
    (true, if bool_decide (maxEntries d < size (last d'))%nat then evictStaleLocked d' now else d') in
  match last d !! tokenID with
  | Some t => if now - t <? window d then (false, d) else touch
  | None => touch
  end.

Definition Forget (d : Debouncer) (tokenID : Z) : Debouncer :=
  MkDebouncer (delete tokenID (last d)) (window d) (maxEntries d).

(** ** realip.go *)

(** What the middleware reads of a request: the headers (empty when absent), the peer, and the address that RealIP
    left in the context. *)
Record Request := MkRequest {
  Authorization : string; XForwardedFor : string; RemoteAddr : string; RealIP : option string
}.

Definition ipInTrustedNets (ip : string) (nets : list IPNet) : bool :=
  match ParseIP ip with
  | None => false
  | Some parsed => existsb (fun n => IPNet_Contains n parsed) nets
  end.

(** The loop of resolveRealIP; the parts come from the last to the first. *)
Fixpoint walk_hops (nets : list IPNet) (host : string) (parts : list string) : string :=
  match parts with
  | [] => host
  | part :: rest =>
      let candidate := TrimSpace part in
      if bool_decide (candidate = "") then walk_hops nets host rest
      else if ipInTrustedNets candidate nets then walk_hops nets host rest
      else if bool_decide (ParseIP candidate = None) then host
      else candidate
  end.

Definition peer (r : Request) : string :=
  match SplitHostPort (RemoteAddr r) with Some (host, _) => host | None => RemoteAddr r end.

Definition resolveRealIP (r : Request) (TrustedProxies : list IPNet) : string :=
  let host := peer r in
  if bool_decide (length TrustedProxies = 0%nat) then host
  else if negb (ipInTrustedNets host TrustedProxies) then host
  else if bool_decide (XForwardedFor r = "") then host
  else walk_hops TrustedProxies host (rev (SplitByte (XForwardedFor r) ",")).

(** The middleware RealIP. *)
Definition withRealIP (TrustedProxies : list IPNet) (r : Request) : Request :=
  MkRequest (Authorization r) (XForwardedFor r) (RemoteAddr r) (Some (resolveRealIP r TrustedProxies)).

Definition RealIPFromContext (r : Request) : string :=
  match RealIP r with
  | Some v => if bool_decide (v = "") then peer r else v
  | None => peer r
  end.

(** ** web/middleware/pat.go: the address of the client *)

(** What is before the last ":", if there is one past the first byte and no "]" before it. *)
Definition strip_port (host : string) : string :=
  match CutLast host ":"%char with
  | Some (h, _) => if bool_decide (h = "") || has_byte "]" h then host else h
  | None => host
  end.

Definition candidate_addr (c : string) : option Addr :=
  if bool_decide (c = "") then None
  else ParseAddr (TrimSuffix (TrimPrefix (strip_port c) "[") "]").

Definition remoteAddrFromRequest (r : Request) : option Addr :=
  match candidate_addr (RealIPFromContext r) with
  | Some addr => Some addr
  | None => candidate_addr (RemoteAddr r)
  end.

(** ** The tables *)

Record UserToken := MkUserToken {
  t_UserID : Z; t_Name : string; t_TokenHash : string; t_TokenPrefix : string; t_Scopes : list string;
  t_ExpiresAt : option Z; t_LastUsed : option (Z * option Addr); t_RevokedAt : option Z;
  t_IpAllowlist : list string; t_RepoID : option Z; t_Source : string
}.

Record User := MkUser {
  u_Username : string; u_PasswordHash : string; u_Suspended : bool; u_Deleted : bool; u_IsSiteAdmin : bool
}.

Inductive Query := QTokenByHash | QUserByID | QHasTOTP | QCountTokens | QInsertToken | QRevokeToken.

#[export] Instance Query_eq_dec : EqDecision Query.
Proof. solve_decision. Defined.

(** [next_id] is the sequence of the primary key, [fault] tells which statements fail. *)
Record Tables := MkTables {
  user_tokens : gmap Z UserToken; next_id : Z; users : gmap Z User; user_totp : gset Z (* confirmed *);
  repos : gmap Z RepoRow; fault : Query → bool
}.

Definition with_tokens (db : Tables) (m : gmap Z UserToken) (next : Z) : Tables :=
  MkTables m next (users db) (user_totp db) (repos db) (fault db).

Definition GetUserByID (db : Tables) (id : Z) : option User :=
  if fault db QUserByID then None
  else match users db !! id with
       | Some u => if u_Deleted u then None else Some u
       | None => None
       end.

Definition HasConfirmedUserTOTP (db : Tables) (id : Z) : option bool :=
  if fault db QHasTOTP then None else Some (bool_decide (id ∈ user_totp db)).

Definition with_hash (db : Tables) (hash : string) : list (Z * UserToken) :=
  filter (fun e => t_TokenHash e.2 = hash) (map_to_list (user_tokens db)).

Definition GetUserTokenByHash (db : Tables) (hash : string) : option (Z * UserToken) :=
  if fault db QTokenByHash then None else head (with_hash db hash).

Definition CountActiveUserTokens (db : Tables) (userID : Z) : option Z :=
  if fault db QCountTokens then None
  else Some (Z.of_nat (size (filter (fun e => t_UserID e.2 = userID ∧ t_RevokedAt e.2 = None) (user_tokens db)))).

(** A text column takes valid UTF-8 without NUL. *)
Definition text_ok (s : string) : bool := ValidString s && negb (has_byte "000" s).

Record InsertUserTokenParams := MkInsert {
  i_UserID : Z; i_Name : string; i_TokenHash : string; i_TokenPrefix : string; i_Scopes : list string;
  i_ExpiresAt : option Z; i_IpAllowlist : list string; i_RepoID : option Z; i_Source : string
}.

(** The constraints of the table: the foreign keys, the unique hash and its size, the length of the name. *)
Definition insert_ok (db : Tables) (p : InsertUserTokenParams) : bool :=
  bool_decide (is_Some (users db !! i_UserID p)) &&
  match i_RepoID p with Some r => bool_decide (is_Some (repos db !! r)) | None => true end &&
  bool_decide (with_hash db (i_TokenHash p) = []) && bool_decide (String.length (i_TokenHash p) = 32%nat) &&
  text_ok (i_Name p) && between 1 (Z.of_nat (RuneCountInString (i_Name p))) 80 && forallb text_ok (i_Scopes p).

Definition InsertUserToken (db : Tables) (p : InsertUserTokenParams) : option (Z * Tables) :=
  if fault db QInsertToken || negb (insert_ok db p) then None
  else
    let row := MkUserToken (i_UserID p) (i_Name p) (i_TokenHash p) (i_TokenPrefix p) (i_Scopes p) (i_ExpiresAt p) None
                 None (i_IpAllowlist p) (i_RepoID p)
                 (if bool_decide (i_Source p = "") then SourceUserCreated else i_Source p) in
    Some (next_id db, with_tokens db (<[next_id db := row]> (user_tokens db)) (next_id db + 1)).

Definition set_revoked (now : Z) (t : UserToken) : UserToken :=
  MkUserToken (t_UserID t) (t_Name t) (t_TokenHash t) (t_TokenPrefix t) (t_Scopes t) (t_ExpiresAt t) (t_LastUsed t)
    (Some now) (t_IpAllowlist t) (t_RepoID t) (t_Source t).

(** The number of rows and the tables. *)
Definition RevokeUserToken (db : Tables) (now id userID : Z) : option (Z * Tables) :=
  if fault db QRevokeToken then None
  else match user_tokens db !! id with
       | Some t =>
           if bool_decide (t_UserID t = userID) && bool_decide (t_RevokedAt t = None) then
             Some (1, with_tokens db (<[id := set_revoked now t]> (user_tokens db)) (next_id db))
           else Some (0, db)
       | None => Some (0, db)
       end.

Definition set_touched (now : Z) (ip : option Addr) (t : UserToken) : UserToken :=
  MkUserToken (t_UserID t) (t_Name t) (t_TokenHash t) (t_TokenPrefix t) (t_Scopes t) (t_ExpiresAt t)
    (Some (now, ip)) (t_RevokedAt t) (t_IpAllowlist t) (t_RepoID t) (t_Source t).

Definition TouchUserTokenLastUsed (db : Tables) (now id : Z) (ip : option Addr) : Tables :=
  with_tokens db (alter (set_touched now ip) id (user_tokens db)) (next_id db).

Section Crypto.
(** SHA-256, strings.ToLower, and time.AddDate in the local calendar (years, months, days). *)
Context (sha256 ToLower : string → string) (AddDate : Z → Z → Z → Z → Z).

Inductive PatErr := ErrMalformed | ErrRand.

(** The raw token, its hash and its display prefix. *)
Definition Mint (bufs : list (list Z)) : res PatErr (string * string * string) :=
  match randomBase62 PayloadLen bufs "" with
  | None => Err ErrRand
  | Some payload =>
      let raw := TokenPrefix +:+ payload in
      Ok (raw, sha256 raw, str_take DisplayPrefixLen raw)
  end.

Definition HashOf (raw : string) : res PatErr string :=
  match strip_prefix TokenPrefix raw with
  | None => Err ErrMalformed
  | Some payload =>
      if negb (bool_decide (String.length raw = (String.length TokenPrefix + PayloadLen)%nat)) then Err ErrMalformed
      else if negb (forallb isBase62 (runes payload)) then Err ErrMalformed
      else Ok (sha256 raw)
  end.

(** *** route_prefix.go *)

Definition maxRoutePrefixSegments : nat := 3.
Definition maxRoutePrefixBytes : nat := 64.
Definition ellipsis : string := String "226" (String "128" (String "166" "")).

Definition isAllDigits (s : string) : bool := forallb (fun r => between 48 r 57) (runes s).

Definition isHex (s : string) : bool :=
  forallb (fun r => between 48 r 57 || between 97 r 102 || between 65 r 70) (runes s).

Definition canonicalSegment (s : string) : string :=
  if bool_decide (s = "") then ""
  else if isAllDigits s then ":id"
  else if bool_decide (20 <= String.length s)%nat && isHex s then ":id"
  else s.

(** The loop that walks back to the start of a rune. *)
Fixpoint rune_start (out : string) (cutoff : nat) : nat :=
  match cutoff with
  | O => O
  | S k => match String.get cutoff out with
           | Some c => if Z.land (byte c) 192 =? 128 then rune_start out k else cutoff
           | None => cutoff
           end
  end.

Definition RoutePrefix (urlPath : string) : string :=
  if bool_decide (urlPath = "") || bool_decide (urlPath = "/") then "/"
  else
    let trimmed := Trim urlPath "/" in
    if bool_decide (trimmed = "") then "/"
    else
      let parts := take maxRoutePrefixSegments (SplitByte trimmed "/") in
      let out := "/" +:+ Join ((fun p => ToLower (canonicalSegment p)) <$> parts) "/" in
      if bool_decide (maxRoutePrefixBytes < String.length out)%nat then
        str_take (rune_start out (maxRoutePrefixBytes - String.length ellipsis)) out +:+ ellipsis
      else out.

(** *** web/middleware/pat.go *)

Record PATAuth := MkPATAuth {
  UserID : Z; Username : string; TokenID : Z; Scopes : list string; RepoBinding : Z;
  IsSuspended : bool; IsSiteAdmin : bool; HasConfirmedTwoFactor : bool
}.

Definition noAuth : PATAuth := MkPATAuth 0 "" 0 [] 0 false false false.

Definition PolicyActor (p : PATAuth) : Actor :=
  if bool_decide (UserID p = 0) then AnonymousActor
  else UserActorWithTwoFactor (UserID p) (Username p) (IsSuspended p) (IsSiteAdmin p) (HasConfirmedTwoFactor p).

Inductive CredErr := errNoCredentials | errMalformedCredentials.

Definition basic_password (rest : string) : res CredErr string :=
  match DecodeString (TrimSpace rest) with
  | None => Err errMalformedCredentials
  | Some decoded =>
      match Cut decoded ":" with
      | Some (_, pass) => Ok pass
      | None => Err errMalformedCredentials
      end
  end.

Definition extractPAT (r : Request) : res CredErr string :=
  if bool_decide (Authorization r = "") then Err errNoCredentials
  else
    match Cut (Authorization r) " " with
    | None => Err errMalformedCredentials
    | Some (scheme, rest) =>
        if bool_decide (ToLower scheme = "token") || bool_decide (ToLower scheme = "bearer") then Ok (TrimSpace rest)
        else if bool_decide (ToLower scheme = "basic") then basic_password rest
        else Err errMalformedCredentials
    end.

Definition or_err {A} (reason : string) (o : option A) : res string A :=
  match o with Some a => Ok a | None => Err reason end.

Definition ok_of {E A} (m : res E A) : option A := match m with Ok a => Some a | Err _ => None end.

Definition expired (row : UserToken) (now : Z) : bool :=
  match t_ExpiresAt row with Some e => e <? now | None => false end.

(** What reaches the next handler: a context with the resolved token, or without one; or a 401 with its reason. *)
Inductive Outcome := Next (auth : PATAuth) | Challenge (reason : string).

Definition check_token (db : Tables) (now : Z) (r : Request) (raw : string) : res string (UserToken * PATAuth) :=
  hash ← or_err "invalid token" (ok_of (HashOf raw));
  '(id, row) ← or_err "invalid token" (GetUserTokenByHash db hash);
  if bool_decide (is_Some (t_RevokedAt row)) then Err "token revoked"
  else if expired row now then Err "token expired"
  else
    user ← or_err "invalid token" (GetUserByID db (t_UserID row));
    if u_Suspended user then Err "account suspended"
    else
      has2FA ← or_err "invalid token" (HasConfirmedUserTOTP db (t_UserID row));
      if negb (bool_decide (t_IpAllowlist row = [])) &&
         match remoteAddrFromRequest r with
         | None => true
         | Some ip => negb (IPMatch (t_IpAllowlist row) (Some ip))
         end
      then Err "token not authorized from this address"
      else Ok (row, MkPATAuth (t_UserID row) (u_Username user) id (t_Scopes row) (default 0 (t_RepoID row))
                      (u_Suspended user) (u_IsSiteAdmin user) has2FA).

(** The write of the last use runs in a goroutine of its own: it is an effect that is returned. *)
Definition PATAuthMiddleware (db : Tables) (deb : Debouncer) (now : Z) (r : Request)
  : Outcome * option (Z * option Addr) * Debouncer :=
  match extractPAT r with
  | Err errNoCredentials => (Next noAuth, None, deb)
  | Err _ => (Challenge "invalid token", None, deb)
  | Ok raw =>
      match check_token db now r raw with
      | Err reason => (Challenge reason, None, deb)
      | Ok (_, auth) =>
          let '(touch, deb) := ShouldTouch deb now (TokenID auth) in
          (Next auth, if touch then Some (TokenID auth, remoteAddrFromRequest r) else None, deb)
      end
  end.

(** RequireScope: whether the next handler runs; otherwise 403. *)
Definition RequireScope (required : string) (auth : PATAuth) : bool :=
  bool_decide (TokenID auth = 0) || HasScope (Scopes auth) required.

(** *** web/handlers/githttp/auth.go: a token as the password of git over HTTPS *)

Record resolvedAuth := MkResolved {
  ra_UserID : Z; ra_Username : string; ra_HasConfirmedTwoFactor : bool; ra_ViaPAT : bool; ra_PATRepoBinding : Z
}.

Definition resolveViaPAT (db : Tables) (now : Z) (raw : string) : option resolvedAuth :=
  hash ← ok_of (HashOf raw);
  '(_, row) ← GetUserTokenByHash db hash;
  if bool_decide (is_Some (t_RevokedAt row)) then None
  else if expired row now then None
  else
    user ← GetUserByID db (t_UserID row);
    if u_Suspended user then None
    else
      has2FA ← HasConfirmedUserTOTP db (t_UserID row);
      Some (MkResolved (t_UserID row) (u_Username user) has2FA true (default 0 (t_RepoID row))).

(** *** web/handlers/auth/tokens.go *)

Definition recentAuthWindow : Z := 600000000000.

(** [confirmed] is None when GetUserTOTP fails or the secret is not confirmed; times are in nanoseconds. *)
Definition recentAuthOK (confirmed : bool) (recent2FAAt now : Z) : bool :=
  if negb confirmed then true
  else if bool_decide (recent2FAAt = 0) then false
  else now - recent2FAAt * 1000000000 <=? recentAuthWindow.

Record CreateForm := MkForm {
  f_name : string; f_scopes : list string; f_expires_in : string; f_ip_allowlist : string; f_repo_id : string
}.

(** Rendered: the page with a message, or with the raw token; HTTPError: a status. *)
Inductive Page := Rendered (msg : string) | Created (raw : string) | HTTPError (status : Z).

(** The entitlement of fine-grained tokens: None when the check fails; and whether billing enforces it. *)
Record Entitlement := MkEntitlement { allowed : option bool; enforce : bool; banner : string → string }.

Definition expiry (expiresIn : string) (now : Z) : option Z :=
  if bool_decide (expiresIn = "30") then Some (AddDate now 0 0 30)
  else if bool_decide (expiresIn = "90") then Some (AddDate now 0 0 90)
  else if bool_decide (expiresIn = "365") then Some (AddDate now 1 0 0)
  else None.

Definition entitled (ent : Entitlement) (what : string) : res Page () :=
  match allowed ent with
  | None => Err (HTTPError 500)
  | Some ok => if negb ok && enforce ent then Err (Rendered (banner ent what)) else Ok ()
  end.

Definition create_allowlist (ent : Entitlement) (raw : string) : res Page (list string) :=
  let '(ipAllowlist, invalidIPs, tooManyIPs) := ParseAllowlist raw in
  if negb (bool_decide (invalidIPs = [])) then Err (Rendered ("Invalid IP / CIDR entries: " +:+ Join invalidIPs ", "))
  else if (tooManyIPs : bool) then Err (Rendered "Too many IP / CIDR entries (max 64). Reduce the list and retry.")
  else if bool_decide (ipAllowlist = []) then Ok []
  else _ ← entitled ent "PAT IP allowlist"; Ok ipAllowlist.

Definition create_binding (db : Tables) (ent : Entitlement) (user : Z) (raw : string) : res Page (option Z) :=
  if bool_decide (raw = "") then Ok None
  else
    match ParseInt raw with
    | None => Err (Rendered "Repo binding must be a valid repo ID.")
    | Some rid =>
        if rid <=? 0 then Err (Rendered "Repo binding must be a valid repo ID.")
        else
          match repos db !! rid with
          | None => Err (Rendered "Pick a repo you own.")
          | Some repo =>
              if IsOwnedByUser (NewRepoRefFromRepo repo) user then
                _ ← entitled ent "PAT repo binding"; Ok (Some rid)
              else Err (Rendered "Pick a repo you own.")
          end
    end.

Definition create_limits (db : Tables) (user : Z) (recent : bool) (name : string) (scopes : list string)
  : res Page () :=
  if negb recent then
    Err (Rendered "Confirm 2FA recently before creating a token: sign in again with your authenticator code.")
  else if bool_decide (name = "") || bool_decide (80 < String.length name)%nat then
    Err (Rendered "Token name must be 1–80 characters.")
  else if bool_decide (scopes = []) then Err (Rendered "Pick at least one scope.")
  else
    match CountActiveUserTokens db user with
    | None => Err (HTTPError 500)
    | Some count =>
        if MaxTokensPerUser <=? count then
          Err (Rendered "You've reached the per-user token cap. Revoke an unused token first.")
        else Ok ()
    end.

Definition create_row (db : Tables) (ent : Entitlement) (user now : Z) (recent : bool) (bufs : list (list Z))
    (f : CreateForm) : res Page (string * InsertUserTokenParams) :=
  let name := TrimSpace (f_name f) in
  let scopes := NormalizeScopes (f_scopes f) in
  _ ← create_limits db user recent name scopes;
  match Mint bufs with
  | Err _ => Err (HTTPError 500)
  | Ok (raw, hash, prefix) =>
      ips ← create_allowlist ent (f_ip_allowlist f);
      binding ← create_binding db ent user (TrimSpace (f_repo_id f));
      Ok (raw, MkInsert user name hash prefix scopes (expiry (f_expires_in f) now) ips binding SourceUserCreated)
  end.

Definition tokensCreate (db : Tables) (ent : Entitlement) (user now : Z) (recent : bool) (bufs : list (list Z))
    (f : CreateForm) : Page * Tables :=
  match create_row db ent user now recent bufs f with
  | Err page => (page, db)
  | Ok (raw, row) =>
      match InsertUserToken db row with
      | None => (HTTPError 500, db)
      | Some (_, db) => (Created raw, db)
      end
  end.

(** None is the redirection to the list. *)
Definition tokensRevoke (db : Tables) (now user : Z) (idStr : string) : option Page * Tables :=
  match ParseInt idStr with
  | None => (Some (HTTPError 404), db)
  | Some id =>
      match RevokeUserToken db now id user with
      | None => (Some (HTTPError 500), db)
      | Some (rows, db) => if bool_decide (rows = 0) then (Some (HTTPError 404), db) else (None, db)
      end
  end.
End Crypto.
