(* ===== verification/TokensFacts.v ===== *)
(** * TokensFacts: what is proved of personal access tokens *)

From S2P Require Import Prelude GoString NetIP NetIPFacts Ssrf Policy Scrub ScrubFacts Tokens.
Local Open Scope Z_scope.

(** ** IP allowlists *)

Lemma parseAllowlistEntry_valid (s : string) (p : Prefix) : parseAllowlistEntry s = Some p → valid_prefix p.
Proof.
  unfold parseAllowlistEntry. destruct (Contains s "/"); [apply ParsePrefix_valid|].
  intros (a & Ha%ParseAddr_valid & [= <-])%bind_Some. destruct a as [n|n z]; cbn in *; split_and!; cbn; lia || done.
Qed.

Lemma parseAllowlistEntry_String (p : Prefix) : valid_prefix p → parseAllowlistEntry (Prefix_String p) = Some p.
Proof. intros Hp. unfold parseAllowlistEntry. by rewrite Prefix_String_slash, ParsePrefix_String. Qed.

(** An entry as it was typed, and what it means. *)
Definition typed (es : list string) (p : Prefix) : Prop :=
  ∃ e, e ∈ es ∧ TrimSpace e ≠ "" ∧ parseAllowlistEntry (TrimSpace e) = Some p.

Lemma typed_cons (e : string) (es : list string) (p : Prefix) :
  typed (e :: es) p ↔ (TrimSpace e ≠ "" ∧ parseAllowlistEntry (TrimSpace e) = Some p) ∨ typed es p.
Proof.
  split.
  - intros (e' & [->|He]%elem_of_cons & H); [by left|]. right. by exists e'.
  - intros [H|(e' & He & H)]; [exists e|exists e']; (split; [|done]); apply elem_of_cons; auto.
Qed.

Lemma allow_entry_cases (out inv : list string) (tm : bool) (e : string) (o' i' : list string) (t' : bool) :
  allow_entry (out, inv, tm) e = (o', i', t') →
  (TrimSpace e = "" ∧ o' = out ∧ i' = inv ∧ t' = tm) ∨ (i' = inv ++ [TrimSpace e]) ∨ t' = true ∨
  (∃ p, TrimSpace e ≠ "" ∧ parseAllowlistEntry (TrimSpace e) = Some p ∧ i' = inv ∧ t' = tm ∧
        (o' = out ++ [Prefix_String p] ∨ o' = out ∧ Prefix_String p ∈ out)).
Proof.
  unfold allow_entry. case_bool_decide; [intros [= <- <- <-]; by left|].
  case_bool_decide; [intros [= <- <- <-]; right; by left|].
  destruct (parseAllowlistEntry _) as [p|]; [|intros [= <- <- <-]; right; by left].
  case_bool_decide; [intros [= <- <- <-]; right; right; right; exists p; split_and!; by auto|].
  case_bool_decide; intros [= <- <- <-]; right; right; [by left|]. right. exists p. split_and!; by auto.
Qed.

(** Once an entry is refused or the list is too long, it stays so. *)
Lemma fold_refused (es : list string) (out inv : list string) (tm : bool) (l : list string) :
  inv ≠ [] ∨ tm = true → foldl allow_entry (out, inv, tm) es ≠ (l, [], false).
Proof.
  revert out inv tm. induction es as [|e es IH]; intros out inv tm H; cbn [foldl]; [naive_solver|].
  destruct (allow_entry (out, inv, tm) e) as [[o i] t] eqn:E. apply IH.
  apply allow_entry_cases in E as [(_ & _ & -> & ->)|[->|[->|(p & _ & _ & -> & -> & _)]]]; try done; [|by right].
  left. by destruct inv.
Qed.

Lemma fold_ok (es : list string) (out inv : list string) (tm : bool) (l : list string) :
  foldl allow_entry (out, inv, tm) es = (l, [], false) → inv = [] ∧ tm = false.
Proof.
  intros H. destruct (decide (inv = [] ∧ tm = false)) as [|Hn]; [done|]. exfalso.
  eapply (fold_refused es out inv tm l); [|done]. destruct tm; [by right|]. left. naive_solver.
Qed.

Lemma fold_accepted (es : list string) (out l : list string) :
  foldl allow_entry (out, [], false) es = (l, [], false) →
  ∀ c, c ∈ l ↔ c ∈ out ∨ ∃ p, typed es p ∧ c = Prefix_String p.
Proof.
  revert out. induction es as [|e es IH]; intros out; cbn [foldl].
  { intros [= <-] c. split; [eauto|]. intros [?|(p & (e & He & _) & _)]; [done|]. by apply not_elem_of_nil in He. }
  destruct (allow_entry (out, [], false) e) as [[o i] t] eqn:E. intros H c.
  assert (i = [] ∧ t = false) as [-> ->] by (by eapply fold_ok).
  rewrite (IH o H c). apply allow_entry_cases in E as [(Hb & -> & _)|[Hi|[Ht|(p & Hb & Hp & _ & _ & Ho)]]].
  - setoid_rewrite typed_cons. naive_solver.
  - by destruct (app_cons_not_nil [] [] (TrimSpace e)).
  - done.
  - setoid_rewrite typed_cons. destruct Ho as [->|[-> ?]]; [rewrite elem_of_app, list_elem_of_singleton|]; naive_solver.
Qed.

Lemma fold_blank (es : list string) (out l : list string) :
  foldl allow_entry (out, [], false) es = (l, [], false) →
  ∀ e, e ∈ es → TrimSpace e = "" ∨ ∃ p, parseAllowlistEntry (TrimSpace e) = Some p.
Proof.
  revert out. induction es as [|e es IH]; intros out; cbn [foldl].
  { intros _ c Hc. by apply not_elem_of_nil in Hc. }
  destruct (allow_entry (out, [], false) e) as [[o i] t] eqn:E. intros H c.
  assert (i = [] ∧ t = false) as [-> ->] by (by eapply fold_ok).
  intros [->|Hc]%elem_of_cons; [|by eapply IH].
  apply allow_entry_cases in E as [(Hb & _)|[Hi|[Ht|(p & Hb & Hp & _)]]]; [by left| |done|by eauto].
  by destruct (app_cons_not_nil [] [] (TrimSpace e)).
Qed.

Lemma match_entries_true (l : list string) (ip : Addr) :
  Forall (fun c => is_Some (parseAllowlistEntry c)) l →
  match_entries l ip = true ↔ ∃ c p, c ∈ l ∧ parseAllowlistEntry c = Some p ∧ Prefix_Contains p ip = true.
Proof.
  induction 1 as [|c l [p Hp] _ IH]; cbn [match_entries].
  { split; [done|]. intros (c & p & Hc & _). by apply not_elem_of_nil in Hc. }
  rewrite Hp. destruct (Prefix_Contains p ip) eqn:E; [split; [|done]; intros _; exists c, p; set_solver|].
  rewrite IH. split; intros (c' & p' & Hc & Hp' & Hm); exists c', p'; (split; [|done]); [set_solver|].
  apply elem_of_cons in Hc as [->|]; [congruence|done].
Qed.

(** An address is listed if an entry contains it and every entry before it can be read. *)
Definition listed (l : list string) (ip : Addr) : Prop :=
  ∃ l1 c l2 p, l = l1 ++ c :: l2 ∧ Forall (fun c => is_Some (parseAllowlistEntry c)) l1 ∧
    parseAllowlistEntry c = Some p ∧ Prefix_Contains p ip = true.

Lemma match_entries_listed (l : list string) (ip : Addr) : match_entries l ip = true ↔ listed l ip.
Proof.
  unfold listed. induction l as [|c l IH]; cbn [match_entries].
  { split; [done|]. intros (l1 & c & l2 & p & E & _). by destruct (app_cons_not_nil l1 l2 c). }
  destruct (parseAllowlistEntry c) as [p|] eqn:Ep; [destruct (Prefix_Contains p ip) eqn:Em; [|rewrite IH]|]; split.
  - intros _. by exists [], c, l, p.
  - done.
  - intros (l1 & d & l2 & q & -> & Hl & Hq & Hm). exists (c :: l1), d, l2, q. split_and!; try done. by constructor.
  - intros ([|e l1] & d & l2 & q & [= <- ->] & Hl & Hq & Hm); [congruence|].
    apply Forall_cons in Hl as [_ Hl]. by exists l1, d, l2, q.
  - done.
  - intros ([|e l1] & d & l2 & q & [= <- ->] & Hl & Hq & Hm); [congruence|].
    apply Forall_cons in Hl as [[? Hc] _]. congruence.
Qed.

Lemma IPMatch_listed (l : list string) (ip : Addr) : l ≠ [] → IPMatch l (Some ip) = true ↔ listed l (Unmap ip).
Proof. intros Hl. unfold IPMatch. rewrite bool_decide_eq_false_2 by done. apply match_entries_listed. Qed.

(** An allowlist that the settings page accepts restricts the token to exactly the addresses and networks that were
    typed: the text stored for an entry is read back as the same prefix, none is dropped, and none of them makes the
    list unreadable; a token is unrestricted only if all entries were blank. *)
Theorem ParseAllowlist_enforced (raw : string) (l : list string) (ip : Addr) :
  ParseAllowlist raw = (l, [], false) → TrimSpace raw ≠ "" →
  IPMatch l (Some ip) = true ↔
  (∀ e, e ∈ FieldsFunc allow_sep raw → TrimSpace e = "") ∨
  ∃ p, typed (FieldsFunc allow_sep raw) p ∧ Prefix_Contains p (Unmap ip) = true.
Proof.
  unfold ParseAllowlist. intros H Hr. rewrite bool_decide_eq_false_2 in H by done.
  pose proof (fold_accepted _ _ _ H) as Hl. pose proof (fold_blank _ _ _ H) as Hb.
  assert (∀ c, c ∈ l → ∃ p, typed (FieldsFunc allow_sep raw) p ∧ c = Prefix_String p) as Hsrc.
  { intros c [Hc|Hc]%Hl; [by apply not_elem_of_nil in Hc|done]. }
  assert (∀ c p, c ∈ l → c = Prefix_String p → typed (FieldsFunc allow_sep raw) p → parseAllowlistEntry c = Some p) as Hread.
  { intros c p _ -> (e & _ & _ & He). by eapply parseAllowlistEntry_String, parseAllowlistEntry_valid. }
  unfold IPMatch. case_bool_decide as Hn.
  - subst l. split; [intros _; left|done]. intros e He. destruct (decide (TrimSpace e = "")) as [|Hne]; [done|].
    destruct (Hb e He) as [?|[p Hp]]; [done|]. destruct (not_elem_of_nil (Prefix_String p)).
    apply Hl. right. exists p. split; [by exists e|done].
  - rewrite match_entries_true.
    + split.
      * intros (c & p & Hc & Hp & Hm). right. destruct (Hsrc c Hc) as (q & Hq & Ec).
        rewrite (Hread c q Hc Ec Hq) in Hp. injection Hp as ->. by exists p.
      * intros [Hall|(p & Ht & Hm)].
        -- destruct l as [|c l]; [done|]. destruct (Hsrc c) as (p & (e & He & Hne & _) & _); [left|].
           by rewrite Hall in Hne.
        -- exists (Prefix_String p), p. assert (Prefix_String p ∈ l) as Hc by (apply Hl; eauto). eauto.
    + apply Forall_forall. intros c Hc. destruct (Hsrc c Hc) as (p & Hp & Ec). rewrite (Hread c p Hc Ec Hp). done.
Qed.

(** ** The address of the client *)

Lemma SplitByte_app (a b : string) (c : ascii) : SplitByte (a +:+ String c b) c = SplitByte a c ++ SplitByte b c.
Proof.
  induction a as [|d a IH]; [by rewrite str_app_empty; cbn; destruct (decide _)|].
  rewrite str_app_cons. cbn [SplitByte]. rewrite IH. destruct (decide (d = c)); [done|].
  destruct (SplitByte a c) as [|x l] eqn:E; [|done]. exfalso. clear -E. destruct a as [|e a]; [done|].
  cbn in E. destruct (decide _), (SplitByte a c); done.
Qed.

Lemma walk_hops_app (nets : list IPNet) (host : string) (l1 l2 : list string) :
  Exists (fun part => TrimSpace part ≠ "" ∧ ipInTrustedNets (TrimSpace part) nets = false) l1 →
  walk_hops nets host (l1 ++ l2) = walk_hops nets host l1.
Proof.
  induction 1 as [part l1 [Hb Ht]|part l1 _ IH]; cbn [walk_hops app].
  - by rewrite bool_decide_eq_false_2, Ht by done.
  - by rewrite IH.
Qed.

(** The text of an IPv4 address has no port, no bracket and no colon to mistake for one. *)
Lemma CutLast_none (c : ascii) (b : string) : has_byte c b = false → CutLast b c = None.
Proof.
  unfold has_byte. rewrite negb_false_iff. induction b as [|d b IH]; [done|]. cbn [str_forallb CutLast].
  intros [Hd Hb]%andb_true_iff. rewrite IH by done. rewrite decide_False; [done|]. intros ->. unfold is_byte in Hd.
  by rewrite bool_decide_eq_true_2 in Hd.
Qed.

Definition v4_char (c : ascii) : bool := is_dec c || is_byte c ".".

Lemma v4_no_byte (c : ascii) (s : string) : v4_char c = false → str_forallb v4_char s = true → has_byte c s = false.
Proof.
  intros Hc Hs. unfold has_byte. rewrite negb_false_iff. revert Hs. apply forallb_weaken. intros d Hd.
  unfold is_byte. case_bool_decide; [congruence|done].
Qed.

Lemma string4_chars (n : Z) : 0 <= n < 2 ^ 32 → str_forallb v4_char (string4 n) = true.
Proof.
  intros Hn. apply forallb_Join; [done|]. apply Forall_fmap. eapply Forall_impl; [apply (fields_range 256 4 n); lia|].
  intros x Hx. destruct (octet_pretty x Hx) as (_ & Hd & _). revert Hd. apply forallb_weaken. intros c Hc.
  unfold v4_char. by rewrite Hc.
Qed.

Lemma TrimPrefix_byte (c : ascii) (s : string) : has_byte c s = false → TrimPrefix s (String c "") = s.
Proof.
  unfold has_byte, TrimPrefix. rewrite negb_false_iff. destruct s as [|d s]; [done|]. cbn [str_forallb strip_prefix].
  intros [Hd _]%andb_true_iff. rewrite decide_False; [done|]. intros ->. unfold is_byte in Hd.
  by rewrite bool_decide_eq_true_2 in Hd.
Qed.

Lemma TrimSuffix_byte (c : ascii) (s : string) : has_byte c s = false → TrimSuffix s (String c "") = s.
Proof.
  intros Hs. unfold TrimSuffix. destruct (HasSuffix s (String c "")) eqn:E; [|done].
  apply HasSuffix_true in E as [r ->]. unfold has_byte in Hs. rewrite negb_false_iff, forallb_append in Hs.
  apply andb_true_iff in Hs as [_ Hs]. cbn in Hs. unfold is_byte in Hs. by rewrite bool_decide_eq_true_2 in Hs.
Qed.

(** So the middleware reads the address of an IPv4 client as it is. *)
Lemma client_v4 (n : Z) (r : Request) :
  0 <= n < 2 ^ 32 → RealIPFromContext r = string4 n → remoteAddrFromRequest r = Some (V4 n).
Proof.
  intros Hn Hr. unfold remoteAddrFromRequest. rewrite Hr. unfold candidate_addr, strip_port.
  pose proof (string4_chars n Hn) as Hc. rewrite CutLast_none by by apply v4_no_byte.
  rewrite TrimPrefix_byte by by apply v4_no_byte. rewrite TrimSuffix_byte by by apply v4_no_byte.
  rewrite bool_decide_eq_false_2.
  - change (string4 n) with (Addr_String (V4 n)). by rewrite (ParseAddr_String (V4 n)).
  - intros E. pose proof (parse_string4 n Hn) as Hp. rewrite E in Hp. by vm_compute in Hp.
Qed.

(** C28: A client cannot choose the address it is judged by: a peer outside the trusted networks is itself, whatever
    headers it sends; and what precedes, in X-Forwarded-For, the entry that a trusted proxy appended for an untrusted
    sender never changes the answer. *)
Theorem resolveRealIP_unforgeable (r : Request) (nets : list IPNet) :
  (ipInTrustedNets (peer r) nets = false → resolveRealIP r nets = peer r) ∧
  ∀ forged rest,
    XForwardedFor r = forged +:+ String ","%char rest →
    Exists (fun part => TrimSpace part ≠ "" ∧ ipInTrustedNets (TrimSpace part) nets = false) (SplitByte rest ",") →
    resolveRealIP r nets = resolveRealIP (MkRequest (Authorization r) rest (RemoteAddr r) (RealIP r)) nets.
Proof.
  split.
  - intros H. unfold resolveRealIP. rewrite H. by case_bool_decide.
  - intros forged rest E Hx. unfold resolveRealIP, peer. cbn [XForwardedFor RemoteAddr]. rewrite E.
    do 2 case_match; try done.
    assert (rest ≠ "") as Hr.
    { intros ->. apply Exists_exists in Hx as (part & Hp%list_elem_of_singleton & Hb & _). subst. by destruct Hb. }
    assert (forged +:+ String ","%char rest ≠ "") as Hf by (by destruct forged).
    rewrite !bool_decide_eq_false_2 by done. rewrite SplitByte_app, rev_app_distr. apply walk_hops_app.
    rewrite Exists_exists in *. destruct Hx as (part & Hp & H1). exists part. split; [|done].
    by apply list_elem_of_In, in_rev, list_elem_of_In; rewrite rev_involutive.
Qed.

(** ** The debouncer *)

Inductive DebounceCall := CallTouch (now id : Z) | CallForget (id : Z).

Fixpoint debounce (d : Debouncer) (calls : list DebounceCall) : list bool :=
  match calls with
  | [] => []
  | CallTouch now id :: calls => let '(b, d) := ShouldTouch d now id in b :: debounce d calls
  | CallForget id :: calls => debounce (Forget d id) calls
  end.

(** The reference: the list of all touches granted and not forgotten, of which none may be recent. *)
Fixpoint grants (w : Z) (granted : list (Z * Z)) (calls : list DebounceCall) : list bool :=
  match calls with
  | [] => []
  | CallTouch now id :: calls =>
      let ok := forallb (fun g => negb (bool_decide (g.1 = id)) || bool_decide (w <= now - g.2)) granted in
      ok :: grants w (if ok then (id, now) :: granted else granted) calls
  | CallForget id :: calls => grants w (filter (fun g => g.1 ≠ id) granted) calls
  end.

(** The times at which the calls read the clock do not go back. *)
Fixpoint clock_from (t : Z) (calls : list DebounceCall) : Prop :=
  match calls with
  | [] => True
  | CallTouch now _ :: calls => t <= now ∧ clock_from now calls
  | CallForget _ :: calls => clock_from t calls
  end.

Definition covers (d : Debouncer) (granted : list (Z * Z)) (now : Z) : Prop :=
  ∀ id, match last d !! id with
        | Some t => (id, t) ∈ granted ∧ ∀ t', (id, t') ∈ granted → t' <= t
        | None => ∀ t', (id, t') ∈ granted → window d <= now - t'
        end.

Lemma covers_later (d : Debouncer) (granted : list (Z * Z)) (t now : Z) :
  covers d granted t → t <= now → covers d granted now.
Proof.
  intros H Ht id. specialize (H id). destruct (last d !! id); [done|]. intros t' Hin. specialize (H t' Hin). lia.
Qed.

Lemma covers_evict (d : Debouncer) (granted : list (Z * Z)) (now : Z) :
  covers d granted now → covers (evictStaleLocked d now) granted now.
Proof.
  intros H id. specialize (H id). cbn. rewrite map_lookup_filter.
  destruct (last d !! id) as [t|]; cbn; [|done].
  unfold guard. destruct (decide (now - t < window d)) as [Hl|Hl]; cbn; [done|].
  intros t' Hin. destruct H as [_ H]. specialize (H t' Hin). lia.
Qed.

Lemma covers_touch (d : Debouncer) (granted : list (Z * Z)) (now id : Z) :
  covers d granted now → (∀ t, (id, t) ∈ granted → t <= now) →
  covers (MkDebouncer (<[id := now]> (last d)) (window d) (maxEntries d)) ((id, now) :: granted) now.
Proof.
  intros H Hle i. cbn. destruct (decide (i = id)) as [->|Hne].
  - rewrite lookup_insert. destruct (decide _); [|done]. split; [by left|].
    intros t [[= <-]|Ht]%elem_of_cons; [lia|by apply Hle].
  - rewrite lookup_insert_ne by done. specialize (H i).
    destruct (last d !! i) as [t|].
    + destruct H as [H1 H2]. split; [by right|]. intros t' [[= -> _]|Ht]%elem_of_cons; [done|by apply H2].
    + intros t' [[= -> _]|Ht]%elem_of_cons; [done|by apply H].
Qed.

Lemma ShouldTouch_covers (d : Debouncer) (granted : list (Z * Z)) (now id : Z) :
  covers d granted now → (∀ i t, (i, t) ∈ granted → t <= now) →
  let ok := forallb (fun g => negb (bool_decide (g.1 = id)) || bool_decide (window d <= now - g.2)) granted in
  ∃ d', ShouldTouch d now id = (ok, d') ∧ window d' = window d ∧
        covers d' (if ok then (id, now) :: granted else granted) now.
Proof.
  intros H Hle ok.
  assert (ok = match last d !! id with Some t => negb (now - t <? window d) | None => true end) as Eok.
  { unfold ok. specialize (H id). destruct (last d !! id) as [t|].
    - destruct H as [Hin Hmax]. destruct (Z.ltb_spec (now - t) (window d)) as [Hl|Hl]; cbn.
      + apply not_true_is_false. intros Hall. rewrite forallb_forall in Hall.
        apply list_elem_of_In in Hin. specialize (Hall _ Hin). cbn in Hall.
        rewrite bool_decide_eq_true_2, bool_decide_eq_false_2 in Hall by (done || lia). done.
      + apply forallb_forall. intros [i t'] Hi%list_elem_of_In. cbn. case_bool_decide as Hii; [subst i|done].
        specialize (Hmax t' Hi). rewrite bool_decide_eq_true_2 by lia. done.
    - apply forallb_forall. intros [i t'] Hi%list_elem_of_In. cbn. case_bool_decide as Hii; [subst i|done].
      specialize (H t' Hi). rewrite bool_decide_eq_true_2 by lia. done. }
  rewrite Eok. unfold ShouldTouch. pose proof (covers_touch d granted now id H (Hle id)) as Ht.
  destruct (last d !! id) as [t|]; [destruct (now - t <? window d)|]; cbn; [by exists d| |];
    (eexists; split; [done|]; destruct (bool_decide _); split; [done| |done|]; [by apply (covers_evict _ _ _ Ht)|done]).
Qed.

(** The debouncer lets the last use of a token be written exactly when no such write was allowed within the window
    before, or none since the token was forgotten: dropping stale entries from the full map is never noticed, as long
    as the clock does not go back. *)
Theorem debounce_grants (w : Z) (calls : list DebounceCall) (t : Z) :
  clock_from t calls → debounce (NewDebouncer w) calls = grants (window (NewDebouncer w)) [] calls.
Proof.
  assert (∀ calls d granted t, covers d granted t → (∀ i t', (i, t') ∈ granted → t' <= t) → clock_from t calls →
    debounce d calls = grants (window d) granted calls) as H.
  { clear. induction calls as [|[now id|id] calls IH]; intros d granted t Hc Hle Hclock; [done| |].
    - destruct Hclock as [Ht Hclock]. cbn [debounce grants].
      destruct (ShouldTouch_covers d granted now id) as (d' & -> & Hw & Hc'); [by eapply covers_later| |].
      { intros i t' Hi. specialize (Hle i t' Hi). lia. }
      set (ok := forallb _ granted) in *. f_equal. rewrite <- Hw. eapply IH; [exact Hc'| |done]. intros i t' Hi.
      destruct ok; [apply elem_of_cons in Hi as [[= -> ->]|Hi]; [lia|]|]; specialize (Hle i t' Hi); lia.
    - cbn [debounce grants]. change (window d) with (window (Forget d id)). eapply IH; [|intros i t' Hi|done].
      + intros i. cbn. specialize (Hc i). destruct (decide (i = id)) as [->|Hne].
        * rewrite lookup_delete. destruct (decide _); [|done]. intros t' [? _]%list_elem_of_filter. done.
        * rewrite lookup_delete_ne by done. destruct (last d !! i) as [t0|].
          -- destruct Hc as [H1 H2]. split; [by apply list_elem_of_filter|].
             intros t' [_ ?]%list_elem_of_filter. by apply H2.
          -- intros t' [_ ?]%list_elem_of_filter. by apply Hc.
      + apply list_elem_of_filter in Hi as [_ Hi]. by eapply Hle. }
  intros Hclock. eapply H; [|intros i t' Hi; by apply not_elem_of_nil in Hi|exact Hclock].
  intros id. cbn. rewrite lookup_empty. intros t' Hi. by apply not_elem_of_nil in Hi.
Qed.

(** ** Minting *)

Definition base62_char (c : ascii) : bool := isBase62 (byte c).

Lemma runes_ascii (s : string) : str_forallb (fun c => bool_decide (byte c < 128)) s = true →
  runes s = byte <$> String.list_ascii_of_string s.
Proof.
  unfold runes. induction s as [|c s IH]; intros Hs; [done|]. cbn [str_forallb] in Hs.
  apply andb_true_iff in Hs as [Hc Hs]. cbn [runes_from String.list_ascii_of_string fmap list_fmap].
  unfold DecodeRuneInString. rewrite Hc. cbn [pred]. by rewrite IH.
Qed.

Lemma base62_runes (s : string) : str_forallb base62_char s = true → forallb isBase62 (runes s) = true.
Proof.
  intros Hs. rewrite runes_ascii.
  - induction s as [|c s IH]; [done|]. cbn in *. apply andb_true_iff in Hs as [Hc Hs]. unfold base62_char in Hc.
    by rewrite Hc, IH.
  - revert Hs. apply forallb_weaken. intros c Hc. unfold base62_char, isBase62 in Hc. rewrite bool_decide_eq_true.
    rewrite !orb_true_iff, !between_true in Hc. lia.
Qed.

Lemma alphabet_base62 (i : Z) : base62_char (alphabet_at i) = true.
Proof.
  unfold alphabet_at. generalize (Z.to_nat i). intros n.
  destruct (decide (n < 62)%nat) as [Hn|Hn].
  - assert (forallb (fun k => base62_char (default "A"%char (String.get k alphabet))) (seq 0 62) = true) as H by reflexivity.
    rewrite forallb_forall in H. apply H, in_seq. lia.
  - assert (∀ s k, (String.length s ≤ k)%nat → String.get k s = None) as H.
    { clear. intros s. induction s as [|c s IH]; intros k Hk; [done|]. destruct k; cbn in *; [lia|]. apply IH. lia. }
    rewrite H; [reflexivity|]. cbn [String.length alphabet]. lia.
Qed.

Lemma take_base62_spec (n : nat) (buf : list Z) (out : string) :
  (String.length out < n)%nat → str_forallb base62_char out = true →
  (String.length (take_base62 n buf out) ≤ n)%nat ∧ str_forallb base62_char (take_base62 n buf out) = true.
Proof.
  revert out. induction buf as [|b buf IH]; intros out Hl Hb; cbn [take_base62]; [split; [lia|done]|].
  destruct (248 <=? b); [by apply IH|].
  set (out' := out +:+ String (alphabet_at (b mod 62)) "").
  assert (String.length out' = S (String.length out)) as Hl' by (unfold out'; rewrite str_length_append; cbn; lia).
  assert (str_forallb base62_char out' = true) as Hb'.
  { unfold out'. rewrite forallb_append, Hb. cbn [str_forallb]. by rewrite alphabet_base62. }
  cbv zeta. case_bool_decide; [split; [lia|done]|]. apply IH; [lia|done].
Qed.

Lemma randomBase62_spec (n : nat) (bufs : list (list Z)) (out payload : string) :
  (String.length out ≤ n)%nat → str_forallb base62_char out = true → randomBase62 n bufs out = Some payload →
  String.length payload = n ∧ str_forallb base62_char payload = true.
Proof.
  revert out. induction bufs as [|buf bufs IH]; intros out Hl Hb; cbn [randomBase62]; case_bool_decide as Hn; try done.
  - intros [= <-]. split; [lia|done].
  - destruct (take_base62_spec n buf out Hn Hb) as [H1 H2]. by apply IH.
  - intros [= <-]. split; [lia|done].
Qed.

Lemma Mint_Ok (sha256 : string → string) (bufs : list (list Z)) (raw hash prefix : string) :
  Mint sha256 bufs = Ok (raw, hash, prefix) → LooksLike raw = true ∧ hash = sha256 raw.
Proof.
  unfold Mint. destruct (randomBase62 _ _ _) as [payload|] eqn:E; [|done]. intros [= <- <- _]. split; [|done].
  apply randomBase62_spec in E as [Hl Hb]; [|cbn; lia|done]. unfold LooksLike.
  rewrite (proj2 (strip_prefix_Some TokenPrefix _ payload)) by done. rewrite base62_runes, andb_true_r by done.
  rewrite bool_decide_eq_true, str_length_append. lia.
Qed.

(** ** Authentication *)

Record tables_ok (db : Tables) : Prop := {
  hashes_unique : ∀ i j t u, user_tokens db !! i = Some t → user_tokens db !! j = Some u →
    t_TokenHash t = t_TokenHash u → i = j;
  ids_below : ∀ i t, user_tokens db !! i = Some t → 0 < i < next_id db;
  next_positive : 0 < next_id db
}.

Lemma with_hash_elem (db : Tables) (hash : string) (id : Z) (t : UserToken) :
  (id, t) ∈ with_hash db hash ↔ user_tokens db !! id = Some t ∧ t_TokenHash t = hash.
Proof. unfold with_hash. rewrite list_elem_of_filter, elem_of_map_to_list. naive_solver. Qed.

Lemma GetUserTokenByHash_Some (db : Tables) (hash : string) (id : Z) (t : UserToken) :
  GetUserTokenByHash db hash = Some (id, t) →
  fault db QTokenByHash = false ∧ user_tokens db !! id = Some t ∧ t_TokenHash t = hash.
Proof.
  unfold GetUserTokenByHash. destruct (fault db QTokenByHash); [done|]. destruct (with_hash db hash) as [|x l] eqn:E; [done|].
  intros [= ->]. split; [done|]. apply with_hash_elem. rewrite E. by left.
Qed.

Lemma GetUserTokenByHash_found (db : Tables) (id : Z) (t : UserToken) :
  tables_ok db → fault db QTokenByHash = false → user_tokens db !! id = Some t →
  GetUserTokenByHash db (t_TokenHash t) = Some (id, t).
Proof.
  intros Hok Hf Ht. unfold GetUserTokenByHash. rewrite Hf.
  assert ((id, t) ∈ with_hash db (t_TokenHash t)) as Hin by by apply with_hash_elem.
  destruct (with_hash db (t_TokenHash t)) as [|[j u] l] eqn:E; [by apply not_elem_of_nil in Hin|].
  assert ((j, u) ∈ with_hash db (t_TokenHash t)) as [Hu Hh]%with_hash_elem by (rewrite E; left).
  assert (j = id) as -> by (by eapply (hashes_unique _ Hok)). cbn. congruence.
Qed.

Lemma GetUserByID_Some (db : Tables) (id : Z) (u : User) :
  GetUserByID db id = Some u ↔ fault db QUserByID = false ∧ users db !! id = Some u ∧ u_Deleted u = false.
Proof.
  unfold GetUserByID. destruct (fault db QUserByID); [naive_solver|].
  destruct (users db !! id) as [v|]; [|naive_solver]. destruct (u_Deleted v) eqn:E; (split; [by intros [= ->]|intros (_ & [= ->] & ?); congruence]).
Qed.

Section Auth.
Context (sha256 ToLower : string → string).

Lemma HashOf_Ok (raw hash : string) : HashOf sha256 raw = Ok hash ↔ LooksLike raw = true ∧ hash = sha256 raw.
Proof.
  unfold Tokens.HashOf, LooksLike. destruct (strip_prefix TokenPrefix raw) as [payload|]; [|naive_solver].
  destruct (bool_decide _), (forallb isBase62 (runes payload)); cbn; naive_solver.
Qed.

(** The token is neither revoked nor expired, and its owner neither deleted nor suspended. *)
Definition live (db : Tables) (now : Z) (row : UserToken) (user : User) : Prop :=
  t_RevokedAt row = None ∧ (∀ e, t_ExpiresAt row = Some e → now <= e) ∧
  users db !! t_UserID row = Some user ∧ u_Deleted user = false ∧ u_Suspended user = false.

(** The row has no allowlist, or the address that the middleware reads is in it. *)
Definition address_ok (row : UserToken) (r : Request) : Prop :=
  t_IpAllowlist row = [] ∨ ∃ ip, remoteAddrFromRequest r = Some ip ∧ listed (t_IpAllowlist row) (Unmap ip).

Definition auth_of (db : Tables) (id : Z) (row : UserToken) (user : User) : PATAuth :=
  MkPATAuth (t_UserID row) (u_Username user) id (t_Scopes row) (default 0 (t_RepoID row)) false (u_IsSiteAdmin user)
    (bool_decide (t_UserID row ∈ user_totp db)).

Definition lookups_work (db : Tables) : Prop :=
  fault db QTokenByHash = false ∧ fault db QUserByID = false ∧ fault db QHasTOTP = false.

Lemma expired_false (row : UserToken) (now : Z) : expired row now = false ↔ ∀ e, t_ExpiresAt row = Some e → now <= e.
Proof.
  unfold expired. destruct (t_ExpiresAt row) as [e|]; [|naive_solver]. rewrite Z.ltb_ge. naive_solver.
Qed.

Lemma or_err_Ok {A} (reason : string) (o : option A) (a : A) : or_err reason o = Ok a ↔ o = Some a.
Proof. destruct o; cbn; naive_solver. Qed.

Lemma ok_of_Some {E A} (m : res E A) (a : A) : ok_of m = Some a ↔ m = Ok a.
Proof. destruct m; cbn; naive_solver. Qed.

Lemma address_test (row : UserToken) (r : Request) :
  negb (bool_decide (t_IpAllowlist row = [])) &&
    match remoteAddrFromRequest r with
    | None => true
    | Some ip => negb (IPMatch (t_IpAllowlist row) (Some ip))
    end = false ↔ address_ok row r.
Proof.
  unfold address_ok. case_bool_decide as Hl; cbn [negb andb]; [naive_solver|].
  destruct (remoteAddrFromRequest r) as [ip|]; [|naive_solver]. rewrite negb_false_iff, IPMatch_listed by done. naive_solver.
Qed.

Lemma check_token_Ok (db : Tables) (now : Z) (r : Request) (raw : string) (row : UserToken) (auth : PATAuth) :
  tables_ok db →
  check_token sha256 db now r raw = Ok (row, auth) ↔
  LooksLike raw = true ∧ lookups_work db ∧ t_TokenHash row = sha256 raw ∧
  ∃ id user, user_tokens db !! id = Some row ∧ live db now row user ∧ address_ok row r ∧ auth = auth_of db id row user.
Proof.
  intros Hok. unfold check_token, live, lookups_work, auth_of. split.
  - intros (hash & (Hl & ->)%or_err_Ok%ok_of_Some%HashOf_Ok & H)%bind_Ok_inv.
    apply bind_Ok_inv in H as ([id t] & (Hf1 & Ht & Hh)%or_err_Ok%GetUserTokenByHash_Some & H).
    destruct (t_RevokedAt t) eqn:Er; [done|]. cbn in H. destruct (expired t now) eqn:Ee; [done|].
    apply bind_Ok_inv in H as (user & (Hf2 & Hu & Hd)%or_err_Ok%GetUserByID_Some & H).
    destruct (u_Suspended user) eqn:Es; [done|].
    apply bind_Ok_inv in H as (b & H2%or_err_Ok & H). unfold HasConfirmedUserTOTP in H2.
    destruct (fault db QHasTOTP); [done|]. injection H2 as <-.
    match type of H with (if ?b then _ else _) = _ => destruct b eqn:Ea; [done|] end.
    injection H as -> <-. rewrite address_test in Ea. rewrite expired_false in Ee. split_and!; try done. by exists id, user.
  - intros (Hl & (Hf1 & Hf2 & Hf3) & Hh & id & user & Ht & (Hr & He & Hu & Hd & Hs) & Ha & ->).
    rewrite (proj2 (HashOf_Ok raw (sha256 raw))) by done. cbn. rewrite <- Hh, (GetUserTokenByHash_found db id row) by done. cbn.
    rewrite Hr, (proj2 (expired_false row now)) by done. cbn.
    rewrite (proj2 (GetUserByID_Some db _ user)) by done. cbn. rewrite Hs.
    unfold HasConfirmedUserTOTP. rewrite Hf3. cbn. by rewrite (proj2 (address_test row r)).
Qed.

Lemma extractPAT_none (r : Request) (e : CredErr) :
  extractPAT ToLower r = Err e → e = errNoCredentials ↔ Authorization r = "".
Proof.
  unfold extractPAT, basic_password. case_bool_decide as Ha; [naive_solver|]. intros H. split; [|done]. intros ->.
  repeat case_match; done.
Qed.

Lemma address_v4 (n : Z) (row : UserToken) (r : Request) :
  0 <= n < 2 ^ 32 → RealIPFromContext r = string4 n →
  address_ok row r ↔ t_IpAllowlist row = [] ∨ listed (t_IpAllowlist row) (V4 n).
Proof. intros Hn Hr. unfold address_ok. rewrite (client_v4 n r) by done. cbn. naive_solver. Qed.

Lemma PATAuth_spec (db : Tables) (deb : Debouncer) (now : Z) (r : Request) (auth : PATAuth) :
  tables_ok db →
  (PATAuthMiddleware sha256 ToLower db deb now r).1.1 = Next auth ↔
  (Authorization r = "" ∧ auth = noAuth) ∨
  ∃ raw id row user,
    extractPAT ToLower r = Ok raw ∧ LooksLike raw = true ∧ lookups_work db ∧
    user_tokens db !! id = Some row ∧ t_TokenHash row = sha256 raw ∧ live db now row user ∧ address_ok row r ∧
    auth = auth_of db id row user.
Proof.
  intros Hok. unfold PATAuthMiddleware. destruct (extractPAT ToLower r) as [raw|e] eqn:Ex.
  - assert (Authorization r ≠ "") as Hne by (intros E; unfold extractPAT in Ex; by rewrite E in Ex).
    destruct (check_token sha256 db now r raw) as [[row a]|e] eqn:Ec; [destruct (ShouldTouch _ _ _) as [touch d]|]; cbn.
    + apply check_token_Ok in Ec as (Hl & Hw & Hh & id & user & Ht & Hlive & Ha & ->); [|done]. split.
      * intros [= <-]. right. by exists raw, id, row, user.
      * intros [[? _]|(raw' & id' & row' & user' & [= <-] & _ & _ & Ht' & Hh' & Hlive' & _ & ->)]; [done|].
        assert (id' = id) as -> by (eapply (hashes_unique _ Hok); [done..|congruence]).
        rewrite Ht in Ht'. injection Ht' as ->. unfold live in *. destruct_and!. congruence.
    + split; [done|].
      intros [[? _]|(raw' & id & row & user & [= <-] & Hl & Hw & Ht & Hh & Hlive & Ha & ->)]; [done|].
      assert (check_token sha256 db now r raw = Ok (row, auth_of db id row user)) as E; [|congruence].
      apply check_token_Ok; [done|]. split_and!; try done. by exists id, user.
  - assert (e = errNoCredentials ↔ Authorization r = "") as He by (by apply extractPAT_none).
    destruct e; cbn; split; try done.
    + intros [= <-]. left. by rewrite <- He.
    + by intros [[_ ->]|(? & ? & ? & ? & ? & _)].
    + intros [[Hn _]|(? & ? & ? & ? & ? & _)]; [by apply He in Hn|done].
Qed.


(** *** Creation and revocation *)

Context (AddDate : Z → Z → Z → Z → Z).

Lemma InsertUserToken_Some (db db' : Tables) (p : InsertUserTokenParams) (id : Z) :
  InsertUserToken db p = Some (id, db') →
  insert_ok db p = true ∧ id = next_id db ∧ next_id db' = next_id db + 1 ∧ users db' = users db ∧
  user_totp db' = user_totp db ∧ repos db' = repos db ∧ fault db' = fault db ∧
  ∃ row, user_tokens db' = <[id := row]> (user_tokens db) ∧
    t_UserID row = i_UserID p ∧ t_TokenHash row = i_TokenHash p ∧ t_Scopes row = i_Scopes p ∧
    t_ExpiresAt row = i_ExpiresAt p ∧ t_RevokedAt row = None ∧ t_IpAllowlist row = i_IpAllowlist p ∧
    t_RepoID row = i_RepoID p ∧ t_Source row = (if bool_decide (i_Source p = "") then SourceUserCreated else i_Source p).
Proof.
  unfold InsertUserToken. destruct (fault db QInsertToken); [done|]. destruct (insert_ok db p); [|done].
  cbn. intros [= <- <-]. split_and!; try done. eexists. by split_and!.
Qed.

Lemma insert_fresh (db : Tables) (p : InsertUserTokenParams) (i : Z) (t : UserToken) :
  insert_ok db p = true → user_tokens db !! i = Some t → t_TokenHash t ≠ i_TokenHash p.
Proof.
  unfold insert_ok. rewrite !andb_true_iff, !bool_decide_eq_true. intros (((((_ & Hh) & _) & _) & _) & _) Ht E.
  apply (not_elem_of_nil (i, t)). rewrite <- Hh. by apply with_hash_elem.
Qed.

Lemma insert_tables_ok (db db' : Tables) (p : InsertUserTokenParams) (id : Z) :
  tables_ok db → InsertUserToken db p = Some (id, db') → tables_ok db'.
Proof.
  intros Hok (Hi & -> & Hn & _ & _ & _ & _ & row & Ht & _ & Hh & _)%InsertUserToken_Some.
  split.
  - intros i j t u. rewrite Ht. intros Hti Htj E.
    apply lookup_insert_Some in Hti as [[<- <-]|[Hni Hti]]; apply lookup_insert_Some in Htj as [[<- <-]|[Hnj Htj]]; try done.
    + by destruct (insert_fresh db p j u Hi Htj); congruence.
    + by destruct (insert_fresh db p i t Hi Hti); congruence.
    + by eapply (hashes_unique _ Hok).
  - intros i t. rewrite Ht, Hn. pose proof (next_positive _ Hok).
    intros [[<- _]|[_ Hti]]%lookup_insert_Some; [lia|]. pose proof (ids_below _ Hok i t Hti). lia.
  - rewrite Hn. pose proof (next_positive _ Hok). lia.
Qed.

Lemma revoke_tables_ok (db db' : Tables) (now id user n : Z) :
  tables_ok db → RevokeUserToken db now id user = Some (n, db') → tables_ok db'.
Proof.
  intros Hok. unfold RevokeUserToken. destruct (fault db QRevokeToken); [done|].
  destruct (user_tokens db !! id) as [t|] eqn:Et; [|by intros [= _ <-]].
  destruct (bool_decide _ && bool_decide _); intros [= _ <-]; [|done].
  assert (∀ i u, <[id:=set_revoked now t]> (user_tokens db) !! i = Some u →
            ∃ v, user_tokens db !! i = Some v ∧ t_TokenHash v = t_TokenHash u) as H.
  { intros i u [[<- <-]|[_ Hu]]%lookup_insert_Some; [by exists t|by exists u]. }
  split; cbn.
  - intros i j u v (u' & Hu & Eu)%H (v' & Hv & Ev)%H E. eapply (hashes_unique _ Hok); [done..|congruence].
  - intros i u (v & Hv & _)%H. by eapply (ids_below _ Hok).
  - apply (next_positive _ Hok).
Qed.

Lemma create_row_Ok (db : Tables) (ent : Entitlement) (user now : Z) (recent : bool) (bufs : list (list Z))
    (f : CreateForm) (raw : string) (p : InsertUserTokenParams) :
  create_row sha256 AddDate db ent user now recent bufs f = Ok (raw, p) →
  LooksLike raw = true ∧ i_TokenHash p = sha256 raw ∧ i_UserID p = user ∧
  i_Scopes p = NormalizeScopes (f_scopes f) ∧ i_Scopes p ≠ [] ∧ i_ExpiresAt p = expiry AddDate (f_expires_in f) now ∧
  ParseAllowlist (f_ip_allowlist f) = (i_IpAllowlist p, [], false).
Proof.
  unfold create_row. intros (u & Hlim & H)%bind_Ok_inv.
  destruct (Mint sha256 bufs) as [[[raw' hash] prefix]|] eqn:Em; [|done]. apply Mint_Ok in Em as [Hl ->].
  apply bind_Ok_inv in H as (ips & Hips & H). apply bind_Ok_inv in H as (b & _ & H). injection H as <- <-. cbn.
  split_and!; try done.
  - unfold create_limits in Hlim. do 2 (case_match; [done|]). by case_bool_decide.
  - unfold create_allowlist in Hips. destruct (ParseAllowlist _) as [[l i] t].
    case_bool_decide; [|done]. cbn in Hips. destruct t; [done|]. case_bool_decide as Hn; [congruence|].
    apply bind_Ok_inv in Hips as (? & _ & [= ->]). by subst.
Qed.

Lemma entitled_Err (ent : Entitlement) (what : string) (page : Page) (raw : string) :
  entitled ent what = Err page → page ≠ Created raw.
Proof. unfold entitled. repeat case_match; intros; by simplify_eq. Qed.

Lemma create_row_not_created (db : Tables) (ent : Entitlement) (user now : Z) (recent : bool) (bufs : list (list Z))
    (f : CreateForm) (raw : string) :
  create_row sha256 AddDate db ent user now recent bufs f ≠ Err (Created raw).
Proof.
  unfold create_row. intros [H|(u & _ & H)]%bind_Err_inv.
  { unfold create_limits in H. by repeat case_match. }
  destruct (Mint sha256 bufs) as [[[raw' hash] prefix]|]; [|done].
  apply bind_Err_inv in H as [H|(ips & _ & [H|(b & _ & H)]%bind_Err_inv)]; [| |done].
  - unfold create_allowlist in H. destruct (ParseAllowlist _) as [[l i] t].
    repeat (case_match; [done|]). by apply bind_Err_inv in H as [H%(entitled_Err _ _ _ raw)|(? & _ & ?)].
  - unfold create_binding in H. repeat (case_match; try done).
    by apply bind_Err_inv in H as [H%(entitled_Err _ _ _ raw)|(? & _ & ?)].
Qed.

(** *** A revoked token stays refused *)

(** Every row with this hash is revoked. *)
Definition dead_hash (h : string) (db : Tables) : Prop :=
  ∀ id t, user_tokens db !! id = Some t → t_TokenHash t = h → is_Some (t_RevokedAt t).

(** The statements that write the table of tokens, from whichever request, while no other token is minted with the
    hash; deletions are cascades, from the owner or from the repository of the binding. *)
Inductive token_write (h : string) (db : Tables) : Tables → Prop :=
  | write_insert (p : InsertUserTokenParams) (id : Z) (db' : Tables) :
      i_TokenHash p ≠ h → InsertUserToken db p = Some (id, db') → token_write h db db'
  | write_revoke (now id user n : Z) (db' : Tables) :
      RevokeUserToken db now id user = Some (n, db') → token_write h db db'
  | write_touch (now id : Z) (ip : option Addr) : token_write h db (TouchUserTokenLastUsed db now id ip)
  | write_other (db' : Tables) : user_tokens db' ⊆ user_tokens db → token_write h db db'.

Lemma revoke_dead (h : string) (db db' : Tables) (now id user n : Z) :
  RevokeUserToken db now id user = Some (n, db') → dead_hash h db → dead_hash h db'.
Proof.
  unfold RevokeUserToken. destruct (fault db QRevokeToken); [done|].
  destruct (user_tokens db !! id) as [t|] eqn:Et; [|by intros [= _ <-]].
  destruct (bool_decide _ && bool_decide _); intros [= _ <-]; [|done]. intros H i u.
  cbn. intros [[<- <-]|[_ Hu]]%lookup_insert_Some Hh; [done|by eapply H].
Qed.

Lemma write_dead (h : string) (db db' : Tables) : token_write h db db' → dead_hash h db → dead_hash h db'.
Proof.
  intros [p id db1 Hp Hi|now id user n db1 Hr|now id ip|db1 Hsub] H; [|by eapply revoke_dead| |]; intros i t Ht Hh.
  - apply InsertUserToken_Some in Hi as (_ & _ & _ & _ & _ & _ & _ & row & E & _ & Rh & _). rewrite E in Ht.
    apply lookup_insert_Some in Ht as [[_ <-]|[_ Ht]]; [congruence|by eapply H].
  - cbn in Ht. apply lookup_alter_Some in Ht as [(-> & u & Hu & ->)|[_ Ht]]; [cbn in *|]; by eapply H.
  - eapply H; [|exact Hh]. by eapply lookup_weaken.
Qed.

Lemma writes_dead (h : string) (db db' : Tables) : rtc (token_write h) db db' → dead_hash h db → dead_hash h db'.
Proof. induction 1 as [|db db1 db' Hw _ IH]; [done|]. intros H. by eapply IH, write_dead. Qed.

(** A token whose rows are revoked authenticates nobody, neither to the middleware nor for git. *)
Lemma dead_refused (db : Tables) (deb : Debouncer) (now : Z) (raw : string) (r : Request) (auth : PATAuth) :
  dead_hash (sha256 raw) db → extractPAT ToLower r = Ok raw →
  (PATAuthMiddleware sha256 ToLower db deb now r).1.1 ≠ Next auth.
Proof.
  intros Hd Hx. unfold PATAuthMiddleware. rewrite Hx.
  destruct (check_token sha256 db now r raw) as [[row a]|e] eqn:Ec; [|done]. exfalso. revert Ec. unfold check_token.
  intros (hash & (Hl & ->)%or_err_Ok%ok_of_Some%HashOf_Ok & H)%bind_Ok_inv.
  apply bind_Ok_inv in H as ([id t] & (Hf1 & Ht & Hh)%or_err_Ok%GetUserTokenByHash_Some & H).
  destruct (Hd id t Ht Hh) as [at_ E]. by rewrite E in H.
Qed.

Lemma dead_git (db : Tables) (now : Z) (raw : string) :
  dead_hash (sha256 raw) db → resolveViaPAT sha256 db now raw = None.
Proof.
  intros Hd. destruct (resolveViaPAT sha256 db now raw) as [a|] eqn:E; [|done]. exfalso. revert E. unfold resolveViaPAT.
  intros (hash & (Hl & ->)%ok_of_Some%HashOf_Ok & H)%bind_Some.
  apply bind_Some in H as ([id t] & (Hf1 & Ht & Hh)%GetUserTokenByHash_Some & H).
  destruct (Hd id t Ht Hh) as [at_ E]. by rewrite E in H.
Qed.

(** The revocation by the owner revokes the row, and with it all rows of its hash. *)
Lemma tokensRevoke_dead (db db' : Tables) (now id user : Z) (idStr : string) (row : UserToken) :
  tables_ok db → user_tokens db !! id = Some row → ParseInt idStr = Some id →
  tokensRevoke db now user idStr = (None, db') → tables_ok db' ∧ dead_hash (t_TokenHash row) db' ∧ fault db' = fault db ∧
  user_tokens db' !! id = Some (set_revoked now row).
Proof.
  intros Hok Hrow Hid. unfold tokensRevoke. rewrite Hid.
  destruct (RevokeUserToken db now id user) as [[n db1]|] eqn:Er; [|done].
  pose proof (revoke_tables_ok _ _ _ _ _ _ Hok Er) as Hok1. revert Er. unfold RevokeUserToken.
  destruct (fault db QRevokeToken); [done|]. rewrite Hrow.
  destruct (bool_decide _ && bool_decide _); intros [= <- <-]; cbn; [|done]. intros [= <-]. split_and!; [done| |done|].
  - intros i t Ht Hh. assert (i = id) as ->.
    { eapply (hashes_unique _ Hok1); [exact Ht|apply lookup_insert_eq|done]. }
    cbn in Ht. rewrite lookup_insert_eq in Ht. by injection Ht as <-.
  - apply lookup_insert_eq.
Qed.

Lemma revoked_refused (db : Tables) (deb : Debouncer) (now now' id : Z) (raw : string) (row : UserToken) (r : Request) :
  tables_ok db → lookups_work db → user_tokens db !! id = Some (set_revoked now row) → t_TokenHash row = sha256 raw →
  LooksLike raw = true → extractPAT ToLower r = Ok raw →
  (PATAuthMiddleware sha256 ToLower db deb now' r).1.1 = Challenge "token revoked".
Proof.
  intros Hok (Hf & _) Hrow Hh Hl Hx. unfold PATAuthMiddleware. rewrite Hx. unfold check_token.
  rewrite (proj2 (HashOf_Ok raw (sha256 raw))) by done. cbn.
  rewrite <- Hh. change (t_TokenHash row) with (t_TokenHash (set_revoked now row)).
  by rewrite (GetUserTokenByHash_found _ id) by done.
Qed.

Lemma tokensCreate_ok (db : Tables) (ent : Entitlement) (user now : Z) (recent : bool) (bufs : list (list Z))
    (f : CreateForm) : tables_ok db → tables_ok (tokensCreate sha256 AddDate db ent user now recent bufs f).2.
Proof.
  intros Hok. unfold tokensCreate. destruct (create_row _ _ _ _ _ _ _ _ _) as [[raw p]|page]; [|done].
  destruct (InsertUserToken db p) as [[id db1]|] eqn:Ei; [|done]. by eapply insert_tables_ok.
Qed.

Lemma create_row_source (db : Tables) (ent : Entitlement) (user now : Z) (recent : bool) (bufs : list (list Z))
    (f : CreateForm) (raw : string) (p : InsertUserTokenParams) :
  create_row sha256 AddDate db ent user now recent bufs f = Ok (raw, p) → i_Source p = SourceUserCreated.
Proof.
  unfold create_row. intros (u & _ & H)%bind_Ok_inv. destruct (Mint sha256 bufs) as [[[raw' hash] prefix]|]; [|done].
  apply bind_Ok_inv in H as (ips & _ & H). apply bind_Ok_inv in H as (b & _ & H). by injection H as _ <-.
Qed.

(** What the form says of an IPv4 client: there is no entry, or the address is in one of those typed. *)
Definition form_allows (raw : string) (ip : Addr) : Prop :=
  TrimSpace raw = "" ∨ (∀ e, e ∈ FieldsFunc allow_sep raw → TrimSpace e = "") ∨
  ∃ p, typed (FieldsFunc allow_sep raw) p ∧ Prefix_Contains p ip = true.

Lemma form_address (raw : string) (row : UserToken) (n : Z) (r : Request) :
  ParseAllowlist raw = (t_IpAllowlist row, [], false) → 0 <= n < 2 ^ 32 → RealIPFromContext r = string4 n →
  address_ok row r ↔ form_allows raw (V4 n).
Proof.
  intros Hp Hn Hr. rewrite (address_v4 n) by done. unfold form_allows.
  destruct (decide (TrimSpace raw = "")) as [He|He].
  { unfold ParseAllowlist in Hp. rewrite bool_decide_eq_true_2 in Hp by done. injection Hp as <-. naive_solver. }
  pose proof (ParseAllowlist_enforced raw _ (V4 n) Hp He) as H. cbn in H.
  destruct (decide (t_IpAllowlist row = [])) as [E|E].
  - unfold IPMatch in H. rewrite bool_decide_eq_true_2 in H by done. naive_solver.
  - rewrite IPMatch_listed in H by done. cbn in H. naive_solver.
Qed.

(** C27: The token that the settings page shows after creating it works, and works only as far as was chosen: in the tables
    that the creation leaves, if the look-ups work and its owner is in good standing, it authenticates the owner, with the known scopes of the form, exactly until its expiry
    and from the addresses that the row allows, which for IPv4 clients are those of the entries typed in the form. Once
    its owner has revoked it, it is refused as revoked, and whatever is then written to the table of tokens, no request
    that carries it is ever let through, neither by the middleware nor as the password of git, unless another token is
    minted with the same hash. *)
Theorem created_token (db db' : Tables) (ent : Entitlement) (user now : Z) (recent : bool) (bufs : list (list Z))
    (f : CreateForm) (raw : string) :
  tables_ok db →
  tokensCreate sha256 AddDate db ent user now recent bufs f = (Created raw, db') →
  tables_ok db' ∧ ∃ id row,
    user_tokens db' !! id = Some row ∧ t_UserID row = user ∧ t_Scopes row = NormalizeScopes (f_scopes f) ∧
    t_Scopes row ≠ [] ∧
    (∀ n r, 0 <= n < 2 ^ 32 → RealIPFromContext r = string4 n →
      address_ok row r ↔ form_allows (f_ip_allowlist f) (V4 n)) ∧
    (∀ deb now' r u,
      lookups_work db → extractPAT ToLower r = Ok raw →
      users db !! user = Some u → u_Deleted u = false → u_Suspended u = false →
      (PATAuthMiddleware sha256 ToLower db' deb now' r).1.1 = Next (auth_of db' id row u) ↔
      address_ok row r ∧ ∀ e, expiry AddDate (f_expires_in f) now = Some e → now' <= e) ∧
    (∀ idStr now' db1,
      ParseInt idStr = Some id → tokensRevoke db' now' user idStr = (None, db1) →
      (∀ deb now'' r, lookups_work db → extractPAT ToLower r = Ok raw →
        (PATAuthMiddleware sha256 ToLower db1 deb now'' r).1.1 = Challenge "token revoked") ∧
      ∀ db2 deb now'' r auth, rtc (token_write (sha256 raw)) db1 db2 →
        (extractPAT ToLower r = Ok raw → (PATAuthMiddleware sha256 ToLower db2 deb now'' r).1.1 ≠ Next auth) ∧
        resolveViaPAT sha256 db2 now'' raw = None).
Proof.
  intros Hok. unfold tokensCreate.
  destruct (create_row _ _ _ _ _ _ _ _ _) as [[raw' p]|page] eqn:Ep; [|intros [= -> _]]; cycle 1.
  { by apply create_row_not_created in Ep. }
  destruct (InsertUserToken db p) as [[id db1]|] eqn:Ei; [|done]. intros [= -> ->].
  pose proof (insert_tables_ok _ _ _ _ Hok Ei) as Hok'.
  apply create_row_Ok in Ep as (Hl & Hh & Hu & Hs & Hne & He & Hips).
  apply InsertUserToken_Some in Ei as (_ & _ & _ & Eu & _ & _ & Ef & row & Et & Ru & Rh & Rs & Re & Rr & Ri & _).
  assert (user_tokens db' !! id = Some row) as Hrow by (rewrite Et; apply lookup_insert_eq).
  split; [done|]. exists id, row. split_and!; try congruence.
  - intros n r. apply form_address. congruence.
  - intros deb now' r u Hw Hx Hu1 Hu2 Hu3. rewrite PATAuth_spec by done. split.
    + intros [[Ha _]|(raw2 & id2 & row2 & u2 & Hx2 & _ & _ & Hr2 & Hh2 & Hlive & Ha2 & _)].
      { unfold extractPAT in Hx. by rewrite Ha in Hx. }
      assert (raw2 = raw) as -> by congruence. assert (id2 = id) as -> by (eapply (hashes_unique _ Hok'); [done..|congruence]).
      assert (row2 = row) as -> by congruence. split; [done|]. intros e E. apply Hlive. congruence.
    + intros [Ha Hexp]. right. exists raw, id, row, u.
      unfold lookups_work, live in *. rewrite Ef, Eu. destruct_and! Hw. split_and!; try done; try congruence.
      intros e E. apply Hexp. congruence.
  - intros idStr now' db1 Hid Hrev.
    destruct (tokensRevoke_dead _ _ _ _ _ _ _ Hok' Hrow Hid Hrev) as (Hok1 & Hd & Ef1 & Hr1).
    assert (t_TokenHash row = sha256 raw) as Hh1 by congruence. rewrite Hh1 in Hd. split.
    + intros deb now'' r Hw Hx. unfold lookups_work in *. rewrite <- Ef, <- Ef1 in Hw. by eapply revoked_refused.
    + intros db2 deb now'' r auth Hws. pose proof (writes_dead _ _ _ Hws Hd) as Hd2.
      split; [by apply dead_refused|by apply dead_git].
Qed.

(** *** Git over HTTPS *)

(** As the password of git over HTTPS a token is good exactly when it is a live one: neither its scopes nor its
    allowlist nor the address of the client is looked at, only the binding to a repository is handed on. *)
Theorem resolveViaPAT_iff (db : Tables) (now : Z) (raw : string) (a : resolvedAuth) :
  tables_ok db →
  resolveViaPAT sha256 db now raw = Some a ↔
  LooksLike raw = true ∧ lookups_work db ∧ ∃ id row user,
    user_tokens db !! id = Some row ∧ t_TokenHash row = sha256 raw ∧ live db now row user ∧
    a = MkResolved (t_UserID row) (u_Username user) (bool_decide (t_UserID row ∈ user_totp db)) true
          (default 0 (t_RepoID row)).
Proof.
  intros Hok. unfold resolveViaPAT, live, lookups_work. split.
  - intros (hash & (Hl & ->)%ok_of_Some%HashOf_Ok & H)%bind_Some.
    apply bind_Some in H as ([id t] & (Hf1 & Ht & Hh)%GetUserTokenByHash_Some & H).
    destruct (t_RevokedAt t) eqn:Er; [done|]. cbn in H. destruct (expired t now) eqn:Ee; [done|].
    apply bind_Some in H as (user & (Hf2 & Hu & Hd)%GetUserByID_Some & H).
    destruct (u_Suspended user) eqn:Es; [done|]. apply bind_Some in H as (b & H2 & [= <-]).
    unfold HasConfirmedUserTOTP in H2. destruct (fault db QHasTOTP); [done|]. injection H2 as <-.
    rewrite expired_false in Ee. split_and!; try done. by exists id, t, user.
  - intros (Hl & (Hf1 & Hf2 & Hf3) & id & row & user & Ht & Hh & (Hr & He & Hu & Hd & Hs) & ->).
    rewrite (proj2 (HashOf_Ok raw (sha256 raw))) by done. cbn.
    rewrite <- Hh, (GetUserTokenByHash_found db id row) by done. cbn.
    rewrite Hr, (proj2 (expired_false row now)) by done. cbn.
    rewrite (proj2 (GetUserByID_Some db _ user)) by done. cbn. rewrite Hs.
    unfold HasConfirmedUserTOTP. by rewrite Hf3.
Qed.
End Auth.

(** ** Inputs *)

(** A stand-in for SHA-256: the last 32 bytes. *)
Definition last32 (s : string) : string := str_drop (String.length s - 32) s.

Definition lower (s : string) : string := str_map ascii_lower s.

Definition no_calendar (t y m d : Z) : Z := t + d * 86400.

Definition zeroes : list (list Z) := [replicate 64 0].

Definition sampleRaw : string := "shithub_pat_AAAAAAAAAAAAAAAAAAAAAAAAAAAAAAAA".

Definition sampleUser : User := MkUser "ada" "" false false false.

Definition sampleTables : Tables := MkTables ∅ 1 {[ 7 := sampleUser ]} ∅ ∅ (fun _ => false).

Definition sampleForm : CreateForm :=
  MkForm "laptop" ["repo:read"; "root"] "30" (" 192.0.2.0/24," +:+ String "010" "2001:db8::/32, ") "".

Definition sampleEnt : Entitlement := MkEntitlement (Some true) true (fun _ => "").

Definition sampleCreated : Tables := (tokensCreate last32 no_calendar sampleTables sampleEnt 7 100 true zeroes sampleForm).2.

Definition from (auth ip : string) : Request := MkRequest auth "" (ip +:+ ":4000") None.

Lemma sampleTables_ok : tables_ok sampleTables.
Proof. split; cbn; done. Qed.

Lemma ParseAllowlist_enforced_witness :
  IPMatch ["192.0.2.0/24"; "2001:db8::/32"] (Some (V4 3221225985)) = true ∧
  ((∀ e, e ∈ FieldsFunc allow_sep (f_ip_allowlist sampleForm) → TrimSpace e = "") ∨
   ∃ p, typed (FieldsFunc allow_sep (f_ip_allowlist sampleForm)) p ∧ Prefix_Contains p (Unmap (V4 3221225985)) = true).
Proof.
  split; [reflexivity|].
  apply (ParseAllowlist_enforced (f_ip_allowlist sampleForm) ["192.0.2.0/24"; "2001:db8::/32"]); [reflexivity|done|reflexivity].
Defined.

Lemma debounce_grants_witness :
  let calls := [CallTouch 100 1; CallTouch 110 1; CallTouch 110 2; CallForget 1; CallTouch 120 1; CallTouch 170 2] in
  debounce (NewDebouncer 60) calls = grants (window (NewDebouncer 60)) [] calls ∧ debounce (NewDebouncer 60) calls = [true; false; true; true; true].
Proof. split; [apply (debounce_grants 60 _ 0); cbn; lia|reflexivity]. Defined.

(** The token is used by the address of the form and not by another; it is revoked; then another token is minted. *)
Definition laterForm : CreateForm := MkForm "other" ["repo:read"] "" "" "".

Definition sampleRevoked : Tables := (tokensRevoke sampleCreated 300 7 "1").2.

Definition sampleLater : Tables :=
  TouchUserTokenLastUsed
    (tokensCreate last32 no_calendar sampleRevoked sampleEnt 7 400 true [replicate 64 1] laterForm).2 500 1 None.

Lemma created_token_witness :
  (PATAuthMiddleware last32 lower sampleCreated (NewDebouncer 0) 2592100 (from ("Bearer " +:+ sampleRaw) "192.0.2.9")).1.1
    = Next (MkPATAuth 7 "ada" 1 ["repo:read"] 0 false false false) ∧
  (PATAuthMiddleware last32 lower sampleRevoked (NewDebouncer 0) 301 (from ("Bearer " +:+ sampleRaw) "192.0.2.9")).1.1
    = Challenge "token revoked" ∧
  size (user_tokens sampleLater) = 2%nat ∧ resolveViaPAT last32 sampleLater 600 sampleRaw = None.
Proof.
  destruct (created_token last32 lower no_calendar sampleTables sampleCreated sampleEnt 7 100 true zeroes sampleForm sampleRaw
              sampleTables_ok) as (_ & id & row & Ht & _ & _ & _ & _ & H & R); [vm_compute; reflexivity|].
  assert (id = 1) as -> by (vm_compute in Ht; destruct id as [|[]|]; done).
  vm_compute in Ht. injection Ht as <-.
  destruct (R "1" 300 sampleRevoked) as [R1 R2]; [reflexivity|vm_compute; reflexivity|].
  split_and!; [| |vm_compute; reflexivity|].
  - refine (proj2 (H (NewDebouncer 0) 2592100 (from ("Bearer " +:+ sampleRaw) "192.0.2.9") sampleUser _ _ _ _ _) _);
      [done|vm_compute; reflexivity|reflexivity|reflexivity|reflexivity|]. split.
    + right. exists (V4 3221225993). split; [vm_compute; reflexivity|]. apply match_entries_listed. vm_compute. reflexivity.
    + intros e [= <-]. done.
  - apply R1; [done|vm_compute; reflexivity].
  - refine (proj2 (R2 sampleLater (NewDebouncer 0) 600 (from "" "192.0.2.9") noAuth _)).
    eapply rtc_l; [|apply rtc_once, write_touch].
    destruct (InsertUserToken sampleRevoked (MkInsert 7 "other" (last32 (TokenPrefix +:+ "BBBBBBBBBBBBBBBBBBBBBBBBBBBBBBBB"))
      (TokenPrefix +:+ "BBBB") ["repo:read"] None [] None SourceUserCreated)) as [[n db']|] eqn:E; [|by vm_compute in E].
    eapply write_insert; [|etrans; [exact E|]]; [by vm_compute|]. vm_compute in E. injection E as <- <-. vm_compute. reflexivity.
Defined.

Lemma sampleCreated_ok : tables_ok sampleCreated.
Proof. apply tokensCreate_ok, sampleTables_ok. Qed.


(** The same token, whose only scope is repo:read and whose allowlist keeps the address out, can be used for git. *)
Lemma resolveViaPAT_iff_witness :
  resolveViaPAT last32 sampleCreated 200 sampleRaw = Some (MkResolved 7 "ada" false true 0).
Proof.
  apply (resolveViaPAT_iff last32 lower); [apply sampleCreated_ok|]. split; [reflexivity|]. split; [by unfold lookups_work; split_and!|].
  eexists 1, _, sampleUser. unfold live. split_and!; try (vm_compute; reflexivity).
  intros e [= <-]. done.
Defined.

(** An IPv6 client is never in an allowlist, unless the last group of its address is taken for a port. *)
Example ex_ipv6_port :
  remoteAddrFromRequest (MkRequest "" "" "[2001:db8::1]:4000" (Some "2001:db8::1")) = None ∧
  remoteAddrFromRequest (MkRequest "" "" "[2001:db8::1:ffff]:4000" (Some "2001:db8::1:ffff")) = ParseAddr "2001:db8::1" ∧
  IPMatch ["2001:db8::1/128"] (ParseAddr "2001:db8::1:ffff") = false ∧
  IPMatch ["2001:db8::1/128"] (remoteAddrFromRequest (MkRequest "" "" "" (Some "2001:db8::1:ffff"))) = true.
Proof. split_and!; vm_compute; reflexivity. Qed.

(** Behind a proxy it is taken for the proxy. *)
Example ex_ipv6_proxy : remoteAddrFromRequest (MkRequest "" "" "10.0.0.1:99" (Some "2001:db8::1")) = ParseAddr "10.0.0.1".
Proof. vm_compute. reflexivity. Qed.

(** An entry in the mapped form is accepted and matches nothing, not even what it names. *)
Example ex_mapped_entry :
  ParseAllowlist "::ffff:192.0.2.1" = (["::ffff:192.0.2.1/128"], [], false) ∧
  IPMatch ["::ffff:192.0.2.1/128"] (ParseAddr "::ffff:192.0.2.1") = false.
Proof. split; vm_compute; reflexivity. Qed.

Example ex_real_ip :
  let proxies := match ParseCIDR "10.0.0.0/8" with Some n => [n] | None => [] end in
  resolveRealIP (MkRequest "" "1.1.1.1, 203.0.113.7, 10.0.0.2" "10.0.0.1:99" None) proxies = "203.0.113.7" ∧
  resolveRealIP (MkRequest "" "1.1.1.1" "203.0.113.9:99" None) proxies = "203.0.113.9".
Proof. split; vm_compute; reflexivity. Qed.

Example ex_basic : extractPAT lower (from "Basic YWRhOnNoaXRodWJfcGF0" "192.0.2.9") = Ok "shithub_pat".
Proof. vm_compute. reflexivity. Qed.

Example ex_route_prefix :
  RoutePrefix lower "/api/v1/Repos/ada/demo" = "/api/v1/repos" ∧ RoutePrefix lower "/ada/1234" = "/ada/:id" ∧
  RoutePrefix lower "//" = "/".
Proof. split_and!; vm_compute; reflexivity. Qed.

Lemma resolveRealIP_unforgeable_witness :
  resolveRealIP (MkRequest "" "1.1.1.1, 203.0.113.7, 10.0.0.2" "10.0.0.1:99" None) [MkIPNet [10; 0; 0; 0] [255; 0; 0; 0]]
    = "203.0.113.7".
Proof.
  rewrite (proj2 (resolveRealIP_unforgeable (MkRequest "" "1.1.1.1, 203.0.113.7, 10.0.0.2" "10.0.0.1:99" None) _)
             "1.1.1.1" " 203.0.113.7, 10.0.0.2" eq_refl); [reflexivity|].
  left. split; [discriminate|reflexivity].
Defined.
