(* ===== verification/DeviceCode.v ===== *)
(** * DeviceCode: the device authorization grant (RFC 8628)

    internal/auth/devicecode, the statements of users/queries/device_authorizations.sql, the handlers of
    web/handlers/auth/device_api.go and device_html.go, and the daily sweep of worker/jobs/devicecode.go.  Approve, Deny
    and Exchange read the grant first and write later: [Approve_begin] and [Approve_write], and so on, are the halves,
    and [dstep] lets anything happen in between.  Times are in nanoseconds; the clocks of the server and of the database
    are two arguments. *)

From S2P Require Import Prelude GoString NetIP Policy Tokens.
Local Open Scope Z_scope.

(** ** Data *)

Record DeviceAuthorization := MkGrant {
  DeviceCodeHash : string; UserCode : string; ClientID : string; GScopes : list string; GUserID : option Z;
  ApprovedAt : option Z; DeniedAt : option Z; IssuedTokenID : option Z; IntervalSeconds : Z; ExpiresAt : Z;
  LastPolledAt : option Z
}.

Inductive DevErr :=
  | ErrUnauthorizedClient | ErrInvalidScope | ErrInvalidGrant | ErrAuthorizationPending | ErrSlowDown
  | ErrAccessDenied | ErrExpiredToken | ErrAlreadyTerminal | ErrOther.

#[export] Instance DevErr_eq_dec : EqDecision DevErr.
Proof. solve_decision. Defined.

Record Config := MkConfig { ClientIDs : list string; DefaultScopes : list string; ExpiresIn : Z; PollInterval : Z }.

Definition second : Z := 1000000000.
Definition minute : Z := 60 * second.

Definition Defaults : Config := MkConfig ["shithub-cli"] ["user:read"] (15 * minute) (5 * second).

Definition effective (c : Config) : Config :=
  MkConfig (ClientIDs c)
    (if bool_decide (length (DefaultScopes c) = 0%nat) then ["user:read"] else DefaultScopes c)
    (if (ExpiresIn c <=? 0) || (30 * minute <? ExpiresIn c) then 15 * minute else ExpiresIn c)
    (if (PollInterval c <=? 0) || (minute <? PollInterval c) then 5 * second else PollInterval c).

Inductive GQuery := QInsertGrant | QGrantByHash | QGrantByUserCode | QGrantByID | QApprove | QDeny | QTouch | QLock | QStamp.

(** The table of grants next to those of tokens; [gfault] tells which statements fail. *)
Record Sys := MkSys {
  device_authorizations : gmap Z DeviceAuthorization; next_grant : Z; tables : Tables; gfault : GQuery → bool
}.

Definition with_grants (s : Sys) (m : gmap Z DeviceAuthorization) : Sys :=
  MkSys m (next_grant s) (tables s) (gfault s).

(** ** Codes and scopes *)

Definition allowedClient (allow : list string) (clientID : string) : bool :=
  existsb (fun v => bool_decide (v = clientID)) allow.

Definition scope_sep (c : ascii) : bool := is_byte c "," || is_byte c " ".

(** The loop of parseScopes: [seen] holds what [out] holds. *)
Fixpoint scope_loop (raw out : list string) : res DevErr (list string) :=
  match raw with
  | [] => Ok out
  | s :: raw =>
      let s := TrimSpace s in
      if bool_decide (s = "") then scope_loop raw out
      else if negb (ValidScope s) then Err ErrInvalidScope
      else if bool_decide (s ∈ out) then scope_loop raw out
      else scope_loop raw (out ++ [s])
  end.

Definition parseScopes (input : string) (defaults : list string) : res DevErr (list string) :=
  let input := TrimSpace input in
  if bool_decide (input = "") then Ok defaults
  else
    out ← scope_loop (FieldsFunc scope_sep input) [];
    Ok (if bool_decide (length out = 0%nat) then out ++ defaults else out).

Definition hexd (n : Z) : ascii := default "0"%char (String.get (Z.to_nat n) "0123456789abcdef").

Fixpoint hexEncode (b : list Z) : string :=
  match b with
  | [] => ""
  | v :: b => String (hexd (Z.shiftr v 4)) (String (hexd (Z.land v 15)) (hexEncode b))
  end.

Definition code_alphabet : string := "ABCDEFGHJKLMNPQRSTUVWXYZ23456789".

Definition code_char (b : Z) : ascii := default "A"%char (String.get (Z.to_nat (b mod 32)) code_alphabet).

(** The loop of newUserCode; [i] is the index of the next byte. *)
Fixpoint user_code (i : nat) (buf : list Z) : string :=
  match buf with
  | [] => ""
  | b :: buf => String (code_char b) ((if bool_decide (i = 3%nat) then "-" else "") +:+ user_code (S i) buf)
  end.

(** rand.Read fills 8 bytes, or fails. *)
Definition newUserCode (rnd : option (list Z)) : option string := buf ← rnd; Some (user_code 0 buf).

Fixpoint str_filter (p : ascii → bool) (s : string) : string :=
  match s with "" => "" | String c s => if p c then String c (str_filter p s) else str_filter p s end.

Section Codes.
Context (sha256 ToUpper : string → string).

(** The raw code and its hash; rand.Read fills 32 bytes, or fails. *)
Definition newDeviceCode (rnd : option (list Z)) : option (string * string) :=
  buf ← rnd; let raw := hexEncode buf in Some (raw, sha256 raw).

Definition hashDeviceCode (raw : string) : option string :=
  let raw := TrimSpace raw in
  if bool_decide (raw = "") then None else Some (sha256 raw).

Definition normaliseUserCode (s : string) : string :=
  let s := str_filter (fun c => negb (is_byte c " ")) (ToUpper (TrimSpace s)) in
  if bool_decide (String.length s = 8%nat) && negb (Contains s "-") then str_take 4 s +:+ "-" +:+ str_drop 4 s else s.
End Codes.

(** ** The statements *)

(** The row of a lookup by a unique column. *)
Definition grant_by (s : Sys) (p : DeviceAuthorization → bool) : option (Z * DeviceAuthorization) :=
  head (filter (fun e => p e.2 = true) (map_to_list (device_authorizations s))).

Definition GetDeviceAuthorizationByCodeHash (s : Sys) (hash : string) : option (Z * DeviceAuthorization) :=
  if gfault s QGrantByHash then None else grant_by s (fun g => bool_decide (DeviceCodeHash g = hash)).

Definition GetDeviceAuthorizationByUserCode (s : Sys) (code : string) : option (Z * DeviceAuthorization) :=
  if gfault s QGrantByUserCode then None else grant_by s (fun g => bool_decide (UserCode g = code)).

Definition loadByID (s : Sys) (id : Z) : option DeviceAuthorization :=
  if gfault s QGrantByID then None else device_authorizations s !! id.

(** The constraints: unique hash and code, their sizes, texts. *)
Definition grant_ok (s : Sys) (g : DeviceAuthorization) : bool :=
  bool_decide (grant_by s (fun g' => bool_decide (DeviceCodeHash g' = DeviceCodeHash g)) = None) &&
  bool_decide (grant_by s (fun g' => bool_decide (UserCode g' = UserCode g)) = None) &&
  bool_decide (String.length (DeviceCodeHash g) = 32%nat) &&
  between 4 (Z.of_nat (RuneCountInString (UserCode g))) 32 &&
  text_ok (UserCode g) && text_ok (ClientID g) && forallb text_ok (GScopes g).

#[export] Instance DeviceAuthorization_eq_dec : EqDecision DeviceAuthorization.
Proof. solve_decision. Defined.

Definition InsertDeviceAuthorization (s : Sys) (hash code clientID : string) (scopes : list string)
    (interval expires : Z) : option (Z * Sys) :=
  let g := MkGrant hash code clientID scopes None None None None interval expires None in
  if gfault s QInsertGrant || negb (grant_ok s g) then None
  else Some (next_grant s, MkSys (<[next_grant s := g]> (device_authorizations s)) (next_grant s + 1) (tables s) (gfault s)).

Definition set_approved (user now : Z) (g : DeviceAuthorization) : DeviceAuthorization :=
  MkGrant (DeviceCodeHash g) (UserCode g) (ClientID g) (GScopes g) (Some user) (Some now) (DeniedAt g) None
    (IntervalSeconds g) (ExpiresAt g) (LastPolledAt g).

Definition set_denied (now : Z) (g : DeviceAuthorization) : DeviceAuthorization :=
  MkGrant (DeviceCodeHash g) (UserCode g) (ClientID g) (GScopes g) (GUserID g) (ApprovedAt g) (Some now)
    (IssuedTokenID g) (IntervalSeconds g) (ExpiresAt g) (LastPolledAt g).

Definition set_polled (now : Z) (g : DeviceAuthorization) : DeviceAuthorization :=
  MkGrant (DeviceCodeHash g) (UserCode g) (ClientID g) (GScopes g) (GUserID g) (ApprovedAt g) (DeniedAt g)
    (IssuedTokenID g) (IntervalSeconds g) (ExpiresAt g) (Some now).

Definition set_issued (token : option Z) (g : DeviceAuthorization) : DeviceAuthorization :=
  MkGrant (DeviceCodeHash g) (UserCode g) (ClientID g) (GScopes g) (GUserID g) (ApprovedAt g) (DeniedAt g)
    token (IntervalSeconds g) (ExpiresAt g) (LastPolledAt g).

Definition pending (g : DeviceAuthorization) : bool :=
  bool_decide (ApprovedAt g = None) && bool_decide (DeniedAt g = None).

(** The WHERE clause of ApproveDeviceAuthorization. *)
Definition approvable (s : Sys) (now id : Z) : bool :=
  match device_authorizations s !! id with Some g => pending g && bool_decide (now < ExpiresAt g) | None => false end.

(** None when the statement fails: also when a row would refer to a user that is not there. *)
Definition ApproveDeviceAuthorization (s : Sys) (now id user : Z) : option Sys :=
  if gfault s QApprove then None
  else if approvable s now id then
    if bool_decide (is_Some (users (tables s) !! user))
    then Some (with_grants s (alter (set_approved user now) id (device_authorizations s)))
    else None
  else Some s.

Definition deniable (s : Sys) (id : Z) : bool :=
  match device_authorizations s !! id with Some g => pending g | None => false end.

Definition DenyDeviceAuthorization (s : Sys) (now id : Z) : option Sys :=
  if gfault s QDeny then None
  else if deniable s id then Some (with_grants s (alter (set_denied now) id (device_authorizations s)))
  else Some s.

(** Its error is ignored by the callers. *)
Definition TouchDeviceAuthorizationPoll (s : Sys) (now id : Z) : Sys :=
  if gfault s QTouch then s else with_grants s (alter (set_polled now) id (device_authorizations s)).

Definition DeleteExpiredDeviceAuthorizations (s : Sys) (now : Z) : Sys :=
  with_grants s (filter (fun e => now - 24 * 60 * minute <= ExpiresAt e.2) (device_authorizations s)).

(** ON DELETE CASCADE and ON DELETE SET NULL, when tokens go, and grants of a user. *)
Definition delete_tokens (s : Sys) (gone : UserToken → bool) (user : option Z) : Sys :=
  let kept := filter (fun e => gone e.2 = false) (user_tokens (tables s)) in
  let keep_issued (g : DeviceAuthorization) :=
    match IssuedTokenID g with
    | Some t => if bool_decide (is_Some (kept !! t)) then g else set_issued None g
    | None => g
    end in
  MkSys (keep_issued <$> filter (fun e => user = None ∨ GUserID e.2 ≠ user) (device_authorizations s))
    (next_grant s) (with_tokens (tables s) kept (next_id (tables s))) (gfault s).

Definition drop_user (db : Tables) (user : Z) : Tables :=
  MkTables (user_tokens db) (next_id db) (delete user (users db)) (user_totp db ∖ {[user]}) (repos db) (fault db).

Definition delete_user (s : Sys) (user : Z) : Sys :=
  let s := delete_tokens s (fun t => bool_decide (t_UserID t = user)) (Some user) in
  MkSys (device_authorizations s) (next_grant s) (drop_user (tables s) user) (gfault s).

Definition delete_repo (s : Sys) (repo : Z) : Sys :=
  delete_tokens s (fun t => bool_decide (t_RepoID t = Some repo)) None.

(** ** devicecode.go *)

Record AuthorizationResult := MkAuthorization {
  a_DeviceCode : string; a_UserCode : string; a_ExpiresIn : Z; a_PollInterval : Z; a_ClientID : string;
  a_Scopes : list string
}.

Record ExchangeResult := MkExchange { AccessToken : string; TokenType : string; e_Scopes : list string }.

Section Ops.
Context (sha256 ToUpper : string → string).

Definition Create (s : Sys) (cfg : Config) (clientID scopeInput : string) (rnd1 rnd2 : option (list Z)) (now : Z)
  : res DevErr AuthorizationResult * Sys :=
  let c := effective cfg in
  if negb (allowedClient (ClientIDs c) clientID) then (Err ErrUnauthorizedClient, s)
  else
    match parseScopes scopeInput (DefaultScopes c) with
    | Err e => (Err e, s)
    | Ok scopes =>
        match newDeviceCode sha256 rnd1, newUserCode rnd2 with
        | Some (raw, hash), Some userCode =>
            match InsertDeviceAuthorization s hash userCode clientID scopes (PollInterval c / second) (now + ExpiresIn c) with
            | None => (Err ErrOther, s)
            | Some (_, s) => (Ok (MkAuthorization raw userCode (ExpiresIn c) (PollInterval c) clientID scopes), s)
            end
        | _, _ => (Err ErrOther, s)
        end
    end.

Definition LookupByUserCode (s : Sys) (userCode : string) : res DevErr (Z * DeviceAuthorization) :=
  match GetDeviceAuthorizationByUserCode s (normaliseUserCode ToUpper userCode) with
  | Some row => Ok row
  | None => Err ErrInvalidGrant
  end.

(** What Approve finds before it writes. *)
Definition Approve_begin (s : Sys) (now rowID : Z) : res DevErr () :=
  match loadByID s rowID with
  | None => Err ErrInvalidGrant
  | Some full =>
      if negb (pending full) then Err ErrAlreadyTerminal
      else if ExpiresAt full <? now then Err ErrExpiredToken
      else Ok ()
  end.

(** The write, which succeeds also when it changes no row. *)
Definition Approve_write (s : Sys) (dbnow rowID userID : Z) : res DevErr () * Sys :=
  match ApproveDeviceAuthorization s dbnow rowID userID with
  | None => (Err ErrOther, s)
  | Some s => (Ok (), s)
  end.

Definition Approve (s : Sys) (now dbnow rowID userID : Z) : res DevErr () * Sys :=
  match Approve_begin s now rowID with
  | Err e => (Err e, s)
  | Ok _ => Approve_write s dbnow rowID userID
  end.

Definition Deny_begin (s : Sys) (rowID : Z) : res DevErr () :=
  match loadByID s rowID with
  | None => Err ErrInvalidGrant
  | Some full => if negb (pending full) then Err ErrAlreadyTerminal else Ok ()
  end.

Definition Deny_write (s : Sys) (dbnow rowID : Z) : res DevErr () * Sys :=
  match DenyDeviceAuthorization s dbnow rowID with
  | None => (Err ErrOther, s)
  | Some s => (Ok (), s)
  end.

Definition Deny (s : Sys) (dbnow rowID : Z) : res DevErr () * Sys :=
  match Deny_begin s rowID with
  | Err e => (Err e, s)
  | Ok _ => Deny_write s dbnow rowID
  end.

(** The test of the polling interval. *)
Definition too_fast (row : DeviceAuthorization) (now : Z) : bool :=
  match LastPolledAt row with
  | Some t => now <? t + IntervalSeconds row * second
  | None => false
  end.

(** Exchange up to its transaction: the hash of the code, when it gets there. *)
Definition Exchange_begin (s : Sys) (now dbnow : Z) (clientID rawDeviceCode : string) : res DevErr string * Sys :=
  match hashDeviceCode sha256 rawDeviceCode with
  | None => (Err ErrInvalidGrant, s)
  | Some hash =>
      match GetDeviceAuthorizationByCodeHash s hash with
      | None => (Err ErrInvalidGrant, s)
      | Some (id, row) =>
          if negb (bool_decide (ClientID row = clientID)) then (Err ErrUnauthorizedClient, s)
          else if ExpiresAt row <? now then (Err ErrExpiredToken, s)
          else if bool_decide (is_Some (DeniedAt row)) then (Err ErrAccessDenied, s)
          else
            let polled := TouchDeviceAuthorizationPoll s dbnow id in
            if too_fast row now then (Err ErrSlowDown, polled)
            else if bool_decide (ApprovedAt row = None) then (Err ErrAuthorizationPending, polled)
            else if bool_decide (is_Some (IssuedTokenID row)) then (Err ErrInvalidGrant, polled)
            else if bool_decide (GUserID row = None) then (Err ErrInvalidGrant, polled)
            else (Ok hash, polled)
      end
  end.

Definition token_row (locked : DeviceAuthorization) (user : Z) (tokenName hash prefix : string) : InsertUserTokenParams :=
  MkInsert user tokenName hash prefix (GScopes locked) None [] None SourceOAuthDevice.

(** The transaction, from the locked row to the commit; an error rolls it back. *)
Definition Exchange_mint (s : Sys) (bufs : list (list Z)) (hash tokenName : string) : res DevErr ExchangeResult * Sys :=
  if gfault s QLock then (Err ErrOther, s)
  else
    match grant_by s (fun g => bool_decide (DeviceCodeHash g = hash)) with
    | None => (Err ErrOther, s)
    | Some (id, locked) =>
        if bool_decide (is_Some (IssuedTokenID locked)) then (Err ErrInvalidGrant, s)
        else
          match GUserID locked, Mint sha256 bufs with
          | None, _ => (Err ErrInvalidGrant, s)
          | _, Err _ => (Err ErrOther, s)
          | Some user, Ok (raw, hashBytes, prefix) =>
              match InsertUserToken (tables s) (token_row locked user tokenName hashBytes prefix) with
              | None => (Err ErrOther, s)
              | Some (tok, db) =>
                  if gfault s QStamp then (Err ErrOther, s)
                  else
                    (Ok (MkExchange raw "bearer" (GScopes locked)),
                     MkSys (alter (set_issued (Some tok)) id (device_authorizations s)) (next_grant s) db (gfault s))
              end
          end
    end.

Definition Exchange (s : Sys) (now dbnow : Z) (clientID rawDeviceCode tokenName : string) (bufs : list (list Z))
  : res DevErr ExchangeResult * Sys :=
  match Exchange_begin s now dbnow clientID rawDeviceCode with
  | (Err e, s) => (Err e, s)
  | (Ok hash, s) => Exchange_mint s bufs hash tokenName
  end.

(** ** device_api.go and device_html.go *)

Definition deviceCodeTokenName (userAgent : string) : string :=
  let ua := TrimSpace userAgent in
  if bool_decide (ua = "") then "device-code"
  else "device-code: " +:+ (if bool_decide (64 < String.length ua)%nat then str_take 64 ua else ua).

(** The status and the code of RFC 8628. *)
Definition writeDeviceCodeError (e : DevErr) : Z * string :=
  match e with
  | ErrUnauthorizedClient => (400, "unauthorized_client")
  | ErrInvalidScope => (400, "invalid_scope")
  | ErrInvalidGrant => (400, "invalid_grant")
  | ErrAuthorizationPending => (400, "authorization_pending")
  | ErrSlowDown => (400, "slow_down")
  | ErrAccessDenied => (400, "access_denied")
  | ErrExpiredToken => (400, "expired_token")
  | ErrAlreadyTerminal | ErrOther => (500, "server_error")
  end.

Definition deviceCodeIssue (s : Sys) (cfg : Config) (client_id scope : string) (rnd1 rnd2 : option (list Z)) (now : Z)
  : res (Z * string) AuthorizationResult * Sys :=
  let clientID := TrimSpace client_id in
  if bool_decide (clientID = "") then (Err (400, "invalid_request"), s)
  else
    match Create s cfg clientID scope rnd1 rnd2 now with
    | (Err e, s) => (Err (writeDeviceCodeError e), s)
    | (Ok auth, s) => (Ok auth, s)
    end.

Definition wantGrant : string := "urn:ietf:params:oauth:grant-type:device_code".

Definition deviceCodeExchange (s : Sys) (now dbnow : Z) (client_id device_code grantType userAgent : string)
    (bufs : list (list Z)) : res (Z * string) ExchangeResult * Sys :=
  let clientID := TrimSpace client_id in
  let deviceCode := TrimSpace device_code in
  if negb (bool_decide (grantType = wantGrant)) then (Err (400, "unsupported_grant_type"), s)
  else if bool_decide (clientID = "") || bool_decide (deviceCode = "") then (Err (400, "invalid_request"), s)
  else
    match Exchange s now dbnow clientID deviceCode (deviceCodeTokenName userAgent) bufs with
    | (Err e, s) => (Err (writeDeviceCodeError e), s)
    | (Ok r, s) => (Ok r, s)
    end.

Inductive Notice :=
  | RedirectToForm | NotRecognised | NoticeApproved | NoticeDenied | NoticeExpired | NoticeFinal | NoticeFailed.

(** deviceCodeSubmit, for a user who is signed in. *)
Definition deviceCodeSubmit (s : Sys) (now dbnow user : Z) (user_code action : string) : Notice * Sys :=
  let userCode := TrimSpace user_code in
  if bool_decide (userCode = "") then (RedirectToForm, s)
  else
    match LookupByUserCode s userCode with
    | Err _ => (NotRecognised, s)
    | Ok (id, _) =>
        let outcome (r : res DevErr () * Sys) (done : Notice) :=
          (match r.1 with
           | Ok _ => done
           | Err ErrExpiredToken => NoticeExpired
           | Err ErrAlreadyTerminal => NoticeFinal
           | Err _ => NoticeFailed
           end, r.2) in
        if bool_decide (action = "approve") then outcome (Approve s now dbnow id user) NoticeApproved
        else if bool_decide (action = "deny") then outcome (Deny s dbnow id) NoticeDenied
        else (RedirectToForm, s)
    end.

(** ** Everything at once

    A request that has read and not yet written; what has happened to the grants, the last first; any step of any
    request, of the settings page, of the sweep, of deletions, and of whatever else changes the other tables or lets
    statements fail. *)

Inductive Request := ToApprove (rowID userID : Z) | ToDeny (rowID : Z) | ToMint (hash tokenName : string).

Inductive Event :=
  | Created (grant : Z) (clientID : string) (scopes : list string) (expires : Z)
  | Approved (grant user at_ : Z)
  | Denied (grant : Z)
  | Minted (grant token user : Z) (scopes : list string).

Record World := MkWorld { sys : Sys; open_ : list Request; log : list Event }.

Definition init (db : Tables) : World := MkWorld (MkSys ∅ 1 db (fun _ => false)) [] [].

Definition log_created (s s' : Sys) (l : list Event) : list Event :=
  match device_authorizations s' !! next_grant s with
  | Some g => Created (next_grant s) (ClientID g) (GScopes g) (ExpiresAt g) :: l
  | None => l
  end.

Definition log_approved (s : Sys) (dbnow id user : Z) (l : list Event) : list Event :=
  if approvable s dbnow id then Approved id user dbnow :: l else l.

Definition log_denied (s : Sys) (id : Z) (l : list Event) : list Event :=
  if deniable s id then Denied id :: l else l.

Definition log_minted (s : Sys) (hash : string) (l : list Event) : list Event :=
  match grant_by s (fun g => bool_decide (DeviceCodeHash g = hash)) with
  | Some (id, g) => Minted id (next_id (tables s)) (default 0 (GUserID g)) (GScopes g) :: l
  | None => l
  end.

Context (AddDate : Z → Z → Z → Z → Z).

Inductive dstep : World → World → Prop :=
  | step_create s o l cfg client scope r1 r2 now a s' :
      Create s cfg client scope r1 r2 now = (Ok a, s') → dstep (MkWorld s o l) (MkWorld s' o (log_created s s' l))
  | step_approve_begin s o l now id user :
      Approve_begin s now id = Ok () → dstep (MkWorld s o l) (MkWorld s (ToApprove id user :: o) l)
  | step_approve_write s o1 o2 l dbnow id user s' :
      Approve_write s dbnow id user = (Ok (), s') →
      dstep (MkWorld s (o1 ++ ToApprove id user :: o2) l) (MkWorld s' (o1 ++ o2) (log_approved s dbnow id user l))
  | step_deny_begin s o l id :
      Deny_begin s id = Ok () → dstep (MkWorld s o l) (MkWorld s (ToDeny id :: o) l)
  | step_deny_write s o1 o2 l dbnow id s' :
      Deny_write s dbnow id = (Ok (), s') →
      dstep (MkWorld s (o1 ++ ToDeny id :: o2) l) (MkWorld s' (o1 ++ o2) (log_denied s id l))
  | step_poll s o l now dbnow client raw e s' :
      Exchange_begin s now dbnow client raw = (Err e, s') → dstep (MkWorld s o l) (MkWorld s' o l)
  | step_exchange_begin s o l now dbnow client raw name hash s' :
      Exchange_begin s now dbnow client raw = (Ok hash, s') →
      dstep (MkWorld s o l) (MkWorld s' (ToMint hash name :: o) l)
  | step_mint s o1 o2 l bufs hash name r s' :
      Exchange_mint s bufs hash name = (Ok r, s') →
      dstep (MkWorld s (o1 ++ ToMint hash name :: o2) l) (MkWorld s' (o1 ++ o2) (log_minted s hash l))
  | step_gone s o1 r o2 l : dstep (MkWorld s (o1 ++ r :: o2) l) (MkWorld s (o1 ++ o2) l)
  | step_settings s o l ent user now recent bufs f raw db :
      tokensCreate sha256 AddDate (tables s) ent user now recent bufs f = (Tokens.Created raw, db) →
      dstep (MkWorld s o l) (MkWorld (MkSys (device_authorizations s) (next_grant s) db (gfault s)) o l)
  | step_revoke s o l now id user n db :
      RevokeUserToken (tables s) now id user = Some (n, db) →
      dstep (MkWorld s o l) (MkWorld (MkSys (device_authorizations s) (next_grant s) db (gfault s)) o l)
  | step_used s o l now id ip :
      dstep (MkWorld s o l) (MkWorld (MkSys (device_authorizations s) (next_grant s)
        (TouchUserTokenLastUsed (tables s) now id ip) (gfault s)) o l)
  | step_sweep s o l now : dstep (MkWorld s o l) (MkWorld (DeleteExpiredDeviceAuthorizations s now) o l)
  | step_delete_user s o l user : dstep (MkWorld s o l) (MkWorld (delete_user s user) o l)
  | step_delete_repo s o l repo : dstep (MkWorld s o l) (MkWorld (delete_repo s repo) o l)
  | step_others s o l us totp rs f gf :
      dstep (MkWorld s o l) (MkWorld (MkSys (device_authorizations s) (next_grant s)
        (MkTables (user_tokens (tables s)) (next_id (tables s)) us totp rs f) gf) o l).
End Ops.
