(* ===== verification/DeviceCodeFacts.v ===== *)
(** * DeviceCodeFacts: what is proved of the device authorization grant *)

From S2P Require Import Prelude GoString NetIP NetIPFacts Policy Tokens TokensFacts DeviceCode.
Local Open Scope Z_scope.

(** ** What a log says *)

Definition grant_of (e : Event) : Z :=
  match e with Created g _ _ _ | Approved g _ _ | Denied g | Minted g _ _ _ => g end.

Definition is_created (e : Event) : Prop := match e with Created _ _ _ _ => True | _ => False end.

Definition is_consent (e : Event) : Prop := match e with Created _ _ _ _ | Approved _ _ _ => True | _ => False end.

Definition token_of (e : Event) : option Z := match e with Minted _ t _ _ => Some t | _ => None end.

(** A well-formed history: a grant is created once, before the rest; then approved in time or denied, once; then it
    mints at most one token, for the one who approved it and with the scopes asked for. *)
Fixpoint log_ok (l : list Event) : Prop :=
  match l with
  | [] => True
  | e :: l =>
      match e with
      | Created g _ _ _ => ∀ e', e' ∈ l → grant_of e' ≠ g
      | Approved g _ t =>
          (∃ c sc ex, Created g c sc ex ∈ l ∧ t < ex) ∧ ∀ e', e' ∈ l → grant_of e' = g → is_created e'
      | Denied g => (∃ c sc ex, Created g c sc ex ∈ l) ∧ ∀ e', e' ∈ l → grant_of e' = g → is_created e'
      | Minted g tok u sc =>
          (∃ c ex, Created g c sc ex ∈ l) ∧ (∃ t, Approved g u t ∈ l) ∧
          (∀ e', e' ∈ l → grant_of e' = g → is_consent e') ∧ ∀ e', e' ∈ l → token_of e' ≠ Some tok
      end ∧ log_ok l
  end.

(** Where a grant stands, as its row and as the log have it. *)
Inductive stage (l : list Event) (gid : Z) (g : DeviceAuthorization) : Prop :=
  | stage_pending :
      ApprovedAt g = None → DeniedAt g = None → GUserID g = None → IssuedTokenID g = None →
      (∀ e, e ∈ l → grant_of e = gid → is_created e) → stage l gid g
  | stage_denied :
      ApprovedAt g = None → is_Some (DeniedAt g) → GUserID g = None → IssuedTokenID g = None → stage l gid g
  | stage_approved u t :
      ApprovedAt g = Some t → DeniedAt g = None → GUserID g = Some u → IssuedTokenID g = None →
      Approved gid u t ∈ l → (∀ e, e ∈ l → grant_of e = gid → is_consent e) → stage l gid g
  | stage_minted u t :
      ApprovedAt g = Some t → DeniedAt g = None → GUserID g = Some u → is_Some (IssuedTokenID g) → stage l gid g.

Definition asked (l : list Event) (gid : Z) (g : DeviceAuthorization) : Prop :=
  Created gid (ClientID g) (GScopes g) (ExpiresAt g) ∈ l.

Definition same_token (t t' : UserToken) : Prop :=
  t_UserID t' = t_UserID t ∧ t_Scopes t' = t_Scopes t ∧ t_RepoID t' = t_RepoID t ∧ t_Source t' = t_Source t.

Record inv (s : Sys) (l : list Event) : Prop := {
  inv_log : log_ok l;
  inv_below : ∀ e, e ∈ l → grant_of e < next_grant s;
  inv_grant : ∀ gid g, device_authorizations s !! gid = Some g → asked l gid g ∧ stage l gid g;
  inv_token_below : ∀ tid t, user_tokens (tables s) !! tid = Some t → tid < next_id (tables s);
  inv_minted_below : ∀ e tid, e ∈ l → token_of e = Some tid → tid < next_id (tables s);
  inv_token : ∀ tid t, user_tokens (tables s) !! tid = Some t → t_Source t = SourceOAuthDevice →
    t_RepoID t = None ∧ ∃ gid, Minted gid tid (t_UserID t) (t_Scopes t) ∈ l;
  inv_issued : ∀ gid g tid, device_authorizations s !! gid = Some g → IssuedTokenID g = Some tid →
    ∃ t, user_tokens (tables s) !! tid = Some t ∧ GUserID g = Some (t_UserID t) ∧ t_RepoID t = None
}.

Lemma stage_other (l : list Event) (e : Event) (gid : Z) (g : DeviceAuthorization) :
  grant_of e ≠ gid → stage l gid g → stage (e :: l) gid g.
Proof.
  intros Hne [? ? ? ? H| ? ? ? ?|u t ? ? ? ? Ha H|u t ? ? ? ?].
  - apply stage_pending; try done. intros e' [->|He]%elem_of_cons Hg; [done|by apply H].
  - by apply stage_denied.
  - eapply stage_approved; try done; [by right|]. intros e' [->|He]%elem_of_cons Hg; [done|by apply H].
  - by eapply stage_minted.
Qed.

Lemma asked_more (l : list Event) (e : Event) (gid : Z) (g : DeviceAuthorization) : asked l gid g → asked (e :: l) gid g.
Proof. by right. Qed.

(** A row that differs in the time of the last poll only. *)
Lemma stage_polled (l : list Event) (gid now : Z) (g : DeviceAuthorization) :
  stage l gid g → stage l gid (set_polled now g).
Proof. intros []; [by apply stage_pending|by apply stage_denied|by eapply stage_approved|by eapply stage_minted]. Qed.

(** ** Steps that leave the log alone *)

Lemma inv_tables (s : Sys) (l : list Event) (db : Tables) :
  inv s l → next_id (tables s) <= next_id db →
  (∀ tid t', user_tokens db !! tid = Some t' →
     tid < next_id db ∧
     ((∃ t, user_tokens (tables s) !! tid = Some t ∧ same_token t t') ∨ t_Source t' ≠ SourceOAuthDevice)) →
  (∀ tid t, user_tokens (tables s) !! tid = Some t → ∃ t', user_tokens db !! tid = Some t' ∧ same_token t t') →
  inv (MkSys (device_authorizations s) (next_grant s) db (gfault s)) l.
Proof.
  intros [Hl Hb Hg Htb Hmb Ht Hi] Hn H1 H2. split; cbn; try done.
  - intros tid t H. by destruct (H1 tid t H).
  - intros e tid He Het. specialize (Hmb e tid He Het). lia.
  - intros tid t' H Hs. destruct (H1 tid t' H) as [_ [(t & Hto & Eu & Esc & Er & Es)|]]; [|done].
    rewrite Eu, Esc, Er. apply Ht; congruence.
  - intros gid g tid Hgg Hgi. destruct (Hi gid g tid Hgg Hgi) as (t & Hto & Hu & Hr).
    destruct (H2 tid t Hto) as (t' & Ht' & Eu & _ & Er & _). exists t'. split_and!; congruence.
Qed.

Lemma inv_grants (s : Sys) (l : list Event) (m : gmap Z DeviceAuthorization) :
  inv s l →
  (∀ gid g', m !! gid = Some g' → ∃ g, device_authorizations s !! gid = Some g ∧
     (g' = g ∨ ∃ now, g' = set_polled now g)) →
  inv (with_grants s m) l.
Proof.
  intros [Hl Hb Hg Htb Hmb Ht Hi] H. split; cbn; try done.
  - intros gid g' Hg'. destruct (H gid g' Hg') as (g & Hgg & E). destruct (Hg gid g Hgg) as [Ha Hs].
    destruct E as [->|[now ->]]; [done|]. split; [done|by apply stage_polled].
  - intros gid g' tid Hg' Hgi. destruct (H gid g' Hg') as (g & Hgg & [->|[now ->]]); exact (Hi gid g tid Hgg Hgi).
Qed.

Lemma inv_poll (s : Sys) (l : list Event) (now id : Z) : inv s l → inv (TouchDeviceAuthorizationPoll s now id) l.
Proof.
  intros H. unfold TouchDeviceAuthorizationPoll. destruct (gfault s QTouch); [done|]. apply inv_grants; [done|].
  intros gid g' Hg'. apply lookup_alter_Some in Hg' as [(-> & g & Hg & ->)|[_ Hg]]; eauto.
Qed.

Lemma inv_sweep (s : Sys) (l : list Event) (now : Z) : inv s l → inv (DeleteExpiredDeviceAuthorizations s now) l.
Proof. intros H. apply inv_grants; [done|]. intros gid g' [Hg' _]%map_lookup_filter_Some. eauto. Qed.

(** Deletions: what goes with a user or a repository never leaves a grant without the token it minted. *)
Lemma delete_tokens_issued (s : Sys) (l : list Event) (gone : UserToken → bool) (user : option Z) (gid : Z)
    (g' : DeviceAuthorization) :
  inv s l → (∀ t, t_RepoID t = None → gone t = true → user = Some (t_UserID t)) →
  device_authorizations (delete_tokens s gone user) !! gid = Some g' →
  device_authorizations s !! gid = Some g' ∧ (user = None ∨ GUserID g' ≠ user) ∧
  ∀ tid, IssuedTokenID g' = Some tid → is_Some (user_tokens (tables (delete_tokens s gone user)) !! tid).
Proof.
  intros Hinv Hgone. cbn. set (kept := filter _ (user_tokens (tables s))).
  intros (g & E & [Hg Hu]%map_lookup_filter_Some)%lookup_fmap_Some. cbn in Hu.
  destruct (IssuedTokenID g) as [tid|] eqn:Ei; [|subst g'; split_and!; try done; intros; congruence].
  destruct (inv_issued _ _ Hinv gid g tid Hg Ei) as (t & Ht & Hgu & Hr).
  assert (kept !! tid = Some t) as Hk.
  { apply map_lookup_filter_Some. split; [done|]. cbn. destruct (gone t) eqn:Eg; [|done]. exfalso.
    pose proof (Hgone t Hr Eg) as E'. destruct Hu; congruence. }
  rewrite Hk, bool_decide_eq_true_2 in E by done. subst g'. split_and!; try done. intros tid' E.
  rewrite Ei in E. injection E as <-. by rewrite Hk.
Qed.

Lemma inv_delete (s : Sys) (l : list Event) (gone : UserToken → bool) (user : option Z) :
  inv s l → (∀ t, t_RepoID t = None → gone t = true → user = Some (t_UserID t)) → inv (delete_tokens s gone user) l.
Proof.
  intros Hinv Hgone. pose proof (delete_tokens_issued s l gone user) as Hd.
  pose proof Hinv as [Hl Hb Hg Htb Hmb Ht Hi].
  assert (∀ tid t, user_tokens (tables (delete_tokens s gone user)) !! tid = Some t →
            user_tokens (tables s) !! tid = Some t) as Hk by (cbn; by intros tid t [? _]%map_lookup_filter_Some).
  split; try done.
  - intros gid g' H. destruct (Hd gid g' Hinv Hgone H) as (Hs & _). by apply Hg.
  - intros tid t H. by eapply Htb, Hk.
  - intros tid t H. by apply Ht, Hk.
  - intros gid g' tid H E. destruct (Hd gid g' Hinv Hgone H) as (Hs & _ & Hx).
    destruct (Hi gid g' tid Hs E) as (t & Hto & Hu & Hr). exists t. split_and!; try done.
    destruct (Hx tid E) as [t' Ht']. pose proof (Hk tid t' Ht'). congruence.
Qed.

(** ** Steps that make history *)

Lemma grant_by_elem (s : Sys) (p : DeviceAuthorization → bool) (id : Z) (g : DeviceAuthorization) :
  grant_by s p = Some (id, g) → device_authorizations s !! id = Some g ∧ p g = true.
Proof.
  unfold grant_by. destruct (filter _ _) as [|x l'] eqn:E; [done|]. intros [= ->].
  assert ((id, g) ∈ filter (fun e => p e.2 = true) (map_to_list (device_authorizations s))) as H by (rewrite E; left).
  by apply list_elem_of_filter in H as [Hp H%elem_of_map_to_list].
Qed.

Lemma inv_create (s s' : Sys) (l : list Event) (hash code client : string) (scopes : list string) (interval ex id : Z) :
  inv s l → InsertDeviceAuthorization s hash code client scopes interval ex = Some (id, s') →
  inv s' (log_created s s' l).
Proof.
  intros [Hl Hb Hg Htb Hmb Ht Hi]. unfold InsertDeviceAuthorization. destruct (gfault s QInsertGrant); [done|].
  destruct (grant_ok s _); [|done]. cbn. intros [= <- <-]. unfold log_created. cbn. rewrite lookup_insert_eq. cbn.
  assert (∀ e, e ∈ l → grant_of e ≠ next_grant s) as Hf by (intros e He; specialize (Hb e He); lia).
  split; cbn; try done.
  - intros e [->|He]%elem_of_cons; cbn; [lia|]. specialize (Hb e He). lia.
  - intros gid g [[<- <-]|[Hne Hgg]]%lookup_insert_Some.
    + split; [by left|]. apply stage_pending; try done. intros e [->|He]%elem_of_cons; [done|]. by intros ?%Hf.
    + destruct (Hg gid g Hgg) as [Ha Hs]. split; [by right|]. by apply stage_other.
  - intros e tid [->|He]%elem_of_cons; [done|]. by apply Hmb.
  - intros tid t Htt Hs. destruct (Ht tid t Htt Hs) as [Hr [gid Hm]]. split; [done|]. exists gid. by right.
  - intros gid g tid [[<- <-]|[Hne Hgg]]%lookup_insert_Some; [done|]. exact (Hi gid g tid Hgg).
Qed.

(** A pending grant has nothing in the log but its creation. *)
Lemma pending_stage (s : Sys) (l : list Event) (gid : Z) (g : DeviceAuthorization) :
  inv s l → device_authorizations s !! gid = Some g → pending g = true →
  asked l gid g ∧ IssuedTokenID g = None ∧ GUserID g = None ∧ ∀ e, e ∈ l → grant_of e = gid → is_created e.
Proof.
  intros Hinv Hg Hp. unfold pending in Hp. rewrite andb_true_iff, !bool_decide_eq_true in Hp.
  destruct Hp as [Ha Hd]. destruct (inv_grant _ _ Hinv gid g Hg) as [Hasked [? ? Hu Hi Hc|? [? Hd'] ? ?|? ? Ha' ? ? ?|? ? Ha' ? ? ?]];
    try congruence. done.
Qed.

(** Replacing the row of one grant, and writing one event of it. *)
Lemma inv_event (s : Sys) (l : list Event) (e : Event) (g' : DeviceAuthorization) :
  inv s l → log_ok (e :: l) → token_of e = None → is_Some (device_authorizations s !! grant_of e) →
  asked l (grant_of e) g' → stage (e :: l) (grant_of e) g' → IssuedTokenID g' = None →
  inv (with_grants s (<[grant_of e := g']> (device_authorizations s))) (e :: l).
Proof.
  intros [Hl Hb Hg Htb Hmb Ht Hi] Hlog Htok [g Hgg] Hask Hstage Hiss. split; cbn; try done.
  - intros e' [->|He]%elem_of_cons; [|by apply Hb]. destruct (Hg _ _ Hgg) as [Ha _].
    apply (Hb _ Ha).
  - intros gid g2 [[<- <-]|[Hne H2]]%lookup_insert_Some; [split; [by right|done]|].
    destruct (Hg gid g2 H2) as [Ha Hs]. split; [by right|]. by apply stage_other.
  - intros e' tid [->|He]%elem_of_cons; [congruence|]. by apply Hmb.
  - intros tid t Htt Hs. destruct (Ht tid t Htt Hs) as [Hr [gid Hm]]. split; [done|]. exists gid. by right.
  - intros gid g2 tid [[<- <-]|[Hne H2]]%lookup_insert_Some; [congruence|]. exact (Hi gid g2 tid H2).
Qed.

Lemma alter_found (m : gmap Z DeviceAuthorization) (f : DeviceAuthorization → DeviceAuthorization) (id : Z)
    (g : DeviceAuthorization) : m !! id = Some g → alter f id m = <[id := f g]> m.
Proof.
  intros H. apply map_eq. intros i. destruct (decide (i = id)) as [->|Hne].
  - by rewrite lookup_alter_eq, H, lookup_insert_eq.
  - by rewrite lookup_alter_ne, lookup_insert_ne by done.
Qed.

Lemma inv_approve (s s' : Sys) (l : list Event) (dbnow id user : Z) :
  inv s l → ApproveDeviceAuthorization s dbnow id user = Some s' → inv s' (log_approved s dbnow id user l).
Proof.
  intros Hinv. unfold ApproveDeviceAuthorization, log_approved. destruct (gfault s QApprove); [done|].
  destruct (approvable s dbnow id) eqn:Ea; [|by intros [= <-]]. case_bool_decide; [|done]. intros [= <-].
  unfold approvable in Ea. destruct (device_authorizations s !! id) as [g|] eqn:Eg; [|done].
  apply andb_true_iff in Ea as [Hp Hex%bool_decide_eq_true].
  destruct (pending_stage s l id g Hinv Eg Hp) as (Hask & Hi & _ & Hc). pose proof (inv_log _ _ Hinv) as Hl.
  rewrite (alter_found _ _ _ g Eg). apply (inv_event s l (Approved id user dbnow)); try done.
  - cbn. split; [|done]. split; [|done]. by exists (ClientID g), (GScopes g), (ExpiresAt g).
  - unfold pending in Hp. rewrite andb_true_iff, !bool_decide_eq_true in Hp. destruct Hp as [_ Hd].
    eapply (stage_approved _ _ _ user dbnow); try done; [by left|].
    intros e [->|He]%elem_of_cons Hge; [done|]. specialize (Hc e He Hge). by destruct e.
Qed.

Lemma inv_deny (s s' : Sys) (l : list Event) (dbnow id : Z) :
  inv s l → DenyDeviceAuthorization s dbnow id = Some s' → inv s' (log_denied s id l).
Proof.
  intros Hinv. unfold DenyDeviceAuthorization, log_denied. destruct (gfault s QDeny); [done|].
  destruct (deniable s id) eqn:Ea; [|by intros [= <-]]. intros [= <-].
  unfold deniable in Ea. destruct (device_authorizations s !! id) as [g|] eqn:Eg; [|done].
  destruct (pending_stage s l id g Hinv Eg Ea) as (Hask & Hi & Hu & Hc). pose proof (inv_log _ _ Hinv) as Hl.
  rewrite (alter_found _ _ _ g Eg). apply (inv_event s l (Denied id)); try done.
  - cbn. split; [|done]. split; [|done]. by exists (ClientID g), (GScopes g), (ExpiresAt g).
  - unfold pending in Ea. rewrite andb_true_iff, !bool_decide_eq_true in Ea. destruct Ea as [Ha _].
    by apply stage_denied.
Qed.

(** A grant that has a user and no token. *)
Lemma approved_stage (s : Sys) (l : list Event) (gid u : Z) (g : DeviceAuthorization) :
  inv s l → device_authorizations s !! gid = Some g → IssuedTokenID g = None → GUserID g = Some u →
  asked l gid g ∧ (∃ t, ApprovedAt g = Some t ∧ Approved gid u t ∈ l) ∧ DeniedAt g = None ∧
  ∀ e, e ∈ l → grant_of e = gid → is_consent e.
Proof.
  intros Hinv Hg Hi Hu.
  destruct (inv_grant _ _ Hinv gid g Hg) as [Hasked [? ? Hu' _ _|? ? Hu' _|u' t Ha Hd Hu' _ Hin Hc|? ? ? ? ? [? Hi']]];
    try congruence.
  assert (u' = u) as -> by congruence. split_and!; eauto.
Qed.

Lemma inv_mint (sha256 : string → string) (s s' : Sys) (l : list Event) (bufs : list (list Z)) (hash name : string)
    (r : ExchangeResult) :
  inv s l → Exchange_mint sha256 s bufs hash name = (Ok r, s') → inv s' (log_minted s hash l).
Proof.
  intros Hinv. unfold Exchange_mint, log_minted. destruct (gfault s QLock); [done|].
  destruct (grant_by s _) as [[id g]|] eqn:Eg; [|done]. apply grant_by_elem in Eg as [Hg _].
  destruct (IssuedTokenID g) as [?|] eqn:Ei; [done|]. destruct (GUserID g) as [u|] eqn:Eu; [|done]. cbn.
  destruct (Mint sha256 bufs) as [[[raw h] prefix]|]; [|done].
  destruct (InsertUserToken _ _) as [[tok db]|] eqn:Em; [|done]. destruct (gfault s QStamp); [done|]. intros [= _ <-].
  apply InsertUserToken_Some in Em as (_ & -> & Hn & _ & _ & _ & _ & row & Et & Ru & _ & Rs & _ & _ & _ & Rr & Rsrc).
  cbn in Ru, Rs, Rr, Rsrc. destruct (approved_stage s l id u g Hinv Hg Ei Eu) as (Hask & (t & Ha & Hin) & Hd & Hc).
  pose proof Hinv as [Hl Hb Hgr Htb Hmb Ht Hi]. rewrite (alter_found _ _ _ g Hg).
  split; cbn.
  - split; [|done]. split_and!; [by exists (ClientID g), (ExpiresAt g)|by exists t|done|].
    intros e He E. specialize (Hmb e _ He E). lia.
  - intros e [->|He]%elem_of_cons; [apply (Hb _ Hask)|by apply Hb].
  - intros gid g2 [[<- <-]|[Hne H2]]%lookup_insert_Some.
    + split; [by right|]. by eapply (stage_minted _ _ _ u t).
    + destruct (Hgr gid g2 H2) as [Ha2 Hs]. split; [by right|]. by apply stage_other.
  - rewrite Et, Hn. intros tid t2 [[<- <-]|[Hne H2]]%lookup_insert_Some; [lia|]. specialize (Htb tid t2 H2). lia.
  - rewrite Hn. intros e tid [->|He]%elem_of_cons E; [injection E as <-; lia|]. specialize (Hmb e tid He E). lia.
  - rewrite Et. intros tid t2 [[<- <-]|[Hne H2]]%lookup_insert_Some Hs.
    + split; [done|]. exists id. rewrite Ru, Rs. by left.
    + destruct (Ht tid t2 H2 Hs) as [Hr2 [gid Hm]]. split; [done|]. exists gid. by right.
  - rewrite Et. intros gid g2 tid [[<- <-]|[Hne H2]]%lookup_insert_Some Hit.
    + cbn in Hit. injection Hit as <-. exists row. rewrite lookup_insert_eq. cbn. split_and!; congruence.
    + destruct (Hi gid g2 tid H2 Hit) as (t2 & Ht2 & Hu2). exists t2. split; [|done].
      rewrite lookup_insert_ne; [done|]. specialize (Htb tid t2 Ht2). lia.
Qed.

Lemma inv_tokens_map (s : Sys) (l : list Event) (db : Tables) (id : Z) (f : UserToken → UserToken) :
  inv s l → (∀ t, same_token t (f t)) → next_id db = next_id (tables s) →
  user_tokens db = alter f id (user_tokens (tables s)) →
  inv (MkSys (device_authorizations s) (next_grant s) db (gfault s)) l.
Proof.
  intros Hinv Hf Hn E. apply inv_tables; [done|lia| |]; rewrite E.
  - intros tid t' H. apply lookup_alter_Some in H as [(-> & t & Ht & ->)|[_ H]].
    + split; [rewrite Hn; by eapply (inv_token_below _ _ Hinv)|left; eauto].
    + split; [rewrite Hn; by eapply (inv_token_below _ _ Hinv)|left]. exists t'. by split; [|split_and!].
  - intros tid t H. destruct (decide (tid = id)) as [->|Hne].
    + rewrite lookup_alter_eq, H. eexists. by split.
    + rewrite lookup_alter_ne by done. exists t. by split; [|split_and!].
Qed.

Lemma inv_revoke (s : Sys) (l : list Event) (now id user n : Z) (db : Tables) :
  inv s l → RevokeUserToken (tables s) now id user = Some (n, db) →
  inv (MkSys (device_authorizations s) (next_grant s) db (gfault s)) l.
Proof.
  intros Hinv. unfold RevokeUserToken. destruct (fault _ _); [done|].
  destruct (user_tokens (tables s) !! id) as [t|] eqn:Et; [|intros [= _ <-]; by destruct s].
  destruct (bool_decide _ && bool_decide _); intros [= _ <-]; [|by destruct s].
  apply (inv_tokens_map s l _ id (set_revoked now) Hinv); try done. cbn. symmetry. by apply map_eq; intros i;
    destruct (decide (i = id)) as [->|]; [rewrite lookup_alter_eq, Et, lookup_insert_eq|rewrite lookup_alter_ne, lookup_insert_ne].
Qed.

Lemma inv_settings (sha256 : string → string) (AddDate : Z → Z → Z → Z → Z) (s : Sys) (l : list Event) (db : Tables)
    (ent : Entitlement) (user now : Z) (recent : bool) (bufs : list (list Z)) (f : CreateForm) (raw : string) :
  inv s l → tokensCreate sha256 AddDate (tables s) ent user now recent bufs f = (Tokens.Created raw, db) →
  inv (MkSys (device_authorizations s) (next_grant s) db (gfault s)) l.
Proof.
  intros Hinv. unfold tokensCreate. destruct (create_row _ _ _ _ _ _ _ _ _) as [[raw' p]|page] eqn:Ep.
  - destruct (InsertUserToken _ p) as [[id db1]|] eqn:Ei; [|done]. intros [= _ <-]. apply create_row_source in Ep.
    apply InsertUserToken_Some in Ei as (_ & -> & Hn & _ & _ & _ & _ & row & Et & _ & _ & _ & _ & _ & _ & _ & Rsrc).
    rewrite Ep in Rsrc. cbn in Rsrc. apply inv_tables; [done|lia| |]; rewrite Et.
    + intros tid t' [[<- <-]|[Hne H]]%lookup_insert_Some; [split; [lia|right; by rewrite Rsrc]|].
      pose proof (inv_token_below _ _ Hinv tid t' H). split; [lia|left]. exists t'. by split; [|split_and!].
    + intros tid t H. pose proof (inv_token_below _ _ Hinv tid t H). exists t. split; [|by split_and!].
      rewrite lookup_insert_ne; [done|lia].
  - intros [= -> _]. by apply create_row_not_created in Ep.
Qed.

Lemma Exchange_begin_sys (sha256 : string → string) (s : Sys) (now dbnow : Z) (client raw : string) (l : list Event) :
  inv s l → inv (Exchange_begin sha256 s now dbnow client raw).2 l.
Proof.
  intros Hinv. unfold Exchange_begin. destruct (hashDeviceCode sha256 raw) as [hash|]; [|done].
  destruct (GetDeviceAuthorizationByCodeHash s hash) as [[id row]|]; [|done].
  repeat (case_match; try done); by apply inv_poll.
Qed.

Lemma dstep_inv (sha256 : string → string) (AddDate : Z → Z → Z → Z → Z) (w w' : World) :
  dstep sha256 AddDate w w' → inv (sys w) (log w) → inv (sys w') (log w').
Proof.
  intros [s o l cfg client scope r1 r2 now a s' H| | s o1 o2 l dbnow id user s' H| |s o1 o2 l dbnow id s' H
    |s o l now dbnow client raw e s' H|s o l now dbnow client raw name hash s' H|s o1 o2 l bufs hash name r s' H|
    |s o l ent user now recent bufs f raw db H|s o l now id user n db H|s o l now id ip|s o l now|s o l user|s o l repo
    |s o l us totp rs f gf] Hinv; cbn in *; try done.
  - revert H. unfold Create. repeat (case_match; try done). intros [= _ <-]. by eapply inv_create.
  - revert H. unfold Approve_write. destruct (ApproveDeviceAuthorization _ _ _ _) eqn:E; [|done]. intros [= <-].
    by eapply inv_approve.
  - revert H. unfold Deny_write. destruct (DenyDeviceAuthorization _ _ _) eqn:E; [|done]. intros [= <-]. by eapply inv_deny.
  - pose proof (Exchange_begin_sys sha256 s now dbnow client raw l Hinv) as Hx. by rewrite H in Hx.
  - pose proof (Exchange_begin_sys sha256 s now dbnow client raw l Hinv) as Hx. by rewrite H in Hx.
  - by eapply inv_mint.
  - by eapply inv_settings.
  - by eapply inv_revoke.
  - by apply (inv_tokens_map s l _ id (set_touched now ip) Hinv).
  - by apply inv_sweep.
  - assert (inv (delete_tokens s (fun t => bool_decide (t_UserID t = user)) (Some user)) l) as [].
    { apply inv_delete; [done|]. intros t _ E%bool_decide_eq_true. congruence. }
    by split.
  - apply inv_delete; [done|]. intros t Hr E%bool_decide_eq_true. congruence.
  - by destruct Hinv.
Qed.

(** ** Consent *)

(** All that can happen to a grant, the last first. *)
Inductive story (gid : Z) : list Event → Prop :=
  | story_none : story gid []
  | story_created c sc ex : story gid [Created gid c sc ex]
  | story_denied c sc ex : story gid [Denied gid; Created gid c sc ex]
  | story_approved c sc ex u t : t < ex → story gid [Approved gid u t; Created gid c sc ex]
  | story_minted c sc ex u t tok :
      t < ex → story gid [Minted gid tok u sc; Approved gid u t; Created gid c sc ex].

Definition history (gid : Z) (l : list Event) : list Event := filter (fun e => grant_of e = gid) l.

Lemma history_elem (gid : Z) (l : list Event) (e : Event) : e ∈ history gid l ↔ grant_of e = gid ∧ e ∈ l.
Proof. unfold history. by rewrite list_elem_of_filter. Qed.

Lemma history_Forall (P : Event → Prop) (gid : Z) (l : list Event) :
  (∀ e, e ∈ l → grant_of e = gid → P e) → Forall P (history gid l).
Proof. intros H. apply Forall_forall. intros e [Hg He]%history_elem. by apply H. Qed.

Lemma story_fresh (gid : Z) (h : list Event) (e : Event) :
  story gid h → Forall is_created h → e ∈ h → ∃ c sc ex, h = [Created gid c sc ex].
Proof.
  intros [] Hf He; repeat apply Forall_cons in Hf as [? Hf]; try done; [by apply not_elem_of_nil in He|eauto].
Qed.

Lemma story_agreed (gid u t : Z) (h : list Event) (c : string) (sc : list string) (ex : Z) :
  story gid h → Forall is_consent h → Approved gid u t ∈ h → Created gid c sc ex ∈ h →
  t < ex ∧ h = [Approved gid u t; Created gid c sc ex].
Proof.
  intros [] Hf Ha Hc; rewrite ?elem_of_cons, ?elem_of_nil in Ha, Hc; try by destruct_or? Ha.
  - destruct_or! Ha; destruct_or! Hc; try done. injection Ha as <- <-. injection Hc as <- <- <-. done.
  - by apply Forall_cons in Hf as [? _].
Qed.

Lemma log_story (gid : Z) (l : list Event) : log_ok l → story gid (history gid l).
Proof.
  induction l as [|e l IH]; intros Hl; [apply story_none|]. destruct Hl as [He Hl]. specialize (IH Hl).
  unfold history. rewrite filter_cons. destruct (decide (grant_of e = gid)) as [E|Hne]; [|done].
  fold (history gid l). destruct e as [g c sc ex|g u t|g|g tok u sc]; cbn in E; subst g.
  - assert (history gid l = []) as ->; [|constructor]. destruct (history gid l) as [|e' h] eqn:Eh; [done|].
    assert (e' ∈ history gid l) as [Hg Hin]%history_elem by (rewrite Eh; left). by destruct (He e' Hin).
  - destruct He as [(c & sc & ex & Hc & Ht) He%history_Forall].
    assert (Created gid c sc ex ∈ history gid l) as Hc' by (by apply history_elem).
    destruct (story_fresh gid _ _ IH He Hc') as (c' & sc' & ex' & E). rewrite E in *.
    apply list_elem_of_singleton in Hc'. injection Hc' as <- <- <-. by constructor.
  - destruct He as [(c & sc & ex & Hc) He%history_Forall].
    assert (Created gid c sc ex ∈ history gid l) as Hc' by (by apply history_elem).
    destruct (story_fresh gid _ _ IH He Hc') as (c' & sc' & ex' & ->). constructor.
  - destruct He as ((c & ex & Hc) & (t & Ha) & He%history_Forall & _).
    destruct (story_agreed gid u t (history gid l) c sc ex) as [Ht ->]; try done; [by apply history_elem..|].
    by constructor.
Qed.

Lemma inv_init (db : Tables) :
  (∀ tid t, user_tokens db !! tid = Some t → tid < next_id db ∧ t_Source t ≠ SourceOAuthDevice) →
  inv (sys (init db)) (log (init db)).
Proof.
  intros H. split; cbn; try done; try (by intros ? ?%not_elem_of_nil); try (by intros ? ? ?%not_elem_of_nil).
  - intros tid t Ht. by apply (H tid t).
  - intros tid t Ht Hs. by destruct (H tid t Ht).
Qed.

Lemma minted_once (l : list Event) (g1 g2 tok u1 u2 : Z) (sc1 sc2 : list string) :
  log_ok l → Minted g1 tok u1 sc1 ∈ l → Minted g2 tok u2 sc2 ∈ l → g1 = g2.
Proof.
  induction l as [|e l IH]; intros Hl H1 H2; [by apply not_elem_of_nil in H1|]. destruct Hl as [He Hl].
  apply elem_of_cons in H1 as [E1|H1]; apply elem_of_cons in H2 as [E2|H2]; [congruence| | |by apply IH].
  - subst e. destruct He as (_ & _ & _ & He). by destruct (He _ H2).
  - subst e. destruct He as (_ & _ & _ & He). by destruct (He _ H1).
Qed.

(** C10: Whatever clients, signed-in users, the settings page, the sweep and deletions do, and however their requests
    overlap: a token of the device flow was minted by one exchange of one grant, whose whole history is that a client
    asked for it with the scopes of the token, the owner of the token approved it before it expired, and this exchange;
    nobody denied it, and it never mints again. *)
Theorem device_tokens_consented (sha256 : string → string) (AddDate : Z → Z → Z → Z → Z) (db : Tables) (w : World)
    (tid : Z) (t : UserToken) :
  (∀ tid t, user_tokens db !! tid = Some t → tid < next_id db ∧ t_Source t ≠ SourceOAuthDevice) →
  rtc (dstep sha256 AddDate) (init db) w →
  user_tokens (tables (sys w)) !! tid = Some t → t_Source t = SourceOAuthDevice →
  ∃ gid client expires at_, at_ < expires ∧
    history gid (log w) = [Minted gid tid (t_UserID t) (t_Scopes t); Approved gid (t_UserID t) at_;
                           Created gid client (t_Scopes t) expires] ∧
    ∀ gid' u sc, Minted gid' tid u sc ∈ log w → gid' = gid.
Proof.
  intros H0 Hr Ht Hs.
  assert (inv (sys w) (log w)) as Hinv.
  { apply (rtc_preserves _ (fun w => inv (sys w) (log w)) _ _ Hr); [by apply inv_init|].
    intros x y Hx Hxy. by eapply dstep_inv. }
  destruct (inv_token _ _ Hinv tid t Ht Hs) as (_ & gid & Hm). pose proof (inv_log _ _ Hinv) as Hl.
  assert (Minted gid tid (t_UserID t) (t_Scopes t) ∈ history gid (log w)) as Hh by by apply history_elem.
  pose proof (log_story gid _ Hl) as Hst. exists gid.
  inversion Hst as [E|? ? ? E|? ? ? E|? ? ? ? ? ? E|c sc ex u at_ tok Hlt E]; rewrite <- E in Hh;
    rewrite ?elem_of_cons, ?elem_of_nil in Hh; destruct_or? Hh; try done.
  injection Hh as -> -> ->. exists c, ex, at_. split_and!; [done..|]. intros gid' u' sc' Hm'.
  by eapply minted_once.
Qed.

(** ** One exchange *)

Definition hashes_differ (s : Sys) : Prop := ∀ i j g h,
  device_authorizations s !! i = Some g → device_authorizations s !! j = Some h →
  DeviceCodeHash g = DeviceCodeHash h → i = j.

Lemma grant_by_hash (s : Sys) (id : Z) (g : DeviceAuthorization) (hash : string) :
  hashes_differ s →
  grant_by s (fun g => bool_decide (DeviceCodeHash g = hash)) = Some (id, g) ↔
  device_authorizations s !! id = Some g ∧ DeviceCodeHash g = hash.
Proof.
  intros Hd. split.
  { intros [Hg Hp]%grant_by_elem. by rewrite bool_decide_eq_true in Hp. }
  intros [Hg Hp]. unfold grant_by.
  assert ((id, g) ∈ filter (fun e => bool_decide (DeviceCodeHash e.2 = hash) = true) (map_to_list (device_authorizations s))) as Hin.
  { apply list_elem_of_filter. rewrite bool_decide_eq_true. split; [done|]. by apply elem_of_map_to_list. }
  destruct (filter _ _) as [|[j h] l] eqn:E; [by apply not_elem_of_nil in Hin|].
  assert ((j, h) ∈ (j, h) :: l) as Hj by left. rewrite <- E in Hj.
  apply list_elem_of_filter in Hj as [Hh%bool_decide_eq_true Hj%elem_of_map_to_list]. cbn in *.
  assert (j = id) as -> by (eapply Hd; [done..|congruence]). congruence.
Qed.

Lemma polled_lookup (s : Sys) (now id : Z) (g : DeviceAuthorization) :
  device_authorizations s !! id = Some g →
  ∃ g', device_authorizations (TouchDeviceAuthorizationPoll s now id) !! id = Some g' ∧ (g' = g ∨ g' = set_polled now g).
Proof.
  intros Hg. unfold TouchDeviceAuthorizationPoll. destruct (gfault s QTouch); [by exists g; auto|]. cbn.
  rewrite lookup_alter_eq, Hg. cbn. eauto.
Qed.

Lemma polled_differ (s : Sys) (now id : Z) : hashes_differ s → hashes_differ (TouchDeviceAuthorizationPoll s now id).
Proof.
  intros Hd. unfold TouchDeviceAuthorizationPoll. destruct (gfault s QTouch); [done|]. intros i j g h. cbn.
  intros Hi Hj E. apply lookup_alter_Some in Hi as [(-> & g1 & Hg1 & ->)|[Hi1 Hi]];
    apply lookup_alter_Some in Hj as [(-> & h1 & Hh1 & ->)|[Hj1 Hj]]; try done; by eapply Hd.
Qed.

Section Exchange.
Context (sha256 : string → string).

(** The grant has been approved and not exchanged, and may be polled. *)
Definition ready (s : Sys) (now : Z) (client raw : string) (id user : Z) (g : DeviceAuthorization) : Prop :=
  TrimSpace raw ≠ "" ∧ gfault s QGrantByHash = false ∧ device_authorizations s !! id = Some g ∧
  DeviceCodeHash g = sha256 (TrimSpace raw) ∧ ClientID g = client ∧ now <= ExpiresAt g ∧ DeniedAt g = None ∧
  (∀ t, LastPolledAt g = Some t → t + IntervalSeconds g * second <= now) ∧ ApprovedAt g ≠ None ∧
  IssuedTokenID g = None ∧ GUserID g = Some user.

Lemma too_fast_false (g : DeviceAuthorization) (now : Z) :
  too_fast g now = false ↔ ∀ t, LastPolledAt g = Some t → t + IntervalSeconds g * second <= now.
Proof. unfold too_fast. destruct (LastPolledAt g) as [t|]; [rewrite Z.ltb_ge|]; naive_solver. Qed.

Lemma Exchange_begin_iff (s : Sys) (now dbnow : Z) (client raw hash : string) (s' : Sys) :
  hashes_differ s →
  Exchange_begin sha256 s now dbnow client raw = (Ok hash, s') ↔
  ∃ id user g, ready s now client raw id user g ∧ hash = sha256 (TrimSpace raw) ∧
               s' = TouchDeviceAuthorizationPoll s dbnow id.
Proof.
  intros Hd. unfold Exchange_begin, hashDeviceCode, GetDeviceAuthorizationByCodeHash, ready. split.
  - case_bool_decide as Hn; [done|]. destruct (gfault s QGrantByHash); [done|].
    destruct (grant_by s _) as [[id g]|] eqn:Eg; [|done]. apply grant_by_hash in Eg as [Hg Hh]; [|done].
    case_bool_decide as Hc; [cbn|done]. destruct (ExpiresAt g <? now) eqn:Ee; [done|]. apply Z.ltb_ge in Ee.
    destruct (DeniedAt g) as [?|] eqn:Edn; [done|]. cbn. destruct (too_fast g now) eqn:Ef; [done|]. rewrite too_fast_false in Ef.
    case_bool_decide as Ha; [done|]. destruct (IssuedTokenID g) as [?|] eqn:Ei; [done|]. cbn.
    destruct (GUserID g) as [u|] eqn:Eu; [|done]. cbn. intros [= <- <-]. exists id, u, g. by split_and!.
  - intros (id & user & g & (Hn & Hf & Hg & Hh & Hc & He & Hdn & Hfast & Ha & Hi & Hu) & -> & ->).
    rewrite bool_decide_eq_false_2, Hf, (proj2 (grant_by_hash s id g _ Hd)) by done.
    rewrite bool_decide_eq_true_2 by done. cbn. rewrite (proj2 (Z.ltb_ge _ _)), Hdn by done. cbn.
    rewrite (proj2 (too_fast_false g now)), bool_decide_eq_false_2, Hi by done. cbn. by rewrite Hu.
Qed.

(** A poll yields a token exactly when its code names a grant of the same client that is not over, neither denied
    nor polled too early, that a user has approved and that has no token yet, and the token can be stored; the token
    is then the user's, with the scopes of the grant, and the grant has its number. *)
Theorem Exchange_iff (s s' : Sys) (now dbnow : Z) (client raw name : string) (bufs : list (list Z)) (r : ExchangeResult) :
  hashes_differ s →
  Exchange sha256 s now dbnow client raw name bufs = (Ok r, s') ↔
  ∃ id user g token hash prefix tok db,
    ready s now client raw id user g ∧ gfault s QLock = false ∧ gfault s QStamp = false ∧
    Mint sha256 bufs = Ok (token, hash, prefix) ∧
    InsertUserToken (tables s) (MkInsert user name hash prefix (GScopes g) None [] None SourceOAuthDevice) = Some (tok, db) ∧
    r = MkExchange token "bearer" (GScopes g) ∧
    s' = MkSys (alter (set_issued (Some tok)) id (device_authorizations (TouchDeviceAuthorizationPoll s dbnow id)))
           (next_grant s) db (gfault s).
Proof.
  intros Hd. unfold Exchange.
  assert (∀ id, tables (TouchDeviceAuthorizationPoll s dbnow id) = tables s ∧
                gfault (TouchDeviceAuthorizationPoll s dbnow id) = gfault s ∧
                next_grant (TouchDeviceAuthorizationPoll s dbnow id) = next_grant s) as Hsame.
  { intros id. unfold TouchDeviceAuthorizationPoll. by destruct (gfault s QTouch). }
  split.
  - destruct (Exchange_begin _ _ _ _ _ _) as [[h|e] s1] eqn:Eb; [|done].
    apply Exchange_begin_iff in Eb as (id & user & g & Hr & -> & ->); [|done].
    pose proof Hr as (_ & _ & Hg & Hh & _ & _ & _ & _ & _ & Hi & Hu).
    destruct (polled_lookup s dbnow id g Hg) as (g' & Hg' & E). destruct (Hsame id) as (E1 & E2 & E3).
    unfold Exchange_mint. rewrite E2. destruct (gfault s QLock) eqn:Ef1; [done|].
    rewrite (proj2 (grant_by_hash _ id g' _ (polled_differ s dbnow id Hd))) by (split; [done|]; destruct E as [->| ->]; done).
    assert (IssuedTokenID g' = None ∧ GUserID g' = Some user ∧ GScopes g' = GScopes g) as (-> & -> & Es)
      by (destruct E as [->| ->]; done). cbn.
    destruct (Mint sha256 bufs) as [[[token hash] prefix]|] eqn:Em; [|done]. unfold token_row. rewrite Es, E1, E3.
    destruct (InsertUserToken _ _) as [[tok db]|] eqn:Ein; [|done]. destruct (gfault s QStamp) eqn:Ef2; [done|].
    intros [= <- <-]. by exists id, user, g, token, hash, prefix, tok, db.
  - intros (id & user & g & token & hash & prefix & tok & db & Hr & Hf1 & Hf2 & Hm & Hins & -> & ->).
    rewrite (proj2 (Exchange_begin_iff s now dbnow client raw (sha256 (TrimSpace raw)) _ Hd)) by by exists id, user, g.
    pose proof Hr as (_ & _ & Hg & Hh & _ & _ & _ & _ & _ & Hi & Hu).
    destruct (polled_lookup s dbnow id g Hg) as (g' & Hg' & E). destruct (Hsame id) as (E1 & E2 & E3).
    unfold Exchange_mint. rewrite E2, Hf1.
    rewrite (proj2 (grant_by_hash _ id g' _ (polled_differ s dbnow id Hd))) by (split; [done|]; destruct E as [->| ->]; done).
    assert (IssuedTokenID g' = None ∧ GUserID g' = Some user ∧ GScopes g' = GScopes g) as (-> & -> & Es)
      by (destruct E as [->| ->]; done). cbn.
    unfold token_row. by rewrite Hm, Es, E1, E3, Hins, Hf2.
Qed.
End Exchange.

(** ** Inputs *)

Definition upper (s : string) : string :=
  str_map (fun c => if between 97 (byte c) 122 then chr (byte c - 32) else c) s.

Definition sampleBytes : list Z := replicate 32 171.

Definition sampleCode : string := hexEncode sampleBytes.

Definition sampleStart : Sys := MkSys ∅ 1 sampleTables (fun _ => false).

Definition asked_for : Sys :=
  (Create last32 sampleStart Defaults "shithub-cli" "repo:read, user:read repo:read" (Some sampleBytes)
     (Some [0; 1; 2; 3; 4; 5; 6; 39]) 0).2.

Definition agreed : Sys := (Approve asked_for (10 * second) (10 * second) 1 7).2.

Definition exchanged : res DevErr ExchangeResult * Sys :=
  Exchange last32 agreed (20 * second) (20 * second) "shithub-cli" sampleCode "device-code: shithub" zeroes.

Example ex_flow :
  exchanged.1 = Ok (MkExchange sampleRaw "bearer" ["repo:read"; "user:read"]) ∧
  (Exchange last32 exchanged.2 (30 * second) (30 * second) "shithub-cli" sampleCode "" zeroes).1 = Err ErrInvalidGrant ∧
  (Exchange last32 exchanged.2 (21 * second) (21 * second) "shithub-cli" sampleCode "" zeroes).1 = Err ErrSlowDown ∧
  (Exchange last32 asked_for (20 * second) (20 * second) "shithub-cli" sampleCode "" zeroes).1 = Err ErrAuthorizationPending ∧
  (Exchange last32 agreed (901 * second) (901 * second) "shithub-cli" sampleCode "" zeroes).1 = Err ErrExpiredToken.
Proof. split_and!; vm_compute; reflexivity. Qed.

Example ex_user_codes :
  normaliseUserCode upper " abcd efgh " = "ABCD-EFGH" ∧ normaliseUserCode upper "abcd-efgh" = "ABCD-EFGH" ∧
  fst <$> ok_of (LookupByUserCode upper asked_for "abcdefgh") = Some 1 ∧
  ok_of (LookupByUserCode upper asked_for "abcd efgj") = None ∧
  user_code 0 [0; 1; 2; 3; 4; 5; 6; 39] = "ABCD-EFGH".
Proof. split_and!; vm_compute; reflexivity. Qed.

Lemma device_tokens_consented_witness :
  ∃ gid client expires at_, at_ < expires ∧
    history gid [Minted 1 1 7 ["repo:read"; "user:read"]; Approved 1 7 (10 * second);
                 Created 1 "shithub-cli" ["repo:read"; "user:read"] (900 * second)] =
      [Minted gid 1 7 ["repo:read"; "user:read"]; Approved gid 7 at_;
       Created gid client ["repo:read"; "user:read"] expires].
Proof.
  destruct (device_tokens_consented last32 no_calendar sampleTables
    (MkWorld exchanged.2 [] [Minted 1 1 7 ["repo:read"; "user:read"]; Approved 1 7 (10 * second);
                 Created 1 "shithub-cli" ["repo:read"; "user:read"] (900 * second)]) 1
    (MkUserToken 7 "device-code: shithub" "AAAAAAAAAAAAAAAAAAAAAAAAAAAAAAAA" "shithub_pat_AAAA" ["repo:read"; "user:read"]
       None None None [] None SourceOAuthDevice)) as (gid & client & ex & at_ & Ht & Hh & _).
  - intros tid t H. change ((∅ : gmap Z UserToken) !! tid = Some t) in H. by rewrite lookup_empty in H.
  - eapply rtc_l.
    { by eapply (step_create last32 no_calendar sampleStart [] [] Defaults "shithub-cli" "repo:read, user:read repo:read"
        (Some sampleBytes) (Some [0; 1; 2; 3; 4; 5; 6; 39]) 0 _ asked_for); vm_compute. }
    eapply rtc_l; [by eapply (step_approve_begin last32 no_calendar asked_for _ _ (10 * second) 1 7); vm_compute|].
    eapply rtc_l; [by eapply (step_approve_write last32 no_calendar asked_for [] [] _ (10 * second) 1 7 agreed); vm_compute|].
    eapply rtc_l.
    { by eapply (step_exchange_begin last32 no_calendar agreed [] _ (20 * second) (20 * second) "shithub-cli" sampleCode
        "device-code: shithub" (last32 sampleCode) (TouchDeviceAuthorizationPoll agreed (20 * second) 1)); vm_compute. }
    eapply rtc_l; [|apply rtc_refl].
    refine (eq_ind _ (fun w => dstep last32 no_calendar _ w) (step_mint last32 no_calendar
      (TouchDeviceAuthorizationPoll agreed (20 * second) 1) [] [] _ zeroes
        (last32 sampleCode) "device-code: shithub" (MkExchange sampleRaw "bearer" ["repo:read"; "user:read"]) exchanged.2 _) _ _);
      vm_compute; reflexivity.
  - vm_compute. reflexivity.
  - reflexivity.
  - by exists gid, client, ex, at_.
Defined.

Lemma agreed_differ : hashes_differ agreed.
Proof.
  assert (∀ i g, device_authorizations agreed !! i = Some g → i = 1) as H.
  { intros i g Hi. destruct (decide (i = 1)) as [|Hne]; [done|]. exfalso.
    change (device_authorizations agreed) with
      (alter (set_approved 7 (10 * second)) 1 (device_authorizations asked_for)) in Hi.
    rewrite lookup_alter_ne in Hi by done.
    change (device_authorizations asked_for) with
      (<[1 := MkGrant (last32 sampleCode) "ABCD-EFGH" "shithub-cli" ["repo:read"; "user:read"] None None None None 5
              (900 * second) None]> (∅ : gmap Z DeviceAuthorization)) in Hi.
    by rewrite lookup_insert_ne, lookup_empty in Hi. }
  intros i j g h Hi%H Hj%H _. congruence.
Qed.

Lemma Exchange_iff_witness : ∃ id user g, ready last32 agreed (20 * second) "shithub-cli" sampleCode id user g ∧ user = 7.
Proof.
  destruct (proj1 (Exchange_iff last32 agreed exchanged.2 (20 * second) (20 * second) "shithub-cli" sampleCode
    "device-code: shithub" zeroes (MkExchange sampleRaw "bearer" ["repo:read"; "user:read"]) agreed_differ))
    as (id & user & g & token & hash & prefix & tok & db & Hr & _); [vm_compute; reflexivity|].
  exists id, user, g. split; [done|]. destruct Hr as (_ & _ & Hg & _ & _ & _ & _ & _ & _ & _ & Hu).
  vm_compute in Hg. destruct id as [|[]|]; try done. vm_compute in Hg. injection Hg as <-. vm_compute in Hu. congruence.
Defined.

(** Approve and Deny at once: both answer success, and the grant is denied. *)
Definition denied_between : res DevErr () * Sys :=
  match Approve_begin asked_for (10 * second) 1 with
  | Ok _ => Approve_write (Deny asked_for (10 * second) 1).2 (10 * second) 1 7
  | Err e => (Err e, asked_for)
  end.

Example ex_lost_approval :
  denied_between.1 = Ok () ∧
  (Exchange last32 denied_between.2 (20 * second) (20 * second) "shithub-cli" sampleCode "" zeroes).1 = Err ErrAccessDenied.
Proof. split; vm_compute; reflexivity. Qed.

(** A client whose User-Agent has a letter of two bytes at position 64: every poll after the approval fails. *)
Definition longAgent : string :=
  "shithub-cli/1.0 (0123456789012345678901234567890123456789012345x" +:+ String "195" (String "169" ")").

Definition cutAgent : string := str_drop 1 longAgent.

Example ex_user_agent :
  ValidString cutAgent = true ∧ ValidString (deviceCodeTokenName cutAgent) = false ∧
  (deviceCodeExchange last32 agreed (20 * second) (20 * second) "shithub-cli" sampleCode wantGrant cutAgent zeroes).1
    = Err (500, "server_error") ∧
  is_ok (deviceCodeExchange last32 agreed (20 * second) (20 * second) "shithub-cli" sampleCode wantGrant longAgent zeroes).1
    = true.
Proof. split_and!; vm_compute; reflexivity. Qed.

Example ex_submit :
  (deviceCodeSubmit upper asked_for (10 * second) (10 * second) 7 "abcdefgh" "approve").1 = NoticeApproved ∧
  (deviceCodeSubmit upper agreed (10 * second) (10 * second) 7 "abcdefgh" "deny").1 = NoticeFinal ∧
  (deviceCodeSubmit upper asked_for (901 * second) (901 * second) 7 "abcdefgh" "approve").1 = NoticeExpired.
Proof. split_and!; vm_compute; reflexivity. Qed.

Example ex_parse_scopes :
  parseScopes "repo:write,user:read" ["user:read"] = Ok ["repo:write"; "user:read"] ∧
  parseScopes " , " ["user:read"] = Ok ["user:read"] ∧ parseScopes "root" [] = Err ErrInvalidScope.
Proof. split_and!; vm_compute; reflexivity. Qed.
