(* ===== verification/Encoding.v ===== *)
(** * Encoding: binary data as text

    The encodings of packages encoding/base64 and encoding/base32 without padding, as sequences of bits cut into groups,
    and the round trip of each.  Bytes are the characters of a string. *)

From S2P Require Import Prelude GoString NetIP.
Local Open Scope nat_scope.

Definition byte_bits (c : ascii) : list bool :=
  match c with Ascii b0 b1 b2 b3 b4 b5 b6 b7 => [b7; b6; b5; b4; b3; b2; b1; b0] end.

Definition bits_byte (l : list bool) : ascii :=
  match l with
  | [b7; b6; b5; b4; b3; b2; b1; b0] => Ascii b0 b1 b2 b3 b4 b5 b6 b7
  | _ => "000"%char
  end.

Fixpoint bits (s : string) : list bool :=
  match s with "" => [] | String c s' => byte_bits c ++ bits s' end.

(** Groups of [k] bits, the last one as it comes. *)
Fixpoint groups (k : nat) (cur l : list bool) : list (list bool) :=
  match l with
  | [] => match cur with [] => [] | _ => [cur] end
  | b :: l => let cur := cur ++ [b] in
              if bool_decide (length cur = k) then cur :: groups k [] l else groups k cur l
  end.

Definition pad (k : nat) (g : list bool) : list bool := g ++ replicate (k - length g) false.

Definition number (g : list bool) : nat := foldl (fun n (b : bool) => 2 * n + (if b then 1 else 0)) 0 g.

Fixpoint index_of (c : ascii) (s : string) : option nat :=
  match s with
  | "" => None
  | String d s' => if is_byte d c then Some 0 else S <$> index_of c s'
  end.

(** The [k] low bits of a number. *)
Fixpoint low_bits (k n : nat) : list bool :=
  match k with O => [] | S k => low_bits k (Nat.div2 n) ++ [Nat.odd n] end.

Definition digit (alphabet : string) (k : nat) (g : list bool) : ascii :=
  default "A"%char (String.get (number (pad k g)) alphabet).

Definition text_of (l : list ascii) : string := foldr String "" l.

Definition EncodeToString (alphabet : string) (k : nat) (s : string) : string :=
  text_of (digit alphabet k <$> groups k [] (bits s)).

Fixpoint digit_bits (alphabet : string) (k : nat) (s : string) : option (list bool) :=
  match s with
  | "" => Some []
  | String c s' => n ← index_of c alphabet; rest ← digit_bits alphabet k s'; Some (low_bits k n ++ rest)
  end.

Definition bytes_of (l : list bool) : string :=
  text_of (bits_byte <$> filter (fun g => length g = 8) (groups 8 [] l)).

Definition b64_std : string := "ABCDEFGHIJKLMNOPQRSTUVWXYZabcdefghijklmnopqrstuvwxyz0123456789+/".
Definition b64_url : string := "ABCDEFGHIJKLMNOPQRSTUVWXYZabcdefghijklmnopqrstuvwxyz0123456789-_".
Definition b32_std : string := "ABCDEFGHIJKLMNOPQRSTUVWXYZ234567".

(** DecodeString of an encoding of base64 without padding: line breaks are passed over, one left-over digit is an error,
    left-over bits are ignored. *)
Definition RawDecodeString (alphabet : string) (s : string) : option string :=
  let s := text_of (filter (fun c => byte c ≠ 10%Z ∧ byte c ≠ 13%Z) (String.list_ascii_of_string s)) in
  l ← digit_bits alphabet 6 s;
  if bool_decide (String.length s mod 4 = 1) then None else Some (bytes_of l).

(** ** Facts *)

Lemma bits_byte_bits (c : ascii) : bits_byte (byte_bits c) = c.
Proof. by destruct c. Qed.

Lemma length_bits (s : string) : length (bits s) = 8 * String.length s.
Proof. induction s as [|[] s IH]; cbn in *; [done|]. rewrite IH. lia. Qed.

Lemma groups_concat (k : nat) (cur l : list bool) : length cur < k →
  ∃ r, r < k ∧ concat (pad k <$> groups k cur l) = (cur ++ l) ++ replicate r false.
Proof.
  revert cur. induction l as [|b l IH]; intros cur Hc; cbn [groups].
  - rewrite app_nil_r. destruct cur as [|a cur].
    + exists 0. split; [lia|done].
    + exists (k - length (a :: cur)). split; [cbn in *; lia|]. cbn. by rewrite app_nil_r.
  - case_bool_decide as Hk.
    + destruct (IH []) as (r & Hr & E); [cbn; lia|]. exists r. split; [done|].
      rewrite fmap_cons. cbn [concat]. rewrite E. unfold pad. rewrite Hk, Nat.sub_diag. cbn [replicate].
      rewrite app_nil_r, !app_nil_l. by rewrite <- !(assoc_L (++)).
    + rewrite length_app in Hk. cbn in Hk. destruct (IH (cur ++ [b])) as (r & Hr & E); [rewrite length_app; cbn; lia|].
      exists r. split; [done|]. rewrite E. by rewrite <- !(assoc_L (++)).
Qed.

Lemma groups_length (k : nat) (cur l : list bool) : length cur < k →
  Forall (fun g => length g ≤ k) (groups k cur l).
Proof.
  revert cur. induction l as [|b l IH]; intros cur Hc; cbn [groups].
  - destruct cur; repeat constructor. lia.
  - case_bool_decide as Hk; [constructor; [lia|apply IH; cbn; lia]|].
    rewrite length_app in Hk. cbn in Hk. apply IH. rewrite length_app. cbn. lia.
Qed.

Lemma bytes_of_bits (s : string) (r : nat) : r < 8 → bytes_of (bits s ++ replicate r false) = s.
Proof.
  intros Hr. induction s as [|[b0 b1 b2 b3 b4 b5 b6 b7] s IH].
  - do 8 (destruct r as [|r]; [vm_compute; reflexivity|]). lia.
  - cbn [bits byte_bits app]. unfold bytes_of in *. cbn [groups app length bool_decide decide Nat.eq_dec].
    repeat (rewrite bool_decide_false by (cbn; lia); cbn [app]). rewrite bool_decide_true by done.
    rewrite filter_cons_True by done. rewrite fmap_cons. cbn [text_of foldr bits_byte]. by f_equal.
Qed.

Lemma length_pad (k : nat) (g : list bool) : length g ≤ k → length (pad k g) = k.
Proof. intros. unfold pad. rewrite length_app, length_replicate. lia. Qed.

Lemma concat_pad_length (k : nat) (gs : list (list bool)) : Forall (fun g => length g ≤ k) gs →
  length (concat (pad k <$> gs)) = k * length gs.
Proof.
  induction 1 as [|g gs Hg _ IH]; cbn; [lia|]. rewrite length_app, length_pad by done. cbn in IH. rewrite IH. lia.
Qed.

(** What makes an alphabet of base64 one: every group has a digit, that reads back as the group and is no line break. *)
Definition digit_ok (alphabet : string) (g : list bool) : bool :=
  let c := default "A"%char (String.get (number g) alphabet) in
  bool_decide (low_bits 6 <$> index_of c alphabet = Some g) && negb (is_byte c "010") && negb (is_byte c "013")
  && negb (is_byte c "$").

Fixpoint all_bits (k : nat) : list (list bool) :=
  match k with O => [[]] | S k => (cons true <$> all_bits k) ++ (cons false <$> all_bits k) end.

Lemma all_bits_complete (k : nat) (g : list bool) : length g = k → g ∈ all_bits k.
Proof.
  revert g. induction k as [|k IH]; intros [|[] g] Hg; try done; cbn; [set_solver| |];
    injection Hg as Hg; apply elem_of_app; [left|right]; apply list_elem_of_fmap; eauto.
Qed.

Class Alphabet64 (alphabet : string) : Prop := alphabet64 : forallb (digit_ok alphabet) (all_bits 6) = true.

#[export] Instance b64_std_ok : Alphabet64 b64_std.
Proof. vm_compute. reflexivity. Qed.
#[export] Instance b64_url_ok : Alphabet64 b64_url.
Proof. vm_compute. reflexivity. Qed.

Section Base64.
Context (alphabet : string) `{!Alphabet64 alphabet}.

Lemma is_byte_byte (c d : ascii) : is_byte c d = false → byte c ≠ byte d.
Proof.
  intros H E. apply bool_decide_eq_false in H. apply H. unfold byte in E.
  rewrite <- (ascii_N_embedding c), <- (ascii_N_embedding d). f_equal. lia.
Qed.

Lemma digit_spec (g : list bool) : length g ≤ 6 →
  (∃ n, index_of (digit alphabet 6 g) alphabet = Some n ∧ low_bits 6 n = pad 6 g) ∧
  byte (digit alphabet 6 g) ≠ 10%Z ∧ byte (digit alphabet 6 g) ≠ 13%Z ∧ is_byte (digit alphabet 6 g) "$" = false.
Proof.
  intros Hg. pose proof alphabet64 as Ha. rewrite forallb_forall in Ha.
  specialize (Ha (pad 6 g)). rewrite <- list_elem_of_In in Ha.
  specialize (Ha (all_bits_complete 6 _ (length_pad 6 g Hg))). unfold digit_ok in Ha. fold (digit alphabet 6 g) in Ha.
  bools. split_and!.
  - apply fmap_Some in H as (n & ? & ->). eauto.
  - by apply (is_byte_byte _ "010").
  - by apply (is_byte_byte _ "013").
  - done.
Qed.

Lemma digit_bits_digits (gs : list (list bool)) : Forall (fun g => length g ≤ 6) gs →
  digit_bits alphabet 6 (text_of (digit alphabet 6 <$> gs)) = Some (concat (pad 6 <$> gs)).
Proof.
  induction 1 as [|g gs Hg _ IH]; [done|]. rewrite !fmap_cons.
  change (text_of (digit alphabet 6 g :: (digit alphabet 6 <$> gs)))
    with (String (digit alphabet 6 g) (text_of (digit alphabet 6 <$> gs))).
  cbn [digit_bits concat]. destruct (digit_spec g Hg) as ((n & En & Eb) & _). rewrite En, IH. cbn -[low_bits]. by rewrite Eb.
Qed.

Lemma digits_kept (gs : list (list bool)) : Forall (fun g => length g ≤ 6) gs →
  text_of (filter (fun c => byte c ≠ 10%Z ∧ byte c ≠ 13%Z)
    (String.list_ascii_of_string (text_of (digit alphabet 6 <$> gs)))) = text_of (digit alphabet 6 <$> gs).
Proof.
  induction 1 as [|g gs Hg _ IH]; [done|]. rewrite fmap_cons. cbn [text_of foldr String.list_ascii_of_string].
  destruct (digit_spec g Hg) as (_ & ? & ? & _). rewrite filter_cons_True by done. cbn [text_of foldr]. f_equal. exact IH.
Qed.

Lemma length_digits (gs : list (list bool)) : String.length (text_of (digit alphabet 6 <$> gs)) = length gs.
Proof. induction gs as [|g gs IH]; [done|]. rewrite fmap_cons. cbn. f_equal. exact IH. Qed.

Lemma no_dollar (s : string) : has_byte "$" (EncodeToString alphabet 6 s) = false.
Proof.
  unfold EncodeToString. assert (Forall (fun g => length g ≤ 6) (groups 6 [] (bits s))) as H
    by (apply groups_length; cbn; lia).
  induction H as [|g gs Hg _ IH]; [done|]. rewrite fmap_cons. unfold has_byte in *. cbn [text_of foldr str_forallb].
  destruct (digit_spec g Hg) as (_ & _ & _ & ->). exact IH.
Qed.

Lemma RawDecode_Encode (s : string) : RawDecodeString alphabet (EncodeToString alphabet 6 s) = Some s.
Proof.
  assert (Forall (fun g => length g ≤ 6) (groups 6 [] (bits s))) as H by (apply groups_length; cbn; lia).
  unfold RawDecodeString, EncodeToString. rewrite digits_kept, digit_bits_digits, length_digits by done. cbn -[Nat.modulo].
  destruct (groups_concat 6 [] (bits s)) as (r & Hr & E); [cbn; lia|].
  pose proof (concat_pad_length 6 _ H) as Hl. rewrite E, length_app, length_replicate, app_nil_l, length_bits in Hl.
  change (list_fmap _ _ (pad 6) (groups 6 [] (bits s))) with (pad 6 <$> groups 6 [] (bits s)).
  rewrite E, app_nil_l, bool_decide_false; [by rewrite bytes_of_bits by lia|].
  pose proof (Nat.div_mod_eq (length (groups 6 [] (bits s))) 4). lia.
Qed.

End Base64.
