(* ===== verification/Credentials.v ===== *)
(** * Credentials: passwords, one-time codes, recovery codes, mailed tokens, throttles

    internal/auth/password, auth/totp (without the QR code), auth/token, auth/throttle with its statements, and
    internal/passwords.  Argon2, SHA-256, the generator of one-time codes, strings.ToLower and strings.ToUpper are
    parameters; what rand.Read fills a buffer with, if it does, is an argument. *)

From S2P Require Import Prelude GoString NetIP Encoding.
From S2P Require Codeowners.
Local Open Scope Z_scope.

(** ** Standard library *)

(** SkipSpace of package fmt, for Sscanf: a line break is an error. *)
Definition SkipSpace (s : string) : option string :=
  let n := space_prefix_from 0 s in
  if has_byte "010" (str_take n s) then None else Some (str_drop n s).

Inductive Verb := Lit (c : ascii) | DInt | DUint (w : Z).

(** scanInt and scanUint, in base 10. *)
Definition scan_digits (s : string) : option (Z * string) :=
  let '(ds, rest) := str_span is_dec s in
  if bool_decide (ds = "") then None else Some (dec_value ds 0, rest).

Definition scanInt (s : string) : option (Z * string) :=
  s ← SkipSpace s;
  let '(neg, ds) := match s with
                    | String "-"%char ds => (true, ds)
                    | String "+"%char ds => (false, ds)
                    | _ => (false, s)
                    end in
  '(n, rest) ← scan_digits ds;
  let n := if neg : bool then - n else n in
  if bool_decide (- 2 ^ 63 <= n < 2 ^ 63) then Some (n, rest) else None.

Definition scanUint (w : Z) (s : string) : option (Z * string) :=
  s ← SkipSpace s;
  '(n, rest) ← scan_digits s;
  if bool_decide (n < 2 ^ w) then Some (n, rest) else None.

(** Sscanf, for formats of %d and letters that are no space: what follows the last verb is not looked at. *)
Fixpoint Sscanf (format : list Verb) (s : string) : option (list Z) :=
  match format with
  | [] => Some []
  | Lit c :: format =>
      match s with
      | String d s' => if is_byte d c then Sscanf format s' else None
      | "" => None
      end
  | DInt :: format => '(n, rest) ← scanInt s; l ← Sscanf format rest; Some (n :: l)
  | DUint w :: format => '(n, rest) ← scanUint w s; l ← Sscanf format rest; Some (n :: l)
  end.

(** ** internal/auth/password *)

Module Password.

Definition Algo : string := "argon2id-v1".
Definition Version : Z := 19.

Record Params := MkParams { Memory : Z; Time : Z; Threads : Z; SaltLen : Z; KeyLen : Z }.

Definition Defaults : Params := MkParams (64 * 1024) 3 2 16 32.

Definition MinPasswordLength : nat := 10.

(** [Panic]: argon2 panics when there are no rounds or no lanes. *)
Inductive PwErr := TooShort | ErrRand | Malformed | Panic.

#[export] Instance PwErr_eq_dec : EqDecision PwErr.
Proof. solve_decision. Defined.

Definition encode (p : Params) (salt key : string) : string :=
  Join [""; "argon2id"; "v=" +:+ pretty Version;
        "m=" +:+ pretty (Memory p) +:+ ",t=" +:+ pretty (Time p) +:+ ",p=" +:+ pretty (Threads p);
        EncodeToString b64_std 6 salt; EncodeToString b64_std 6 key] "$".

Definition version_format : list Verb := [Lit "v"; Lit "="; DInt].
Definition params_format : list Verb :=
  [Lit "m"; Lit "="; DUint 32; Lit ","; Lit "t"; Lit "="; DUint 32; Lit ","; Lit "p"; Lit "="; DUint 8].

Definition decode (s : string) : res PwErr (Params * string * string) :=
  match SplitByte s "$" with
  | [empty; algo; version; params; salt; key] =>
      if negb (bool_decide (empty = "")) then Err Malformed
      else if negb (bool_decide (algo = "argon2id")) then Err Malformed
      else match Sscanf version_format version with
           | Some [v] =>
               if negb (bool_decide (v = Version)) then Err Malformed
               else match Sscanf params_format params with
                    | Some [m; t; p] =>
                        match RawDecodeString b64_std salt, RawDecodeString b64_std key with
                        | Some salt, Some key =>
                            Ok (MkParams m t p (Z.of_nat (String.length salt) mod 2 ^ 32)
                                  (Z.of_nat (String.length key) mod 2 ^ 32), salt, key)
                        | _, _ => Err Malformed
                        end
                    | _ => Err Malformed
                    end
           | _ => Err Malformed
           end
  | _ => Err Malformed
  end.

Section Argon2.
(** argon2.IDKey: password, salt, time, memory, threads, length of the key. *)
Context (IDKey : string → string → Z → Z → Z → Z → string).

Definition derive (password salt : string) (p : Params) : res PwErr string :=
  if bool_decide (Time p < 1) || bool_decide (Threads p < 1) then Err Panic
  else Ok (IDKey password salt (Time p) (Memory p) (Threads p) (KeyLen p)).

(** [salt]: what rand.Read filled SaltLen bytes with. *)
Definition Hash (password : string) (p : Params) (salt : option string) : res PwErr string :=
  if bool_decide (String.length password < MinPasswordLength)%nat then Err TooShort
  else match salt with
       | None => Err ErrRand
       | Some salt => key ← derive password salt p; Ok (encode p salt key)
       end.

Definition Verify (password encoded : string) : res PwErr bool :=
  '(p, salt, want) ← decode encoded;
  got ← derive password salt p;
  Ok (bool_decide (got = want)).

End Argon2.
End Password.

(** ** internal/passwords *)

Section Common.
Context (rawList : string) (ToLower : string → string).

Definition common_set : gset string :=
  list_to_set (ToLower <$> filter (fun l => l ≠ "") (TrimSpace <$> SplitByte rawList "010")).

Definition IsCommon (password : string) : bool := bool_decide (ToLower password ∈ common_set).
End Common.

(** ** internal/auth/token *)

Module Token.
Section Sha.
Context (sha256 : string → string).

Definition SizeBytes : nat := 32.

Inductive TokErr := ErrRand | ErrEncoding | ErrLength.

(** The text for the link and the hash for the table. *)
Definition New (rnd : option string) : res TokErr (string * string) :=
  match rnd with
  | None => Err ErrRand
  | Some raw => Ok (EncodeToString b64_url 6 raw, sha256 raw)
  end.

Definition HashOf (s : string) : res TokErr string :=
  match RawDecodeString b64_url s with
  | None => Err ErrEncoding
  | Some raw => if negb (bool_decide (String.length raw = SizeBytes)) then Err ErrLength else Ok (sha256 raw)
  end.
End Sha.
End Token.

(** ** internal/auth/totp *)

Module Totp.

Definition second : Z := 1000000000.
Definition SecretSize : nat := 20.
Definition Period : Z := 30.
Definition Digits : nat := 6.
Definition SkewSteps : Z := 1.

(** The padding that StdEncoding appends is trimmed. *)
Definition EncodeBase32 (secret : string) : string := EncodeToString b32_std 5 secret.

(** time.Time.Unix, of a time in nanoseconds. *)
Definition Unix (t : Z) : Z := t / second.

Definition Step (t : Z) : Z := Z.quot (Unix t) Period.

Definition looksLikeCode (s : string) : bool :=
  bool_decide (String.length s = Digits) && forallb (fun r => between 48 r 57) (runes s).

Inductive TotpErr := ErrInvalid | ErrGenerate.

Section Codes.
(** otp's GenerateCodeCustom with the options of this package: secret in base 32, time. *)
Context (GenerateCode : string → Z → option string).

Fixpoint verify_loop (b32 code : string) (t : Z) (offsets : list Z) : res TotpErr Z :=
  match offsets with
  | [] => Err ErrInvalid
  | offset :: offsets =>
      let atTime := t + offset * Period * second in
      match GenerateCode b32 atTime with
      | None => Err ErrGenerate
      | Some want => if bool_decide (want = code) then Ok (Step atTime) else verify_loop b32 code t offsets
      end
  end.

Definition Verify (secret code : string) (t : Z) : res TotpErr Z :=
  if negb (looksLikeCode code) then Err ErrInvalid
  else verify_loop (EncodeBase32 secret) code t (seqZ (- SkewSteps) (2 * SkewSteps + 1)).
End Codes.

(** *** recovery.go *)

Definition RecoveryCodeCount : nat := 10.
Definition recoveryAlphabet : string := "ACDEFGHJKMNPQRTUVWXYZ234".
Definition RecoveryCodeGroups : nat := 3.
Definition RecoveryCodeGroupSize : nat := 4.

Definition recovery_char (b : ascii) : ascii :=
  default "A"%char (String.get (Z.to_nat (byte b mod Z.of_nat (String.length recoveryAlphabet))) recoveryAlphabet).

(** The code of a buffer of 24 bytes, of which the first twelve count. *)
Definition mint_text (buf : string) : string :=
  let out := str_map recovery_char (str_take (RecoveryCodeGroups * RecoveryCodeGroupSize) buf) in
  Join ((fun g => str_take RecoveryCodeGroupSize (str_drop (g * RecoveryCodeGroupSize) out)) <$> seq 0 RecoveryCodeGroups) "-".

Definition mintCode (rnd : option string) : option string := buf ← rnd; Some (mint_text buf).

Section Recovery.
Context (sha256 ToUpper : string → string).

Definition NormalizeRecoveryCode (s : string) : string :=
  foldr (fun r out => if bool_decide (r = 45) || bool_decide (r = 32) then out else Codeowners.EncodeRune r +:+ out) ""
    (runes (ToUpper s)).

Definition HashRecoveryCode (code : string) : string := sha256 (NormalizeRecoveryCode code).

Definition LooksLikeRecoveryCode (s : string) : bool :=
  let n := NormalizeRecoveryCode s in
  bool_decide (String.length n = (RecoveryCodeGroups * RecoveryCodeGroupSize)%nat) &&
  forallb (fun r => between 65 r 90 || between 48 r 57) (runes n).

(** Each code takes its own buffer; without one rand.Read fails. *)
Fixpoint generate_codes (n : nat) (bufs : list (option string)) : option (list string * list string) :=
  match n with
  | O => Some ([], [])
  | S n =>
      c ← mintCode (mjoin (head bufs));
      '(codes, hashes) ← generate_codes n (tail bufs);
      Some (c :: codes, HashRecoveryCode c :: hashes)
  end.

Definition GenerateRecoveryCodes (bufs : list (option string)) : option (list string * list string) :=
  generate_codes RecoveryCodeCount bufs.
End Recovery.
End Totp.

(** ** internal/auth/throttle *)

Module Throttle.

Record Limit := MkLimit { Scope : string; Identifier : string; Max : Z; Window : Z }.

Record Row := MkRow { Hits : Z; WindowStartedAt : Z }.

Inductive ThrErr := ErrThrottled (retryAfter hits : Z) | ErrBump.

(** The statement; the column of hits has 32 bits. *)
Definition BumpAuthThrottle (t : gmap (string * string) Row) (key : string * string) (cutoff now : Z) : option (Row * gmap (string * string) Row) :=
  let row := match t !! key with
             | None => MkRow 1 now
             | Some r => if bool_decide (WindowStartedAt r < cutoff) then MkRow 1 now
                         else MkRow (Hits r + 1) (WindowStartedAt r)
             end in
  if bool_decide (2 ^ 31 <= Hits row) then None else Some (row, <[key := row]> t).

Definition ResetAuthThrottle (t : gmap (string * string) Row) (key : string * string) : gmap (string * string) Row := delete key t.

Definition PurgeStaleAuthThrottle (t : gmap (string * string) Row) (cutoff : Z) : gmap (string * string) Row :=
  filter (fun '(_, r) => ¬ WindowStartedAt r < cutoff) t.

Definition key (p : Limit) : string * string := (Scope p, Identifier p).

(** What Hit makes of the row. *)
Definition verdict (p : Limit) (row : Row) (now : Z) : res ThrErr () :=
  if bool_decide (Max p < Hits row) then
    let retry := Window p - (now - WindowStartedAt row) in
    Err (ErrThrottled (if bool_decide (retry < 1000000000) then 1000000000 else retry) (Hits row))
  else Ok ().

(** Hit with a statement that does not fail for reasons of its own; the clock is read by the application ([app]), by the
    database ([db]) and again by the application ([app']). *)
Definition Hit (t : gmap (string * string) Row) (p : Limit) (app db app' : Z) : res ThrErr () * gmap (string * string) Row :=
  match BumpAuthThrottle t (key p) (app - Window p) db with
  | None => (Err ErrBump, t)
  | Some (row, t) => (verdict p row app', t)
  end.

Definition Reset (t : gmap (string * string) Row) (p : Limit) : gmap (string * string) Row := ResetAuthThrottle t (key p).

End Throttle.
