(* ===== verification/CredentialsFacts.v ===== *)
(** * CredentialsFacts: what the credentials promise

    A hash verifies exactly what has its key; links and recovery codes are read back as they were stored; which codes a
    second factor accepts and which step each counts for; how many attempts a throttle lets through. *)

From Stdlib Require Import Sorting.Sorted.
From S2P Require Import Prelude GoString NetIP NetIPFacts TokensFacts Encoding Credentials.
Local Open Scope Z_scope.

(** ** Numerals *)

Lemma pretty_char_dec (x : N) : (x < 10)%N → is_dec (pretty_N_char x) = true ∧ byte (pretty_N_char x) - 48 = Z.of_N x.
Proof. intros Hx. destruct x as [|p]; [done|]. do 4 (destruct p as [p|p|]; try done); exfalso; lia. Qed.

Lemma pretty_go_spec (x : N) (s : string) : (0 < x)%N →
  (str_forallb is_dec s = true → str_forallb is_dec (pretty_N_go x s) = true) ∧ pretty_N_go x s ≠ "" ∧
  dec_value (pretty_N_go x s) 0 = dec_value s (Z.of_N x).
Proof.
  revert s. induction (N.lt_wf_0 x) as [x _ IH]; intros s Hx. rewrite pretty_N_go_step by done.
  destruct (pretty_char_dec (x `mod` 10)%N) as [Hd Hv]; [by apply N.mod_lt|].
  pose proof (N.div_mod x 10 ltac:(lia)) as Hdm.
  destruct (decide (0 < x `div` 10)%N) as [Hq|Hq].
  - destruct (IH (x `div` 10)%N (N.div_lt x 10 Hx ltac:(lia)) (String (pretty_N_char (x `mod` 10)) s) Hq) as (H1 & H2 & H3).
    split_and!; [|done|].
    + intros Hs. apply H1. cbn [str_forallb]. by rewrite Hd.
    + rewrite H3. cbn [dec_value]. rewrite Hv. f_equal. lia.
  - apply N.nlt_ge, N.le_0_r in Hq. rewrite Hq in *. split_and!; [|done|].
    + intros Hs. cbn [str_forallb pretty_N_go]. change (str_forallb is_dec (String (pretty_N_char (x `mod` 10)) s) = true). cbn [str_forallb]. by rewrite Hd.
    + change (dec_value (String (pretty_N_char (x `mod` 10)) s) 0 = dec_value s (Z.of_N x)). cbn [dec_value]. rewrite Hv. f_equal. lia.
Qed.

Lemma pretty_dec (n : Z) : 0 <= n →
  str_forallb is_dec (pretty n) = true ∧ pretty n ≠ "" ∧ dec_value (pretty n) 0 = n.
Proof.
  intros Hn. destruct n as [|p|p]; [by vm_compute| |lia].
  change (pretty (Zpos p)) with (pretty (Npos p)). unfold pretty, pretty_N. rewrite decide_False by done.
  destruct (pretty_go_spec (Npos p) "" ltac:(lia)) as (H1 & H2 & H3). split_and!; [by apply H1|done|by rewrite H3].
Qed.


Lemma SkipSpace_dec (s rest : string) : str_forallb is_dec s = true → s ≠ "" → SkipSpace (s +:+ rest) = Some (s +:+ rest).
Proof.
  intros Hs Hne. destruct s as [|c s]; [done|]. cbn [str_forallb] in Hs. apply andb_true_iff in Hs as [Hc _].
  unfold is_dec in Hc. apply between_true in Hc. rewrite str_app_cons. unfold SkipSpace. cbn [space_prefix_from].
  unfold DecodeRuneInString. rewrite bool_decide_true by lia.
  assert (IsSpace (byte c) = false) as ->; [|done].
  assert (forallb (fun r => negb (IsSpace r)) (seqZ 48 10) = true) as H by (vm_compute; reflexivity).
  rewrite forallb_forall in H. specialize (H (byte c)). rewrite <- list_elem_of_In, elem_of_seqZ in H.
  by apply negb_true_iff, H; lia.
Qed.

Lemma scan_digits_pretty (n : Z) (rest : string) : 0 <= n → head_not is_dec rest →
  scan_digits (pretty n +:+ rest) = Some (n, rest).
Proof.
  intros Hn Hr. destruct (pretty_dec n Hn) as (Hd & Hne & Hv). unfold scan_digits.
  by rewrite str_span_app, bool_decide_false, Hv.
Qed.

Lemma scanUint_pretty (w n : Z) (rest : string) : 0 <= n < 2 ^ w → head_not is_dec rest →
  scanUint w (pretty n +:+ rest) = Some (n, rest).
Proof.
  intros Hn Hr. destruct (pretty_dec n ltac:(lia)) as (Hd & Hne & Hv). unfold scanUint.
  rewrite SkipSpace_dec by done. cbn [mbind option_bind]. rewrite scan_digits_pretty by (done || lia).
  cbn [mbind option_bind]. by rewrite bool_decide_true by lia.
Qed.

Lemma no_byte (p : ascii → bool) (c : ascii) (s : string) : p c = false → str_forallb p s = true → has_byte c s = false.
Proof.
  intros Hc Hs. unfold has_byte. rewrite negb_false_iff. revert Hs. apply forallb_weaken. intros d Hd.
  unfold is_byte. apply negb_true_iff, bool_decide_false. intros ->. congruence.
Qed.

(** ** Passwords *)

Module PasswordFacts.
Import Password.

Definition fits (p : Params) : Prop := 0 <= Memory p < 2 ^ 32 ∧ 0 <= Time p < 2 ^ 32 ∧ 0 <= Threads p < 2 ^ 8.

Lemma params_text (p : Params) : fits p →
  Sscanf params_format ("m=" +:+ pretty (Memory p) +:+ ",t=" +:+ pretty (Time p) +:+ ",p=" +:+ pretty (Threads p))
  = Some [Memory p; Time p; Threads p].
Proof.
  intros (Hm & Ht & Hp). unfold params_format. cbn [Sscanf]. rewrite !str_app_cons, str_app_empty. cbn [is_byte].
  change (is_byte "m" "m") with true. cbn iota.
  change (is_byte "=" "=") with true. cbn iota. rewrite scanUint_pretty by done. cbn [mbind option_bind].
  change (is_byte "," ",") with true. change (is_byte "t" "t") with true. change (is_byte "=" "=") with true. cbn iota.
  rewrite !str_app_empty, scanUint_pretty by done. cbn [mbind option_bind].
  change (is_byte "," ",") with true. change (is_byte "p" "p") with true. change (is_byte "=" "=") with true. cbn iota.
  rewrite <- (str_append_nil (pretty (Threads p))), scanUint_pretty by done. done.
Qed.

Lemma params_no_dollar (p : Params) : fits p →
  has_byte "$" ("m=" +:+ pretty (Memory p) +:+ ",t=" +:+ pretty (Time p) +:+ ",p=" +:+ pretty (Threads p)) = false.
Proof.
  intros (Hm & Ht & Hp). unfold has_byte. apply negb_false_iff.
  pose proof (fun n Hn => proj1 (pretty_dec n Hn)) as Hd.
  assert (∀ n, 0 <= n → str_forallb (fun d => negb (is_byte d "$")) (pretty n) = true) as H.
  { intros n Hn. pose proof (no_byte is_dec "$" (pretty n) eq_refl (Hd n Hn)) as Hb. unfold has_byte in Hb.
    by apply negb_false_iff in Hb. }
  by rewrite !forallb_append, !H by lia.
Qed.

Lemma decode_encode (p : Params) (salt key : string) : fits p →
  decode (encode p salt key) = Ok (MkParams (Memory p) (Time p) (Threads p)
    (Z.of_nat (String.length salt) mod 2 ^ 32) (Z.of_nat (String.length key) mod 2 ^ 32), salt, key).
Proof.
  intros Hp. unfold decode, encode. rewrite SplitByte_Join.
  - rewrite !bool_decide_true by done. cbn [negb].
    change (Sscanf version_format ("v=" +:+ pretty Version)) with (Some [Version]). rewrite params_text by done.
    rewrite bool_decide_true by done. cbn [negb]. by rewrite !RawDecode_Encode by apply _.
  - repeat constructor; [by vm_compute..|by apply params_no_dollar| |]; apply no_dollar, _.
Qed.

Section Argon2.
Context (IDKey : string → string → Z → Z → Z → Z → string).
(** argon2 returns keys of the length asked for. *)
Hypothesis key_length : ∀ pw salt t m th k, 0 <= k → Z.of_nat (String.length (IDKey pw salt t m th k)) = k.

(** C16: A stored hash carries all that verifying needs: with parameters of their widths, the text that Hash returns for a
    password is parsed back, and Verify accepts exactly the passwords that derive the same key under the same salt and
    costs, hence the password itself, and never fails on it. *)
Theorem Verify_Hash (p : Params) (pw pw' enc : string) (salt : option string) :
  fits p → 0 <= KeyLen p < 2 ^ 32 → Hash IDKey pw p salt = Ok enc →
  Verify IDKey pw enc = Ok true ∧
  ∃ s, salt = Some s ∧
    Verify IDKey pw' enc = Ok (bool_decide (derive IDKey pw' s p = derive IDKey pw s p)).
Proof.
  intros Hp Hk. unfold Hash. case_bool_decide; [done|]. destruct salt as [salt|]; [|done].
  intros (key & Hkey & [= <-])%bind_Ok_inv.
  assert (∀ w, Verify IDKey w (encode p salt key) = Ok (bool_decide (derive IDKey w salt p = derive IDKey pw salt p))) as Hv.
  { intros w. unfold Verify. rewrite decode_encode by done. cbn [mbind res_bind]. revert Hkey. unfold derive.
    cbn [Time Threads Memory KeyLen]. destruct (_ || _); [done|]. intros [= <-]. rewrite key_length by lia.
    rewrite Z.mod_small by done. cbn. f_equal. apply bool_decide_ext. split; [congruence|by intros [= ->]]. }
  split; [by rewrite Hv, bool_decide_true|]. eauto.
Qed.

End Argon2.

(** The password, cut or filled up to the length. *)
Definition toy_key (pw salt : string) (t m th k : Z) : string :=
  str_take (Z.to_nat k) (pw +:+ text_of (replicate (Z.to_nat k) "0"%char)).

Lemma toy_key_length (pw salt : string) (t m th k : Z) : 0 <= k →
  Z.of_nat (String.length (toy_key pw salt t m th k)) = k.
Proof.
  intros Hk. unfold toy_key.
  assert (∀ n s, (n ≤ String.length s)%nat → String.length (str_take n s) = n) as Ht
    by (intros n s; revert n; induction s as [|c s IH]; intros [|n] Hn; cbn in *; [done|lia|done|rewrite IH; lia]).
  rewrite Ht; [lia|]. clear Hk Ht. induction pw as [|c pw IH].
  - rewrite str_app_empty. induction (Z.to_nat k) as [|n IH]; [done|]. cbn [replicate text_of foldr String.length] in *.
    unfold text_of in IH. lia.
  - rewrite str_app_cons. cbn [String.length]. lia.
Qed.

Lemma Verify_Hash_witness :
  let p := MkParams 65536 3 2 4 16 in
  (fits p ∧ Hash toy_key "correct horse" p (Some "salt") = Ok (encode p "salt" "correct horse000")) ∧
  Verify toy_key "correct horse" (encode p "salt" "correct horse000") = Ok true ∧
  ∃ s, Some "salt" = Some s ∧ Verify toy_key "wrong horse" (encode p "salt" "correct horse000") =
    Ok (bool_decide (derive toy_key "wrong horse" s p = derive toy_key "correct horse" s p)).
Proof.
  split; [split; [unfold fits; cbn; lia|vm_compute; reflexivity]|].
  apply (Verify_Hash toy_key toy_key_length); [unfold fits; cbn; lia|cbn; lia|vm_compute; reflexivity].
Defined.

Example ex_encode :
  encode (MkParams 65536 3 2 4 4) "salt" "key!" = "$argon2id$v=19$m=65536,t=3,p=2$c2FsdA$a2V5IQ" ∧
  Verify toy_key "key!" "$argon2id$v=19$m=65536,t=0,p=2$c2FsdA$a2V5IQ" = Err Panic ∧
  Verify toy_key "key!" "$argon2id$v=19x$m= 7,t=1,p=2 lanes$c2FsdA$a2V5IQ" = Ok true ∧
  Verify toy_key "key!" "$argon2i$v=19$m=65536,t=3,p=2$c2FsdA$a2V5IQ" = Err Malformed.
Proof. vm_compute. done. Qed.
End PasswordFacts.

(** ** Mailed tokens *)

Module TokenFacts.
Import Token.

(** A link that was mailed is found by the hash that was stored. *)
Lemma HashOf_New (sha256 : string → string) (raw enc hash : string) : String.length raw = SizeBytes →
  New sha256 (Some raw) = Ok (enc, hash) → HashOf sha256 enc = Ok hash.
Proof.
  intros Hl [= <- <-]. unfold HashOf. rewrite RawDecode_Encode by apply _. by rewrite bool_decide_true.
Qed.

Lemma HashOf_ok (sha256 : string → string) (s hash : string) : HashOf sha256 s = Ok hash →
  ∃ raw, RawDecodeString b64_url s = Some raw ∧ String.length raw = SizeBytes ∧ hash = sha256 raw.
Proof.
  unfold HashOf. destruct (RawDecodeString _ _) as [raw|]; [|done]. case_bool_decide; [|done].
  intros [= <-]. eauto.
Qed.
End TokenFacts.

(** ** One-time codes *)

Module TotpFacts.
Import Totp.

Section Codes.
Context (GenerateCode : string → Z → option string).

Lemma verify_loop_spec (b32 code : string) (t : Z) (lo : Z) (n : nat) (step : Z) :
  verify_loop GenerateCode b32 code t (seqZ lo (Z.of_nat n)) = Ok step ↔
  ∃ o, lo <= o < lo + Z.of_nat n ∧ step = Step (t + o * Period * second) ∧
    GenerateCode b32 (t + o * Period * second) = Some code ∧
    ∀ o', lo <= o' < o → ∃ w, GenerateCode b32 (t + o' * Period * second) = Some w ∧ w ≠ code.
Proof.
  revert lo. induction n as [|n IH]; intros lo.
  { cbn. split; [done|]. intros (o & Ho & _). lia. }
  rewrite seqZ_cons by lia. replace (Z.pred (Z.of_nat (S n))) with (Z.of_nat n) by lia. cbn [verify_loop].
  destruct (GenerateCode b32 (t + lo * Period * second)) as [w|] eqn:Ew.
  2:{ split; [done|]. intros (o & Ho & _ & Eo & Hlt). destruct (decide (o = lo)) as [->|]; [congruence|].
      destruct (Hlt lo ltac:(lia)) as (w & ? & _). congruence. }
  case_bool_decide as Hw.
  - split.
    + intros [= <-]. exists lo. subst w. split_and!; [lia..|done|done|]. intros; lia.
    + intros (o & Ho & -> & Eo & Hlt). destruct (decide (o = lo)) as [->|]; [done|].
      destruct (Hlt lo ltac:(lia)) as (w' & Ew' & Hne). congruence.
  - rewrite IH. split; intros (o & Ho & -> & Eo & Hlt); exists o.
    + split_and!; [lia..|done|done|]. intros o' Ho'. destruct (decide (o' = lo)) as [->|]; [eauto|]. apply Hlt. lia.
    + assert (o ≠ lo) by (intros ->; congruence). split_and!; [lia..|done|done|]. intros o' Ho'. apply Hlt. lia.
Qed.

(** A code is accepted exactly when it looks like one and is that of the step before, the present or the next one; it
    counts for the first of them that it fits, and a step whose code cannot be computed ends the search. *)
Lemma Verify_iff (secret code : string) (t step : Z) :
  Verify GenerateCode secret code t = Ok step ↔
  looksLikeCode code = true ∧ ∃ o, -1 <= o <= 1 ∧ step = Step (t + o * Period * second) ∧
    GenerateCode (EncodeBase32 secret) (t + o * Period * second) = Some code ∧
    ∀ o', -1 <= o' < o → ∃ w, GenerateCode (EncodeBase32 secret) (t + o' * Period * second) = Some w ∧ w ≠ code.
Proof.
  unfold Verify. destruct (looksLikeCode code); cbn [negb]; [|naive_solver].
  change (seqZ (- SkewSteps) (2 * SkewSteps + 1)) with (seqZ (-1) (Z.of_nat 3)). rewrite verify_loop_spec.
  split.
  - intros (o & Ho & H). split; [done|]. exists o. split; [lia|done].
  - intros (_ & o & Ho & H). exists o. split; [lia|done].
Qed.

Lemma Step_near (t o : Z) : 0 <= t + o * Period * second → 0 <= t → Step (t + o * Period * second) = Step t + o.
Proof.
  unfold Step, Unix, Period, second. intros. rewrite !Z.quot_div_nonneg by (try apply Z.div_pos; lia).
  rewrite !Z.div_div by lia. replace (t + o * 30 * 1000000000) with (t + o * (1000000000 * 30)) by lia.
  by rewrite Z.div_add by lia.
Qed.
End Codes.

(** *** Recovery codes *)

Definition ascii_upper (c : ascii) : ascii := if between 97 (byte c) 122 then ascii_of_N (Z.to_N (byte c - 32)) else c.
Definition plain (c : ascii) : bool := negb (is_byte c "-") && negb (is_byte c " ").
Definition ascii_only (s : string) : bool := str_forallb (fun c => bool_decide (byte c < 128)) s.

(** What is left of a typed code: capitals, without dashes and spaces. *)
Fixpoint squeeze (s : string) : string :=
  match s with
  | "" => ""
  | String c s => let c := ascii_upper c in if plain c then String c (squeeze s) else squeeze s
  end.

Definition char_ok (c : ascii) : bool :=
  let d := recovery_char c in
  bool_decide (ascii_upper d = d) && plain d && bool_decide (byte d < 128) && (between 65 (byte d) 90 || between 48 (byte d) 57).

Definition upper_ok (c : ascii) : bool :=
  negb (bool_decide (byte c < 128)) ||
  (let d := ascii_upper c in
   bool_decide (byte d < 128) && bool_decide (Codeowners.EncodeRune (byte d) = String d "") &&
   bool_decide (plain d = negb (bool_decide (byte d = 45) || bool_decide (byte d = 32)))).

Lemma every_byte (p : ascii → bool) : forallb (fun n => p (ascii_of_nat n)) (seq 0 256) = true → ∀ c, p c = true.
Proof.
  intros H c. rewrite forallb_forall in H. rewrite <- (ascii_nat_embedding c). apply H, in_seq.
  pose proof (nat_ascii_bounded c). lia.
Qed.

Lemma char_ok_all (c : ascii) : char_ok c = true.
Proof. apply every_byte. vm_compute. reflexivity. Qed.

Lemma upper_ok_all (c : ascii) : upper_ok c = true.
Proof. apply every_byte. vm_compute. reflexivity. Qed.

Lemma squeeze_char (c : ascii) (s : string) :
  squeeze (String (recovery_char c) s) = String (recovery_char c) (squeeze s).
Proof.
  pose proof (char_ok_all c) as H. unfold char_ok in H. bools. cbn [squeeze]. by rewrite H, H2.
Qed.

Lemma ascii_char (c : ascii) (s : string) : ascii_only (String (recovery_char c) s) = ascii_only s.
Proof.
  pose proof (char_ok_all c) as H. unfold char_ok in H. bools. unfold ascii_only. cbn [str_forallb].
  by rewrite bool_decide_true.
Qed.

Lemma squeeze_dash (s : string) : squeeze (String "-" s) = squeeze s.
Proof. done. Qed.

Lemma ascii_dash (s : string) : ascii_only (String "-" s) = ascii_only s.
Proof. done. Qed.

Lemma mint_text_spec (buf : string) : (12 ≤ String.length buf)%nat →
  squeeze (mint_text buf) = str_map recovery_char (str_take 12 buf) ∧ ascii_only (mint_text buf) = true.
Proof.
  intros Hl. do 12 (destruct buf as [|? buf]; [cbn in Hl; lia|]). unfold mint_text.
  cbn -[recovery_char squeeze ascii_only]. rewrite !str_app_cons, !str_app_empty. split.
  - by repeat (rewrite squeeze_char || rewrite squeeze_dash).
  - by repeat (rewrite ascii_char || rewrite ascii_dash).
Qed.

Lemma recovery_text_ok (s : string) :
  forallb (fun r => between 65 r 90 || between 48 r 57) (runes (str_map recovery_char s)) = true.
Proof.
  rewrite runes_ascii.
  - induction s as [|c s IH]; [done|]. cbn [str_map String.list_ascii_of_string fmap list_fmap forallb].
    pose proof (char_ok_all c) as H. unfold char_ok in H. bools. rewrite H0. exact IH.
  - induction s as [|c s IH]; [done|]. cbn [str_map]. change (ascii_only (String (recovery_char c) (str_map recovery_char s)) = true).
    by rewrite ascii_char.
Qed.

Section Recovery.
Context (sha256 ToUpper : string → string).
(** strings.ToUpper on ASCII. *)
Hypothesis ToUpper_ascii : ∀ s, ascii_only s = true → ToUpper s = str_map ascii_upper s.

Lemma Normalize_ascii (s : string) : ascii_only s = true → NormalizeRecoveryCode ToUpper s = squeeze s.
Proof.
  intros Hs. unfold NormalizeRecoveryCode. rewrite ToUpper_ascii by done. rewrite runes_ascii.
  - induction s as [|c s IH]; [done|]. cbn [ascii_only str_forallb] in Hs. unfold ascii_only in *. cbn [str_forallb] in Hs.
    apply andb_true_iff in Hs as [Hc Hs]. pose proof (upper_ok_all c) as Hu. unfold upper_ok in Hu. rewrite Hc in Hu.
    cbn [negb orb] in Hu. bools. cbn [str_map String.list_ascii_of_string fmap list_fmap foldr squeeze].
    rewrite H0. destruct (_ || _); cbn [negb]; [by apply IH|]. rewrite H1. change (String (ascii_upper c) "" +:+ ?x) with (String (ascii_upper c) x).
    f_equal. by apply IH.
  - unfold ascii_only in Hs. induction s as [|c s IH]; [done|]. cbn [str_forallb] in Hs.
    apply andb_true_iff in Hs as [Hc Hs]. pose proof (upper_ok_all c) as Hu. unfold upper_ok in Hu. rewrite Hc in Hu.
    cbn [negb orb] in Hu. bools. cbn [str_map str_forallb]. rewrite IH by done. by rewrite bool_decide_true.
Qed.

Lemma generate_codes_spec (bufs : list string) : Forall (fun b => (12 ≤ String.length b)%nat) bufs →
  generate_codes sha256 ToUpper (length bufs) (Some <$> bufs) =
    Some (mint_text <$> bufs, HashRecoveryCode sha256 ToUpper ∘ mint_text <$> bufs).
Proof. induction 1 as [|b bufs Hb _ IH]; [done|]. cbn in *. by rewrite IH. Qed.

(** A recovery code works however it is typed: of the ten codes shown, any text that has the letters and digits of
    one in this order, in capitals or not, with or without dashes and spaces, is taken for a recovery code and hashes to
    what was stored for that code. *)
Theorem recovery_codes_read (bufs : list string) :
  length bufs = RecoveryCodeCount → Forall (fun b => (12 ≤ String.length b)%nat) bufs →
  ∃ codes hashes, GenerateRecoveryCodes sha256 ToUpper (Some <$> bufs) = Some (codes, hashes) ∧
    length codes = RecoveryCodeCount ∧
    Forall2 (fun c h => ∀ typed, ascii_only typed = true → squeeze typed = squeeze c →
      LooksLikeRecoveryCode ToUpper typed = true ∧ HashRecoveryCode sha256 ToUpper typed = h) codes hashes.
Proof.
  intros Hl Hb. unfold GenerateRecoveryCodes. rewrite <- Hl, generate_codes_spec by done.
  do 2 eexists. split; [done|]. split; [by rewrite length_fmap|]. rewrite Forall2_fmap.
  apply Forall_Forall2_diag. apply (Forall_impl _ _ _ Hb). intros b Hlb typed Ha Hs.
  destruct (mint_text_spec b Hlb) as [Hm Hma]. split.
  - unfold LooksLikeRecoveryCode. rewrite Normalize_ascii, Hs, Hm, recovery_text_ok by done.
    apply andb_true_iff. split; [|done]. apply bool_decide_eq_true.
    do 12 (destruct b as [|? b]; [cbn in Hlb; lia|]). done.
  - unfold HashRecoveryCode. cbn. unfold HashRecoveryCode. by rewrite !Normalize_ascii, Hs by done.
Qed.
End Recovery.

Definition toy_upper (s : string) : string := str_map ascii_upper s.

Lemma recovery_codes_read_witness :
  let bufs := replicate 10 "0123456789abcdefghijklmn" in
  ∃ codes hashes, GenerateRecoveryCodes (fun s => s) toy_upper (Some <$> bufs) = Some (codes, hashes) ∧
    length codes = RecoveryCodeCount ∧
    Forall2 (fun c h => ∀ typed, ascii_only typed = true → squeeze typed = squeeze c →
      LooksLikeRecoveryCode toy_upper typed = true ∧ HashRecoveryCode (fun s => s) toy_upper typed = h) codes hashes.
Proof.
  apply (recovery_codes_read (fun s => s) toy_upper); [done|done|]. repeat (constructor; [cbn; lia|]). constructor.
Defined.

Example ex_recovery :
  mint_text "0123456789abcdefghijklmn" = "ACDE-FGHJ-KMCD" ∧
  squeeze "acde fghj-kmcd " = squeeze "ACDE-FGHJ-KMCD" ∧
  LooksLikeRecoveryCode toy_upper "acdefghjkmc" = false ∧
  EncodeBase32 "Hello!" = "JBSWY3DPEE" ∧
  Verify (fun s t => Some (if decide (Step t = 4) then "000004" else "999999")) "key" "000004" (119 * second) = Ok 4.
Proof. vm_compute. done. Qed.
End TotpFacts.

(** ** Throttles *)

Module ThrottleFacts.
Import Throttle.

(** A call of Hit: the limit and the readings of the clocks. *)
Record Call := MkCall { limit : Limit; app : Z; db : Z; app' : Z }.

(** How many of the calls on [p] at a time of [inside] are let through. *)
Fixpoint allowed (p : Limit) (inside : Z → bool) (t : gmap (string * string) Row) (calls : list Call) : Z :=
  match calls with
  | [] => 0
  | c :: calls =>
      let '(r, t') := Hit t (limit c) (app c) (db c) (app' c) in
      (if is_ok r && bool_decide (key (limit c) = key p) && inside (db c) then 1 else 0) + allowed p inside t' calls
  end.

(** Clocks that never go back, the application's read before the statement runs. *)
Definition in_order (calls : list Call) : Prop :=
  Forall (fun c => app c <= db c) calls ∧ StronglySorted (fun c d => db c <= db d) calls.

Definition one_policy (p : Limit) (calls : list Call) : Prop := Forall (fun c => key (limit c) = key p → limit c = p) calls.

Definition within (a w : Z) (n : Z) : bool := bool_decide (a <= n <= a + w).

Lemma Hit_other (p q : Limit) (t : gmap (string * string) Row) (x y z : Z) : key q ≠ key p →
  (Hit t q x y z).2 !! key p = t !! key p.
Proof.
  intros Hne. unfold Hit, BumpAuthThrottle. case_bool_decide; [done|]. cbn. by rewrite lookup_insert_ne.
Qed.

Lemma Hit_same (p : Limit) (t : gmap (string * string) Row) (x y z : Z) :
  (Hit t p x y z).2 !! key p = t !! key p ∧ is_ok (Hit t p x y z).1 = false ∨
  ∃ r, (Hit t p x y z).2 !! key p = Some r ∧ is_ok (Hit t p x y z).1 = bool_decide (Hits r <= Max p) ∧
    ((r = MkRow 1 y ∧ ∀ r0, t !! key p = Some r0 → WindowStartedAt r0 < x - Window p) ∨
     ∃ r0, t !! key p = Some r0 ∧ r = MkRow (Hits r0 + 1) (WindowStartedAt r0)).
Proof.
  unfold Hit, BumpAuthThrottle.
  set (row := match t !! key p with Some r => _ | None => _ end).
  case_bool_decide; [by left|]. right. exists row. cbn. rewrite lookup_insert_eq. split; [done|]. split.
  - unfold verdict. repeat case_bool_decide; cbn; (done || lia).
  - unfold row. destruct (t !! key p) as [r|] eqn:E; [|naive_solver]. case_bool_decide; [naive_solver|eauto].
Qed.

Lemma allowed_after (p : Limit) (a w : Z) (t : gmap (string * string) Row) (calls : list Call) :
  Forall (fun c => a + w < db c) calls → allowed p (within a w) t calls = 0.
Proof.
  intros H. revert t. induction H as [|c calls Hc _ IH]; intros t; [done|]. cbn [allowed].
  destruct (Hit _ _ _ _ _) as [r t']. rewrite IH. unfold within.
  rewrite (bool_decide_false (a <= db c <= a + w)) by lia. by rewrite andb_false_r.
Qed.

Definition left_ (p : Limit) (r : Row) : Z := Z.max 0 (Max p - Hits r).

(** What the row leaves for the rest of an interval that has begun at [a]. *)
Definition budget (p : Limit) (a : Z) (t : gmap (string * string) Row) : Z :=
  match t !! key p with
  | None => Max p
  | Some r => if bool_decide (WindowStartedAt r < a) then left_ p r + Max p else left_ p r
  end.

Lemma allowed_budget (p : Limit) (a : Z) (t : gmap (string * string) Row) (calls : list Call) : 0 <= Max p →
  in_order calls → one_policy p calls → Forall (fun c => a <= db c) calls →
  allowed p (within a (Window p)) t calls <= budget p a t.
Proof.
  intros HM [Happ Hsort] Hone Ha. revert t. induction calls as [|c calls IH]; intros t.
  { cbn [allowed]. unfold budget, left_. destruct (t !! key p); [case_bool_decide|]; lia. }
  apply Forall_cons in Happ as [Hac Happ], Hone as [Ho Hone], Ha as [Ha Has].
  inversion Hsort as [|? ? Hs Hlast]; subst. specialize (IH Happ Hs Hone Has).
  destruct (decide (a + Window p < db c)) as [Hlate|Hin].
  { rewrite allowed_after; [unfold budget, left_; destruct (t !! key p); [case_bool_decide|]; lia|].
    constructor; [done|]. apply (Forall_impl _ _ _ Hlast). cbn. lia. }
  cbn [allowed]. destruct (decide (key (limit c) = key p)) as [Hk|Hk].
  - rewrite (Ho Hk). pose proof (Hit_same p t (app c) (db c) (app' c)) as Hh.
    destruct (Hit t p (app c) (db c) (app' c)) as [r t']. cbn [fst snd] in Hh. specialize (IH t').
    rewrite (bool_decide_true (key p = key p)) by done. unfold within in *.
    rewrite (bool_decide_true (a <= db c <= a + Window p)) by lia.
    rewrite !andb_true_r. destruct Hh as [[Et ->]|(row & Et & -> & Hrow)].
    { unfold budget in *. rewrite Et in IH. lia. }
    unfold budget in *. rewrite Et in IH. destruct Hrow as [[-> Hold]|(r0 & E0 & ->)]; cbn [Hits WindowStartedAt] in *.
    + rewrite bool_decide_false in IH by lia. unfold left_ in *. cbn [Hits] in *.
      assert (Max p <= budget p a t) as Hb; [|unfold budget, left_ in Hb; case_bool_decide; lia].
      unfold budget, left_. destruct (t !! key p) as [r0|]; [|lia]. specialize (Hold r0 eq_refl).
      rewrite bool_decide_true by lia. lia.
    + rewrite E0. unfold left_ in *. cbn [Hits] in *. repeat case_bool_decide; lia.
  - pose proof (Hit_other p (limit c) t (app c) (db c) (app' c) Hk) as Hh.
    destruct (Hit t (limit c) (app c) (db c) (app' c)) as [r t']. cbn [snd] in Hh. specialize (IH t').
    rewrite (bool_decide_false (key (limit c) = key p)), andb_false_r by done. cbn [andb].
    unfold budget in *. rewrite Hh in IH. lia.
Qed.

Definition counted (p : Limit) (t : gmap (string * string) Row) : Prop := ∀ r, t !! key p = Some r → 0 <= Hits r.

Lemma counted_Hit (p q : Limit) (t : gmap (string * string) Row) (x y z : Z) : (key q = key p → q = p) →
  counted p t → counted p (Hit t q x y z).2.
Proof.
  intros Ho Hc r Hr. destruct (decide (key q = key p)) as [Hk|Hk]; [|rewrite Hit_other in Hr by done; eauto].
  rewrite (Ho Hk) in *. destruct (Hit_same p t x y z) as [[E _]|(r' & E & _ & Hrow)]; rewrite E in Hr; [eauto|].
  injection Hr as <-. destruct Hrow as [[-> _]|(r0 & E0 & ->)]; cbn; [lia|]. specialize (Hc r0 E0). lia.
Qed.

(** Whatever the times of the calls, and whatever other keys are hit in between, a limit lets at most twice its number
    through in any interval as long as its window, not more: windows have fixed starts, so that the end of one and the
    beginning of the next can fall together, but never three. *)
Theorem Hit_bound (p : Limit) (t : gmap (string * string) Row) (calls : list Call) (a : Z) :
  0 <= Max p → counted p t → in_order calls → one_policy p calls →
  allowed p (within a (Window p)) t calls <= 2 * Max p.
Proof.
  intros HM Hc [Happ Hsort] Hone. revert t Hc. induction calls as [|c calls IH]; intros t Hc; [cbn [allowed]; lia|].
  destruct (decide (a <= db c)) as [Ha|Ha].
  - etrans; [apply (allowed_budget p a); try done|].
    + constructor; [done|]. inversion Hsort as [|? ? _ Hlast]; subst. apply (Forall_impl _ _ _ Hlast). cbn. lia.
    + unfold budget, left_. destruct (t !! key p) as [r|] eqn:E; [|lia]. specialize (Hc r E). case_bool_decide; lia.
  - apply Forall_cons in Happ as [_ Happ], Hone as [Ho Hone]. inversion Hsort as [|? ? Hs _]; subst. cbn [allowed].
    pose proof (counted_Hit p (limit c) t (app c) (db c) (app' c) Ho Hc) as Hc'.
    destruct (Hit t (limit c) (app c) (db c) (app' c)) as [r t']. unfold within at 1.
    rewrite (bool_decide_false (a <= db c <= a + Window p)), andb_false_r by lia. by apply IH.
Qed.

(** Two sign-ins in ten seconds: the bound is met. *)
Definition sample_limit : Limit := MkLimit "login" "ip:192.0.2.1|alice" 2 10.
Definition sample_call (t : Z) : Call := MkCall sample_limit t t t.

Lemma Hit_bound_witness :
  let calls := sample_call <$> [0; 10; 10; 11; 12; 20] in
  allowed sample_limit (within 10 10) ∅ calls <= 2 * Max sample_limit.
Proof.
  apply (Hit_bound sample_limit ∅ (sample_call <$> [0; 10; 10; 11; 12; 20]) 10).
  - cbn; lia.
  - intros r Hr. by rewrite lookup_empty in Hr.
  - split; [repeat constructor; cbn; lia|]. repeat constructor; cbn; lia.
  - repeat constructor.
Defined.

Example ex_bound_met :
  allowed sample_limit (within 10 10) ∅ (sample_call <$> [0; 10; 10; 11; 12; 20]) = 3 ∧
  allowed sample_limit (within 9 10) {[key sample_limit := MkRow 0 0]} (sample_call <$> [9; 10; 11; 12; 13]) = 4 ∧
  Hit {[key sample_limit := MkRow 2 0]} sample_limit 9 9 9 =
    (Err (ErrThrottled 1000000000 3), {[key sample_limit := MkRow 3 0]}).
Proof. split_and!; vm_compute; reflexivity. Qed.
End ThrottleFacts.
