(* ===== verification/Program.v ===== *)
(** * Program: handlers as programs whose statements interleave

    A handler is a tree: it asks its environment (the clock, random bytes, the mail server) or has a statement or a
    transaction run by the database, and goes on with the answer.  Programs are finite, so they are an inductive type; a system runs one
    step of any of them at a time.  [safe] is the program logic: a handler keeps an invariant of tables and history whatever the
    others do between its steps, and all it may remember is history. *)

From S2P Require Import Prelude.

(** How a statement ends: as it should, not executed, or executed with the answer lost. *)
Inductive Fault := Fine | Refused | Lost.

Record Env := MkEnv { e_now : Z; e_fault : Fault; e_rand : nat → option string; e_mail : bool }.

Section Prog.
Context {DB Err_ Ev : Type}.

Inductive prog (A : Type) : Type :=
| Ret (a : A)
| Ask {X : Type} (f : Env → X) (ev : X → list Ev) (k : X → prog A)
| Sql {X : Type} (f : Z → DB → res Err_ (X * DB)) (ev : res Err_ X → Ev) (k : res Err_ X → prog A).

Fixpoint bind {A B} (m : prog A) (f : A → prog B) : prog B :=
  match m with
  | Ret _ a => f a
  | Ask _ g ev k => Ask B g ev (fun x => bind (k x) f)
  | Sql _ g ev k => Sql B g ev (fun x => bind (k x) f)
  end.

End Prog.
Arguments prog : clear implicits.
Arguments Ret {DB Err_ Ev A} a.
Arguments Ask {DB Err_ Ev A X} f ev k.
Arguments Sql {DB Err_ Ev A X} f ev k.

#[export] Instance prog_ret {DB E Ev} : MRet (prog DB E Ev) := fun A => Ret.
#[export] Instance prog_bind {DB E Ev} : MBind (prog DB E Ev) := fun A B f m => bind m f.

Section Run.
Context {DB E Ev : Type} (fault : E).

(** What the caller sees of a statement, and the tables after it. *)
Definition answer {X} (env : Env) (f : Z → DB → res E (X * DB)) (db : DB) : res E X * DB :=
  match e_fault env, f (e_now env) db with
  | Refused, _ => (Err fault, db)
  | Fine, Ok (x, db') => (Ok x, db')
  | Fine, Err e => (Err e, db)
  | Lost, Ok (_, db') => (Err fault, db')
  | Lost, Err _ => (Err fault, db)
  end.

(** One step: the rest of the program, the tables, what happened. *)
Definition step1 {A} (env : Env) (db : DB) (p : prog DB E Ev A) : prog DB E Ev A * DB * list Ev :=
  match p with
  | Ret a => (Ret a, db, [])
  | Ask f ev k => let x := f env in (k x, db, ev x)
  | Sql f ev k => let '(r, db') := answer env f db in (k r, db', [ev r])
  end.

(** A program on its own, the environment of its [i]-th step given. *)
Fixpoint run {A} (p : prog DB E Ev A) (envs : nat → Env) (i : nat) (db : DB) : A * DB * list Ev :=
  match p with
  | Ret a => (a, db, [])
  | Ask f ev k => let x := f (envs i) in let '(a, db', l) := run (k x) envs (S i) db in (a, db', ev x ++ l)
  | Sql f ev k =>
      let '(r, db1) := answer (envs i) f db in
      let '(a, db', l) := run (k r) envs (S i) db1 in (a, db', ev r :: l)
  end.

(** What holds after a program that runs alone while nothing fails. *)
Definition fine (envs : nat → Env) : Prop := ∀ k, e_fault (envs k) = Fine.

Definition wp {A} (p : prog DB E Ev A) (Q : A → DB → Prop) (db : DB) : Prop :=
  ∀ envs i, fine envs → let '(a, db', _) := run p envs i db in Q a db'.

Lemma wp_sql {A X} (f : Z → DB → res E (X * DB)) (ev : res E X → Ev) (k : res E X → prog DB E Ev A) (Q : A → DB → Prop) (db : DB) :
  (∀ now, match f now db with Ok (x, db') => wp (k (Ok x)) Q db' | Err e => wp (k (Err e)) Q db end) → wp (Sql f ev k) Q db.
Proof.
  intros H envs i Hf. cbn [run]. unfold answer. rewrite (Hf i). specialize (H (e_now (envs i))).
  destruct (f (e_now (envs i)) db) as [[x db']|e]; specialize (H envs (S i) Hf).
  - destruct (run (k (Ok x)) envs (S i) db') as [[a db2] l]. exact H.
  - destruct (run (k (Err e)) envs (S i) db) as [[a db2] l]. exact H.
Qed.

Lemma wp_ask {A X} (f : Env → X) (ev : X → list Ev) (k : X → prog DB E Ev A) (Q : A → DB → Prop) (db : DB) :
  (∀ x, wp (k x) Q db) → wp (Ask f ev k) Q db.
Proof.
  intros H envs i Hf. cbn [run]. specialize (H (f (envs i)) envs (S i) Hf). destruct (run (k (f (envs i))) envs (S i) db) as [[a db2] l]. exact H.
Qed.

Lemma wp_weaken {A} (p : prog DB E Ev A) (Q R : A → DB → Prop) (db : DB) : (∀ a db', Q a db' → R a db') → wp p Q db → wp p R db.
Proof. intros HQ H envs i Hf. specialize (H envs i Hf). destruct (run p envs i db) as [[a db'] l]. by apply HQ. Qed.

Lemma wp_ret {A} (a : A) (Q : A → DB → Prop) (db : DB) : Q a db → wp (Ret a) Q db.
Proof. intros H envs i Hf. exact H. Qed.

Lemma run_bind {A B} (p : prog DB E Ev A) (f : A → prog DB E Ev B) (envs : nat → Env) (i : nat) (db : DB) :
  ∃ j l, run (bind p f) envs i db =
    let '(a, db', l1) := run p envs i db in let '(b, db2, _) := run (f a) envs j db' in (b, db2, l).
Proof.
  revert i db. induction p as [a|X g ev k IH|X g ev k IH]; intros i db; cbn [bind run].
  - destruct (run (f a) envs i db) as [[b db2] l2] eqn:Er. exists i, l2. by rewrite Er.
  - destruct (IH (g (envs i)) (S i) db) as (j & l & ->). destruct (run (k _) envs (S i) db) as [[a db'] l1].
    destruct (run (f a) envs j db') as [[b db2] l2] eqn:Er. eexists j, _. by rewrite Er.
  - destruct (answer (envs i) g db) as [r db1]. destruct (IH r (S i) db1) as (j & l & ->). destruct (run (k r) envs (S i) db1) as [[a db'] l1].
    destruct (run (f a) envs j db') as [[b db2] l2] eqn:Er. eexists j, _. by rewrite Er.
Qed.

Lemma wp_bind {A B} (p : prog DB E Ev A) (f : A → prog DB E Ev B) (Q : B → DB → Prop) (db : DB) :
  wp p (fun a db' => wp (f a) Q db') db → wp (p ≫= f) Q db.
Proof.
  intros H envs i Hf. destruct (run_bind p f envs i db) as (j & l & Hr). change (p ≫= f) with (bind p f). rewrite Hr.
  specialize (H envs i Hf). destruct (run p envs i db) as [[a db'] l1]. specialize (H envs j Hf).
  destruct (run (f a) envs j db') as [[b db2] l2]. exact H.
Qed.

(** A statement that is answered was executed; one that is not may have been. *)
Lemma answer_inv {X} (env : Env) (f : Z → DB → res E (X * DB)) (d : DB) (r : res E X) (d' : DB) : answer env f d = (r, d') →
  (d' = d ∧ ∃ e, r = Err e) ∨ ∃ x, f (e_now env) d = Ok (x, d') ∧ (r = Ok x ∨ r = Err fault).
Proof. unfold answer. destruct (e_fault env), (f (e_now env) d) as [[x d1]|e]; intros [= <- <-]; eauto 10. Qed.

End Run.
Arguments answer_inv {DB E fault X}.

(** ** The logic *)

Section Logic.
Context {DB E Ev : Type} (fault : E).
(** A history lists the number of the request and what happened, newest first. *)
Context (I : DB → list (nat * Ev) → Prop).

Definition tag (i : nat) (evs : list Ev) : list (nat * Ev) := (fun e => (i, e)) <$> rev evs.

Fixpoint safe {A} (i : nat) (p : prog DB E Ev A) (Q : list (nat * Ev) → A → Prop) (l : list (nat * Ev)) : Prop :=
  match p with
  | Ret a => Q l a
  | Ask f ev k =>
      ∀ env db l', l ⊆ l' → I db l' →
        let x := f env in I db (tag i (ev x) ++ l') ∧ safe i (k x) Q (tag i (ev x) ++ l')
  | Sql f ev k =>
      ∀ env db l', l ⊆ l' → I db l' →
        let '(r, db') := answer fault env f db in I db' ((i, ev r) :: l') ∧ safe i (k r) Q ((i, ev r) :: l')
  end.

Lemma safe_bind {A B} (i : nat) (p : prog DB E Ev A) (f : A → prog DB E Ev B) (Q : list (nat * Ev) → B → Prop) (l : list (nat * Ev)) :
  safe i p (fun l a => safe i (f a) Q l) l → safe i (p ≫= f) Q l.
Proof.
  revert l. induction p as [a|X g ev k IH|X g ev k IH]; intros l H; [done| |].
  - intros env db l' Hl Hi. destruct (H env db l' Hl Hi) as [H1 H2]. split; [done|]. by apply IH.
  - intros env db l' Hl Hi. specialize (H env db l' Hl Hi). destruct (answer fault env g db) as [r db'].
    destruct H as [H1 H2]. split; [done|]. by apply IH.
Qed.

Lemma safe_weaken {A} (i : nat) (p : prog DB E Ev A) (Q R : list (nat * Ev) → A → Prop) (l : list (nat * Ev)) :
  (∀ l' a, l ⊆ l' → Q l' a → R l' a) → safe i p Q l → safe i p R l.
Proof.
  revert l. induction p as [a|X g ev k IH|X g ev k IH]; intros l HQ H; [by apply HQ| |]; intros env db l' Hl Hi.
  - destruct (H env db l' Hl Hi) as [H1 H2]. split; [done|]. apply IH; [|done].
    intros l2 a Hl2. apply HQ. set_solver.
  - specialize (H env db l' Hl Hi). destruct (answer fault env g db) as [r db'].
    destruct H as [H1 H2]. split; [done|]. apply IH; [|done]. intros l2 a Hl2. apply HQ. set_solver.
Qed.

(** ** Systems of requests *)

Record World (A : Type) := MkWorld { w_db : DB; w_threads : list (prog DB E Ev A); w_log : list (nat * Ev) }.
Arguments MkWorld {A}. Arguments w_db {A}. Arguments w_threads {A}. Arguments w_log {A}.

Inductive wstep {A} (arrive : list (nat * Ev) → Ev → prog DB E Ev A → Prop) (elsewhere : DB → DB → Prop) : World A → World A → Prop :=
| W_arrive db ts l e p : arrive l e p →
    wstep arrive elsewhere (MkWorld db ts l) (MkWorld db (ts ++ [p]) ((length ts, e) :: l))
| W_run db ts l i p env p' db' evs : ts !! i = Some p → step1 fault env db p = (p', db', evs) →
    wstep arrive elsewhere (MkWorld db ts l) (MkWorld db' (<[i := p']> ts) (tag i evs ++ l))
| W_elsewhere db db' ts l : elsewhere db db' →
    wstep arrive elsewhere (MkWorld db ts l) (MkWorld db' ts l).

Definition thread_safe {A} (l : list (nat * Ev)) (i : nat) (p : prog DB E Ev A) : Prop :=
  ∃ l0, l0 ⊆ l ∧ safe i p (fun _ _ => True) l0.

Lemma thread_safe_mono {A} (l l' : list (nat * Ev)) (i : nat) (p : prog DB E Ev A) :
  l ⊆ l' → thread_safe l i p → thread_safe l' i p.
Proof. intros Hl (l0 & H0 & H). exists l0. split; [set_solver|done]. Qed.

(** A program that is safe keeps the invariant in one step and stays safe. *)
Lemma safe_step {A} (i : nat) (p p' : prog DB E Ev A) (env : Env) (db db' : DB) (l : list (nat * Ev)) (evs : list Ev) :
  thread_safe l i p → I db l → step1 fault env db p = (p', db', evs) →
  I db' (tag i evs ++ l) ∧ thread_safe (tag i evs ++ l) i p'.
Proof.
  intros (l0 & Hl & H) Hi. destruct p as [a|X f ev k|X f ev k]; cbn [step1].
  - intros [= <- <- <-]. split; [done|]. by exists l0.
  - intros [= <- <- <-]. destruct (H env db l Hl Hi) as [H1 H2]. split; [done|]. eexists. split; [|exact H2]. done.
  - specialize (H env db l Hl Hi). destruct (answer fault env f db) as [r db1]. intros [= <- <- <-].
    destruct H as [H1 H2]. split; [done|]. eexists. split; [|exact H2]. done.
Qed.

Definition world_ok {A} (w : World A) : Prop :=
  I (w_db w) (w_log w) ∧ ∀ i p, w_threads w !! i = Some p → thread_safe (w_log w) i p.

(** The invariant holds in every reachable state of a system whose requests are safe. *)
Lemma world_invariant {A} (arrive : list (nat * Ev) → Ev → prog DB E Ev A → Prop) (elsewhere : DB → DB → Prop) (w w' : World A) :
  (∀ db l i e p, I db l → arrive l e p → I db ((i, e) :: l) ∧ safe i p (fun _ _ => True) ((i, e) :: l)) →
  (∀ db db' l, I db l → elsewhere db db' → I db' l) →
  rtc (wstep arrive elsewhere) w w' → world_ok w → world_ok w'.
Proof.
  intros Harr Helse Hr Hw. apply (rtc_preserves _ world_ok w w' Hr Hw). clear w w' Hr Hw.
  intros w w' [Hi Ht] Hs. inversion Hs as [db ts l e p Ha|db ts l i p env p' db' evs Hp He|db db' ts l He]; subst; cbn in *.
  - destruct (Harr db l (length ts) e p Hi Ha) as [H1 H2]. split; [done|]. cbn. intros j q Hq.
    apply lookup_app_Some in Hq as [Hq|[Hge Hq]].
    + apply (thread_safe_mono l); [set_solver|eauto].
    + apply list_lookup_singleton_Some in Hq as [Hj <-]. assert (j = length ts) as -> by lia. by eexists.
  - destruct (safe_step i p p' env db db' l evs (Ht i p Hp) Hi He) as [H1 H2]. split; [done|]. cbn. intros j q Hq.
    apply list_lookup_insert_Some in Hq as [(-> & <- & _)|[_ Hq]]; [done|].
    apply (thread_safe_mono l); [set_solver|eauto].
  - split; [eauto|done].
Qed.

(** A program may run to its end while all the others wait. *)
Lemma run_steps {A} (arrive : list (nat * Ev) → Ev → prog DB E Ev A → Prop) (elsewhere : DB → DB → Prop) (p : prog DB E Ev A)
    (envs : nat → Env) (k i : nat) (ts : list (prog DB E Ev A)) (db : DB) (l : list (nat * Ev)) : ts !! i = Some p →
  let '(a, db', evs) := run fault p envs k db in
  rtc (wstep arrive elsewhere) (MkWorld db ts l) (MkWorld db' (<[i := Ret a]> ts) (tag i evs ++ l)).
Proof.
  revert k ts db l. induction p as [a|X f ev n IH|X f ev n IH]; intros k ts db l Hi; cbn [run].
  - rewrite list_insert_id by done. done.
  - specialize (IH (f (envs k)) (S k) (<[i := n (f (envs k))]> ts) db (tag i (ev (f (envs k))) ++ l)).
    destruct (run fault (n _) envs (S k) db) as [[a db'] evs].
    eapply rtc_l; [eapply (W_run _ _ db ts l i _ (envs k)); [exact Hi|reflexivity]|].
    unfold tag in *. rewrite rev_app_distr, fmap_app, <- app_assoc. rewrite list_insert_insert_eq in IH. apply IH.
    apply list_lookup_insert_eq. by eapply lookup_lt_Some.
  - destruct (answer fault (envs k) f db) as [r db1] eqn:Ea.
    specialize (IH r (S k) (<[i := n r]> ts) db1 (tag i [ev r] ++ l)).
    destruct (run fault (n r) envs (S k) db1) as [[a db'] evs].
    eapply rtc_l; [eapply (W_run _ _ db ts l i _ (envs k)); [exact Hi|cbn [step1]; by rewrite Ea]|].
    unfold tag in *. change (ev r :: evs) with ([ev r] ++ evs). rewrite rev_app_distr, fmap_app, <- app_assoc. rewrite list_insert_insert_eq in IH. apply IH.
    apply list_lookup_insert_eq. by eapply lookup_lt_Some.
Qed.

End Logic.
Arguments MkWorld {DB E Ev A}.
Arguments w_db {DB E Ev A}.
Arguments w_threads {DB E Ev A}.
Arguments w_log {DB E Ev A}.
