(* ===== verification/Session.v ===== *)
(** * Session: what a session cookie carries, and whom it binds

    internal/auth/session, internal/web/middleware/session.go and the part of middleware/auth.go that needs no tables.
    The cipher and JSON are parameters; a request's cookie is the text of the header. *)

From S2P Require Import Prelude GoString NetIP Encoding Credentials.
Local Open Scope Z_scope.

Definition CookieName : string := "_shithub_session".
Definition MaxKnownAccounts : nat := 5.

Record KnownAccount := MkAccount {
  a_UserID : Z; a_Username : string; a_DisplayName : string; a_Epoch : Z; a_Recent2FAAt : Z; a_RememberedAt : Z }.

Record Session := MkSession {
  UserID : Z; Pre2FAUserID : Z; Recent2FAAt : Z; Epoch : Z; CSRFToken : string; Theme : string; Flashes : list string;
  Extras : gmap string string; Accounts : list KnownAccount; IssuedAt : Z;
  ImpersonatedUserID : Z; ImpersonateWriteOK : bool; ImpersonationStartedAt : Z }.

#[export] Instance KnownAccount_eq_dec : EqDecision KnownAccount.
Proof. solve_decision. Defined.
#[export] Instance Session_eq_dec : EqDecision Session.
Proof. solve_decision. Defined.

(** The zero value. *)
Definition empty : Session := MkSession 0 0 0 0 "" "" [] ∅ [] 0 0 false 0.

(** Assignments to the fields. *)
Definition set_user (s : Session) (uid pre epoch recent : Z) : Session :=
  MkSession uid pre recent epoch (CSRFToken s) (Theme s) (Flashes s) (Extras s) (Accounts s) (IssuedAt s)
    (ImpersonatedUserID s) (ImpersonateWriteOK s) (ImpersonationStartedAt s).
Definition set_accounts (s : Session) (l : list KnownAccount) : Session :=
  MkSession (UserID s) (Pre2FAUserID s) (Recent2FAAt s) (Epoch s) (CSRFToken s) (Theme s) (Flashes s) (Extras s) l (IssuedAt s)
    (ImpersonatedUserID s) (ImpersonateWriteOK s) (ImpersonationStartedAt s).
Definition set_issued (s : Session) (now : Z) : Session :=
  MkSession (UserID s) (Pre2FAUserID s) (Recent2FAAt s) (Epoch s) (CSRFToken s) (Theme s) (Flashes s) (Extras s) (Accounts s) now
    (ImpersonatedUserID s) (ImpersonateWriteOK s) (ImpersonationStartedAt s).
Definition set_impersonation (s : Session) (target : Z) (write : bool) (started : Z) : Session :=
  MkSession (UserID s) (Pre2FAUserID s) (Recent2FAAt s) (Epoch s) (CSRFToken s) (Theme s) (Flashes s) (Extras s) (Accounts s)
    (IssuedAt s) target write started.

Definition IsAnonymous (s : Session) : bool := bool_decide (UserID s = 0).

(** The loop of RememberAccount: the others that are kept, up to the cap. *)
Fixpoint remember_loop (uid : Z) (room : nat) (l : list KnownAccount) : list KnownAccount :=
  match room, l with
  | O, _ | _, [] => []
  | S room', a :: l =>
      if bool_decide (a_UserID a = uid) || bool_decide (a_UserID a = 0) || bool_decide (a_Username a = "")
      then remember_loop uid room l else a :: remember_loop uid room' l
  end.

Definition RememberAccount (s : Session) (now : Z) (acct : KnownAccount) : Session :=
  if bool_decide (a_UserID acct = 0) || bool_decide (a_Username acct = "") then s
  else
    let display := if bool_decide (a_DisplayName acct = "") then a_Username acct else a_DisplayName acct in
    let at_ := if bool_decide (a_RememberedAt acct = 0) then now else a_RememberedAt acct in
    let acct := MkAccount (a_UserID acct) (a_Username acct) display (a_Epoch acct) (a_Recent2FAAt acct) at_ in
    set_accounts s (acct :: remember_loop (a_UserID acct) (pred MaxKnownAccounts) (Accounts s)).

Definition FindAccount (s : Session) (userID : Z) : option KnownAccount :=
  if bool_decide (userID = 0) then None
  else head (filter (fun a => a_UserID a = userID) (Accounts s)).

Definition ForgetAccount (s : Session) (userID : Z) : Session :=
  if bool_decide (userID = 0) then s else set_accounts s (filter (fun a => a_UserID a ≠ userID) (Accounts s)).

Definition AddFlash (s : Session) (msg : string) : Session :=
  MkSession (UserID s) (Pre2FAUserID s) (Recent2FAAt s) (Epoch s) (CSRFToken s) (Theme s) (Flashes s ++ [msg]) (Extras s)
    (Accounts s) (IssuedAt s) (ImpersonatedUserID s) (ImpersonateWriteOK s) (ImpersonationStartedAt s).

Definition PopFlashes (s : Session) : list string * Session :=
  (Flashes s, MkSession (UserID s) (Pre2FAUserID s) (Recent2FAAt s) (Epoch s) (CSRFToken s) (Theme s) [] (Extras s)
    (Accounts s) (IssuedAt s) (ImpersonatedUserID s) (ImpersonateWriteOK s) (ImpersonationStartedAt s)).

(** ** The cookie store *)

Definition NonceSize : nat := 12.
Definition DefaultMaxAge : Z := 30 * 24 * 3600.

(** chacha20poly1305 under the key of the configuration (nonce, text), and JSON. *)
Record Sealing := MkSealing {
  seal : string → string → string;
  open : string → string → option string;
  marshal : Session → string;
  unmarshal : string → option Session;
  maxAge : Z }.

Section Store.
Context (c : Sealing).

(** [now] is in seconds. *)
Definition Load (cookie : option string) (now : Z) : Session :=
  match cookie with
  | None => empty
  | Some value =>
      match RawDecodeString b64_url value with
      | None => empty
      | Some raw =>
          if bool_decide (String.length raw < NonceSize)%nat then empty
          else match open c (str_take NonceSize raw) (str_drop NonceSize raw) with
               | None => empty
               | Some plain =>
                   match unmarshal c plain with
                   | None => empty
                   | Some s => if bool_decide (0 < IssuedAt s) && bool_decide (maxAge c < now - IssuedAt s) then empty else s
                   end
               end
      end
  end.

(** The text of the cookie that Save sets. *)
Definition encode_cookie (s : Session) (nonce : string) : string :=
  EncodeToString b64_url 6 (nonce +:+ seal c nonce (marshal c s)).

End Store.

(** ** Who is bound *)

Record SwitchAccount := MkSwitch { sw_UserID : Z; sw_Username : string; sw_DisplayName : string }.

Record CurrentUser := MkCurrent {
  ID : Z; Username : string; IsSuspended : bool; IsSiteAdmin : bool; HasConfirmedTwoFactor : bool;
  SwitchAccounts : list SwitchAccount; cu_ImpersonatedUserID : Z; RealActorID : Z; cu_ImpersonateWriteOK : bool }.

Definition nobody : CurrentUser := MkCurrent 0 "" false false false [] 0 0 false.

Record UserLookupResult := MkLookup {
  l_Username : string; l_SessionEpoch : Z; l_IsSuspended : bool; l_IsSiteAdmin : bool; l_TwoFactor : bool }.

Definition switchAccountsFromSession (s : Session) (currentID : Z) : list SwitchAccount :=
  omap (fun a =>
    if bool_decide (a_UserID a = 0) || bool_decide (a_UserID a = currentID) || bool_decide (a_Username a = "") then None
    else Some (MkSwitch (a_UserID a) (a_Username a)
                 (if bool_decide (a_DisplayName a = "") then a_Username a else a_DisplayName a)))
    (Accounts s).

(** The bound user, before the impersonation: none when the epoch is another one; a lookup that fails binds. *)
Definition bind_user (s : Session) (lookup : option UserLookupResult) : option CurrentUser :=
  let switch := if bool_decide (ImpersonatedUserID s = 0) then switchAccountsFromSession s (UserID s) else [] in
  match lookup with
  | None => Some (MkCurrent (UserID s) "" false false false switch 0 0 false)
  | Some r =>
      if bool_decide (l_SessionEpoch r ≠ Epoch s) then None
      else Some (MkCurrent (UserID s) (l_Username r) (l_IsSuspended r) (l_IsSiteAdmin r) (l_TwoFactor r) switch 0 0 false)
  end.

Definition impersonate (s : Session) (u : CurrentUser) (r : UserLookupResult) : CurrentUser :=
  MkCurrent (ImpersonatedUserID s) (l_Username r) (l_IsSuspended r) false (l_TwoFactor r) (SwitchAccounts u)
    (ImpersonatedUserID s) (ID u) (ImpersonateWriteOK s).
