(* ===== verification/AuthDB.v ===== *)
(** * AuthDB: the tables of sign-in and the statements on them

    users, user_emails, user_totp, user_recovery_codes, password_resets, email_verifications and auth_throttle, with the
    statements of internal/users/queries that the handlers of [Signin] run.  A statement, or a transaction of several, is a
    function of the time and the tables. *)

From S2P Require Import Prelude GoString Credentials Program.
Local Open Scope Z_scope.

(** [Unique]: the table whose unique column is taken; [Violation]: another constraint, or a number out of range;
    [Fault_]: the connection. *)
Inductive DBErr := NoRows | Unique (table : string) | Violation | Fault_.

#[export] Instance DBErr_eq_dec : EqDecision DBErr.
Proof. solve_decision. Defined.

Record UserRow := MkUser {
  u_Username : string; u_DisplayName : string; u_PasswordHash : string; u_PrimaryEmailID : option Z; u_EmailVerified : bool;
  u_SuspendedAt : option Z; u_DeletedAt : option Z; u_SessionEpoch : Z; u_IsSiteAdmin : bool; u_LastLoginAt : option Z }.

Record TotpRow := MkTotp { t_SecretEncrypted : string; t_SecretNonce : string; t_ConfirmedAt : option Z; t_LastUsedCounter : Z }.

(** A recovery code, under its hash. *)
Record CodeRow := MkCode { c_UserID : Z; c_UsedAt : option Z }.

Record EmailRow := MkEmail {
  e_ID : Z; e_UserID : Z; e_Email : string; e_IsPrimary : bool; e_Verified : bool; e_TokenHash : option string }.

(** A row of password_resets ([k_Owner] is the user) or of email_verifications (the address). *)
Record LinkRow := MkLink { k_ID : Z; k_Owner : Z; k_TokenHash : string; k_ExpiresAt : Z; k_UsedAt : option Z }.

Record DB := MkDB {
  users : gmap Z UserRow; next_user : Z; totps : gmap Z TotpRow; codes : gmap string CodeRow;
  emails : list EmailRow; next_email : Z; resets : list LinkRow; next_reset : Z; verifications : list LinkRow;
  next_verification : Z; throttles : gmap (string * string) Throttle.Row }.

#[export] Instance UserRow_eq_dec : EqDecision UserRow.
Proof. solve_decision. Defined.
#[export] Instance TotpRow_eq_dec : EqDecision TotpRow.
Proof. solve_decision. Defined.
#[export] Instance LinkRow_eq_dec : EqDecision LinkRow.
Proof. solve_decision. Defined.
#[export] Instance EmailRow_eq_dec : EqDecision EmailRow.
Proof. solve_decision. Defined.

Definition no_rows_yet : DB := MkDB ∅ 1 ∅ ∅ [] 1 [] 1 [] 1 ∅.

Definition with_users (d : DB) (m : gmap Z UserRow) : DB :=
  MkDB m (next_user d) (totps d) (codes d) (emails d) (next_email d) (resets d) (next_reset d) (verifications d)
    (next_verification d) (throttles d).
Definition with_totps (d : DB) (m : gmap Z TotpRow) : DB :=
  MkDB (users d) (next_user d) m (codes d) (emails d) (next_email d) (resets d) (next_reset d) (verifications d)
    (next_verification d) (throttles d).
Definition with_codes (d : DB) (m : gmap string CodeRow) : DB :=
  MkDB (users d) (next_user d) (totps d) m (emails d) (next_email d) (resets d) (next_reset d) (verifications d)
    (next_verification d) (throttles d).
Definition with_emails (d : DB) (l : list EmailRow) : DB :=
  MkDB (users d) (next_user d) (totps d) (codes d) l (next_email d) (resets d) (next_reset d) (verifications d)
    (next_verification d) (throttles d).
Definition with_resets (d : DB) (l : list LinkRow) (next : Z) : DB :=
  MkDB (users d) (next_user d) (totps d) (codes d) (emails d) (next_email d) l next (verifications d)
    (next_verification d) (throttles d).
Definition with_verifications (d : DB) (l : list LinkRow) (next : Z) : DB :=
  MkDB (users d) (next_user d) (totps d) (codes d) (emails d) (next_email d) (resets d) (next_reset d) l next (throttles d).
Definition with_throttles (d : DB) (m : gmap (string * string) Throttle.Row) : DB :=
  MkDB (users d) (next_user d) (totps d) (codes d) (emails d) (next_email d) (resets d) (next_reset d) (verifications d)
    (next_verification d) m.

(** ** Statements and transactions *)

Definition tx (X : Type) : Type := Z → DB → res DBErr (X * DB).

#[export] Instance tx_ret : MRet tx := fun X x _ d => Ok (x, d).
#[export] Instance tx_bind : MBind tx := fun X Y f m now d => match m now d with Ok (x, d') => f x now d' | Err e => Err e end.

(** SELECT of one row. *)
Definition select {X} (f : DB → option X) : tx X :=
  fun _ d => match f d with Some x => Ok (x, d) | None => Err NoRows end.

Definition update (f : Z → DB → DB) : tx () := fun now d => Ok ((), f now d).

(** An UPDATE of one row of users. *)
Definition update_user (id : Z) (f : Z → UserRow → UserRow) : tx () :=
  update (fun now d => with_users d (alter (f now) id (users d))).

Definition violated {X} (e : DBErr) : tx X := fun _ _ => Err e.

(** *** users.sql *)

Definition live (u : UserRow) : bool := bool_decide (u_DeletedAt u = None).

Definition GetUserByID (id : Z) : tx UserRow := select (fun d => u ← users d !! id; if live u then Some u else None).

Definition GetUserIncludingDeleted (id : Z) : tx UserRow := select (fun d => users d !! id).

Section Citext.
(** Equality of citext columns. *)
Context (ci : string → string → bool).

Definition by_username (d : DB) (name : string) : list (Z * UserRow) :=
  filter (fun p => ci (u_Username p.2) name = true) (map_to_list (users d)).

Definition GetUserByUsernameIncludingDeleted (name : string) : tx (Z * UserRow) := select (fun d => head (by_username d name)).

Definition CreateUser (username hash : string) : tx Z := fun _ d =>
  if bool_decide (by_username d username = []) then
    let u := MkUser username username hash None false None None 0 false None in
    Ok (next_user d, MkDB (<[next_user d := u]> (users d)) (next_user d + 1) (totps d) (codes d) (emails d) (next_email d)
      (resets d) (next_reset d) (verifications d) (next_verification d) (throttles d))
  else Err (Unique "users").

Definition by_address (d : DB) (addr : string) : list EmailRow := filter (fun e => ci (e_Email e) addr = true) (emails d).

Definition GetUserEmailByAddress (addr : string) : tx EmailRow := select (fun d => head (by_address d addr)).

(** Addresses are unique, and so is the primary one of a user. *)
Definition CreateUserEmail (user : Z) (addr : string) (primary : bool) (hash : string) : tx EmailRow := fun _ d =>
  if negb (bool_decide (by_address d addr = [])) then Err (Unique "user_emails")
  else if primary && existsb (fun e => bool_decide (e_UserID e = user) && e_IsPrimary e) (emails d) then Err (Unique "user_emails")
  else if bool_decide (users d !! user = None) then Err Violation
  else
    let e := MkEmail (next_email d) user addr primary false (Some hash) in
    Ok (e, MkDB (users d) (next_user d) (totps d) (codes d) (emails d ++ [e]) (next_email d + 1)
      (resets d) (next_reset d) (verifications d) (next_verification d) (throttles d)).
End Citext.

Definition UpdateUserPassword (id : Z) (hash : string) : tx () :=
  update_user id (fun _ u => MkUser (u_Username u) (u_DisplayName u) hash (u_PrimaryEmailID u) (u_EmailVerified u)
    (u_SuspendedAt u) (u_DeletedAt u) (u_SessionEpoch u) (u_IsSiteAdmin u) (u_LastLoginAt u)).

Definition LinkUserPrimaryEmail (id email : Z) : tx () :=
  update_user id (fun _ u => MkUser (u_Username u) (u_DisplayName u) (u_PasswordHash u) (Some email) (u_EmailVerified u)
    (u_SuspendedAt u) (u_DeletedAt u) (u_SessionEpoch u) (u_IsSiteAdmin u) (u_LastLoginAt u)).

Definition MarkUserEmailPrimaryVerified (id : Z) : tx () :=
  update_user id (fun _ u => MkUser (u_Username u) (u_DisplayName u) (u_PasswordHash u) (u_PrimaryEmailID u) true
    (u_SuspendedAt u) (u_DeletedAt u) (u_SessionEpoch u) (u_IsSiteAdmin u) (u_LastLoginAt u)).

Definition TouchUserLastLogin (id : Z) : tx () :=
  update_user id (fun now u => MkUser (u_Username u) (u_DisplayName u) (u_PasswordHash u) (u_PrimaryEmailID u)
    (u_EmailVerified u) (u_SuspendedAt u) (u_DeletedAt u) (u_SessionEpoch u) (u_IsSiteAdmin u) (Some now)).

Definition set_suspended (at_ : option Z) (u : UserRow) : UserRow :=
  MkUser (u_Username u) (u_DisplayName u) (u_PasswordHash u) (u_PrimaryEmailID u) (u_EmailVerified u) at_
    (u_DeletedAt u) (u_SessionEpoch u) (u_IsSiteAdmin u) (u_LastLoginAt u).

(** The reason is not kept; without one, suspended_at is set all the same. *)
Definition SuspendUser (id : Z) : tx () := update_user id (fun now => set_suspended (Some now)).
Definition UnsuspendUser (id : Z) : tx () := update_user id (fun _ => set_suspended None).

Definition set_deleted (at_ : option Z) (u : UserRow) : UserRow :=
  MkUser (u_Username u) (u_DisplayName u) (u_PasswordHash u) (u_PrimaryEmailID u) (u_EmailVerified u)
    (u_SuspendedAt u) at_ (u_SessionEpoch u) (u_IsSiteAdmin u) (u_LastLoginAt u).

Definition SoftDeleteUser (id : Z) : tx () := update_user id (fun now => set_deleted (Some now)).
Definition RestoreUserAccount (id : Z) : tx () := update_user id (fun _ => set_deleted None).

Definition SetUserSiteAdmin (id : Z) (admin : bool) : tx () :=
  update_user id (fun _ u => MkUser (u_Username u) (u_DisplayName u) (u_PasswordHash u) (u_PrimaryEmailID u)
    (u_EmailVerified u) (u_SuspendedAt u) (u_DeletedAt u) (u_SessionEpoch u) admin (u_LastLoginAt u)).

Definition set_epoch (e : Z) (u : UserRow) : UserRow :=
  MkUser (u_Username u) (u_DisplayName u) (u_PasswordHash u) (u_PrimaryEmailID u) (u_EmailVerified u)
    (u_SuspendedAt u) (u_DeletedAt u) e (u_IsSiteAdmin u) (u_LastLoginAt u).

(** The column has 32 bits; PostgreSQL refuses to go past them. *)
Definition BumpUserSessionEpoch (id : Z) : tx () := fun now d =>
  match users d !! id with
  | None => Ok ((), d)
  | Some u => if bool_decide (u_SessionEpoch u + 1 < 2 ^ 31)
              then Ok ((), with_users d (<[id := set_epoch (u_SessionEpoch u + 1) u]> (users d))) else Err Violation
  end.

Definition GetUserSessionEpoch (id : Z) : tx Z := select (fun d => u_SessionEpoch <$> users d !! id).

(** *** user_totp.sql, user_recovery_codes.sql *)

Definition GetUserTOTP (id : Z) : tx TotpRow := select (fun d => totps d !! id).

Definition HasConfirmedUserTOTP (id : Z) : tx bool :=
  select (fun d => Some match totps d !! id with Some r => bool_decide (t_ConfirmedAt r ≠ None) | None => false end).

(** A confirmed row is not replaced: no row comes back. *)
Definition UpsertUserTOTP (id : Z) (enc nonce : string) : tx () := fun _ d =>
  if bool_decide (users d !! id = None) then Err Violation
  else match totps d !! id with
       | Some r => if bool_decide (t_ConfirmedAt r = None)
                   then Ok ((), with_totps d (<[id := MkTotp enc nonce None 0]> (totps d))) else Err NoRows
       | None => Ok ((), with_totps d (<[id := MkTotp enc nonce None 0]> (totps d)))
       end.

Definition ConfirmUserTOTP (id step : Z) : tx Z := fun now d =>
  match totps d !! id with
  | Some r => if bool_decide (t_ConfirmedAt r = None)
              then Ok (1, with_totps d (<[id := MkTotp (t_SecretEncrypted r) (t_SecretNonce r) (Some now) step]> (totps d)))
              else Ok (0, d)
  | None => Ok (0, d)
  end.

Definition BumpTOTPCounter (id step : Z) : tx Z := fun _ d =>
  match totps d !! id with
  | Some r => if bool_decide (t_LastUsedCounter r < step)
              then Ok (1, with_totps d (<[id := MkTotp (t_SecretEncrypted r) (t_SecretNonce r) (t_ConfirmedAt r) step]> (totps d)))
              else Ok (0, d)
  | None => Ok (0, d)
  end.

Definition DeleteUserTOTP (id : Z) : tx () := update (fun _ d => with_totps d (delete id (totps d))).

Definition DeleteUserRecoveryCodes (id : Z) : tx () :=
  update (fun _ d => with_codes d (filter (fun p => c_UserID p.2 ≠ id) (codes d))).

Definition InsertRecoveryCode (id : Z) (hash : string) : tx () := fun _ d =>
  if bool_decide (is_Some (codes d !! hash)) then Err (Unique "user_recovery_codes")
  else if bool_decide (users d !! id = None) then Err Violation
  else Ok ((), with_codes d (<[hash := MkCode id None]> (codes d))).

Definition ConsumeRecoveryCode (id : Z) (hash : string) : tx Z := fun now d =>
  match codes d !! hash with
  | Some r => if bool_decide (c_UserID r = id) && bool_decide (c_UsedAt r = None)
              then Ok (1, with_codes d (<[hash := MkCode id (Some now)]> (codes d))) else Ok (0, d)
  | None => Ok (0, d)
  end.

(** *** user_emails.sql *)

Definition GetUserEmailByID (id : Z) : tx EmailRow := select (fun d => head (filter (fun e => e_ID e = id) (emails d))).

Definition ListUserEmailsForUser (user : Z) : tx (list EmailRow) :=
  select (fun d => Some (filter (fun e => e_UserID e = user) (emails d))).

Definition update_email (id : Z) (f : EmailRow → EmailRow) : tx () :=
  update (fun _ d => with_emails d ((fun e => if bool_decide (e_ID e = id) then f e else e) <$> emails d)).

Definition MarkUserEmailVerified (id : Z) : tx () :=
  update_email id (fun e => MkEmail (e_ID e) (e_UserID e) (e_Email e) (e_IsPrimary e) true None).

Definition SetVerificationToken (id : Z) (hash : string) : tx () :=
  update_email id (fun e => MkEmail (e_ID e) (e_UserID e) (e_Email e) (e_IsPrimary e) (e_Verified e) (Some hash)).

Definition SetUserEmailPrimary (user id : Z) : tx () :=
  update (fun _ d => with_emails d ((fun e =>
    if bool_decide (e_UserID e = user)
    then MkEmail (e_ID e) (e_UserID e) (e_Email e) (bool_decide (e_ID e = id)) (e_Verified e) (e_TokenHash e)
    else e) <$> emails d)).

Definition deletable (user id : Z) (e : EmailRow) : bool :=
  bool_decide (e_ID e = id) && bool_decide (e_UserID e = user) && negb (e_IsPrimary e).

Definition DeleteUserEmail (user id : Z) : tx Z := fun _ d =>
  Ok (Z.of_nat (length (filter (fun e => deletable user id e = true) (emails d))),
      with_emails d (filter (fun e => deletable user id e = false) (emails d))).

(** *** password_resets.sql, email_verifications.sql *)

Definition find_link (l : list LinkRow) (hash : string) : option LinkRow := head (filter (fun k => k_TokenHash k = hash) l).

Definition consume_link (l : list LinkRow) (id now : Z) : list LinkRow :=
  (fun k => if bool_decide (k_ID k = id) && bool_decide (k_UsedAt k = None)
            then MkLink (k_ID k) (k_Owner k) (k_TokenHash k) (k_ExpiresAt k) (Some now) else k) <$> l.

Definition CreatePasswordReset (user : Z) (hash : string) (expires : Z) : tx () := fun _ d =>
  if bool_decide (is_Some (find_link (resets d) hash)) then Err (Unique "password_resets")
  else if bool_decide (users d !! user = None) then Err Violation
  else Ok ((), with_resets d (resets d ++ [MkLink (next_reset d) user hash expires None]) (next_reset d + 1)).

Definition GetPasswordResetByTokenHash (hash : string) : tx LinkRow := select (fun d => find_link (resets d) hash).

Definition ConsumePasswordReset (id : Z) : tx () :=
  update (fun now d => with_resets d (consume_link (resets d) id now) (next_reset d)).

Definition CreateEmailVerification (email : Z) (hash : string) (expires : Z) : tx () := fun _ d =>
  if bool_decide (is_Some (find_link (verifications d) hash)) then Err (Unique "email_verifications")
  else if bool_decide (filter (fun e => e_ID e = email) (emails d) = []) then Err Violation
  else Ok ((), with_verifications d (verifications d ++ [MkLink (next_verification d) email hash expires None])
                 (next_verification d + 1)).

Definition GetEmailVerificationByTokenHash (hash : string) : tx LinkRow := select (fun d => find_link (verifications d) hash).

Definition ConsumeEmailVerification (id : Z) : tx () :=
  update (fun now d => with_verifications d (consume_link (verifications d) id now) (next_verification d)).

(** *** auth_throttle.sql *)

Definition BumpAuthThrottle (key : string * string) (cutoff : Z) : tx Throttle.Row := fun now d =>
  match Throttle.BumpAuthThrottle (throttles d) key cutoff now with
  | Some (row, t) => Ok (row, with_throttles d t)
  | None => Err Violation
  end.

Definition ResetAuthThrottle (key : string * string) : tx () :=
  update (fun _ d => with_throttles d (Throttle.ResetAuthThrottle (throttles d) key)).

(** ** The transactions of the handlers *)

(** A loop of inserts. *)
Definition insert_codes (id : Z) (hashes : list string) : tx () :=
  foldr (fun h rest => InsertRecoveryCode id h ≫= fun _ => rest) (mret ()) hashes.

(** twoFactorEnableSubmit: when no row is pending any more, the transaction is rolled back. *)
Definition confirm_tx (id step : Z) (hashes : list string) : tx Z :=
  rows ← ConfirmUserTOTP id step;
  if bool_decide (rows = 0) then mret 0
  else (DeleteUserRecoveryCodes id;; insert_codes id hashes;; mret rows).

Definition disable_tx (id : Z) : tx () := DeleteUserTOTP id;; DeleteUserRecoveryCodes id.

Definition regenerate_tx (id : Z) (hashes : list string) : tx () := DeleteUserRecoveryCodes id;; insert_codes id hashes.

Definition reset_tx (reset user : Z) (hash : string) : tx () := UpdateUserPassword user hash;; ConsumePasswordReset reset.

Definition change_password_tx (user : Z) (hash : string) : tx () := UpdateUserPassword user hash;; BumpUserSessionEpoch user.

Definition delete_account_tx (user : Z) : tx () := SoftDeleteUser user;; BumpUserSessionEpoch user.

(** verifyEmail. *)
Definition verify_tx (row : LinkRow) (em : EmailRow) : tx () :=
  MarkUserEmailVerified (e_ID em);;
  (if e_IsPrimary em then MarkUserEmailPrimaryVerified (e_UserID em) else mret tt);;
  ConsumeEmailVerification (k_ID row).

Definition resend_tx (email : Z) (hash : string) (expires : Z) : tx () :=
  SetVerificationToken email hash;; CreateEmailVerification email hash expires.

Definition primary_tx (user email : Z) : tx () := SetUserEmailPrimary user email;; LinkUserPrimaryEmail user email.

Definition add_email_tx (ci : string → string → bool) (user : Z) (addr hash : string) (expires : Z) : tx () :=
  em ← CreateUserEmail ci user addr false hash; CreateEmailVerification (e_ID em) hash expires.

(** signupSubmit; the error says which of the two unique columns is taken. *)
Definition signup_tx (ci : string → string → bool) (username addr pwhash hash : string) (expires : Z) : tx Z :=
  user ← CreateUser ci username pwhash;
  em ← CreateUserEmail ci user addr true hash;
  LinkUserPrimaryEmail user (e_ID em);;
  CreateEmailVerification (e_ID em) hash expires;;
  mret user.
