(* ===== verification/Signin.v ===== *)
(** * Signin: the handlers of sign-in

    internal/web/handlers/auth (auth.go, twofactor.go, account_switch.go, sessions.go, password_change.go, danger.go, emails.go,
    the gate of tokens.go), handlers/admin (impersonate.go, the actions on users of users.go), middleware/auth.go and the
    lookup of web/auth_wiring.go, as programs over the tables of [AuthDB].  Forms that cannot be parsed, HTML, audit records,
    notices by mail and the limit per network on signups are left out. *)

From S2P Require Import Prelude GoString NetIP Encoding Credentials Session Program AuthDB.
From S2P Require Ssrf.
Local Open Scope Z_scope.

(** ** Requests *)

(** What is posted, and the {id} or {token} of the route; [ip] is the client's address. *)
Inductive Form :=
| SignupSubmit (ip username email password company : string)
| LoginSubmit (ip username password next : string)
| ChallengeSubmit (ip code next : string)
| LogoutSubmit
| ResetRequest (email : string)
| ResetConfirm (token password : string)
| VerifyEmail (token : string)
| VerifyResend (email : string)
| AccountSwitch (user_id return_to referer host : string)
| LogoutEverywhere
| PasswordSubmit (current next confirm : string)
| DangerDelete (confirm password : string)
| EmailsAdd (email : string)
| EmailsResend (id : string)
| EmailsSetPrimary (id : string)
| EmailsRemove (id : string)
| EnableForm
| EnableSubmit (code : string)
| DisableSubmit (password code : string)
| RegenerateSubmit (password code : string)
| ImpersonateStart (id : string)
| ImpersonateStop
| ImpersonateEnableWrites (confirm : string)
| UserSuspend (id : string)
| UserUnsuspend (id : string)
| UserToggleSiteAdmin (id : string)
| UserResetPassword (id : string)
| OtherPage (user admin : bool).

(** ** History *)

Inductive Event :=
| EvRequest (f : Form) (cookie : option string)
| EvLoaded (s : Session)
| EvBound (s : Session) (u : CurrentUser)
| EvUser (id : Z) (r : res DBErr UserRow)
| EvTwoFactor (id : Z) (r : res DBErr bool)
| EvLogin (identifier : string) (r : res DBErr (Z * UserRow))
| EvEpoch (id : Z) (r : res DBErr Z)
| EvTotp (id : Z) (r : res DBErr TotpRow)
| EvBump (id step : Z) (r : res DBErr Z)
| EvConsume (id : Z) (hash : string) (r : res DBErr Z)
| EvUpsert (id : Z) (r : res DBErr ())
| EvConfirm (id step : Z) (hashes : list string) (r : res DBErr Z)
| EvDisable (id : Z) (r : res DBErr ())
| EvRegenerate (id : Z) (hashes : list string) (r : res DBErr ())
| EvReset (hash : string) (r : res DBErr LinkRow)
| EvSignedOut (id : Z) (r : res DBErr ())
| EvMail (to link : string)
| EvSealed (s : Session) (cookie : string)
| EvOther.

Definition P : Type → Type := prog DB DBErr Event.

(** ** Responses *)

Record Response := MkResponse {
  rs_status : option Z; rs_location : string; rs_page : string; rs_codes : list string;
  rs_cookie : option (option string) }.

Definition blank : Response := MkResponse None "" "" [] None.

(** Headers count until the status is written. *)
Definition WriteHeader (status : Z) (w : Response) : Response :=
  match rs_status w with
  | Some _ => w
  | None => MkResponse (Some status) (rs_location w) (rs_page w) (rs_codes w) (rs_cookie w)
  end.

Definition SetCookie (v : option string) (w : Response) : Response :=
  match rs_status w with
  | Some _ => w
  | None => MkResponse None (rs_location w) (rs_page w) (rs_codes w) (Some v)
  end.

Definition page (msg : string) (codes : list string) (w : Response) : Response :=
  let w := WriteHeader 200 w in MkResponse (rs_status w) (rs_location w) (rs_page w +:+ msg) codes (rs_cookie w).

Definition render (msg : string) (w : Response) : Response := page msg [] w.

Definition HTTPError (status : Z) (w : Response) : Response := WriteHeader status w.

Definition Redirect (to : string) (w : Response) : Response :=
  match rs_status w with
  | Some _ => w
  | None => MkResponse (Some 303) to (rs_page w) (rs_codes w) (rs_cookie w)
  end.

(** ** Small functions *)

Definition second : Z := 1000000000.
Definition minute : Z := 60 * second.
Definition hour : Z := 60 * minute.

Definition looksLikeEmail (s : string) : bool :=
  let n := String.length s in
  if bool_decide (n < 3)%nat || bool_decide (254 < n)%nat then false
  else match Cut s "@" with
       | None => false
       | Some (before, after) => negb (bool_decide (before = "")) && negb (bool_decide (after = "")) && negb (has_byte " " s)
       end.

Definition is_alnum (c : ascii) : bool := between 97 (byte c) 122 || between 48 (byte c) 57.

(** usernameRE, of a name of at most 39 bytes. *)
Definition usernameRE (s : string) : bool :=
  str_forallb (fun c => is_alnum c || is_byte c "-") s &&
  match s with String c _ => is_alnum c | "" => false end &&
  match str_rev s with String c _ => is_alnum c | "" => false end.

Definition reservedNames : list string :=
  ["static"; "healthz"; "readyz"; "metrics"; "signup"; "login"; "logout"; "password"; "verify-email"; "internal"; "settings";
   "api"; "admin"; "new"; "explore"; "trending"; "marketplace"; "issues"; "pulls"; "notifications"; "watching"; "stars"; "orgs";
   "organizations"; "search"; "about"; "contact"; "pricing"; "site"; "help"; "docs"; "blog"; "security"; "status"; "terms";
   "privacy"; "cookies"; "oauth"; "sessions"; "saml"; "sso"; "webauthn"; "two-factor"; "recovery"; "avatar"; "avatars"; "raw";
   "media"; "assets"; "favicon.ico"; "robots.txt"; "sitemap.xml"; "git"; "ssh"; "public"; "private"; "keys"; "tokens";
   "shithub"; "shithubd"; "shithubbot"; "threads"; "invitations"].

(** The page to go to after signing in. *)
Definition defaultPostLoginPath : string := "/explore".
Definition isSafeRelativePath (path : string) : bool :=
  negb (bool_decide (path = "")) && HasPrefix path "/" && negb (HasPrefix path "//").
Definition destination (next : string) : string := if isSafeRelativePath next then next else defaultPostLoginPath.

Definition deletionGraceWindow : Z := 14 * 24 * hour.
Definition recentAuthWindow : Z := 10 * minute.
Definition maxEmailsPerUser : Z := 10.

Definition ParseInt (s : string) : option Z := match Ssrf.Atoi s with (n, true) => Some n | _ => None end.

Definition Unix (t : Z) : Z := t / second.

(** ** The library and the configuration *)

Record Lib := MkLib {
  sealing : Sealing;
  IDKey : string → string → Z → Z → Z → Z → string;
  sha256 : string → string;
  ToLower : string → string;
  ToUpper : string → string;
  GenerateCode : string → Z → option string;
  (** equality of citext *)
  ci : string → string → bool;
  (** url.Parse: whether the URL is absolute, its host, its request URI *)
  ParseURL : string → option (bool * string * string);
  QueryEscape : string → string;
  (** chacha20poly1305 under the key of the second factors: nonce, text *)
  box_seal : string → string → string;
  box_open : string → string → option string;
  (** common_passwords.txt *)
  rawList : string;
  (** user_reserved_usernames *)
  reserved_by_another : string → Z → bool;
  argon2 : Password.Params;
  RequireEmailVerification : bool;
  two_factor_available : bool }.

(** ** The environment *)

Definition clock : P Z := Ask e_now (fun _ => []) Ret.

(** rand.Read of a buffer of [n] bytes. *)
Definition filled (n : nat) (env : Env) : option string :=
  s ← e_rand env n; if bool_decide (String.length s = n) then Some s else None.
Definition rand (n : nat) : P (option string) := Ask (filled n) (fun _ => []) Ret.

Fixpoint rands (k n : nat) : P (list (option string)) :=
  match k with O => mret [] | S k => b ← rand n; l ← rands k n; mret (b :: l) end.

(** A mail with a link; nobody waits for it. *)
Definition mail (to link : string) : P () := Ask e_mail (fun ok => if ok : bool then [EvMail to link] else []) (fun _ => Ret tt).

Definition exec {X} (t : tx X) (ev : res DBErr X → Event) : P (res DBErr X) := Sql t ev Ret.
Definition other {X} (t : tx X) : P (res DBErr X) := exec t (fun _ => EvOther).

Definition with_id (id : Z) (r : res DBErr UserRow) : res DBErr (Z * UserRow) := u ← r; Ok (id, u).

Definition getUser (id : Z) : P (res DBErr UserRow) := exec (GetUserByID id) (EvUser id).
Definition getTOTP (id : Z) : P (res DBErr TotpRow) := exec (GetUserTOTP id) (EvTotp id).

(** throttle.Hit. *)
Definition Hit (p : Throttle.Limit) : P (res Throttle.ThrErr ()) :=
  app ← clock;
  r ← other (BumpAuthThrottle (Throttle.key p) (app - Throttle.Window p));
  match r with
  | Err _ => mret (Err Throttle.ErrBump)
  | Ok row => app' ← clock; mret (Throttle.verdict p row app')
  end.

(** The answer 429, with its headers sent. *)
Definition writeRetryAfter (e : Throttle.ThrErr) (w : Response) : Response :=
  match e with Throttle.ErrThrottled _ _ => WriteHeader 429 w | Throttle.ErrBump => w end.

Section Handlers.
Context (L : Lib).

(** ** Sessions *)

Definition SessionLoader (cookie : option string) : P Session :=
  Ask (fun env => Load (sealing L) cookie (Unix (e_now env))) (fun s => [EvLoaded s]) Ret.

Definition sealed_cookie (s : Session) (env : Env) : option string := encode_cookie (sealing L) s <$> filled NonceSize env.

(** Store.Save: whether it succeeds, the session with its time, the response. *)
Definition Save (s : Session) (w : Response) : P (bool * Session * Response) :=
  now ← clock;
  let s := set_issued s (Unix now) in
  v ← Ask (sealed_cookie s) (fun v => match v with Some v => [EvSealed s v] | None => [] end) Ret;
  match v with
  | None => mret (false, s, w)
  | Some v => mret (true, s, SetCookie (Some v) w)
  end.

Definition lookup_user (id : Z) : P (option UserLookupResult) :=
  u ← getUser id;
  match u with
  | Err _ => mret None
  | Ok u =>
      has2FA ← exec (HasConfirmedUserTOTP id) (EvTwoFactor id);
      match has2FA with
      | Err _ => mret None
      | Ok has2FA => mret (Some (MkLookup (u_Username u) (u_SessionEpoch u) (bool_decide (u_SuspendedAt u ≠ None))
                                  (u_IsSiteAdmin u) has2FA))
      end
  end.

Definition OptionalUser (s : Session) : P CurrentUser :=
  if bool_decide (UserID s = 0) then mret nobody
  else
    res ← lookup_user (UserID s);
    match bind_user s res with
    | None => mret nobody
    | Some u =>
        if bool_decide (ImpersonatedUserID s ≠ 0) && IsSiteAdmin u then
          res ← lookup_user (ImpersonatedUserID s);
          mret match res with Some r => impersonate s u r | None => u end
        else mret u
    end.

Definition rememberUserAccount (s : Session) (id : Z) (user : UserRow) (recent2FAAt : Z) : P Session :=
  now ← clock;
  if bool_decide (id = 0) || bool_decide (u_Username user = "") then mret s
  else mret (RememberAccount s (Unix now)
               (MkAccount id (u_Username user) (u_DisplayName user) (u_SessionEpoch user) recent2FAAt (Unix now))).

Definition rememberCurrentSessionAccount (s : Session) : P Session :=
  if bool_decide (UserID s = 0) || bool_decide (ImpersonatedUserID s ≠ 0) then mret s
  else
    user ← getUser (UserID s);
    match user with
    | Err _ => mret s
    | Ok user =>
        if bool_decide (u_SuspendedAt user ≠ None) || bool_decide (u_SessionEpoch user ≠ Epoch s) then mret s
        else rememberUserAccount s (UserID s) user (Recent2FAAt s)
    end.

(** The end of a sign-in: the user is bound, an impersonation is over, the account is remembered. *)
Definition sign_in (s : Session) (id : Z) (user : UserRow) (recent : Z) (next : string) : P Response :=
  s ← rememberUserAccount (set_impersonation (set_user s id 0 (u_SessionEpoch user) recent) 0 false 0) id user recent;
  '(ok, _, w) ← Save s blank;
  mret (if ok : bool then Redirect (destination next) w else HTTPError 500 w).

(** ** auth.go: signing in and out *)

Definition loginUser (identifier : string) : P (res DBErr (Z * UserRow)) :=
  if Contains identifier "@" then
    em ← other (GetUserEmailByAddress (ci L) identifier);
    match em with
    | Err e => mret (Err e)
    | Ok em => exec (GetUserIncludingDeleted (e_UserID em)) (fun r => EvLogin identifier (with_id (e_UserID em) r)) ≫= fun r =>
               mret (with_id (e_UserID em) r)
    end
  else exec (GetUserByUsernameIncludingDeleted (ci L) identifier) (EvLogin identifier).

Definition login_key (ip identifier : string) : Throttle.Limit :=
  Throttle.MkLimit "login" ("ip:" +:+ ip +:+ "|" +:+ identifier) 6 (15 * minute).

(** The deletion is over when the account came back, or may come back still. *)
Definition gone (u : UserRow) (now : Z) : bool :=
  match u_DeletedAt u with Some t => bool_decide (deletionGraceWindow <= now - t) | None => false end.

Definition bad_login : Response := render "Incorrect username or password." blank.

(** What follows a correct password. *)
Definition after_password (s : Session) (key : Throttle.Limit) (id : Z) (user : UserRow) (next : string) : P Response :=
  (if live user then mret tt else other (RestoreUserAccount id) ≫= fun _ => mret tt) ≫= fun _ =>
  if bool_decide (u_SuspendedAt user ≠ None) then mret (render "This account has been suspended." blank)
  else if RequireEmailVerification L && negb (u_EmailVerified user)
  then mret (render "Please verify your email before signing in. Check your inbox or request a new link." blank)
  else
    other (ResetAuthThrottle (Throttle.key key)) ≫= fun _ =>
    t ← getTOTP id;
    if match t with Ok t => bool_decide (t_ConfirmedAt t ≠ None) | Err _ => false end then
      s ← rememberCurrentSessionAccount s;
      '(ok, _, w) ← Save (set_user s 0 id (Epoch s) (Recent2FAAt s)) blank;
      mret (if ok : bool
            then Redirect (if isSafeRelativePath next then "/login/2fa?next=" +:+ QueryEscape L next else "/login/2fa") w
            else HTTPError 500 w)
    else
      other (TouchUserLastLogin id) ≫= fun _ =>
      s ← rememberCurrentSessionAccount s;
      sign_in s id user 0 next.

Definition loginSubmit (s : Session) (ip username password next : string) : P Response :=
  let identifier := ToLower L (TrimSpace username) in
  let key := login_key ip identifier in
  hit ← Hit key;
  match hit with
  | Err e => mret (render "Too many sign-in attempts. Please try again later." (writeRetryAfter e blank))
  | Ok _ =>
      user ← loginUser identifier;
      match user with
      | Err _ => mret bad_login
      | Ok (id, user) =>
          now ← clock;
          if gone user now then mret bad_login
          else match Password.Verify (IDKey L) password (u_PasswordHash user) with
               | Err _ => mret (HTTPError 500 blank)
               | Ok false => mret bad_login
               | Ok true => after_password s key id user next
               end
      end
  end.

Definition logoutSubmit : P Response := mret (Redirect "/login?notice=logged-out" (SetCookie None blank)).

(** ** twofactor.go *)

(** A code for the confirmed secret that is newer than the last one used. *)
Definition verifyTOTPCode (id : Z) (code : string) : P (res () bool) :=
  row ← getTOTP id;
  match row with
  | Err _ => mret (Ok false)
  | Ok row =>
      if bool_decide (t_ConfirmedAt row = None) then mret (Ok false)
      else match box_open L (t_SecretEncrypted row) (t_SecretNonce row) with
           | None => mret (Err tt)
           | Some secret =>
               now ← clock;
               match Totp.Verify (GenerateCode L) secret code now with
               | Err _ => mret (Ok false)
               | Ok step =>
                   rows ← exec (BumpTOTPCounter id step) (EvBump id step);
                   mret match rows with Err _ => Err tt | Ok n => Ok (bool_decide (n = 1)) end
               end
           end
  end.

Definition consumeRecoveryCode (id : Z) (code : string) : P (res () bool) :=
  let hash := Totp.HashRecoveryCode (sha256 L) (ToUpper L) code in
  rows ← exec (ConsumeRecoveryCode id hash) (EvConsume id hash);
  mret match rows with Err _ => Err tt | Ok n => Ok (bool_decide (n = 1)) end.

Definition confirmPasswordAndTOTP (id : Z) (password code : string) : P (res () bool) :=
  user ← getUser id;
  match user with
  | Err _ => mret (Err tt)
  | Ok user =>
      match Password.Verify (IDKey L) password (u_PasswordHash user) with
      | Err _ => mret (Err tt)
      | Ok false => mret (Ok false)
      | Ok true => verifyTOTPCode id code
      end
  end.

Definition challenge_key (ip : string) (id : Z) : Throttle.Limit :=
  Throttle.MkLimit "2fa" ("ip:" +:+ ip +:+ "|uid:" +:+ pretty id) 5 (5 * minute).

(** What follows an accepted code. *)
Definition after_challenge (s : Session) (key : Throttle.Limit) (id : Z) (next : string) : P Response :=
  other (ResetAuthThrottle (Throttle.key key)) ≫= fun _ =>
  other (TouchUserLastLogin id) ≫= fun _ =>
  user ← getUser id;
  match user with
  | Err _ => mret (HTTPError 500 blank)
  | Ok user =>
      if bool_decide (u_SuspendedAt user ≠ None) then mret (render "This account has been suspended." blank)
      else now ← clock; sign_in s id user (Unix now) next
  end.

Definition twoFactorChallengeSubmit (s : Session) (ip code next : string) : P Response :=
  if bool_decide (Pre2FAUserID s = 0) then mret (Redirect "/login" blank)
  else
    let id := Pre2FAUserID s in
    let code := TrimSpace code in
    let key := challenge_key ip id in
    hit ← Hit key;
    match hit with
    | Err e =>
        let w := render "Too many failed attempts. Please sign in again." (writeRetryAfter e blank) in
        '(_, _, w) ← Save (set_user s (UserID s) 0 (Epoch s) (Recent2FAAt s)) w;
        mret w
    | Ok _ =>
        if bool_decide (code = "") then mret (render "Enter your 6-digit code or a recovery code." blank)
        else
          accepted ← (if Totp.LooksLikeRecoveryCode (ToUpper L) code then consumeRecoveryCode id code else verifyTOTPCode id code);
          match accepted with
          | Err _ => mret (HTTPError 500 blank)
          | Ok false => mret (render "Incorrect code. Try again." blank)
          | Ok true => after_challenge s key id next
          end
    end.

Definition twoFactorEnableForm (u : CurrentUser) : P Response :=
  existing ← getTOTP (ID u);
  if match existing with Ok t => bool_decide (t_ConfirmedAt t ≠ None) | Err _ => false end
  then mret (Redirect "/settings/security/2fa/disable" blank)
  else
    secret ← rand Totp.SecretSize;
    match secret with
    | None => mret (HTTPError 500 blank)
    | Some secret =>
        nonce ← rand NonceSize;
        match nonce with
        | None => mret (HTTPError 500 blank)
        | Some nonce =>
            r ← exec (UpsertUserTOTP (ID u) (box_seal L nonce secret) nonce) (EvUpsert (ID u));
            match r with
            | Err _ => mret (HTTPError 500 blank)
            | Ok _ => mret (render (Totp.EncodeBase32 secret) blank)
            end
        end
    end.

Definition twoFactorEnableSubmit (s : Session) (u : CurrentUser) (code : string) : P Response :=
  row ← getTOTP (ID u);
  match row with
  | Err _ => mret (HTTPError 400 blank)
  | Ok row =>
      if bool_decide (t_ConfirmedAt row ≠ None) then mret (Redirect "/settings/security/2fa/disable" blank)
      else match box_open L (t_SecretEncrypted row) (t_SecretNonce row) with
           | None => mret (HTTPError 500 blank)
           | Some secret =>
               now ← clock;
               match Totp.Verify (GenerateCode L) secret (TrimSpace code) now with
               | Err _ => mret (render "That code is incorrect. Try again." blank)
               | Ok step =>
                   bufs ← rands Totp.RecoveryCodeCount 24;
                   match Totp.GenerateRecoveryCodes (sha256 L) (ToUpper L) bufs with
                   | None => mret (HTTPError 500 blank)
                   | Some (codes, hashes) =>
                       rows ← exec (confirm_tx (ID u) step hashes) (EvConfirm (ID u) step hashes);
                       match rows with
                       | Err _ => mret (HTTPError 500 blank)
                       | Ok 0 => mret (Redirect "/settings/security/2fa/disable" blank)
                       | Ok _ =>
                           now ← clock;
                           '(_, _, w) ← Save (set_user s (UserID s) (Pre2FAUserID s) (Epoch s) (Unix now)) blank;
                           mret (page "" codes w)
                       end
                   end
               end
           end
  end.

Definition twoFactorDisableSubmit (u : CurrentUser) (password code : string) : P Response :=
  ok ← confirmPasswordAndTOTP (ID u) password (TrimSpace code);
  match ok with
  | Err _ => mret (HTTPError 500 blank)
  | Ok false => mret (render "Password or code incorrect. Please try again." blank)
  | Ok true =>
      r ← exec (disable_tx (ID u)) (EvDisable (ID u));
      mret match r with
           | Err _ => HTTPError 500 blank
           | Ok _ => Redirect "/settings/security/2fa/enable?notice=disabled" blank
           end
  end.

Definition twoFactorRegenerateSubmit (u : CurrentUser) (password code : string) : P Response :=
  ok ← confirmPasswordAndTOTP (ID u) password (TrimSpace code);
  match ok with
  | Err _ => mret (HTTPError 500 blank)
  | Ok false => mret (HTTPError 401 blank)
  | Ok true =>
      bufs ← rands Totp.RecoveryCodeCount 24;
      match Totp.GenerateRecoveryCodes (sha256 L) (ToUpper L) bufs with
      | None => mret (HTTPError 500 blank)
      | Some (codes, hashes) =>
          r ← exec (regenerate_tx (ID u) hashes) (EvRegenerate (ID u) hashes);
          mret match r with Err _ => HTTPError 500 blank | Ok _ => page "" codes blank end
      end
  end.

(** ** auth.go: signing up, mailed links *)

Definition validateUsername (name : string) : string :=
  if bool_decide (name = "") then "Username is required."
  else if bool_decide (39 < String.length name)%nat then "Username may be at most 39 characters."
  else if negb (usernameRE name)
  then "Username may contain only lowercase letters, digits, and hyphens, and cannot start or end with a hyphen."
  else if bool_decide (ToLower L name ∈ reservedNames) then "That username is reserved. Please choose another."
  else "".

(** The rules for a new password, in the order of the forms for signing up and resetting. *)
Definition weak (pw : string) : option string :=
  if bool_decide (String.length pw < 10)%nat then Some "Password must be at least 10 characters."
  else if IsCommon (rawList L) (ToLower L) pw then Some "That password is too common. Please choose another."
  else None.

(** token.New. *)
Definition new_token : P (option (string * string)) :=
  raw ← rand Token.SizeBytes;
  mret match Token.New (sha256 L) raw with Ok p => Some p | Err _ => None end.

(** hashPassword: a salt of the configured length. *)
Definition hashPassword (pw : string) : P (res Password.PwErr string) :=
  salt ← rand (Z.to_nat (Password.SaltLen (argon2 L)));
  mret (Password.Hash (IDKey L) pw (argon2 L) salt).

Definition signup_key (ip : string) : Throttle.Limit := Throttle.MkLimit "signup" ("ip:" +:+ ip) 5 hour.

Definition signup_checks (username email password : string) : option string :=
  let msg := validateUsername username in
  if negb (bool_decide (msg = "")) then Some msg
  else if reserved_by_another L username 0 then Some "That username is reserved. Please choose another."
  else if negb (looksLikeEmail email) then Some "Please enter a valid email address."
  else weak password.

(** The link is drawn and the clock read before the transaction, not between its statements. *)
Definition signupSubmit (ip username email password company : string) : P Response :=
  let username := ToLower L (TrimSpace username) in
  let email := ToLower L (TrimSpace email) in
  if negb (bool_decide (company = "")) then mret (Redirect "/login?notice=signup-pending" blank)
  else
    hit ← Hit (signup_key ip);
    match hit with
    | Err e => mret (render "Too many signup attempts. Please try again later." (writeRetryAfter e blank))
    | Ok _ =>
        match signup_checks username email password with
        | Some msg => mret (render msg blank)
        | None =>
            hash ← hashPassword password;
            match hash with
            | Err _ => mret (HTTPError 500 blank)
            | Ok hash =>
                tok ← new_token;
                match tok with
                | None => mret (HTTPError 500 blank)
                | Some (link, tokHash) =>
                    now ← clock;
                    r ← other (signup_tx (ci L) username email hash tokHash (now + 24 * hour));
                    match r with
                    | Err (Unique "users") => mret (render "That username is already taken." blank)
                    | Err (Unique "user_emails") => mret (render "That email is already registered. Try signing in?" blank)
                    | Err _ => mret (HTTPError 500 blank)
                    | Ok _ => mail email link ≫= fun _ => mret (Redirect "/login?notice=signup-pending" blank)
                    end
                end
            end
        end
    end.

Definition reset_key (addr : string) : Throttle.Limit := Throttle.MkLimit "reset" ("email:" +:+ addr) 3 hour.

Definition reset_notice : string := "If an account is registered to that address, we've sent a password-reset link.".

Definition resetRequestSubmit (email : string) : P Response :=
  let addr := ToLower L (TrimSpace email) in
  if negb (looksLikeEmail addr) then mret (render reset_notice blank)
  else
    hit ← Hit (reset_key addr);
    match hit with
    | Err e => mret (render reset_notice (writeRetryAfter e blank))
    | Ok _ =>
        em ← other (GetUserEmailByAddress (ci L) addr);
        match em with
        | Err _ => mret (render reset_notice blank)
        | Ok em =>
            tok ← new_token;
            match tok with
            | None => mret (render reset_notice blank)
            | Some (link, hash) =>
                now ← clock;
                r ← other (CreatePasswordReset (e_UserID em) hash (now + hour));
                match r with
                | Err _ => mret (render reset_notice blank)
                | Ok _ => mail addr link ≫= fun _ => mret (render reset_notice blank)
                end
            end
        end
    end.

Definition lookupValidReset (encoded : string) : P (option LinkRow) :=
  match Token.HashOf (sha256 L) encoded with
  | Err _ => mret None
  | Ok hash =>
      row ← exec (GetPasswordResetByTokenHash hash) (EvReset hash);
      match row with
      | Err _ => mret None
      | Ok row =>
          now ← clock;
          mret (if bool_decide (k_UsedAt row ≠ None) || bool_decide (k_ExpiresAt row < now) then None else Some row)
      end
  end.

Definition resetConfirmSubmit (token pw : string) : P Response :=
  row ← lookupValidReset token;
  match row with
  | None => mret (HTTPError 404 blank)
  | Some row =>
      match weak pw with
      | Some msg => mret (render msg blank)
      | None =>
          hash ← hashPassword pw;
          match hash with
          | Err _ => mret (HTTPError 500 blank)
          | Ok hash =>
              r ← other (reset_tx (k_ID row) (k_Owner row) hash);
              mret match r with Err _ => HTTPError 500 blank | Ok _ => Redirect "/login?notice=password-reset" blank end
          end
      end
  end.

Definition verifyEmail (token : string) : P Response :=
  match Token.HashOf (sha256 L) token with
  | Err _ => mret (HTTPError 404 blank)
  | Ok hash =>
      row ← other (GetEmailVerificationByTokenHash hash);
      now ← clock;
      match row with
      | Err _ => mret (HTTPError 404 blank)
      | Ok row =>
          if bool_decide (k_UsedAt row ≠ None) || bool_decide (k_ExpiresAt row < now) then mret (HTTPError 404 blank)
          else
            em ← other (GetUserEmailByID (k_Owner row));
            match em with
            | Err _ => mret (HTTPError 404 blank)
            | Ok em =>
                r ← other (verify_tx row em);
                mret match r with Err _ => HTTPError 500 blank | Ok _ => Redirect "/login?notice=verified" blank end
            end
      end
  end.

Definition verify_notice : string := "If a pending account is registered to that address, we've sent a fresh verification link.".

Definition verifyResendSubmit (email : string) : P Response :=
  let addr := ToLower L (TrimSpace email) in
  let done := mret (render verify_notice blank) in
  if negb (looksLikeEmail addr) then done
  else
    em ← other (GetUserEmailByAddress (ci L) addr);
    match em with
    | Err _ => done
    | Ok em =>
        if e_Verified em then done
        else
          tok ← new_token;
          match tok with
          | None => done
          | Some (link, hash) =>
              now ← clock;
              r ← other (resend_tx (e_ID em) hash (now + 24 * hour));
              match r with
              | Err _ => done
              | Ok _ =>
                  user ← getUser (e_UserID em);
                  match user with Err _ => done | Ok _ => mail addr link ≫= fun _ => done end
              end
          end
    end.

(** ** account_switch.go, sessions.go, password_change.go, danger.go *)

Definition accountSwitchReturnPath (return_to referer host : string) : string :=
  let p := TrimSpace return_to in
  if isSafeRelativePath p then p
  else if bool_decide (referer = "") then defaultPostLoginPath
  else match ParseURL L referer with
       | Some (absolute, h, uri) =>
           if negb absolute && isSafeRelativePath uri then uri
           else if absolute && bool_decide (h = host) && isSafeRelativePath uri then uri
           else defaultPostLoginPath
       | None => defaultPostLoginPath
       end.

Definition accountSwitchSubmit (s : Session) (viewer : CurrentUser) (user_id return_to referer host : string) : P Response :=
  let back := Redirect (accountSwitchReturnPath return_to referer host) in
  match ParseInt (TrimSpace user_id) with
  | None => mret (HTTPError 400 blank)
  | Some targetID =>
      if bool_decide (targetID <= 0) then mret (HTTPError 400 blank)
      else if bool_decide (ID viewer = targetID) then mret (back blank)
      else match FindAccount s targetID with
           | None => mret (HTTPError 403 blank)
           | Some remembered =>
               user ← getUser targetID;
               match user with
               | Err NoRows => '(_, _, w) ← Save (ForgetAccount s targetID) blank; mret (HTTPError 403 w)
               | Err _ => mret (HTTPError 500 blank)
               | Ok user =>
                   if bool_decide (u_SuspendedAt user ≠ None) then
                     '(_, _, w) ← Save (ForgetAccount s targetID) blank; mret (HTTPError 403 w)
                   else if bool_decide (a_Epoch remembered ≠ u_SessionEpoch user) then
                     '(ok, _, w) ← Save (ForgetAccount s targetID) blank;
                     mret (if ok : bool then Redirect "/login?notice=account-expired" w else HTTPError 500 w)
                   else
                     s ← rememberCurrentSessionAccount s;
                     s ← rememberUserAccount
                           (set_impersonation (set_user s targetID 0 (u_SessionEpoch user) (a_Recent2FAAt remembered)) 0 false 0)
                           targetID user (a_Recent2FAAt remembered);
                     '(ok, _, w) ← Save s blank;
                     mret (if ok : bool then back w else HTTPError 500 w)
               end
           end
  end.

Definition settingsSessionsLogoutAll (s : Session) (u : CurrentUser) : P Response :=
  r ← exec (BumpUserSessionEpoch (ID u)) (EvSignedOut (ID u));
  match r with
  | Err _ => mret (HTTPError 500 blank)
  | Ok _ =>
      epoch ← exec (GetUserSessionEpoch (ID u)) (EvEpoch (ID u));
      match epoch with
      | Err _ => mret (HTTPError 500 blank)
      | Ok epoch =>
          '(ok, _, w) ← Save (set_user s (UserID s) (Pre2FAUserID s) epoch (Recent2FAAt s)) blank;
          mret (if ok : bool then render "Signed out of every other session." w else HTTPError 500 w)
      end
  end.

(** tokens.go: a fresh second factor, where there is one. *)
Definition recentAuthOK (s : Session) (u : CurrentUser) : P bool :=
  row ← getTOTP (ID u);
  match row with
  | Err _ => mret true
  | Ok row =>
      if bool_decide (t_ConfirmedAt row = None) then mret true
      else if bool_decide (Recent2FAAt s = 0) then mret false
      else now ← clock; mret (bool_decide (now - Recent2FAAt s * second <= recentAuthWindow))
  end.

(** Of a password confirmed on the settings pages. *)
Definition correct (pw : string) (row : UserRow) : bool :=
  match Password.Verify (IDKey L) pw (u_PasswordHash row) with Ok ok => ok | Err _ => false end.

Definition validateNewPassword (next confirm : string) : string :=
  if bool_decide (String.length next < 10)%nat then "Password must be at least 10 characters."
  else if negb (bool_decide (next = confirm)) then "New password and confirmation don't match."
  else if IsCommon (rawList L) (ToLower L) next then "That password is too common. Please choose another."
  else "".

Definition settingsPasswordSubmit (s : Session) (u : CurrentUser) (current next confirm : string) : P Response :=
  recent ← recentAuthOK s u;
  if negb recent then
    mret (render "Confirm 2FA recently before changing your password: sign in again with your authenticator code." blank)
  else
    row ← getUser (ID u);
    match row with
    | Err _ => mret (HTTPError 500 blank)
    | Ok row =>
        if negb (correct current row)
        then mret (render "Current password is incorrect." blank)
        else
          let msg := validateNewPassword next confirm in
          if negb (bool_decide (msg = "")) then mret (render msg blank)
          else if bool_decide (next = current) then mret (render "Pick a password different from your current one." blank)
          else
            hash ← hashPassword next;
            match hash with
            | Err _ => mret (HTTPError 500 blank)
            | Ok hash =>
                r ← exec (change_password_tx (ID u) hash) (EvSignedOut (ID u));
                match r with
                | Err _ => mret (HTTPError 500 blank)
                | Ok _ =>
                    let done := render "Password updated. Other sessions have been signed out." in
                    epoch ← exec (GetUserSessionEpoch (ID u)) (EvEpoch (ID u));
                    match epoch with
                    | Err _ => mret (done blank)
                    | Ok epoch =>
                        '(_, _, w) ← Save (set_user s (UserID s) (Pre2FAUserID s) epoch (Recent2FAAt s)) blank;
                        mret (done w)
                    end
                end
            end
    end.

Definition settingsDangerDelete (u : CurrentUser) (confirm pw : string) : P Response :=
  if negb (bool_decide (ToLower L (TrimSpace confirm) = Username u))
  then mret (render "Type your username exactly to confirm." blank)
  else
    row ← getUser (ID u);
    match row with
    | Err _ => mret (HTTPError 500 blank)
    | Ok row =>
        if negb (correct pw row)
        then mret (render "Password is incorrect." blank)
        else
          r ← exec (delete_account_tx (ID u)) (EvSignedOut (ID u));
          mret match r with
               | Err _ => HTTPError 500 blank
               | Ok _ => Redirect "/?notice=account-deleted" (SetCookie None blank)
               end
    end.

(** ** emails.go *)

Definition too_many_emails (l : list EmailRow) : bool := bool_decide (maxEmailsPerUser <= Z.of_nat (length l)).

Definition settingsEmailsAdd (u : CurrentUser) (email : string) : P Response :=
  let addr := ToLower L (TrimSpace email) in
  if negb (looksLikeEmail addr) then mret (render "Please enter a valid email address." blank)
  else
    rows ← other (ListUserEmailsForUser (ID u));
    match rows with
    | Err _ => mret (HTTPError 500 blank)
    | Ok rows =>
        if too_many_emails rows
        then mret (render "You've reached the per-account email cap. Remove one first." blank)
        else
          tok ← new_token;
          match tok with
          | None => mret (HTTPError 500 blank)
          | Some (link, hash) =>
              now ← clock;
              r ← other (add_email_tx (ci L) (ID u) addr hash (now + 24 * hour));
              match r with
              | Err (Unique "user_emails") =>
                  mret (render "That email is already registered (here or to another account)." blank)
              | Err _ => mret (HTTPError 500 blank)
              | Ok _ => mail addr link ≫= fun _ => mret (render ("Verification link sent to " +:+ addr +:+ ".") blank)
              end
          end
    end.

(** The address of the route, if it is the user's. *)
Definition own_email (u : CurrentUser) (id : string) : P (option EmailRow) :=
  match ParseInt id with
  | None => mret None
  | Some id =>
      em ← other (GetUserEmailByID id);
      mret match em with Ok em => if bool_decide (e_UserID em = ID u) then Some em else None | Err _ => None end
  end.

Definition settingsEmailsResend (u : CurrentUser) (id : string) : P Response :=
  em ← own_email u id;
  match em with
  | None => mret (HTTPError 404 blank)
  | Some em =>
      if e_Verified em then mret (render "That address is already verified." blank)
      else
        tok ← new_token;
        match tok with
        | None => mret (HTTPError 500 blank)
        | Some (link, hash) =>
            now ← clock;
            r ← other (resend_tx (e_ID em) hash (now + 24 * hour));
            match r with
            | Err _ => mret (HTTPError 500 blank)
            | Ok _ => mail (e_Email em) link ≫= fun _ =>
                      mret (render ("Verification link resent to " +:+ e_Email em +:+ ".") blank)
            end
        end
  end.

Definition settingsEmailsSetPrimary (u : CurrentUser) (id : string) : P Response :=
  em ← own_email u id;
  match em with
  | None => mret (HTTPError 404 blank)
  | Some em =>
      if negb (e_Verified em) then mret (render "Verify the address before promoting it to primary." blank)
      else if e_IsPrimary em then mret (render "That address is already primary." blank)
      else
        r ← other (primary_tx (ID u) (e_ID em));
        mret match r with
             | Err _ => HTTPError 500 blank
             | Ok _ => render ("Primary email is now " +:+ e_Email em +:+ ".") blank
             end
  end.

Definition settingsEmailsRemove (u : CurrentUser) (id : string) : P Response :=
  match ParseInt id with
  | None => mret (HTTPError 404 blank)
  | Some id =>
      rows ← other (DeleteUserEmail (ID u) id);
      mret match rows with
           | Err _ => HTTPError 500 blank
           | Ok 0 => render "Couldn't remove that email — set a different primary first." blank
           | Ok _ => render "Email removed." blank
           end
  end.

(** ** handlers/admin: users.go, impersonate.go *)

Definition loadUser (id : string) : P (res Z (Z * UserRow)) :=
  match ParseInt id with
  | None => mret (Err 400)
  | Some id =>
      if bool_decide (id <= 0) then mret (Err 400)
      else
        user ← other (GetUserIncludingDeleted id);
        mret match user with Err _ => Err 404 | Ok user => Ok (id, user) end
  end.

Definition saved (id : Z) : Response := Redirect ("/admin/users/" +:+ pretty id +:+ "?notice=saved") blank.

Definition userSuspend (id : string) : P Response :=
  user ← loadUser id;
  match user with
  | Err st => mret (HTTPError st blank)
  | Ok (id, _) =>
      r ← other (SuspendUser id);
      mret match r with Err _ => HTTPError 500 blank | Ok _ => saved id end
  end.

(** Suspended once more, then cleared; a failure of the second statement is not seen. *)
Definition userUnsuspend (id : string) : P Response :=
  user ← loadUser id;
  match user with
  | Err st => mret (HTTPError st blank)
  | Ok (id, _) =>
      r ← other (SuspendUser id);
      match r with
      | Err _ => mret (HTTPError 500 blank)
      | Ok _ => other (UnsuspendUser id) ≫= fun _ => mret (saved id)
      end
  end.

Definition userToggleSiteAdmin (viewer : CurrentUser) (id : string) : P Response :=
  user ← loadUser id;
  match user with
  | Err st => mret (HTTPError st blank)
  | Ok (id, user) =>
      if bool_decide (id = ID viewer) && u_IsSiteAdmin user then mret (HTTPError 400 blank)
      else
        r ← other (SetUserSiteAdmin id (negb (u_IsSiteAdmin user)));
        mret match r with Err _ => HTTPError 500 blank | Ok _ => saved id end
  end.

Definition userResetPassword (id : string) : P Response :=
  user ← loadUser id;
  match user with
  | Err st => mret (HTTPError st blank)
  | Ok (id, user) =>
      match u_PrimaryEmailID user with
      | None => mret (HTTPError 400 blank)
      | Some email =>
          em ← other (GetUserEmailByID email);
          match em with
          | Err _ => mret (HTTPError 500 blank)
          | Ok em =>
              tok ← new_token;
              match tok with
              | None => mret (HTTPError 500 blank)
              | Some (link, hash) =>
                  now ← clock;
                  r ← other (CreatePasswordReset id hash (now + hour));
                  match r with
                  | Err _ => mret (HTTPError 500 blank)
                  | Ok _ => mail (e_Email em) link ≫= fun _ => mret (saved id)
                  end
              end
          end
      end
  end.

(** The session is loaded again from the cookie. *)
Definition impersonateStart (cookie : option string) (id : string) : P Response :=
  target ← loadUser id;
  match target with
  | Err st => mret (HTTPError st blank)
  | Ok (id, target) =>
      if u_IsSiteAdmin target then mret (HTTPError 400 blank)
      else if negb (live target) then mret (HTTPError 400 blank)
      else
        s ← SessionLoader cookie;
        now ← clock;
        '(ok, _, w) ← Save (set_impersonation s id false (Unix now)) blank;
        mret (if ok : bool then Redirect "/" w else HTTPError 500 w)
  end.

Definition impersonateStop (cookie : option string) : P Response :=
  s ← SessionLoader cookie;
  '(ok, _, w) ← Save (set_impersonation s 0 false 0) blank;
  mret (if ok : bool then Redirect "/admin" w else HTTPError 500 w).

Definition impersonateEnableWrites (cookie : option string) (confirm : string) : P Response :=
  s ← SessionLoader cookie;
  if bool_decide (ImpersonatedUserID s = 0) then mret (HTTPError 400 blank)
  else
    target ← getUser (ImpersonatedUserID s);
    match target with
    | Err _ => mret (HTTPError 500 blank)
    | Ok target =>
        if negb (bool_decide (TrimSpace confirm = u_Username target)) then mret (HTTPError 400 blank)
        else
          '(ok, _, w) ← Save (set_impersonation s (ImpersonatedUserID s) true (ImpersonationStartedAt s)) blank;
          mret (if ok : bool then Redirect "/" w else HTTPError 500 w)
    end.

(** ** The routes *)

(** The page to come back to, which the redirect of a GET names, is left out. *)
Definition RequireUser (u : CurrentUser) (h : P Response) : P Response :=
  if bool_decide (ID u = 0) then mret (Redirect "/login" blank) else h.

Definition RequireSiteAdmin (u : CurrentUser) (h : P Response) : P Response :=
  RequireUser u (if IsSiteAdmin u then h else mret (HTTPError 404 blank)).

(** Without a key for their secrets the pages of the second factor do not exist. *)
Definition RequireBox (u : CurrentUser) (h : P Response) : P Response :=
  if two_factor_available L then RequireUser u h else mret (HTTPError 404 blank).

Definition route (s : Session) (u : CurrentUser) (cookie : option string) (f : Form) : P Response :=
  match f with
  | SignupSubmit ip username email password company => signupSubmit ip username email password company
  | LoginSubmit ip username password next => loginSubmit s ip username password next
  | ChallengeSubmit ip code next => twoFactorChallengeSubmit s ip code next
  | LogoutSubmit => logoutSubmit
  | ResetRequest email => resetRequestSubmit email
  | ResetConfirm token password => resetConfirmSubmit token password
  | VerifyEmail token => verifyEmail token
  | VerifyResend email => verifyResendSubmit email
  | AccountSwitch id return_to referer host => RequireUser u (accountSwitchSubmit s u id return_to referer host)
  | LogoutEverywhere => RequireUser u (settingsSessionsLogoutAll s u)
  | PasswordSubmit current next confirm => RequireUser u (settingsPasswordSubmit s u current next confirm)
  | DangerDelete confirm password => RequireUser u (settingsDangerDelete u confirm password)
  | EmailsAdd email => RequireUser u (settingsEmailsAdd u email)
  | EmailsResend id => RequireUser u (settingsEmailsResend u id)
  | EmailsSetPrimary id => RequireUser u (settingsEmailsSetPrimary u id)
  | EmailsRemove id => RequireUser u (settingsEmailsRemove u id)
  | EnableForm => RequireBox u (twoFactorEnableForm u)
  | EnableSubmit code => RequireBox u (twoFactorEnableSubmit s u code)
  | DisableSubmit password code => RequireBox u (twoFactorDisableSubmit u password code)
  | RegenerateSubmit password code => RequireBox u (twoFactorRegenerateSubmit u password code)
  | ImpersonateStart id => RequireSiteAdmin u (impersonateStart cookie id)
  | ImpersonateStop => RequireSiteAdmin u (impersonateStop cookie)
  | ImpersonateEnableWrites confirm => RequireSiteAdmin u (impersonateEnableWrites cookie confirm)
  | UserSuspend id => RequireSiteAdmin u (userSuspend id)
  | UserUnsuspend id => RequireSiteAdmin u (userUnsuspend id)
  | UserToggleSiteAdmin id => RequireSiteAdmin u (userToggleSiteAdmin u id)
  | UserResetPassword id => RequireSiteAdmin u (userResetPassword id)
  | OtherPage user admin =>
      let h := mret (render "" blank) in
      if admin then RequireSiteAdmin u h else if user then RequireUser u h else h
  end.

(** A request from its arrival: the session is loaded, the user bound, the handler run. *)
Definition serve (cookie : option string) (f : Form) : P Response :=
  s ← SessionLoader cookie;
  u ← OptionalUser s;
  Ask (fun _ => tt) (fun _ => [EvBound s u]) (fun _ => route s u cookie f).

(** cmd/shithubd/admin.go, clear-2fa: the command of an operator. *)
Definition clear2FA (username : string) : P Response :=
  user ← other (GetUserByUsernameIncludingDeleted (ci L) username);
  match user with
  | Ok (id, row) =>
      if live row then exec (disable_tx id) (EvDisable id) ≫= fun _ => mret blank else mret blank
  | Err _ => mret blank
  end.

(** ** The system *)

(** What opens under the server's key was sealed by it. *)
Definition unforged (cookie : option string) (l : list (nat * Event)) : Prop :=
  ∀ now, Load (sealing L) cookie now = empty ∨ ∃ i v, (i, EvSealed (Load (sealing L) cookie now) v) ∈ l.

Inductive arrive : list (nat * Event) → Event → P Response → Prop :=
| A_request l cookie f : unforged cookie l → arrive l (EvRequest f cookie) (serve cookie f)
| A_operator l username : arrive l EvOther (clear2FA username).

(** What other parts of the program do to these tables: profiles and usernames change, old throttles and links are swept. *)
Definition elsewhere (d d' : DB) : Prop :=
  totps d' = totps d ∧ codes d' = codes d ∧ next_user d' = next_user d ∧
  (∀ id, match users d !! id, users d' !! id with
         | Some u, Some u' => u_PasswordHash u' = u_PasswordHash u ∧ u_SessionEpoch u' = u_SessionEpoch u
         | None, None => True
         | _, _ => False
         end).

Definition sstep : World Response → World Response → Prop := wstep Fault_ arrive elsewhere.

End Handlers.
