(* ===== verification/SigninInv.v ===== *)
(** * SigninInv: the invariant of sign-in

    What every session, every password, every second factor of a reachable state goes back to, and that each statement and
    each handler of [Signin] keeps it so, whatever other requests do between its steps. *)

From S2P Require Import Prelude GoString NetIP Encoding Credentials Session Program AuthDB Signin.
Local Open Scope Z_scope.

(** ** What the history says *)

Section Says.
Context (L : Lib).
Implicit Types (l : list (nat * Event)) (s : Session).

(** Request [i] is a sign-in whose password fits the row it read, of a user who was not suspended. *)
Definition password_ok l (i : nat) (u : Z) : Prop :=
  ∃ ip username password next cookie row,
    (i, EvRequest (LoginSubmit ip username password next) cookie) ∈ l ∧
    (i, EvLogin (ToLower L (TrimSpace username)) (Ok (u, row))) ∈ l ∧
    Password.Verify (IDKey L) password (u_PasswordHash row) = Ok true ∧ u_SuspendedAt row = None ∧
    (RequireEmailVerification L = true → u_EmailVerified row = true).

(** It read no confirmed second factor of the user, or failed to read. *)
Definition no_second l (i : nat) (u : Z) : Prop :=
  ∃ r, (i, EvTotp u r) ∈ l ∧ match r with Ok t => t_ConfirmedAt t = None | Err _ => True end.

(** A challenge was passed: with a code of the confirmed secret whose step the table then advanced to, or with a recovery
    code that the table then marked as used. *)
Definition second_ok l (u : Z) : Prop :=
  ∃ i ip code next cookie,
    (i, EvRequest (ChallengeSubmit ip code next) cookie) ∈ l ∧
    ((i, EvConsume u (Totp.HashRecoveryCode (sha256 L) (ToUpper L) (TrimSpace code)) (Ok 1)) ∈ l ∨
     ∃ row secret step now, (i, EvTotp u (Ok row)) ∈ l ∧ t_ConfirmedAt row ≠ None ∧
       box_open L (t_SecretEncrypted row) (t_SecretNonce row) = Some secret ∧
       Totp.Verify (GenerateCode L) secret (TrimSpace code) now = Ok step ∧ (i, EvBump u step (Ok 1)) ∈ l).

Definition authenticated l (u : Z) : Prop := ∃ i, password_ok l i u ∧ (no_second l i u ∨ second_ok l u).

(** Somebody read this epoch of the user. *)
Definition epoch_seen l (u e : Z) : Prop :=
  ∃ i, (i, EvEpoch u (Ok e)) ∈ l ∨
    ∃ row, u_SessionEpoch row = e ∧ ((i, EvUser u (Ok row)) ∈ l ∨ ∃ ident, (i, EvLogin ident (Ok (u, row))) ∈ l).

(** While viewing as somebody else, [u] signed "every session" out or changed the password. *)
Definition borrowed l (u : Z) : Prop :=
  ∃ i f cookie s, (i, EvRequest f cookie) ∈ l ∧ (i, EvLoaded s) ∈ l ∧ UserID s = u ∧ ImpersonatedUserID s ≠ 0 ∧
    match f with LogoutEverywhere | PasswordSubmit _ _ _ => True | _ => False end.

(** The request failed to look the user up. *)
Definition lookup_failed l (i : nat) (u : Z) : Prop := ∃ e, (i, EvUser u (Err e)) ∈ l ∨ (i, EvTwoFactor u (Err e)) ∈ l.

(** The user of the session was read with the epoch of the session. *)
Definition current l (i : nat) s (row : UserRow) : Prop := (i, EvUser (UserID s) (Ok row)) ∈ l ∧ u_SessionEpoch row = Epoch s.

(** Whom a request may act as: the user of its session, who signed in and whose sessions were not ended; a failed lookup
    passes, without a site administrator's rights.  Or, for a site administrator, the user viewed as, without those rights. *)
Definition bind_ok l (i : nat) s (cu : CurrentUser) : Prop :=
  ID cu ≠ 0 →
  UserID s ≠ 0 ∧ authenticated l (UserID s) ∧
  (ID cu = UserID s ∧
     (lookup_failed l i (UserID s) ∧ IsSiteAdmin cu = false ∨ ∃ row, current l i s row ∧ IsSiteAdmin cu = u_IsSiteAdmin row) ∨
   ID cu = ImpersonatedUserID s ∧ RealActorID cu = UserID s ∧ IsSiteAdmin cu = false ∧
     ∃ row, current l i s row ∧ u_IsSiteAdmin row = true).

Record good l s : Prop := {
  good_user : UserID s ≠ 0 → authenticated l (UserID s);
  good_epoch : UserID s ≠ 0 → epoch_seen l (UserID s) (Epoch s) ∨ borrowed l (UserID s);
  good_pre : Pre2FAUserID s ≠ 0 → ∃ i, password_ok l i (Pre2FAUserID s);
  good_accounts : Forall (fun a => authenticated l (a_UserID a) ∧ epoch_seen l (a_UserID a) (a_Epoch a)) (Accounts s) }.

(** ** History only grows *)

Lemma password_ok_mono l l' i u : l ⊆ l' → password_ok l i u → password_ok l' i u.
Proof. intros Hl (ip & un & pw & nx & c & row & H1 & H2 & H). exists ip, un, pw, nx, c, row. auto. Qed.

Lemma no_second_mono l l' i u : l ⊆ l' → no_second l i u → no_second l' i u.
Proof. intros Hl (r & H1 & H2). exists r. auto. Qed.

Lemma second_ok_mono l l' u : l ⊆ l' → second_ok l u → second_ok l' u.
Proof.
  intros Hl (i & ip & code & nx & c & H1 & H2). exists i, ip, code, nx, c. split; [auto|].
  destruct H2 as [H2|(row & sec & st & now & H2 & H3 & H4 & H5 & H6)]; [left; auto|].
  right. exists row, sec, st, now. auto 10.
Qed.

Lemma authenticated_mono l l' u : l ⊆ l' → authenticated l u → authenticated l' u.
Proof.
  intros Hl (i & H1 & H2). exists i. split; [by eapply password_ok_mono|].
  destruct H2; [left; by eapply no_second_mono|right; by eapply second_ok_mono].
Qed.

Lemma epoch_seen_mono l l' u e : l ⊆ l' → epoch_seen l u e → epoch_seen l' u e.
Proof.
  intros Hl (i & [H|(row & H1 & [H2|[ident H2]])]); exists i; [left; auto|right; exists row; auto..].
  split; [done|]. right. exists ident. auto.
Qed.

Lemma borrowed_mono l l' u : l ⊆ l' → borrowed l u → borrowed l' u.
Proof. intros Hl (i & f & c & s & H1 & H2 & H3). exists i, f, c, s. auto. Qed.

Lemma good_mono l l' s : l ⊆ l' → good l s → good l' s.
Proof.
  intros Hl [H1 H2 H3 H4]. split.
  - intros H. by eapply authenticated_mono, H1.
  - intros H. destruct (H2 H); [left; by eapply epoch_seen_mono|right; by eapply borrowed_mono].
  - intros H. destruct (H3 H) as [i Hi]. exists i. by eapply password_ok_mono.
  - apply (Forall_impl _ _ _ H4). intros a [Ha Hb]. split; [by eapply authenticated_mono|by eapply epoch_seen_mono].
Qed.

Lemma bind_ok_mono l l' i s cu : l ⊆ l' → bind_ok l i s cu → bind_ok l' i s cu.
Proof.
  intros Hl H Hid. destruct (H Hid) as (Hs & Ha & Hc). split; [done|]. split; [by eapply authenticated_mono|].
  assert (∀ row, current l i s row → current l' i s row) as Hcur by (intros row [? ?]; split; auto).
  destruct Hc as [[E [[(e & [F|F]) Hadm]|(row & Hr & Hadm)]]|(E & Hact & Hadm & row & Hr & Had)].
  - left. split; [done|]. left. split; [|done]. exists e. left. auto.
  - left. split; [done|]. left. split; [|done]. exists e. right. auto.
  - left. split; [done|]. right. exists row. auto.
  - right. split_and!; try done. exists row. auto.
Qed.

Lemma good_empty l : good l empty.
Proof. split; cbn; done. Qed.

End Says.

#[export] Hint Resolve password_ok_mono no_second_mono second_ok_mono authenticated_mono epoch_seen_mono borrowed_mono
  good_mono : shithub.

(** ** Uses of second factors *)

(** The step of the last code that was accepted for the user since the enrolment last changed: newest first. *)
Fixpoint floor (l : list (nat * Event)) (u : Z) : option Z :=
  match l with
  | [] => None
  | (_, EvBump u' step (Ok 1)) :: l => if decide (u = u') then Some step else floor l u
  | (_, EvConfirm u' step _ r) :: l =>
      if decide (u = u') then match r with Ok 0 => floor l u | Ok _ => Some step | Err _ => None end else floor l u
  | (_, EvUpsert u' r) :: l => if decide (u = u') then match r with Err NoRows => floor l u | _ => None end else floor l u
  | (_, EvDisable u' _) :: l => if decide (u = u') then None else floor l u
  | _ :: l => floor l u
  end.

(** The recovery code was accepted, and not issued again since. *)
Fixpoint spent (l : list (nat * Event)) (h : string) : bool :=
  match l with
  | [] => false
  | (_, EvConsume _ h' (Ok 1)) :: l => if decide (h = h') then true else spent l h
  | (_, EvConfirm _ _ hashes r) :: l => if decide (h ∈ hashes ∧ r ≠ Ok 0) then false else spent l h
  | (_, EvRegenerate _ hashes _) :: l => if decide (h ∈ hashes) then false else spent l h
  | _ :: l => spent l h
  end.

(** Every code that was accepted was newer than the floor, every recovery code unspent. *)
Fixpoint uses_ok (l : list (nat * Event)) : Prop :=
  match l with
  | [] => True
  | (_, e) :: l =>
      uses_ok l ∧ match e with
                  | EvBump u step (Ok 1) => ∀ step', floor l u = Some step' → step' < step
                  | EvConsume _ h (Ok 1) => spent l h = false
                  | _ => True
                  end
  end.

(** ** Sessions that were ended *)

(** The sessions of the user were ended when the cookie of [s] was there already; the user had not signed out, or changed
    the password, while viewing as somebody else. *)
Fixpoint outdated (l : list (nat * Event)) (s : Session) : Prop :=
  match l with
  | [] => False
  | (_, EvSignedOut u (Ok _)) :: l => (UserID s = u ∧ (∃ j v, (j, EvSealed s v) ∈ l) ∧ ¬ borrowed l u) ∨ outdated l s
  | _ :: l => outdated l s
  end.

(** Whoever reads the user afterwards finds another epoch. *)
Fixpoint reads_ok (l : list (nat * Event)) : Prop :=
  match l with
  | [] => True
  | (_, e) :: l =>
      reads_ok l ∧ match e with
                   | EvUser u (Ok row) => ∀ s, UserID s = u → u ≠ 0 → outdated l s → Epoch s < u_SessionEpoch row
                   | _ => True
                   end
  end.

(** ** What statements do to users *)

Definition ids (d : DB) : Prop := ∀ u row, users d !! u = Some row → u < next_user d.

(** Second factors and recovery codes stay, nobody is removed, no epoch goes down, and a password hash is either the one the
    user had or one that [J] allows. *)
Definition keeps (J : Z → string → Prop) (d d' : DB) : Prop :=
  ids d → ids d' ∧ totps d' = totps d ∧ codes d' = codes d ∧
    (∀ u row, users d !! u = Some row → ∃ row', users d' !! u = Some row' ∧ u_SessionEpoch row <= u_SessionEpoch row') ∧
    (∀ u row', users d' !! u = Some row' →
       (∃ row, users d !! u = Some row ∧ u_PasswordHash row' = u_PasswordHash row) ∨ J u (u_PasswordHash row')).

Lemma keeps_users J d d' : users d' = users d → next_user d' = next_user d → totps d' = totps d → codes d' = codes d →
  keeps J d d'.
Proof.
  intros Hu Hn Ht Hc Hi. unfold ids in *. rewrite Hu, Hn. split_and!; [done..| |].
  - intros u row H. exists row. split; [done|lia].
  - eauto.
Qed.

Lemma keeps_refl J d : keeps J d d.
Proof. by apply keeps_users. Qed.

Lemma keeps_trans J d1 d2 d3 : keeps J d1 d2 → keeps J d2 d3 → keeps J d1 d3.
Proof.
  intros H1 H2 Hi. destruct (H1 Hi) as (I2 & T2 & C2 & E2 & P2). destruct (H2 I2) as (I3 & T3 & C3 & E3 & P3).
  split_and!; [done|congruence..| |].
  - intros u row H. destruct (E2 u row H) as (r2 & Hr2 & Hl2). destruct (E3 u r2 Hr2) as (r3 & Hr3 & Hl3).
    exists r3. split; [done|lia].
  - intros u row' H. destruct (P3 u row' H) as [(r2 & Hr2 & Hh)|]; [|by right].
    rewrite Hh. apply P2, Hr2.
Qed.

Lemma keeps_weaken (J K : Z → string → Prop) d d' : (∀ u h, J u h → K u h) → keeps J d d' → keeps K d d'.
Proof.
  intros HJ H Hi. destruct (H Hi) as (? & ? & ? & ? & Hp). split_and!; try done.
  intros u row' Hu. destruct (Hp u row' Hu); eauto.
Qed.

Lemma elsewhere_keeps J d d' : elsewhere d d' → keeps J d d'.
Proof.
  intros (Ht & Hc & Hn & Hu) Hi. unfold ids in *. rewrite Hn. split_and!; try done.
  - intros u row' H. specialize (Hu u). rewrite H in Hu. destruct (users d !! u) as [row|] eqn:E; [by eapply Hi|done].
  - intros u row H. specialize (Hu u). rewrite H in Hu. destruct (users d' !! u) as [row'|]; [|done].
    exists row'. destruct Hu as [_ ->]. split; [done|lia].
  - intros u row' H. specialize (Hu u). rewrite H in Hu. destruct (users d !! u) as [row|]; [|done].
    left. exists row. destruct Hu. split; [done|congruence].
Qed.

(** A transaction of which every outcome keeps that. *)
Definition mild (J : Z → string → Prop) {X} (t : tx X) : Prop := ∀ now d x d', t now d = Ok (x, d') → keeps J d d'.

Lemma mild_select J {X} (f : DB → option X) : mild J (select f).
Proof. intros now d x d'. unfold select. destruct (f d); [|done]. intros [= _ <-]. apply keeps_refl. Qed.

Lemma mild_ret J {X} (x : X) : mild J (mret x).
Proof. intros now d y d' [= _ <-]. apply keeps_refl. Qed.

Lemma tx_bind_Ok {X Y} (t : tx X) (f : X → tx Y) now d y d' : (t ≫= f) now d = Ok (y, d') →
  ∃ x d1, t now d = Ok (x, d1) ∧ f x now d1 = Ok (y, d').
Proof. unfold mbind, tx_bind. destruct (t now d) as [[x d1]|]; [eauto|done]. Qed.

Lemma mild_bind J {X Y} (t : tx X) (f : X → tx Y) : mild J t → (∀ x, mild J (f x)) → mild J (t ≫= f).
Proof.
  intros H1 H2 now d y d' (x & d1 & E1 & E2)%tx_bind_Ok. eapply keeps_trans; [by eapply H1|by eapply H2].
Qed.

Lemma mild_update J (f : Z → DB → DB) : (∀ now d, users (f now d) = users d ∧ next_user (f now d) = next_user d ∧
  totps (f now d) = totps d ∧ codes (f now d) = codes d) → mild J (update f).
Proof. intros H now d x d' [= _ <-]. destruct (H now d) as (? & ? & ? & ?). by apply keeps_users. Qed.

Lemma mild_update_user J id (f : Z → UserRow → UserRow) :
  (∀ now u, u_SessionEpoch (f now u) = u_SessionEpoch u) →
  (∀ now u, u_PasswordHash (f now u) = u_PasswordHash u ∨ J id (u_PasswordHash (f now u))) → mild J (update_user id f).
Proof.
  intros He Hh now d x d' [= _ <-] Hi. unfold ids in *. cbn [users next_user totps codes with_users]. split_and!; try done.
  - intros u row H. apply lookup_alter_Some in H as [(-> & r & H & _)|[_ H]]; eauto.
  - intros u row H. destruct (decide (id = u)) as [->|Hne].
    + exists (f now row). rewrite lookup_alter_eq, H, He. split; [done|lia].
    + exists row. rewrite lookup_alter_ne by done. split; [done|lia].
  - intros u row H. apply lookup_alter_Some in H as [(<- & r & H & ->)|[_ H]]; [|eauto].
    destruct (Hh now r) as [E|]; [left; eauto|by right].
Qed.

Lemma mild_bump J id : mild J (BumpUserSessionEpoch id).
Proof.
  intros now d x d'. unfold BumpUserSessionEpoch. destruct (users d !! id) as [row|] eqn:E;
    [case_bool_decide; [|done]|]; intros [= _ <-]; [|apply keeps_refl].
  intros Hi. unfold ids in *. cbn [users next_user totps codes with_users]. split_and!; try done.
  - intros u r. rewrite lookup_insert_Some. intros [[<- _]|[_ Hr]]; eauto.
  - intros u r Hr. destruct (decide (id = u)) as [->|Hne].
    + rewrite lookup_insert_eq. eexists. split; [done|]. cbn. assert (r = row) as -> by congruence. lia.
    + rewrite lookup_insert_ne by done. exists r. split; [done|lia].
  - intros u r. rewrite lookup_insert_Some. intros [[<- <-]|[_ Hr]]; left; eauto.
Qed.

Lemma mild_create_user (J : Z → string → Prop) ci name hash : (∀ u, J u hash) → mild J (CreateUser ci name hash).
Proof.
  intros HJ now d x d'. unfold CreateUser. case_bool_decide; [|done]. intros [= _ <-] Hi. unfold ids in *.
  cbn [users next_user totps codes]. split_and!; try done.
  - intros u r. rewrite lookup_insert_Some. intros [[<- _]|[_ Hr]]; [lia|]. specialize (Hi u r Hr). lia.
  - intros u r Hr. pose proof (Hi u r Hr). exists r. rewrite lookup_insert_ne by lia. split; [done|lia].
  - intros u r. rewrite lookup_insert_Some. intros [[<- <-]|[_ Hr]]; [by right|left; eauto].
Qed.

(** Statements on other tables. *)
Ltac other_table :=
  let Ht := fresh in
  intros ? ? ? ?; unfold CreateUserEmail, CreatePasswordReset, CreateEmailVerification, DeleteUserEmail, BumpAuthThrottle;
  repeat (case_match; try done); intros Ht; simplify_eq; by apply keeps_users.

Lemma mild_CreateUserEmail J ci u a p h : mild J (CreateUserEmail ci u a p h).
Proof. other_table. Qed.
Lemma mild_CreatePasswordReset J u h e : mild J (CreatePasswordReset u h e).
Proof. other_table. Qed.
Lemma mild_CreateEmailVerification J m h e : mild J (CreateEmailVerification m h e).
Proof. other_table. Qed.
Lemma mild_DeleteUserEmail J u m : mild J (DeleteUserEmail u m).
Proof. other_table. Qed.
Lemma mild_BumpAuthThrottle J k c : mild J (BumpAuthThrottle k c).
Proof. other_table. Qed.

Create HintDb mild.
#[export] Hint Resolve mild_select mild_ret mild_bind mild_update mild_update_user mild_bump mild_create_user
  mild_CreateUserEmail mild_CreatePasswordReset mild_CreateEmailVerification mild_DeleteUserEmail mild_BumpAuthThrottle : mild.

(** ** The invariant *)

Section Inv.
Context (L : Lib) (d0 : DB).
Implicit Types (l : list (nat * Event)) (s : Session) (d : DB).

(** Where the hash of a password comes from: it was there at the start; or a request set it, with the password it was sent:
    a signup; the use of a link, which named the user and was not used yet when it was read; or a change by the
    user bound, who knew the password before. *)
Definition justified l (u : Z) (h : string) : Prop :=
  (∃ row, users d0 !! u = Some row ∧ u_PasswordHash row = h) ∨
  ∃ i f cookie pw salt, (i, EvRequest f cookie) ∈ l ∧ Password.Hash (IDKey L) pw (argon2 L) salt = Ok h ∧
    match f with
    | SignupSubmit _ _ _ password _ => password = pw
    | ResetConfirm token password => password = pw ∧
        ∃ th row, Token.HashOf (sha256 L) token = Ok th ∧ (i, EvReset th (Ok row)) ∈ l ∧ k_Owner row = u ∧ k_UsedAt row = None
    | PasswordSubmit current next confirm => next = pw ∧ confirm = pw ∧
        ∃ s cu row, (i, EvBound s cu) ∈ l ∧ ID cu = u ∧ (i, EvUser u (Ok row)) ∈ l ∧ correct L current row = true
    | _ => False
    end.

Lemma justified_mono l l' u h : l ⊆ l' → justified l u h → justified l' u h.
Proof.
  intros Hl [H|(i & f & c & pw & salt & H1 & H2 & H3)]; [by left|right]. exists i, f, c, pw, salt. split_and!; [auto|done|].
  destruct f; try done; destruct H3 as (-> & H3).
  - destruct H3 as (th & row & ? & ? & ?). split; [done|]. exists th, row. auto.
  - destruct H3 as (-> & s & cu & row & ? & ? & ? & ?). do 2 (split; [done|]). exists s, cu, row. auto 10.
Qed.

Record Inv d l : Prop := {
  inv_sealed : ∀ i s v, (i, EvSealed s v) ∈ l → good L l s;
  inv_binds : ∀ i s cu, (i, EvBound s cu) ∈ l → bind_ok L l i s cu;
  inv_outdated : ∀ s, outdated l s → UserID s ≠ 0 → ∃ row, users d !! UserID s = Some row ∧ Epoch s < u_SessionEpoch row;
  inv_reads : reads_ok l;
  inv_epochs : ∀ u e, epoch_seen l u e → ∃ row, users d !! u = Some row ∧ e <= u_SessionEpoch row;
  inv_ids : ids d;
  inv_passwords : ∀ u row, users d !! u = Some row → justified l u (u_PasswordHash row);
  inv_totp : ∀ u st, floor l u = Some st → ∃ row, totps d !! u = Some row ∧ st <= t_LastUsedCounter row;
  inv_codes : ∀ h r, spent l h = true → codes d !! h = Some r → c_UsedAt r ≠ None;
  inv_uses : uses_ok l }.

(** Events that say nothing the invariant speaks about. *)
Definition quiet (e : Event) : Prop :=
  match e with
  | EvRequest _ _ | EvLoaded _ | EvTwoFactor _ _ | EvTotp _ _ | EvReset _ _ | EvMail _ _ | EvOther => True
  | EvSignedOut _ r => ∃ e, r = Err e
  | EvUser _ r => ∃ e, r = Err e
  | EvLogin _ r => ∃ e, r = Err e
  | EvEpoch _ r => ∃ e, r = Err e
  | EvBump _ _ r | EvConsume _ _ r => r ≠ Ok 1
  | EvUpsert _ _ | EvConfirm _ _ _ _ | EvDisable _ _ | EvRegenerate _ _ _ => True
  | EvSealed _ _ | EvBound _ _ => False
  end.

Lemma uses_ok_quiet l i e : quiet e → uses_ok l → uses_ok ((i, e) :: l).
Proof. intros He H. cbn [uses_ok]. split; [done|]. destruct e; cbn in He; try done; repeat case_match; try done; by subst. Qed.

(** Events that read no epoch. *)
Definition reads_no_epoch (e : Event) : Prop :=
  match e with EvUser _ (Ok _) | EvLogin _ (Ok _) | EvEpoch _ (Ok _) => False | _ => True end.

Lemma epoch_seen_cons l i e u n : reads_no_epoch e → epoch_seen ((i, e) :: l) u n → epoch_seen l u n.
Proof.
  intros He (j & H). exists j. destruct H as [H|(row & Hr & [H|[ident H]])].
  - left. apply elem_of_cons in H as [[= -> <-]|H]; done.
  - right. exists row. split; [done|]. left. apply elem_of_cons in H as [[= -> <-]|H]; done.
  - right. exists row. split; [done|]. right. exists ident. apply elem_of_cons in H as [[= -> <-]|H]; done.
Qed.

Lemma quiet_reads_no_epoch e : quiet e → reads_no_epoch e.
Proof. by destruct e as [| | |? r| |? r|? r| | | | | | | | | | | |]; try done; intros [? ->]. Qed.

Lemma sealed_cons l i e : (∀ j s v, (j, EvSealed s v) ∈ l → good L l s) → (∀ s v, e = EvSealed s v → good L l s) →
  ∀ j s v, (j, EvSealed s v) ∈ (i, e) :: l → good L ((i, e) :: l) s.
Proof.
  intros H He j s v Hin. apply (good_mono L l); [set_solver|]. apply elem_of_cons in Hin as [[= -> E]|Hin]; eauto.
Qed.

Lemma binds_cons l i e : (∀ j s cu, (j, EvBound s cu) ∈ l → bind_ok L l j s cu) → (∀ s cu, e = EvBound s cu → bind_ok L l i s cu) →
  ∀ j s cu, (j, EvBound s cu) ∈ (i, e) :: l → bind_ok L ((i, e) :: l) j s cu.
Proof.
  intros H He j s cu Hin. apply (bind_ok_mono L l); [set_solver|]. apply elem_of_cons in Hin as [[= -> E]|Hin]; eauto.
Qed.

(** Events after which the same sessions are outdated. *)
Definition ends_nothing (e : Event) : Prop := match e with EvSignedOut _ (Ok _) => False | _ => True end.

Lemma outdated_cons l i e s : ends_nothing e → outdated ((i, e) :: l) s → outdated l s.
Proof. intros He. destruct e; cbn in *; try done. by destruct r. Qed.

Lemma reads_cons l i e : match e with EvUser _ (Ok _) => False | _ => True end → reads_ok l → reads_ok ((i, e) :: l).
Proof. intros He H. split; [done|]. destruct e; try done. by destruct r. Qed.

Lemma quiet_ends_nothing e : quiet e → ends_nothing e.
Proof. by destruct e as [| | | | | | | | | | | | | | |? r| | |]; try done; intros [? ->]. Qed.

Lemma quiet_not_user e : quiet e → match e with EvUser _ (Ok _) => False | _ => True end.
Proof. by destruct e as [| | |? r| | | | | | | | | | | | | | |]; try done; intros [? ->]. Qed.

(** A statement on users and other tables, with an event that says nothing. *)
Lemma Inv_keeps d d' l i e : Inv d l → keeps (justified l) d d' → quiet e →
  (∀ u, is_Some (floor ((i, e) :: l) u) → floor ((i, e) :: l) u = floor l u) →
  (∀ h, spent ((i, e) :: l) h = true → spent l h = true) → Inv d' ((i, e) :: l).
Proof.
  intros Hi Hk He Hf Hs. destruct (Hk (inv_ids _ _ Hi)) as (Hids & Ht & Hc & Hep & Hpw). split.
  - apply sealed_cons; [apply Hi|]. intros s v ->. done.
  - apply binds_cons; [apply Hi|]. intros s cu ->. done.
  - intros s Ho%outdated_cons Hne; [|by apply quiet_ends_nothing]. destruct (inv_outdated _ _ Hi s Ho Hne) as (row & Hu & Hlt).
    destruct (Hep _ row Hu) as (row' & Hu' & Hle). exists row'. split; [done|lia].
  - apply reads_cons; [by apply quiet_not_user|apply Hi].
  - intros u n He'%epoch_seen_cons; [|by apply quiet_reads_no_epoch]. destruct (inv_epochs _ _ Hi u n He') as (row & Hu & Hle).
    destruct (Hep u row Hu) as (row' & Hu' & Hle'). exists row'. split; [done|lia].
  - done.
  - intros u row' Hu. apply (justified_mono l); [set_solver|].
    destruct (Hpw u row' Hu) as [(row & Hr & ->)|]; [by apply (inv_passwords _ _ Hi)|done].
  - intros u st Hst. rewrite Ht. apply (inv_totp _ _ Hi). rewrite <- Hf; eauto.
  - intros h r Hsp. rewrite Hc. apply (inv_codes _ _ Hi). eauto.
  - by apply uses_ok_quiet; [|apply Hi].
Qed.

(** Events that do not concern second factors either. *)
Definition calm (e : Event) : Prop :=
  match e with EvUpsert _ _ | EvConfirm _ _ _ _ | EvDisable _ _ | EvRegenerate _ _ _ => False | _ => quiet e end.

Lemma floor_calm l i e u : calm e → floor ((i, e) :: l) u = floor l u.
Proof. intros He. destruct e; cbn in *; try done; repeat case_match; try done; by subst. Qed.

Lemma spent_calm l i e h : calm e → spent ((i, e) :: l) h = spent l h.
Proof. intros He. destruct e; cbn in *; try done; repeat case_match; try done; by subst. Qed.

Lemma calm_quiet e : calm e → quiet e.
Proof. by destruct e. Qed.

Lemma Inv_calm d d' l i e : Inv d l → keeps (justified l) d d' → calm e → Inv d' ((i, e) :: l).
Proof.
  intros Hi Hk He. apply (Inv_keeps d); [done|done|by apply calm_quiet| |].
  - intros u _. by apply floor_calm.
  - intros h. by rewrite spent_calm.
Qed.

(** Reading a row of users. *)
Lemma Inv_read d l i e u n : Inv d l → (∃ row, users d !! u = Some row ∧ u_SessionEpoch row = n) →
  match e with
  | EvUser u' (Ok row) => u' = u ∧ u_SessionEpoch row = n
  | EvLogin _ (Ok (u', row)) => u' = u ∧ u_SessionEpoch row = n
  | EvEpoch u' (Ok n') => u' = u ∧ n' = n
  | _ => False
  end → Inv d ((i, e) :: l).
Proof.
  intros Hi (row & Hu & Hn) He. assert (∀ s v, e ≠ EvSealed s v) as Hns by (intros s v ->; done).
  assert (∀ x, floor ((i, e) :: l) x = floor l x) as Hf by (intros x; destruct e; cbn; done).
  assert (∀ x, spent ((i, e) :: l) x = spent l x) as Hs by (intros x; destruct e; cbn; done).
  split.
  - apply sealed_cons; [apply Hi|]. intros s v E. by destruct (Hns s v).
  - apply binds_cons; [apply Hi|]. intros s cu ->. done.
  - intros s Ho%outdated_cons; [by apply (inv_outdated _ _ Hi)|by destruct e].
  - split; [apply Hi|]. destruct e as [| | |u' r| | | | | | | | | | | | | | |]; try done. destruct r as [r|]; [|done].
    destruct He as [-> Hr]. intros s <- Hne Ho. destruct (inv_outdated _ _ Hi s Ho Hne) as (row' & Hu' & Hlt).
    assert (row' = row) as -> by congruence. lia.
  - intros u' n' (j & H).
    assert (u' = u ∧ n' = n ∨ epoch_seen l u' n') as [[-> ->]|H']; [|exists row; split; [done|lia]|by apply Hi].
    destruct H as [H|(r & Hr & [H|[ident H]])]; apply elem_of_cons in H as [[= -> <-]|H].
    + left. naive_solver.
    + right. exists j. by left.
    + left. naive_solver.
    + right. exists j. right. eauto.
    + left. naive_solver.
    + right. exists j. right. eauto.
  - apply Hi.
  - intros x r Hx. apply (justified_mono l); [set_solver|]. by apply (inv_passwords _ _ Hi).
  - intros x st. rewrite Hf. apply Hi.
  - intros h r. rewrite Hs. apply Hi.
  - cbn. split; [apply Hi|]. by destruct e.
Qed.

Lemma Inv_seal d l i s v : Inv d l → good L l s → Inv d ((i, EvSealed s v) :: l).
Proof.
  intros Hi Hg. split.
  - apply sealed_cons; [apply Hi|]. by intros ? ? [= <- _].
  - apply binds_cons; [apply Hi|]. by intros ? ? [=].
  - apply Hi.
  - split; [apply Hi|done].
  - intros u n He%epoch_seen_cons; [by apply (inv_epochs _ _ Hi)|done].
  - apply Hi.
  - intros x r Hx. apply (justified_mono l); [set_solver|]. by apply (inv_passwords _ _ Hi).
  - apply Hi.
  - apply Hi.
  - cbn. split; [apply Hi|done].
Qed.

(** A user is bound. *)
Lemma Inv_bind d l i s cu : Inv d l → bind_ok L l i s cu → Inv d ((i, EvBound s cu) :: l).
Proof.
  intros Hi Hb. split.
  - apply sealed_cons; [apply Hi|]. by intros ? ? [=].
  - apply binds_cons; [apply Hi|]. by intros ? ? [= <- <-].
  - apply Hi.
  - split; [apply Hi|done].
  - intros u n He%epoch_seen_cons; [by apply (inv_epochs _ _ Hi)|done].
  - apply Hi.
  - intros x r Hx. apply (justified_mono l); [set_solver|]. by apply (inv_passwords _ _ Hi).
  - apply Hi.
  - apply Hi.
  - cbn. split; [apply Hi|done].
Qed.

(** The sessions of a user are ended: his epoch goes up. *)
Definition ends (u : Z) (t : tx ()) : Prop := ∀ now d x d' row, ids d → t now d = Ok (x, d') →
  users d !! u = Some row → ∃ row', users d' !! u = Some row' ∧ u_SessionEpoch row < u_SessionEpoch row'.

Lemma Inv_signed_out d d' l i u (t : tx ()) env r : Inv d l → mild (justified l) t → ends u t →
  answer Fault_ env t d = (r, d') → Inv d' ((i, EvSignedOut u r) :: l).
Proof.
  intros Hi Ht Hends Ha. assert (keeps (justified l) d d' ∧ (∀ x, r = Ok x → ∀ row, users d !! u = Some row →
    ∃ row', users d' !! u = Some row' ∧ u_SessionEpoch row < u_SessionEpoch row')) as [Hk Hup].
  { destruct (answer_inv _ _ _ _ _ Ha) as [[-> [e ->]]|(x & Hx & Hr)]; [split; [apply keeps_refl|done]|].
    split; [by eapply Ht|]. intros _ _ row. by apply (Hends _ _ _ _ row (inv_ids _ _ Hi) Hx). }
  destruct r as [x|e]; [|by apply (Inv_calm d); [done|done|eexists]].
  destruct (Inv_calm d d' l i EvOther Hi Hk I) as [_ _ Hold _ _ Hids _ Htotp Hcodes _]. specialize (Hup x eq_refl).
  destruct (Hk (inv_ids _ _ Hi)) as (_ & _ & _ & Hep & Hpw). split; try done.
  - apply sealed_cons; [apply Hi|]. by intros ? ? [=].
  - apply binds_cons; [apply Hi|]. by intros ? ? [=].
  - intros s [(<- & (j & v & Hs) & Hb)|Ho] Hne; [|by apply Hold].
    destruct (good_epoch _ _ _ (inv_sealed _ _ Hi j s v Hs) Hne) as [He|]; [|done].
    destruct (inv_epochs _ _ Hi _ _ He) as (row & Hu & Hle). destruct (Hup row Hu) as (row' & Hu' & Hlt).
    exists row'. split; [done|lia].
  - split; [apply Hi|done].
  - intros v n He%epoch_seen_cons; [|done]. destruct (inv_epochs _ _ Hi v n He) as (row & Hu & Hle).
    destruct (Hep v row Hu) as (row' & Hu' & Hle').
    exists row'. split; [done|lia].
  - intros v row' Hu. apply (justified_mono l); [set_solver|].
    destruct (Hpw v row' Hu) as [(row & Hr & ->)|]; [by apply (inv_passwords _ _ Hi)|done].
  - split; [apply Hi|done].
Qed.

(** *** Second factors *)

Definition about_codes (e : Event) : Prop :=
  match e with
  | EvBump _ _ _ | EvConsume _ _ _ | EvUpsert _ _ | EvConfirm _ _ _ _ | EvDisable _ _ | EvRegenerate _ _ _ => True
  | _ => False
  end.

Lemma Inv_codes_event d d' l i e : Inv d l → about_codes e → users d' = users d → next_user d' = next_user d →
  (∀ u st, floor ((i, e) :: l) u = Some st → ∃ row, totps d' !! u = Some row ∧ st <= t_LastUsedCounter row) →
  (∀ h r, spent ((i, e) :: l) h = true → codes d' !! h = Some r → c_UsedAt r ≠ None) →
  uses_ok ((i, e) :: l) → Inv d' ((i, e) :: l).
Proof.
  intros Hi He Hu Hn Hf Hs Huse. split; try done.
  - apply sealed_cons; [apply Hi|]. by intros ? ? ->.
  - apply binds_cons; [apply Hi|]. by intros ? ? ->.
  - intros s Ho%outdated_cons; [rewrite Hu; by apply (inv_outdated _ _ Hi)|by destruct e].
  - apply reads_cons; [by destruct e|apply Hi].
  - intros u n He'%epoch_seen_cons; [rewrite Hu; by apply (inv_epochs _ _ Hi)|by destruct e].
  - unfold ids. rewrite Hu, Hn. apply Hi.
  - intros u row. rewrite Hu. intros Hr. apply (justified_mono l); [set_solver|]. by apply (inv_passwords _ _ Hi).
Qed.

Lemma Inv_bump d d' l i u step env r : Inv d l → answer Fault_ env (BumpTOTPCounter u step) d = (r, d') →
  Inv d' ((i, EvBump u step r) :: l).
Proof.
  intros Hi [[-> [e ->]]|(x & Hx & Hr)]%answer_inv; [by apply (Inv_calm d); [|apply keeps_refl|]|].
  unfold BumpTOTPCounter in Hx. destruct (totps d !! u) as [row|] eqn:Eu.
  2:{ injection Hx as <- <-. apply (Inv_calm d); [done|apply keeps_refl|]. destruct Hr as [->| ->]; done. }
  case_bool_decide as Hlt; injection Hx as <- <-.
  2:{ apply (Inv_calm d); [done|apply keeps_refl|]. destruct Hr as [->| ->]; done. }
  assert (∀ v st, floor l v = Some st → ∃ row', totps (with_totps d (<[u := MkTotp (t_SecretEncrypted row) (t_SecretNonce row)
    (t_ConfirmedAt row) step]> (totps d))) !! v = Some row' ∧ st <= t_LastUsedCounter row') as Hold.
  { intros v st Hst. destruct (inv_totp _ _ Hi v st Hst) as (row' & Hrow & Hle). cbn [totps with_totps].
    destruct (decide (u = v)) as [->|Hne].
    - rewrite lookup_insert_eq. eexists. split; [done|]. cbn. assert (row' = row) as -> by congruence. lia.
    - rewrite lookup_insert_ne by done. eauto. }
  apply (Inv_codes_event d); try done.
  - destruct Hr as [->| ->]; cbn [floor]; [|done]. intros v st. case_decide as Hv; [|apply Hold].
    intros [= <-]. subst v. cbn [totps with_totps]. rewrite lookup_insert_eq. eexists. split; [done|]. cbn. lia.
  - intros h c Hs. apply (inv_codes _ _ Hi h c). revert Hs. by destruct Hr as [->| ->].
  - destruct Hr as [->| ->]; cbn [uses_ok]; split; try apply Hi; [|done].
    intros st Hst. destruct (inv_totp _ _ Hi u st Hst) as (row' & Hrow & Hle). assert (row' = row) as -> by congruence. lia.
Qed.

Lemma Inv_consume d d' l i u h env r : Inv d l → answer Fault_ env (ConsumeRecoveryCode u h) d = (r, d') →
  Inv d' ((i, EvConsume u h r) :: l).
Proof.
  intros Hi [[-> [e ->]]|(x & Hx & Hr)]%answer_inv; [by apply (Inv_calm d); [|apply keeps_refl|]|].
  unfold ConsumeRecoveryCode in Hx. destruct (codes d !! h) as [row|] eqn:Eu.
  2:{ injection Hx as <- <-. apply (Inv_calm d); [done|apply keeps_refl|]. destruct Hr as [->| ->]; done. }
  destruct (bool_decide (c_UserID row = u) && bool_decide (c_UsedAt row = None)) eqn:Hc; injection Hx as <- <-.
  2:{ apply (Inv_calm d); [done|apply keeps_refl|]. destruct Hr as [->| ->]; done. }
  apply andb_true_iff in Hc as [_ Hfresh%bool_decide_eq_true].
  apply (Inv_codes_event d); try done.
  - intros v st Hst. apply (inv_totp _ _ Hi v st). revert Hst. by destruct Hr as [->| ->].
  - intros h' c Hs. cbn [codes with_codes]. rewrite lookup_insert_Some. intros [[<- <-]|[Hne Hc]]; [done|].
    apply (inv_codes _ _ Hi h' c); [|done]. destruct Hr as [->| ->]; cbn [spent] in Hs; [|done].
    by rewrite decide_False in Hs.
  - destruct Hr as [->| ->]; cbn [uses_ok]; split; try apply Hi; [|done].
    destruct (spent l h) eqn:Es; [|done]. by destruct (inv_codes _ _ Hi h row Es Eu).
Qed.

Lemma Inv_upsert d d' l i u enc nonce env r : Inv d l → answer Fault_ env (UpsertUserTOTP u enc nonce) d = (r, d') →
  Inv d' ((i, EvUpsert u r) :: l).
Proof.
  intros Hi Ha. assert (users d' = users d ∧ next_user d' = next_user d ∧ codes d' = codes d ∧
    (∀ v, v ≠ u → totps d' !! v = totps d !! v) ∧ (d' = d ∨ r ≠ Err NoRows)) as (Hu & Hn & Hc & Ht & Hd).
  { destruct (answer_inv _ _ _ _ _ Ha) as [[-> _]|(x & Hx & Hr)]; [by split_and!; try left|].
    unfold UpsertUserTOTP in Hx. repeat case_match; simplify_eq; cbn; split_and!; try done;
      try (by intros v Hv; rewrite lookup_insert_ne); right; destruct Hr; congruence. }
  apply (Inv_codes_event d); try done.
  - intros v st. cbn [floor]. case_decide as Hv.
    + subst v. destruct r as [|[]]; try done. destruct Hd as [->|]; [apply Hi|done].
    + intros Hst. rewrite Ht by done. by apply (inv_totp _ _ Hi).
  - intros h c Hs. rewrite Hc. by apply (inv_codes _ _ Hi).
  - split; [apply Hi|done].
Qed.

(** Everything but second factors stays. *)
Definition same_rest d d' : Prop := users d' = users d ∧ next_user d' = next_user d.

Lemma insert_codes_spec u hashes now d x d' : insert_codes u hashes now d = Ok (x, d') →
  same_rest d d' ∧ totps d' = totps d ∧ ∀ h, h ∉ hashes → codes d' !! h = codes d !! h.
Proof.
  revert d. induction hashes as [|h hashes IH]; intros d.
  { intros [= <- <-]. done. }
  cbn [insert_codes foldr]. intros (y & d1 & E1 & E2)%tx_bind_Ok. destruct (IH d1 E2) as ([Hu Hn] & Ht & Hc).
  unfold InsertRecoveryCode in E1. repeat (case_match; try done). injection E1 as <- <-. cbn in *.
  split_and!; [by split|done|]. intros h' [Hne Hin]%not_elem_of_cons. rewrite Hc by done. by rewrite lookup_insert_ne.
Qed.

Lemma delete_codes_spec u now d x d' : DeleteUserRecoveryCodes u now d = Ok (x, d') →
  same_rest d d' ∧ totps d' = totps d ∧ ∀ h r, codes d' !! h = Some r → codes d !! h = Some r.
Proof.
  intros [= _ <-]. cbn. split_and!; [done|done|]. intros h r H. by apply map_lookup_filter_Some in H as [? _].
Qed.

Lemma regenerate_spec u hashes now d x d' : regenerate_tx u hashes now d = Ok (x, d') →
  same_rest d d' ∧ totps d' = totps d ∧ ∀ h r, h ∉ hashes → codes d' !! h = Some r → codes d !! h = Some r.
Proof.
  intros (y & d1 & E1 & E2)%tx_bind_Ok. destruct (delete_codes_spec _ _ _ _ _ E1) as ([Hu1 Hn1] & Ht1 & Hc1).
  destruct (insert_codes_spec _ _ _ _ _ _ E2) as ([Hu2 Hn2] & Ht2 & Hc2).
  split_and!; [split; congruence|congruence|]. intros h r Hh Hr. apply Hc1. by rewrite <- Hc2.
Qed.

Lemma Inv_regenerate d d' l i u hashes env r : Inv d l → answer Fault_ env (regenerate_tx u hashes) d = (r, d') →
  Inv d' ((i, EvRegenerate u hashes r) :: l).
Proof.
  intros Hi Ha.
  assert (same_rest d d' ∧ totps d' = totps d ∧ ∀ h r, h ∉ hashes → codes d' !! h = Some r → codes d !! h = Some r)
    as ([Hu Hn] & Ht & Hc).
  { destruct (answer_inv _ _ _ _ _ Ha) as [[-> _]|(x & Hx & _)]; [done|by eapply regenerate_spec]. }
  apply (Inv_codes_event d); try done.
  - intros v st Hst. rewrite Ht. by apply (inv_totp _ _ Hi).
  - intros h c. cbn [spent]. case_decide as Hh; [done|]. intros Hs Hr. eapply (inv_codes _ _ Hi); [done|]. by apply Hc.
  - split; [apply Hi|done].
Qed.

Lemma Inv_disable d d' l i u env r : Inv d l → answer Fault_ env (disable_tx u) d = (r, d') →
  Inv d' ((i, EvDisable u r) :: l).
Proof.
  intros Hi Ha.
  assert (same_rest d d' ∧ (∀ v, v ≠ u → totps d' !! v = totps d !! v) ∧
    ∀ h r, codes d' !! h = Some r → codes d !! h = Some r) as ([Hu Hn] & Ht & Hc).
  { destruct (answer_inv _ _ _ _ _ Ha) as [[-> _]|(x & Hx & _)]; [done|].
    apply tx_bind_Ok in Hx as (y & d1 & [= _ <-] & E2). destruct (delete_codes_spec _ _ _ _ _ E2) as ([Hu Hn] & Ht & Hc).
    cbn in *. split_and!; [by split| |done]. intros v Hv. by rewrite Ht, lookup_delete_ne. }
  apply (Inv_codes_event d); try done.
  - intros v st. cbn [floor]. case_decide as Hv; [done|]. intros Hst. rewrite Ht by done. by apply (inv_totp _ _ Hi).
  - intros h c Hs Hr. eapply (inv_codes _ _ Hi); [done|]. by apply Hc.
  - split; [apply Hi|done].
Qed.

Lemma Inv_confirm d d' l i u step hashes env r : Inv d l → answer Fault_ env (confirm_tx u step hashes) d = (r, d') →
  Inv d' ((i, EvConfirm u step hashes r) :: l).
Proof.
  intros Hi Ha.
  assert (same_rest d d' ∧ (∀ v, v ≠ u → totps d' !! v = totps d !! v) ∧
    (∀ h r, h ∉ hashes → codes d' !! h = Some r → codes d !! h = Some r) ∧
    (d' = d ∧ (r = Ok 0 ∨ ∃ e, r = Err e) ∨
     r ≠ Ok 0 ∧ ∃ row, totps d' !! u = Some row ∧ t_LastUsedCounter row = step)) as ([Hu Hn] & Ht & Hc & Hr).
  { destruct (answer_inv _ _ _ _ _ Ha) as [[-> He]|(x & Hx & Hr)]; [by split_and!; try (left; auto)|].
    apply tx_bind_Ok in Hx as (rows & d1 & E1 & E2). unfold ConfirmUserTOTP in E1.
    destruct (totps d !! u) as [row|] eqn:Eu; [destruct (bool_decide (t_ConfirmedAt row = None))|]; injection E1 as <- <-.
    - change (bool_decide (1 = 0)) with false in E2. cbn iota in E2.
      apply tx_bind_Ok in E2 as (y & d2 & E2 & E3). apply tx_bind_Ok in E3 as (z & d3 & E3 & [= <- <-]).
      destruct (delete_codes_spec _ _ _ _ _ E2) as ([Hu1 Hn1] & Ht1 & Hc1).
      destruct (insert_codes_spec _ _ _ _ _ _ E3) as ([Hu2 Hn2] & Ht2 & Hc2). cbn in *.
      split_and!; [split; congruence| | |].
      + intros v Hv. by rewrite Ht2, Ht1, lookup_insert_ne.
      + intros h r' Hh Hr'. apply Hc1. by rewrite <- Hc2.
      + right. split; [by destruct Hr as [->| ->]|]. rewrite Ht2, Ht1, lookup_insert_eq. eauto.
    - injection E2 as <- <-. split_and!; try done. left. split; [done|]. destruct Hr as [->| ->]; eauto.
    - injection E2 as <- <-. split_and!; try done. left. split; [done|]. destruct Hr as [->| ->]; eauto. }
  apply (Inv_codes_event d); try done.
  - intros v st. cbn [floor]. case_decide as Hv.
    + subst v. destruct Hr as [[-> [->|[e ->]]]|[Hne (row & Hrow & Hst)]]; [by apply (inv_totp _ _ Hi)|done|].
      destruct r as [[]|]; try done; intros [= <-]; exists row; split; (done || lia).
    + intros Hst. rewrite Ht by done. by apply (inv_totp _ _ Hi).
  - intros h c. cbn [spent]. case_decide as Hh; [done|]. intros Hs Hrow.
    destruct Hr as [[-> _]|[Hne _]]; [by eapply (inv_codes _ _ Hi)|].
    eapply (inv_codes _ _ Hi); [done|]. apply Hc; [|done]. naive_solver.
  - split; [apply Hi|done].
Qed.

End Inv.
