(* ===== verification/SigninSafe.v ===== *)
(** * SigninSafe: every handler of sign-in keeps the invariant

    A rule for each operation of [Signin], and with them the safety of each handler, whatever the other
    requests do in between. *)

From S2P Require Import Prelude GoString NetIP Encoding Credentials Session Program AuthDB Signin SigninInv.
Local Open Scope Z_scope.

Section Rules.
Context (L : Lib) (d0 : DB) (i : nat).
Implicit Types (l : list (nat * Event)) (s : Session).

Definition sf {A} (p : P A) (Q : list (nat * Event) → A → Prop) l : Prop := safe Fault_ (Inv L d0) i p Q l.

Lemma sf_bind {A B} (p : P A) (f : A → P B) (Q : list (nat * Event) → B → Prop) l :
  sf p (fun l a => sf (f a) Q l) l → sf (p ≫= f) Q l.
Proof. apply safe_bind. Qed.

Lemma sf_ret {A} (a : A) (Q : list (nat * Event) → A → Prop) l : Q l a → sf (mret a) Q l.
Proof. done. Qed.

(** Questions that leave no trace. *)
Lemma sf_silent {X} (f : Env → X) (Q : list (nat * Event) → X → Prop) l :
  (∀ l' x, l ⊆ l' → Q l' x) → sf (Ask f (fun _ => []) Ret) Q l.
Proof. intros H env d l' Hl Hi. split; [done|]. by apply H. Qed.

Lemma sf_clock (Q : list (nat * Event) → Z → Prop) l : (∀ l' n, l ⊆ l' → Q l' n) → sf clock Q l.
Proof. apply sf_silent. Qed.

Lemma sf_rand n (Q : list (nat * Event) → option string → Prop) l : (∀ l' r, l ⊆ l' → Q l' r) → sf (rand n) Q l.
Proof. apply sf_silent. Qed.

Lemma sf_rands k n (Q : list (nat * Event) → list (option string) → Prop) l : (∀ l' r, l ⊆ l' → Q l' r) → sf (rands k n) Q l.
Proof.
  revert l Q. induction k as [|k IH]; intros l Q H; [by apply H|]. cbn [rands].
  apply sf_bind, sf_rand. intros l1 b H1. apply sf_bind, IH. intros l2 bs H2. apply sf_ret, H. set_solver.
Qed.

Lemma sf_mail a b (Q : list (nat * Event) → () → Prop) l : (∀ l', l ⊆ l' → Q l' tt) → sf (mail a b) Q l.
Proof.
  intros H env d l' Hl Hi. destruct (e_mail env); cbn.
  - split; [apply (Inv_calm L d0 d); [done|apply keeps_refl|done]|]. apply H. set_solver.
  - split; [done|]. by apply H.
Qed.

(** A statement whose event is of one kind whatever the answer. *)
Lemma sf_exec {X} (t : tx X) (ev : res DBErr X → Event) (Q : list (nat * Event) → res DBErr X → Prop) l :
  (∀ env d d' r l', l ⊆ l' → Inv L d0 d l' → answer Fault_ env t d = (r, d') → Inv L d0 d' ((i, ev r) :: l')) →
  (∀ l' r, l ⊆ l' → (i, ev r) ∈ l' → Q l' r) → sf (exec t ev) Q l.
Proof.
  intros Hinv H env d l' Hl Hi. destruct (answer Fault_ env t d) as [r d'] eqn:Ea. split; [by eapply Hinv|].
  apply H; set_solver.
Qed.

Lemma mild_answer {X} (J : Z → string → Prop) (t : tx X) env d r d' : mild J t → answer Fault_ env t d = (r, d') → keeps J d d'.
Proof. intros Ht [[-> _]|(x & Hx & _)]%answer_inv; [apply keeps_refl|by eapply Ht]. Qed.

Lemma sf_mild {X} (t : tx X) (ev : res DBErr X → Event) (Q : list (nat * Event) → res DBErr X → Prop) l :
  mild (justified L d0 l) t → (∀ r, calm (ev r)) →
  (∀ l' r, l ⊆ l' → (i, ev r) ∈ l' → Q l' r) → sf (exec t ev) Q l.
Proof.
  intros Ht Hev. apply sf_exec. intros env d d' r l' Hl Hi Ha. apply (Inv_calm L d0 d); [done| |done].
  apply (keeps_weaken (justified L d0 l)); [|by eapply mild_answer]. intros u h. by apply justified_mono.
Qed.

Lemma sf_other {X} (t : tx X) (Q : list (nat * Event) → res DBErr X → Prop) l :
  mild (justified L d0 l) t → (∀ l' r, l ⊆ l' → Q l' r) → sf (other t) Q l.
Proof. intros Ht H. apply sf_mild; [done|done|]. auto. Qed.

(** The end of a user's sessions. *)
Lemma sf_signed_out u (t : tx ()) (Q : list (nat * Event) → res DBErr () → Prop) l :
  mild (justified L d0 l) t → ends u t → (∀ l' r, l ⊆ l' → Q l' r) → sf (exec t (EvSignedOut u)) Q l.
Proof.
  intros Ht He H. apply sf_exec; [|auto]. intros env d d' r l' Hl Hi Ha.
  refine (Inv_signed_out L d0 d d' l' i u t env r Hi _ He Ha). intros now d1 x d2 Hx.
  apply (keeps_weaken (justified L d0 l)); [|by eapply Ht]. intros v h. by apply justified_mono.
Qed.

Lemma bump_ends u : ends u (BumpUserSessionEpoch u).
Proof.
  intros now d x d' row _. unfold BumpUserSessionEpoch. intros Hx Hu. rewrite Hu in Hx. case_bool_decide; [|done].
  injection Hx as _ <-. cbn [users with_users]. rewrite lookup_insert_eq. eexists. split; [done|]. cbn. lia.
Qed.

(** So does a transaction that bumps last. *)
Lemma bind_ends {X} (J : Z → string → Prop) u (t : tx X) : mild J t →
  ends u (t ≫= fun _ => BumpUserSessionEpoch u).
Proof.
  intros Ht now d y d' row Hids (x & d1 & E1 & E2)%tx_bind_Ok Hu.
  destruct (Ht _ _ _ _ E1 Hids) as (Hids1 & _ & _ & Hep & _). destruct (Hep u row Hu) as (row1 & Hu1 & Hle).
  destruct (bump_ends u _ _ _ _ row1 Hids1 E2 Hu1) as (row2 & Hu2 & Hlt). exists row2. split; [done|lia].
Qed.

(** Reading a row of users, or an epoch. *)
Lemma sf_read {X} (f : DB → option X) (ev : res DBErr X → Event) (Q : list (nat * Event) → res DBErr X → Prop) l :
  (∀ e, calm (ev (Err e))) →
  (∀ d x, f d = Some x → ∃ u row, users d !! u = Some row ∧
     match ev (Ok x) with
     | EvUser u' (Ok r) | EvLogin _ (Ok (u', r)) => u' = u ∧ r = row
     | EvEpoch u' (Ok n) => u' = u ∧ n = u_SessionEpoch row
     | _ => False
     end) →
  (∀ l' r, l ⊆ l' → (i, ev r) ∈ l' → Q l' r) → sf (exec (select f) ev) Q l.
Proof.
  intros He Hok. apply sf_exec. intros env d d' r l' Hl Hi Ha.
  destruct (answer_inv _ _ _ _ _ Ha) as [[-> [e ->]]|(x & Hx & [->| ->])].
  - apply (Inv_calm L d0 d); [done|apply keeps_refl|done].
  - unfold select in Hx. destruct (f d) as [y|] eqn:Ef; [|done]. injection Hx as <- <-.
    destruct (Hok d y Ef) as (u & row & Hu & Hev). apply (Inv_read L d0 d l' i _ u (u_SessionEpoch row) Hi); [eauto|].
    destruct (ev (Ok y)); try done; repeat case_match; try done; naive_solver.
  - unfold select in Hx. destruct (f d) as [y|] eqn:Ef; [|done]. injection Hx as <- <-.
    apply (Inv_calm L d0 d); [done|apply keeps_refl|done].
Qed.

Lemma sf_getUser id (Q : list (nat * Event) → res DBErr UserRow → Prop) l :
  (∀ l' r, l ⊆ l' → (i, EvUser id r) ∈ l' → Q l' r) → sf (getUser id) Q l.
Proof.
  apply sf_read; [by intros e; eexists|]. intros d x Hx. apply bind_Some in Hx as (row & Hu & Hx).
  destruct (live row); [|done]. injection Hx as <-. by exists id, row.
Qed.

Lemma sf_epoch id (Q : list (nat * Event) → res DBErr Z → Prop) l :
  (∀ l' r, l ⊆ l' → (i, EvEpoch id r) ∈ l' → Q l' r) → sf (exec (GetUserSessionEpoch id) (EvEpoch id)) Q l.
Proof.
  apply sf_read; [by intros e; eexists|]. intros d x Hx. apply fmap_Some in Hx as (row & Hu & ->). by exists id, row.
Qed.

Lemma sf_loginUser ident (Q : list (nat * Event) → res DBErr (Z * UserRow) → Prop) l :
  (∀ l' r, l ⊆ l' → (∀ x, r = Ok x → (i, EvLogin ident (Ok x)) ∈ l') → Q l' r) → sf (loginUser L ident) Q l.
Proof.
  intros H. unfold loginUser. destruct (Contains ident "@").
  - apply sf_bind, sf_other; [apply mild_select|]. intros l1 [em|e] H1; [|by apply H].
    apply sf_bind, sf_read.
    + intros e. by exists e.
    + intros d x Hx. by exists (e_UserID em), x.
    + intros l2 r H2 Hin. apply sf_ret, H; [set_solver|]. intros x Hx. rewrite Hx in Hin. done.
  - apply sf_read.
    + intros e. by exists e.
    + intros d [u row] Hx. exists u, row. split; [|done]. apply head_Some in Hx as [tl Hx].
      assert ((u, row) ∈ by_username (ci L) d ident) as Hin by (rewrite Hx; by constructor).
      apply list_elem_of_filter in Hin as [_ Hin]. by apply elem_of_map_to_list in Hin.
    + intros l' r H1 Hin. apply H; [done|]. by intros x ->.
Qed.

Lemma sf_getTOTP id (Q : list (nat * Event) → res DBErr TotpRow → Prop) l :
  (∀ l' r, l ⊆ l' → (i, EvTotp id r) ∈ l' → Q l' r) → sf (getTOTP id) Q l.
Proof. apply sf_mild; [apply mild_select|done]. Qed.

Lemma sf_Hit p (Q : list (nat * Event) → res Throttle.ThrErr () → Prop) l :
  (∀ l' r, l ⊆ l' → Q l' r) → sf (Hit p) Q l.
Proof.
  intros H. apply sf_bind, sf_clock. intros l1 n H1. apply sf_bind, sf_other; [auto with mild|].
  intros l2 [row|e] H2; [|apply sf_ret, H; set_solver]. apply sf_bind, sf_clock. intros l3 n' H3. apply sf_ret, H. set_solver.
Qed.

Lemma sf_new_token (Q : list (nat * Event) → option (string * string) → Prop) l :
  (∀ l' r, l ⊆ l' → Q l' r) → sf (new_token L) Q l.
Proof. intros H. apply sf_bind, sf_rand. intros l1 r H1. by apply sf_ret, H. Qed.

Lemma sf_hashPassword pw (Q : list (nat * Event) → res Password.PwErr string → Prop) l :
  (∀ l' r, l ⊆ l' → (∀ h, r = Ok h → ∃ salt, Password.Hash (IDKey L) pw (argon2 L) salt = Ok h) → Q l' r) →
  sf (hashPassword L pw) Q l.
Proof. intros H. apply sf_bind, sf_rand. intros l1 salt H1. apply sf_ret, H; [done|]. intros h Hh. eauto. Qed.

(** ** Sessions *)

Lemma good_set_user l s uid pre e r : good L l s → (uid ≠ 0 → authenticated L l uid) →
  (uid ≠ 0 → epoch_seen l uid e ∨ borrowed l uid) → (pre ≠ 0 → ∃ j, password_ok L l j pre) → good L l (set_user s uid pre e r).
Proof. intros [H1 H2 H3 H4] ? ? ?. by split. Qed.

Lemma good_set_impersonation l s t w st : good L l s → good L l (set_impersonation s t w st).
Proof. intros [H1 H2 H3 H4]. by split. Qed.

Lemma good_forget l s u : good L l s → good L l (ForgetAccount s u).
Proof.
  intros [H1 H2 H3 H4]. unfold ForgetAccount. case_bool_decide; [by split|]. split; cbn; try done.
  apply Forall_forall. intros a [_ Ha]%list_elem_of_filter. rewrite Forall_forall in H4. by apply H4.
Qed.

Lemma remember_loop_incl uid n (l : list KnownAccount) : remember_loop uid n l ⊆ l.
Proof.
  revert n. induction l as [|a l IH]; intros [|n]; cbn [remember_loop]; try set_solver.
  destruct (_ || _); [set_solver|]. specialize (IH n). set_solver.
Qed.

Lemma good_remember l s n a : good L l s → authenticated L l (a_UserID a) → epoch_seen l (a_UserID a) (a_Epoch a) →
  good L l (RememberAccount s n a).
Proof.
  intros [H1 H2 H3 H4] Ha He. unfold RememberAccount. destruct (_ || _); [by split|]. split; try done. cbn [Accounts set_accounts].
  constructor; [done|]. apply Forall_forall. intros b Hb%remember_loop_incl. rewrite Forall_forall in H4. by apply H4.
Qed.

Lemma sf_Save s w (Q : list (nat * Event) → bool * Session * Response → Prop) l : good L l s →
  (∀ l' ok s' w', l ⊆ l' → Q l' (ok, s', w')) → sf (Save L s w) Q l.
Proof.
  intros Hg H. apply sf_bind, sf_clock. intros l1 n H1. apply sf_bind. intros env d l2 H2 Hi.
  assert (good L l2 (set_issued s (Unix n))) as Hg2.
  { apply (good_mono L l); [set_solver|]. destruct Hg as [G1 G2 G3 G4]. by split. }
  destruct (sealed_cookie L (set_issued s (Unix n)) env) as [v|]; cbn.
  - split; [by apply Inv_seal|]. apply H. set_solver.
  - split; [done|]. apply H. set_solver.
Qed.

Lemma sf_rememberUserAccount s id user r (Q : list (nat * Event) → Session → Prop) l :
  good L l s → authenticated L l id → epoch_seen l id (u_SessionEpoch user) →
  (∀ l' s', l ⊆ l' → good L l' s' → Q l' s') → sf (rememberUserAccount s id user r) Q l.
Proof.
  intros Hg Ha He H. apply sf_bind, sf_clock. intros l1 n H1. destruct (_ || _); apply sf_ret, H; try done;
    [by eapply good_mono|]. apply good_remember; cbn; [by eapply good_mono|by eapply authenticated_mono|by eapply epoch_seen_mono].
Qed.

Lemma seen_user l u row : (i, EvUser u (Ok row)) ∈ l → epoch_seen l u (u_SessionEpoch row).
Proof. intros H. exists i. right. exists row. auto. Qed.

Lemma sf_rememberCurrent s (Q : list (nat * Event) → Session → Prop) l : good L l s →
  (∀ l' s', l ⊆ l' → good L l' s' → Q l' s') → sf (rememberCurrentSessionAccount s) Q l.
Proof.
  intros Hg H. unfold rememberCurrentSessionAccount.
  case_bool_decide as E0; cbn [orb]; [by apply sf_ret, H|].
  case_bool_decide; [by apply sf_ret, H|]. apply sf_bind, sf_getUser. intros l1 [user|e] H1 Hin; [|apply sf_ret, H; [done|by eapply good_mono]].
  destruct (_ || _); [apply sf_ret, H; [done|by eapply good_mono]|].
  apply sf_rememberUserAccount.
  - by eapply good_mono.
  - eapply authenticated_mono; [exact H1|]. by apply Hg.
  - by apply seen_user.
  - intros l2 s2 H2 Hg2. apply H; [set_solver|done].
Qed.

Lemma sf_sign_in s id user r next l : good L l s → authenticated L l id → epoch_seen l id (u_SessionEpoch user) →
  sf (sign_in L s id user r next) (fun _ _ => True) l.
Proof.
  intros Hg Ha He. apply sf_bind, sf_rememberUserAccount; [|done|done|].
  - apply good_set_impersonation, good_set_user; auto. done.
  - intros l1 s1 H1 Hg1. apply sf_bind, sf_Save; [done|]. intros l2 ok s2 w H2. by destruct ok.
Qed.

End Rules.

(** ** Automation *)

(** Transactions that change nothing the invariant speaks of. *)
Ltac mild_tac :=
  repeat first
    [ progress intros
    | apply mild_bind
    | apply mild_ret | apply mild_select | apply mild_bump
    | apply mild_CreateUserEmail | apply mild_CreatePasswordReset | apply mild_CreateEmailVerification
    | apply mild_DeleteUserEmail | apply mild_BumpAuthThrottle
    | apply mild_update; done
    | apply mild_update_user; [done|by left]
    | case_match ].

(** One step of a handler of which nothing needs to be remembered. *)
Ltac sf_step :=
  lazymatch goal with
  | |- sf _ _ _ (_ ≫= _) _ _ => apply sf_bind
  | |- sf _ _ _ (mret _) _ _ => apply sf_ret
  | |- sf _ _ _ clock _ _ => apply sf_clock; intros ? ? ?
  | |- sf _ _ _ (rand _) _ _ => apply sf_rand; intros ? ? ?
  | |- sf _ _ _ (rands _ _) _ _ => apply sf_rands; intros ? ? ?
  | |- sf _ _ _ (mail _ _) _ _ => apply sf_mail; intros ? ?
  | |- sf _ _ _ (Hit _) _ _ => apply sf_Hit; intros ? ? ?
  | |- sf _ _ _ (new_token _) _ _ => apply sf_new_token; intros ? ? ?
  | |- sf _ _ _ (hashPassword _ _) _ _ => apply sf_hashPassword; intros ? ? ? ?
  | |- sf _ _ _ (getTOTP _) _ _ => apply sf_getTOTP; intros ? ? ? ?
  | |- sf _ _ _ (getUser _) _ _ => apply sf_getUser; intros ? ? ? ?
  | |- sf _ _ _ (other _) _ _ => apply sf_other; [solve [mild_tac]|intros ? ? ?]
  | |- sf _ _ _ (let x := ?v in _) _ _ => cbv zeta
  | |- sf _ _ _ (match ?x with _ => _ end) _ _ => destruct x eqn:?
  end.

Ltac sf_auto := repeat (sf_step; cbv beta); try done.

Section Handlers.
Context (L : Lib) (d0 : DB) (i : nat).
Implicit Types (l : list (nat * Event)) (s : Session).

Definition done_ (l : list (nat * Event)) (w : Response) : Prop := True.

Lemma set_password_mild u h (J : Z → string → Prop) : J u h → mild J (UpdateUserPassword u h).
Proof. intros HJ. apply mild_update_user; [done|]. by right. Qed.

Lemma safe_signup ip un em pw co cookie l : (i, EvRequest (SignupSubmit ip un em pw co) cookie) ∈ l →
  sf L d0 i (signupSubmit L ip un em pw co) done_ l.
Proof.
  intros Hreq. unfold signupSubmit. sf_auto. apply sf_other; [|intros; sf_auto].
  apply mild_bind; [|intros; mild_tac]. apply mild_create_user. intros u. right.
  match goal with H : ∀ h, Ok ?a = Ok h → _ |- _ => destruct (H a eq_refl) as [salt Hs] end.
  exists i, (SignupSubmit ip un em pw co), cookie, pw, salt. split; [set_solver|done].
Qed.

Lemma safe_resetRequest em l : sf L d0 i (resetRequestSubmit L em) done_ l.
Proof. unfold resetRequestSubmit. sf_auto. Qed.

Lemma safe_resetConfirm tok pw cookie l : (i, EvRequest (ResetConfirm tok pw) cookie) ∈ l →
  sf L d0 i (resetConfirmSubmit L tok pw) done_ l.
Proof.
  intros Hreq. unfold resetConfirmSubmit. apply sf_bind. unfold lookupValidReset.
  destruct (Token.HashOf (sha256 L) tok) as [th|] eqn:Eth; [|sf_auto].
  apply sf_bind, sf_mild; [mild_tac|done|]. intros l1 [row|e] H1 Hrow; [|sf_auto].
  apply sf_bind, sf_clock. intros l2 now H2. apply sf_ret. destruct (_ || _) eqn:Eu; [by apply sf_ret|].
  apply orb_false_iff in Eu as [Eu _]. apply bool_decide_eq_false in Eu. apply dec_stable in Eu.
  sf_auto. apply sf_other; [|intros; sf_auto].
  apply mild_bind; [apply set_password_mild; right|intros; mild_tac].
  match goal with H : ∀ h, Ok ?a = Ok h → _ |- _ => destruct (H a eq_refl) as [salt Hs] end.
  exists i, (ResetConfirm tok pw), cookie, pw, salt. split; [set_solver|]. split; [done|]. split; [done|].
  exists th, row. split_and!; [done|set_solver|done|done].
Qed.

Lemma safe_verifyEmail tok l : sf L d0 i (verifyEmail L tok) done_ l.
Proof. unfold verifyEmail. sf_auto. Qed.

Lemma safe_verifyResend em l : sf L d0 i (verifyResendSubmit L em) done_ l.
Proof. unfold verifyResendSubmit. sf_auto. Qed.

Lemma safe_emailsAdd u em l : sf L d0 i (settingsEmailsAdd L u em) done_ l.
Proof. unfold settingsEmailsAdd. sf_auto. Qed.

Lemma safe_emailsResend u id l : sf L d0 i (settingsEmailsResend L u id) done_ l.
Proof. unfold settingsEmailsResend, own_email. sf_auto. Qed.

Lemma safe_emailsSetPrimary u id l : sf L d0 i (settingsEmailsSetPrimary u id) done_ l.
Proof. unfold settingsEmailsSetPrimary, own_email. sf_auto. Qed.

Lemma safe_emailsRemove u id l : sf L d0 i (settingsEmailsRemove u id) done_ l.
Proof. unfold settingsEmailsRemove. sf_auto. Qed.

Lemma safe_danger u c pw l : sf L d0 i (settingsDangerDelete L u c pw) done_ l.
Proof.
  unfold settingsDangerDelete. sf_auto. apply sf_signed_out.
  - unfold delete_account_tx. mild_tac.
  - apply (bind_ends (fun _ _ => False)). mild_tac.
  - intros. by apply sf_ret.
Qed.

Lemma safe_suspend id l : sf L d0 i (userSuspend id) done_ l.
Proof. unfold userSuspend, loadUser. sf_auto. Qed.

Lemma safe_unsuspend id l : sf L d0 i (userUnsuspend id) done_ l.
Proof. unfold userUnsuspend, loadUser. sf_auto. Qed.

Lemma safe_toggle u id l : sf L d0 i (userToggleSiteAdmin u id) done_ l.
Proof. unfold userToggleSiteAdmin, loadUser. sf_auto. Qed.

Lemma safe_adminReset id l : sf L d0 i (userResetPassword L id) done_ l.
Proof. unfold userResetPassword, loadUser. sf_auto. Qed.

End Handlers.
