(* ===== verification/SigninFlows.v ===== *)
(** * SigninFlows: signing in, second factors, sessions

    The handlers that change whom a session is bound to, or the second factor of a user, keep the invariant; with those of
    [SigninSafe], every request does, and so it holds in every reachable state. *)

From S2P Require Import Prelude GoString NetIP Encoding Credentials Session Program AuthDB Signin SigninInv SigninSafe.
Local Open Scope Z_scope.

(** Whom a request's session and user may be. *)
Definition bound (s : Session) (u : CurrentUser) : Prop :=
  ID u ≠ 0 → UserID s ≠ 0 ∧ (ID u = UserID s ∨ ImpersonatedUserID s ≠ 0).

Section Flows.
Context (L : Lib) (d0 : DB) (i : nat).
Implicit Types (l : list (nat * Event)) (s : Session).

(** ** Second factors *)

Lemma sf_verifyTOTPCode id code (Q : list (nat * Event) → res () bool → Prop) l :
  (∀ l' r, l ⊆ l' → (r = Ok true → ∃ row secret step now, (i, EvTotp id (Ok row)) ∈ l' ∧ t_ConfirmedAt row ≠ None ∧
     box_open L (t_SecretEncrypted row) (t_SecretNonce row) = Some secret ∧
     Totp.Verify (GenerateCode L) secret code now = Ok step ∧ (i, EvBump id step (Ok 1)) ∈ l') → Q l' r) →
  sf L d0 i (verifyTOTPCode L id code) Q l.
Proof.
  intros H. apply sf_bind, sf_getTOTP. intros l1 [row|e] H1 Hrow; [|by apply sf_ret, H].
  case_bool_decide as Hc; [by apply sf_ret, H|].
  destruct (box_open L _ _) as [secret|] eqn:Eb; [|by apply sf_ret, H].
  apply sf_bind, sf_clock. intros l2 now H2. destruct (Totp.Verify _ _ _ _) as [step|e] eqn:Ev; [|apply sf_ret, H; [set_solver|done]].
  apply sf_bind, sf_exec; [intros; by eapply Inv_bump|]. intros l3 r H3 Hr. apply sf_ret, H; [set_solver|].
  destruct r as [n|e]; [|done]. intros [= Hn%bool_decide_eq_true]. subst n.
  exists row, secret, step, now. split_and!; try done. auto.
Qed.

Lemma sf_consumeRecoveryCode id code (Q : list (nat * Event) → res () bool → Prop) l :
  (∀ l' r, l ⊆ l' → (r = Ok true → (i, EvConsume id (Totp.HashRecoveryCode (sha256 L) (ToUpper L) code) (Ok 1)) ∈ l') → Q l' r) →
  sf L d0 i (consumeRecoveryCode L id code) Q l.
Proof.
  intros H. apply sf_bind, sf_exec; [intros; by eapply Inv_consume|]. intros l1 r H1 Hr. apply sf_ret, H; [done|].
  destruct r as [n|e]; [|done]. intros [= Hn%bool_decide_eq_true]. by subst n.
Qed.

Lemma sf_confirmPasswordAndTOTP id pw code (Q : list (nat * Event) → res () bool → Prop) l :
  (∀ l' r, l ⊆ l' → Q l' r) → sf L d0 i (confirmPasswordAndTOTP L id pw code) Q l.
Proof.
  intros H. apply sf_bind, sf_getUser. intros l1 [user|e] H1 _; [|by apply sf_ret, H].
  destruct (Password.Verify _ _ _) as [[]|]; [|by apply sf_ret, H..].
  apply sf_verifyTOTPCode. intros l2 r H2 _. apply H. set_solver.
Qed.

(** Saving a session that is bound to nobody new; what comes after makes no difference. *)
Lemma sf_saved s w (f : bool * Session * Response → P Response) l : good L l s →
  (∀ l' x, l ⊆ l' → sf L d0 i (f x) done_ l') → sf L d0 i (Save L s w ≫= f) done_ l.
Proof. intros Hg H. apply sf_bind, sf_Save; [done|]. intros l' ok s' w' Hl. by apply H. Qed.

Lemma good_clock l s t : good L l s → good L l (set_user s (UserID s) (Pre2FAUserID s) (Epoch s) t).
Proof. intros [H1 H2 H3 H4]. by split. Qed.

Lemma safe_enableForm u l : sf L d0 i (twoFactorEnableForm L u) done_ l.
Proof.
  unfold twoFactorEnableForm. sf_auto. apply sf_exec; [intros; by eapply Inv_upsert|]. intros l9 [] H9 _; by apply sf_ret.
Qed.

Lemma safe_enableSubmit s u code l : good L l s → sf L d0 i (twoFactorEnableSubmit L s u code) done_ l.
Proof.
  intros Hg. unfold twoFactorEnableSubmit. sf_auto. apply sf_exec; [intros; by eapply Inv_confirm|].
  assert (∀ l' codes, l ⊆ l' → sf L d0 i (clock ≫= fun now => Save L (set_user s (UserID s) (Pre2FAUserID s) (Epoch s) (Unix now)) blank ≫=
    fun '(_, _, w) => mret (page "" codes w)) done_ l') as Hsave.
  { intros l8 cs Hl. apply sf_bind, sf_clock. intros l7 n7 H7. apply sf_saved; [|by intros ? [[] ?] ?; apply sf_ret].
    apply good_clock. eapply good_mono; [|done]. set_solver. }
  intros l9 [[]|] H9 _; try (by apply sf_ret); apply Hsave; set_solver.
Qed.

Lemma safe_disable u pw code l : sf L d0 i (twoFactorDisableSubmit L u pw code) done_ l.
Proof.
  apply sf_bind, sf_confirmPasswordAndTOTP. intros l1 [[]|] H1; [|by apply sf_ret..].
  apply sf_bind, sf_exec; [intros; by eapply Inv_disable|]. intros. by apply sf_ret.
Qed.

Lemma safe_regenerate u pw code l : sf L d0 i (twoFactorRegenerateSubmit L u pw code) done_ l.
Proof.
  apply sf_bind, sf_confirmPasswordAndTOTP. intros l1 [[]|] H1; [|by apply sf_ret..].
  sf_auto. apply sf_exec; [intros; by eapply Inv_regenerate|]. intros. by apply sf_ret.
Qed.

(** ** Signing in *)

Lemma safe_after_password s key id user next l : good L l s →
  (u_SuspendedAt user = None → (RequireEmailVerification L = true → u_EmailVerified user = true) → password_ok L l i id) →
  epoch_seen l id (u_SessionEpoch user) → sf L d0 i (after_password L s key id user next) done_ l.
Proof.
  intros Hg Hpw He. apply sf_bind.
  assert (sf L d0 i (if live user then mret tt else other (RestoreUserAccount id) ≫= fun _ => mret tt) (fun l' _ => l ⊆ l') l)
    as Hrestore by (destruct (live user); [by apply sf_ret|]; apply sf_bind, sf_other; [mild_tac|]; intros; by apply sf_ret).
  eapply safe_weaken; [|exact Hrestore]. intros l1 _ H1 _. case_bool_decide as Hs; [by apply sf_ret|].
  destruct (_ && _) eqn:Ev; [by apply sf_ret|].
  assert (password_ok L l1 i id) as Hp.
  { apply (password_ok_mono L l); [done|]. apply Hpw; [done|]. intros Hr. rewrite Hr in Ev. by destruct (u_EmailVerified user). }
  apply sf_bind, sf_other; [mild_tac|]. intros l2 _ H2. apply sf_bind, sf_getTOTP. intros l3 t H3 Ht.
  assert (good L l3 s) as Hg3 by (eapply good_mono; [|done]; set_solver).
  assert (password_ok L l3 i id) as Hp3 by (eapply password_ok_mono; [|done]; set_solver).
  destruct (match t with Ok _ => _ | Err _ => _ end) eqn:Ec.
  - apply sf_bind, sf_rememberCurrent; [done|]. intros l4 s4 H4 Hg4. apply sf_saved; [|intros ? [[[] ?] ?] ?; by apply sf_ret].
    apply good_set_user; try done. intros _. exists i. by eapply password_ok_mono.
  - apply sf_bind, sf_other; [mild_tac|]. intros l4 _ H4.
    apply sf_bind, sf_rememberCurrent; [by eapply good_mono|]. intros l5 s5 H5 Hg5.
    assert (l3 ⊆ l5) as H35 by set_solver.
    apply sf_sign_in; [done| |eapply epoch_seen_mono; [|done]; set_solver].
    exists i. split; [by eapply password_ok_mono|]. left. exists t. split; [by apply H35|].
    destruct t as [t|]; [|done]. by apply bool_decide_eq_false, dec_stable in Ec.
Qed.

Lemma safe_login s ip username pw next cookie l : good L l s → (i, EvRequest (LoginSubmit ip username pw next) cookie) ∈ l →
  sf L d0 i (loginSubmit L s ip username pw next) done_ l.
Proof.
  intros Hg Hreq. apply sf_bind, sf_Hit. intros l1 [|] H1; [|by apply sf_ret].
  apply sf_bind, sf_loginUser. intros l2 [[id user]|] H2 Hrow; [|by apply sf_ret]. specialize (Hrow _ eq_refl).
  apply sf_bind, sf_clock. intros l3 now H3. destruct (gone user now); [by apply sf_ret|].
  destruct (Password.Verify _ _ _) as [[]|] eqn:Ev; [|by apply sf_ret..].
  apply safe_after_password.
  - eapply good_mono; [|done]. set_solver.
  - intros Hs He. exists ip, username, pw, next, cookie, user. split_and!; try done; [set_solver|auto].
  - exists i. right. exists user. split; [done|]. right. exists (ToLower L (TrimSpace username)). auto.
Qed.

Lemma safe_after_challenge s key id next l : good L l s → authenticated L l id →
  sf L d0 i (after_challenge L s key id next) done_ l.
Proof.
  intros Hg Ha. apply sf_bind, sf_other; [mild_tac|]. intros l1 _ H1. apply sf_bind, sf_other; [mild_tac|]. intros l2 _ H2.
  apply sf_bind, sf_getUser. intros l3 [user|] H3 Hu; [|by apply sf_ret]. case_bool_decide; [by apply sf_ret|].
  apply sf_bind, sf_clock. intros l4 now H4. apply sf_sign_in.
  - eapply good_mono; [|done]. set_solver.
  - eapply authenticated_mono; [|done]. set_solver.
  - apply (epoch_seen_mono l3); [done|]. by apply (seen_user i).
Qed.

Lemma safe_challenge s ip code next cookie l : good L l s → (i, EvRequest (ChallengeSubmit ip code next) cookie) ∈ l →
  sf L d0 i (twoFactorChallengeSubmit L s ip code next) done_ l.
Proof.
  intros Hg Hreq. unfold twoFactorChallengeSubmit. case_bool_decide as Hpre; [by apply sf_ret|].
  destruct (good_pre _ _ _ Hg Hpre) as [j Hj].
  apply sf_bind, sf_Hit. intros l1 [|] H1.
  2:{ apply sf_saved; [|intros ? [[[] ?] ?] ?; by apply sf_ret]. apply (good_mono L l); [done|]. destruct Hg. by split. }
  case_bool_decide; [by apply sf_ret|]. apply sf_bind.
  assert (∀ l2, l1 ⊆ l2 → second_ok L l2 (Pre2FAUserID s) → ∀ key, sf L d0 i (after_challenge L s key (Pre2FAUserID s) next) done_ l2)
    as Hafter.
  { intros l2 H2 Hok key. apply safe_after_challenge; [eapply good_mono; [|done]; set_solver|]. exists j.
    split; [|by right]. eapply password_ok_mono; [|done]. set_solver. }
  destruct (Totp.LooksLikeRecoveryCode _ _).
  - apply sf_consumeRecoveryCode. intros l2 [[]|] H2 Hr; [|by apply sf_ret..]. apply Hafter; [done|].
    exists i, ip, code, next, cookie. split; [set_solver|]. left. by apply Hr.
  - apply sf_verifyTOTPCode. intros l2 [[]|] H2 Hr; [|by apply sf_ret..]. apply Hafter; [done|].
    exists i, ip, code, next, cookie. split; [set_solver|]. right. by apply Hr.
Qed.

(** ** Sessions that are there *)

Lemma safe_switch s v uid ret ref host l : good L l s → sf L d0 i (accountSwitchSubmit L s v uid ret ref host) done_ l.
Proof.
  intros Hg. unfold accountSwitchSubmit. cbv zeta. destruct (ParseInt _) as [target|]; [|by apply sf_ret].
  case_bool_decide; [by apply sf_ret|]. case_bool_decide; [by apply sf_ret|].
  destruct (FindAccount s target) as [a|] eqn:Ef; [|by apply sf_ret].
  assert (a_UserID a = target ∧ authenticated L l target ∧ epoch_seen l target (a_Epoch a)) as (Ha & Hauth & Hep).
  { unfold FindAccount in Ef. case_bool_decide; [done|]. apply head_Some in Ef as [tl Ef].
    assert (a ∈ filter (fun a => a_UserID a = target) (Accounts s)) as Hin by (rewrite Ef; by constructor).
    apply list_elem_of_filter in Hin as [Ha Hin]. subst target. split; [done|].
    pose proof (good_accounts _ _ _ Hg) as Hacc. rewrite Forall_forall in Hacc. by apply Hacc. }
  apply sf_bind, sf_getUser. intros l1 user H1 Hu.
  assert (∀ f, sf L d0 i (Save L (ForgetAccount s target) blank ≫= fun '(ok, _, w) => mret (f ok w)) done_ l1) as Hforget.
  { intros f. apply sf_saved; [|intros ? [[[] ?] ?] ?; by apply sf_ret]. apply good_forget. by eapply good_mono. }
  destruct user as [user|[]]; try (by apply sf_ret).
  2:{ apply (Hforget (fun _ w => HTTPError 403 w)). }
  case_bool_decide; [apply (Hforget (fun _ w => HTTPError 403 w))|].
  case_bool_decide; [apply (Hforget (fun (ok : bool) w => if ok then Redirect _ w else HTTPError 500 w))|].
  apply sf_bind, sf_rememberCurrent; [by eapply good_mono|]. intros l2 s2 Hl2 Hg2.
  assert (authenticated L l2 target) as Ha2 by (eapply authenticated_mono; [|done]; set_solver).
  assert (epoch_seen l2 target (u_SessionEpoch user)) as He2 by (apply (epoch_seen_mono l1); [done|]; by apply (seen_user i)).
  apply sf_bind, sf_rememberUserAccount; [apply good_set_impersonation, good_set_user; auto; done|done|done|].
  intros l3 s3 Hl3 Hg3. apply sf_saved; [done|]. intros ? [[[] ?] ?] ?; by apply sf_ret.
Qed.

(** The epoch read is that of the session's user, or the request is that of somebody who views as another. *)
Lemma good_rebind l s u e r f cookie : good L l s → bound s u → ID u ≠ 0 → epoch_seen l (ID u) e →
  (i, EvRequest f cookie) ∈ l → (i, EvLoaded s) ∈ l → match f with LogoutEverywhere | PasswordSubmit _ _ _ => True | _ => False end →
  good L l (set_user s (UserID s) (Pre2FAUserID s) e r).
Proof.
  intros Hg Hb Hu He Hreq Hload Hf. destruct (Hb Hu) as [Hs Hid]. destruct Hg as [G1 G2 G3 G4].
  apply good_set_user; try done. intros _. destruct Hid as [<-|Himp]; [by left|right].
  exists i, f, cookie, s. auto.
Qed.

Lemma safe_logoutAll s u cookie l : good L l s → bound s u → ID u ≠ 0 → (i, EvRequest LogoutEverywhere cookie) ∈ l →
  (i, EvLoaded s) ∈ l → sf L d0 i (settingsSessionsLogoutAll L s u) done_ l.
Proof.
  intros Hg Hb Hu Hreq Hload. apply sf_bind, sf_signed_out; [apply mild_bump|apply bump_ends|]. intros l1 [|] H1; [|by apply sf_ret].
  apply sf_bind, sf_epoch. intros l2 [e|] H2 He; [|by apply sf_ret]. assert (l ⊆ l2) as H02 by set_solver.
  apply sf_saved; [|intros ? [[[] ?] ?] ?; by apply sf_ret].
  apply (good_rebind _ _ u _ _ LogoutEverywhere cookie); auto; [by eapply good_mono|]. exists i. by left.
Qed.

Lemma sf_recentAuthOK s u (Q : list (nat * Event) → bool → Prop) l : (∀ l' b, l ⊆ l' → Q l' b) → sf L d0 i (recentAuthOK s u) Q l.
Proof.
  intros H. apply sf_bind, sf_getTOTP. intros l1 [row|] H1 _; [|by apply sf_ret, H].
  case_bool_decide; [by apply sf_ret, H|]. case_bool_decide; [by apply sf_ret, H|].
  apply sf_bind, sf_clock. intros l2 now Hl2. apply sf_ret, H. set_solver.
Qed.

Lemma change_password_mild (J : Z → string → Prop) u h : J u h → mild J (change_password_tx u h).
Proof. intros HJ. apply mild_bind; [by apply set_password_mild|]. intros _. apply mild_bump. Qed.

Lemma new_password_ok next confirm : validateNewPassword L next confirm = "" → confirm = next.
Proof. unfold validateNewPassword. case_bool_decide; [done|]. case_bool_decide; [done|]. by case_match. Qed.

Lemma safe_password s u cur next conf cookie l : good L l s → bound s u → ID u ≠ 0 →
  (i, EvRequest (PasswordSubmit cur next conf) cookie) ∈ l → (i, EvLoaded s) ∈ l → (i, EvBound s u) ∈ l →
  sf L d0 i (settingsPasswordSubmit L s u cur next conf) done_ l.
Proof.
  intros Hg Hb Hu Hreq Hload Hbound. apply sf_bind, sf_recentAuthOK. intros l1 [] H1; [|by apply sf_ret]. cbn [negb].
  apply sf_bind, sf_getUser. intros l2 [row|] H2 Hrow; [|by apply sf_ret].
  destruct (correct L cur row) eqn:Ec; [|by apply sf_ret]. cbn [negb].
  destruct (bool_decide (validateNewPassword _ _ _ = "")) eqn:Ev; [|by apply sf_ret]. cbn [negb].
  apply bool_decide_eq_true, new_password_ok in Ev. subst conf.
  case_bool_decide; [by apply sf_ret|]. apply sf_bind, sf_hashPassword. intros l3 [h|] H3 Hh; [|by apply sf_ret].
  destruct (Hh h eq_refl) as [salt Hs]. assert (l ⊆ l3) as H03 by set_solver.
  apply sf_bind, sf_signed_out.
  { apply change_password_mild. right. exists i, (PasswordSubmit cur next next), cookie, next, salt. split_and!; [auto|done|done|done|].
    exists s, u, row. split_and!; [auto|done|auto|done]. }
  { apply (bind_ends (fun _ _ => True)). by apply set_password_mild. }
  intros l4 [|] H4; [|by apply sf_ret]. apply sf_bind, sf_epoch. intros l5 [e|] H5 He; [|by apply sf_ret].
  assert (l ⊆ l5) as H05 by set_solver. apply sf_saved; [|intros ? [[[] ?] ?] ?; by apply sf_ret].
  apply (good_rebind _ _ u _ _ (PasswordSubmit cur next next) cookie); auto; [by eapply good_mono|]. exists i. by left.
Qed.

(** ** The session is loaded, the user bound *)

Definition vouched l (cookie : option string) : Prop := ∀ now, good L l (Load (sealing L) cookie now).

Lemma vouched_unforged d l cookie : Inv L d0 d l → unforged L cookie l → vouched l cookie.
Proof.
  intros Hi Hc now. destruct (Hc now) as [->|(j & v & Hs)]; [apply good_empty|]. by apply (inv_sealed _ _ _ _ Hi j _ v).
Qed.

Lemma vouched_mono l l' cookie : l ⊆ l' → vouched l cookie → vouched l' cookie.
Proof. intros Hl H now. by apply (good_mono L l). Qed.

Lemma sf_SessionLoader cookie (Q : list (nat * Event) → Session → Prop) l : vouched l cookie →
  (∀ l' s, l ⊆ l' → good L l' s → (i, EvLoaded s) ∈ l' → Q l' s) → sf L d0 i (SessionLoader L cookie) Q l.
Proof.
  intros Hv H env d l' Hl Hi. split; [apply (Inv_calm L d0 d); [done|apply keeps_refl|done]|].
  apply H; [set_solver| |by constructor]. apply (vouched_mono l); [set_solver|done].
Qed.

(** What a lookup found, or that it failed. *)
Definition looked_up l id (r : option UserLookupResult) : Prop :=
  match r with
  | None => lookup_failed l i id
  | Some r => ∃ row, (i, EvUser id (Ok row)) ∈ l ∧ l_SessionEpoch r = u_SessionEpoch row ∧ l_IsSiteAdmin r = u_IsSiteAdmin row
  end.

Lemma sf_lookup id (Q : list (nat * Event) → option UserLookupResult → Prop) l : (∀ l' r, l ⊆ l' → looked_up l' id r → Q l' r) →
  sf L d0 i (lookup_user id) Q l.
Proof.
  intros H. apply sf_bind, sf_getUser. intros l1 [row|e] H1 Hr; [|apply sf_ret, H; [done|exists e; by left]].
  apply sf_bind, sf_mild; [apply mild_select|done|].
  intros l2 [b|e] H2 Hr2; apply sf_ret, H; [set_solver|exists row; auto|set_solver|exists e; by right].
Qed.

Lemma bind_user_ok l s res u : UserID s ≠ 0 → authenticated L l (UserID s) → looked_up l (UserID s) res → bind_user s res = Some u →
  ID u = UserID s ∧ bind_ok L l i s u ∧ (IsSiteAdmin u = true → ∃ row, current l i s row ∧ u_IsSiteAdmin row = true).
Proof.
  intros Hs Ha Hl. unfold bind_user. destruct res as [r|]; cbn in Hl.
  - destruct Hl as (row & Hrow & He & Hadm). case_bool_decide as Hep; [done|]. intros [= <-].
    assert (current l i s row) as Hc by (split; [done|congruence]).
    split_and!; [done| |intros Hx; cbn in Hx; exists row; split; [done|congruence]].
    intros _. split_and!; [done|done|]. left. split; [done|]. right. exists row. done.
  - intros [= <-]. split_and!; [done| |done]. intros _. split_and!; [done|done|]. left. split; [done|]. by left.
Qed.

Lemma sf_OptionalUser s (Q : list (nat * Event) → CurrentUser → Prop) l : good L l s →
  (∀ l' u, l ⊆ l' → bound s u → bind_ok L l' i s u → Q l' u) → sf L d0 i (OptionalUser s) Q l.
Proof.
  intros Hg H. assert (∀ l', l ⊆ l' → Q l' nobody) as Hno by (intros l' Hl; by apply H).
  unfold OptionalUser. case_bool_decide as Hs; [by apply sf_ret, Hno|].
  apply sf_bind, sf_lookup. intros l1 res H1 Hres. destruct (bind_user s res) as [u|] eqn:Eb; [|by apply sf_ret, Hno].
  assert (authenticated L l1 (UserID s)) as Ha by (apply (authenticated_mono L l); [done|]; by apply Hg).
  destruct (bind_user_ok l1 s res u Hs Ha Hres Eb) as (Hid & Hok & Hadm).
  assert (bound s u) as Hb by (intros _; auto).
  destruct (bool_decide (ImpersonatedUserID s ≠ 0)) eqn:Ei; [|by apply sf_ret, H]. apply bool_decide_eq_true in Ei.
  destruct (IsSiteAdmin u) eqn:Eu; [|by apply sf_ret, H]. apply sf_bind, sf_lookup. intros l2 res2 H2 _. apply sf_ret.
  destruct res2 as [r|].
  - apply H; [set_solver|intros _; auto|]. intros _. split_and!; [done|by eapply authenticated_mono|]. right.
    destruct (Hadm eq_refl) as (row & [Hr He] & Hx). split_and!; try done. exists row. split; [|done]. split; auto.
  - apply H; [set_solver|done|by apply (bind_ok_mono L l1)].
Qed.

Lemma safe_impersonateStart cookie id l : vouched l cookie → sf L d0 i (impersonateStart L cookie id) done_ l.
Proof.
  intros Hv. apply sf_bind. unfold loadUser. sf_auto.
  - apply sf_SessionLoader; [eapply vouched_mono; [|done]; set_solver|]. intros l8 s8 H8 Hg _.
    apply sf_bind, sf_clock. intros l9 now H9. apply sf_saved; [|intros ? [[[] ?] ?] ?; by apply sf_ret].
    apply good_set_impersonation. by eapply good_mono.
Qed.

Lemma safe_impersonateStop cookie l : vouched l cookie → sf L d0 i (impersonateStop L cookie) done_ l.
Proof.
  intros Hv. apply sf_bind, sf_SessionLoader; [done|]. intros l1 s H1 Hg _.
  apply sf_saved; [by apply good_set_impersonation|]. intros ? [[[] ?] ?] ?; by apply sf_ret.
Qed.

Lemma safe_enableWrites cookie confirm l : vouched l cookie → sf L d0 i (impersonateEnableWrites L cookie confirm) done_ l.
Proof.
  intros Hv. apply sf_bind, sf_SessionLoader; [done|]. intros l1 s H1 Hg _. case_bool_decide; [by apply sf_ret|].
  apply sf_bind, sf_getUser. intros l2 [u|] H2 _; [|by apply sf_ret]. case_bool_decide; [|by apply sf_ret].
  apply sf_saved; [apply good_set_impersonation; by eapply good_mono|]. intros ? [[[] ?] ?] ?; by apply sf_ret.
Qed.

(** ** Requests *)

Lemma sf_RequireUser u h l : (ID u ≠ 0 → sf L d0 i h done_ l) → sf L d0 i (RequireUser u h) done_ l.
Proof. intros H. unfold RequireUser. case_bool_decide; [by apply sf_ret|auto]. Qed.

Lemma sf_RequireSiteAdmin u h l : sf L d0 i h done_ l → sf L d0 i (RequireSiteAdmin u h) done_ l.
Proof. intros H. apply sf_RequireUser. intros _. destruct (IsSiteAdmin u); [done|by apply sf_ret]. Qed.

Lemma sf_RequireBox u h l : sf L d0 i h done_ l → sf L d0 i (RequireBox L u h) done_ l.
Proof. intros H. unfold RequireBox. destruct (two_factor_available L); [by apply sf_RequireUser|by apply sf_ret]. Qed.

Create HintDb flows.
#[local] Hint Resolve safe_signup safe_login safe_challenge safe_resetRequest safe_resetConfirm safe_verifyEmail safe_verifyResend
  safe_switch safe_logoutAll safe_password safe_danger safe_emailsAdd safe_emailsResend safe_emailsSetPrimary safe_emailsRemove
  safe_enableForm safe_enableSubmit safe_disable safe_regenerate safe_impersonateStart safe_impersonateStop safe_enableWrites
  safe_suspend safe_unsuspend safe_toggle safe_adminReset : flows.

Lemma safe_route s u cookie f l : good L l s → bound s u → vouched l cookie → (i, EvRequest f cookie) ∈ l → (i, EvLoaded s) ∈ l →
  (i, EvBound s u) ∈ l → sf L d0 i (route L s u cookie f) done_ l.
Proof.
  intros Hg Hb Hv Hreq Hload Hbound. destruct f; cbn [route];
    first [apply sf_RequireSiteAdmin|apply sf_RequireBox|apply sf_RequireUser; intros Hu|idtac]; eauto with flows.
  - by apply sf_ret.
  - destruct admin; [by apply sf_RequireSiteAdmin, sf_ret|]. destruct user; [|by apply sf_ret].
    apply sf_RequireUser. intros _. by apply sf_ret.
Qed.

Lemma safe_serve cookie f l : vouched l cookie → (i, EvRequest f cookie) ∈ l → sf L d0 i (serve L cookie f) done_ l.
Proof.
  intros Hv Hreq. apply sf_bind, sf_SessionLoader; [done|]. intros l1 s H1 Hg Hs.
  apply sf_bind, sf_OptionalUser; [done|]. intros l2 u H2 Hb Hok.
  intros env d l3 H3 Hi. split; [apply Inv_bind; [done|by apply (bind_ok_mono L l2)]|]. cbn [tag rev app fmap list_fmap].
  assert (l2 ⊆ (i, EvBound s u) :: l3) as H23 by set_solver. assert (l ⊆ (i, EvBound s u) :: l3) as H03 by set_solver.
  apply safe_route; auto; [eapply good_mono; [|done]; set_solver|by eapply vouched_mono|by constructor].
Qed.

Lemma safe_clear2FA username l : sf L d0 i (clear2FA L username) done_ l.
Proof.
  apply sf_bind, sf_other; [mild_tac|]. intros l1 [[id row]|] H1; [|by apply sf_ret]. destruct (live row); [|by apply sf_ret].
  apply sf_bind, sf_exec; [intros; by eapply Inv_disable|]. intros. by apply sf_ret.
Qed.

End Flows.

(** ** Every reachable state *)

(** Tables, requests, history. *)
Definition State : Type := World (DB := DB) (E := DBErr) (Ev := Event) Response.

Section Reachable.
Context (L : Lib) (d0 : DB).

Definition start : State := MkWorld d0 [] [].

Lemma Inv_start : ids d0 → Inv L d0 d0 [].
Proof.
  intros Hi. split; try done.
  - intros i s v H. by apply not_elem_of_nil in H.
  - intros i s v H. by apply not_elem_of_nil in H.
  - intros u e (i & [H|(row & _ & [H|[x H]])]); by apply not_elem_of_nil in H.
  - intros u row H. left. eauto.
Qed.

Lemma arrive_safe d l i e p : Inv L d0 d l → arrive L l e p →
  Inv L d0 d ((i, e) :: l) ∧ safe Fault_ (Inv L d0) i p (fun _ _ => True) ((i, e) :: l).
Proof.
  intros Hi Ha. split.
  - apply (Inv_calm L d0 d); [done|apply keeps_refl|]. by destruct Ha.
  - destruct Ha as [l cookie f Hc|l username].
    + apply safe_serve; [|by constructor]. apply (vouched_mono L l); [set_solver|]. by apply (vouched_unforged L d0 d).
    + apply safe_clear2FA.
Qed.

Lemma Inv_elsewhere d d' l : Inv L d0 d l → elsewhere d d' → Inv L d0 d' l.
Proof.
  intros Hi He. destruct (elsewhere_keeps (justified L d0 l) d d' He (inv_ids _ _ _ _ Hi)) as (Hids & Ht & Hc & Hep & Hpw).
  split; [apply Hi|apply Hi| |apply Hi| |done| | | |apply Hi].
  - intros s Ho Hne. destruct (inv_outdated _ _ _ _ Hi s Ho Hne) as (row & Hu & Hlt). destruct (Hep _ row Hu) as (row' & Hu' & Hle).
    exists row'. split; [done|lia].
  - intros u e (row & Hu & Hle)%(inv_epochs _ _ _ _ Hi). destruct (Hep u row Hu) as (row' & Hu' & Hle'). exists row'. split; [done|lia].
  - intros u row' Hu. destruct (Hpw u row' Hu) as [(row & Hr & ->)|]; [by apply (inv_passwords _ _ _ _ Hi)|done].
  - rewrite Ht. apply Hi.
  - rewrite Hc. apply Hi.
Qed.

Lemma reachable_Inv w : ids d0 → rtc (sstep L) start w → Inv L d0 (w_db w) (w_log w).
Proof.
  intros Hids Hr. apply (world_invariant Fault_ (Inv L d0) (arrive L) elsewhere start w).
  - apply arrive_safe.
  - apply Inv_elsewhere.
  - done.
  - split; [by apply Inv_start|]. done.
Qed.

End Reachable.
