(* ===== verification/SigninFacts.v ===== *)
(** * SigninFacts: what sign-in guarantees

    For every interleaving of requests, with any failures of the database in between: who may be bound to a request, when
    a session ends, that a second factor is used once, where passwords come from.  And the round trip of the cookie. *)

From S2P Require Import Prelude GoString NetIP Encoding Credentials Session Program AuthDB Signin SigninInv SigninSafe SigninFlows.
Local Open Scope Z_scope.

(** ** A small world *)

(** A library in which sealing changes nothing and every cookie that opens is [s0]; the codes of every secret are 123456. *)
Definition toy (s0 : Session) : Lib :=
  MkLib (MkSealing (fun _ t => t) (fun _ t => Some t) (fun _ => "S") (fun t => if bool_decide (t = "S") then Some s0 else None) 3600)
    (fun pw _ _ _ _ _ => pw) (fun s => s) (fun s => s) (fun s => s) (fun _ _ => Some "123456")
    (fun a b => bool_decide (a = b)) (fun _ => None) (fun s => s) (fun _ t => t) (fun t _ => Some t) ""
    (fun _ _ => false) (Password.MkParams 1 1 1 4 5) false true.

Fixpoint zeros (n : nat) : string := match n with O => "" | S n => String "0" (zeros n) end.

(** Every statement is executed; every random byte is a zero digit. *)
Definition calm_at (seconds : Z) : Env := MkEnv (seconds * second) Fine (fun n => Some (zeros n)) true.

(** A request that runs to its end while no other does. *)
Definition serve_in (L : Lib) (envs : nat → Env) (cookie : option string) (f : Form) (w : State) : State :=
  let i := length (w_threads w) in
  let '(a, d, evs) := run Fault_ (serve L cookie f) envs 0 (w_db w) in
  MkWorld d (w_threads w ++ [Ret a]) (tag i evs ++ (i, EvRequest f cookie) :: w_log w).

Lemma serve_in_steps L envs cookie f w : unforged L cookie (w_log w) → rtc (sstep L) w (serve_in L envs cookie f w).
Proof.
  intros Hc. destruct w as [d ts l]. unfold serve_in. cbn [w_db w_threads w_log] in *.
  pose proof (run_steps Fault_ (arrive L) elsewhere (serve L cookie f) envs 0 (length ts) (ts ++ [serve L cookie f]) d
    ((length ts, EvRequest f cookie) :: l) (list_lookup_middle ts [] _ _ eq_refl)) as H.
  destruct (run Fault_ (serve L cookie f) envs 0 d) as [[a d'] evs].
  rewrite (insert_app_r_alt ts [serve L cookie f] (length ts)), Nat.sub_diag in H by lia. cbn [list_insert insert] in H.
  eapply rtc_l; [apply W_arrive, A_request, Hc|exact H].
Qed.

Lemma unforged_none L l : unforged L None l.
Proof. intros now. by left. Qed.

Lemma unforged_toy s0 cookie l i v : (i, EvSealed s0 v) ∈ l → unforged (toy s0) cookie l.
Proof.
  intros Hs now. unfold Load. destruct cookie; [|by left]. destruct (RawDecodeString _ _) as [raw|]; [|by left].
  case_bool_decide; [by left|]. cbn. case_bool_decide; [|by left]. destruct (_ && _); [by left|right; eauto].
Qed.

Definition alice : UserRow :=
  MkUser "alice" "Alice" (Password.encode (Password.MkParams 1 1 1 4 5) "salt" "correct horse") None true None None 0 false None.

Definition with_alice (t : option TotpRow) : DB :=
  MkDB {[1 := alice]} 2 match t with Some t => {[1 := t]} | None => ∅ end ∅ [] 1 [] 1 [] 1 ∅.

Definition signed_in (now : Z) : Session :=
  MkSession 1 0 0 0 "" "" [] ∅ [MkAccount 1 "alice" "Alice" 0 0 now] now 0 false 0.

(** Alice signs in, goes on a page, signs out everywhere; her first cookie comes back, and comes back once more when the
    database refuses the lookup. *)
Definition her : Lib := toy (signed_in 1000).
Definition her_cookie : string := "MDAwMDAwMDAwMDAwUw".
Definition at_ (seconds : Z) : nat → Env := fun _ => calm_at seconds.
Definition refused_at (n : nat) (seconds : Z) : nat → Env :=
  fun k => if bool_decide (k = n) then MkEnv (seconds * second) Refused (fun n => Some (zeros n)) true else calm_at seconds.

Definition w0 := start (with_alice None).
Definition w1 := serve_in her (at_ 1000) None (LoginSubmit "::1" "alice" "correct horse" "") w0.
Definition w2 := serve_in her (at_ 1001) (Some her_cookie) (OtherPage true false) w1.
Definition w3 := serve_in her (at_ 1002) (Some her_cookie) LogoutEverywhere w2.
Definition w4 := serve_in her (at_ 1003) (Some her_cookie) (OtherPage true false) w3.
Definition w5 := serve_in her (refused_at 1 1004) (Some her_cookie) (OtherPage true false) w4.

Definition responses (w : State) : list (option Z * string * option (option string)) :=
  omap (fun p => match p with Ret r => Some (rs_status r, rs_location r, rs_cookie r) | _ => None end) (w_threads w).

Example w5_responses : responses w5 =
  [(Some 303, "/explore", Some (Some her_cookie)); (Some 200, "", None); (Some 200, "", Some (Some her_cookie));
   (Some 303, "/login", None); (Some 200, "", None)].
Proof. vm_compute. reflexivity. Qed.

Lemma ids_alice t : ids (with_alice t).
Proof. intros u row. cbn. rewrite lookup_singleton_Some. intros [<- _]. done. Qed.

(** Computes the history and looks for the event. *)
Ltac find_event := vm_compute; repeat first [apply list_elem_of_here | apply list_elem_of_further].

Lemma serve_in_rtc L envs cookie f w w' : rtc (sstep L) w w' → unforged L cookie (w_log w') → rtc (sstep L) w (serve_in L envs cookie f w').
Proof. intros H Hc. etrans; [exact H|by apply serve_in_steps]. Qed.

Lemma her_unforged (w : State) : (0%nat, EvSealed (signed_in 1000) her_cookie) ∈ w_log w → unforged her (Some her_cookie) (w_log w).
Proof. apply unforged_toy. Qed.

Lemma w1_steps : rtc (sstep her) w0 w1.
Proof. apply serve_in_steps, unforged_none. Qed.

Lemma w2_steps : rtc (sstep her) w0 w2.
Proof. apply serve_in_rtc; [apply w1_steps|]. apply her_unforged. find_event. Qed.

Lemma w5_steps : rtc (sstep her) w0 w5.
Proof.
  apply serve_in_rtc; [apply serve_in_rtc; [apply serve_in_rtc; [apply w2_steps|]|]|]; apply her_unforged; find_event.
Qed.

(** ** Suffixes of a history *)

Lemma uses_ok_app l2 l1 : uses_ok (l2 ++ l1) → uses_ok l1.
Proof. induction l2 as [|[i e] l2 IH]; [done|]. intros [H _]. by apply IH. Qed.

Lemma reads_ok_app l2 l1 : reads_ok (l2 ++ l1) → reads_ok l1.
Proof. induction l2 as [|[i e] l2 IH]; [done|]. intros [H _]. by apply IH. Qed.

Lemma outdated_app l2 l1 s : outdated l1 s → outdated (l2 ++ l1) s.
Proof. intros H. induction l2 as [|[i e] l2 IH]; [done|]. cbn. destruct e; try done. destruct r; [by right|done]. Qed.

(** A request that began after the sessions of a user were ended reads an epoch above that of every cookie there was. *)
Lemma read_after L d0 d l2 k u l1 j s v i row : Inv L d0 d (l2 ++ (k, EvSignedOut u (Ok ())) :: l1) →
  (j, EvSealed s v) ∈ l1 → UserID s = u → u ≠ 0 → ¬ borrowed l1 u → Forall (fun p => p.1 ≠ i) l1 →
  (i, EvUser u (Ok row)) ∈ l2 ++ (k, EvSignedOut u (Ok ())) :: l1 → Epoch s < u_SessionEpoch row.
Proof.
  intros Hi Hs Hu Hne Hb Hnew Hin. assert (outdated ((k, EvSignedOut u (Ok ())) :: l1) s) as Ho by (left; eauto).
  apply elem_of_app in Hin as [Hin|[Heq|Hin]%elem_of_cons]; [|done|].
  - apply list_elem_of_split in Hin as (a & b & ->). pose proof (inv_reads _ _ _ _ Hi) as Hr.
    rewrite <- app_assoc in Hr. apply reads_ok_app in Hr as [_ Hr]. apply Hr; [done|done|]. by apply outdated_app.
  - rewrite Forall_forall in Hnew. by destruct (Hnew _ Hin).
Qed.

Lemma not_borrowed l u : Forall (fun p => match p.2 with EvLoaded s => ImpersonatedUserID s = 0 | _ => True end) l → ¬ borrowed l u.
Proof. intros H (i & f & c & s & _ & Hs & _ & Hi & _). rewrite Forall_forall in H. exact (Hi (H _ Hs)). Qed.

(** ** Theorems *)

(** C2: In every reachable state of any interleaving of requests, whoever a request was bound to had signed in: with the
    password that fits, not suspended, and, unless no confirmed second factor was found, with an accepted code; the session's
    epoch was the user's, or the lookup failed and no administrator's rights came with it; another identity than the
    session's user is given only to a site administrator, and without those rights. *)
Theorem identity_provenance (L : Lib) (d0 : DB) (w : State) (i : nat) (s : Session) (cu : CurrentUser) :
  ids d0 → rtc (sstep L) (start d0) w → (i, EvBound s cu) ∈ w_log w → bind_ok L (w_log w) i s cu.
Proof. intros Hids Hr Hb. by apply (inv_binds _ _ _ _ (reachable_Inv L d0 w Hids Hr)). Qed.

Lemma identity_provenance_witness :
  (ids (with_alice None) ∧ rtc (sstep her) w0 w2 ∧ ∃ cu, (1%nat, EvBound (signed_in 1000) cu) ∈ w_log w2 ∧ ID cu = 1) ∧
  authenticated her (w_log w2) 1.
Proof.
  assert (∃ cu, (1%nat, EvBound (signed_in 1000) cu) ∈ w_log w2 ∧ ID cu = 1) as (cu & Hb & Hid) by (eexists; split; [find_event|reflexivity]).
  split; [split; [apply ids_alice|split; [apply w2_steps|eauto]]|].
  destruct (identity_provenance her (with_alice None) w2 1 (signed_in 1000) cu) as (_ & Ha & _); [apply ids_alice|apply w2_steps|done|by rewrite Hid|done].
Defined.

(** C5: Once the sessions of a user have been ended (by signing out everywhere, a new password, or the deletion of the
    account), a request that begins later with a cookie from before is not bound, unless the database fails to find the user;
    then without an administrator's rights.  Excepted is a user who, while viewing as somebody else, had signed out or
    changed a password. *)
Theorem log_out_everywhere (L : Lib) (d0 : DB) (w : State) (l2 l1 : list (nat * Event)) (k j i : nat) (s : Session) (v : string)
    (cu : CurrentUser) :
  ids d0 → rtc (sstep L) (start d0) w → w_log w = l2 ++ (k, EvSignedOut (UserID s) (Ok ())) :: l1 →
  (j, EvSealed s v) ∈ l1 → ¬ borrowed l1 (UserID s) → Forall (fun p => p.1 ≠ i) l1 →
  (i, EvBound s cu) ∈ w_log w → ID cu ≠ 0 → lookup_failed (w_log w) i (UserID s) ∧ ID cu = UserID s ∧ IsSiteAdmin cu = false.
Proof.
  intros Hids Hr Hlog Hs Hnb Hnew Hb Hid. pose proof (reachable_Inv L d0 w Hids Hr) as Hi.
  destruct (inv_binds _ _ _ _ Hi i s cu Hb Hid) as (Hne & _ & Hc).
  assert (∀ row, ¬ current (w_log w) i s row) as Hold.
  { intros row [Hrow He]. rewrite Hlog in Hi, Hrow. pose proof (read_after _ _ _ _ _ _ _ _ _ _ _ _ Hi Hs eq_refl Hne Hnb Hnew Hrow). lia. }
  destruct Hc as [[E [[Hf Ha]|(row & Hrow & _)]]|(_ & _ & _ & row & Hrow & _)]; [done|by destruct (Hold row)..].
Qed.

Definition unnamed : CurrentUser := MkCurrent 1 "" false false false [] 0 0 false.

Lemma log_out_everywhere_witness :
  (rtc (sstep her) w0 w5 ∧ w_log w5 = take 11 (w_log w5) ++ (2%nat, EvSignedOut 1 (Ok ())) :: drop 12 (w_log w5) ∧
   (0%nat, EvSealed (signed_in 1000) her_cookie) ∈ drop 12 (w_log w5) ∧
   (4%nat, EvBound (signed_in 1000) unnamed) ∈ w_log w5) ∧
  lookup_failed (w_log w5) 4 1.
Proof.
  assert (w_log w5 = take 11 (w_log w5) ++ (2%nat, EvSignedOut 1 (Ok ())) :: drop 12 (w_log w5)) as Hlog by (vm_compute; reflexivity).
  assert ((0%nat, EvSealed (signed_in 1000) her_cookie) ∈ drop 12 (w_log w5)) as Hs by find_event.
  assert ((4%nat, EvBound (signed_in 1000) unnamed) ∈ w_log w5) as Hb by find_event.
  split; [split_and!; [apply w5_steps|done..]|].
  apply (log_out_everywhere her (with_alice None) w5 _ _ 2 0 4 (signed_in 1000) her_cookie unnamed (ids_alice None) w5_steps Hlog Hs);
    [apply not_borrowed; vm_compute; repeat constructor|vm_compute; repeat constructor; discriminate|exact Hb|discriminate].
Defined.

(** C6: In every reachable state, each second factor that was accepted was new: the step of a one-time code was above the step
    accepted last for the user since the enrolment last changed, and a recovery code had not been accepted since it was issued;
    two requests at the same time with the same code included. *)
Theorem second_factor_once (L : Lib) (d0 : DB) (w : State) (l2 l1 : list (nat * Event)) (i : nat) (u : Z) :
  ids d0 → rtc (sstep L) (start d0) w →
  (∀ step last, w_log w = l2 ++ (i, EvBump u step (Ok 1)) :: l1 → floor l1 u = Some last → last < step) ∧
  (∀ h, w_log w = l2 ++ (i, EvConsume u h (Ok 1)) :: l1 → spent l1 h = false).
Proof.
  intros Hids Hr. pose proof (inv_uses _ _ _ _ (reachable_Inv L d0 w Hids Hr)) as Hu.
  split; [intros step last Hlog Hl|intros h Hlog]; rewrite Hlog in Hu; apply uses_ok_app in Hu as [_ Hu]; [by apply Hu|done].
Qed.

(** With a second factor: the code of 16:40 is accepted, not accepted again, and the code of 17:40 is. *)
Definition enrolled : option TotpRow := Some (MkTotp "secret" "nonce" (Some 0) 0).
Definition halfway : Lib := toy (MkSession 0 1 0 0 "" "" [] ∅ [] 1000 0 false 0).
Definition c1 := serve_in halfway (at_ 1000) None (LoginSubmit "::1" "alice" "correct horse" "") (start (with_alice enrolled)).
Definition c2 := serve_in halfway (at_ 1000) (Some her_cookie) (ChallengeSubmit "::1" "123456" "") c1.
Definition c3 := serve_in halfway (at_ 1000) (Some her_cookie) (ChallengeSubmit "::1" "123456" "") c2.
Definition c4 := serve_in halfway (at_ 1060) (Some her_cookie) (ChallengeSubmit "::1" "123456" "") c3.

Example c4_responses : responses c4 =
  [(Some 303, "/login/2fa", Some (Some her_cookie)); (Some 303, "/explore", Some (Some her_cookie)); (Some 200, "", None);
   (Some 303, "/explore", Some (Some her_cookie))].
Proof. vm_compute. reflexivity. Qed.

Lemma c4_steps : rtc (sstep halfway) (start (with_alice enrolled)) c4.
Proof.
  apply serve_in_rtc; [apply serve_in_rtc; [apply serve_in_rtc; [apply serve_in_steps, unforged_none|]|]|];
    apply (unforged_toy _ _ _ 0%nat her_cookie); find_event.
Qed.

Lemma second_factor_once_witness :
  (rtc (sstep halfway) (start (with_alice enrolled)) c4 ∧ floor (drop 5 (w_log c4)) 1 = Some 32 ∧
   w_log c4 = take 4 (w_log c4) ++ (3%nat, EvBump 1 34 (Ok 1)) :: drop 5 (w_log c4)) ∧ 32 < 34.
Proof.
  assert (w_log c4 = take 4 (w_log c4) ++ (3%nat, EvBump 1 34 (Ok 1)) :: drop 5 (w_log c4)) as Hlog by (vm_compute; reflexivity).
  assert (floor (drop 5 (w_log c4)) 1 = Some 32) as Hf by (vm_compute; reflexivity).
  split; [split_and!; [apply c4_steps|done..]|].
  exact (proj1 (second_factor_once halfway (with_alice enrolled) c4 _ _ 3 1 (ids_alice enrolled) c4_steps) 34 32 Hlog Hf).
Defined.

(** C7: In every reachable state, the hash of every user's password is the one of the start, or was made of the password that
    some request was sent: a signup; a mailed link, which names this user and had not been used when it was read; or a change
    by a request bound to this user, whose current password was checked against the user's row. *)
Theorem password_provenance (L : Lib) (d0 : DB) (w : State) (u : Z) (row : UserRow) :
  ids d0 → rtc (sstep L) (start d0) w → users (w_db w) !! u = Some row → justified L d0 (w_log w) u (u_PasswordHash row).
Proof. intros Hids Hr Hu. by apply (inv_passwords _ _ _ _ (reachable_Inv L d0 w Hids Hr)). Qed.

(** Alice changes her password. *)
Definition p2 := serve_in her (at_ 1001) (Some her_cookie) (PasswordSubmit "correct horse" "battery staple" "battery staple") w1.
Definition new_hash : string := Password.encode (Password.MkParams 1 1 1 4 5) (zeros 4) "battery staple".

Lemma p2_steps : rtc (sstep her) w0 p2.
Proof. apply serve_in_rtc; [apply w1_steps|]. apply her_unforged. find_event. Qed.

Lemma password_provenance_witness :
  (rtc (sstep her) w0 p2 ∧ (u_PasswordHash <$> users (w_db p2) !! 1) = Some new_hash) ∧ justified her (with_alice None) (w_log p2) 1 new_hash.
Proof.
  assert ((u_PasswordHash <$> users (w_db p2) !! 1) = Some new_hash) as Hu by (vm_compute; reflexivity).
  split; [split; [apply p2_steps|done]|]. apply fmap_Some in Hu as (row & Hrow & ->).
  apply (password_provenance her (with_alice None) p2 1 row (ids_alice None) p2_steps Hrow).
Defined.

(** A session comes back from the cookie that Save sets, until the cookie is older than the configuration allows; then an
    empty one does.  Assumed of the cipher and of JSON is that they give back what was sealed and this session. *)
Theorem Load_encode_cookie (c : Sealing) (s : Session) (nonce : string) (now : Z) :
  (∀ n t, open c n (seal c n t) = Some t) → unmarshal c (marshal c s) = Some s → String.length nonce = NonceSize →
  Load c (Some (encode_cookie c s nonce)) now = if bool_decide (0 < IssuedAt s ∧ maxAge c < now - IssuedAt s) then empty else s.
Proof.
  intros Hopen Hjson Hn. unfold Load, encode_cookie. rewrite RawDecode_Encode by apply _.
  rewrite bool_decide_eq_false_2 by (rewrite str_length_append; lia).
  rewrite <- Hn, str_take_app, str_drop_app, Hopen, Hjson. by rewrite bool_decide_and.
Qed.

Lemma Load_encode_cookie_witness :
  (unmarshal (sealing her) (marshal (sealing her) (signed_in 1000)) = Some (signed_in 1000) ∧
   encode_cookie (sealing her) (signed_in 1000) (zeros 12) = her_cookie) ∧
  Load (sealing her) (Some her_cookie) 4600 = signed_in 1000 ∧ Load (sealing her) (Some her_cookie) 4601 = empty.
Proof.
  split; [by vm_compute|].
  split; exact (Load_encode_cookie (sealing her) (signed_in 1000) (zeros 12) _ (fun _ _ => eq_refl) eq_refl eq_refl).
Defined.

(** The pages under /admin, those of the impersonation among them. *)
Definition admin_page (f : Form) : bool :=
  match f with
  | ImpersonateStart _ | ImpersonateStop | ImpersonateEnableWrites _
  | UserSuspend _ | UserUnsuspend _ | UserToggleSiteAdmin _ | UserResetPassword _ | OtherPage _ true => true
  | _ => false
  end.

Lemma route_impersonating L s u r cookie f : ImpersonatedUserID s ≠ 0 → admin_page f = true →
  route L s (impersonate s u r) cookie f = Ret (HTTPError 404 blank).
Proof.
  intros Hi Hf. assert (∀ h, RequireSiteAdmin (impersonate s u r) h = Ret (HTTPError 404 blank)) as H.
  { intros h. unfold RequireSiteAdmin, RequireUser. cbn [ID impersonate IsSiteAdmin]. by rewrite bool_decide_eq_false_2. }
  destruct f; try done; cbn [route]; try apply H. cbn in Hf. destruct admin; [apply H|done].
Qed.

(** An administrator who views as somebody else can neither stop nor turn on writes, nor reach any page of the
    administration: when no statement fails, the answer is 404, nothing is written and no cookie set. *)
Theorem impersonating_admin_404 (L : Lib) (d : DB) (envs : nat → Env) (k : nat) (cookie : option string) (s : Session)
    (admin target : UserRow) (f : Form) :
  (∀ n, e_fault (envs n) = Fine) → (∀ n, Load (sealing L) cookie (Unix (e_now (envs n))) = s) →
  UserID s ≠ 0 → users d !! UserID s = Some admin → live admin = true → u_SessionEpoch admin = Epoch s →
  ImpersonatedUserID s ≠ 0 → users d !! ImpersonatedUserID s = Some target → live target = true →
  u_IsSiteAdmin admin = true → admin_page f = true →
  ∃ evs, run Fault_ (serve L cookie f) envs k d = (HTTPError 404 blank, d, evs) ∧ ∀ s' v, EvSealed s' v ∉ evs.
Proof.
  intros Hfine Hload Hs Hu Hlive Hep Hi Ht Htl Hadm Hf.
  assert (∀ X n (g : DB → option X) x, g d = Some x → answer Fault_ (envs n) (select g) d = (Ok x, d)) as Hsel.
  { intros X n g x Hg. unfold answer, select. by rewrite Hfine, Hg. }
  assert (∀ n id row, users d !! id = Some row → live row = true → answer Fault_ (envs n) (GetUserByID id) d = (Ok row, d)) as Hget.
  { intros n id row Hid Hl. apply Hsel. rewrite Hid. cbn. by rewrite Hl. }
  assert (∀ n id, ∃ b, answer Fault_ (envs n) (HasConfirmedUserTOTP id) d = (Ok b, d)) as Hhas by (intros; eexists; by apply Hsel).
  unfold serve, SessionLoader. cbn [mbind prog_bind bind run]. rewrite Hload.
  unfold OptionalUser. rewrite bool_decide_eq_false_2 by done. unfold lookup_user, getUser, exec. cbn [mbind prog_bind bind run].
  rewrite (Hget _ _ admin) by done. cbn [mbind prog_bind bind run]. destruct (Hhas (S (S k)) (UserID s)) as [b1 ->].
  cbn [mbind prog_bind bind run mret prog_ret]. unfold bind_user. cbn [l_SessionEpoch l_IsSiteAdmin]. rewrite (bool_decide_eq_false_2 (_ ≠ Epoch s))
    by (intros H; by apply H).
  cbn [IsSiteAdmin]. rewrite (bool_decide_eq_true_2 (ImpersonatedUserID s ≠ 0)) by done.
  rewrite Hadm. cbn [andb mbind prog_bind bind run].
  rewrite (Hget _ _ target) by done. cbn [mbind prog_bind bind run]. destruct (Hhas (S (S (S (S k)))) (ImpersonatedUserID s)) as [b2 ->].
  cbn [mbind prog_bind bind run mret prog_ret].
  rewrite route_impersonating by done. cbn [run]. eexists. split; [reflexivity|].
  intros s' v H. by repeat (apply elem_of_cons in H as [H|H]; [discriminate|]); apply not_elem_of_nil in H.
Qed.

(** Root views as alice. *)
Definition viewing : Session := MkSession 2 0 0 0 "" "" [] ∅ [] 1000 1 false 1000.
Definition root : UserRow := MkUser "root" "" "" None true None None 0 true None.
Definition with_root : DB := MkDB {[1 := alice; 2 := root]} 3 ∅ ∅ [] 1 [] 1 [] 1 ∅.

Lemma impersonating_admin_404_witness :
  (Load (sealing (toy viewing)) (Some her_cookie) 1000 = viewing ∧ users with_root !! 2 = Some root) ∧
  ∃ evs, run Fault_ (serve (toy viewing) (Some her_cookie) ImpersonateStop) (at_ 1000) 0 with_root = (HTTPError 404 blank, with_root, evs) ∧
    ∀ s' v, EvSealed s' v ∉ evs.
Proof.
  split; [split; vm_compute; reflexivity|].
  apply (impersonating_admin_404 (toy viewing) with_root (at_ 1000) 0 (Some her_cookie) viewing root alice ImpersonateStop);
    try done; vm_compute; reflexivity.
Defined.

(** ** What else follows *)

(** When the row of the second factor cannot be read, the password alone signs in. *)
Definition unread := serve_in (toy (signed_in 1000)) (refused_at 8 1000) None (LoginSubmit "::1" "alice" "correct horse" "")
  (start (with_alice enrolled)).
Example second_factor_skipped :
  responses unread = [(Some 303, "/explore", Some (Some her_cookie))] ∧ floor (w_log unread) 1 = None.
Proof. split; vm_compute; reflexivity. Qed.

(** The cookie of a deleted account is bound still: the lookup finds no row. *)
Definition deleted := serve_in her (at_ 1002) (Some her_cookie) (OtherPage true false)
  (serve_in her (at_ 1001) (Some her_cookie) (DangerDelete "alice" "correct horse") w1).
Example deleted_account_bound :
  responses deleted = [(Some 303, "/explore", Some (Some her_cookie)); (Some 303, "/?notice=account-deleted", Some None);
                       (Some 200, "", None)].
Proof. vm_compute. reflexivity. Qed.

(** A new password by a mailed link leaves the cookies of before. *)
Definition reset_link : string := EncodeToString b64_url 6 (zeros 32).
Definition with_link : DB := with_resets (w_db w1) [MkLink 1 1 (zeros 32) (2000 * second) None] 2.
Definition after_reset := serve_in her (at_ 1002) (Some her_cookie) (OtherPage true false)
  (serve_in her (at_ 1001) None (ResetConfirm reset_link "battery staple") (MkWorld with_link (w_threads w1) (w_log w1))).
Example reset_keeps_sessions :
  responses after_reset = [(Some 303, "/explore", Some (Some her_cookie)); (Some 303, "/login?notice=password-reset", None);
                           (Some 200, "", None)].
Proof. vm_compute. reflexivity. Qed.

(** After too many codes the page is out before the cookie that would drop the half-way session. *)
Definition throttled := foldr (fun n w => serve_in halfway (at_ 1000) (Some her_cookie) (ChallengeSubmit "::1" "000000" "") w) c1 (seq 0 6).
Example throttled_keeps_cookie : last (responses throttled) = Some (Some 429, "", None).
Proof. vm_compute. reflexivity. Qed.
