(* ===== verification/RateLimit.v ===== *)
(** * RateLimit: counters of requests, leases of streams, and whose budget a request spends

    internal/ratelimit with its statements, and what asks it: web/middleware (htmlratelimit.go, oauthratelimit.go),
    handlers/api (apilimit, the heartbeat of runners), handlers/search, the live logs of handlers/repo and the limit per
    network on signups.  Requests are programs of [Program], so their statements interleave; times are in nanoseconds. *)

From S2P Require Import Prelude GoString NetIP Program.
From S2P Require Tokens Issues Session.
Local Open Scope Z_scope.

Definition second : Z := 1000000000.
Definition minute : Z := 60 * second.
Definition hour : Z := 60 * minute.

(** ** The tables *)

Record Row := MkRow { Hits : Z; WindowStartedAt : Z }.

#[export] Instance Row_eq_dec : EqDecision Row.
Proof. solve_decision. Defined.

#[export] Instance Addr_countable : Countable Addr.
Proof.
  refine (inj_countable' (fun a => match a with V4 n => inl n | V6 n z => inr (n, z) end)
    (fun x => match x with inl n => V4 n | inr (n, z) => V6 n z end) _). by intros [].
Defined.

(** rate_limits by scope and key, signup_ip_throttle by network. *)
Record Tables := MkTables { rates : gmap (string * string) Row; signups : gmap Addr Row }.

Definition no_rows_yet : Tables := MkTables ∅ ∅.

Definition with_rates (t : Tables) (m : gmap (string * string) Row) : Tables := MkTables m (signups t).
Definition with_signups (t : Tables) (m : gmap Addr Row) : Tables := MkTables (rates t) m.

(** [Violation]: a constraint, or a number out of range; [Fault_]: the connection. *)
Inductive DBErr := Violation | Fault_.

Definition tx (X : Type) : Type := Z → Tables → res DBErr (X * Tables).

(** A text column with a bound on its length. *)
Definition column (n : nat) (s : string) : bool :=
  Issues.pg_text s && bool_decide (1 <= RuneCountInString s)%nat && bool_decide (RuneCountInString s <= n)%nat.

Definition key_ok (k : string * string) : bool := column 64 k.1 && column 256 k.2.

(** pgtype.Interval with whole microseconds. *)
Definition interval (d : Z) : Z := Z.quot d 1000 * 1000.

(** The row after a hit, by INSERT or by the two CASEs. *)
Definition bumped (ttl now : Z) (r : option Row) : Row :=
  match r with
  | None => MkRow 1 now
  | Some r => if bool_decide (WindowStartedAt r < now - ttl) then MkRow 1 now else MkRow (Hits r + 1) (WindowStartedAt r)
  end.

Definition BumpRateLimit (k : string * string) (ttl : Z) : tx Row := fun now t =>
  let r := bumped ttl now (rates t !! k) in
  if negb (key_ok k) || bool_decide (2 ^ 31 <= Hits r) then Err Violation
  else Ok (r, with_rates t (<[k := r]> (rates t))).

(** No row comes back when all leases are taken. *)
Definition AcquireRateLimitLease (k : string * string) (ttl max_hits : Z) : tx (option Row) := fun now t =>
  let free := match rates t !! k with
              | None => true
              | Some r => bool_decide (WindowStartedAt r < now - ttl) || bool_decide (Hits r < max_hits)
              end in
  let r := bumped ttl now (rates t !! k) in
  if negb (key_ok k) then Err Violation
  else if free then if bool_decide (2 ^ 31 <= Hits r) then Err Violation else Ok (Some r, with_rates t (<[k := r]> (rates t)))
  else Ok (None, t).

Definition ReleaseRateLimitLease (k : string * string) : tx Z := fun _ t =>
  match rates t !! k with
  | None => Ok (0, t)
  | Some r => Ok (1, with_rates t (<[k := MkRow (Z.max (Hits r - 1) 0) (WindowStartedAt r)]> (rates t)))
  end.

Definition PeekRateLimit (k : string * string) : tx (option Row) := fun _ t => Ok (rates t !! k, t).

Definition BumpSignupIPThrottle (cidr : Addr) (ttl : Z) : tx Row := fun now t =>
  let r := bumped ttl now (signups t !! cidr) in
  if bool_decide (2 ^ 31 <= Hits r) then Err Violation else Ok (r, with_signups t (<[cidr := r]> (signups t))).

(** ** bucket.go *)

Record Policy := MkPolicy { Scope : string; Max : Z; Window : Z }.

Record Decision := MkDecision { Allowed : bool; Remaining : Z; Limit : Z; ResetIn : Z; RetryAfter : Z }.

#[export] Instance Decision_eq_dec : EqDecision Decision.
Proof. solve_decision. Defined.

(** The zero value. *)
Definition refused : Decision := MkDecision false 0 0 0 0.

Inductive RlErr := BadPolicy | BadKey | BadIP | BumpErr | LeaseErr | ReleaseErr.

Inductive Event :=
| EvBump (k : string * string) (r : res DBErr Row)
| EvAcquire (k : string * string) (r : res DBErr (option Row))
| EvRelease (k : string * string) (r : res DBErr Z)
| EvOther.

Definition P : Type → Type := prog Tables DBErr Event.

Definition clock : P Z := Ask e_now (fun _ => []) Ret.
Definition exec {X} (t : tx X) (ev : res DBErr X → Event) : P (res DBErr X) := Sql t ev Ret.

Definition max0 (n : Z) : Z := if bool_decide (n < 0) then 0 else n.

(** time.Until the end of the window, not negative. *)
Definition reset_in (start window now : Z) : Z := let d := start + window - now in if bool_decide (d < 0) then 0 else d.

Definition failed_open (max window : Z) : Decision := MkDecision true max max window 0.

(** What a counted hit means. *)
Definition decision (r : Row) (max window now : Z) : Decision :=
  let resetIn := reset_in (WindowStartedAt r) window now in
  let allowed := bool_decide (Hits r <= max) in
  MkDecision allowed (max0 (max - Hits r)) max resetIn
    (if allowed then 0 else if bool_decide (resetIn <= 0) then second else resetIn).

Definition Allow (p : Policy) (key : string) : P (Decision * option RlErr) :=
  if bool_decide (Max p <= 0) || bool_decide (Window p <= 0) then mret (refused, Some BadPolicy)
  else if bool_decide (Scope p = "") || bool_decide (key = "") then mret (refused, Some BadKey)
  else
    let k := (Scope p, key) in
    row ← exec (BumpRateLimit k (interval (Window p))) (EvBump k);
    match row with
    | Err _ => mret (failed_open (Max p) (Window p), Some BumpErr)
    | Ok row => now ← clock; mret (decision row (Max p) (Window p) now, None)
    end.

Record Lease := MkLease { l_policy : Policy; l_key : string; released : bool }.

Definition blockedLeaseDecision (p : Policy) (key : string) : P Decision :=
  let k := (Scope p, key) in
  row ← exec (PeekRateLimit k) (fun _ => EvOther);
  let blocked resetIn := MkDecision false 0 (Max p) resetIn resetIn in
  match row with
  | Ok (Some row) =>
      now ← clock;
      let d := WindowStartedAt row + Window p - now in
      mret (blocked (if bool_decide (d <= 0) then second else d))
  | _ => mret (blocked (Window p))
  end.

Definition wrap32 (n : Z) : Z := (n + 2 ^ 31) mod 2 ^ 32 - 2 ^ 31.

Definition AcquireLease (p : Policy) (key : string) : P (option Lease * Decision * option RlErr) :=
  if bool_decide (Max p <= 0) || bool_decide (Window p <= 0) then mret (None, refused, Some BadPolicy)
  else if bool_decide (Scope p = "") || bool_decide (key = "") then mret (None, refused, Some BadKey)
  else
    let k := (Scope p, key) in
    row ← exec (AcquireRateLimitLease k (interval (Window p)) (wrap32 (Max p))) (EvAcquire k);
    match row with
    | Ok None => d ← blockedLeaseDecision p key; mret (None, d, None)
    | Err _ => mret (None, failed_open (Max p) (Window p), Some LeaseErr)
    | Ok (Some row) =>
        now ← clock;
        mret (Some (MkLease p key false),
              MkDecision true (max0 (Max p - Hits row)) (Max p) (reset_in (WindowStartedAt row) (Window p) now) 0, None)
    end.

(** The lease afterwards; nil has nothing to release. *)
Definition Release (lease : option Lease) : P (option Lease * option RlErr) :=
  match lease with
  | None => mret (None, None)
  | Some l =>
      if released l then mret (Some l, None)
      else
        let k := (Scope (l_policy l), l_key l) in
        r ← exec (ReleaseRateLimitLease k) (EvRelease k);
        mret (Some (MkLease (l_policy l) (l_key l) true), match r with Err _ => Some ReleaseErr | Ok _ => None end)
  end.

(** The /24 or the /48 of an address, with its host bits cleared. *)
Definition maskToNetwork (a : Addr) : Addr :=
  match a with
  | V4 n => V4 (n / 2 ^ 8 * 2 ^ 8)
  | V6 n _ => V6 (n / 2 ^ 80 * 2 ^ 80) ""
  end.

Definition AllowSignupIP (ip : Addr) (max window : Z) : P (Decision * option RlErr) :=
  row ← exec (BumpSignupIPThrottle (maskToNetwork ip) (interval window)) (fun _ => EvOther);
  match row with
  | Err _ => mret (failed_open max window, Some BumpErr)
  | Ok row => now ← clock; mret (decision row max window now, None)
  end.

Definition NetworkKey (ip : string) : string :=
  match ParseAddr ip with
  | None => ip
  | Some addr =>
      let masked := maskToNetwork (Unmap addr) in
      Addr_String masked +:+ match masked with V4 _ => "/24" | V6 _ _ => "/48" end
  end.

(** ** keys.go *)

(** The first entry of X-Forwarded-For. *)
Definition first_forwarded (v : string) : string :=
  match Cut v "," with
  | Some (first, _) => if bool_decide (first = "") then v else first
  | None => v
  end.

Definition IPKey (trustForwarded : bool) (r : Tokens.Request) : string :=
  if trustForwarded && negb (bool_decide (Tokens.XForwardedFor r = ""))
  then "ip:" +:+ TrimSpace (first_forwarded (Tokens.XForwardedFor r))
  else "ip:" +:+ Tokens.peer r.

Definition ClientIP (r : Tokens.Request) (trustForwarded : bool) : option Addr :=
  let raw := if trustForwarded && negb (bool_decide (Tokens.XForwardedFor r = ""))
             then TrimSpace (first_forwarded (Tokens.XForwardedFor r)) else "" in
  ParseAddr (if bool_decide (raw = "") then Tokens.peer r else raw).

(** ** Replies *)

(** Whether the next handler runs, or the answer 429; the headers set so far, without Content-Type. *)
Record Reply := MkReply { passed : bool; headers : list (string * string) }.

#[export] Instance Reply_eq_dec : EqDecision Reply.
Proof. solve_decision. Defined.

Definition pass (h : list (string * string)) : P Reply := mret (MkReply true h).

Definition seconds (d : Z) : string := pretty (Z.quot d second).

Definition StampHeaders (d : Decision) : list (string * string) :=
  if bool_decide (0 < Limit d)
  then [("X-RateLimit-Limit", pretty (Limit d)); ("X-RateLimit-Remaining", pretty (Remaining d));
        ("X-RateLimit-Reset", seconds (ResetIn d))]
  else [].

(** At least one second. *)
Definition retry (d : Decision) : string :=
  let n := Z.quot (RetryAfter d) second in pretty (if bool_decide (n < 1) then 1 else n).

(** middleware.go *)
Definition Middleware (p : Policy) (key : string) : P Reply :=
  if bool_decide (key = "") then pass []
  else
    '(d, err) ← Allow p key;
    match err with
    | Some _ => pass (StampHeaders d)
    | None =>
        if negb (Allowed d)
        then mret (MkReply false (StampHeaders d ++ [("Retry-After", seconds (RetryAfter d))]))
        else pass (StampHeaders d)
    end.

(** *** web/middleware *)

Definition burstToPolicy (scope : string) (burst refillPerSec : Z) : Policy :=
  if bool_decide (burst <= 0) || bool_decide (refillPerSec <= 0) then MkPolicy "" 0 0
  else
    let windowSec := Z.quot burst refillPerSec in
    MkPolicy scope burst ((if bool_decide (windowSec < 1) then 1 else windowSec) * second).

Definition pickHTMLBucket (r : Tokens.Request) (user : Session.CurrentUser) (anon authed : Policy) : Policy * string :=
  if negb (bool_decide (Session.ID user = 0)) then (authed, "user:" +:+ pretty (Session.ID user))
  else
    let ip := Tokens.RealIPFromContext r in
    if bool_decide (ip = "") then (anon, "") else (anon, "anon:" +:+ NetworkKey ip).

Record HTMLRateLimitConfig := MkHTML { AnonBurst : Z; AnonRefill : Z; AuthedBurst : Z; AuthedRefill : Z }.

Definition HTMLRateLimit (cfg : HTMLRateLimitConfig) (r : Tokens.Request) (user : Session.CurrentUser) : P Reply :=
  if Session.IsSiteAdmin user then pass []
  else
    let '(policy, key) := pickHTMLBucket r user (burstToPolicy "html:anon" (AnonBurst cfg) (AnonRefill cfg))
                            (burstToPolicy "html:authed" (AuthedBurst cfg) (AuthedRefill cfg)) in
    if bool_decide (Max policy <= 0) || bool_decide (key = "") then pass []
    else
      '(d, _) ← Allow policy key;
      if negb (Allowed d) then mret (MkReply false [("Retry-After", retry d); ("Cache-Control", "no-store")])
      else pass [].

Definition OAuthRateLimit (policy : Policy) (r : Tokens.Request) : P Reply :=
  if bool_decide (Max policy <= 0) then pass []
  else
    let ip := Tokens.RealIPFromContext r in
    if bool_decide (ip = "") then pass []
    else
      '(d, _) ← Allow policy ("ip:" +:+ ip);
      if negb (Allowed d) then mret (MkReply false [("Retry-After", retry d); ("Cache-Control", "no-store")])
      else pass [].

Definition OAuthDeviceCodePolicy : Policy := MkPolicy "oauth:device_code" 5 minute.
Definition OAuthAccessTokenPolicy : Policy := MkPolicy "oauth:access_token" 50 minute.

(** *** handlers *)

(** apilimit. *)
Definition pickBucket (r : Tokens.Request) (auth : Tokens.PATAuth) (authed anon : Policy) : Policy * string :=
  if negb (bool_decide (Tokens.TokenID auth = 0)) then (authed, "pat:" +:+ pretty (Tokens.TokenID auth))
  else
    let ip := Tokens.RealIPFromContext r in
    if bool_decide (ip = "") then (anon, "") else (anon, "ip:" +:+ ip).

Definition apilimit (AuthedPerHour AnonPerHour : Z) (r : Tokens.Request) (auth : Tokens.PATAuth) : P Reply :=
  let '(policy, key) := pickBucket r auth (MkPolicy "api:authed" AuthedPerHour hour) (MkPolicy "api:anon" AnonPerHour hour) in
  if bool_decide (Max policy <= 0) || bool_decide (key = "") then pass []
  else
    '(d, _) ← Allow policy key;
    if negb (Allowed d)
    then mret (MkReply false (StampHeaders d ++ [("Retry-After", retry d); ("Cache-Control", "no-store")]))
    else pass (StampHeaders d).

Definition runnerHeartbeatLimit : Policy := MkPolicy "actions:runner_dispatch" 60 minute.

Definition allowRunnerHeartbeat (runnerID : Z) : P Reply :=
  '(d, _) ← Allow runnerHeartbeatLimit ("runner:" +:+ pretty runnerID);
  if negb (Allowed d) then mret (MkReply false (StampHeaders d ++ [("Retry-After", seconds (RetryAfter d))]))
  else pass (StampHeaders d).

Definition SearchRateLimitPolicy : Policy := MkPolicy "search" 60 minute.

(** The user, or the address. *)
Definition searchRateLimitKey (r : Tokens.Request) (viewer : Session.CurrentUser) : string :=
  if negb (bool_decide (Session.ID viewer = 0)) then "u:" +:+ pretty (Session.ID viewer)
  else match ClientIP r true with Some ip => "ip:" +:+ Addr_String ip | None => "" end.

Definition search (r : Tokens.Request) (viewer : Session.CurrentUser) : P Reply :=
  Middleware SearchRateLimitPolicy (searchRateLimitKey r viewer).

(** The second layer of throttleSignup: whether the network may sign up once more. *)
Definition signup_network (r : Tokens.Request) : P bool :=
  match ClientIP r false with
  | None => mret true
  | Some ip =>
      '(d, err) ← AllowSignupIP ip 20 hour;
      mret match err with None => Allowed d | Some _ => true end
  end.

(** *** The live log of a step *)

Definition actionsLogStreamLimit : Policy := MkPolicy "actions:logtail" 5 (2 * minute).

Definition logStreamRateLimitKey (r : Tokens.Request) (viewer : Session.CurrentUser) : string :=
  if negb (bool_decide (Session.ID viewer = 0)) then "u:" +:+ pretty (Session.ID viewer)
  else match ClientIP r true with Some ip => "ip:" +:+ Addr_String ip | None => "" end.

(** A lease with its decision. *)
Definition acquireLogStreamLease (key : string) : P (option Lease * Decision) :=
  if bool_decide (key = "") then mret (None, MkDecision true 0 0 0 0)
  else '(lease, d, _) ← AcquireLease actionsLogStreamLimit key; mret (lease, d).

(** The stream, from its lease to its release; what it writes in between touches no counter and may take any time. *)
Definition log_stream (key : string) : P bool :=
  '(lease, d) ← acquireLogStreamLease key;
  if Allowed d then Release lease ≫= fun _ => mret true else mret false.

Definition repoActionStepLogStream (r : Tokens.Request) (viewer : Session.CurrentUser) : P bool :=
  log_stream (logStreamRateLimitKey r viewer).

(** ** The system: any streams and counted requests, in any order *)

Inductive arrive : list (nat * Event) → Event → P bool → Prop :=
| A_stream l r viewer : arrive l EvOther (repoActionStepLogStream r viewer)
| A_counted l p key : Scope p ≠ Scope actionsLogStreamLimit →
    arrive l EvOther ('(d, _) ← Allow p key; mret (Allowed d)).

(** Nothing else writes these tables. *)
Definition elsewhere (t t' : Tables) : Prop := t' = t.

Definition rstep : World (DB := Tables) (E := DBErr) (Ev := Event) bool → World (DB := Tables) (E := DBErr) (Ev := Event) bool → Prop :=
  wstep Fault_ arrive elsewhere.
