(* ===== verification/RateLimitFacts.v ===== *)
(** * RateLimitFacts: how many streams hold a lease, and who shares a budget *)

From S2P Require Import Prelude GoString NetIP NetIPFacts Program RateLimit.
From S2P Require Tokens Session.
Local Open Scope Z_scope.

Definition State : Type := World (DB := Tables) (E := DBErr) (Ev := Event) bool.

Definition start : State := MkWorld no_rows_yet [] [].

(** ** Leases *)

(** The leases of a key that were granted, less those whose release was tried. *)
Fixpoint held (l : list (nat * Event)) (k : string * string) : Z :=
  match l with
  | [] => 0
  | (_, EvAcquire k' (Ok (Some _))) :: l => held l k + (if decide (k = k') then 1 else 0)
  | (_, EvRelease k' _) :: l => held l k - (if decide (k = k') then 1 else 0)
  | _ :: l => held l k
  end.

(** The windows in which they were granted, by their start. *)
Fixpoint windows (l : list (nat * Event)) (k : string * string) : gset Z :=
  match l with
  | [] => ∅
  | (_, EvAcquire k' (Ok (Some r))) :: l => if decide (k = k') then {[WindowStartedAt r]} ∪ windows l k else windows l k
  | _ :: l => windows l k
  end.

Definition cap : Z := Max actionsLogStreamLimit.
Definition stream_key (key : string) : string * string := (Scope actionsLogStreamLimit, key).

Definition size_ (W : gset Z) : Z := Z.of_nat (size W).

(** Of one key: the row counts the leases of its window, of each earlier window at most [cap] are left. *)
Definition counted (o : option Row) (h : Z) (W : gset Z) : Prop :=
  match o with
  | None => h <= 0 ∧ W = ∅
  | Some r => 0 <= Hits r <= cap ∧ (∀ s, s ∈ W → s <= WindowStartedAt r) ∧
      if decide (WindowStartedAt r ∈ W) then h <= Hits r + cap * (size_ W - 1) else h <= cap * size_ W
  end.

Definition J (t : Tables) (l : list (nat * Event)) : Prop :=
  ∀ key, counted (rates t !! stream_key key) (held l (stream_key key)) (windows l (stream_key key)).

Lemma counted_bound o h W : counted o h W → h <= cap * size_ W.
Proof.
  destruct o as [r|]; cbn [counted]; [|intros [H ->]; unfold size_; rewrite size_empty; lia].
  intros ((_ & Hc) & _ & H). case_decide; lia.
Qed.

Lemma size_add s (W : gset Z) : s ∉ W → size_ ({[s]} ∪ W) = size_ W + 1.
Proof. intros H. unfold size_. rewrite size_union by set_solver. rewrite size_singleton. lia. Qed.

(** A row for a lease, granted ([g]) or with its answer lost. *)
Lemma counted_acquire ttl now o h W (g : bool) : 0 <= ttl →
  (o = None ∨ ∃ r, o = Some r ∧ (WindowStartedAt r < now - ttl ∨ Hits r < cap)) → counted o h W →
  let r' := bumped ttl now o in
  counted (Some r') (h + if g then 1 else 0) (if g then {[WindowStartedAt r']} ∪ W else W).
Proof.
  intros Httl Hfree Hc. pose proof (counted_bound _ _ _ Hc) as Hb. unfold cap in *. cbn [Max actionsLogStreamLimit] in *.
  assert (∀ s, s ∉ W → (∀ x, x ∈ W → x <= s) →
    counted (Some (MkRow 1 s)) (h + if g then 1 else 0) (if g then {[s]} ∪ W else W)) as Hnew.
  { intros s Hs Hx. cbn [counted Hits WindowStartedAt cap Max actionsLogStreamLimit]. split; [unfold cap; cbn; lia|].
    destruct g; (split; [set_solver by lia|]).
    - rewrite decide_True by set_solver. rewrite size_add by done. unfold cap. cbn. lia.
    - rewrite decide_False by done. unfold cap. cbn. lia. }
  destruct o as [r|]; cbn [bumped counted] in *.
  2:{ apply (Hnew now); [set_solver|]. destruct Hc as [_ ->]. set_solver. }
  destruct Hc as (Hh & Hx & Hw). case_bool_decide as Hroll.
  - apply (Hnew now); [intros Hin; specialize (Hx _ Hin); lia|]. intros x Hin. specialize (Hx x Hin). cbn. lia.
  - destruct Hfree as [|(r0 & [= <-] & [|Hlt])]; [done|lia|]. cbn [counted Hits WindowStartedAt]. unfold cap in *. cbn [Max actionsLogStreamLimit] in *.
    split; [lia|]. destruct g.
    + split; [set_solver by lia|]. rewrite decide_True by set_solver.
      destruct (decide (WindowStartedAt r ∈ W)) as [Hin|Hin]; [|rewrite size_add by done; lia].
      replace ({[WindowStartedAt r]} ∪ W) with W by set_solver. lia.
    + split; [done|]. case_decide; lia.
Qed.

Lemma counted_release r h W (done_ : bool) : counted (Some r) h W →
  counted (Some (if done_ then MkRow (Z.max (Hits r - 1) 0) (WindowStartedAt r) else r)) (h - 1) W.
Proof.
  intros (Hh & Hx & Hw). destruct done_; cbn [counted Hits WindowStartedAt]; (split; [lia|]); (split; [done|]); case_decide; lia.
Qed.

Lemma counted_less o h W : counted o h W → counted o (h - 1) W.
Proof. destruct o as [r|]; cbn; [intros (? & ? & ?); split_and!; try done; case_decide; lia|intros [? ?]; split; [lia|done]]. Qed.

Definition stream_ttl : Z := interval (Window actionsLogStreamLimit).

Lemma J_acquire t t' l i key env r : J t l →
  answer Fault_ env (AcquireRateLimitLease (stream_key key) stream_ttl (wrap32 cap)) t = (r, t') →
  J t' ((i, EvAcquire (stream_key key) r) :: l).
Proof.
  intros HJ Ha key'. destruct (answer_inv _ _ _ _ _ Ha) as [[-> [e ->]]|(x & Hx & Hr)]; [apply HJ|].
  unfold AcquireRateLimitLease in Hx. destruct (negb (key_ok _)); [done|].
  destruct (match rates t !! stream_key key with Some _ => _ | None => _ end) eqn:Efree.
  2:{ injection Hx as <- <-. destruct Hr as [->| ->]; apply HJ. }
  case_bool_decide; [done|]. injection Hx as <- <-. cbn [rates with_rates].
  assert (rates t !! stream_key key = None ∨ ∃ q, rates t !! stream_key key = Some q ∧
    (WindowStartedAt q < e_now env - stream_ttl ∨ Hits q < cap)) as Hfree.
  { destruct (rates t !! stream_key key) as [q|]; [right|by left]. exists q. split; [done|].
    apply orb_true_iff in Efree as [E%bool_decide_eq_true|E%bool_decide_eq_true]; [by left|by right]. }
  destruct (decide (stream_key key' = stream_key key)) as [E|Hne].
  - rewrite E, lookup_insert_eq.
    destruct Hr as [->| ->]; cbn [held windows]; [rewrite !decide_True by done|].
    + apply (counted_acquire _ _ _ _ _ true); [done|exact Hfree|apply HJ].
    + rewrite <- (Z.add_0_r (held l _)). apply (counted_acquire _ _ _ _ _ false); [done|exact Hfree|apply HJ].
  - rewrite lookup_insert_ne by done. destruct Hr as [->| ->]; cbn [held windows]; [|apply HJ].
    rewrite !decide_False, Z.add_0_r by done. apply HJ.
Qed.

Lemma J_release t t' l i key env r : J t l → answer Fault_ env (ReleaseRateLimitLease (stream_key key)) t = (r, t') →
  J t' ((i, EvRelease (stream_key key) r) :: l).
Proof.
  intros HJ Ha key'. cbn [held windows]. specialize (HJ key').
  assert (t' = t ∨ ∃ q, rates t !! stream_key key = Some q ∧
    rates t' = <[stream_key key := MkRow (Z.max (Hits q - 1) 0) (WindowStartedAt q)]> (rates t)) as Ht.
  { destruct (answer_inv _ _ _ _ _ Ha) as [[-> _]|(x & Hx & _)]; [by left|]. unfold ReleaseRateLimitLease in Hx.
    destruct (rates t !! stream_key key) as [q|] eqn:E; injection Hx as <- <-; [right; eauto|by left]. }
  case_decide as E; [rewrite E in *|rewrite Z.sub_0_r].
  - destruct Ht as [->|(q & Hq & ->)]; [by apply counted_less|]. rewrite lookup_insert_eq. rewrite Hq in HJ.
    by apply (counted_release q _ _ true).
  - destruct Ht as [->|(q & Hq & ->)]; [done|]. by rewrite lookup_insert_ne.
Qed.

Lemma J_bump t t' l i k ttl env r : k.1 ≠ Scope actionsLogStreamLimit → J t l →
  answer Fault_ env (BumpRateLimit k ttl) t = (r, t') → J t' ((i, EvBump k r) :: l).
Proof.
  intros Hk HJ Ha key. cbn [held windows]. specialize (HJ key).
  destruct (answer_inv _ _ _ _ _ Ha) as [[-> _]|(x & Hx & _)]; [done|]. unfold BumpRateLimit in Hx.
  destruct (_ || _); [done|]. injection Hx as <- <-. cbn [rates with_rates].
  rewrite lookup_insert_ne; [done|]. intros ->. by destruct Hk.
Qed.

(** ** Programs *)

Section Safe.
Context (i : nat).

Definition sf {A} (p : P A) (Q : A → Prop) (l : list (nat * Event)) : Prop := safe Fault_ J i p (fun _ => Q) l.

Lemma rl_bind {A B} (p : P A) (f : A → P B) (Q : B → Prop) l : (sf p (fun a => ∀ l', sf (f a) Q l') l) → sf (p ≫= f) Q l.
Proof. intros H. apply safe_bind. eapply safe_weaken; [|exact H]. intros l' a _ Ha. apply Ha. Qed.

Lemma rl_clock (Q : Z → Prop) l : (∀ n, Q n) → sf clock Q l.
Proof. intros H env t l' Hl HJ. split; [done|apply H]. Qed.

Lemma rl_exec {X} (t : tx X) ev (Q : res DBErr X → Prop) l :
  (∀ env d d' r l', J d l' → answer Fault_ env t d = (r, d') → J d' ((i, ev r) :: l')) → (∀ r, Q r) → sf (exec t ev) Q l.
Proof. intros HJ HQ env d l' Hl Hd. destruct (answer Fault_ env t d) as [r d'] eqn:E. split; [by eapply HJ|apply HQ]. Qed.

Lemma rl_Allow p key (Q : Decision * option RlErr → Prop) l : Scope p ≠ Scope actionsLogStreamLimit → (∀ x, Q x) → sf (Allow p key) Q l.
Proof.
  intros Hp HQ. unfold Allow. destruct (_ || _); [apply HQ|]. destruct (_ || _); [apply HQ|].
  apply rl_bind, rl_exec; [intros; by eapply J_bump|]. intros [row|] l'; [|apply HQ].
  apply rl_bind, rl_clock. intros n l2. apply HQ.
Qed.

Lemma rl_blocked p key (Q : Decision → Prop) l : (∀ d, Q d) → sf (blockedLeaseDecision p key) Q l.
Proof.
  intros HQ. apply rl_bind, rl_exec.
  - intros env d d' r l' HJ Ha. destruct (answer_inv _ _ _ _ _ Ha) as [[-> _]|(x & [= _ <-] & _)]; exact HJ.
  - intros [[row|]|] l'; [|apply HQ..]. apply rl_bind, rl_clock. intros n l2. apply HQ.
Qed.

Definition fresh_lease (key : string) (o : option Lease) : Prop := o = None ∨ o = Some (MkLease actionsLogStreamLimit key false).

Lemma rl_AcquireLease key (Q : option Lease * Decision * option RlErr → Prop) l :
  (∀ x, fresh_lease key x.1.1 → Q x) → sf (AcquireLease actionsLogStreamLimit key) Q l.
Proof.
  intros HQ. assert (∀ d e, Q (None, d, e)) as Hnone by (intros; apply HQ; by left).
  unfold AcquireLease. destruct (_ || _); [apply Hnone|]. destruct (_ || _); [apply Hnone|].
  apply rl_bind, rl_exec; [intros; by eapply J_acquire|]. intros [[row|]|] l'; [|apply rl_bind, rl_blocked; intros; apply Hnone|apply Hnone].
  apply rl_bind, rl_clock. intros n l2. apply HQ. by right.
Qed.

Lemma safe_log_stream key l : sf (log_stream key) (fun _ => True) l.
Proof.
  apply rl_bind. unfold acquireLogStreamLease. case_bool_decide; [done|].
  apply rl_bind, rl_AcquireLease. intros [[o d] e] Ho l1 l2. cbn in Ho. destruct (Allowed d); [|done].
  apply rl_bind. destruct Ho as [->| ->]; [done|]. apply rl_bind, rl_exec; [intros; by eapply J_release|]. done.
Qed.

End Safe.

Lemma J_start : J no_rows_yet [].
Proof. intros key. cbn. done. Qed.

Lemma reachable_J (w : State) : rtc rstep start w → J (w_db w) (w_log w).
Proof.
  intros Hr. apply (world_invariant Fault_ J arrive elsewhere start w); [| |done|].
  - intros t l i e p HJ Ha. destruct Ha as [l r viewer|l p key Hp]; (split; [exact HJ|]).
    + apply safe_log_stream.
    + apply (rl_bind i). apply rl_Allow; [done|]. intros [d err] l'. done.
  - by intros t t' l HJ ->.
  - split; [apply J_start|]. done.
Qed.

(** C17: However streams and other requests overlap and whatever statements fail: at any time, the leases of a key that were
    granted and not given back number at most five for each window in which one was granted; five, then, only as long as
    the row has not been started afresh. *)
Theorem lease_bound (w : State) (key : string) : rtc rstep start w →
  held (w_log w) (stream_key key) <= cap * size_ (windows (w_log w) (stream_key key)).
Proof. intros Hr. apply (counted_bound (rates (w_db w) !! stream_key key)). by apply reachable_J. Qed.

(** ** Streams that stay open *)

Definition at_ (seconds : Z) : Env := MkEnv (seconds * second) Fine (fun _ => None) true.

(** One step of a request. *)
Definition advance (env : Env) (i : nat) (w : State) : State :=
  match w_threads w !! i with
  | None => w
  | Some p => let '(p', d, evs) := step1 Fault_ env (w_db w) p in MkWorld d (<[i := p']> (w_threads w)) (tag i evs ++ w_log w)
  end.

Lemma advance_steps env i w : rtc rstep w (advance env i w).
Proof.
  destruct w as [d ts l]. unfold advance. cbn [w_threads w_db w_log]. destruct (ts !! i) as [p|] eqn:E; [|done].
  destruct (step1 Fault_ env d p) as [[p' d'] evs] eqn:Es. apply rtc_once. by eapply W_run.
Qed.

Definition visitor : Tokens.Request := Tokens.MkRequest "" "" "192.0.2.7:5000" None.
Definition visitor_key : string := "ip:192.0.2.7".

(** A stream arrives and takes its lease. *)
Definition open_stream (env : Env) (w : State) : State :=
  let i := length (w_threads w) in
  advance env i (advance env i (MkWorld (w_db w) (w_threads w ++ [repoActionStepLogStream visitor Session.nobody]) ((i, EvOther) :: w_log w))).

Lemma open_stream_steps env w w' : rtc rstep w w' → rtc rstep w (open_stream env w').
Proof.
  intros H. etrans; [exact H|]. eapply rtc_l; [|etrans; apply advance_steps]. destruct w' as [d ts l]. apply W_arrive, A_stream.
Qed.

(** Five streams at the start of the day, and five more two minutes later, while the first ones are still open. *)
Definition five (seconds : Z) (w : State) : State := Nat.iter 5 (open_stream (at_ seconds)) w.
Definition crowd : State := five 121 (five 0 start).

Lemma five_steps seconds w w' : rtc rstep w w' → rtc rstep w (five seconds w').
Proof. intros H. unfold five. do 5 (apply open_stream_steps). exact H. Qed.

Lemma lease_bound_witness :
  (rtc rstep start crowd ∧ held (w_log crowd) (stream_key visitor_key) = 10 ∧
   size_ (windows (w_log crowd) (stream_key visitor_key)) = 2) ∧
  held (w_log crowd) (stream_key visitor_key) <= cap * size_ (windows (w_log crowd) (stream_key visitor_key)).
Proof.
  assert (rtc rstep start crowd) as H by (apply five_steps, five_steps; done).
  split; [split_and!; [exact H|vm_compute; reflexivity..]|]. exact (lease_bound crowd visitor_key H).
Defined.

(** Within one window a sixth is refused. *)
Example sixth_refused :
  held (w_log (open_stream (at_ 60) (five 0 start))) (stream_key visitor_key) = 5.
Proof. vm_compute. reflexivity. Qed.

(** ** The network of an address *)

(** The same /24, or the same /48; an IPv4 address in an IPv6 one counts as what it maps. *)
Definition same_network (a b : Addr) : Prop :=
  match Unmap a, Unmap b with
  | V4 n, V4 m => n / 2 ^ 8 = m / 2 ^ 8
  | V6 n _, V6 m _ => n / 2 ^ 80 = m / 2 ^ 80
  | _, _ => False
  end.

Lemma Unmap_valid (a : Addr) : valid_addr a → valid_addr (Unmap a).
Proof. destruct a as [n|n z]; [done|]. cbn [Unmap]. intros H. destruct (Is4In6 n); [|done]. cbn. apply Z.mod_pos_bound. lia. Qed.

Lemma maskToNetwork_valid (a : Addr) : valid_addr a → valid_addr (maskToNetwork a).
Proof.
  assert (∀ n k, 0 <= n → 0 <= k → 0 <= n / 2 ^ k * 2 ^ k <= n) as Hm.
  { intros n k Hn Hk. pose proof (Z.pow_pos_nonneg 2 k ltac:(lia) Hk). split; [apply Z.mul_nonneg_nonneg; [apply Z.div_pos; lia|lia]|].
    rewrite Z.mul_comm. apply Z.mul_div_le. lia. }
  destruct a as [n|n z]; cbn [maskToNetwork valid_addr]; intros H; [specialize (Hm n 8)|specialize (Hm n 80)]; lia.
Qed.

Definition suffix (a : Addr) : string := match a with V4 _ => "/24" | V6 _ _ => "/48" end.

(** A network is read back from its key. *)
Lemma network_text (a b : Addr) : valid_addr a → valid_addr b →
  Addr_String a +:+ suffix a = Addr_String b +:+ suffix b → a = b.
Proof.
  intros Ha Hb E. assert (∀ x, CutLast (Addr_String x +:+ suffix x) "/"%char = Some (Addr_String x, str_drop 1 (suffix x))) as Hc
    by (intros []; by apply CutLast_app).
  pose proof (Hc a) as Ea. rewrite E, Hc in Ea. injection Ea as Es _.
  apply (f_equal ParseAddr) in Es. rewrite !ParseAddr_String in Es by done. by injection Es as ->.
Qed.

Lemma masked_same (a b : Addr) : maskToNetwork (Unmap a) = maskToNetwork (Unmap b) ↔ same_network a b.
Proof.
  unfold same_network. destruct (Unmap a) as [n|n z], (Unmap b) as [m|m z']; cbn [maskToNetwork]; split; try done.
  1,3: intros [= E]; by apply Z.mul_reg_r in E.
  all: by intros ->.
Qed.

(** Two addresses share the budget of anonymous pages exactly when they are of one /24, or of one /48: their keys are
    equal if and only if the networks are, however the addresses are written. *)
Theorem NetworkKey_same (s t : string) (a b : Addr) : ParseAddr s = Some a → ParseAddr t = Some b →
  NetworkKey s = NetworkKey t ↔ same_network a b.
Proof.
  intros Ha Hb. unfold NetworkKey. rewrite Ha, Hb, <- masked_same. split; [|by intros ->].
  intros E. apply network_text; [by eapply maskToNetwork_valid, Unmap_valid, ParseAddr_valid..|exact E].
Qed.

Lemma NetworkKey_same_witness :
  NetworkKey "203.0.113.9" = "203.0.113.0/24" ∧ NetworkKey "2001:DB8:1:ffff::1" = "2001:db8:1::/48" ∧
  (NetworkKey "203.0.113.9" = NetworkKey "::ffff:203.0.113.200" ↔ same_network (V4 3405803785) (V6 281474087547336 "")).
Proof.
  split_and!; [vm_compute; reflexivity..|]. apply NetworkKey_same; vm_compute; reflexivity.
Defined.

(** ** Whose budget is spent *)

(** A program alone, at a time. *)
Definition alone {A} (seconds : Z) (p : P A) (t : Tables) : A * Tables := (run Fault_ p (fun _ => at_ seconds) 0 t).1.

(** After [n] times. *)
Definition again {A} (n : nat) (p : P A) : Tables := Nat.iter n (fun t => (alone 0 p t).2) no_rows_yet.

(** A client that writes a header of its own, and whose address the server has found out. *)
Definition claims (v : string) : Tokens.Request := Tokens.MkRequest "" v "192.0.2.7:5000" (Some "192.0.2.7").

(** The search, and the live logs, ask the header of the client for whom to count; the limits of the API do not. *)
Example search_forged :
  let busy := again 60 (search (claims "198.51.100.1") Session.nobody) in
  passed (alone 1 (search (claims "198.51.100.1") Session.nobody) busy).1 = false ∧
  passed (alone 1 (search (claims "198.51.100.2") Session.nobody) busy).1 = true ∧
  logStreamRateLimitKey (claims "198.51.100.2") Session.nobody = "ip:198.51.100.2" ∧
  (pickBucket (claims "198.51.100.2") Tokens.noAuth (MkPolicy "a" 1 1) (MkPolicy "b" 1 1)).2 = "ip:192.0.2.7".
Proof. vm_compute. done. Qed.

(** A key the column does not take is not counted at all: an address with a long zone. *)
Definition long_zone : string := "fe80::1%" +:+ Nat.iter 300 (String "z") "".

Example search_unlimited :
  again 1000 (search (claims long_zone) Session.nobody) = no_rows_yet ∧
  passed (alone 1 (search (claims long_zone) Session.nobody) no_rows_yet).1 = true.
Proof. vm_compute. done. Qed.

(** Signups are counted by the peer: behind a proxy, one network for everybody. *)
Definition behind_proxy (client : string) : Tokens.Request := Tokens.MkRequest "" client "10.0.0.1:443" (Some client).

Example signups_share :
  let busy := again 20 (signup_network (behind_proxy "198.51.100.1")) in
  (alone 1 (signup_network (behind_proxy "203.0.113.9")) busy).1 = false.
Proof. vm_compute. done. Qed.
