(* ===== verification/Notif.v ===== *)
(** * Notif: who is told about an event, in the inbox and by mail

    internal/notif and internal/notifications with the statements they run, the handlers of
    web/handlers/notifications, of the API and of the settings page on rules and digests.  Jobs and requests are
    programs of [Program], so their statements interleave; times are in nanoseconds.  What other components own (issues,
    repositories, roles, watches, accounts) is in the tables and read only. *)

From stdpp Require Import sorting.
From S2P Require Import Prelude GoString NetIP Program.
From S2P Require Policy Encoding Tokens Issues Session RateLimit AdvisoryMatch.
Local Open Scope Z_scope.

Definition second : Z := 1000000000.
Definition minute : Z := 60 * second.
Definition hour : Z := 60 * minute.
Definition day : Z := 24 * hour.

(** ** The tables *)

Inductive ThreadKind := ThreadIssue | ThreadPr.

#[export] Instance ThreadKind_eq_dec : EqDecision ThreadKind.
Proof. solve_decision. Defined.
#[export] Instance ThreadKind_countable : Countable ThreadKind.
Proof.
  refine (inj_countable' (fun k => match k with ThreadIssue => true | ThreadPr => false end)
    (fun b : bool => if b then ThreadIssue else ThreadPr) _). by intros [].
Defined.

Definition kind_text (k : ThreadKind) : string := match k with ThreadIssue => "issue" | ThreadPr => "pr" end.

(** thread_kind and thread_id, both NULL or neither. *)
Definition Thread : Type := ThreadKind * Z.

(** An event; of its payload, the two members that are read back from the JSON, empty or 0 where they are missing. *)
Record DomainEvent := MkEvent {
  ev_ID : Z; ev_ActorUserID : option Z; ev_Kind : string; ev_RepoID : option Z; ev_SourceKind : string; ev_SourceID : Z;
  ev_Mentions : list Z; ev_ReviewerUserID : Z }.

Record Notification := MkNotification {
  n_ID : Z; RecipientUserID : Z; n_Kind : string; n_Reason : string; n_RepoID : option Z; n_Thread : option Thread;
  SourceEventID : option Z; Unread : bool; LastEventAt : Z; LastActorUserID : option Z;
  SnoozedUntil : option Z; TabLabel : option string; MatchedRuleID : option Z }.

Record NotificationThread := MkThread { Subscribed : bool; th_Reason : string }.

Record EmailLog := MkEmailLog { el_Recipient : Z; el_NotificationID : Z; el_Thread : option Thread; SentAt : Z }.

Inductive RuleAction := Snooze | Tab | MarkRead | Drop.

#[export] Instance RuleAction_eq_dec : EqDecision RuleAction.
Proof. solve_decision. Defined.

Record UserNotificationRule := MkRule {
  r_ID : Z; r_UserID : Z; r_Name : string; r_Enabled : bool; r_Position : Z;
  MatchReason : option string; MatchKind : option string; MatchRepoID : option Z; MatchActorID : option Z;
  r_Action : RuleAction; ActionTab : option string; ActionSnoozeMinutes : option Z }.

Inductive Frequency := Daily | Weekly.

#[export] Instance Frequency_eq_dec : EqDecision Frequency.
Proof. solve_decision. Defined.

Record UserNotificationDigest := MkDigest {
  d_UserID : Z; d_Enabled : bool; d_Frequency : Frequency; HourUtc : Z; DayOfWeek : option Z;
  LastSentAt : option Z; NextSendAt : option Z }.

Record Issue := MkIssue { i_Kind : ThreadKind; i_RepoID : Z; i_AuthorUserID : option Z; i_Number : Z; i_Title : string }.

Record User := MkUser { u_Username : string; u_DisplayName : string; u_DeletedAt : option Z; u_PrimaryEmailID : option Z }.

Record UserEmail := MkEmail { em_Email : string; em_Verified : bool }.

Record Tables := MkTables {
  domain_events : gmap Z DomainEvent; next_event : Z;
  last_event_id : option Z; (* domain_events_processed, of the one consumer *)
  notifications : gmap Z Notification; next_notification : Z;
  notification_threads : gmap (Z * Thread) NotificationThread;
  notification_email_log : list EmailLog;
  user_notification_rules : gmap Z UserNotificationRule; next_rule : Z;
  user_notification_digests : gmap Z UserNotificationDigest;
  user_notification_prefs : gmap (Z * string) string; (* the JSON *)
  issues : gmap Z Issue; issue_assignees : list (Z * Z); (* by assigned_at *)
  repos : gmap Z Policy.RepoRow; repo_names : gmap Z string; roles : Policy.Store;
  watches : gmap (Z * Z) string; (* user, repository *)
  users : gmap Z User; user_emails : gmap Z UserEmail; confirmed_totp : gset Z }.

(** [Violation]: a constraint; [NoRows]: the statement has no row to scan; [Fault_]: the connection. *)
Inductive DBErr := Violation | NoRows | Fault_.

#[export] Instance DBErr_eq_dec : EqDecision DBErr.
Proof. solve_decision. Defined.

Definition tx (X : Type) : Type := Z → Tables → res DBErr (X * Tables).

(** A statement that only reads. *)
Definition reads {X} (f : Z → Tables → res DBErr X) : tx X := fun now t => match f now t with Ok x => Ok (x, t) | Err e => Err e end.

Definition one {X} (o : option X) : res DBErr X := match o with Some x => Ok x | None => Err NoRows end.

Definition with_notifications (t : Tables) (m : gmap Z Notification) (n : Z) : Tables :=
  MkTables (domain_events t) (next_event t) (last_event_id t) m n (notification_threads t) (notification_email_log t)
    (user_notification_rules t) (next_rule t) (user_notification_digests t) (user_notification_prefs t) (issues t) (issue_assignees t)
    (repos t) (repo_names t) (roles t) (watches t) (users t) (user_emails t) (confirmed_totp t).
Definition with_events (t : Tables) (m : gmap Z DomainEvent) (n : Z) (c : option Z) : Tables :=
  MkTables m n c (notifications t) (next_notification t) (notification_threads t) (notification_email_log t)
    (user_notification_rules t) (next_rule t) (user_notification_digests t) (user_notification_prefs t) (issues t) (issue_assignees t)
    (repos t) (repo_names t) (roles t) (watches t) (users t) (user_emails t) (confirmed_totp t).
Definition with_threads (t : Tables) (m : gmap (Z * Thread) NotificationThread) (l : list EmailLog) : Tables :=
  MkTables (domain_events t) (next_event t) (last_event_id t) (notifications t) (next_notification t) m l
    (user_notification_rules t) (next_rule t) (user_notification_digests t) (user_notification_prefs t) (issues t) (issue_assignees t)
    (repos t) (repo_names t) (roles t) (watches t) (users t) (user_emails t) (confirmed_totp t).
Definition with_rules (t : Tables) (m : gmap Z UserNotificationRule) (n : Z) (d : gmap Z UserNotificationDigest) : Tables :=
  MkTables (domain_events t) (next_event t) (last_event_id t) (notifications t) (next_notification t) (notification_threads t)
    (notification_email_log t) m n d (user_notification_prefs t) (issues t) (issue_assignees t)
    (repos t) (repo_names t) (roles t) (watches t) (users t) (user_emails t) (confirmed_totp t).

(** ** Statements *)

(** Of social: the number is drawn when the row is inserted; others see the row at the commit. *)
Definition nextval_event : tx Z := fun _ t =>
  Ok (next_event t, with_events t (domain_events t) (next_event t + 1) (last_event_id t)).

Definition fk {X} (m : gmap Z X) (o : option Z) : bool := match o with None => true | Some id => bool_decide (is_Some (m !! id)) end.

Definition InsertDomainEvent (e : DomainEvent) : tx unit := fun _ t =>
  if RateLimit.column 64 (ev_Kind e) && RateLimit.column 32 (ev_SourceKind e) && fk (users t) (ev_ActorUserID e) && fk (repos t) (ev_RepoID e)
  then Ok ((), with_events t (<[ev_ID e := e]> (domain_events t)) (next_event t) (last_event_id t))
  else Err Violation.

Definition GetEventCursor : tx Z := reads (fun _ t => one (last_event_id t)).

Definition SetEventCursor (last : Z) : tx unit := fun _ t =>
  Ok ((), with_events t (domain_events t) (next_event t) (Some last)).

Definition by_id (a b : DomainEvent) : Prop := ev_ID a <= ev_ID b.
#[export] Instance by_id_dec a b : Decision (by_id a b) := Z_le_dec _ _.

Definition ListUnprocessedDomainEvents (last : Z) (limit : nat) : tx (list DomainEvent) := reads (fun _ t =>
  Ok (take limit (merge_sort by_id (filter (fun e => last < ev_ID e) (map_to_list (domain_events t)).*2)))).

Definition GetIssueByID (id : Z) : tx Issue := reads (fun _ t => one (issues t !! id)).

Definition ListIssueAssignees (id : Z) : tx (list Z) := reads (fun _ t => Ok (filter (fun a => a.1 = id) (issue_assignees t)).*2).

Definition ListSubscribersForThread (th : Thread) : tx (list Z) := reads (fun _ t =>
  Ok (filter (fun x => x.1.2 = th ∧ Subscribed x.2 = true) (map_to_list (notification_threads t))).*1.*1).

Definition ListRepoWatchersByLevel (repo : Z) (level : string) : tx (list Z) := reads (fun _ t =>
  Ok (filter (fun x => x.1.2 = repo ∧ x.2 = level) (map_to_list (watches t))).*1.*1).

Definition GetWatch (user repo : Z) : tx string := reads (fun _ t => one (watches t !! (user, repo))).

Definition GetRepoByID (id : Z) : tx Policy.RepoRow := reads (fun _ t => one (repos t !! id)).

Definition HasConfirmedUserTOTP (user : Z) : tx bool := reads (fun _ t => Ok (bool_decide (user ∈ confirmed_totp t))).

(** The statements of the policy, taken as one; those that fail are the oracle's of [Policy.Store]. *)
Definition IsVisibleTo (actor : Policy.Actor) (repo : Policy.RepoRow) : tx bool := reads (fun _ t =>
  Ok (Policy.IsVisibleTo None {| Policy.Pool := Some (roles t) |} actor (Policy.NewRepoRefFromRepo repo)).2).

Definition InsertNotificationThreadIfAbsent (user : Z) (th : Thread) (subscribed : bool) (reason : string) : tx unit := fun _ t =>
  match notification_threads t !! (user, th) with
  | Some _ => Ok ((), t)
  | None =>
      if fk (users t) (Some user)
      then Ok ((), with_threads t (<[(user, th) := MkThread subscribed reason]> (notification_threads t)) (notification_email_log t))
      else Err Violation
  end.

Definition UpsertNotificationThread (user : Z) (th : Thread) (subscribed : bool) (reason : string) : tx unit := fun _ t =>
  if fk (users t) (Some user)
  then Ok ((), with_threads t (<[(user, th) := MkThread subscribed reason]> (notification_threads t)) (notification_email_log t))
  else Err Violation.

(** The row of a recipient for a thread: the unique index has at most one. *)
Definition coalesced (user : Z) (th : Thread) (n : Notification) : Prop := RecipientUserID n = user ∧ n_Thread n = Some th.
#[export] Instance coalesced_dec user th n : Decision (coalesced user th n) := and_dec _ _.

Definition inbox_row (t : Tables) (user : Z) (th : Thread) : option Notification :=
  snd <$> head (filter (fun x => coalesced user th x.2) (map_to_list (notifications t))).

Definition insert_ok (t : Tables) (user : Z) (kind reason : string) (repo actor : option Z) : bool :=
  RateLimit.column 64 kind && RateLimit.column 32 reason && fk (users t) (Some user) && fk (repos t) repo && fk (users t) actor.

Definition insert_row (t : Tables) (n : Notification) : Tables :=
  with_notifications t (<[n_ID n := n]> (notifications t)) (next_notification t + 1).

Definition update_row (t : Tables) (n : Notification) : Tables :=
  with_notifications t (<[n_ID n := n]> (notifications t)) (next_notification t).

Definition UpsertNotificationByThread (user : Z) (kind reason : string) (repo : option Z) (th : Thread) (source : Z) (actor : option Z)
  : tx Notification := fun now t =>
  if insert_ok t user kind reason repo actor then
    match inbox_row t user th with
    | Some n =>
        let n' := MkNotification (n_ID n) user kind reason (n_RepoID n) (Some th) (Some source) true now actor
                    (SnoozedUntil n) (TabLabel n) (MatchedRuleID n) in
        Ok (n', update_row t n')
    | None =>
        let n' := MkNotification (next_notification t) user kind reason repo (Some th) (Some source) true now actor None None None in
        Ok (n', insert_row t n')
    end
  else Err Violation.

Definition InsertThreadlessNotification (user : Z) (kind reason : string) (repo : option Z) (source : Z) (actor : option Z)
  : tx Notification := fun now t =>
  if insert_ok t user kind reason repo actor then
    let n' := MkNotification (next_notification t) user kind reason repo None (Some source) true now actor None None None in
    Ok (n', insert_row t n')
  else Err Violation.

(** UPDATE ... WHERE of rows of the inbox. *)
Definition update_rows (p : Notification → bool) (f : Notification → Notification) : tx unit := fun _ t =>
  Ok ((), with_notifications t ((fun n => if p n then f n else n) <$> notifications t) (next_notification t)).

Definition set_rule (n : Notification) (snooze : option Z) (tab : option string) (unread : bool) (rule : Z) : Notification :=
  MkNotification (n_ID n) (RecipientUserID n) (n_Kind n) (n_Reason n) (n_RepoID n) (n_Thread n) (SourceEventID n) unread (LastEventAt n)
    (LastActorUserID n) snooze tab (Some rule).

Definition has_id (id : Z) (n : Notification) : bool := bool_decide (n_ID n = id).

(** The rule that matched must still exist, when there is a row to update. *)
Definition apply_rule (id rule : Z) (f : Notification → Notification) : tx unit := fun now t =>
  if fk (notifications t) (Some id) && negb (fk (user_notification_rules t) (Some rule)) then Err Violation
  else update_rows (has_id id) f now t.

Definition ApplyRuleSnooze (id until rule : Z) : tx unit := apply_rule id rule (fun n => set_rule n (Some until) (TabLabel n) (Unread n) rule).
Definition ApplyRuleTab (id : Z) (tab : string) (rule : Z) : tx unit := apply_rule id rule (fun n => set_rule n (SnoozedUntil n) (Some tab) (Unread n) rule).
Definition ApplyRuleMarkRead (id rule : Z) : tx unit := apply_rule id rule (fun n => set_rule n (SnoozedUntil n) (TabLabel n) false rule).
Definition ApplyRuleDrop (id rule : Z) : tx unit := apply_rule id rule (fun n => set_rule n (SnoozedUntil n) (Some "dropped") (Unread n) rule).

Definition set_unread (u : bool) (n : Notification) : Notification :=
  MkNotification (n_ID n) (RecipientUserID n) (n_Kind n) (n_Reason n) (n_RepoID n) (n_Thread n) (SourceEventID n) u (LastEventAt n)
    (LastActorUserID n) (SnoozedUntil n) (TabLabel n) (MatchedRuleID n).

Definition SetNotificationRead (id user : Z) : tx unit :=
  update_rows (fun n => has_id id n && bool_decide (RecipientUserID n = user)) (set_unread false).
Definition SetNotificationUnread (id user : Z) : tx unit :=
  update_rows (fun n => has_id id n && bool_decide (RecipientUserID n = user)) (set_unread true).
Definition MarkAllReadForRecipient (user : Z) : tx unit :=
  update_rows (fun n => bool_decide (RecipientUserID n = user) && Unread n) (set_unread false).

Definition GetNotification (id : Z) : tx Notification := reads (fun _ t => one (notifications t !! id)).

Definition by_position (a b : UserNotificationRule) : Prop :=
  r_Position a < r_Position b ∨ (r_Position a = r_Position b ∧ r_ID a <= r_ID b).
#[export] Instance by_position_dec a b : Decision (by_position a b) := or_dec _ _.

Definition ListEnabledUserNotificationRules (user : Z) : tx (list UserNotificationRule) := reads (fun _ t =>
  Ok (merge_sort by_position (filter (fun r => r_UserID r = user ∧ r_Enabled r = true) (map_to_list (user_notification_rules t)).*2))).

Definition CountEmailsForRecipientThreadSince (user : Z) (th : Thread) (mins : Z) : tx Z := reads (fun now t =>
  Ok (Z.of_nat (length (filter (fun l => el_Recipient l = user ∧ el_Thread l = Some th ∧ now - mins * minute < SentAt l) (notification_email_log t))))).

Definition CountEmailsForRecipientSince (user : Z) (mins : Z) : tx Z := reads (fun now t =>
  Ok (Z.of_nat (length (filter (fun l => el_Recipient l = user ∧ now - mins * minute < SentAt l) (notification_email_log t))))).

Definition InsertEmailLog (user id : Z) (th : option Thread) : tx unit := fun now t =>
  if fk (users t) (Some user) && fk (notifications t) (Some id)
  then Ok ((), with_threads t (notification_threads t) (notification_email_log t ++ [MkEmailLog user id th now]))
  else Err Violation.

Definition GetUserByID (id : Z) : tx User := reads (fun _ t =>
  one (match users t !! id with Some u => if bool_decide (u_DeletedAt u = None) then Some u else None | None => None end)).
Definition GetUserEmailByID (id : Z) : tx UserEmail := reads (fun _ t => one (user_emails t !! id)).

(** The query of emailPrefOn. *)
Definition get_pref (user : Z) (key : string) : tx string := reads (fun _ t => one (user_notification_prefs t !! (user, key))).

(** The query of buildThreadURL: name of the owner, of the repository, and the number, that is NULL when the issue is gone. *)
Definition thread_names (th repo : Z) : tx (string * string * option Z) := reads (fun _ t =>
  one (match repos t !! repo, repo_names t !! repo with
       | Some r, Some name =>
           match Policy.row_OwnerUserID r ≫= (fun o => users t !! o) with
           | Some u => Some (u_Username u, name, i_Number <$> issues t !! th)
           | None => None
           end
       | _, _ => None
       end)).

(** ** routing.go *)

Definition ReasonMention : string := "mention".
Definition ReasonAssignment : string := "assignment".
Definition ReasonReviewRequested : string := "review_requested".
Definition ReasonAuthor : string := "author".
Definition ReasonCommenter : string := "commenter".
Definition ReasonSubscribed : string := "subscribed".
Definition ReasonWatching : string := "watching".
Definition ReasonRepoAdminAction : string := "repo_admin_action".

Inductive Relation :=
| RelMention | RelAssignee | RelReviewer | RelAuthor | RelCommenter | RelSubscribedThread | RelWatchingAll
| RelWatchingParticipating | RelRepoOwner.

#[export] Instance Relation_eq_dec : EqDecision Relation.
Proof. solve_decision. Defined.

Record Action := MkAction { NotifyInbox : bool; EmailDefault : bool; OverrideIgnore : bool; a_Reason : string }.

Definition Skip : Action := MkAction false false false "".

Definition mention_action : Action := MkAction true true true ReasonMention.

Definition Routing (kind : string) (rel : Relation) : Action :=
  if bool_decide (kind ∈ ["issue_created"; "pr_opened"]) then
    match rel with
    | RelMention => mention_action
    | RelWatchingAll => MkAction true true false ReasonWatching
    | _ => Skip
    end
  else if bool_decide (kind ∈ ["issue_comment_created"; "pr_comment_created"]) then
    match rel with
    | RelMention => mention_action
    | RelAssignee => MkAction true true false ReasonAssignment
    | RelAuthor => MkAction true true false ReasonAuthor
    | RelCommenter => MkAction true true false ReasonCommenter
    | RelSubscribedThread => MkAction true true false ReasonSubscribed
    | RelWatchingAll => MkAction true true false ReasonWatching
    | _ => Skip
    end
  else if bool_decide (kind ∈ ["issue_assigned"; "pr_assigned"]) then
    match rel with
    | RelAssignee => MkAction true true false ReasonAssignment
    | RelMention => mention_action
    | _ => Skip
    end
  else if bool_decide (kind ∈ ["issue_closed"; "issue_reopened"; "pr_closed"; "pr_reopened"; "pr_merged"]) then
    match rel with
    | RelAuthor => MkAction true true false ReasonAuthor
    | RelAssignee => MkAction true true false ReasonAssignment
    | RelSubscribedThread => MkAction true true false ReasonSubscribed
    | RelWatchingAll => MkAction true false false ReasonWatching
    | _ => Skip
    end
  else if bool_decide (kind = "review_requested") then
    match rel with RelReviewer => MkAction true true true ReasonReviewRequested | _ => Skip end
  else if bool_decide (kind = "review_submitted") then
    match rel with
    | RelAuthor => MkAction true true false ReasonAuthor
    | RelSubscribedThread => MkAction true false false ReasonSubscribed
    | _ => Skip
    end
  else if bool_decide (kind = "mentioned") then match rel with RelMention => mention_action | _ => Skip end
  else if bool_decide (kind ∈ ["check_failed"; "check_fixed"]) then
    match rel with RelAuthor => MkAction true false false ReasonAuthor | _ => Skip end
  else if bool_decide (kind ∈ ["repo_archived"; "repo_unarchived"; "repo_visibility_changed"; "repo_soft_deleted"; "repo_restored";
       "repo_transfer_requested"; "repo_transfer_accepted"; "repo_transfer_declined"; "repo_transfer_canceled"; "repo_transfer_expired"]) then
    match rel with RelRepoOwner => MkAction true true false ReasonRepoAdminAction | _ => Skip end
  else Skip.

Definition EmailPrefKey (reason : string) : string :=
  if bool_decide (reason = ReasonMention) then "mentions_email"
  else if bool_decide (reason = ReasonAssignment) then "assignments_email"
  else if bool_decide (reason = ReasonReviewRequested) then "pr_review_requests_email"
  else if bool_decide (reason ∈ [ReasonAuthor; ReasonCommenter; ReasonSubscribed; ReasonWatching]) then "issues_email"
  else if bool_decide (reason = ReasonRepoAdminAction) then "repo_admin_action_email"
  else "".

Definition isLifecycleEvent (kind : string) : bool :=
  bool_decide (kind ∈ ["repo_archived"; "repo_unarchived"; "repo_visibility_changed"; "repo_soft_deleted"; "repo_restored";
    "repo_transfer_requested"; "repo_transfer_accepted"; "repo_transfer_declined"; "repo_transfer_canceled"; "repo_transfer_expired"]).

(** The first relation that notifies. *)
Fixpoint pickAction (kind : string) (rels : list Relation) : Action :=
  match rels with
  | [] => Skip
  | rel :: rels => let a := Routing kind rel in if NotifyInbox a then a else pickAction kind rels
  end.

(** ** Programs *)

Record Message := MkMessage { From : string; To : string; Subject : string; HTML : string; Text : string }.

(** What happens; the answer of a statement is that of the database. *)
Inductive Event :=
| EvCommitted (e : DomainEvent) (r : res DBErr unit)
| EvNumber (r : res DBErr Z)
| EvCursor (r : res DBErr Z)
| EvListed (last : Z) (r : res DBErr (list DomainEvent))
| EvRelations (e : DomainEvent) (m : gmap Z (list Relation))
| EvSaw (id user : Z) (r : res DBErr bool)
| EvIgnored (id user : Z) (ignored : bool)
| EvInbox (e : DomainEvent) (user : Z) (a : Action) (r : res DBErr Notification)
| EvPref (id user : Z) (key : string) (r : res DBErr string)
| EvThreadMails (id user : Z) (th : Thread) (r : res DBErr Z)
| EvMails (id user : Z) (r : res DBErr Z)
| EvAccount (id user : Z) (r : res DBErr User)
| EvAddress (id address : Z) (r : res DBErr UserEmail)
| EvMail (id user : Z) (a : Action) (th : option Thread) (n : Notification) (m : Message)
| EvDispatched (e : DomainEvent)
| EvAdvanced (last : Z) (r : res DBErr unit)
| EvRow (user id : Z) (r : res DBErr unit)
| EvSubscribed (user : Z) (th : Thread) (subscribed : bool) (r : res DBErr unit)
| EvDigest (user : Z) (m : Message)
| EvOther.

Definition P : Type → Type := prog Tables DBErr Event.

Definition clock : P Z := Ask e_now (fun _ => []) Ret.
Definition exec {X} (t : tx X) (ev : res DBErr X → Event) : P (res DBErr X) := Sql t ev Ret.
Definition ask {X} (t : tx X) : P (res DBErr X) := exec t (fun _ => EvOther).

(** Nothing but a note of what was decided. *)
Definition note (ev : Event) : P () := Ask (fun _ => ()) (fun _ => [ev]) Ret.

Definition send (ev : Event) : P bool := Ask e_mail (fun _ => [ev]) Ret.

Record Deps := MkDeps {
  EmailSender : bool; (* whether there is one *) EmailFrom : string; SiteName : string; BaseURL : string; UnsubscribeKey : string;
  EnforceFree : bool; EnforceDigests : bool }.

(** *** Text (email.go) *)

Definition nl : string := String "010"%char "".
Definition quote : string := String "034"%char "".

Definition site_or (s : string) : string := if bool_decide (s = "") then "shithub" else s.

Fixpoint TrimRightSlash (s : string) : string :=
  match s with
  | "" => ""
  | String c s => let r := TrimRightSlash s in if is_byte c "/"%char && bool_decide (r = "") then "" else String c r
  end.

(** html.EscapeString. *)
Fixpoint EscapeString (s : string) : string :=
  match s with
  | "" => ""
  | String c s =>
      (if is_byte c "&"%char then "&amp;" else if is_byte c "'"%char then "&#39;" else if is_byte c "<"%char then "&lt;"
       else if is_byte c ">"%char then "&gt;" else if is_byte c "034"%char then "&#34;" else String c "") +:+ EscapeString s
  end.

Definition buildSubject (site kind reason : string) : string := "[" +:+ site_or site +:+ "] " +:+ reason +:+ ": " +:+ kind.

Definition buildPlainBody (site kind reason link : string) : string :=
  "You're being notified on " +:+ site_or site +:+ "." +:+ nl +:+ nl +:+ "Reason: " +:+ reason +:+ nl +:+ "Event: " +:+ kind +:+ nl +:+
  (if bool_decide (link = "") then "" else nl +:+ link +:+ nl) +:+ nl +:+ "— " +:+ site_or site +:+ nl.

Definition buildHTMLBody (site kind reason link : string) : string :=
  "<p>You're being notified on " +:+ EscapeString (site_or site) +:+ ".</p>" +:+ nl +:+ "<p><strong>Reason:</strong> " +:+
  EscapeString reason +:+ "<br><strong>Event:</strong> " +:+ EscapeString kind +:+ "</p>" +:+ nl +:+
  (if bool_decide (link = "") then ""
   else "<p><a href=" +:+ quote +:+ EscapeString link +:+ quote +:+ ">" +:+ EscapeString link +:+ "</a></p>" +:+ nl) +:+
  "<p>— " +:+ EscapeString (site_or site) +:+ "</p>" +:+ nl.

Definition home_url (base : string) : string := TrimRightSlash base +:+ "/notifications".

(** The link of a thread, or that of the inbox. *)
Definition buildThreadURL (base : string) (n : Notification) : P string :=
  match n_RepoID n, n_Thread n with
  | Some repo, Some th =>
      row ← ask (GetNotification (n_ID n));
      match row with
      | Err _ => mret (home_url base)
      | Ok _ =>
          names ← ask (thread_names th.2 repo);
          mret match names with
               | Ok (owner, name, Some number) =>
                   if bool_decide (number = 0) then home_url base
                   else TrimRightSlash base +:+ "/" +:+ owner +:+ "/" +:+ name +:+ "/" +:+
                        match th.1 with ThreadPr => "pulls" | ThreadIssue => "issues" end +:+ "/" +:+ pretty number
               | _ => home_url base
               end
      end
  | _, _ => mret (home_url base)
  end.

Section Lib.

(** HMAC-SHA-256 of a key and a text; the entitlements, by feature and user. *)
Context (hmac : string → string → string) (CheckPrincipalFeature : string → Z → Z → bool).

(** The order in which the two ranges over the recipients of an event go through the map. *)
Context (order : Z → bool → list (Z * list Relation) → list (Z * list Relation)).

Context (deps : Deps).

Definition HMACSig (key payload : string) : string := Encoding.EncodeToString Encoding.b64_url 6 (hmac key payload).

Definition unsubscribe_payload (user : Z) (kind : string) (th : Z) : string := pretty user +:+ ":" +:+ kind +:+ ":" +:+ pretty th.

Definition VerifyUnsubscribe (key : string) (user : Z) (kind : string) (th : Z) (sig : string) : bool :=
  bool_decide (sig = HMACSig key (unsubscribe_payload user kind th)).

Definition unsubscribeURL (base key : string) (user : Z) (th : option Thread) : string :=
  match th with
  | None => TrimRightSlash base +:+ "/settings/notifications"
  | Some (k, id) =>
      TrimRightSlash base +:+ "/notifications/unsubscribe?u=" +:+ pretty user +:+ "&tk=" +:+ kind_text k +:+ "&ti=" +:+ pretty id +:+
      "&sig=" +:+ HMACSig key (unsubscribe_payload user (kind_text k) id)
  end.

(** *** Rules (internal/notifications/rules.go) *)

Record Decision_ := MkDecision { RuleID : Z; d_Action : RuleAction; SnoozeUntil : Z; d_Tab : string }.

Definition opt_is {A} `{EqDecision A} (o : option A) (x : option A) : bool := match o with None => true | Some _ => bool_decide (o = x) end.

Definition matches (r : UserNotificationRule) (n : Notification) : bool :=
  opt_is (MatchReason r) (Some (n_Reason n)) && opt_is (MatchKind r) (Some (n_Kind n)) && opt_is (MatchRepoID r) (n_RepoID n) &&
  opt_is (MatchActorID r) (LastActorUserID n).

(** A Duration has 64 bits. *)
Definition buildDecision (r : UserNotificationRule) (now : Z) : Decision_ :=
  MkDecision (r_ID r) (r_Action r)
    (match r_Action r, ActionSnoozeMinutes r with Snooze, Some m => now + AdvisoryMatch.wrap64 (m * minute) | _, _ => 0 end)
    (match r_Action r, ActionTab r with Tab, Some s => s | _, _ => "" end).

(** CheckPrincipalFeature, a query that may fail; without an answer only an enforced limit counts. *)
Definition allowedForRecipient (feature : string) (enforce : bool) (user : Z) : P bool :=
  r ← ask (reads (fun now _ => Ok (CheckPrincipalFeature feature user now)));
  mret match r with Ok true => true | _ => negb enforce end.

Definition FeatureInboxRules : string := "inbox_rules".
Definition FeatureInboxDigests : string := "inbox_digests".

Definition Evaluate (n : Notification) : P (res DBErr (option Decision_)) :=
  rules ← ask (ListEnabledUserNotificationRules (RecipientUserID n));
  match rules with
  | Err e => mret (Err e)
  | Ok [] => mret (Ok None)
  | Ok rules =>
      ok ← allowedForRecipient FeatureInboxRules (EnforceFree deps) (RecipientUserID n);
      if negb ok then mret (Ok None)
      else
        match List.find (fun r => matches r n) rules with
        | None => mret (Ok None)
        | Some r => now ← clock; mret (Ok (Some (buildDecision r now)))
        end
  end.

Definition rule_statement (n : Notification) (d : Decision_) : tx unit :=
  match d_Action d with
  | Snooze => ApplyRuleSnooze (n_ID n) (SnoozeUntil d) (RuleID d)
  | Tab => ApplyRuleTab (n_ID n) (d_Tab d) (RuleID d)
  | MarkRead => ApplyRuleMarkRead (n_ID n) (RuleID d)
  | Drop => ApplyRuleDrop (n_ID n) (RuleID d)
  end.

(** The row as the caller goes on with it. *)
Definition ruled (n : Notification) (d : Decision_) : Notification :=
  match d_Action d with
  | Snooze => set_rule n (Some (SnoozeUntil d)) (TabLabel n) (Unread n) (RuleID d)
  | Tab => set_rule n (SnoozedUntil n) (Some (d_Tab d)) (Unread n) (RuleID d)
  | MarkRead => set_rule n (SnoozedUntil n) (TabLabel n) false (RuleID d)
  | Drop => set_rule n (SnoozedUntil n) (Some "dropped") (Unread n) (RuleID d)
  end.

(** Errors are logged by the caller, which goes on with the row as it was. *)
Definition applyRuleDecision (n : Notification) : P Notification :=
  d ← Evaluate n;
  match d with
  | Ok (Some d) => r ← ask (rule_statement n d); mret match r with Ok _ => ruled n d | Err _ => n end
  | _ => mret n
  end.

(** *** Mail *)

Definition shouldEmail (a : Action) (n : Notification) : bool :=
  EmailDefault a && bool_decide (SnoozedUntil n = None) && negb (bool_decide (TabLabel n = Some "dropped")).

Definition StormPerThreadCap : Z := 1.
Definition StormPerThreadMins : Z := 10.
Definition StormAbsoluteCap : Z := 100.
Definition StormAbsoluteMins : Z := 60.

(** Reads of the mail of event [id]; what is noted is what was asked for. *)
Definition read_account (id user : Z) : P (res DBErr User) := exec (GetUserByID user) (EvAccount id user).
Definition read_address (id address : Z) : P (res DBErr UserEmail) := exec (GetUserEmailByID address) (EvAddress id address).
Definition read_pref (id user : Z) (key : string) : P (res DBErr string) := exec (get_pref user key) (EvPref id user key).
Definition count_thread_mails (id user : Z) (th : Thread) : P (res DBErr Z) :=
  exec (CountEmailsForRecipientThreadSince user th StormPerThreadMins) (EvThreadMails id user th).
Definition count_mails (id user : Z) : P (res DBErr Z) := exec (CountEmailsForRecipientSince user StormAbsoluteMins) (EvMails id user).

Definition sendNotificationEmail (id user : Z) (a : Action) (n : Notification) (th : option Thread) : P () :=
  if negb (EmailSender deps) then mret ()
  else
    user_row ← read_account id user;
    match user_row with
    | Err _ => mret ()
    | Ok u =>
        match u_PrimaryEmailID u with
        | None => mret ()
        | Some mail_id =>
            em ← read_address id mail_id;
            match em with
            | Err _ => mret ()
            | Ok em =>
                if negb (em_Verified em) then mret ()
                else
                  url ← buildThreadURL (BaseURL deps) n;
                  let m := MkMessage (EmailFrom deps) (em_Email em) (buildSubject (SiteName deps) (n_Kind n) (a_Reason a))
                             (buildHTMLBody (SiteName deps) (n_Kind n) (a_Reason a) url)
                             (buildPlainBody (SiteName deps) (n_Kind n) (a_Reason a) url +:+ nl +:+ "Unsubscribe: " +:+
                              unsubscribeURL (BaseURL deps) (UnsubscribeKey deps) user th +:+ nl) in
                  sent ← send (EvMail id user a th n m);
                  if negb sent then mret () else ask (InsertEmailLog user (n_ID n) th) ≫= fun _ => mret ()
            end
        end
    end.

(** Whether the preference lets the mail pass; None: an error, that ends the mail. *)
Definition pref_on (r : res DBErr string) : option bool :=
  match r with
  | Ok raw => Some (bool_decide (TrimSpace raw = "true"))
  | Err NoRows => Some true
  | Err _ => None
  end.

Definition emailPrefOn (id user : Z) (key : string) : P (option bool) :=
  if bool_decide (key = "") then mret (Some true)
  else r ← read_pref id user key; mret (pref_on r).

Definition below (cap : Z) (r : res DBErr Z) : bool := match r with Ok n => bool_decide (n < cap) | Err _ => false end.

Definition thread_below (id user : Z) (th : option Thread) : P bool :=
  match th with
  | None => mret true
  | Some th => r ← count_thread_mails id user th; mret (below StormPerThreadCap r)
  end.

Definition maybeSendEmail (id user : Z) (a : Action) (n : Notification) (th : option Thread) : P () :=
  on ← emailPrefOn id user (EmailPrefKey (a_Reason a));
  match on with
  | Some true =>
      ok ← thread_below id user th;
      if negb ok then mret ()
      else
        r ← count_mails id user;
        if negb (below StormAbsoluteCap r) then mret () else sendNotificationEmail id user a n th
  | _ => mret ()
  end.

(** *** Recipients (fanout.go) *)

Definition add (user : Z) (rel : Relation) (m : gmap Z (list Relation)) : gmap Z (list Relation) :=
  let rels := default [] (m !! user) in <[user := if bool_decide (rel ∈ rels) then rels else rels ++ [rel]]> m.

Definition add_all (users : list Z) (rel : Relation) (m : gmap Z (list Relation)) : gmap Z (list Relation) :=
  foldl (fun m user => add user rel m) m users.

(** The rows of a query whose error is passed over. *)
Definition rows {X} (r : res DBErr (list X)) : list X := match r with Ok l => l | Err _ => [] end.

Definition threadFromEvent (e : DomainEvent) : P (res DBErr (option Thread)) :=
  if bool_decide (ev_SourceKind e = "issue") then
    r ← ask (GetIssueByID (ev_SourceID e));
    mret match r with
         | Ok i => Ok (Some (i_Kind i, ev_SourceID e))
         | Err NoRows => Ok None
         | Err err => Err err
         end
  else mret (Ok None).

Definition thread_recipients (th : Thread) (m : gmap Z (list Relation)) : P (gmap Z (list Relation)) :=
  issue ← ask (GetIssueByID th.2);
  m ← match issue with
      | Err _ => mret m
      | Ok i =>
          let m := match i_AuthorUserID i with Some u => add u RelAuthor m | None => m end in
          assignees ← ask (ListIssueAssignees th.2); mret (add_all (rows assignees) RelAssignee m)
      end;
  subs ← ask (ListSubscribersForThread th); mret (add_all (rows subs) RelSubscribedThread m).

Definition computeRecipients (e : DomainEvent) (th : option Thread) : P (gmap Z (list Relation)) :=
  let m := add_all (ev_Mentions e) RelMention ∅ in
  m ← match th with Some th => thread_recipients th m | None => mret m end;
  m ← match ev_RepoID e with
      | Some repo => watchers ← ask (ListRepoWatchersByLevel repo "all"); mret (add_all (rows watchers) RelWatchingAll m)
      | None => mret m
      end;
  m ← match ev_RepoID e with
      | Some repo =>
          if isLifecycleEvent (ev_Kind e) then
            r ← ask (GetRepoByID repo);
            mret match r with
                 | Ok r => match Policy.row_OwnerUserID r with Some o => add o RelRepoOwner m | None => m end
                 | Err _ => m
                 end
          else mret m
      | None => mret m
      end;
  let m := if bool_decide (ev_Kind e = "review_requested") && negb (bool_decide (ev_ReviewerUserID e = 0))
           then add (ev_ReviewerUserID e) RelReviewer m else m in
  mret match ev_ActorUserID e with Some a => delete a m | None => m end.

Definition auto_reason (rels : list Relation) : string :=
  foldl (fun reason rel =>
    match rel with
    | RelAuthor => "author"
    | RelAssignee => "assigned"
    | RelReviewer => "review_requested"
    | RelMention => if bool_decide (reason = "") then "mention" else reason
    | RelCommenter => if bool_decide (reason = "") then "commenter" else reason
    | _ => reason
    end) "" rels.

Fixpoint applyAutoSubscriptions (th : Thread) (l : list (Z * list Relation)) : P () :=
  match l with
  | [] => mret ()
  | (user, rels) :: l =>
      if bool_decide (auto_reason rels = "") then applyAutoSubscriptions th l
      else
        exec (InsertNotificationThreadIfAbsent user th true (auto_reason rels)) (fun _ => EvOther) ≫= fun _ => applyAutoSubscriptions th l
  end.

(** *** One recipient *)

Definition canRecipientSeeRepo (id user repo : Z) : P (res DBErr bool) :=
  r ← ask (GetRepoByID repo);
  match r with
  | Err NoRows => note (EvSaw id user (Ok false)) ≫= fun _ => mret (Ok false)
  | Err e => mret (Err e)
  | Ok row =>
      two ← ask (HasConfirmedUserTOTP user);
      match two with
      | Err e => mret (Err e)
      | Ok two =>
          v ← exec (IsVisibleTo (Policy.UserActorWithTwoFactor user "" false false two) row) (EvSaw id user);
          mret (Ok match v with Ok b => b | Err _ => false end)
      end
  end.

Definition repoIgnoredByRecipient (id user repo : Z) : P (res DBErr bool) :=
  r ← ask (GetWatch user repo);
  let answer := match r with Ok level => Ok (bool_decide (level = "ignore")) | Err NoRows => Ok false | Err e => Err e end in
  match answer with Ok b => note (EvIgnored id user b) ≫= fun _ => mret (Ok b) | Err e => mret (Err e) end.

Definition upsertInboxRow (user : Z) (e : DomainEvent) (a : Action) (th : option Thread) : P (res DBErr Notification) :=
  exec (match th with
        | None => InsertThreadlessNotification user (ev_Kind e) (a_Reason a) (ev_RepoID e) (ev_ID e) (ev_ActorUserID e)
        | Some th => UpsertNotificationByThread user (ev_Kind e) (a_Reason a) (ev_RepoID e) th (ev_ID e) (ev_ActorUserID e)
        end) (EvInbox e user a).

(** From the row on: rules and mail, whose errors are logged. *)
Definition after_row (e : DomainEvent) (user : Z) (a : Action) (th : option Thread) (n : Notification) : P () :=
  n ← applyRuleDecision n;
  if shouldEmail a n && EmailSender deps then maybeSendEmail (ev_ID e) user a n th else mret ().

(** A query about the repository, where the event has one. *)
Definition about_repo (e : DomainEvent) (otherwise : bool) (q : Z → P (res DBErr bool)) : P (res DBErr bool) :=
  match ev_RepoID e with None => mret (Ok otherwise) | Some repo => q repo end.

Definition notify (e : DomainEvent) (th : option Thread) (user : Z) (rels : list Relation) : P (res DBErr unit) :=
  if bool_decide (Some user = ev_ActorUserID e) then mret (Ok ())
  else
    seen ← about_repo e true (canRecipientSeeRepo (ev_ID e) user);
    match seen with
    | Err err => mret (Err err)
    | Ok false => mret (Ok ())
    | Ok true =>
        let a := pickAction (ev_Kind e) rels in
        if negb (NotifyInbox a) then mret (Ok ())
        else
          ignored ← (if OverrideIgnore a then mret (Ok false) else about_repo e false (repoIgnoredByRecipient (ev_ID e) user));
          match ignored with
          | Err err => mret (Err err)
          | Ok true => mret (Ok ())
          | Ok false =>
              n ← upsertInboxRow user e a th;
              match n with Err err => mret (Err err) | Ok n => after_row e user a th n ≫= fun _ => mret (Ok ()) end
          end
    end.

Fixpoint notify_all (e : DomainEvent) (th : option Thread) (l : list (Z * list Relation)) : P (res DBErr unit) :=
  match l with
  | [] => mret (Ok ())
  | (user, rels) :: l =>
      r ← notify e th user rels;
      match r with Err err => mret (Err err) | Ok _ => notify_all e th l end
  end.

Definition dispatchEvent (e : DomainEvent) : P (res DBErr unit) :=
  th ← threadFromEvent e;
  match th with
  | Err err => mret (Err err)
  | Ok th =>
      m ← computeRecipients e th;
      note (EvRelations e m) ≫= fun _ =>
      match th with Some th => applyAutoSubscriptions th (order (ev_ID e) false (map_to_list m)) | None => mret () end ≫= fun _ =>
      notify_all e th (order (ev_ID e) true (map_to_list m))
  end.

(** The events in turn, up to the first that fails: the last one done, and how many. *)
Fixpoint dispatch_all (last : Z) (processed : nat) (l : list DomainEvent) : P (Z * nat) :=
  match l with
  | [] => mret (last, processed)
  | e :: l =>
      r ← dispatchEvent e;
      match r with
      | Err _ => mret (last, processed)
      | Ok _ => note (EvDispatched e) ≫= fun _ => dispatch_all (ev_ID e) (S processed) l
      end
  end.

Definition FanoutBatch : nat := 200.

Definition FanoutOnce : P (res DBErr nat) :=
  cur ← exec GetEventCursor EvCursor;
  match cur with
  | Err Violation | Err Fault_ => mret (Err Fault_)
  | Ok _ | Err NoRows =>
      let last := match cur with Ok c => c | Err _ => 0 end in
      events ← exec (ListUnprocessedDomainEvents last FanoutBatch) (EvListed last);
      match events with
      | Err e => mret (Err e)
      | Ok events =>
          '(last, processed) ← dispatch_all last 0 events;
          if bool_decide (processed = 0)%nat then mret (Ok 0%nat)
          else
            r ← exec (SetEventCursor last) (EvAdvanced last);
            mret match r with Ok _ => Ok processed | Err e => Err e end
      end
  end.

(** *** Events (emit.go): the number, then, at the commit of the surrounding transaction, the row *)

Definition EmitTx (e : Z → DomainEvent) : P (res DBErr unit) :=
  id ← exec nextval_event EvNumber;
  match id with
  | Err err => mret (Err err)
  | Ok id => exec (InsertDomainEvent (e id)) (EvCommitted (e id))
  end.

(** *** web/handlers/notifications *)

Inductive Reply := Status (code : Z) | Redirect | Page.

Definition signed_in (viewer : Session.CurrentUser) : bool := negb (bool_decide (Session.ID viewer = 0)).

Definition PolicyActor (u : Session.CurrentUser) : Policy.Actor :=
  Policy.UserActorFromCurrentUser {|
    Policy.v_ID := Session.ID u; Policy.v_Username := Session.Username u; Policy.v_IsSuspended := Session.IsSuspended u;
    Policy.v_IsSiteAdmin := Session.IsSiteAdmin u; Policy.v_HasConfirmedTwoFactor := Session.HasConfirmedTwoFactor u;
    Policy.v_ImpersonatedUserID := Session.cu_ImpersonatedUserID u; Policy.v_RealActorID := Session.RealActorID u;
    Policy.v_ImpersonateWriteOK := Session.cu_ImpersonateWriteOK u |}.

Definition setRead (viewer : Session.CurrentUser) (id : string) (read : bool) : P Reply :=
  if negb (signed_in viewer) then mret (Status 401)
  else
    match Tokens.ParseInt id with
    | None => mret (Status 400)
    | Some id =>
        exec (if read then SetNotificationRead id (Session.ID viewer) else SetNotificationUnread id (Session.ID viewer)) (EvRow (Session.ID viewer) id)
        ≫= fun _ => mret Redirect
    end.

Definition markAllRead (viewer : Session.CurrentUser) : P Reply :=
  if negb (signed_in viewer) then mret (Status 401)
  else ask (MarkAllReadForRecipient (Session.ID viewer)) ≫= fun _ => mret Redirect.

Definition parse_kind (s : string) : option ThreadKind :=
  if bool_decide (s = "issue") then Some ThreadIssue else if bool_decide (s = "pr") then Some ThreadPr else None.

Definition threadAction (viewer : Session.CurrentUser) (kind id : string) (subscribed : bool) : P Reply :=
  if negb (signed_in viewer) then mret (Status 401)
  else
    match parse_kind kind, Tokens.ParseInt id with
    | None, _ => mret (Status 404)
    | Some _, None => mret (Status 400)
    | Some k, Some id =>
        if bool_decide (id <= 0) then mret (Status 400)
        else
          issue ← ask (GetIssueByID id);
          match issue with
          | Err _ => mret (Status 404)
          | Ok issue =>
              if negb (bool_decide (i_Kind issue = k)) then mret (Status 404)
              else
                repo ← ask (GetRepoByID (i_RepoID issue));
                match repo with
                | Err _ => mret (Status 404)
                | Ok repo =>
                    v ← exec (IsVisibleTo (PolicyActor viewer) repo) (fun _ => EvOther);
                    if negb (match v with Ok b => b | Err _ => false end) then mret (Status 404)
                    else
                      exec (UpsertNotificationThread (Session.ID viewer) (k, id) subscribed (if subscribed then "manual" else "manual_unsubscribe"))
                        (EvSubscribed (Session.ID viewer) (k, id) subscribed)
                      ≫= fun _ => mret Redirect
                end
          end
    end.

(** The link of a mail, by its four parameters. *)
Definition unsubscribeViaToken (u tk ti sig : string) : P Reply :=
  match Tokens.ParseInt u, Tokens.ParseInt ti, parse_kind tk with
  | Some user, Some th, Some k =>
      if negb (VerifyUnsubscribe (UnsubscribeKey deps) user tk th sig) then mret (Status 400)
      else exec (UpsertNotificationThread user (k, th) false "email_one_click") (EvSubscribed user (k, th) false) ≫= fun _ => mret Page
  | _, _, _ => mret (Status 400)
  end.

(** *** web/handlers/api/notifications.go *)

Definition notificationsMarkAllRead (auth : Tokens.PATAuth) : P Reply :=
  if bool_decide (Tokens.UserID auth = 0) then mret (Status 401)
  else r ← ask (MarkAllReadForRecipient (Tokens.UserID auth)); mret match r with Ok _ => Status 204 | Err _ => Status 500 end.

(** The body: none, one that is not JSON, or the member unread, if it is there. *)
Definition notificationPatch (auth : Tokens.PATAuth) (id : string) (body : option (option (option bool))) : P Reply :=
  if bool_decide (Tokens.UserID auth = 0) then mret (Status 401)
  else
    match Tokens.ParseInt id with
    | None => mret (Status 404)
    | Some id =>
        n ← ask (GetNotification id);
        match n with
        | Err _ => mret (Status 404)
        | Ok n =>
            if negb (bool_decide (RecipientUserID n = Tokens.UserID auth)) then mret (Status 404)
            else
              match body with
              | Some None => mret (Status 400)
              | _ =>
                  let want := match body with Some (Some (Some b)) => b | _ => false end in
                  r ← exec (if want then SetNotificationUnread id (Tokens.UserID auth) else SetNotificationRead id (Tokens.UserID auth))
                        (EvRow (Tokens.UserID auth) id);
                  mret match r with Ok _ => Status 204 | Err _ => Status 500 end
              end
        end
    end.

End Lib.
