(* ===== verification/Digest.v ===== *)
(** * Digest: digests of the inbox, and the rules and schedules of the settings page

    internal/notifications/digest.go with its statements, web/handlers/auth/notification_rules.go and
    notification_digest.go, on the tables and programs of [Notif]. *)

From stdpp Require Import sorting.
From S2P Require Import Prelude GoString NetIP Program Notif.
From S2P Require Policy Tokens RateLimit Ssrf.
Local Open Scope Z_scope.

(** ** When the next digest is due *)

Definition start_of_day (t : Z) : Z := t / day * day.

(** Day 0 was a Thursday; 0 is Sunday. *)
Definition weekday (t : Z) : Z := (t / day + 4) mod 7.

Definition at_hour (base hourUTC : Z) : Z := start_of_day base + hourUTC * hour.

Definition nextDailyAfter (base hourUTC : Z) : Z :=
  let candidate := at_hour base hourUTC in if bool_decide (base < candidate) then candidate else candidate + day.

(** The loop over the days; None when it has not ended after [rounds]. *)
Fixpoint weekly_loop (rounds : nat) (candidate base dayOfWeek : Z) : option Z :=
  if bool_decide (weekday candidate = dayOfWeek) && bool_decide (base < candidate) then Some candidate
  else match rounds with O => None | S rounds => weekly_loop rounds (candidate + day) base dayOfWeek end.

Definition nextWeeklyAfter (base hourUTC dayOfWeek : Z) : option Z := weekly_loop 7 (at_hour base hourUTC) base dayOfWeek.

Definition NextSendTime (base : Z) (freq : Frequency) (hourUTC dayOfWeek : Z) : option Z :=
  match freq with Weekly => nextWeeklyAfter base hourUTC dayOfWeek | Daily => Some (nextDailyAfter base hourUTC) end.

(** ** Statements *)

Definition with_digests (t : Tables) (m : gmap Z UserNotificationDigest) : Tables := with_rules t (user_notification_rules t) (next_rule t) m.

Definition GetUserNotificationDigest (user : Z) : tx UserNotificationDigest := reads (fun _ t => one (user_notification_digests t !! user)).

(** The constraints on the hour and on the day of the week. *)
Definition digest_ok (freq : Frequency) (hourUTC : Z) (dow : option Z) : bool :=
  bool_decide (0 <= hourUTC <= 23) &&
  match freq, dow with
  | Weekly, Some d => bool_decide (0 <= d <= 6)
  | Weekly, None => true (* a comparison with NULL does not violate the constraint *)
  | Daily, d => bool_decide (d = None)
  end.

Definition UpsertUserNotificationDigest (user : Z) (enabled : bool) (freq : Frequency) (hourUTC : Z) (dow next : option Z)
  : tx unit := fun _ t =>
  if digest_ok freq hourUTC dow && fk (users t) (Some user) then
    let last := user_notification_digests t !! user ≫= LastSentAt in
    Ok ((), with_digests t (<[user := MkDigest user enabled freq hourUTC dow last next]> (user_notification_digests t)))
  else Err Violation.

Definition due (now : Z) (d : UserNotificationDigest) : bool :=
  d_Enabled d && match NextSendAt d with Some n => bool_decide (n <= now) | None => false end.

Definition by_next (a b : UserNotificationDigest) : Prop := default 0 (NextSendAt a) <= default 0 (NextSendAt b).
#[export] Instance by_next_dec a b : Decision (by_next a b) := Z_le_dec _ _.

Definition put_off (next : Z) (d : UserNotificationDigest) : UserNotificationDigest :=
  MkDigest (d_UserID d) (d_Enabled d) (d_Frequency d) (HourUtc d) (DayOfWeek d) (LastSentAt d) (Some next).

Definition ClaimDueNotificationDigests (limit : nat) : tx (list UserNotificationDigest) := fun now t =>
  let l := put_off (now + hour) <$>
    take limit (merge_sort by_next (filter (fun d => due now d = true) (map_to_list (user_notification_digests t)).*2)) in
  Ok (l, with_digests t (foldr (fun d m => <[d_UserID d := d]> m) (user_notification_digests t) l)).

Definition AdvanceUserNotificationDigest (user next : Z) : tx unit := fun now t =>
  Ok ((), with_digests t (alter (fun d => MkDigest (d_UserID d) (d_Enabled d) (d_Frequency d) (HourUtc d) (DayOfWeek d) (Some now) (Some next))
                            user (user_notification_digests t))).

(** A row of the inbox with the names it is joined with, empty where there are none. *)
Record DigestItem := MkItem {
  it_Notification : Notification; it_Actor : string; it_RepoName : string; it_RepoOwner : string; it_Title : string }.

Definition of_opt {X} (m : gmap Z X) (o : option Z) : option X := match o with Some id => m !! id | None => None end.

Definition item (t : Tables) (n : Notification) : DigestItem :=
  let owner := match of_opt (repos t) (n_RepoID n) with Some r => Policy.row_OwnerUserID r | None => None end in
  MkItem n (default "" (u_Username <$> of_opt (users t) (LastActorUserID n))) (default "" (of_opt (repo_names t) (n_RepoID n)))
    (default "" (u_Username <$> of_opt (users t) owner)) (default "" (i_Title <$> of_opt (issues t) (snd <$> n_Thread n))).

(** What the inbox shows by default, of what is unread. *)
Definition awake (now : Z) (n : Notification) : bool :=
  negb (bool_decide (TabLabel n = Some "dropped")) && match SnoozedUntil n with Some s => bool_decide (s <= now) | None => true end.

Definition by_recency (a b : Notification) : Prop := LastEventAt b <= LastEventAt a.
#[export] Instance by_recency_dec a b : Decision (by_recency a b) := Z_le_dec _ _.

Definition ListUnreadNotificationsForDigest (user : Z) : tx (list DigestItem) := reads (fun now t =>
  Ok (item t <$> take 50 (merge_sort by_recency
       (filter (fun n => RecipientUserID n = user ∧ Unread n && awake now n = true) (map_to_list (notifications t)).*2)))).

Definition GetUserNotificationRule (id user : Z) : tx UserNotificationRule := reads (fun _ t =>
  one (match user_notification_rules t !! id with Some r => if bool_decide (r_UserID r = user) then Some r else None | None => None end)).

Definition NextUserNotificationRulePosition (user : Z) : tx Z := reads (fun _ t =>
  Ok (foldr (fun r n => if bool_decide (r_UserID r = user) then Z.max (r_Position r + 1) n else n) 0 (map_to_list (user_notification_rules t)).*2)).

Definition text_or_null (n : nat) (o : option string) : bool := match o with None => true | Some s => RateLimit.column n s end.

Definition rule_ok (t : Tables) (r : UserNotificationRule) : bool :=
  fk (users t) (Some (r_UserID r)) && fk (repos t) (MatchRepoID r) && fk (users t) (MatchActorID r) &&
  RateLimit.column 120 (r_Name r) && bool_decide (0 <= r_Position r) &&
  text_or_null 64 (ActionTab r) && text_or_null 32 (MatchReason r) && text_or_null 64 (MatchKind r) &&
  match r_Action r, ActionSnoozeMinutes r, ActionTab r with
  | Snooze, Some m, None => bool_decide (0 < m)
  | Tab, None, Some _ => true
  | MarkRead, None, None | Drop, None, None => true
  | _, _, _ => false
  end &&
  forallb (fun q => negb (bool_decide (r_UserID q = r_UserID r) && bool_decide (r_Position q = r_Position r))) (map_to_list (user_notification_rules t)).*2.

Definition InsertUserNotificationRule (r : Z → UserNotificationRule) : tx unit := fun _ t =>
  let r := r (next_rule t) in
  if rule_ok t r then Ok ((), with_rules t (<[r_ID r := r]> (user_notification_rules t)) (next_rule t + 1) (user_notification_digests t))
  else Err Violation.

(** Rows that name the rule forget it. *)
Definition forget_rule (id : Z) (n : Notification) : Notification :=
  if bool_decide (MatchedRuleID n = Some id)
  then MkNotification (n_ID n) (RecipientUserID n) (n_Kind n) (n_Reason n) (n_RepoID n) (n_Thread n) (SourceEventID n) (Unread n)
         (LastEventAt n) (LastActorUserID n) (SnoozedUntil n) (TabLabel n) None
  else n.

Definition DeleteUserNotificationRule (id user : Z) : tx Z := fun now t =>
  match GetUserNotificationRule id user now t with
  | Err _ => Ok (0, t)
  | Ok _ =>
      let t := with_rules t (delete id (user_notification_rules t)) (next_rule t) (user_notification_digests t) in
      Ok (1, with_notifications t (forget_rule id <$> notifications t) (next_notification t))
  end.

Definition SetUserNotificationRuleEnabled (id user : Z) (enabled : bool) : tx Z := fun now t =>
  match GetUserNotificationRule id user now t with
  | Err _ => Ok (0, t)
  | Ok (r, _) =>
      let r' := MkRule (r_ID r) (r_UserID r) (r_Name r) enabled (r_Position r) (MatchReason r) (MatchKind r) (MatchRepoID r) (MatchActorID r)
                  (r_Action r) (ActionTab r) (ActionSnoozeMinutes r) in
      Ok (1, with_rules t (<[id := r']> (user_notification_rules t)) (next_rule t) (user_notification_digests t))
  end.

(** ** Sweeping (digest.go) *)

Definition plural (n : nat) : string := if bool_decide (n = 1%nat) then "" else "s".

Definition digestSubject (site : string) (n : nat) : string := "[" +:+ site +:+ "] " +:+ pretty n +:+ " unread notification" +:+ plural n.

Definition item_line (i : nat) (it : DigestItem) : string :=
  pretty (S i) +:+ ". " +:+
  (if bool_decide (it_RepoOwner it = "") || bool_decide (it_RepoName it = "") then ""
   else "[" +:+ it_RepoOwner it +:+ "/" +:+ it_RepoName it +:+ "] ") +:+
  (if bool_decide (it_Title it = "") then "" else it_Title it +:+ " ") +:+ "(" +:+ n_Reason (it_Notification it) +:+ ")" +:+
  (if bool_decide (it_Actor it = "") then "" else " from @" +:+ it_Actor it) +:+ nl.

Definition composeDigest (deps : Deps) (u : User) (items : list DigestItem) : string :=
  "Hi " +:+ (if bool_decide (u_DisplayName u = "") then u_Username u else u_DisplayName u) +:+ "," +:+ nl +:+ nl +:+
  "Your " +:+ SiteName deps +:+ " digest — " +:+ pretty (length items) +:+ " unread notification" +:+ plural (length items) +:+
  " in the last window." +:+ nl +:+ nl +:+ Join (imap item_line items) "" +:+
  nl +:+ "Open your inbox: " +:+ TrimRightSlash (BaseURL deps) +:+ "/notifications" +:+ nl +:+
  "Manage your digest schedule: " +:+ TrimRightSlash (BaseURL deps) +:+ "/settings/notifications" +:+ nl.

Section Lib.
Context (CheckPrincipalFeature : string → Z → Z → bool) (deps : Deps).

Inductive DigestErr := DigestDB (e : DBErr) | SendFailed | NeverDue.

(** [NeverDue]: the loop over the days would not end. *)
Definition advance (d : UserNotificationDigest) : P (res DigestErr unit) :=
  now ← clock;
  match NextSendTime now (d_Frequency d) (HourUtc d) (default 0 (DayOfWeek d)) with
  | None => mret (Err NeverDue)
  | Some next =>
      r ← ask (AdvanceUserNotificationDigest (d_UserID d) next);
      mret match r with Ok _ => Ok () | Err e => Err (DigestDB e) end
  end.

(** The verified primary address, empty when there is none. *)
Definition primaryEmailFor (user : Z) : P (res DBErr string) :=
  u ← ask (GetUserByID user);
  match u with
  | Err e => mret (Err e)
  | Ok u =>
      match u_PrimaryEmailID u with
      | None => mret (Ok "")
      | Some id =>
          em ← ask (GetUserEmailByID id);
          mret match em with Err e => Err e | Ok em => Ok (if em_Verified em then em_Email em else "") end
      end
  end.

Definition send_digest (user : Z) (u : User) (address : string) (items : list DigestItem) : P bool :=
  if negb (EmailSender deps) then mret true
  else send (EvDigest user (MkMessage (EmailFrom deps) address (digestSubject (SiteName deps) (length items)) "" (composeDigest deps u items))).

Definition processOne (d : UserNotificationDigest) : P (res DigestErr unit) :=
  ok ← allowedForRecipient CheckPrincipalFeature FeatureInboxDigests (EnforceDigests deps) (d_UserID d);
  if negb ok then advance d
  else
    u ← ask (GetUserByID (d_UserID d));
    match u with
    | Err e => mret (Err (DigestDB e))
    | Ok u =>
        address ← primaryEmailFor (d_UserID d);
        match address with
        | Err e => mret (Err (DigestDB e))
        | Ok address =>
            if bool_decide (address = "") then advance d
            else
              items ← ask (ListUnreadNotificationsForDigest (d_UserID d));
              match items with
              | Err e => mret (Err (DigestDB e))
              | Ok [] => advance d
              | Ok items =>
                  sent ← send_digest (d_UserID d) u address items;
                  if negb sent then mret (Err SendFailed) else advance d
              end
        end
    end.

Fixpoint process_all (processed : nat) (l : list UserNotificationDigest) : P nat :=
  match l with
  | [] => mret processed
  | d :: l => r ← processOne d; process_all (match r with Ok _ => S processed | Err _ => processed end) l
  end.

Definition DigestSweepBatch : nat := 100.

Definition SweepOnce : P (res DBErr nat) :=
  l ← ask (ClaimDueNotificationDigests DigestSweepBatch);
  match l with Err e => mret (Err e) | Ok l => n ← process_all 0 l; mret (Ok n) end.

(** ** The settings page *)

(** The gates of both forms: an error is 500; a refusal counts where it is enforced. *)
Definition feature_gate (feature : string) (enforce : bool) (user : Z) : P (option Reply) :=
  r ← ask (reads (fun now _ => Ok (CheckPrincipalFeature feature user now)));
  mret match r with
       | Err _ => Some (Status 500)
       | Ok true => None
       | Ok false => if enforce then Some (Status 402) else None
       end.

Record RuleForm := MkRuleForm {
  f_name : string; f_action : string; f_match_reason : string; f_match_kind : string; f_match_repo_id : string; f_match_actor_id : string;
  f_snooze : string; f_tab : string }.

Definition parse_action (s : string) : option RuleAction :=
  if bool_decide (s = "snooze") then Some Snooze else if bool_decide (s = "tab") then Some Tab
  else if bool_decide (s = "mark_read") then Some MarkRead else if bool_decide (s = "drop") then Some Drop else None.

Definition text_filter (s : string) : option string := let v := TrimSpace s in if bool_decide (v = "") then None else Some v.

(** A number that does not parse, or is not positive, is no filter. *)
Definition id_filter (s : string) : option Z :=
  match Tokens.ParseInt (TrimSpace s) with Some id => if bool_decide (0 < id) then Some id else None | None => None end.

(** The parameters of an action; None: they are refused. *)
Definition action_params (a : RuleAction) (f : RuleForm) : option (option string * option Z) :=
  match a with
  | Snooze =>
      match Tokens.ParseInt (TrimSpace (f_snooze f)) with
      | Some mins => if bool_decide (mins <= 0) then None else Some (None, Some (RateLimit.wrap32 mins))
      | None => None
      end
  | Tab =>
      let v := TrimSpace (f_tab f) in
      if bool_decide (v = "") || bool_decide (64 < String.length v)%nat then None else Some (Some v, None)
  | MarkRead | Drop => Some (None, None)
  end.

Definition settingsRuleCreate (user : Z) (f : RuleForm) : P Reply :=
  gate ← feature_gate FeatureInboxRules (EnforceFree deps) user;
  match gate with
  | Some reply => mret reply
  | None =>
      let name := TrimSpace (f_name f) in
      if bool_decide (name = "") || bool_decide (120 < String.length name)%nat then mret Page
      else
        match parse_action (f_action f) with
        | None => mret (Status 400)
        | Some a =>
            match action_params a f with
            | None => mret (Status 400)
            | Some (tab, snooze) =>
                pos ← ask (NextUserNotificationRulePosition user);
                match pos with
                | Err _ => mret (Status 500)
                | Ok pos =>
                    r ← ask (InsertUserNotificationRule (fun id =>
                      MkRule id user name true pos (text_filter (f_match_reason f)) (text_filter (f_match_kind f))
                        (id_filter (f_match_repo_id f)) (id_filter (f_match_actor_id f)) a tab snooze));
                    mret match r with Ok _ => Redirect | Err _ => Status 500 end
                end
            end
        end
  end.

Definition parseRuleID (s : string) : option Z :=
  match Tokens.ParseInt s with Some id => if bool_decide (id <= 0) then None else Some id | None => None end.

Definition changed (r : res DBErr Z) : Reply :=
  match r with Err _ => Status 500 | Ok n => if bool_decide (n = 0) then Status 404 else Redirect end.

Definition settingsRuleDelete (user : Z) (id : string) : P Reply :=
  match parseRuleID id with
  | None => mret (Status 404)
  | Some id => r ← ask (DeleteUserNotificationRule id user); mret (changed r)
  end.

Definition settingsRuleToggle (user : Z) (id : string) : P Reply :=
  match parseRuleID id with
  | None => mret (Status 404)
  | Some id =>
      rule ← ask (GetUserNotificationRule id user);
      match rule with
      | Err NoRows => mret (Status 404)
      | Err _ => mret (Status 500)
      | Ok rule => r ← ask (SetUserNotificationRuleEnabled id user (negb (r_Enabled rule))); mret (changed r)
      end
  end.

Record DigestForm := MkDigestForm { f_frequency : string; f_hour_utc : string; f_day_of_week : string }.

Definition parse_frequency (s : string) : option Frequency :=
  if bool_decide (s = "daily") then Some Daily else if bool_decide (s = "weekly") then Some Weekly else None.

(** A number of a range. *)
Definition parse_range (lo hi : Z) (s : string) : option Z :=
  match Tokens.ParseInt (TrimSpace s) with Some n => if bool_decide (lo <= n <= hi) then Some n else None | None => None end.

(** Frequency, hour and day of the week, or a refusal. *)
Definition digest_form (f : DigestForm) : option (Frequency * Z * option Z) :=
  match parse_frequency (f_frequency f), parse_range 0 23 (f_hour_utc f) with
  | Some Daily, Some h => Some (Daily, h, None)
  | Some Weekly, Some h => match parse_range 0 6 (f_day_of_week f) with Some d => Some (Weekly, h, Some d) | None => None end
  | _, _ => None
  end.

(** None: the loop over the days does not end, and there is no answer. *)
Definition settingsDigestSave (user : Z) (f : DigestForm) : P (option Reply) :=
  gate ← feature_gate FeatureInboxDigests (EnforceDigests deps) user;
  match gate with
  | Some reply => mret (Some reply)
  | None =>
      match digest_form f with
      | None => mret (Some (Status 400))
      | Some (freq, h, dow) =>
          now ← clock;
          match NextSendTime now freq h (default 0 dow) with
          | None => mret None
          | Some next =>
              r ← ask (UpsertUserNotificationDigest user true freq h dow (Some next));
              mret (Some match r with Ok _ => Redirect | Err _ => Status 500 end)
          end
      end
  end.

Definition settingsDigestDisable (user : Z) : P Reply :=
  d ← ask (GetUserNotificationDigest user);
  match d with
  | Err NoRows => mret Redirect
  | Err _ => mret (Status 500)
  | Ok d =>
      r ← ask (UpsertUserNotificationDigest (d_UserID d) false (d_Frequency d) (HourUtc d) (DayOfWeek d) None);
      mret match r with Ok _ => Redirect | Err _ => Status 500 end
  end.

End Lib.

(** ** The system: fan-outs, sweeps and requests in any order, while other components change their tables *)

Section System.
Context (hmac : string → string → string) (CheckPrincipalFeature : string → Z → Z → bool) (deps : Deps).

Definition ended {A} (p : P A) : P () := p ≫= fun _ => mret ().

Inductive arrive : list (nat * Event) → Event → P () → Prop :=
| A_fanout l order : (∀ id b l, order id b l ≡ₚ l) → arrive l EvOther (ended (FanoutOnce hmac CheckPrincipalFeature order deps))
| A_emit l e : (∀ id, ev_ID (e id) = id) → arrive l EvOther (ended (EmitTx e))
| A_sweep l : arrive l EvOther (ended (SweepOnce CheckPrincipalFeature deps))
| A_read l viewer id read : arrive l EvOther (ended (setRead viewer id read))
| A_read_all l viewer : arrive l EvOther (ended (markAllRead viewer))
| A_thread l viewer kind id subscribed : arrive l EvOther (ended (threadAction viewer kind id subscribed))
| A_link l u tk ti sig : arrive l EvOther (ended (unsubscribeViaToken hmac deps u tk ti sig))
| A_api_all l auth : arrive l EvOther (ended (notificationsMarkAllRead auth))
| A_api l auth id body : arrive l EvOther (ended (notificationPatch auth id body))
| A_rule l user f : arrive l EvOther (ended (settingsRuleCreate CheckPrincipalFeature deps user f))
| A_rule_delete l user id : arrive l EvOther (ended (settingsRuleDelete user id))
| A_rule_toggle l user id : arrive l EvOther (ended (settingsRuleToggle user id))
| A_digest l user f : arrive l EvOther (ended (settingsDigestSave CheckPrincipalFeature deps user f))
| A_digest_off l user : arrive l EvOther (ended (settingsDigestDisable user)).

(** Anything may change but events, which only go with their repository, their numbers and the cursor. *)
Definition elsewhere (t t' : Tables) : Prop :=
  domain_events t' ⊆ domain_events t ∧ next_event t' = next_event t ∧ last_event_id t' = last_event_id t.

Definition nstep : World (DB := Tables) (E := DBErr) (Ev := Event) () → World (DB := Tables) (E := DBErr) (Ev := Event) () → Prop :=
  wstep Fault_ arrive elsewhere.

End System.
