(* ===== verification/NotifInv.v ===== *)
(** * NotifInv: the invariant of the fan-out, and that every job and request keeps it

    Whatever a program writes or sends is justified by what it has seen before ([ok_event]); and as long as transactions
    that emit events end in the order of their numbers, what the cursor has passed was dispatched. *)

From stdpp Require Import sorting.
From S2P Require Import Prelude GoString NetIP Program Notif Digest.
From S2P Require Session Tokens.
Local Open Scope Z_scope.

Definition Log : Type := list (nat * Event).

(** ** What justifies an event *)

(** A recipient of an event is settled: told, or not to be told. *)
Definition settled (i : nat) (e : DomainEvent) (u : Z) (rels : list Relation) (l : Log) : Prop :=
  ev_ActorUserID e = Some u ∨ NotifyInbox (pickAction (ev_Kind e) rels) = false ∨
  (∃ r, (i, EvSaw (ev_ID e) u r) ∈ l ∧ r ≠ Ok true) ∨ (i, EvIgnored (ev_ID e) u true) ∈ l ∨
  ∃ n, (i, EvInbox e u (pickAction (ev_Kind e) rels) (Ok n)) ∈ l.

Definition completed (i : nat) (e : DomainEvent) (l : Log) : Prop :=
  ∃ m, (i, EvRelations e m) ∈ l ∧ ∀ u rels, m !! u = Some rels → settled i e u rels l.

(** A row of the inbox: not about one's own doing, for a relation that notifies, seen and not ignored. *)
Record told (i : nat) (e : DomainEvent) (u : Z) (a : Action) (l : Log) : Prop := {
  told_other : ev_ActorUserID e ≠ Some u;
  told_inbox : NotifyInbox a = true;
  told_saw : ev_RepoID e ≠ None → (i, EvSaw (ev_ID e) u (Ok true)) ∈ l;
  told_rel : ∃ m rels rel, (i, EvRelations e m) ∈ l ∧ m !! u = Some rels ∧ rel ∈ rels ∧ Routing (ev_Kind e) rel = a ∧
    (ev_RepoID e ≠ None →
     rel = RelMention ∨ (rel = RelReviewer ∧ ev_Kind e = "review_requested") ∨ (i, EvIgnored (ev_ID e) u false) ∈ l) }.

(** What precedes a mail: the row, the preference, the counts. *)
Definition preferred (i : nat) (id u : Z) (a : Action) (l : Log) : Prop :=
  EmailPrefKey (a_Reason a) = "" ∨ ∃ r, (i, EvPref id u (EmailPrefKey (a_Reason a)) r) ∈ l ∧ pref_on r = Some true.

Definition thread_quiet (i : nat) (id u : Z) (th : option Thread) (l : Log) : Prop :=
  match th with None => True | Some th => ∃ k, (i, EvThreadMails id u th (Ok k)) ∈ l ∧ k < StormPerThreadCap end.

Definition quiet (i : nat) (id u : Z) (l : Log) : Prop := ∃ k, (i, EvMails id u (Ok k)) ∈ l ∧ k < StormAbsoluteCap.

Record mailed (i : nat) (id u : Z) (a : Action) (th : option Thread) (n : Notification) (m : Message) (l : Log) : Prop := {
  m_wanted : shouldEmail a n = true;
  m_row : ∃ e n0, ev_ID e = id ∧ (i, EvInbox e u a (Ok n0)) ∈ l ∧ n_ID n = n_ID n0;
  m_pref : preferred i id u a l;
  m_thread : thread_quiet i id u th l;
  m_quiet : quiet i id u l;
  m_address : ∃ w mid em, (i, EvAccount id u (Ok w)) ∈ l ∧ u_PrimaryEmailID w = Some mid ∧
    (i, EvAddress id mid (Ok em)) ∈ l ∧ em_Verified em = true ∧ To m = em_Email em }.

Definition ok_event (i : nat) (ev : Event) (l : Log) : Prop :=
  match ev with
  | EvInbox e u a _ => told i e u a l
  | EvMail id u a th n m => mailed i id u a th n m l
  | EvDispatched e => completed i e l
  | _ => True
  end.

Fixpoint chain (l : Log) : Prop := match l with [] => True | (i, ev) :: l => ok_event i ev l ∧ chain l end.

Lemma chain_at (l1 l2 : Log) i ev : chain (l1 ++ (i, ev) :: l2) → ok_event i ev l2.
Proof. induction l1 as [|[j ev'] l1 IH]; cbn; [by intros [H _]|by intros [_ H]; apply IH]. Qed.

Lemma settled_mono i e u rels (l l' : Log) : l ⊆ l' → settled i e u rels l → settled i e u rels l'.
Proof.
  intros Hl [H|[H|[(r & H & Hr)|[H|(n & H)]]]].
  - by left.
  - by right; left.
  - right; right; left. exists r. split; [by apply Hl|done].
  - right; right; right; left. by apply Hl.
  - right; right; right; right. exists n. by apply Hl.
Qed.

(** ** The cursor *)

Definition committed (e : DomainEvent) (l : Log) : Prop := ∃ j r, (j, EvCommitted e r) ∈ l.
Definition dispatched (e : DomainEvent) (l : Log) : Prop := ∃ j, (j, EvDispatched e) ∈ l.

(** Transactions that emit end in the order of their numbers. *)
Fixpoint in_order (l : Log) : Prop :=
  match l with
  | [] => True
  | (_, EvCommitted e _) :: l => (∀ e', committed e' l → ev_ID e' < ev_ID e) ∧ in_order l
  | _ :: l => in_order l
  end.

Definition present (d : Tables) (e : DomainEvent) : Prop := domain_events d !! ev_ID e = Some e.

Definition cursor_seen (d : Tables) (l : Log) (c : Z) : Prop := last_event_id d = Some c ∨ ∃ i, (i, EvCursor (Ok c)) ∈ l.

Definition not_ahead (c : Z) (l : Log) : Prop := c <= 0 ∨ ∃ e, committed e l ∧ c <= ev_ID e.

Record J (d : Tables) (l : Log) : Prop := {
  j_chain : chain l;
  j_next : 1 <= next_event d;
  j_number : ∀ i id, (i, EvNumber (Ok id)) ∈ l → 1 <= id < next_event d;
  j_rows : ∀ id e, domain_events d !! id = Some e → ev_ID e = id ∧ committed e l;
  j_ids : ∀ e, committed e l → 1 <= ev_ID e;
  j_listed : in_order l → ∀ i last es e, (i, EvListed last (Ok es)) ∈ l → e ∈ es →
    committed e l ∧ ∀ e', present d e' → last < ev_ID e' <= ev_ID e → e' ∈ es;
  j_cursor : in_order l → ∀ c, cursor_seen d l c → not_ahead c l ∧ ∀ e, present d e → ev_ID e <= c → dispatched e l }.

Lemma committed_mono e (l l' : Log) : l ⊆ l' → committed e l → committed e l'.
Proof. intros Hl (j & r & H). exists j, r. by apply Hl. Qed.

Lemma dispatched_mono e (l l' : Log) : l ⊆ l' → dispatched e l → dispatched e l'.
Proof. intros Hl (j & H). exists j. by apply Hl. Qed.

Lemma not_ahead_mono c (l l' : Log) : l ⊆ l' → not_ahead c l → not_ahead c l'.
Proof. intros Hl [?|(e & H & ?)]; [by left|]. right. exists e. split; [by eapply committed_mono|done]. Qed.

(** Events that neither number, commit, list nor read the cursor. *)
Definition plain (ev : Event) : Prop :=
  match ev with EvNumber (Ok _) | EvCommitted _ _ | EvListed _ (Ok _) | EvCursor (Ok _) => False | _ => True end.

Definition same (d d' : Tables) : Prop :=
  domain_events d' = domain_events d ∧ next_event d' = next_event d ∧ last_event_id d' = last_event_id d.

Lemma in_order_plain i ev (l : Log) : plain ev → in_order ((i, ev) :: l) → in_order l.
Proof. by destruct ev. Qed.

Lemma plain_ne ev ev' : plain ev → ¬ plain ev' → ev ≠ ev'.
Proof. intros H H' ->. done. Qed.

Lemma committed_plain i ev e (l : Log) : plain ev → committed e ((i, ev) :: l) → committed e l.
Proof. intros Hp (j & r & [[= -> <-]|H]%elem_of_cons); [done|]. by exists j, r. Qed.

Lemma J_plain d d' l i ev : J d l → same d d' → plain ev → ok_event i ev l → J d' ((i, ev) :: l).
Proof.
  intros Hj (He & Hn & Hc) Hp Hok. assert (l ⊆ (i, ev) :: l) as Hsub by set_solver.
  split.
  - split; [done|apply Hj].
  - rewrite Hn. apply Hj.
  - intros j id [[= -> <-]|H]%elem_of_cons; [done|]. rewrite Hn. by eapply Hj.
  - intros id e. rewrite He. intros H. destruct (j_rows _ _ Hj id e H). eauto using committed_mono.
  - intros e H%committed_plain; [|done]. by apply (j_ids _ _ Hj).
  - intros Ho j last es e [[= -> <-]|H]%elem_of_cons Hin; [done|]. apply in_order_plain in Ho; [|done].
    destruct (j_listed _ _ Hj Ho j last es e H Hin) as [H1 H2]. split; [by eapply committed_mono|]. unfold present. by rewrite He.
  - intros Ho c Hs. apply in_order_plain in Ho; [|done].
    assert (cursor_seen d l c) as Hs'. { destruct Hs as [Hs|(j & [[= -> <-]|Hs]%elem_of_cons)]; [left; by rewrite <- Hc|done|right; eauto]. }
    destruct (j_cursor _ _ Hj Ho c Hs') as [H1 H2]. split; [by eapply not_ahead_mono|]. unfold present. rewrite He.
    intros e Hpr Hle. by eapply dispatched_mono, H2.
Qed.

(** ** Statements that leave events and cursor alone *)

Definition keeps {X} (t : tx X) : Prop := ∀ now d x d', t now d = Ok (x, d') → same d d'.

Lemma same_refl d : same d d.
Proof. done. Qed.

Lemma keeps_reads {X} (f : Z → Tables → res DBErr X) : keeps (reads f).
Proof. intros now d x d'. unfold reads. destruct (f now d); [|done]. by intros [= _ <-]. Qed.

(** Unfolds a statement down to its branches. *)
Ltac keeps_tac := intros now d x d'; repeat case_match; try done; intros [= _ <-]; done.

Lemma keeps_update_rows p f : keeps (update_rows p f).
Proof. unfold update_rows. keeps_tac. Qed.

Lemma keeps_apply_rule id rule f : keeps (apply_rule id rule f).
Proof. unfold apply_rule. intros now d x d'. case_match; [done|]. apply keeps_update_rows. Qed.

Lemma keeps_insert_thread u th b s : keeps (InsertNotificationThreadIfAbsent u th b s).
Proof. unfold InsertNotificationThreadIfAbsent. keeps_tac. Qed.
Lemma keeps_upsert_thread u th b s : keeps (UpsertNotificationThread u th b s).
Proof. unfold UpsertNotificationThread. keeps_tac. Qed.
Lemma keeps_upsert u k s r th src a : keeps (UpsertNotificationByThread u k s r th src a).
Proof. unfold UpsertNotificationByThread. keeps_tac. Qed.
Lemma keeps_insert u k s r src a : keeps (InsertThreadlessNotification u k s r src a).
Proof. unfold InsertThreadlessNotification. keeps_tac. Qed.
Lemma keeps_log u id th : keeps (InsertEmailLog u id th).
Proof. unfold InsertEmailLog. keeps_tac. Qed.
Lemma keeps_digest u b f h w n : keeps (UpsertUserNotificationDigest u b f h w n).
Proof. unfold UpsertUserNotificationDigest. keeps_tac. Qed.
Lemma keeps_claim n : keeps (ClaimDueNotificationDigests n).
Proof. unfold ClaimDueNotificationDigests. keeps_tac. Qed.
Lemma keeps_advance u n : keeps (AdvanceUserNotificationDigest u n).
Proof. unfold AdvanceUserNotificationDigest. keeps_tac. Qed.
Lemma keeps_insert_rule r : keeps (InsertUserNotificationRule r).
Proof. unfold InsertUserNotificationRule. keeps_tac. Qed.
Lemma keeps_delete_rule id u : keeps (DeleteUserNotificationRule id u).
Proof. unfold DeleteUserNotificationRule. keeps_tac. Qed.
Lemma keeps_toggle id u b : keeps (SetUserNotificationRuleEnabled id u b).
Proof. unfold SetUserNotificationRuleEnabled. keeps_tac. Qed.
Lemma keeps_rule_statement n r : keeps (rule_statement n r).
Proof. unfold rule_statement. destruct (d_Action r); apply keeps_apply_rule. Qed.

Create HintDb keeps.
#[export] Hint Resolve keeps_reads keeps_update_rows keeps_apply_rule keeps_insert_thread keeps_upsert_thread keeps_upsert keeps_insert
  keeps_log keeps_digest keeps_claim keeps_advance keeps_insert_rule keeps_delete_rule keeps_toggle keeps_rule_statement : keeps.

Lemma keeps_if {X} (b : bool) (t1 t2 : tx X) : keeps t1 → keeps t2 → keeps (if b then t1 else t2).
Proof. by destruct b. Qed.

(** ** The rules *)

Section Rules.
Context (i : nat).
Implicit Types (l : Log).

Definition sf {A} (p : P A) (Q : Log → A → Prop) l : Prop := safe Fault_ J i p Q l.

Lemma ns_bind {A B} (p : P A) (f : A → P B) (Q : Log → B → Prop) l : sf p (fun l a => sf (f a) Q l) l → sf (p ≫= f) Q l.
Proof. apply safe_bind. Qed.

Lemma ns_weaken {A} (p : P A) (Q R : Log → A → Prop) l : (∀ l' a, l ⊆ l' → Q l' a → R l' a) → sf p Q l → sf p R l.
Proof. apply safe_weaken. Qed.

Lemma ns_clock (Q : Log → Z → Prop) l : (∀ l' n, l ⊆ l' → Q l' n) → sf clock Q l.
Proof. intros H env d l' Hl Hj. split; [done|]. by apply H. Qed.

Lemma ns_exec {X} (t : tx X) (ev : res DBErr X → Event) (Q : Log → res DBErr X → Prop) l :
  keeps t → (∀ r, plain (ev r)) → (∀ l' r, l ⊆ l' → ok_event i (ev r) l') →
  (∀ l' r, l ⊆ l' → (i, ev r) ∈ l' → Q l' r) → sf (exec t ev) Q l.
Proof.
  intros Hk Hp Hok HQ env d l' Hl Hj. destruct (answer Fault_ env t d) as [r d'] eqn:E. split; [|apply HQ; set_solver].
  apply (J_plain d); [done| |done|by apply Hok].
  destruct (answer_inv _ _ _ _ _ E) as [[-> _]|(x & Hx & _)]; [done|by eapply Hk].
Qed.

Lemma ns_ask {X} (t : tx X) (Q : Log → res DBErr X → Prop) l : keeps t → (∀ l' r, l ⊆ l' → Q l' r) → sf (ask t) Q l.
Proof. intros Hk HQ. apply ns_exec; [done..|]. intros l' r Hl _. by apply HQ. Qed.

Lemma ns_note ev (Q : Log → () → Prop) l : plain ev → (∀ l', l ⊆ l' → ok_event i ev l') → (∀ l', l ⊆ l' → (i, ev) ∈ l' → Q l' tt) → sf (note ev) Q l.
Proof.
  intros Hp Hok HQ env d l' Hl Hj. cbn. split; [|apply HQ; set_solver]. apply (J_plain d); [done|apply same_refl|done|by apply Hok].
Qed.

Lemma ns_send ev (Q : Log → bool → Prop) l : plain ev → (∀ l', l ⊆ l' → ok_event i ev l') → (∀ l' b, l ⊆ l' → Q l' b) → sf (send ev) Q l.
Proof.
  intros Hp Hok HQ env d l' Hl Hj. cbn. split; [|apply HQ; set_solver]. apply (J_plain d); [done|apply same_refl|done|by apply Hok].
Qed.

(** A program of which nothing need be known. *)
Definition harmless {A} (p : P A) : Prop := ∀ (Q : Log → A → Prop) l, (∀ l' a, l ⊆ l' → Q l' a) → sf p Q l.

Lemma harmless_ret {A} (a : A) : harmless (mret a).
Proof. intros Q l H. by apply H. Qed.

Lemma harmless_bind {A B} (p : P A) (f : A → P B) : harmless p → (∀ a, harmless (f a)) → harmless (p ≫= f).
Proof. intros Hp Hf Q l H. apply ns_bind, Hp. intros l1 a H1. apply Hf. intros l2 b H2. apply H. by etrans. Qed.

Lemma harmless_ask {X} (t : tx X) : keeps t → harmless (ask t).
Proof. intros Hk Q l H. by apply ns_ask. Qed.

Lemma harmless_exec {X} (t : tx X) ev : keeps t → (∀ r, plain (ev r)) → (∀ r l, ok_event i (ev r) l) → harmless (exec t ev).
Proof. intros Hk Hp Hok Q l H. apply ns_exec; auto. Qed.

Lemma harmless_clock : harmless clock.
Proof. intros Q l H. by apply ns_clock. Qed.

Lemma harmless_sf {A} (p : P A) l : harmless p → sf p (fun _ _ => True) l.
Proof. intros H. by apply H. Qed.

End Rules.

(** Steps through a program whose statements keep the tables and whose events need no reason. *)
Ltac harmless_step :=
  first
    [ apply harmless_ret | apply harmless_clock
    | apply harmless_ask; eauto using keeps_if with keeps
    | apply harmless_exec; [solve [eauto using keeps_if with keeps]|done|done]
    | apply harmless_bind; [|intros ?]
    | match goal with
      | |- harmless _ (match ?x with _ => _ end) => destruct x
      | |- harmless _ (let '(_, _) := ?x in _) => destruct x
      end ].
Ltac harmless_tac := repeat harmless_step.

(** ** The fan-out *)

Section Fanout.
Context (hmac : string → string → string) (CheckPrincipalFeature : string → Z → Z → bool).
Context (order : Z → bool → list (Z * list Relation) → list (Z * list Relation)) (deps : Deps).
Context (Horder : ∀ id b l, order id b l ≡ₚ l).
Context (i : nat).
Implicit Types (l : Log).

Lemma harmless_allowed f b u : harmless i (allowedForRecipient CheckPrincipalFeature f b u).
Proof. unfold allowedForRecipient. harmless_tac. Qed.

Lemma harmless_Evaluate n : harmless i (Evaluate CheckPrincipalFeature deps n).
Proof. unfold Evaluate. harmless_tac; apply harmless_allowed. Qed.

Lemma ns_applyRule n (Q : Log → Notification → Prop) l : (∀ l' n', l ⊆ l' → n_ID n' = n_ID n → Q l' n') →
  sf i (applyRuleDecision CheckPrincipalFeature deps n) Q l.
Proof.
  intros H. apply ns_bind, harmless_Evaluate. intros l1 d H1. destruct d as [[d|]|]; [|by apply H..].
  apply ns_bind, ns_ask; [eauto with keeps|]. intros l2 r H2. apply H; [by etrans|].
  destruct r; [|done]. unfold ruled. by destruct (d_Action d).
Qed.

(** *** Mail *)

Lemma preferred_mono id u a l l' : l ⊆ l' → preferred i id u a l → preferred i id u a l'.
Proof. intros Hl [?|(r & H & ?)]; [by left|]. right. exists r. split; [by apply Hl|done]. Qed.

Lemma thread_quiet_mono id u th l l' : l ⊆ l' → thread_quiet i id u th l → thread_quiet i id u th l'.
Proof. intros Hl. destruct th as [th|]; [|done]. intros (k & H & ?). exists k. split; [by apply Hl|done]. Qed.

Lemma ns_emailPrefOn id u a (Q : Log → option bool → Prop) l :
  (∀ l' b, l ⊆ l' → (b = Some true → preferred i id u a l') → Q l' b) → sf i (emailPrefOn id u (EmailPrefKey (a_Reason a))) Q l.
Proof.
  intros H. unfold emailPrefOn. case_bool_decide as Hk; [apply H; [done|by left]|].
  apply ns_bind, ns_exec; [apply keeps_reads|done..|]. intros l' r Hl Hin. apply H; [done|]. right. by exists r.
Qed.

Lemma below_true cap r : below cap r = true → ∃ k, r = Ok k ∧ k < cap.
Proof. destruct r as [k|]; cbn; [|done]. intros H%bool_decide_eq_true. by exists k. Qed.

Lemma ns_thread_below id u th (Q : Log → bool → Prop) l :
  (∀ l' b, l ⊆ l' → (b = true → thread_quiet i id u th l') → Q l' b) → sf i (thread_below id u th) Q l.
Proof.
  intros H. unfold thread_below. destruct th as [th|]; [|by apply H].
  apply ns_bind, ns_exec; [apply keeps_reads|done..|]. intros l' r Hl Hin. apply H; [done|].
  intros (k & -> & Hk)%below_true. by exists k.
Qed.

Lemma harmless_url base n : harmless i (buildThreadURL base n).
Proof. unfold buildThreadURL. harmless_tac. Qed.

Lemma ns_sendMail id u a n th (Q : Log → () → Prop) l : shouldEmail a n = true →
  (∃ e n0, ev_ID e = id ∧ (i, EvInbox e u a (Ok n0)) ∈ l ∧ n_ID n = n_ID n0) →
  preferred i id u a l → thread_quiet i id u th l → quiet i id u l →
  (∀ l', l ⊆ l' → Q l' tt) → sf i (sendNotificationEmail hmac deps id u a n th) Q l.
Proof.
  intros Hw (e & n0 & Hid & Hrow & Hn) Hp Ht (k & Hq & Hk) H. unfold sendNotificationEmail. destruct (EmailSender deps); [|by apply H].
  apply ns_bind, ns_exec; [apply keeps_reads|done..|]. intros l1 [w|] H1 Hw1; [|by apply H].
  destruct (u_PrimaryEmailID w) as [mid|] eqn:Hmid; [|by apply H].
  apply ns_bind, ns_exec; [apply keeps_reads|done..|]. intros l2 [em|] H2 Hem; [|apply H; by etrans].
  destruct (em_Verified em) eqn:Hv; [|apply H; by etrans].
  apply ns_bind, harmless_url. intros l3 url H3. assert (l ⊆ l3) as Hl3 by (etrans; [exact H1|by etrans]).
  apply ns_bind, ns_send; [done| |].
  - intros l4 H4. assert (l ⊆ l4) as Hl by by etrans. split; [done| | | | |].
    + exists e, n0. split_and!; [done|by apply Hl|done].
    + by eapply preferred_mono.
    + by eapply thread_quiet_mono.
    + exists k. split; [by apply Hl|done].
    + exists w, mid, em. split_and!; [by apply H4, H3, H2|done|by apply H4, H3|done..].
  - intros l4 [] H4; [|apply H; by etrans]. apply ns_bind, ns_ask; [eauto with keeps|]. intros l5 r H5. apply H. etrans; [exact Hl3|by etrans].
Qed.

Lemma ns_maybeSend id u a n th (Q : Log → () → Prop) l : shouldEmail a n = true →
  (∃ e n0, ev_ID e = id ∧ (i, EvInbox e u a (Ok n0)) ∈ l ∧ n_ID n = n_ID n0) →
  (∀ l', l ⊆ l' → Q l' tt) → sf i (maybeSendEmail hmac deps id u a n th) Q l.
Proof.
  intros Hw (e & n0 & Hid & Hrow & Hn) H. apply ns_bind, ns_emailPrefOn. intros l1 [[]|] H1 Hp; [|by apply H..].
  apply ns_bind, ns_thread_below. intros l2 [] H2 Ht; [|apply H; by etrans].
  apply ns_bind, ns_exec; [apply keeps_reads|done..|]. intros l3 r H3 Hin. destruct (below _ r) eqn:Hb; [|apply H; etrans; [done|by etrans]].
  apply below_true in Hb as (k & -> & Hk). apply ns_sendMail; [done| | | | |].
  - exists e, n0. split_and!; [done|by apply H3, H2, H1|done].
  - eapply preferred_mono; [|by apply Hp]. by etrans.
  - eapply thread_quiet_mono; [done|by apply Ht].
  - by exists k.
  - intros l4 H4. apply H. etrans; [done|]. etrans; [done|by etrans].
Qed.

Lemma ns_after_row e u a th n (Q : Log → () → Prop) l : (i, EvInbox e u a (Ok n)) ∈ l →
  (∀ l', l ⊆ l' → Q l' tt) → sf i (after_row hmac CheckPrincipalFeature deps e u a th n) Q l.
Proof.
  intros Hin H. apply ns_bind, ns_applyRule. intros l1 n' H1 Hn. destruct (shouldEmail a n') eqn:Hw; cbn [andb]; [|by apply H].
  destruct (EmailSender deps); [|by apply H]. apply ns_maybeSend; [done| |intros l2 H2; apply H; by etrans].
  exists e, n. split_and!; [done|by apply H1|done].
Qed.

(** *** One recipient *)

Definition saw (id u : Z) (b : bool) l : Prop := if b then (i, EvSaw id u (Ok true)) ∈ l else ∃ r, (i, EvSaw id u r) ∈ l ∧ r ≠ Ok true.

Lemma ns_canSee id u repo (Q : Log → res DBErr bool → Prop) l :
  (∀ l' r, l ⊆ l' → (∀ b, r = Ok b → saw id u b l') → Q l' r) → sf i (canRecipientSeeRepo id u repo) Q l.
Proof.
  intros H. apply ns_bind, ns_ask; [apply keeps_reads|]. intros l1 [row|[]] H1; try by apply H.
  2:{ apply ns_bind, ns_note; [done..|]. intros l2 H2 Hin. apply H; [by etrans|]. intros b [= <-]. by exists (Ok false). }
  apply ns_bind, ns_ask; [apply keeps_reads|]. intros l2 [two|] H2; [|apply H; [by etrans|done]].
  apply ns_bind, ns_exec; [apply keeps_reads|done..|]. intros l3 v H3 Hin. apply H; [etrans; [done|by etrans]|].
  intros b [= <-]. destruct v as [[]|]; cbn; [done|by exists (Ok false)|by eexists].
Qed.

Lemma ns_ignored id u repo (Q : Log → res DBErr bool → Prop) l :
  (∀ l' r, l ⊆ l' → (∀ b, r = Ok b → (i, EvIgnored id u b) ∈ l') → Q l' r) → sf i (repoIgnoredByRecipient id u repo) Q l.
Proof.
  intros H. apply ns_bind, ns_ask; [apply keeps_reads|]. intros l1 r H1.
  destruct (match r with Ok level => _ | Err NoRows => _ | Err _ => _ end) as [b|e]; [|by apply H].
  apply ns_bind, ns_note; [done..|]. intros l2 H2 Hin. apply H; [by etrans|]. by intros ? [= <-].
Qed.

Lemma pickAction_routes kind rels : NotifyInbox (pickAction kind rels) = true → ∃ rel, rel ∈ rels ∧ Routing kind rel = pickAction kind rels.
Proof.
  induction rels as [|rel rels IH]; [done|]. cbn. destruct (NotifyInbox (Routing kind rel)) eqn:E; [intros _; exists rel; set_solver|].
  intros (x & Hx & Hr)%IH. exists x. set_solver.
Qed.

Lemma ns_upsert e u a th (Q : Log → res DBErr Notification → Prop) l : told i e u a l →
  (∀ l' r, l ⊆ l' → (i, EvInbox e u a r) ∈ l' → Q l' r) → sf i (upsertInboxRow u e a th) Q l.
Proof.
  intros [H1 H2 H4 (m & rels & rel & Hm & H3 & H6 & H7 & H5)] H. apply ns_exec; [destruct th; eauto with keeps|done| |done].
  intros l' r Hl. split; [done|done| |].
  - intros Hr. by apply Hl, H4.
  - exists m, rels, rel. split_and!; [by apply Hl|done..|]. intros Hr. destruct (H5 Hr) as [?|[?|?]]; [by left|by right; left|right; right; by apply Hl].
Qed.

(** Two relations pass over the wish to ignore a repository. *)
Lemma overrides kind rel : OverrideIgnore (Routing kind rel) = true → rel = RelMention ∨ (rel = RelReviewer ∧ kind = "review_requested").
Proof. unfold Routing. repeat case_bool_decide; destruct rel; cbn; try done; auto. Qed.

Lemma ns_about_repo e otherwise q (R : bool → Log → Prop) (Q : Log → res DBErr bool → Prop) l :
  (∀ repo Q' , (∀ l' r, l ⊆ l' → (∀ b, r = Ok b → R b l') → Q' l' r) → sf i (q repo) Q' l) →
  (∀ l' r, l ⊆ l' → (∀ b, r = Ok b → (ev_RepoID e = None ∧ b = otherwise) ∨ (ev_RepoID e ≠ None ∧ R b l')) → Q l' r) →
  sf i (about_repo e otherwise q) Q l.
Proof.
  intros Hq H. unfold about_repo. destruct (ev_RepoID e) as [repo|].
  - apply Hq. intros l' r Hl Hb. apply H; [done|]. intros b Hr. right. split; [done|by apply Hb].
  - apply H; [done|]. intros b [= <-]. by left.
Qed.

Lemma ns_notify e th u rels m (Q : Log → res DBErr unit → Prop) l : (i, EvRelations e m) ∈ l → m !! u = Some rels →
  (∀ l' r, l ⊆ l' → (r = Ok () → settled i e u rels l') → Q l' r) →
  sf i (notify hmac CheckPrincipalFeature deps e th u rels) Q l.
Proof.
  intros Hm Hu H. unfold notify. case_bool_decide as Hself; [apply H; [done|by left]|].
  apply ns_bind, (ns_about_repo _ _ _ (saw (ev_ID e) u)); [intros repo Q'; apply ns_canSee|]. intros l1 [[]|] H1 Hs; [| |by apply H].
  2:{ apply H; [done|]. intros _. destruct (Hs false eq_refl) as [[_ ?]|[_ Hr]]; [done|]. by right; right; left. }
  destruct (NotifyInbox (pickAction (ev_Kind e) rels)) eqn:Ha; cbn [negb]; [|apply H; [done|]; intros _; by right; left].
  set (a := pickAction (ev_Kind e) rels) in *.
  assert (∀ l2 r, l1 ⊆ l2 → (∀ b, r = Ok b → OverrideIgnore a = true ∧ b = false ∨
      (ev_RepoID e = None ∧ b = false) ∨ (ev_RepoID e ≠ None ∧ (i, EvIgnored (ev_ID e) u b) ∈ l2)) →
    sf i (match r with
      | Err err => mret (Err err) | Ok true => mret (Ok ())
      | Ok false => n ← upsertInboxRow u e a th; match n with Err err => mret (Err err)
          | Ok n => after_row hmac CheckPrincipalFeature deps e u a th n ≫= fun _ => mret (Ok ()) end end) Q l2) as Hrest.
  { intros l2 [[]|] H2 Hb; [| |apply H; [by etrans|done]].
    - apply H; [by etrans|]. intros _. destruct (Hb true eq_refl) as [[_ ?]|[[_ ?]|[_ ?]]]; [done..|]. by right; right; right; left.
    - apply ns_bind, ns_upsert.
      + destruct (pickAction_routes _ _ Ha) as (rel & Hrel & Hr). split; [congruence|done| |].
        * intros Hne. destruct (Hs true eq_refl) as [[? _]|[_ Hr1]]; [done|]. by apply H2.
        * exists m, rels, rel. split_and!; [by apply H2, H1|done..|]. intros Hne. destruct (Hb false eq_refl) as [[Ho _]|[[? _]|[_ ?]]]; [|done|by right; right].
          unfold a in Ho. rewrite <- Hr in Ho. apply overrides in Ho as [?|?]; auto.
      + intros l3 [n|] H3 Hin; [|apply H; [etrans; [done|by etrans]|done]].
        apply ns_bind, ns_after_row; [done|]. intros l4 H4. apply H; [etrans; [exact H1|etrans; [exact H2|by etrans]]|].
        intros _. right; right; right; right. exists n. by apply H4. }
  destruct (OverrideIgnore a) eqn:Ho.
  - apply ns_bind. apply Hrest; [done|]. intros b [= <-]. by left.
  - apply ns_bind, (ns_about_repo _ _ _ (fun b l => (i, EvIgnored (ev_ID e) u b) ∈ l)); [intros repo Q'; apply ns_ignored|].
    intros l2 r H2 Hb. apply Hrest; [done|]. intros b Hr. right. by apply Hb.
Qed.

Lemma ns_notify_all e th m ul (Q : Log → res DBErr unit → Prop) l : (i, EvRelations e m) ∈ l → (∀ u rels, (u, rels) ∈ ul → m !! u = Some rels) →
  (∀ l' r, l ⊆ l' → (r = Ok () → ∀ u rels, (u, rels) ∈ ul → settled i e u rels l') → Q l' r) →
  sf i (notify_all hmac CheckPrincipalFeature deps e th ul) Q l.
Proof.
  revert l. induction ul as [|[u rels] ul IH]; intros l Hm Hul H; cbn [notify_all]; [apply H; [done|set_solver]|].
  apply ns_bind, (ns_notify e th u rels m); [done|apply Hul; set_solver|]. intros l1 [[]|] H1 Hs; [|by apply H].
  apply IH; [by apply H1|set_solver|]. intros l2 r H2 Hr. apply H; [by etrans|]. intros Hok u' rels' [[= -> ->]|Hin]%elem_of_cons.
  - by eapply settled_mono, Hs.
  - by apply Hr.
Qed.

(** *** One event *)

Lemma harmless_recipients e th : harmless i (computeRecipients e th).
Proof. unfold computeRecipients, thread_recipients. harmless_tac. Qed.

Lemma harmless_thread e : harmless i (threadFromEvent e).
Proof. unfold threadFromEvent. harmless_tac. Qed.

Lemma harmless_auto th ul : harmless i (applyAutoSubscriptions th ul).
Proof. induction ul as [|[u rels] ul IH]; cbn [applyAutoSubscriptions]; harmless_tac; done. Qed.

Lemma ns_dispatchEvent e (Q : Log → res DBErr unit → Prop) l :
  (∀ l' r, l ⊆ l' → (r = Ok () → completed i e l') → Q l' r) →
  sf i (dispatchEvent hmac CheckPrincipalFeature order deps e) Q l.
Proof.
  intros H. apply ns_bind, harmless_thread. intros l1 [th|] H1; [|by apply H].
  apply ns_bind, harmless_recipients. intros l2 m H2. apply ns_bind, ns_note; [done..|]. intros l3 H3 Hm.
  apply ns_bind. assert (harmless i (match th with Some th => applyAutoSubscriptions th (order (ev_ID e) false (map_to_list m)) | None => mret () end)) as Hauto
    by (destruct th; [apply harmless_auto|apply harmless_ret]).
  apply Hauto. intros l4 [] H4. apply (ns_notify_all _ _ m); [by apply H4|intros u rels; by rewrite Horder, elem_of_map_to_list|].
  intros l5 r H5 Hr. apply H; [etrans; [done|etrans; [done|etrans; [done|by etrans]]]|]. intros Hok. exists m. split; [by apply H5, H4|].
  intros u rels Hu. apply Hr; [done|]. by rewrite Horder, elem_of_map_to_list.
Qed.

Definition dispatched_prefix (es : list DomainEvent) (last : Z) (n : nat) (x : Z * nat) l : Prop :=
  ∃ pre post, es = pre ++ post ∧ x.2 = (n + length pre)%nat ∧ x.1 = default last (ev_ID <$> list.last pre) ∧ ∀ e, e ∈ pre → dispatched e l.

Lemma ns_dispatch_all es last n (Q : Log → Z * nat → Prop) l :
  (∀ l' x, l ⊆ l' → dispatched_prefix es last n x l' → Q l' x) →
  sf i (dispatch_all hmac CheckPrincipalFeature order deps last n es) Q l.
Proof.
  revert l last n Q. induction es as [|e es IH]; intros l last n Q H; cbn [dispatch_all].
  { apply H; [done|]. exists [], []. split_and!; [done|cbn; lia|done|set_solver]. }
  apply ns_bind, ns_dispatchEvent. intros l1 [[]|] H1 Hc.
  2:{ apply H; [done|]. exists [], (e :: es). split_and!; [done|cbn; lia|done|set_solver]. }
  apply ns_bind, ns_note; [done| |].
  { intros l2 H2. destruct (Hc eq_refl) as (m & Hm & Hs). exists m. split; [by apply H2|]. intros u rels Hu. by eapply settled_mono, Hs. }
  intros l2 H2 Hin. apply IH. intros l3 [z k] H3 (pre & post & -> & Hk & Hz & Hd). apply H; [etrans; [done|by etrans]|].
  exists (e :: pre), post. cbn in *. split_and!; [done|lia| |].
  - rewrite Hz. cbn [app]. rewrite last_cons. by destruct (list.last pre).
  - intros e' [->|He]%elem_of_cons; [exists i; by apply H3|by apply Hd].
Qed.

End Fanout.

(** ** Events and the cursor *)

Lemma J_number d l i env r d' : J d l → answer Fault_ env nextval_event d = (r, d') → J d' ((i, EvNumber r) :: l).
Proof.
  intros Hj Ha. destruct (answer_inv _ _ _ _ _ Ha) as [[-> [e ->]]|(x & [= <- <-] & Hr)]; [by apply (J_plain d)|].
  assert (l ⊆ (i, EvNumber r) :: l) as Hsub by set_solver.
  assert (∀ e, committed e ((i, EvNumber r) :: l) → committed e l) as Hcom.
  { intros e (j & r' & [[=]|H]%elem_of_cons). by exists j, r'. }
  pose proof (j_next _ _ Hj) as Hn. split; cbn [with_events domain_events next_event last_event_id].
  - split; [done|apply Hj].
  - lia.
  - intros j id [[= -> Er]|H]%elem_of_cons; [destruct Hr as [Hr|Hr]; rewrite Hr in Er; simplify_eq; lia|].
    pose proof (j_number _ _ Hj j id H). lia.
  - intros id e H. destruct (j_rows _ _ Hj id e H). split; [done|]. by eapply committed_mono.
  - intros e H. by apply (j_ids _ _ Hj), Hcom.
  - intros Ho j last es e [[=]|H]%elem_of_cons Hin. destruct (j_listed _ _ Hj Ho j last es e H Hin) as [H1 H2].
    split; [by eapply committed_mono|done].
  - intros Ho c Hs. assert (cursor_seen d l c) as Hs'. { destruct Hs as [Hs|(j & [[=]|Hs]%elem_of_cons)]; [by left|right; eauto]. }
    destruct (j_cursor _ _ Hj Ho c Hs') as [H1 H2]. split; [by eapply not_ahead_mono|]. intros e Hp Hle. by eapply dispatched_mono, H2.
Qed.

Lemma J_commit d l i env e r d' : J d l → 1 <= ev_ID e → answer Fault_ env (InsertDomainEvent e) d = (r, d') →
  J d' ((i, EvCommitted e r) :: l).
Proof.
  intros Hj Hid Ha. assert (l ⊆ (i, EvCommitted e r) :: l) as Hsub by set_solver.
  assert (committed e ((i, EvCommitted e r) :: l)) as Hnew by (exists i, r; set_solver).
  assert (next_event d' = next_event d ∧ last_event_id d' = last_event_id d ∧
    (domain_events d' = domain_events d ∨ domain_events d' = <[ev_ID e := e]> (domain_events d))) as (Hn & Hc & He).
  { destruct (answer_inv _ _ _ _ _ Ha) as [[-> _]|(x & Hx & _)]; [by split_and!; try left|].
    unfold InsertDomainEvent in Hx. destruct (_ && _); [|done]. injection Hx as _ <-. cbn. auto. }
  assert (∀ e', present d' e' → e' = e ∨ present d e') as Hpres.
  { intros e'. unfold present. destruct He as [->| ->]; [by right|]. destruct (decide (ev_ID e' = ev_ID e)) as [->|Hne].
    - rewrite lookup_insert_eq. intros [= ->]. by left.
    - rewrite lookup_insert_ne by done. by right. }
  split.
  - split; [done|apply Hj].
  - rewrite Hn. apply Hj.
  - intros j id [[=]|H]%elem_of_cons. rewrite Hn. by eapply (j_number _ _ Hj).
  - intros id e'. destruct He as [->| ->].
    + intros H. destruct (j_rows _ _ Hj id e' H). split; [done|by eapply committed_mono].
    + intros [[<- <-]|[Hne H]]%lookup_insert_Some; [done|]. destruct (j_rows _ _ Hj id e' H). split; [done|by eapply committed_mono].
  - intros e' (j & r' & [[= -> -> ->]|H]%elem_of_cons); [done|]. apply (j_ids _ _ Hj). by exists j, r'.
  - intros [Hlt Ho] j last es e0 [[=]|H]%elem_of_cons Hin. destruct (j_listed _ _ Hj Ho j last es e0 H Hin) as [H1 H2].
    split; [by eapply committed_mono|]. intros e' [->|Hp]%Hpres Hle; [|by apply H2]. specialize (Hlt _ H1). lia.
  - intros [Hlt Ho] c Hs. assert (cursor_seen d l c) as Hs'.
    { destruct Hs as [Hs|(j & [[=]|Hs]%elem_of_cons)]; [left; congruence|right; eauto]. }
    destruct (j_cursor _ _ Hj Ho c Hs') as [H1 H2]. split; [by eapply not_ahead_mono|].
    intros e' [->|Hp]%Hpres Hle; [|by eapply dispatched_mono, H2].
    destruct H1 as [?|(e0 & H0 & Hle0)]; [lia|]. specialize (Hlt _ H0). lia.
Qed.

#[export] Instance by_id_trans : Transitive by_id.
Proof. intros a b c. unfold by_id. lia. Qed.
#[export] Instance by_id_total : Total by_id.
Proof. intros a b. unfold by_id. lia. Qed.

Definition below_id (a b : DomainEvent) : Prop := ev_ID a < ev_ID b.

Lemma sorted_strictly (es : list DomainEvent) : StronglySorted by_id es → NoDup es →
  (∀ a b, a ∈ es → b ∈ es → ev_ID a = ev_ID b → a = b) → StronglySorted below_id es.
Proof.
  induction 1 as [|a es Hs IH Hf]; intros Hnd Hinj; constructor; inversion_clear Hnd as [|? ? Hni Hnd']; [apply IH; set_solver|].
  rewrite Forall_forall in Hf |- *. intros b Hb. specialize (Hf b Hb). unfold by_id in Hf. unfold below_id.
  destruct (decide (ev_ID a = ev_ID b)) as [E|]; [|lia]. apply Hinj in E as ->; [done|set_solver..].
Qed.

(** What a listing has: the first events past the cursor. *)
Lemma listing_spec d last n es : (∀ id e, domain_events d !! id = Some e → ev_ID e = id) →
  es = take n (merge_sort by_id (filter (fun e => last < ev_ID e) (map_to_list (domain_events d)).*2)) →
  StronglySorted below_id es ∧ ∀ e, e ∈ es → present d e ∧ ∀ e', present d e' → last < ev_ID e' <= ev_ID e → e' ∈ es.
Proof.
  intros Hk. set (L := merge_sort by_id _). intros ->.
  assert (∀ e, e ∈ L ↔ present d e ∧ last < ev_ID e) as HL.
  { intros e. unfold L. rewrite merge_sort_Permutation, list_elem_of_filter, list_elem_of_fmap. unfold present. split.
    - intros [Hlt ([id x] & -> & Hx%elem_of_map_to_list)]. cbn. rewrite (Hk id x Hx). split; [done|]. cbn in Hlt. by rewrite (Hk id x Hx) in Hlt.
    - intros [Hp Hlt]. split; [done|]. exists (ev_ID e, e). split; [done|]. by apply elem_of_map_to_list. }
  assert (StronglySorted below_id L) as Hs.
  { apply sorted_strictly; [apply StronglySorted_merge_sort; apply _| |].
    - unfold L. rewrite merge_sort_Permutation. apply NoDup_filter, NoDup_fmap_2_strong; [|apply NoDup_map_to_list].
      intros [x ex] [y ey] Hx%elem_of_map_to_list Hy%elem_of_map_to_list. cbn. intros ->. by rewrite <- (Hk x ey Hx), (Hk y ey Hy).
    - intros x y [Hx _]%HL [Hy _]%HL E. unfold present in *. rewrite E in Hx. congruence. }
  rewrite <- (take_drop n L) in Hs. split; [by eapply StronglySorted_app_1_l|].
  intros e He. assert (e ∈ L) as HeL by (rewrite <- (take_drop n L); set_solver). apply HL in HeL as [Hp Hlt]. split; [done|].
  intros e' Hp' [Hlo Hhi]. assert (e' ∈ L) as He' by (by apply HL). rewrite <- (take_drop n L) in He'. apply elem_of_app in He' as [|Hd]; [done|].
  pose proof (StronglySorted_app_1_elem_of _ _ _ _ _ Hs He Hd) as Hb. unfold below_id in Hb. lia.
Qed.

Lemma J_read d l i ev : J d l → ok_event i ev l → (∀ e r, ev ≠ EvCommitted e r) → (∀ id, ev ≠ EvNumber (Ok id)) →
  (∀ last es e, ev = EvListed last (Ok es) → e ∈ es → present d e ∧ ∀ e', present d e' → last < ev_ID e' <= ev_ID e → e' ∈ es) →
  (∀ c, ev = EvCursor (Ok c) → last_event_id d = Some c) → J d ((i, ev) :: l).
Proof.
  intros Hj Hok Hc Hn Hl Hcur. assert (l ⊆ (i, ev) :: l) as Hsub by set_solver.
  assert (in_order ((i, ev) :: l) → in_order l) as Hord by (destruct ev; try done; by edestruct Hc).
  split.
  - split; [done|apply Hj].
  - apply Hj.
  - intros j id [[= -> <-]|H]%elem_of_cons; [by edestruct Hn|]. by eapply (j_number _ _ Hj).
  - intros id e H. destruct (j_rows _ _ Hj id e H). split; [done|by eapply committed_mono].
  - intros e (j & r & [[= -> <-]|H]%elem_of_cons); [by edestruct Hc|]. apply (j_ids _ _ Hj). by exists j, r.
  - intros Ho j last es e [[= -> <-]|H]%elem_of_cons Hin.
    + destruct (Hl last es e eq_refl Hin) as [Hp Hes]. split; [|done]. destruct (j_rows _ _ Hj _ _ Hp). by eapply committed_mono.
    + destruct (j_listed _ _ Hj (Hord Ho) j last es e H Hin) as [H1 H2]. split; [by eapply committed_mono|done].
  - intros Ho c Hs. assert (cursor_seen d l c) as Hs'.
    { destruct Hs as [Hs|(j & [[= -> <-]|Hs]%elem_of_cons)]; [by left|left; by apply Hcur|right; eauto]. }
    destruct (j_cursor _ _ Hj (Hord Ho) c Hs') as [H1 H2]. split; [by eapply not_ahead_mono|].
    intros e Hp Hle. by eapply dispatched_mono, H2.
Qed.

Lemma J_advance d d' l i last r : J d l → (in_order l → not_ahead last l ∧ ∀ e, present d e → ev_ID e <= last → dispatched e l) →
  domain_events d' = domain_events d → next_event d' = next_event d → last_event_id d' = Some last ∨ last_event_id d' = last_event_id d →
  J d' ((i, EvAdvanced last r) :: l).
Proof.
  intros Hj Hlast He Hn Hc. assert (J d ((i, EvAdvanced last r) :: l)) as H by (by apply J_read).
  destruct H as [H1 H2 H3 H4 H5 H6 H7]. split; [done|by rewrite Hn|by rewrite Hn|by rewrite He|done| |].
  - intros Ho j la es e Hi Hin. destruct (H6 Ho j la es e Hi Hin) as [Ha Hb]. split; [done|]. unfold present. by rewrite He.
  - intros Ho c Hs. unfold present. rewrite He. destruct Hc as [Hc|Hc]; [|apply H7; [done|]; destruct Hs as [Hs|Hs]; [left; congruence|by right]].
    destruct Hs as [Hs|Hs]; [|by apply H7; [|right]]. rewrite Hc in Hs. injection Hs as <-.
    destruct (Hlast Ho) as [Ha Hb]. assert (l ⊆ (i, EvAdvanced last r) :: l) as Hsub by set_solver.
    split; [by eapply not_ahead_mono|]. intros e Hp Hle. by eapply dispatched_mono, Hb.
Qed.

(** ** Jobs and requests *)

Section Requests.
Context (hmac : string → string → string) (CheckPrincipalFeature : string → Z → Z → bool) (deps : Deps) (i : nat).
Implicit Types (l : Log).

Lemma ns_read_cursor (Q : Log → res DBErr Z → Prop) l :
  (∀ l' r, l ⊆ l' → (i, EvCursor r) ∈ l' → Q l' r) → sf i (exec GetEventCursor EvCursor) Q l.
Proof.
  intros HQ env d l' Hl Hj. destruct (answer Fault_ env GetEventCursor d) as [r d'] eqn:E. split; [|apply HQ; set_solver].
  destruct (answer_inv _ _ _ _ _ E) as [[-> [e ->]]|(x & Hx & Hr)]; [by apply J_read|].
  unfold GetEventCursor, reads in Hx. destruct (one (last_event_id d)) eqn:Ec; [|done]. injection Hx as <- <-. apply J_read; try done.
  intros c [= ->]. destruct Hr as [[= ->]|?]; [|done]. destruct (last_event_id d); [by injection Ec as ->|done].
Qed.

Lemma ns_list last n (Q : Log → res DBErr (list DomainEvent) → Prop) l :
  (∀ l' r, l ⊆ l' → (i, EvListed last r) ∈ l' → (∀ es, r = Ok es → StronglySorted below_id es) → Q l' r) →
  sf i (exec (ListUnprocessedDomainEvents last n) (EvListed last)) Q l.
Proof.
  intros HQ env d l' Hl Hj. destruct (answer Fault_ env (ListUnprocessedDomainEvents last n) d) as [r d'] eqn:E.
  assert (∀ id e, domain_events d !! id = Some e → ev_ID e = id) as Hk by (intros id e H; by destruct (j_rows _ _ Hj id e H)).
  destruct (answer_inv _ _ _ _ _ E) as [[-> [e ->]]|(x & [= Hx <-] & Hr)]; [split; [by apply J_read|apply HQ; set_solver]|].
  symmetry in Hx. destruct (listing_spec d last n x Hk Hx) as [Hs Hin]. split.
  - apply J_read; try done. intros la es e [= -> ->] He. destruct Hr as [[= ->]|?]; [by apply Hin|done].
  - apply HQ; [set_solver..|]. intros es ->. destruct Hr as [[= ->]|?]; done.
Qed.

Lemma ns_advance last (Q : Log → res DBErr unit → Prop) l :
  (∀ d l', l ⊆ l' → J d l' → in_order l' → not_ahead last l' ∧ ∀ e, present d e → ev_ID e <= last → dispatched e l') →
  (∀ l' r, l ⊆ l' → Q l' r) → sf i (exec (SetEventCursor last) (EvAdvanced last)) Q l.
Proof.
  intros Hlast HQ env d l' Hl Hj. destruct (answer Fault_ env (SetEventCursor last) d) as [r d'] eqn:E. split; [|apply HQ; set_solver].
  destruct (answer_inv _ _ _ _ _ E) as [[-> _]|(x & [= _ <-] & _)]; apply (J_advance d); eauto.
Qed.

(** The events that a listing put before the last one dispatched were dispatched, and there are no others. *)
Lemma passed_dispatched d l last es pre post e c : J d l → in_order l → (i, EvListed last (Ok es)) ∈ l → StronglySorted below_id es →
  es = pre ++ post → list.last pre = Some e → (∀ e', e' ∈ pre → dispatched e' l) →
  (∀ e', present d e' → ev_ID e' <= last → dispatched e' l) → c = ev_ID e →
  not_ahead c l ∧ ∀ e', present d e' → ev_ID e' <= c → dispatched e' l.
Proof.
  intros Hj Ho Hl Hs -> He Hpre Hold ->. apply last_Some in He as [pre' ->].
  assert (e ∈ (pre' ++ [e]) ++ post) as Hin by set_solver.
  destruct (j_listed _ _ Hj Ho _ _ _ _ Hl Hin) as [Hc Hall]. split; [right; by exists e|].
  intros e' Hp Hle. destruct (decide (ev_ID e' <= last)) as [?|Hgt]; [by apply Hold|].
  assert (e' ∈ (pre' ++ [e]) ++ post) as [H|H]%elem_of_app by (apply Hall; [done|lia]); [by apply Hpre|].
  assert (e ∈ pre' ++ [e]) as He by set_solver. pose proof (StronglySorted_app_1_elem_of _ _ _ _ _ Hs He H) as Hb. unfold below_id in Hb. lia.
Qed.

Lemma safe_fanout (order : Z → bool → list (Z * list Relation) → list (Z * list Relation)) l : (∀ id b ul, order id b ul ≡ₚ ul) → sf i (FanoutOnce hmac CheckPrincipalFeature order deps) (fun _ _ => True) l.
Proof.
  intros Horder. apply ns_bind, ns_read_cursor. intros l1 cur H1 Hcur.
  assert (cur = Err Violation ∨ cur = Err Fault_ ∨ ∃ last, last = (match cur with Ok c => c | Err _ => 0 end) ∧
    (last = 0 ∨ (i, EvCursor (Ok last)) ∈ l1)) as [->|[->|(last & Elast & Hlast)]]; [|done|done|].
  { destruct cur as [c|[]]; [right; right; eauto|by left|right; right; eauto|by right; left]. }
  assert (sf i (events ← exec (ListUnprocessedDomainEvents last FanoutBatch) (EvListed last);
      match events with
      | Err e => mret (Err e)
      | Ok events =>
          '(last, processed) ← dispatch_all hmac CheckPrincipalFeature order deps last 0 events;
          if bool_decide (processed = 0)%nat then mret (Ok 0%nat)
          else r ← exec (SetEventCursor last) (EvAdvanced last); mret match r with Ok _ => Ok processed | Err e => Err e end
      end : P (res DBErr nat)) (fun _ _ => True) l1) as Hrest.
  2:{ destruct cur as [c|[]]; [by rewrite <- Elast|done|by rewrite <- Elast|done]. }
  apply ns_bind, ns_list. intros l2 [es|] H2 Hes Hsort; [|done]. specialize (Hsort es eq_refl).
  apply ns_bind, ns_dispatch_all; [done|]. intros l3 [c k] H3 (pre & post & Ees & Hk & Hc & Hd). cbn in Hk, Hc.
  case_bool_decide as Hz; [done|]. apply ns_bind, ns_advance; [|done]. intros d l4 H4 Hj Ho.
  destruct (list.last pre) as [e|] eqn:El; [|apply last_None in El as ->; cbn in Hk; lia]. cbn in Hc.
  apply (passed_dispatched d l4 last es pre post e c); try done.
  - by apply H4, H3.
  - intros e' He'. eapply dispatched_mono; [exact H4|by apply Hd].
  - intros e' Hp Hle. destruct Hlast as [->|Hread].
    + destruct (j_rows _ _ Hj _ _ Hp) as [_ Hcom]. pose proof (j_ids _ _ Hj e' Hcom). lia.
    + eapply (j_cursor _ _ Hj Ho last); [|done|done]. right. exists i. by apply H4, H3, H2.
Qed.

Lemma safe_emit e l : (∀ id, ev_ID (e id) = id) → sf i (EmitTx e) (fun _ _ => True) l.
Proof.
  intros He. apply ns_bind. intros env d l1 H1 Hj. destruct (answer Fault_ env nextval_event d) as [r d'] eqn:E.
  split; [by eapply J_number|]. destruct r as [id|]; [|done]. intros env2 d2 l2 H2 Hj2.
  destruct (answer Fault_ env2 (InsertDomainEvent (e id)) d2) as [r2 d3] eqn:E2. split; [|done].
  eapply J_commit; [done| |done]. rewrite He. apply (j_number _ _ Hj2 i id). set_solver.
Qed.

Lemma harmless_advance d : harmless i (advance d).
Proof. unfold advance. harmless_tac. Qed.

Lemma harmless_send_digest u w a items : harmless i (send_digest deps u w a items).
Proof. unfold send_digest. destruct (EmailSender deps); [|apply harmless_ret]. intros Q l H. by apply ns_send. Qed.

Lemma harmless_processOne d : harmless i (processOne CheckPrincipalFeature deps d).
Proof.
  unfold processOne, primaryEmailFor.
  repeat first [harmless_step|apply harmless_allowed|apply harmless_advance|apply harmless_send_digest].
Qed.

Lemma harmless_process_all ds n : harmless i (process_all CheckPrincipalFeature deps n ds).
Proof. revert n. induction ds as [|d ds IH]; intros n; cbn [process_all]; [apply harmless_ret|]. apply harmless_bind; [apply harmless_processOne|done]. Qed.

Lemma harmless_sweep : harmless i (SweepOnce CheckPrincipalFeature deps).
Proof. unfold SweepOnce. repeat first [harmless_step|apply harmless_process_all]. Qed.

Lemma harmless_gate f b u : harmless i (feature_gate CheckPrincipalFeature f b u).
Proof. unfold feature_gate. harmless_tac. Qed.

Lemma safe_ended {A} (p : P A) l : sf i p (fun _ _ => True) l → sf i (ended p) (fun _ _ => True) l.
Proof. intros H. apply ns_bind. by eapply ns_weaken; [|exact H]. Qed.

(** Every job and request is safe. *)
Lemma safe_request l ev p : arrive hmac CheckPrincipalFeature deps l ev p → ev = EvOther ∧ sf i p (fun _ _ => True) ((i, ev) :: l).
Proof.
  assert (∀ A (q : P A) l', harmless i q → sf i (ended q) (fun _ _ => True) l') as Hh by (intros; by apply safe_ended, harmless_sf).
  destruct 1; (split; [done|]); [by apply safe_ended, safe_fanout|by apply safe_ended, safe_emit|apply Hh..].
  - apply harmless_sweep.
  - unfold setRead. harmless_tac.
  - unfold markAllRead. harmless_tac.
  - unfold threadAction. harmless_tac.
  - unfold unsubscribeViaToken. harmless_tac.
  - unfold notificationsMarkAllRead. harmless_tac.
  - unfold notificationPatch. harmless_tac.
  - unfold settingsRuleCreate. repeat first [harmless_step|apply harmless_gate].
  - unfold settingsRuleDelete. harmless_tac.
  - unfold settingsRuleToggle. harmless_tac.
  - unfold settingsDigestSave. repeat first [harmless_step|apply harmless_gate].
  - unfold settingsDigestDisable. harmless_tac.
Qed.

End Requests.
