(* ===== verification/NotifFacts.v ===== *)
(** * NotifFacts: what the fan-out, its mails and the digests promise *)

From stdpp Require Import sorting.
From S2P Require Import Prelude GoString NetIP NetIPFacts Encoding Program Notif Digest NotifInv.
From S2P Require Policy Session Tokens CredentialsFacts.
Local Open Scope Z_scope.

(** ** Reachable states *)

Definition State : Type := World (DB := Tables) (E := DBErr) (Ev := Event) ().

Definition begin (t : Tables) : State := MkWorld t [] [].

(** No event yet: the other tables may hold anything. *)
Definition no_events (t : Tables) : Prop :=
  domain_events t = ∅ ∧ 1 <= next_event t ∧ default 0 (last_event_id t) <= 0.

Lemma J_begin t : no_events t → J t [].
Proof.
  intros (He & Hn & Hc). split; cbn; try done.
  - set_solver.
  - intros id e. by rewrite He.
  - intros e (j & r & H). set_solver.
  - set_solver.
  - intros _ c [H|(j & H)]; [|set_solver]. split; [left; by rewrite H in Hc|]. intros e. unfold present. by rewrite He.
Qed.

Lemma J_elsewhere t t' l : J t l → elsewhere t t' → J t' l.
Proof.
  intros [H1 H2 H3 H4 H5 H6 H7] (He & Hn & Hc).
  assert (∀ e, present t' e → present t e) as Hp by (intros e H; by eapply lookup_weaken).
  split; [done|by rewrite Hn|by rewrite Hn| |done| |].
  - intros id e H. eapply H4, lookup_weaken; done.
  - intros Ho i la es e Hi Hin. destruct (H6 Ho i la es e Hi Hin) as [Ha Hb]. split; [done|]. intros e' Hp'. by apply Hb, Hp.
  - intros Ho c Hs. destruct (H7 Ho c) as [Ha Hb]; [destruct Hs as [Hs|Hs]; [left; congruence|by right]|].
    split; [done|]. intros e Hpe. by apply Hb, Hp.
Qed.

Section Facts.
Context (hmac : string → string → string) (CheckPrincipalFeature : string → Z → Z → bool) (deps : Deps).

(** One step of the system. *)
Definition step : State → State → Prop := nstep hmac CheckPrincipalFeature deps.

Lemma notif_J t w : no_events t → rtc step (begin t) w → J (w_db w) (w_log w).
Proof.
  intros Ht Hr. apply (world_invariant Fault_ J (arrive hmac CheckPrincipalFeature deps) elsewhere (begin t) w); [| |done|].
  - intros d l i ev p Hj Ha. destruct (safe_request hmac CheckPrincipalFeature deps i l ev p Ha) as [-> Hs].
    split; [|exact Hs]. by apply (J_plain d).
  - intros d d' l Hj He. by eapply J_elsewhere.
  - split; [by apply J_begin|]. done.
Qed.


(** C13: A mail is sent only after the row of the inbox was written, to the address that the account of the recipient has as
    its primary one, and which is verified; the preference for the reason is on, and no rule has put the row to sleep or dropped it. Before it
    the fan-out that sends it counted no mail to the recipient about the thread for the last ten minutes and fewer than a hundred for the last hour:
    others that count at the same time may send as well ([two_mails] below). *)
Theorem mailed_if_wanted (t : Tables) (w : State) (i : nat) (id u : Z) (a : Action) (th : option Thread) (n : Notification) (m : Message) (l1 l2 : Log) :
  no_events t → rtc step (begin t) w → w_log w = l1 ++ (i, EvMail id u a th n m) :: l2 →
  mailed i id u a th n m l2.
Proof.
  intros Ht Hr Hl. pose proof (j_chain _ _ (notif_J t w Ht Hr)) as Hc. rewrite Hl in Hc. by apply (chain_at l1 l2 i) in Hc.
Qed.

(** C14: As long as the transactions that emit events end in the order of their numbers, no event is lost: whatever fails
    and however fan-outs overlap, one of them computed the recipients of each event up to the cursor and settled every
    one of them: told, or the actor, or not routed, or not allowed to see, or ignoring. *)
Theorem no_event_lost (t : Tables) (w : State) (c : Z) (e : DomainEvent) :
  no_events t → rtc step (begin t) w → in_order (w_log w) →
  last_event_id (w_db w) = Some c → domain_events (w_db w) !! ev_ID e = Some e → ev_ID e <= c →
  ∃ i m, (i, EvRelations e m) ∈ w_log w ∧ ∀ u rels, m !! u = Some rels → settled i e u rels (w_log w).
Proof.
  intros Ht Hr Ho Hc Hp Hle. pose proof (notif_J t w Ht Hr) as Hj.
  destruct (j_cursor _ _ Hj Ho c (or_introl Hc)) as [_ Hd]. destruct (Hd e Hp Hle) as (i & Hi).
  apply list_elem_of_split in Hi as (l1 & l2 & Hl). pose proof (j_chain _ _ Hj) as Hch. rewrite Hl in Hch |- *.
  apply (chain_at l1 l2 i) in Hch as (m & Hm & Hs). exists i, m. split; [set_solver|].
  intros u rels Hu. eapply settled_mono; [|by apply Hs]. set_solver.
Qed.

End Facts.

(** ** A repository, its issue and two accounts *)

(** One step of a thread, and a program from its arrival to its end. *)
Definition advance (env : Env) (i : nat) (w : State) : State :=
  match w_threads w !! i with
  | None => w
  | Some p => let '(p', d, evs) := step1 Fault_ env (w_db w) p in MkWorld d (<[i := p']> (w_threads w)) (tag i evs ++ w_log w)
  end.

Definition enter (p : P ()) (w : State) : State := MkWorld (w_db w) (w_threads w ++ [p]) ((length (w_threads w), EvOther) :: w_log w).

Definition serve (env : Env) (p : P ()) (w : State) : State :=
  let i := length (w_threads w) in
  let '(a, d, evs) := run Fault_ p (fun _ => env) 0 (w_db w) in
  MkWorld d (w_threads w ++ [Ret a]) (tag i evs ++ (i, EvOther) :: w_log w).

Section Steps.
Context (hmac : string → string → string) (CheckPrincipalFeature : string → Z → Z → bool) (deps : Deps).

Lemma fan_advance_steps env i w : rtc (step hmac CheckPrincipalFeature deps) w (advance env i w).
Proof.
  destruct w as [d ts l]. unfold advance. cbn [w_threads w_db w_log]. destruct (ts !! i) as [p|] eqn:E; [|done].
  destruct (step1 Fault_ env d p) as [[p' d'] evs] eqn:Es. apply rtc_once. by eapply W_run.
Qed.

Lemma enter_steps p w : arrive hmac CheckPrincipalFeature deps (w_log w) EvOther p → rtc (step hmac CheckPrincipalFeature deps) w (enter p w).
Proof. intros Ha. destruct w as [d ts l]. apply rtc_once. by apply W_arrive. Qed.

Lemma serve_steps env p w : arrive hmac CheckPrincipalFeature deps (w_log w) EvOther p → rtc (step hmac CheckPrincipalFeature deps) w (serve env p w).
Proof.
  intros Ha. etrans; [by apply enter_steps|]. destruct w as [d ts l]. unfold enter, serve. cbn [w_threads w_db w_log] in *.
  pose proof (run_steps Fault_ (arrive hmac CheckPrincipalFeature deps) elsewhere p (fun _ => env) 0 (length ts) (ts ++ [p]) d
    ((length ts, EvOther) :: l)) as H.
  destruct (run Fault_ p (fun _ => env) 0 d) as [[a d'] evs]. specialize (H ltac:(by rewrite lookup_app_r, Nat.sub_diag)).
  by rewrite insert_app_r_alt, Nat.sub_diag in H.
Qed.
End Steps.

(** Carol (1) owns a private repository, Bob (2) collaborates and has opened its issue. *)
Definition demo_roles : Policy.Store := {|
  Policy.orgs := ∅; Policy.org_security_settings := ∅; Policy.org_members := ∅;
  Policy.repo_collaborators := {[(7, 2) := "read"]}; Policy.teams := ∅; Policy.team_members := ∅; Policy.team_repo_access := ∅;
  Policy.fault := fun _ => None |}.

Definition demo : Tables := MkTables ∅ 1 (Some 0) ∅ 1 ∅ [] ∅ 1 ∅ ∅
  {[11 := MkIssue ThreadIssue 7 (Some 2) 1 "secret plan"]} []
  {[7 := Policy.Build_RepoRow 7 (Some 1) None "private" false false None]} {[7 := "plans"]} demo_roles
  ∅ {[1 := MkUser "carol" "" None None; 2 := MkUser "bob" "" None (Some 5)]} {[5 := MkEmail "bob@example.org" true]} ∅.

Definition demo_deps : Deps := MkDeps true "noreply@example.org" "forge" "https://forge.example" "key" false false.
Definition demo_hmac (key payload : string) : string := key +:+ payload.
Definition demo_check (_ : string) (_ _ : Z) : bool := true.
Definition demo_order (_ : Z) (_ : bool) (l : list (Z * list Relation)) : list (Z * list Relation) := l.

Definition at_ (seconds : Z) : Env := MkEnv (seconds * second) Fine (fun _ => None) true.

Definition comment (id : Z) : DomainEvent := MkEvent id (Some 1) "issue_comment_created" (Some 7) "issue" 11 [] 0.
Definition fan_out : P () := ended (FanoutOnce demo_hmac demo_check demo_order demo_deps).
Definition emit : P () := ended (EmitTx comment).

Definition demo_step : State → State → Prop := step demo_hmac demo_check demo_deps.

Lemma fan_out_arrives l : arrive demo_hmac demo_check demo_deps l EvOther fan_out.
Proof. by apply A_fanout. Qed.
Lemma emit_arrives l : arrive demo_hmac demo_check demo_deps l EvOther emit.
Proof. by apply A_emit. Qed.

(** A comment of Carol's, and a fan-out. *)
Definition told_bob : State := serve (at_ 2) fan_out (serve (at_ 1) emit (begin demo)).

Lemma told_bob_steps : rtc demo_step (begin demo) told_bob.
Proof. etrans; [apply serve_steps, emit_arrives|apply serve_steps, fan_out_arrives]. Qed.

Lemma demo_no_events : no_events demo.
Proof. done. Qed.

(** Where in a history something is. *)
Fixpoint find_event (p : Event → bool) (l : Log) : nat :=
  match l with [] => 0%nat | (_, ev) :: l => if p ev then 0%nat else S (find_event p l) end.

Definition is_inbox (ev : Event) : bool := match ev with EvInbox _ _ _ _ => true | _ => false end.
Definition is_mail (ev : Event) : bool := match ev with EvMail _ _ _ _ _ _ => true | _ => false end.
Definition count_events (p : Event → bool) (l : Log) : nat := length (filter (fun x => p x.2 = true) l).

Definition as_author : Action := MkAction true true false ReasonAuthor.
Definition mail_at : nat := find_event is_mail (w_log told_bob).


Lemma mailed_if_wanted_witness : ∃ n m,
  w_log told_bob !! mail_at = Some (1%nat, EvMail 1 2 as_author (Some (ThreadIssue, 11)) n m) ∧ To m = "bob@example.org" ∧
  mailed 1 1 2 as_author (Some (ThreadIssue, 11)) n m (drop (S mail_at) (w_log told_bob)).
Proof.
  eexists _, _. split_and!; [vm_compute; reflexivity|reflexivity|].
  eapply (mailed_if_wanted demo_hmac demo_check demo_deps demo told_bob _ _ _ _ _ _ _ (take mail_at (w_log told_bob)));
    [exact demo_no_events|exact told_bob_steps|symmetry; apply take_drop_middle; vm_compute; reflexivity].
Defined.

Lemma told_in_order : in_order (w_log told_bob).
Proof.
  vm_compute. split; [|done]. intros e (j & r & H). repeat (apply elem_of_cons in H as [H|H]; [discriminate|]). by apply elem_of_nil in H.
Qed.

Lemma no_event_lost_witness :
  last_event_id (w_db told_bob) = Some 1 ∧
  ∃ i m, (i, EvRelations (comment 1) m) ∈ w_log told_bob ∧ ∀ u rels, m !! u = Some rels → settled i (comment 1) u rels (w_log told_bob).
Proof.
  split; [vm_compute; reflexivity|].
  apply (no_event_lost demo_hmac demo_check demo_deps demo told_bob 1 (comment 1));
    [exact demo_no_events|exact told_bob_steps|exact told_in_order|vm_compute; reflexivity..|done].
Defined.

(** ** What the code does not hold *)

(** Two comments draw the numbers 1 and 2; the second commits first, and a fan-out passes it. *)
Definition overtaken : State :=
  let w := enter emit (enter emit (begin demo)) in
  let w := advance (at_ 1) 1 (advance (at_ 1) 1 (advance (at_ 1) 0 w)) in
  serve (at_ 5) fan_out (advance (at_ 4) 0 (serve (at_ 3) fan_out w)).

Lemma overtaken_steps : rtc demo_step (begin demo) overtaken.
Proof.
  etrans; [|apply serve_steps, fan_out_arrives]. etrans; [|apply fan_advance_steps]. etrans; [|apply serve_steps, fan_out_arrives].
  etrans; [|apply fan_advance_steps]. etrans; [|apply fan_advance_steps]. etrans; [|apply fan_advance_steps].
  etrans; [|apply enter_steps, emit_arrives]. apply enter_steps, emit_arrives.
Qed.

(** The first one is never dispatched: the hypothesis of [no_event_lost] is needed. *)
Example event_lost :
  last_event_id (w_db overtaken) = Some 2 ∧ is_Some (domain_events (w_db overtaken) !! 1) ∧
  count_events (fun ev => match ev with EvDispatched e => bool_decide (ev_ID e = 1) | _ => false end) (w_log overtaken) = 0%nat.
Proof. vm_compute. split_and!; [reflexivity|by eexists|reflexivity]. Qed.

Definition mails (w : State) : nat := count_events is_mail (w_log w).

(** A day in seconds. *)
Definition days (n : Z) : Z := n * 86400.

(** Two fan-outs in step: both count before either has logged, and Bob has two mails about one comment. *)
Fixpoint in_step (n : nat) (w : State) : State := match n with O => w | S n => in_step n (advance (at_ 2) 2 (advance (at_ 2) 1 w)) end.
Example two_mails : mails (in_step 60 (enter fan_out (enter fan_out (serve (at_ 1) emit (begin demo))))) = 2%nat.
Proof. vm_compute. reflexivity. Qed.

(** Bob follows the link of his mail, and is mailed about the next comment all the same: he is still the author. *)
Definition bob_link : P () :=
  ended (unsubscribeViaToken demo_hmac demo_deps "2" "issue" "11" (HMACSig demo_hmac "key" (unsubscribe_payload 2 "issue" 11))).
Example unsubscribed_author :
  let w := serve (at_ 10) bob_link told_bob in
  let w' := serve (at_ (days 1)) fan_out (serve (at_ (days 1)) emit w) in
  (Subscribed <$> notification_threads (w_db w) !! (2, (ThreadIssue, 11))) = Some false ∧ mails w = 1%nat ∧ mails w' = 2%nat.
Proof. vm_compute. done. Qed.

(** A rule of Bob's puts what Carol does to sleep for five minutes; he deletes it. A week later the thread is still not mailed. *)
Definition nap : RuleForm := MkRuleForm "nap" "snooze" "" "" "" "1" "5" "".
Example asleep_for_ever :
  let w := serve (at_ 0) (ended (settingsRuleCreate demo_check demo_deps 2 nap)) (begin demo) in
  let w := serve (at_ 2) fan_out (serve (at_ 1) emit w) in
  let w := serve (at_ 3) (ended (settingsRuleDelete 2 "1")) w in
  let w := serve (at_ (days 7)) fan_out (serve (at_ (days 7)) emit w) in
  user_notification_rules (w_db w) = ∅ ∧ count_events is_inbox (w_log w) = 2%nat ∧ mails w = 0%nat.
Proof. vm_compute. done. Qed.

(** Bob has a digest every day, and loses his access: the digest tells him the title the issue has now. *)
Definition digest_form_ : DigestForm := MkDigestForm "daily" "9" "".
Definition without_bob (t : Tables) : Tables :=
  MkTables (domain_events t) (next_event t) (last_event_id t) (notifications t) (next_notification t) (notification_threads t)
    (notification_email_log t) (user_notification_rules t) (next_rule t) (user_notification_digests t) (user_notification_prefs t)
    {[11 := MkIssue ThreadIssue 7 (Some 2) 1 "what Bob must not know"]} (issue_assignees t) (repos t) (repo_names t)
    {| Policy.orgs := ∅; Policy.org_security_settings := ∅; Policy.org_members := ∅; Policy.repo_collaborators := ∅; Policy.teams := ∅;
       Policy.team_members := ∅; Policy.team_repo_access := ∅; Policy.fault := fun _ => None |}
    (watches t) (users t) (user_emails t) (confirmed_totp t).

Definition digests (w : State) : list string := omap (fun x => match x.2 with EvDigest _ m => Some (Text m) | _ => None end) (w_log w).

Example digest_of_the_forbidden :
  let w := serve (at_ 10) (ended (settingsDigestSave demo_check demo_deps 2 digest_form_)) told_bob in
  let w := MkWorld (without_bob (w_db w)) (w_threads w) (w_log w) in
  let w := serve (at_ (days 1)) (ended (SweepOnce demo_check demo_deps)) w in
  existsb (fun s => Contains s "what Bob must not know") (digests w) = true ∧
  (IsVisibleTo (Policy.UserActor 2 "bob" false false) (Policy.Build_RepoRow 7 (Some 1) None "private" false false None) 0 (w_db w)) =
    Ok (false, w_db w).
Proof. vm_compute. done. Qed.

(** ** The link of a mail *)

(** A table with one row of subscriptions changed. *)
Definition unsubscribed (t : Tables) (user : Z) (th : Thread) : Tables :=
  with_threads t (<[(user, th) := MkThread false "email_one_click"]> (notification_threads t)) (notification_email_log t).

Definition id_ok (n : Z) : Prop := 0 <= n < 2 ^ 63.

Lemma ParseInt_pretty n : id_ok n → Tokens.ParseInt (pretty n) = Some n.
Proof.
  intros [H0 H1]. destruct (CredentialsFacts.pretty_dec n H0) as (Hd & Hne & Hv). unfold Tokens.ParseInt, Ssrf.Atoi.
  assert ((match pretty n with String "-"%char ds => (true, ds) | String "+"%char ds => (false, ds) | _ => (false, pretty n) end) = (false, pretty n)) as ->.
  { destruct (pretty n) as [|c s]; [done|]. cbn in Hd. destruct c as [[] [] [] [] [] [] [] []]; done. }
  cbn. rewrite bool_decide_false, Hd, Hv, bool_decide_false by (done || lia). done.
Qed.

Lemma pretty_no_colon (z : Z) : has_byte ":" (pretty z) = false.
Proof.
  assert (∀ s, str_forallb is_dec s = true → has_byte ":" s = false) as Hdec.
  { unfold has_byte. intros s H. rewrite negb_false_iff. revert H. apply forallb_weaken. by intros [[] [] [] [] [] [] [] []]. }
  destruct (decide (0 <= z)) as [Hz|Hz]; [apply Hdec, CredentialsFacts.pretty_dec; done|].
  destruct z as [|p|p]; [lia..|]. change (pretty (Zneg p)) with (String "-"%char (pretty (Zpos p))).
  unfold has_byte. cbn [str_forallb]. apply (Hdec (pretty (Zpos p))), CredentialsFacts.pretty_dec. lia.
Qed.

Lemma payload_inj u u' k k' (th th' : Z) : unsubscribe_payload u (kind_text k) th = unsubscribe_payload u' (kind_text k') th' → u = u' ∧ k = k' ∧ th = th'.
Proof.
  assert (∀ z s, Cut (pretty (z : Z) +:+ ":" +:+ s) ":" = Some (pretty z, s)) as Hcut by (intros; apply Cut_byte, pretty_no_colon).
  assert (∀ k s, Cut (kind_text k +:+ ":" +:+ s) ":" = Some (kind_text k, s)) as Hkind by (intros []; intros; by apply Cut_byte).
  unfold unsubscribe_payload. intros E. pose proof (Hcut u (kind_text k +:+ ":" +:+ pretty th)) as H. rewrite E, Hcut in H.
  injection H as Hu Hr. apply (inj pretty) in Hu as <-. split; [done|]. pose proof (Hkind k (pretty th)) as Hk. rewrite <- Hr, Hkind in Hk.
  injection Hk as Hkt Hth. apply (inj pretty) in Hth as <-. split; [|done]. by destruct k, k'.
Qed.

Lemma EncodeToString_inj s s' : EncodeToString b64_url 6 s = EncodeToString b64_url 6 s' → s = s'.
Proof. intros E. apply (f_equal (RawDecodeString b64_url)) in E. rewrite !RawDecode_Encode in E by apply _. by injection E. Qed.

Section Link.
Context (hmac : string → string → string) (deps : Deps).

(** The signature in a link that was mailed. *)
Definition link_sig (user : Z) (th : Thread) : string :=
  HMACSig hmac (UnsubscribeKey deps) (unsubscribe_payload user (kind_text th.1) th.2).

(** A link of a mail unsubscribes its recipient from its thread and changes nothing else; its signature opens no
    other thread and speaks for nobody else, whatever the other parameters say, unless two texts have the same code. *)
Theorem unsubscribe_link (user : Z) (th : Thread) (t : Tables) (envs : nat → Env) :
  (∀ p q, hmac (UnsubscribeKey deps) p = hmac (UnsubscribeKey deps) q → p = q) →
  id_ok user → id_ok th.2 → is_Some (users t !! user) → (∀ k, e_fault (envs k) = Fine) →
  (run Fault_ (unsubscribeViaToken hmac deps (pretty user) (kind_text th.1) (pretty th.2) (link_sig user th)) envs 0 t).1 =
    (Page, unsubscribed t user th) ∧
  ∀ u tk ti, (run Fault_ (unsubscribeViaToken hmac deps u tk ti (link_sig user th)) envs 0 t).1 ∈
    [(Status 400, t); (Page, unsubscribed t user th)].
Proof.
  intros Hinj Hu Hth Hx Hf. destruct th as [k id]. cbn [fst snd] in *.
  assert (∀ s, (run Fault_ (exec (UpsertNotificationThread user (k, id) false s) (EvSubscribed user (k, id) false) ≫= fun _ => mret Page) envs 0 t).1 =
    (Page, with_threads t (<[(user, (k, id)) := MkThread false s]> (notification_threads t)) (notification_email_log t))) as Hrun.
  { intros s. unfold exec. cbn [mbind prog_bind bind run]. unfold answer, UpsertNotificationThread, fk. rewrite Hf, bool_decide_true by done. done. }
  assert (parse_kind (kind_text k) = Some k) as Hk by by destruct k.
  split.
  - unfold unsubscribeViaToken. rewrite !ParseInt_pretty, Hk by done. unfold VerifyUnsubscribe. rewrite bool_decide_true by done. apply Hrun.
  - intros u tk ti. unfold unsubscribeViaToken. destruct (Tokens.ParseInt u) as [user'|], (Tokens.ParseInt ti) as [id'|]; try set_solver.
    destruct (parse_kind tk) as [k'|] eqn:Ek; [|set_solver]. unfold VerifyUnsubscribe. case_bool_decide as Hs; [|set_solver].
    assert (tk = kind_text k') as ->. { unfold parse_kind in Ek. repeat case_bool_decide; by simplify_eq. }
    apply EncodeToString_inj, Hinj, payload_inj in Hs as (<- & <- & <-). cbn [negb]. rewrite Hrun. unfold unsubscribed. set_solver.
Qed.
End Link.

Lemma unsubscribe_link_witness :
  (run Fault_ (unsubscribeViaToken demo_hmac demo_deps "2" "issue" "11" (link_sig demo_hmac demo_deps 2 (ThreadIssue, 11))) (fun _ => at_ 9) 0 demo).1 =
    (Page, unsubscribed demo 2 (ThreadIssue, 11)) ∧
  ∀ u tk ti, (run Fault_ (unsubscribeViaToken demo_hmac demo_deps u tk ti (link_sig demo_hmac demo_deps 2 (ThreadIssue, 11))) (fun _ => at_ 9) 0 demo).1 ∈
    [(Status 400, demo); (Page, unsubscribed demo 2 (ThreadIssue, 11))].
Proof.
  apply (unsubscribe_link demo_hmac demo_deps 2 (ThreadIssue, 11)); [|by split|by split|by eexists|done].
  intros p q H. by apply (inj (String.append _)) in H.
Defined.

(** ** When digests are due *)

(** An instant the schedule names. *)
Definition scheduled (freq : Frequency) (hourUTC dow t : Z) : Prop :=
  t mod day = hourUTC * hour ∧ (freq = Weekly → weekday t = dow).

Lemma at_hour_spec base h : 0 <= h <= 23 → at_hour base h mod day = h * hour ∧ start_of_day base <= at_hour base h < start_of_day base + day.
Proof.
  intros Hh. unfold at_hour, start_of_day. assert (0 <= h * hour < day) by (unfold day, hour, minute, second; lia).
  split; [|lia]. rewrite Z.add_comm, Z_mod_plus_full. by apply Z.mod_small.
Qed.

(** Instants at one hour are days apart. *)
Lemma same_hour s t x : s mod day = x → t mod day = x → ∃ k, t = s + k * day.
Proof.
  intros Hs Ht. exists (t / day - s / day). pose proof (Z.div_mod s day ltac:(done)). pose proof (Z.div_mod t day ltac:(done)). lia.
Qed.

Lemma weekday_days t k : weekday (t + k * day) = (weekday t + k) mod 7.
Proof. unfold weekday. rewrite Z.div_add by done. rewrite Zplus_mod_idemp_l. f_equal. lia. Qed.

Lemma mod_shift t k : (t + k * day) mod day = t mod day.
Proof. by rewrite Z_mod_plus_full. Qed.

(** The loop finds the first of the next days that is late enough and of the right name. *)
Lemma weekly_loop_spec rounds c base dow k : 0 <= k <= Z.of_nat rounds →
  weekday (c + k * day) = dow → base < c + k * day → ∃ j, 0 <= j <= k ∧ weekly_loop rounds c base dow = Some (c + j * day) ∧
  weekday (c + j * day) = dow ∧ base < c + j * day ∧ ∀ j', 0 <= j' < j → ¬ (weekday (c + j' * day) = dow ∧ base < c + j' * day).
Proof.
  revert c k. induction rounds as [|n IH]; intros c k Hk Hw Hb; cbn [weekly_loop].
  - assert (k = 0) as -> by lia. rewrite Z.add_0_r in Hw, Hb. rewrite Hw, !bool_decide_true by done. exists 0. rewrite Z.add_0_r.
    split_and!; try done. lia.
  - destruct (bool_decide (weekday c = dow) && bool_decide (base < c)) eqn:E.
    + apply andb_true_iff in E as [E1%bool_decide_eq_true E2%bool_decide_eq_true]. exists 0. rewrite Z.add_0_r. split_and!; try done; lia.
    + assert (¬ (weekday c = dow ∧ base < c)) as Hno by (intros [H1 H2]; by rewrite !bool_decide_true in E).
      assert (k ≠ 0) by (intros ->; rewrite Z.add_0_r in Hw, Hb; by apply Hno).
      destruct (IH (c + day) (k - 1)) as (j & Hj & -> & H1 & H2 & H3); [lia|rewrite <- Hw; f_equal; lia|lia|].
      exists (j + 1). replace (c + (j + 1) * day) with (c + day + j * day) by lia. split_and!; try done; [lia|lia|].
      intros j' Hj'. destruct (decide (j' = 0)) as [->|]; [by rewrite Z.add_0_r|].
      replace (c + j' * day) with (c + day + (j' - 1) * day) by lia. apply H3. lia.
Qed.

Lemma today now : start_of_day now <= now < start_of_day now + day.
Proof.
  unfold start_of_day. pose proof (Z.div_mod now day ltac:(done)). pose proof (Z.mod_pos_bound now day ltac:(done)). lia.
Qed.

(** What comes later at the hour is some days after today's. *)
Lemma later_days now h t : 0 <= h <= 23 → now < t → t mod day = h * hour → ∃ k, 0 <= k ∧ t = at_hour now h + k * day.
Proof.
  intros Hh Ht Hm. destruct (at_hour_spec now h Hh) as [Hc Hr]. pose proof (today now).
  destruct (same_hour _ t _ Hc Hm) as [k ->]. exists k. split; [|done]. unfold day, hour, minute, second in *. lia.
Qed.

(** Within a week the day has the right name, and is late enough. *)
Lemma within_week now c dow : 0 <= dow <= 6 → now < c + day →
  ∃ k, 0 <= k <= 7 ∧ weekday (c + k * day) = dow ∧ now < c + k * day.
Proof.
  intros Hd Hc. set (k := (dow - weekday c) mod 7). assert (0 <= k < 7) as Hk by (apply Z.mod_pos_bound; lia).
  assert (∀ x, weekday (c + (k + x * 7) * day) = dow) as Hwk.
  { intros x. rewrite weekday_days. unfold k. rewrite <- Zplus_mod_idemp_r, Z_mod_plus_full, Zmod_mod, Zplus_mod_idemp_r.
    replace (weekday c + (dow - weekday c)) with dow by lia. apply Z.mod_small. lia. }
  destruct (decide (now < c + k * day)) as [Hlt|Hge].
  - exists k. split_and!; [lia..| |done]. specialize (Hwk 0). by rewrite Z.add_0_r in Hwk.
  - assert (k = 0) as Hz by (unfold day, hour, minute, second in *; lia). exists 7. specialize (Hwk 1). rewrite Hz in Hwk.
    split_and!; [lia..|done|unfold day, hour, minute, second in *; lia].
Qed.

(** For an hour and a day of the week that exist, the loop over the days ends within a week, and what comes out is the
    first instant after now that the schedule names. *)
Theorem NextSendTime_first (now : Z) (freq : Frequency) (h dow : Z) : 0 <= h <= 23 → 0 <= dow <= 6 →
  ∃ t, NextSendTime now freq h dow = Some t ∧ now < t ∧ scheduled freq h dow t ∧ ∀ t', now < t' → scheduled freq h dow t' → t <= t'.
Proof.
  intros Hh Hd. destruct (at_hour_spec now h Hh) as [Hm [Hlo Hhi]]. pose proof (today now) as Hday.
  assert (0 < day) by done. destruct freq; cbn [NextSendTime].
  - unfold nextDailyAfter. case_bool_decide as Hc.
    + exists (at_hour now h). split_and!; [done|lia|by split|]. intros t' Ht' [Hm' _]. destruct (later_days now h t' Hh Ht' Hm') as (k & Hk & ->). nia.
    + exists (at_hour now h + 1 * day). split_and!; [by rewrite Z.mul_1_l|lia|split; [by rewrite mod_shift|done]|].
      intros t' Ht' [Hm' _]. destruct (later_days now h t' Hh Ht' Hm') as (k & Hk & ->). assert (k ≠ 0) by (intros ->; lia). nia.
  - destruct (within_week now (at_hour now h) dow Hd ltac:(lia)) as (k & Hk & Hw & Hn).
    destruct (weekly_loop_spec 7 (at_hour now h) now dow k) as (j & Hj & He & H1 & H2 & H3); [done..|]. exists (at_hour now h + j * day).
    split_and!; [exact He|done|split; [by rewrite mod_shift|done]|].
    intros t' Ht' [Hm' Hw']. destruct (later_days now h t' Hh Ht' Hm') as (x & Hx & ->). destruct (decide (x < j)) as [Hlt|]; [|nia].
    destruct (H3 x); [lia|]. split; [by apply Hw'|done].
Qed.

Lemma NextSendTime_first_witness :
  NextSendTime (days 4 * second) Weekly 9 1 = Some ((days 4 + 9 * 3600) * second) ∧
  ∃ t, NextSendTime (days 4 * second) Weekly 9 1 = Some t ∧ days 4 * second < t ∧ scheduled Weekly 9 1 t ∧
    ∀ t', days 4 * second < t' → scheduled Weekly 9 1 t' → t <= t'.
Proof. split; [vm_compute; reflexivity|]. apply (NextSendTime_first (days 4 * second) Weekly 9 1); lia. Defined.
