(* ===== verification/NotifExact.v ===== *)
(** * NotifExact: whom a dispatched event tells, exactly

    A reference definition of the verdict on each recipient ([verdict]), on the tables as they are, and the proof that
    [dispatchEvent], when nothing fails or interferes, changes the inbox accordingly, whatever the order of its map. *)

From S2P Require Import Prelude GoString NetIP Program Notif NotifInv NotifFacts.
From S2P Require Policy RateLimit.
Local Open Scope Z_scope.

(** ** The reference *)

Definition thread_of (t : Tables) (e : DomainEvent) : option Thread :=
  if bool_decide (ev_SourceKind e = "issue") then (fun i => (i_Kind i, ev_SourceID e)) <$> issues t !! ev_SourceID e else None.

(** The relations of a user to an event; no one is ever a commenter or a participant. *)
Definition holds (t : Tables) (e : DomainEvent) (u : Z) (rel : Relation) : bool :=
  match rel with
  | RelMention => bool_decide (u ∈ ev_Mentions e)
  | RelAuthor => match thread_of t e with Some th => bool_decide ((issues t !! th.2 ≫= i_AuthorUserID) = Some u) | None => false end
  | RelAssignee => match thread_of t e with Some th => bool_decide ((th.2, u) ∈ issue_assignees t) | None => false end
  | RelSubscribedThread =>
      match thread_of t e with
      | Some th => match notification_threads t !! (u, th) with Some r => Subscribed r | None => false end
      | None => false
      end
  | RelWatchingAll => match ev_RepoID e with Some r => bool_decide (watches t !! (u, r) = Some "all") | None => false end
  | RelRepoOwner =>
      match ev_RepoID e with
      | Some r => isLifecycleEvent (ev_Kind e) && bool_decide ((repos t !! r ≫= Policy.row_OwnerUserID) = Some u)
      | None => false
      end
  | RelReviewer => bool_decide (ev_Kind e = "review_requested") && bool_decide (ev_ReviewerUserID e = u ∧ u ≠ 0)
  | RelCommenter | RelWatchingParticipating => false
  end.

Definition precedence : list Relation :=
  [RelMention; RelAuthor; RelAssignee; RelSubscribedThread; RelWatchingAll; RelRepoOwner; RelReviewer].

Definition relations (t : Tables) (e : DomainEvent) (u : Z) : list Relation := filter (fun rel => holds t e u rel = true) precedence.

Definition sees (t : Tables) (u repo : Z) : bool :=
  match repos t !! repo with
  | None => false
  | Some row =>
      (Policy.IsVisibleTo None {| Policy.Pool := Some (roles t) |}
         (Policy.UserActorWithTwoFactor u "" false false (bool_decide (u ∈ confirmed_totp t))) (Policy.NewRepoRefFromRepo row)).2
  end.

Definition ignores (t : Tables) (u repo : Z) : bool := bool_decide (watches t !! (u, repo) = Some "ignore").

Definition allowed (t : Tables) (e : DomainEvent) (u : Z) (a : Action) : bool :=
  match ev_RepoID e with None => true | Some repo => sees t u repo && (OverrideIgnore a || negb (ignores t u repo)) end.

(** The action for a user of these relations, if there is one. *)
Definition verdict_on (t : Tables) (e : DomainEvent) (u : Z) (rels : list Relation) : option Action :=
  let a := pickAction (ev_Kind e) rels in
  if bool_decide (ev_ActorUserID e = Some u) then None else if NotifyInbox a && allowed t e u a then Some a else None.

Definition verdict (t : Tables) (e : DomainEvent) (u : Z) : option Action := verdict_on t e u (relations t e u).

(** ** Tables *)

(** What the fan-out reads of other components. *)
Definition frame (t t' : Tables) : Prop :=
  repos t' = repos t ∧ roles t' = roles t ∧ watches t' = watches t ∧ confirmed_totp t' = confirmed_totp t ∧ users t' = users t.

Definition calm (t t' : Tables) : Prop := frame t t' ∧ notifications t' = notifications t ∧ next_notification t' = next_notification t.

(** Rows are at their id, below the sequence, and one for a recipient and a thread. *)
Record sane (t : Tables) : Prop := {
  s_id : ∀ id n, notifications t !! id = Some n → n_ID n = id ∧ id < next_notification t;
  s_unique : ∀ u th n n', notifications t !! n_ID n = Some n → notifications t !! n_ID n' = Some n' →
    coalesced u th n → coalesced u th n' → n = n' }.

Lemma frame_trans t1 t2 t3 : frame t1 t2 → frame t2 t3 → frame t1 t3.
Proof. intros (?&?&?&?&?) (?&?&?&?&?). split_and!; congruence. Qed.

Lemma untouched_trans t1 t2 t3 : calm t1 t2 → calm t2 t3 → calm t1 t3.
Proof. intros (?&?&?) (?&?&?). split_and!; [by eapply frame_trans|congruence..]. Qed.

Lemma untouched_refl t : calm t t.
Proof. done. Qed.

Lemma inbox_row_spec t u th n : sane t → inbox_row t u th = Some n ↔ notifications t !! n_ID n = Some n ∧ coalesced u th n.
Proof.
  intros [Hid Hu]. unfold inbox_row. set (l := filter _ _).
  assert (∀ x, x ∈ l ↔ notifications t !! n_ID x.2 = Some x.2 ∧ coalesced u th x.2 ∧ x.1 = n_ID x.2) as Hl.
  { intros [id x]. unfold l. rewrite list_elem_of_filter, elem_of_map_to_list. cbn. split.
    - intros [Hc Hx]. destruct (Hid id x Hx) as [<- _]. done.
    - intros (Hx & Hc & ->). done. }
  split.
  - intros H. destruct l as [|[id x] l'] eqn:El; [done|]. cbn in H. injection H as ->.
    destruct (Hl (id, n)) as [H1 _]. destruct H1 as (? & ? & ?); [set_solver|]. done.
  - intros [Hn Hc]. destruct l as [|[id x] l'] eqn:El.
    + exfalso. assert ((n_ID n, n) ∈ @nil (Z * Notification)) as H by (by apply Hl). by apply elem_of_nil in H.
    + destruct (Hl (id, x)) as [H1 _]. destruct H1 as (Hx & Hcx & _); [set_solver|]. cbn in *. f_equal. by apply (Hu u th).
Qed.

(** Only the row of one recipient and one thread has changed. *)
Record only (u : Z) (th : Thread) (t t' : Tables) : Prop := {
  o_frame : frame t t';
  o_sane : sane t';
  o_others : ∀ u' th', (u', th') ≠ (u, th) → inbox_row t' u' th' = inbox_row t u' th' }.

Lemma inbox_row_calm t t' u th : calm t t' → inbox_row t' u th = inbox_row t u th.
Proof. intros (_ & Hn & _). unfold inbox_row. by rewrite Hn. Qed.

Lemma sane_calm t t' : calm t t' → sane t → sane t'.
Proof. intros (_ & Hn & Hx) [H1 H2]. split; rewrite Hn, ?Hx; done. Qed.

Lemma only_calm u th t t' : sane t → calm t t' → only u th t t'.
Proof. intros Hs Hc. split; [apply Hc|by eapply sane_calm|]. intros. by apply inbox_row_calm. Qed.

Lemma only_trans u th t1 t2 t3 : only u th t1 t2 → only u th t2 t3 → only u th t1 t3.
Proof. intros [H1 H2 H3] [H4 H5 H6]. split; [by eapply frame_trans|done|]. intros u' th' Hu. by rewrite H6, H3. Qed.

(** A row of [u] and [th] at an id that is free or is the one of such a row. *)
Lemma only_write t t' u th n : sane t → frame t t' → coalesced u th n →
  notifications t' = <[n_ID n := n]> (notifications t) → n_ID n < next_notification t' → next_notification t <= next_notification t' →
  (inbox_row t u th = None ∨ ∃ n0, inbox_row t u th = Some n0 ∧ n_ID n0 = n_ID n) →
  (∀ n0, notifications t !! n_ID n = Some n0 → coalesced u th n0) →
  only u th t t'.
Proof.
  intros Hs Hf Hc Hn Hlt Hnext Hfree Hold.
  assert (∀ u' th' x, coalesced u' th' x → coalesced u th x → u' = u ∧ th' = th) as Hone.
  { intros u' th' x [E1 E2] [E3 E4]. split; congruence. }
  assert (sane t') as Hs'.
  { split; rewrite Hn.
    - intros id x [[<- <-]|[Hne Hx]]%lookup_insert_Some; [done|]. destruct (s_id _ Hs id x Hx). split; [done|lia].
    - assert (∀ u' th' x, notifications t !! n_ID x = Some x → n_ID x ≠ n_ID n → coalesced u' th' n → coalesced u' th' x → False) as Hcl.
      { intros u' th' x Hx Hne Hcn Hcx. destruct (Hone u' th' n Hcn Hc) as [-> ->].
        assert (inbox_row t u th = Some x) as Hrow by (by apply inbox_row_spec).
        destruct Hfree as [Hnone|(n0 & H0 & Hid)]; [congruence|]. rewrite Hrow in H0. injection H0 as <-. done. }
      intros u' th' x y Hx Hy Hcx Hcy. apply lookup_insert_Some in Hx as [[Ex <-]|[Hnx Hx]], Hy as [[Ey <-]|[Hny Hy]]; [done| | |].
      + destruct (Hcl u' th' y Hy (not_eq_sym Hny) Hcx Hcy).
      + destruct (Hcl u' th' x Hx (not_eq_sym Hnx) Hcy Hcx).
      + by eapply (s_unique _ Hs). }
  split; [done|done|]. intros u' th' Hne. apply option_eq. intros x. rewrite !inbox_row_spec, Hn by done. split; intros [Hx Hcx]; split; try done.
  - apply lookup_insert_Some in Hx as [[_ <-]|[_ Hx]]; [|done]. destruct Hne. by destruct (Hone u' th' n Hcx Hc) as [-> ->].
  - rewrite lookup_insert_ne; [done|]. intros E. rewrite <- E in Hx. destruct Hne. by destruct (Hone u' th' x Hcx (Hold x Hx)) as [-> ->].
Qed.

(** ** Programs that leave the inbox alone *)

Definition tame {A} (p : P A) : Prop := ∀ t, wp Fault_ p (fun _ t' => calm t t') t.

Definition tame_tx {X} (f : tx X) : Prop := ∀ now t, match f now t with Ok (_, t') => calm t t' | Err _ => True end.

Lemma tame_ret {A} (a : A) : tame (mret a).
Proof. intros t. apply wp_ret, untouched_refl. Qed.

Lemma tame_bind {A B} (p : P A) (f : A → P B) : tame p → (∀ a, tame (f a)) → tame (p ≫= f).
Proof.
  intros Hp Hf t. apply wp_bind. eapply wp_weaken; [|apply Hp]. intros a t1 H1. eapply wp_weaken; [|apply Hf].
  intros b t2 H2. by apply (untouched_trans t t1 t2).
Qed.

Lemma tame_exec {X} (f : tx X) ev : tame_tx f → tame (exec f ev).
Proof.
  intros Hf t. apply wp_sql. intros now. specialize (Hf now t). destruct (f now t) as [[x t']|e]; apply wp_ret; [done|apply untouched_refl].
Qed.

Lemma tame_ask_env {X} (f : Env → X) ev : tame (Ask f ev Ret).
Proof. intros t. apply wp_ask. intros x. apply wp_ret, untouched_refl. Qed.

Lemma tame_reads {X} (f : Z → Tables → res DBErr X) : tame_tx (reads f).
Proof. intros now t. unfold reads. by destruct (f now t). Qed.

Lemma tame_log u id th : tame_tx (InsertEmailLog u id th).
Proof. intros now t. unfold InsertEmailLog. by destruct (_ && _). Qed.

Lemma tame_thread u th b s : tame_tx (InsertNotificationThreadIfAbsent u th b s).
Proof. intros now t. unfold InsertNotificationThreadIfAbsent. destruct (_ !! _); [done|]. by destruct (fk _ _). Qed.

Create HintDb tame.
#[export] Hint Resolve tame_ret tame_reads tame_log tame_thread tame_exec : tame.

(** Steps through a program of reads. *)
Ltac tame_step :=
  first
    [ apply tame_ret | apply tame_ask_env | solve [apply tame_exec; eauto with tame]
    | apply tame_bind; [|intros ?]
    | match goal with
      | |- tame (match ?x with _ => _ end) => destruct x
      | |- tame (let '(_, _) := ?x in _) => destruct x
      end ].
Ltac tame_tac := repeat tame_step.

Section Exact.
Context (hmac : string → string → string) (CheckPrincipalFeature : string → Z → Z → bool).
Context (order : Z → bool → list (Z * list Relation) → list (Z * list Relation)) (deps : Deps).
Context (Horder : ∀ id b l, order id b l ≡ₚ l).

Lemma tame_Evaluate n : tame (Evaluate CheckPrincipalFeature deps n).
Proof. unfold Evaluate, allowedForRecipient. tame_tac. Qed.

Lemma tame_mail id u a n th : tame (maybeSendEmail hmac deps id u a n th).
Proof. unfold maybeSendEmail, emailPrefOn, thread_below, sendNotificationEmail, buildThreadURL. tame_tac. Qed.

Lemma tame_auto th l : tame (applyAutoSubscriptions th l).
Proof. induction l as [|[u rels] l IH]; cbn [applyAutoSubscriptions]; tame_tac; done. Qed.

(** ** One recipient *)

(** The row an event leaves; rules may change the rest of it. *)
Definition row_for (e : DomainEvent) (u : Z) (a : Action) (th : Thread) (n : Notification) : Prop :=
  coalesced u th n ∧ n_Kind n = ev_Kind e ∧ n_Reason n = a_Reason a ∧ SourceEventID n = Some (ev_ID e) ∧ LastActorUserID n = ev_ActorUserID e.

Definition has_row (t : Tables) (e : DomainEvent) (u : Z) (a : Action) (th : Thread) : Prop :=
  ∃ n, inbox_row t u th = Some n ∧ row_for e u a th n.

Lemma wp_upsert t e u a th : sane t → insert_ok t u (ev_Kind e) (a_Reason a) (ev_RepoID e) (ev_ActorUserID e) = true →
  wp Fault_ (upsertInboxRow u e a (Some th)) (fun r t' => ∃ n, r = Ok n ∧ only u th t t' ∧ inbox_row t' u th = Some n ∧ row_for e u a th n) t.
Proof.
  intros Hs Hok. apply wp_sql. intros now. unfold UpsertNotificationByThread. rewrite Hok.
  destruct (inbox_row t u th) as [n0|] eqn:E; [pose proof E as [Hn0 [Hr0 Ht0]]%inbox_row_spec; [|done]; pose proof (s_id _ Hs _ _ Hn0) as [_ Hlt]|].
  all: match goal with |- context [Ok ?n] => set (n' := n) end; apply wp_ret; exists n'; (split; [done|]).
  - assert (only u th t (update_row t n')) as Ho.
    { apply (only_write t _ u th n'); try done.
      - right. by exists n0.
      - intros x Hx. cbn in Hx. rewrite Hn0 in Hx. by injection Hx as <-. }
    split; [done|]. split; [|done]. apply inbox_row_spec; [apply Ho|]. split; [|done]. cbn. apply lookup_insert_eq.
  - assert (notifications t !! next_notification t = None) as Hfree.
    { destruct (notifications t !! next_notification t) as [x|] eqn:Ex; [|done]. destruct (s_id _ Hs _ _ Ex). lia. }
    assert (only u th t (insert_row t n')) as Ho.
    { apply (only_write t _ u th n'); try done; cbn; try lia.
      - by left.
      - intros x Hx. congruence. }
    split; [done|]. split; [|done]. apply inbox_row_spec; [apply Ho|]. split; [|done]. cbn. apply lookup_insert_eq.
Qed.

(** Rules change a row in place. *)
Lemma wp_rule t e u a th n d : sane t → inbox_row t u th = Some n → row_for e u a th n →
  wp Fault_ (ask (rule_statement n d)) (fun _ t' => only u th t t' ∧ has_row t' e u a th) t.
Proof.
  intros Hs Hn Hrow. pose proof Hn as [Hl Hc]%inbox_row_spec; [|done]. apply wp_sql. intros now.
  assert (∃ f, (∀ x, n_ID (f x) = n_ID x ∧ (row_for e u a th x → row_for e u a th (f x)) ∧ n_Thread (f x) = n_Thread x ∧ RecipientUserID (f x) = RecipientUserID x) ∧
    rule_statement n d = apply_rule (n_ID n) (RuleID d) f) as (f & Hf & ->).
  { unfold rule_statement. destruct (d_Action d); eexists; (split; [|reflexivity]); intros x; split_and!; try done; by intros ([] & ? & ? & ? & ?). }
  unfold apply_rule. destruct (_ && _). { apply wp_ret. split; [by apply only_calm|]. by exists n. }
  cbn. apply wp_ret. destruct (Hf n) as (Hid & Hfrow & Hth & Hrec). destruct Hc as [Hr Ht].
  match goal with |- only u th t ?t1 ∧ _ => set (t' := t1) end.
  assert (notifications t' = <[n_ID (f n) := f n]> (notifications t)) as Hins.
  { unfold t'. cbn. apply map_eq. intros id. rewrite lookup_fmap, Hid. destruct (decide (id = n_ID n)) as [->|Hne].
    - rewrite Hl, lookup_insert_eq. cbn. unfold has_id. by rewrite bool_decide_true.
    - rewrite lookup_insert_ne by done. destruct (notifications t !! id) as [x|] eqn:Ex; [|done]. cbn. destruct (s_id _ Hs id x Ex) as [<- _].
      unfold has_id. by rewrite bool_decide_false. }
  assert (only u th t t') as Ho.
  { apply (only_write t t' u th (f n)); [done|done|split; congruence|done| |done| |].
    - rewrite Hid. apply (s_id _ Hs _ _ Hl).
    - right. by exists n.
    - intros x Hx. rewrite Hid, Hl in Hx. injection Hx as <-. by split. }
  split; [done|]. exists (f n). split; [|by apply Hfrow]. apply inbox_row_spec; [apply Ho|]. split; [|split; congruence].
  rewrite Hins. apply lookup_insert_eq.
Qed.

(** The result of [p], after which the row of [u] and [th] is as [v] says. *)
Definition settles (t : Tables) (e : DomainEvent) (u : Z) (th : Thread) (v : option Action) (t' : Tables) : Prop :=
  only u th t t' ∧ match v with Some a => has_row t' e u a th | None => inbox_row t' u th = inbox_row t u th end.

Lemma has_row_calm t t' e u a th : calm t t' → has_row t e u a th → has_row t' e u a th.
Proof. intros Hc (n & Hn & Hr). exists n. by rewrite (inbox_row_calm t t'). Qed.

Lemma settles_calm t t1 t2 e u th a : sane t → calm t1 t2 → settles t e u th (Some a) t1 → settles t e u th (Some a) t2.
Proof.
  intros Hs Hc [Ho Hr]. split; [|by eapply has_row_calm]. eapply only_trans; [done|]. apply only_calm; [apply Ho|done].
Qed.

Lemma wp_after_row t t1 e u a th n : sane t → settles t e u th (Some a) t1 → inbox_row t1 u th = Some n → row_for e u a th n →
  wp Fault_ (after_row hmac CheckPrincipalFeature deps e u a (Some th) n) (fun _ t' => settles t e u th (Some a) t') t1.
Proof.
  intros Hs Hset Hn Hrow. pose proof Hset as [[Hf Hs1 _] _]. unfold after_row, applyRuleDecision.
  apply wp_bind. eapply (wp_weaken Fault_ _ (fun _ t2 => settles t e u th (Some a) t2)).
  - intros n' t2 H2. destruct (_ && _); [|by apply wp_ret]. eapply wp_weaken; [|apply tame_mail]. intros ? t3 H3. by apply (settles_calm t t2 t3).
  - apply wp_bind. eapply wp_weaken; [|apply tame_Evaluate]. intros d t2 H2.
    assert (settles t e u th (Some a) t2) as Hset2 by (by apply (settles_calm t t1 t2)).
    destruct d as [[d|]|err]; [|by apply wp_ret..]. apply wp_bind. eapply wp_weaken; [|apply (wp_rule _ e u a th)]; try done.
    + intros r t3 [Ho Hr]. apply wp_ret. split; [|done]. eapply only_trans; [apply Hset2|done].
    + by eapply sane_calm.
    + by rewrite (inbox_row_calm t1 t2).
Qed.

(** The two questions about the repository. *)
Lemma wp_canSee t id u repo :
  wp Fault_ (canRecipientSeeRepo id u repo) (fun r t' => r = Ok (sees t u repo) ∧ t' = t) t.
Proof.
  unfold canRecipientSeeRepo, sees. apply wp_sql; intros ?. unfold GetRepoByID, reads. destruct (repos t !! repo) as [row|]; cbn.
  - apply wp_sql; intros ?. cbn. apply wp_sql; intros ?. cbn. by apply wp_ret.
  - apply wp_ask; intros ?. by apply wp_ret.
Qed.

Lemma wp_ignored t id u repo :
  wp Fault_ (repoIgnoredByRecipient id u repo) (fun r t' => r = Ok (ignores t u repo) ∧ t' = t) t.
Proof.
  unfold repoIgnoredByRecipient, ignores. apply wp_sql; intros ?. unfold GetWatch, reads. destruct (watches t !! (u, repo)) as [l|]; cbn;
    apply wp_ask; intros ?; apply wp_ret; (split; [|done]); f_equal; apply bool_decide_ext; naive_solver.
Qed.

Lemma wp_about t e b q f : (∀ repo, wp Fault_ (q repo) (fun r t' => r = Ok (f repo) ∧ t' = t) t) →
  wp Fault_ (about_repo e b q) (fun r t' => r = Ok match ev_RepoID e with Some repo => f repo | None => b end ∧ t' = t) t.
Proof. intros Hq. unfold about_repo. destruct (ev_RepoID e) as [repo|]; [apply Hq|by apply wp_ret]. Qed.

Lemma settles_none t e u th : sane t → settles t e u th None t.
Proof. intros Hs. split; [by apply only_calm, untouched_refl|done]. Qed.

Lemma wp_notify t e u th rels : sane t →
  (∀ a, verdict_on t e u rels = Some a → insert_ok t u (ev_Kind e) (a_Reason a) (ev_RepoID e) (ev_ActorUserID e) = true) →
  wp Fault_ (notify hmac CheckPrincipalFeature deps e (Some th) u rels) (fun r t' => r = Ok () ∧ settles t e u th (verdict_on t e u rels) t') t.
Proof.
  intros Hs Hok. unfold notify, verdict_on in *. rewrite (bool_decide_ext (Some u = ev_ActorUserID e) (ev_ActorUserID e = Some u)) by done.
  destruct (bool_decide (ev_ActorUserID e = Some u)). { apply wp_ret. split; [done|by apply settles_none]. }
  apply wp_bind. eapply wp_weaken; [|apply (wp_about t e true _ (sees t u)), wp_canSee]. intros r t' [-> ->].
  set (a := pickAction (ev_Kind e) rels) in *. unfold allowed in *.
  destruct (match ev_RepoID e with Some repo => sees t u repo | None => true end) eqn:Esees.
  2: { apply wp_ret. split; [done|]. destruct (ev_RepoID e); [|done]. rewrite Esees, andb_false_r. by apply settles_none. }
  destruct (NotifyInbox a) eqn:Einbox; [|apply wp_ret; split; [done|by apply settles_none]]. cbn [negb andb] in *.
  set (allow := match ev_RepoID e with Some repo => _ | None => true end) in *.
  assert (∀ b, negb b = allow → wp Fault_ (match b with true => mret (Ok ()) | false => n ← upsertInboxRow u e a (Some th);
      match n with Err err => mret (Err err) | Ok n => after_row hmac CheckPrincipalFeature deps e u a (Some th) n ≫= fun _ => mret (Ok ()) end end)
      (fun r t' => r = Ok () ∧ settles t e u th (if allow then Some a else None) t') t) as Hgo.
  { intros b <-. destruct b; cbn [negb] in *. { apply wp_ret. split; [done|by apply settles_none]. }
    apply wp_bind. eapply wp_weaken; [|apply wp_upsert; [done|by apply Hok]]. intros r t1 (n & -> & Ho & Hn & Hrow).
    apply wp_bind. eapply wp_weaken; [|apply (wp_after_row t t1 _ _ _ _ n)]; try done.
    split; [done|]. by exists n. }
  apply wp_bind. destruct (OverrideIgnore a) eqn:Eover.
  - apply wp_ret. apply (Hgo false). unfold allow. destruct (ev_RepoID e); [|done]. by rewrite Esees.
  - eapply wp_weaken; [|apply (wp_about t e false _ (ignores t u)), wp_ignored]. intros r t' [-> ->].
    apply (Hgo (match ev_RepoID e with Some repo => ignores t u repo | None => false end)). unfold allow. destruct (ev_RepoID e); [|done]. by rewrite Esees.
Qed.

(** ** All of them *)

(** The inbox after an event, [v] the action for each user. *)
Definition outcome (t : Tables) (e : DomainEvent) (th : Thread) (v : Z → option Action) (t' : Tables) : Prop :=
  frame t t' ∧ sane t' ∧
  ∀ u th', match (if bool_decide (th' = th) then v u else None) with
           | Some a => has_row t' e u a th'
           | None => inbox_row t' u th' = inbox_row t u th'
           end.

Lemma outcome_ext t e th v v' t' : (∀ u, v u = v' u) → outcome t e th v t' → outcome t e th v' t'.
Proof. intros Hv (Hf & Hs & H). split_and!; [done..|]. intros u th'. specialize (H u th'). destruct (bool_decide _); [by rewrite <- Hv|done]. Qed.

Lemma outcome_calm t t1 e th v t' : calm t t1 → outcome t1 e th v t' → outcome t e th v t'.
Proof.
  intros Hc (Hf & Hs & H). split_and!; [by apply (frame_trans t t1 t'); [apply Hc|]|done|]. intros u th'. specialize (H u th').
  case_match; [done|]. by rewrite H, (inbox_row_calm t t1).
Qed.

(** One more user before the others. *)
Lemma outcome_cons t t1 e th u v w t' : settles t e u th v t1 → w u = None → outcome t1 e th w t' →
  outcome t e th (fun x => if bool_decide (x = u) then v else w x) t'.
Proof.
  intros [[Hf1 Hs1 Ho] Hv] Hu (Hf & Hs & H). split_and!; [by apply (frame_trans t t1 t')|done|]. intros x th'. specialize (H x th').
  destruct (decide (th' = th)) as [->|Hth].
  2: { rewrite bool_decide_false in H |- * by done. rewrite H. apply Ho. congruence. }
  rewrite bool_decide_true in H |- * by done. destruct (decide (x = u)) as [->|Hx].
  - rewrite bool_decide_true by done. rewrite Hu in H. destruct v as [a|]; [|by rewrite H]. destruct Hv as (n & Hn & Hrow). exists n. by rewrite H.
  - rewrite bool_decide_false by done. destruct (w x); [done|]. rewrite H. apply Ho. congruence.
Qed.

Lemma verdict_on_frame t t' e u rels : frame t t' → verdict_on t' e u rels = verdict_on t e u rels.
Proof. intros (E1 & E2 & E3 & E4 & _). unfold verdict_on, allowed, sees, ignores. by rewrite E1, E2, E3, E4. Qed.

Lemma insert_ok_frame t t' u kind reason repo actor : frame t t' → insert_ok t' u kind reason repo actor = insert_ok t u kind reason repo actor.
Proof. intros (E1 & _ & _ & _ & E5). unfold insert_ok. by rewrite E1, E5. Qed.

(** The statement on the inbox holds of every row the event asks for. *)
Definition insertable (t : Tables) (e : DomainEvent) (u : Z) (rels : list Relation) : Prop :=
  ∀ a, verdict_on t e u rels = Some a → insert_ok t u (ev_Kind e) (a_Reason a) (ev_RepoID e) (ev_ActorUserID e) = true.

Lemma insertable_frame t t' e u rels : frame t t' → insertable t e u rels → insertable t' e u rels.
Proof. intros Hf H a. rewrite (verdict_on_frame t t'), (insert_ok_frame t t') by done. apply H. Qed.

Lemma wp_notify_all e th l : NoDup l.*1 → ∀ t, sane t → (∀ u rels, (u, rels) ∈ l → insertable t e u rels) →
  wp Fault_ (notify_all hmac CheckPrincipalFeature deps e (Some th) l)
    (fun r t' => r = Ok () ∧ outcome t e th (fun u => (list_to_map l : gmap Z _) !! u ≫= verdict_on t e u) t') t.
Proof.
  induction l as [|[u rels] l IH]; intros Hnd t Hs Hok; cbn [notify_all].
  { apply wp_ret. split; [done|]. split_and!; [done..|]. intros u th'. cbn. rewrite lookup_empty. by destruct (bool_decide _). }
  apply NoDup_cons in Hnd as [Hu Hnd]. apply wp_bind. eapply wp_weaken; [|apply wp_notify; [done|apply Hok; set_solver]].
  intros r t1 [-> Hset]. pose proof Hset as [[Hf1 Hs1 _] _]. eapply wp_weaken; [|apply IH; [done..|]].
  2: { intros x rels' Hx. apply (insertable_frame t); [done|]. apply Hok. set_solver. }
  intros r t2 [-> Hout]. split; [done|]. eapply outcome_ext; [|eapply outcome_cons; [exact Hset| |exact Hout]].
  - intros x. cbn. destruct (bool_decide_reflect (x = u)) as [->|Hx]; [by rewrite lookup_insert_eq|]. rewrite lookup_insert_ne by done.
    destruct (list_to_map l !! x); cbn; [|done]. by rewrite (verdict_on_frame t t1).
  - cbn. by rewrite not_elem_of_list_to_map_1.
Qed.

(** ** Recipients *)

(** The map holds the relations of [P] each user has, in this order. *)
Definition tells (t : Tables) (e : DomainEvent) (P : list Relation) (m : gmap Z (list Relation)) : Prop :=
  ∀ u, m !! u = match filter (fun rel => holds t e u rel = true) P with [] => None | l => Some l end.

Definition with_rel (rel : Relation) (l : list Relation) : list Relation := if bool_decide (rel ∈ l) then l else l ++ [rel].

Lemma lookup_add_all users rel m u :
  add_all users rel m !! u = if bool_decide (u ∈ users) then Some (with_rel rel (default [] (m !! u))) else m !! u.
Proof.
  unfold add_all. revert m. induction users as [|x users IH]; intros m; cbn [foldl]; [done|]. rewrite IH. unfold add.
  destruct (decide (x = u)) as [->|Hx].
  - rewrite lookup_insert_eq, (bool_decide_true (u ∈ u :: users)) by set_solver. set (l := default [] (m !! u)). fold (with_rel rel l).
    case_bool_decide; [|done]. cbn. unfold with_rel. destruct (decide (rel ∈ l)) as [Hin|Hin].
    + by rewrite !bool_decide_true by (by rewrite ?bool_decide_true).
    + by rewrite (bool_decide_false (rel ∈ l)), bool_decide_true by set_solver.
  - rewrite lookup_insert_ne by done. by rewrite (bool_decide_ext (u ∈ x :: users) (u ∈ users)) by set_solver.
Qed.

Lemma tells_add t e P m rel : tells t e P m → rel ∉ P → ∀ users, (∀ u, u ∈ users ↔ holds t e u rel = true) →
  tells t e (P ++ [rel]) (add_all users rel m).
Proof.
  intros Hm Hrel users Hu u. rewrite lookup_add_all, !Hm, filter_app. set (l := filter _ P).
  assert (rel ∉ l) as Hl by (unfold l; rewrite list_elem_of_filter; tauto). case_bool_decide as Hin.
  - apply Hu in Hin. rewrite filter_cons_True, filter_nil by done. unfold with_rel. clearbody l.
    destruct l as [|x l]; cbn [default]; by rewrite bool_decide_false.
  - rewrite filter_cons_False by (by rewrite <- Hu). rewrite filter_nil, app_nil_r. done.
Qed.

Lemma tells_skip t e P m rel : tells t e P m → rel ∉ P → (∀ u, holds t e u rel = false) → tells t e (P ++ [rel]) m.
Proof. intros Hm Hrel Hf. apply (tells_add _ _ _ _ _ Hm Hrel []). intros u. rewrite Hf. set_solver. Qed.

Lemma wp_thread t e : wp Fault_ (threadFromEvent e) (fun r t' => r = Ok (thread_of t e) ∧ t' = t) t.
Proof.
  unfold threadFromEvent, thread_of. case_bool_decide; [|by apply wp_ret]. apply wp_sql; intros ?. unfold GetIssueByID, reads.
  destruct (issues t !! ev_SourceID e); by apply wp_ret.
Qed.

Lemma wp_thread_recipients t e th m : thread_of t e = Some th → tells t e [RelMention] m →
  wp Fault_ (thread_recipients th m) (fun m' t' => tells t e [RelMention; RelAuthor; RelAssignee; RelSubscribedThread] m' ∧ t' = t) t.
Proof.
  intros Hth Hm. assert (∃ i, issues t !! th.2 = Some i) as [i Hi].
  { unfold thread_of in Hth. case_bool_decide; [|done]. apply fmap_Some in Hth as (i & Hi & ->). by exists i. }
  unfold thread_recipients. apply wp_sql; intros ?. unfold GetIssueByID, reads. rewrite Hi. cbn [one bind]. apply wp_sql; intros ?.
  cbn. apply wp_sql; intros ?. cbn. apply wp_ret. split; [|done].
  apply (tells_add t e [RelMention; RelAuthor; RelAssignee]); [|by set_solver|].
  - apply (tells_add t e [RelMention; RelAuthor]); [|by set_solver|].
    + replace (match i_AuthorUserID i with Some u => add u RelAuthor m | None => m end)
        with (add_all (option_list (i_AuthorUserID i)) RelAuthor m) by (by destruct (i_AuthorUserID i)).
      apply (tells_add t e [RelMention]); [done|by set_solver|]. intros u. cbn. rewrite Hth, Hi. cbn. rewrite bool_decide_eq_true.
      destruct (i_AuthorUserID i); cbn; set_solver.
    + intros u. cbn. rewrite Hth, bool_decide_eq_true, list_elem_of_fmap. split.
      * intros ([x y] & -> & [Hx Hin]%list_elem_of_filter). cbn in *. by subst x.
      * intros Hin. exists (th.2, u). split; [done|]. by apply list_elem_of_filter.
  - intros u. cbn. rewrite Hth, list_elem_of_fmap. split.
    + intros ([x y] & -> & ([[x' y'] r] & [= -> ->] & [[Hx Hs] Hin]%list_elem_of_filter)%list_elem_of_fmap). cbn in *. subst.
      apply elem_of_map_to_list in Hin. by rewrite Hin.
    + destruct (notification_threads t !! (u, th)) as [r|] eqn:Hr; [|done]. intros Hs. exists (u, th). split; [done|].
      apply list_elem_of_fmap. exists ((u, th), r). split; [done|]. apply list_elem_of_filter. split; [done|]. by apply elem_of_map_to_list.
Qed.

Lemma watcher_rows t repo u :
  u ∈ (filter (fun x : Z * Z * string => x.1.2 = repo ∧ x.2 = "all") (map_to_list (watches t))).*1.*1 ↔ watches t !! (u, repo) = Some "all".
Proof.
  rewrite list_elem_of_fmap. split.
  - intros ([x y] & -> & ([[x' y'] r] & [= -> ->] & [[Hx Hs] Hin]%list_elem_of_filter)%list_elem_of_fmap). cbn in *. subst.
    by apply elem_of_map_to_list in Hin.
  - intros Hw. exists (u, repo). split; [done|]. apply list_elem_of_fmap. exists ((u, repo), "all"). split; [done|].
    apply list_elem_of_filter. split; [done|]. by apply elem_of_map_to_list.
Qed.

Lemma wp_owner t e m : tells t e [RelMention; RelAuthor; RelAssignee; RelSubscribedThread; RelWatchingAll] m →
  wp Fault_ (match ev_RepoID e with
      | Some repo =>
          if isLifecycleEvent (ev_Kind e) then
            r ← ask (GetRepoByID repo);
            mret match r with
                 | Ok r => match Policy.row_OwnerUserID r with Some o => add o RelRepoOwner m | None => m end
                 | Err _ => m
                 end
          else mret m
      | None => mret m
      end) (fun m t' => tells t e [RelMention; RelAuthor; RelAssignee; RelSubscribedThread; RelWatchingAll; RelRepoOwner] m ∧ t' = t) t.
Proof.
  intros Hm. pose proof (tells_add t e _ m RelRepoOwner Hm) as Hadd. specialize (Hadd ltac:(set_solver)). cbn [app] in Hadd.
  destruct (ev_RepoID e) as [r|] eqn:Hr; [destruct (isLifecycleEvent (ev_Kind e)) eqn:Hl|].
  - apply wp_sql; intros ?. unfold GetRepoByID, reads. destruct (repos t !! r) as [row|] eqn:Hrow; cbn; apply wp_ret; (split; [|done]).
    + replace (match Policy.row_OwnerUserID row with Some o => add o RelRepoOwner m | None => m end)
        with (add_all (option_list (Policy.row_OwnerUserID row)) RelRepoOwner m) by (by destruct (Policy.row_OwnerUserID row)).
      apply Hadd. intros u. cbn. rewrite Hr, Hl, Hrow. cbn. rewrite bool_decide_eq_true. destruct (Policy.row_OwnerUserID row); cbn; set_solver.
    + apply (Hadd []). intros u. cbn. rewrite Hr, Hl, Hrow. set_solver.
  - apply wp_ret. split; [|done]. apply (Hadd []). intros u. cbn. rewrite Hr, Hl. set_solver.
  - apply wp_ret. split; [|done]. apply (Hadd []). intros u. cbn. rewrite Hr. set_solver.
Qed.

Lemma wp_threaded t e m : tells t e [RelMention] m →
  wp Fault_ (match thread_of t e with Some th => thread_recipients th m | None => mret m end)
    (fun m t' => tells t e [RelMention; RelAuthor; RelAssignee; RelSubscribedThread] m ∧ t' = t) t.
Proof.
  intros Hm. destruct (thread_of t e) as [th|] eqn:Hth; [by apply wp_thread_recipients|]. apply wp_ret. split; [|done].
  apply (tells_skip t e [RelMention; RelAuthor; RelAssignee]); [|set_solver|by intros; cbn; rewrite Hth].
  apply (tells_skip t e [RelMention; RelAuthor]); [|set_solver|by intros; cbn; rewrite Hth].
  apply (tells_skip t e [RelMention]); [done|set_solver|by intros; cbn; rewrite Hth].
Qed.

Lemma wp_watchers t e m : tells t e [RelMention; RelAuthor; RelAssignee; RelSubscribedThread] m →
  wp Fault_ (match ev_RepoID e with
      | Some repo => watchers ← ask (ListRepoWatchersByLevel repo "all"); mret (add_all (rows watchers) RelWatchingAll m)
      | None => mret m
      end) (fun m t' => tells t e [RelMention; RelAuthor; RelAssignee; RelSubscribedThread; RelWatchingAll] m ∧ t' = t) t.
Proof.
  intros Hm. pose proof (tells_add t e _ m RelWatchingAll Hm) as Hadd. specialize (Hadd ltac:(set_solver)). cbn [app] in Hadd.
  destruct (ev_RepoID e) as [r|] eqn:Hr.
  - apply wp_sql; intros ?. cbn. apply wp_ret. split; [|done]. apply Hadd. intros u. cbn. rewrite Hr, bool_decide_eq_true. apply watcher_rows.
  - apply wp_ret. split; [|done]. apply (Hadd []). intros u. cbn. rewrite Hr. set_solver.
Qed.

Lemma wp_recipients t e :
  wp Fault_ (computeRecipients e (thread_of t e))
    (fun m t' => t' = t ∧ ∀ u, m !! u = if bool_decide (ev_ActorUserID e = Some u) then None else
       match relations t e u with [] => None | l => Some l end) t.
Proof.
  unfold computeRecipients. set (m0 := add_all (ev_Mentions e) RelMention ∅).
  assert (tells t e [RelMention] m0) as H0.
  { apply (tells_add t e []); [by intros u; rewrite lookup_empty|set_solver|]. intros u. cbn. by rewrite bool_decide_eq_true. }
  apply wp_bind. eapply wp_weaken; [|by apply wp_threaded].
  intros m1 ? [H1 ->]. apply wp_bind. eapply wp_weaken; [|by apply wp_watchers].
  intros m2 ? [H2 ->]. apply wp_bind. eapply wp_weaken; [|by apply wp_owner].
  intros m3 ? [H3 ->]. apply wp_ret. split; [done|].
  set (m4 := if _ && _ then _ else _).
  assert (tells t e precedence m4) as H4.
  { replace m4 with (add_all (if bool_decide (ev_Kind e = "review_requested") && negb (bool_decide (ev_ReviewerUserID e = 0))
      then [ev_ReviewerUserID e] else []) RelReviewer m3) by (unfold m4; by destruct (_ && _)).
    apply (tells_add _ _ [RelMention; RelAuthor; RelAssignee; RelSubscribedThread; RelWatchingAll; RelRepoOwner]); [done|set_solver|].
    intros u. cbn. case_bool_decide; cbn; [|set_solver]. rewrite bool_decide_eq_true. case_bool_decide; cbn; set_solver. }
  intros u. destruct (ev_ActorUserID e) as [a|]; [|by rewrite bool_decide_false]. case_bool_decide as Ha.
  - injection Ha as ->. apply lookup_delete_eq.
  - rewrite lookup_delete_ne by congruence. apply H4.
Qed.

(** ** The event *)

Lemma verdict_map t e u :
  (if bool_decide (ev_ActorUserID e = Some u) then None else match relations t e u with [] => None | l => Some l end) ≫= verdict_on t e u =
  verdict t e u.
Proof.
  unfold verdict. case_bool_decide; [unfold verdict_on; by rewrite bool_decide_true|]. destruct (relations t e u) as [|rel l]; cbn [mbind option_bind]; [|done].
  unfold verdict_on. by rewrite bool_decide_false.
Qed.

(** C12: When nothing fails and nobody interferes, an event of a thread succeeds and leaves the inbox as the reference says (which, as
    routing.go and unlike docs/public/user/notifications.md, lets mentions and requests of a review reach those who
    ignore the repository): the row of the thread, of each user the verdict is for, says what the event and the action are, and every other row of a
    thread is as it was; the order in which the map is gone through is of no matter. *)
Theorem dispatch_exact (t : Tables) (e : DomainEvent) (th : Thread) :
  thread_of t e = Some th → sane t → (∀ u, insertable t e u (relations t e u)) →
  wp Fault_ (dispatchEvent hmac CheckPrincipalFeature order deps e) (fun r t' => r = Ok () ∧ outcome t e th (verdict t e) t') t.
Proof.
  intros Hth Hs Hok. unfold dispatchEvent. apply wp_bind. eapply wp_weaken; [|apply wp_thread]. intros ? ? [-> ->].
  apply wp_bind. eapply wp_weaken; [|apply wp_recipients]. intros m ? [-> Hm]. rewrite Hth.
  apply wp_bind, wp_ask; intros ?. apply wp_ret, wp_bind. eapply wp_weaken; [|apply tame_auto]. intros ? t1 Hc.
  set (l := order (ev_ID e) true (map_to_list m)).
  assert (l ≡ₚ map_to_list m) as Hl by apply Horder.
  assert (NoDup l.*1) as Hnd by (rewrite Hl; apply NoDup_fst_map_to_list).
  eapply wp_weaken; [|apply wp_notify_all; [done|by apply (sane_calm t)|]].
  - intros r t2 [-> Hout]. split; [done|]. eapply outcome_calm; [exact Hc|]. eapply outcome_ext; [|exact Hout].
    intros u. cbn beta. rewrite (list_to_map_proper l (map_to_list m)), list_to_map_to_list, Hm, <- verdict_map by done.
    match goal with |- ?o ≫= _ = _ => destruct o; cbn; [|done] end. apply (verdict_on_frame t t1), Hc.
  - intros u rels Hin. rewrite Hl in Hin. apply elem_of_map_to_list in Hin. rewrite Hm in Hin. case_bool_decide; [done|].
    apply (insertable_frame t); [apply Hc|]. specialize (Hok u). destruct (relations t e u); simplify_eq. done.
Qed.

End Exact.

(** Carol's comment on Bob's issue: Bob is told as its author. *)
Definition carol_comments : DomainEvent := comment 1.

Lemma demo_holds u rel : holds demo carol_comments u rel = bool_decide (rel = RelAuthor ∧ u = 2).
Proof.
  destruct rel; try by vm_compute. apply bool_decide_ext. change (Some 2 = Some u ↔ RelAuthor = RelAuthor ∧ u = 2). naive_solver.
Qed.

Lemma demo_relations u : relations demo carol_comments u = if bool_decide (u = 2) then [RelAuthor] else [].
Proof.
  unfold relations. rewrite (list_filter_iff _ (fun rel => rel = RelAuthor ∧ u = 2)).
  2: { intros rel. by rewrite demo_holds, bool_decide_eq_true. }
  case_bool_decide as Hu; [by subst|]. unfold precedence. rewrite !filter_cons_False; naive_solver.
Qed.

Lemma dispatch_exact_witness :
  verdict demo carol_comments 2 = Some as_author ∧
  wp Fault_ (dispatchEvent demo_hmac demo_check demo_order demo_deps carol_comments)
    (fun r t' => r = Ok () ∧ outcome demo carol_comments (ThreadIssue, 11) (verdict demo carol_comments) t') demo.
Proof.
  split; [reflexivity|]. apply dispatch_exact; [done|reflexivity| |].
  - by split.
  - intros u. rewrite demo_relations. unfold insertable. case_bool_decide as Hu; [subst; by intros ? [= <-]|].
    intros a. unfold verdict_on. by repeat case_bool_decide.
Defined.
